(* ===== verification/_CoqProject ===== *)
-Q . S2P
Prelude.v
PyLib.v
Programs.v
GraphStatus.v
CandidateQueue.v
CycleStore.v
Storage.v
Sse.v
History.v
Overlay.v
Fallback.v
Review.v
Promotion.v
LiveSync.v
LiveMetrics.v
Promote.v
Reload.v
Fingerprint.v
Manifest.v
Resolution.v
ResolutionProofs.v
Numbers.v
Client.v
Propagation.v
Merge.v
PropagationProofs.v
MergeProofs.v
Query.v
QueryProofs.v
Simulation.v
SimulationProofs.v
Backtest.v
BacktestProofs.v
MainCore.v
MainCoreProofs.v
Publish.v
PublishProofs.v
