(* ===== verification/Prelude.v ===== *)
(** * A verification library for the project-ult MVP

    The program is a stock-research system in two layers. The upstream
    packages under [src/upstream] keep the durable, cycle-oriented state:
    [data-platform] (candidate queue, cycle control, publish manifests, in
    PostgreSQL), [graph-engine] (a live graph in Neo4j whose status is one
    PostgreSQL row), [entity-registry] (canonical entities, aliases and the
    manual review of mentions that could not be resolved) and
    [reasoner-runtime] (structured calls to model providers); [main-core] turns
    the features of a cycle into recommendations and publishes them;
    [audit-eval] runs backtests; [contracts] holds the schemas they exchange.
    The application [src/mvp20] serves a browser from a SQLite "hot" database
    that collectors and the overlay compiler fill, streams changes to it, and
    archives minutes of data in Parquet files.

    ** How the parts interact

    Producers submit candidates to the queue; a validation pass settles them;
    a cycle freezes the accepted ones into its selection and walks its phases
    until a manifest publishes its snapshots. Graph deltas selected by a cycle
    are frozen over the entities their nodes stand for, parsed into a promotion
    plan, written to the canonical store and mirrored into the live graph. The
    mirroring, and the cold reload that rebuilds the live graph from canonical
    truth, bracket their work with transitions of the status row, and publish
    the metrics the graph has afterwards; readers read under a shared lock, and
    a snapshot is taken of what they read. Mentions are resolved against
    canonical entities and aliases; those that resolution leaves open are
    queued for a reviewer, whose decision is written with its case and alias in
    one step. Model calls made along the way go through a chain of providers.
    Questions about a ready graph walk it from
    seeds, or propagate impacts over projections of it that exist for the time
    of one run; a simulation does both through a client that lets nothing else
    be written. From the features of a cycle and the regime of the graph a
    world state is derived, a pool of entities chosen, a recommendation made
    for each, and all of it committed before a manifest makes it visible.
    Backtests of a feature run only behind a check that its data was known in
    time. On the application side, collectors upsert rows into the hot database
    and append them to the archive; overlays are generated, merged with what
    analysts filled in, and compiled into the hot database; requests and event
    streams read it.

    ** Files

    - [Prelude] (this file): results with their notation ([let*],
      [raise_if]), the tactics and hint databases, Python's stable sort,
      insertion-ordered dictionaries and strings, and lemmas on lists and maps
      that the components share.
    - [PyLib]: Python's dynamic values, dictionaries, truth, the part of
      [json.dumps] that decides whether a value can be written, and dates.
    - [GraphStatus]: [graph_engine/models.py], [status/store.py] and
      [status/manager.py]. The record and its validation; the class
      [StatusStoreOps] with the laws [StatusStoreSpec] that a store promises,
      and the PostgreSQL store as an instance; each manager method as the
      transition it computes from the row it read and the compare-and-set it
      then issues; and the system of several managers and readers as a step
      relation whose states hold the pending transitions.
    - [Promotion]: [graph_engine/evidence.py], the records of [models.py] with
      the validation pydantic does of them, [schema/definitions.py] and
      [promotion/planner.py]: [Evidence], [PromotionModel] and [Planner], whose
      [promotion_plan] is [promote_graph_deltas] up to its writes.
    - [LiveSync]: [graph_engine/sync/live_graph.py]: [LiveGraph] is the property
      graph and the effect of the generated Cypher clauses, [Sync] the rows,
      groups and batches made of a plan and the transaction that is sent.
    - [LiveMetrics]: [live_metrics.py] ([Metrics]: the metrics query, its strict
      reading and the checksum), [snapshots/generator.py] ([Snapshots]: the
      published graph snapshot), [status/consistency.py] and the snapshot
      bridge of [reload/service.py] ([Consistency]).
    - [Promote]: [promotion/service.py]: the promotion with its status barrier,
      as programs over the status store, the canonical store and the live
      graph; a record of [surroundings] says what other processes do before
      each access and which database call is lost.
    - [Reload]: [reload/service.py], [schema/manager.py], [schema/indexes.py]
      and [reload/projection.py]: [ReloadSchema] is the database with its schema
      objects and projections, [Reload] the stages of a cold reload as programs
      and the interleavings of its caller, which gives up at a deadline and
      whose failure handler may itself fail, with the worker of the current
      stage, which does not.
    - [CandidateQueue]: [data_platform/queue]: rows and enums, envelope
      validation with its error texts, plain and idempotent inserts with the
      serial columns and the partial unique index, the locked fetch, and the
      validation pass. The class [Jsonb] states what a jsonb column gives
      back.
    - [CycleStore]: [data_platform/cycle] and [formal_registry.py]: cycle
      rows, the freeze, the status machine, manifests with their
      normalisation and provenance checks, over one database that contains
      the queue of [CandidateQueue]. Histories of operations are lists; each
      operation is a transaction that raises and changes nothing, or succeeds.
    - [Storage]: [mvp20/storage.py]: the SQLite tables as maps on their
      primary keys, the reads (own rows, industry and market sentinels, delta,
      overlays, alerts), the upsert, and the replacement of the compiled
      overlays. The class [JsonText] states that [json.loads] reads back what
      [json.dumps] wrote.
    - [Sse]: [mvp20/json_utils.py] and the event stream of [mvp20/sse.py],
      against the reads of [Storage]; an iteration sees its clock readings,
      the database it polls and the fate of its write.
    - [History]: [mvp20/history.py]: the archive as two maps from file name to
      rows, append, query and compaction; the class [DuckDB] states what SQL
      promises of a scan and of ORDER BY.
    - [Overlay]: in [mvp20/overlays.py], the merge of a regenerated overlay
      with the file on disk, the coverage counters in binary64, and the
      validator's status rules. [dict_eq] is equality of dictionaries.
    - [Fallback]: [reasoner_runtime/providers]: classification of exceptions,
      the validator of a fallback decision, the provider chain, and the retry
      and fallback loop around a call that reads and changes any state.
    - [Fingerprint]: [mvp20/fingerprint.py]: the rows a node depends on, the
      texts hashed for them, and the decision to regenerate it.
    - [Manifest]: [mvp20/manifest.py] and [lock.py]: the validators of the
      universe, of its industry set and of the module lock.
    - [Programs]: stateful code that raises, as functions from a state to a
      result and a state ([let!], [stop_if], [finally]).
    - [Review]: in [entity_registry], the records of [references.py],
      [core.py] and [review.py] with their validators, the in-memory
      repositories of [storage.py], and the operations of [review.py]. The
      classes [AuditWriter] and [AliasWriter] state what a decision needs of
      the repositories it writes, a rollback that undoes the write;
      [ReviewRepository] is what enqueueing calls, any of it may raise, with
      the laws [ReviewRepositoryLaws] of a repository that keeps what it saved.
    - [Resolution]: in [entity_registry], the records of [core.py], [fuzzy.py],
      [llm_client.py] and [resolution_types.py], candidate collection and the
      decision of [resolution.py] against any [AuditWriter], the matcher of
      [fuzzy.py], the initialization of [init.py], and the batch jobs of
      [batch.py], which file what they leave open in any [ReviewRepository].
      [ResolutionProofs] holds the theorems and the runs.
    - [Numbers]: numbers read from payloads, sums of floats, and the keys by
      which results are sorted and grouped.
    - [Client]: [graph_engine/client.py] as the class [Neo4jClient], and
      [propagation/_gds.py]; [GdsCatalog] states what is documented of the
      catalog of projections.
    - [Propagation]: [propagation/channels.py], [scoring.py], [context.py] and
      the one run that [fundamental.py], [event.py] and [reflexive.py] share.
      [Merge]: [merge.py] and [pipeline.py]. Their theorems are in
      [PropagationProofs] and [MergeProofs].
    - [Query]: [query/service.py], subgraphs and paths read level by level; the
      class [JsonDecoder] is [json.loads]. [QueryProofs] has the class
      [GraphReads] of clients that answer from a graph, the ball around the
      seeds as the specification, and the theorems.
    - [Simulation]: the request in [models.py] and [query/simulation.py]: the
      scoped client as an instance of [Neo4jClient] over the one it wraps, and
      the run through [Merge] and [Query]. Theorems in [SimulationProofs].
    - [Backtest]: in [audit_eval], [_boundary.py], [backtest] and
      [contracts/backtest_result.py]: the point-in-time check and the run
      behind it. Theorems in [BacktestProofs].
    - [MainCore]: in [main_core], the formal objects of [common/schemas], the
      world state ([l4_world_state]), the pool ([l5_universe]) and the
      recommendations ([l7_recommendation]). Theorems in [MainCoreProofs].
    - [Publish]: [l8_publish]: the bundle of a cycle over any source, port and
      builders, and the dashboard and report. [PublishProofs] follows the calls
      of a run through a small logic of triples.

    ** What the theorems show

    - Graph status: any interleaving of managers follows the lifecycle, only
      the holder of the writer lock changes a locked row, a read that started
      in the ready state sees it until it ends, every method refines its
      transition, and recovery from any failure reaches ready again.
    - Promotion: a plan is well formed whatever the deltas were, does not depend
      on their order, holds the edges they propose between known entities and
      no others, and a delta survives being frozen. A sync mirrors its plan or
      changes nothing, whatever the batch size, and repeating it changes
      nothing. A promotion that returns has published the graph as it is, one
      that fails leaves the old graph or a failed row.
    - Metrics and snapshots: what is read of a graph does not depend on the
      order of the rows; a snapshot of a graph without assertions is accepted
      and consistent with it.
    - Cold reload: whatever the interleaving and the time-outs, the row says
      ready only over the rebuilt graph, no write passes the expired barrier
      but one that was under way, and every run ends. A reload that fails after
      its first stage leaves the row failed or published, unless the write
      that marks it failed itself fails ([failed_handler_sticks]); one that
      gives up in its first stage may find the row rebuilding later
      ([late_rebuilding_sticks]).
    - Queue: resubmitting a delta replays the stored receipt for good, a
      validation pass settles exactly the oldest pending rows and counts them
      right, a validated submission is accepted, and repeated passes drain the
      queue.
    - Cycles: from the empty database every history of operations keeps the
      tables consistent (one selection per candidate, counts and maxima that
      match the selection, manifests only of published cycles), cycles follow
      their state machine, a freeze takes exactly the eligible candidates, and
      a published manifest reads back and carries its proof of provenance.
    - Hot store: reads serve the most specific source (own rows, industries
      by rank, market) whatever the row order,
      upserts are last-write-wins and read back, replacement is atomic; a
      string stored verbatim breaks the reads of its stock.
    - Stream: what is sent is strict JSON, a stream terminates, a fresh row is
      sent by the next poll that sees it; a late row never is.
    - Archive: queries return the earliest matches in order, appended rows are
      found, compaction preserves answers; compacting twice loses rows, and
      keeping the sources duplicates them.
    - Overlays: regeneration keeps what was filled in, exactly as the code
      says, is stable, and satisfies the validator's status rules; the stored
      coverage goes stale.
    - Fingerprints: under a trigger that looks at sources, a node is
      regenerated exactly when one of those it declares has changed, whatever
      class of data it is, and not when only their JSON was written
      differently.
    - Manifests: the validators accept exactly the documents that satisfy the
      declarative conditions.
    - Providers: results and failures are attributed truthfully, the chain is
      sound, calls are bounded; running out of providers by timeout raises the
      wrong error.
    - Resolution: an entity is named only on one of three grounds and what is
      returned is what was recorded; a resolved reference is final for the
      resolver (a stale review decision is not bound by that); a batch
      leaves every input resolved or queued for review, or its job fails and
      the report says which filing failed; initialization is all or nothing and
      repeatable.
    - Review: any history keeps one item per reference that only moves
      forward and stays with its claimer, enqueueing is idempotent, a decision
      is all or nothing whatever the repositories' writes do, and its audit
      payload reads back.
    - Propagation: a run over all channels leaves no projection behind and
      drops none but its own, however it ends, as long as the calls that look
      for and drop one return; when its channels return it does; what it
      merges is the entities and paths of its channels, grouped by entity.
    - Queries: of a well-formed graph and a query that is not cut off, the
      ball of the given depth around the seeds: its nodes and, among those with
      a [node_id], its relationships, each identity once and as the graph has
      it; parallel relationships of one identity are merged and those of
      unnamed nodes lost, as the runs show. A subgraph is closed under the
      ends of its edges and paths are no longer than the depth.
    - Simulation: a simulation loses no projection and adds none but those it
      names, under the same condition leaves the catalog as it was, and sends
      no other write; the channels it reads for an edge are the ones the
      propagation would select it for.
    - Backtests: the check passes exactly when what it promises holds, at any
      depth of the request and for every row; an adapter is reached only
      behind it, a storage only with the result of the adapter's metrics.
    - Main core: a world state is derived exactly when the graph's context, if
      there is one, is of the bundle's cycle and the baseline, moved by at most
      one step, is a regime; a pool keeps its frozen entities, each for the
      first reason it was frozen for, and then takes the best of the rest; the
      fixed pool is exactly its twenty targets; a recommendation is what
      analysis, last override and gates make of it. A publication writes its
      manifest last, over all it committed, or fails before; it returns exactly
      when the manifest agrees.

    ** Conventions

    Strings are lists of code points up to U+00FF. Integers are unbounded, as
    Python's are; the widths of PostgreSQL columns are written out where a
    write can overflow them ([bigint] in [GraphStatus], [integer] counts in
    [CycleStore]). Times are integers: microseconds or seconds as the code
    stores them. Loops over data are structural, the
    provider loop recurs on the retries left, and a stream is run on the list
    of its iterations, with a theorem that the list cannot be longer than the
    maximum duration allows; only the batches of a sync use fuel, the number of
    rows, which is enough as a batch takes at least one. Concurrency is
    explicit: step relations ([GraphStatus]), events ([Reload]) or a function
    from the accesses of a program to what others do before them ([Promote]).
    Cypher clauses are their effect on a graph whose nodes are known by label
    and [node_id]; a driver's points in time are [PvTime] in the graph and
    [POther], with their text, once read. What the sources import from elsewhere is a class
    with laws ([Jsonb], [JsonText], [DuckDB], [Pydantic] for datetimes and
    bounded floats, [PyText] for [str], JSON texts and SHA-256, [PyNumbers] for
    the numbers texts spell, [Neo4jClient] and [GdsCatalog] for the graph
    database, [JsonDecoder]) or an argument (fresh UUIDs, [str] of values
    that are not strings, the contract names, the event-driven data points, a
    provider call, a matcher, a reasoner, the digest that names a review item, assumed to have no
    collision on the references queued); every theorem that uses one has a witness with a concrete
    instance.

    ** Not modelled

    SQL engines beyond the statements used, network and file I/O, the HTTP
    server and command line, market data sources, holdings and impact snapshots,
    the permissive reading of metrics, the artifact reader of the reload, the
    overlay compiler and the rest of its validator, scoring, and of the
    evaluation package the stores of audit records, drift reports and the
    metrics that backtests compute. Exceptions that only an
    ill-typed argument can raise are left out where the callers rule them
    out. *)
From Stdlib Require Import String Ascii ZArith List Sorting.Sorted.
From stdpp Require Import base gmap strings list sorting.

Declare Scope py_scope.
Delimit Scope py_scope with py.

(** ** Results: a value or a raised exception *)

Inductive result (E A : Type) : Type :=
| Ok (a : A)
| Err (e : E).
Arguments Ok {E A} a.
Arguments Err {E A} e.

Definition rbind {E A B} (r : result E A) (k : A → result E B) : result E B :=
  match r with
  | Ok a => k a
  | Err e => Err e
  end.

Definition guard_err {E} (cond : bool) (e : E) : result E () :=
  if cond then Err e else Ok ().

Definition map_err {E F A} (f : E → F) (r : result E A) : result F A :=
  match r with Ok a => Ok a | Err e => Err (f e) end.

Notation "'let*' x := e 'in' k" := (rbind e (fun x => k))
  (at level 10, x binder, e at level 100, k at level 200,
   format "'[hv' 'let*'  x  :=  e  'in'  '//' k ']'") : py_scope.
Notation "'raise_if' c 'with' x ; k" := (rbind (guard_err c x) (fun _ => k))
  (at level 10, c at level 100, x at level 100, k at level 200,
   format "'[hv' 'raise_if'  c  'with'  x ;  '//' k ']'") : py_scope.
#[global] Open Scope py_scope.

Definition is_ok {E A} (r : result E A) : bool :=
  match r with Ok _ => true | Err _ => false end.

Fixpoint rmap_list {E A B} (f : A → result E B) (l : list A) : result E (list B) :=
  match l with
  | [] => Ok []
  | x :: rest =>
      let* y := f x in
      let* ys := rmap_list f rest in
      Ok (y :: ys)
  end.

Fixpoint rfold {E A B} (f : B → A → result E B) (acc : B) (l : list A) : result E B :=
  match l with
  | [] => Ok acc
  | x :: rest => let* acc' := f acc x in rfold f acc' rest
  end.

Fixpoint riter {E A} (f : A → result E ()) (l : list A) : result E () :=
  match l with
  | [] => Ok ()
  | x :: rest => let* _ := f x in riter f rest
  end.

Lemma rbind_ok {E A B} (r : result E A) (k : A → result E B) b :
  rbind r k = Ok b ↔ ∃ a, r = Ok a ∧ k a = Ok b.
Proof. destruct r; simpl; naive_solver. Qed.

Lemma rbind_err {E A B} (r : result E A) (k : A → result E B) e :
  rbind r k = Err e ↔ r = Err e ∨ ∃ a, r = Ok a ∧ k a = Err e.
Proof. destruct r; simpl; naive_solver. Qed.

Lemma guard_err_ok {E} (c : bool) (e : E) u : guard_err c e = Ok u ↔ c = false.
Proof. destruct c, u; simpl; naive_solver. Qed.

Lemma guard_err_err {E} (c : bool) (e e' : E) :
  guard_err c e = Err e' ↔ c = true ∧ e' = e.
Proof. destruct c; simpl; naive_solver. Qed.

Lemma is_ok_ex {E A} (r : result E A) : is_ok r = true ↔ ∃ a, r = Ok a.
Proof. destruct r; simpl; naive_solver. Qed.

Lemma rmap_list_total {E A B} (f : A → result E B) l : (∀ x, x ∈ l → is_ok (f x) = true) → ∃ l', rmap_list f l = Ok l'.
Proof.
  induction l as [|x l IH]; intros Hf; [by eexists|]. cbn [rmap_list].
  destruct (proj1 (is_ok_ex _) (Hf x (list_elem_of_here _ _))) as [y ->].
  destruct IH as [ys ->]; [intros z Hz; apply Hf; by right|]. by eexists.
Qed.

Section result_lemmas.
Context {E A B : Type}.

Lemma rmap_list_ok (f : A → result E B) l l' :
  rmap_list f l = Ok l' ↔ Forall2 (λ x y, f x = Ok y) l l'.
Proof.
  revert l'; induction l as [|x l IH]; intros l'; simpl.
  - split; [intros [= <-]; constructor | by inversion 1].
  - rewrite rbind_ok. split.
  + intros (y & Hy & (ys & Hys & [= <-])%rbind_ok).
    constructor; [done|]. by apply IH.
  + inversion 1 as [|? y ? ys Hy Hys]; subst. exists y. split; [done|].
    apply IH in Hys. by rewrite Hys.
Qed.

Lemma rmap_list_length (f : A → result E B) l l' :
  rmap_list f l = Ok l' → length l' = length l.
Proof. intros ?%rmap_list_ok%Forall2_length. done. Qed.

Lemma rmap_list_elem (f : A → result E B) l l' x :
  rmap_list f l = Ok l' → x ∈ l → ∃ y, y ∈ l' ∧ f x = Ok y.
Proof.
  intros H%rmap_list_ok. induction H as [|x' y l l' Hxy _ IH]; [by intros ?%elem_of_nil|].
  intros [->|Hx]%elem_of_cons; [exists y; split; [apply list_elem_of_here|done]|].
  destruct (IH Hx) as (z & Hz & Hf). exists z. split; [by right|done].
Qed.

Lemma rmap_list_elem_of (f : A → result E B) l l' y :
  rmap_list f l = Ok l' → y ∈ l' ↔ ∃ x, x ∈ l ∧ f x = Ok y.
Proof.
  intros Hl. split; [|intros (x & Hx & Hy); destruct (rmap_list_elem f l l' x Hl Hx) as (y' & ? & Hy'); congruence].
  apply rmap_list_ok in Hl. intros [i Hi]%list_elem_of_lookup. destruct (Forall2_lookup_r _ _ _ _ _ Hl Hi) as (x & Hx & Hf).
  exists x. split; [by eapply list_elem_of_lookup_2|done].
Qed.

Lemma riter_ok (f : A → result E ()) l :
  riter f l = Ok () ↔ Forall (λ x, f x = Ok ()) l.
Proof.
  induction l as [|x l IH]; simpl; [split; [constructor | done]|].
  rewrite rbind_ok, Forall_cons. split.
  - intros ([] & ? & ?). split; [done|]. by apply IH.
  - intros [? ?]. exists (). split; [done|]. by apply IH.
Qed.

(** Invariant rule for the accumulating loops of the code. *)
Lemma rfold_inv (P : B → Prop) (f : B → A → result E B) acc l acc' :
  P acc →
  (∀ b x b', x ∈ l → P b → f b x = Ok b' → P b') →
  rfold f acc l = Ok acc' → P acc'.
Proof.
  revert acc; induction l as [|x l IH]; simpl; intros acc Hacc Hstep.
  - by intros [= <-].
  - intros (b & Hb & Hrest)%rbind_ok. eapply IH; [| |exact Hrest].
  + eapply Hstep; [left|exact Hacc|exact Hb].
  + intros b0 y b1 Hy. apply Hstep. by right.
Qed.
End result_lemmas.

(** An element of a list is determined by a key the list holds once. *)
Lemma NoDup_map_inj {A B} (f : A → B) l x y :
  NoDup (map f l) → x ∈ l → y ∈ l → f x = f y → x = y.
Proof.
  induction l as [|z l IH]; simpl; [intros _ H; by apply elem_of_nil in H|].
  rewrite NoDup_cons, !elem_of_cons. intros [Hz Hl] [->|Hx] [->|Hy] E; auto.
  - exfalso. apply Hz. rewrite E. by apply list_elem_of_fmap_2.
  - exfalso. apply Hz. rewrite <- E. by apply list_elem_of_fmap_2.
Qed.

Lemma filter_sublist {A} (f : A → bool) l : sublist (List.filter f l) l.
Proof. induction l as [|x l IH]; simpl; [constructor|]. destruct (f x); by constructor. Qed.

Lemma NoDup_map_sub {A B} (f : A → B) l1 l2 :
  l1 `sublist_of` l2 → NoDup (map f l2) → NoDup (map f l1).
Proof. intros Hs Hn. eapply sublist_NoDup; [exact Hn|]. by apply (fmap_sublist f). Qed.

Lemma NoDup_map_perm {A B} (f : A → B) l1 l2 :
  l1 ≡ₚ l2 → NoDup (map f l2) → NoDup (map f l1).
Proof. intros Hp. by rewrite (Permutation_map f Hp). Qed.

Section filter_lemmas.
Context {A : Type} (P : A → Prop) `{∀ x, Decision (P x)}.

Lemma filter_all l : Forall P l → filter P l = l.
Proof. induction 1; [done|]. rewrite filter_cons_True by done. by f_equal. Qed.

Lemma filter_none l : Forall (λ x, ¬ P x) l → filter P l = [].
Proof. induction 1; [done|]. by rewrite filter_cons_False. Qed.

(** Filtering after a map that only removes elements from [P]. *)
Lemma length_filter_map (Q : A → Prop) `{∀ x, Decision (Q x)} (f : A → A) l :
  (∀ x, x ∈ l → P (f x) ↔ Q x ∧ P x) →
  length (filter P (map f l)) = length (filter Q (filter P l)).
Proof.
  induction l as [|x l IH]; intros Hf; [done|]. cbn [map].
  assert (∀ y, y ∈ l → P (f y) ↔ Q y ∧ P y) as Hl by (intros; apply Hf; by right).
  pose proof (Hf x (list_elem_of_here _ _)) as Hx. specialize (IH Hl). clear Hf Hl.
  rewrite !filter_cons. destruct (decide (P (f x))) as [HP|HP], (decide (P x)) as [HP'|HP'];
  rewrite ?filter_cons; destruct (decide (Q x)); cbn [length];
  first [congruence | tauto].
Qed.
Lemma filter_ext_in (Q : A → Prop) `{∀ x, Decision (Q x)} (l : list A) :
  (∀ x, x ∈ l → P x ↔ Q x) → filter P l = filter Q l.
Proof.
  induction l as [|x l IH]; intros Hf; [done|].
  rewrite !filter_cons, IH by (intros; apply Hf; by right).
  pose proof (Hf x (list_elem_of_here _ _)). destruct (decide (P x)), (decide (Q x)); tauto.
Qed.
End filter_lemmas.

Lemma length_filter_perm {A} (f : A → bool) (l l' : list A) :
  l ≡ₚ l' → length (List.filter f l) = length (List.filter f l').
Proof. induction 1; simpl; repeat case_match; simpl; congruence. Qed.

Lemma riter_err {E A} (f : A → result E ()) l e :
  riter f l = Err e → ∃ x, x ∈ l ∧ f x = Err e.
Proof.
  induction l as [|x l IH]; simpl; [done|].
  intros [?|(u & _ & (y & ? & ?)%IH)]%rbind_err.
  - exists x. split; [left|done].
  - exists y. split; [by right|done].
Qed.

Lemma map_err_ok {E F A} (f : E → F) (r : result E A) a :
  map_err f r = Ok a ↔ r = Ok a.
Proof. destruct r; simpl; naive_solver. Qed.

Create HintDb pydb.
#[export] Hint Resolve <- rbind_ok guard_err_ok : pydb.
Create Rewrite HintDb py_rw.
#[export] Hint Rewrite @rbind_ok @guard_err_ok @rmap_list_ok @riter_ok : py_rw.

(** Decompose every successful monadic computation among the hypotheses. *)
Ltac rinv_step :=
  match goal with
  | H : rbind _ _ = Ok _ |- _ =>
      let a := fresh "a" in let Ha := fresh "Ha" in
      apply rbind_ok in H as (a & Ha & H); cbn beta in H
  | H : guard_err _ _ = Ok _ |- _ => apply guard_err_ok in H
  | H : map_err _ _ = Ok _ |- _ => apply map_err_ok in H
  | H : Ok _ = Ok _ |- _ => injection H as H; try subst
  | H : Ok _ = Err _ |- _ => discriminate H
  | H : Err _ = Ok _ |- _ => discriminate H
  | H : Err _ = Err _ |- _ => injection H as H; try subst
  | u : () |- _ => destruct u
  end.
Ltac rinv := repeat rinv_step.

(** Split a hypothesis or goal on the scrutinee of its match, closing the
    branches that contradict. *)
Ltac rcase H :=
  match type of H with
  | context [match ?x with _ => _ end] =>
      let E := fresh "E" in destruct x eqn:E; try discriminate H
  end.

(** Boolean tests become propositions. *)
Ltac to_prop :=
  repeat match goal with
  | H : negb _ = true |- _ => apply negb_true_iff in H
  | H : negb _ = false |- _ => apply negb_false_iff in H
  | H : (_ && _)%bool = true |- _ => apply andb_true_iff in H as [? ?]
  | H : (_ || _)%bool = false |- _ => apply orb_false_iff in H as [? ?]
  | H : bool_decide _ = true |- _ => apply bool_decide_eq_true in H
  | H : bool_decide _ = false |- _ => apply bool_decide_eq_false in H
  | H : String.eqb _ _ = true |- _ => apply String.eqb_eq in H
  | H : String.eqb _ _ = false |- _ => apply String.eqb_neq in H
  | H : (_ <? _)%Z = true |- _ => apply Z.ltb_lt in H
  | H : (_ <? _)%Z = false |- _ => apply Z.ltb_ge in H
  | H : (_ <=? _)%Z = true |- _ => apply Z.leb_le in H
  | H : (_ <=? _)%Z = false |- _ => apply Z.leb_gt in H
  | H : (_ =? _)%Z = true |- _ => apply Z.eqb_eq in H
  | H : (_ =? _)%Z = false |- _ => apply Z.eqb_neq in H
  end.

(** ** Stable sorting, as Python's [sorted] *)

Section stable_sort.
Context {A : Type} (leb : A → A → bool).

Fixpoint sort_insert (x : A) (l : list A) : list A :=
  match l with
  | [] => [x]
  | y :: rest => if leb x y then x :: l else y :: sort_insert x rest
  end.

(** [sorted(l)]: a stable insertion sort for the preorder [leb]. *)
Definition py_sort (l : list A) : list A := foldr sort_insert [] l.

Lemma sort_insert_perm x l : sort_insert x l ≡ₚ x :: l.
Proof.
  induction l as [|y l IH]; simpl; [done|].
  destruct (leb x y); [done|]. rewrite IH. apply perm_swap.
Qed.

Lemma py_sort_perm l : py_sort l ≡ₚ l.
Proof.
  induction l as [|x l IH]; simpl; [done|]. by rewrite sort_insert_perm, IH.
Qed.

Lemma py_sort_length l : length (py_sort l) = length l.
Proof. apply Permutation_length, py_sort_perm. Qed.

Lemma elem_of_py_sort x l : x ∈ py_sort l ↔ x ∈ l.
Proof. by rewrite (py_sort_perm l). Qed.

Context (leb_tot : ∀ x y, leb x y = true ∨ leb y x = true).
Context (leb_trans : ∀ x y z, leb x y = true → leb y z = true → leb x z = true).

Lemma sort_insert_sorted x l :
  StronglySorted leb l → StronglySorted leb (sort_insert x l).
Proof using leb_tot leb_trans.
  induction 1 as [|y l Hl IH Hy]; simpl.
  - repeat constructor.
  - destruct (leb x y) eqn:Hxy.
  + constructor; [by constructor|]. constructor; [by rewrite Hxy|].
    eapply Forall_impl; [exact Hy|]. simpl. intros z Hz.
    apply Is_true_eq_left. apply Is_true_eq_true in Hz. eauto.
  + constructor; [done|]. rewrite sort_insert_perm. constructor; [|done].
    destruct (leb_tot x y) as [H|H]; [congruence|]. by rewrite H.
Qed.

Lemma py_sort_sorted l : StronglySorted leb (py_sort l).
Proof using leb_tot leb_trans.
  induction l as [|x l IH]; simpl; [constructor|]. by apply sort_insert_sorted.
Qed.
End stable_sort.

Definition sort_on {A} (key : A → string) : list A → list A :=
  py_sort (λ x y, String.leb (key x) (key y)).
Definition sorted_strings : list string → list string := py_sort String.leb.
(** [sorted(s)] for a set of strings. *)
Definition sorted_set (s : gset string) : list string := sorted_strings (elements s).

Lemma string_leb_trans x y z :
  String.leb x y = true → String.leb y z = true → String.leb x z = true.
Proof.
  intros Hx Hy. apply Is_true_eq_true. transitivity y; by apply Is_true_eq_left.
Qed.

Lemma sort_on_sorted {A} (key : A → string) l :
  StronglySorted (λ x y, String.leb (key x) (key y)) (sort_on key l).
Proof.
  apply (py_sort_sorted (λ x y, String.leb (key x) (key y))).
  - intros. apply String.leb_total.
  - intros ???. apply string_leb_trans.
Qed.

Lemma sort_on_id {A} (key : A → string) l :
  StronglySorted (λ x y, String.leb (key x) (key y)) l → sort_on key l = l.
Proof.
  unfold sort_on. induction 1 as [|x l Hl IH Hx]; [done|]. cbn [py_sort foldr]. unfold py_sort in IH. rewrite IH.
  destruct l as [|y l]; [done|]. cbn [sort_insert]. apply Forall_cons in Hx as [Hxy _]. apply Is_true_true in Hxy.
  by rewrite Hxy.
Qed.

(** Sorting on a key the list holds once forgets the order of the list. *)
Lemma sort_on_perm_eq {A} (key : A → string) l l' :
  NoDup (map key l) → l ≡ₚ l' → sort_on key l = sort_on key l'.
Proof.
  intros Hn Hp. apply (StronglySorted_unique_strong (λ x y, String.leb (key x) (key y))).
  - intros x y Hx%elem_of_py_sort Hy%elem_of_py_sort Hxy Hyx.
    rewrite <- Hp in Hy. apply (NoDup_map_inj key l); [done..|]. by apply (anti_symm String.le).
  - apply sort_on_sorted.
  - apply sort_on_sorted.
  - unfold sort_on. by rewrite !py_sort_perm.
Qed.

Lemma strongly_sorted_weaken {A} (R R' : A → A → Prop) l :
  (∀ x y, R x y → R' x y) → StronglySorted R l → StronglySorted R' l.
Proof.
  intros HR. induction 1 as [|x l Hl IH Hx]; constructor; [done|].
  eapply Forall_impl; [exact Hx|]. auto.
Qed.

(** [ORDER BY key ASC] *)
Lemma py_sort_by_key {A} (key : A → Z) l :
  StronglySorted (λ a b, key a ≤ key b)%Z (py_sort (λ a b, key a <=? key b)%Z l).
Proof.
  eapply strongly_sorted_weaken; [|apply py_sort_sorted]; simpl.
  - intros x y H. by apply Is_true_true, Z.leb_le in H.
  - intros x y. lia.
  - intros x y z. lia.
Qed.

Lemma sorted_strings_sorted l : StronglySorted String.leb (sorted_strings l).
Proof.
  apply (py_sort_sorted String.leb); [apply String.leb_total | apply string_leb_trans].
Qed.

Lemma elem_of_sorted_set x s : x ∈ sorted_set s ↔ x ∈ s.
Proof. unfold sorted_set, sorted_strings. by rewrite elem_of_py_sort, elem_of_elements. Qed.

Lemma NoDup_sorted_set s : NoDup (sorted_set s).
Proof. unfold sorted_set, sorted_strings. rewrite py_sort_perm. apply NoDup_elements. Qed.

Lemma sorted_set_nil s : sorted_set s = [] ↔ s = ∅.
Proof.
  split; [|by intros ->].
  intros H. apply set_eq. intros x. rewrite <- elem_of_sorted_set, H. set_solver.
Qed.

(** Two sorted duplicate-free listings with the same members are equal, so a
    sorted set does not depend on how the set was built. *)
Lemma sorted_strings_unique l1 l2 : l1 ≡ₚ l2 → sorted_strings l1 = sorted_strings l2.
Proof.
  intros Hp. apply (StronglySorted_unique String.le).
  - apply sorted_strings_sorted.
  - apply sorted_strings_sorted.
  - unfold sorted_strings. by rewrite !py_sort_perm.
Qed.
#[export] Hint Resolve py_sort_perm py_sort_length sort_on_sorted sorted_strings_sorted
  NoDup_sorted_set : pydb.

(** ** Insertion-ordered dictionaries with string keys

    A Python [dict] iterates in insertion order, and assigning to a present
    key keeps its position; where the code relies on neither, the components
    use [gmap] instead. *)

Abbreviation pydict V := (list (string * V)).

Fixpoint dget {V} (k : string) (d : pydict V) : option V :=
  match d with
  | [] => None
  | (k', v) :: rest => if String.eqb k k' then Some v else dget k rest
  end.

Fixpoint dset {V} (k : string) (v : V) (d : pydict V) : pydict V :=
  match d with
  | [] => [(k, v)]
  | (k', v') :: rest =>
      if String.eqb k k' then (k', v) :: rest else (k', v') :: dset k v rest
  end.

(** [d.setdefault(k, v)] *)
Definition dsetdefault {V} (k : string) (v : V) (d : pydict V) : pydict V :=
  match dget k d with Some _ => d | None => dset k v d end.

Definition dkeys {V} (d : pydict V) : list string := map fst d.
Definition dhas {V} (k : string) (d : pydict V) : bool :=
  match dget k d with Some _ => true | None => false end.
(** [{**d1, **d2}] *)
Definition dmerge {V} (d1 d2 : pydict V) : pydict V :=
  fold_left (λ acc kv, dset kv.1 kv.2 acc) d2 d1.

Section pydict_lemmas.
Context {V : Type}.
Implicit Types d : pydict V.

Lemma dget_dset_eq k v d : dget k (dset k v d) = Some v.
Proof.
  induction d as [|[k' v'] d IH]; simpl; [by rewrite String.eqb_refl|].
  destruct (String.eqb k k') eqn:E; simpl; by rewrite E.
Qed.

Lemma dget_dset_ne k k' v d : k ≠ k' → dget k' (dset k v d) = dget k' d.
Proof.
  intros Hne. induction d as [|[k0 v0] d IH]; simpl.
  - destruct (String.eqb k' k) eqn:E; [|done]. apply String.eqb_eq in E. congruence.
  - destruct (String.eqb k k0) eqn:E; simpl.
  + apply String.eqb_eq in E as ->.
    destruct (String.eqb k' k0) eqn:E'; [|done].
    apply String.eqb_eq in E'. congruence.
  + by rewrite IH.
Qed.

Lemma dget_dset k k' v d :
  dget k' (dset k v d) = if String.eqb k' k then Some v else dget k' d.
Proof.
  destruct (String.eqb k' k) eqn:E.
  - apply String.eqb_eq in E as ->. apply dget_dset_eq.
  - apply String.eqb_neq in E. by apply dget_dset_ne.
Qed.

Lemma dkeys_dset k v d :
  dkeys (dset k v d) = if dhas k d then dkeys d else dkeys d ++ [k].
Proof.
  unfold dhas, dkeys. induction d as [|[k' v'] d IH]; simpl; [done|].
  destruct (String.eqb k k') eqn:E; simpl; [done|].
  rewrite IH. by destruct (dget k d).
Qed.

Lemma elem_of_dkeys k d : k ∈ dkeys d ↔ is_Some (dget k d).
Proof.
  unfold dkeys. induction d as [|[k' v'] d IH]; simpl.
  - rewrite elem_of_nil. split; [done | by intros [? ?]].
  - rewrite elem_of_cons. destruct (String.eqb k k') eqn:E.
  + apply String.eqb_eq in E. split; eauto.
  + apply String.eqb_neq in E. naive_solver.
Qed.

Lemma dhas_true k d : dhas k d = true ↔ k ∈ dkeys d.
Proof.
  rewrite elem_of_dkeys. unfold dhas. destruct (dget k d); naive_solver.
Qed.

Lemma dset_new k v d : k ∉ dkeys d → dset k v d = (d ++ [(k, v)])%list.
Proof.
  induction d as [|[k' v'] d IH]; simpl; [done|]. intros [Hne Hk]%not_elem_of_cons.
  apply String.eqb_neq in Hne as ->. by rewrite IH.
Qed.

Lemma NoDup_dset k v d : NoDup (dkeys d) → NoDup (dkeys (dset k v d)).
Proof.
  intros H. rewrite dkeys_dset. destruct (dhas k d) eqn:E; [done|].
  apply NoDup_app. split_and!; [done| |apply NoDup_singleton].
  intros x Hx ->%list_elem_of_singleton. apply dhas_true in Hx. congruence.
Qed.

Lemma dget_setdefault k k' v d :
  dget k' (dsetdefault k v d) =
  match dget k' d with
  | Some w => Some w
  | None => if String.eqb k' k then Some v else None
  end.
Proof.
  unfold dsetdefault. destruct (dget k d) as [w|] eqn:E.
  - destruct (dget k' d) eqn:E'; [done|].
  destruct (String.eqb k' k) eqn:Ek; [|done]. apply String.eqb_eq in Ek. congruence.
  - rewrite dget_dset. destruct (String.eqb k' k) eqn:Ek.
  + apply String.eqb_eq in Ek as ->. by rewrite E.
  + by destruct (dget k' d).
Qed.

Lemma dget_Some_elem k v d : dget k d = Some v → (k, v) ∈ d.
Proof.
  induction d as [|[k' v'] d IH]; simpl; [done|].
  destruct (String.eqb k k') eqn:E.
  - apply String.eqb_eq in E as ->. intros [= ->]. left.
  - intros ?. right. auto.
Qed.

Lemma elem_of_dget k v d : NoDup (dkeys d) → (k, v) ∈ d → dget k d = Some v.
Proof.
  induction d as [|[k' v'] d IH]; simpl; [by rewrite elem_of_nil|].
  rewrite NoDup_cons, elem_of_cons. intros [Hk Hd] [[= -> ->]|Hin].
  - by rewrite String.eqb_refl.
  - destruct (String.eqb k k') eqn:E; [|auto].
  apply String.eqb_eq in E as ->. exfalso. apply Hk.
  apply list_elem_of_fmap. by exists (k', v).
Qed.
Lemma length_dset k v d : length (dset k v d) = if dhas k d then length d else S (length d).
Proof.
  rewrite <- (length_map fst (dset k v d)), <- (length_map fst d). fold (dkeys (dset k v d)). fold (dkeys d).
  rewrite dkeys_dset. destruct (dhas k d); [done|]. rewrite length_app. simpl. lia.
Qed.

Lemma elem_of_dset k k' v d : k' ∈ dkeys (dset k v d) ↔ k' = k ∨ k' ∈ dkeys d.
Proof.
  rewrite !elem_of_dkeys, dget_dset. destruct (String.eqb_spec k' k) as [->|Hne]; [naive_solver eauto|naive_solver].
Qed.

Lemma dset_values k v x d : x ∈ map snd (dset k v d) → x = v ∨ x ∈ map snd d.
Proof.
  induction d as [|[k' v'] d IH]; simpl; [by intros ?%list_elem_of_singleton; left|].
  destruct (String.eqb k k'); simpl; rewrite !elem_of_cons; naive_solver.
Qed.
End pydict_lemmas.
#[export] Hint Resolve NoDup_dset dget_dset_eq : pydb.
#[export] Hint Rewrite @dget_dset_eq @dget_dset @dget_setdefault : py_rw.

(** ** Python strings

    A [str] is the list of its code points, here restricted to U+0000..U+00FF,
    one [ascii] per code point. *)

(** [c.isspace()] for the code points above. *)
Definition py_space (c : ascii) : bool :=
  let n := nat_of_ascii c in
  ((9 <=? n) && (n <=? 13) || (28 <=? n) && (n <=? 32) || (n =? 133) || (n =? 160))%bool%nat.

Fixpoint lstrip (s : string) : string :=
  match s with
  | EmptyString => EmptyString
  | String c rest => if py_space c then lstrip rest else s
  end.

Fixpoint rstrip (s : string) : string :=
  match s with
  | EmptyString => EmptyString
  | String c rest =>
      match rstrip rest with
      | EmptyString => if py_space c then EmptyString else String c EmptyString
      | rest' => String c rest'
      end
  end.

(** [s.strip()] *)
Definition strip (s : string) : string := lstrip (rstrip s).

Definition lower_char (c : ascii) : ascii :=
  let n := nat_of_ascii c in
  if ((65 <=? n) && (n <=? 90) || (192 <=? n) && (n <=? 222) && negb (n =? 215))%bool%nat
  then ascii_of_nat (n + 32) else c.

Fixpoint smap (f : ascii → ascii) (s : string) : string :=
  match s with
  | EmptyString => EmptyString
  | String c rest => String (f c) (smap f rest)
  end.

Definition lower : string → string := smap lower_char.
(** [s.replace(a, b)] for one-character [a] and [b]. *)
Definition replace_char (a b : ascii) : string → string :=
  smap (λ c, if Ascii.eqb c a then b else c).

Definition startswith (p s : string) : bool := String.prefix p s.
Definition endswith (p s : string) : bool :=
  String.prefix (String.rev p) (String.rev s).
(** [sub in s] *)
Fixpoint contains (sub s : string) : bool :=
  startswith sub s || match s with EmptyString => false | String _ rest => contains sub rest end.
Definition is_empty (s : string) : bool :=
  match s with EmptyString => true | _ => false end.
(** [sep.join(parts)] *)
Definition join (sep : string) (parts : list string) : string := String.concat sep parts.

Fixpoint all_chars (f : ascii → bool) (s : string) : bool :=
  match s with
  | EmptyString => true
  | String c rest => f c && all_chars f rest
  end.

(** [s.split(sep)] for a one-character [sep]. *)
Fixpoint split_char (sep : ascii) (s : string) : list string :=
  match s with
  | EmptyString => [EmptyString]
  | String c rest =>
      if Ascii.eqb c sep then EmptyString :: split_char sep rest
      else match split_char sep rest with
           | [] => [String c EmptyString]
           | p :: ps => String c p :: ps
           end
  end.

Definition is_digit (c : ascii) : bool :=
  let n := nat_of_ascii c in ((48 <=? n) && (n <=? 57))%bool%nat.
Definition is_upper_az (c : ascii) : bool :=
  let n := nat_of_ascii c in ((65 <=? n) && (n <=? 90))%bool%nat.
Definition is_lower_az (c : ascii) : bool :=
  let n := nat_of_ascii c in ((97 <=? n) && (n <=? 122))%bool%nat.

Lemma lstrip_idemp s : lstrip (lstrip s) = lstrip s.
Proof. induction s as [|c s IH]; simpl; [done|]. destruct (py_space c) eqn:E; simpl; [done|by rewrite E]. Qed.

Lemma rstrip_idemp s : rstrip (rstrip s) = rstrip s.
Proof.
  induction s as [|c s IH]; simpl; [done|].
  destruct (rstrip s) eqn:E.
  - destruct (py_space c) eqn:Ec; simpl; [done|]. by rewrite Ec.
  - cbn [rstrip]. cbn [rstrip] in IH. by rewrite IH.
Qed.

Lemma lstrip_rstrip_comm s : rstrip (lstrip (rstrip s)) = lstrip (rstrip s).
Proof.
  induction s as [|c s IH]; simpl; [done|].
  destruct (rstrip s) as [|c' s'] eqn:E.
  - destruct (py_space c) eqn:Ec; cbn; rewrite ?Ec; cbn; by rewrite ?Ec.
  - cbn [lstrip]. destruct (py_space c) eqn:Ec; [exact IH|].
    pose proof (rstrip_idemp (String c s)) as H. cbn [rstrip] in H.
    rewrite E in H. exact H.
Qed.

Lemma strip_idemp s : strip (strip s) = strip s.
Proof. unfold strip. by rewrite lstrip_rstrip_comm, lstrip_idemp. Qed.
#[export] Hint Rewrite strip_idemp : py_rw.

(** ** Building a map entry by entry *)
Section fold_insert.
Context {K : Type} `{Countable K} {V : Type}.

Lemma fold_insert_map (l : list (K * V)) (acc : gmap K V) :
  NoDup (map fst l) →
  fold_left (λ m kv, <[kv.1 := kv.2]> m) l acc = list_to_map l ∪ acc.
Proof.
  revert acc. induction l as [|[k v] l IH]; intros acc; cbn [map fold_left fst snd].
  { intros _. by rewrite list_to_map_nil, (left_id_L ∅ (∪)). }
  rewrite NoDup_cons. intros [Hk Hl]. rewrite IH by done.
  rewrite list_to_map_cons, <- insert_union_l. symmetry. apply insert_union_r.
  by apply not_elem_of_list_to_map_1.
Qed.

Lemma fold_insert_all (m : gmap K V) :
  fold_left (λ m kv, <[kv.1 := kv.2]> m) (map_to_list m) ∅ = m.
Proof.
  rewrite fold_insert_map by apply NoDup_fst_map_to_list.
  by rewrite list_to_map_to_list, (right_id_L ∅ (∪)).
Qed.
End fold_insert.
