(* ===== verification/PyLib.v ===== *)
(** * PyLib: dynamic values, JSON and calendar dates

    What the components use of Python's own values and standard library: the
    values that occur in payloads and configuration documents, the part of
    [json.dumps] that decides whether a value can be written, and [date] with
    its [%Y%m%d] form. *)
From Stdlib Require Import String Ascii ZArith List SpecFloat.
From stdpp Require Import base gmap strings list pretty.
From S2P Require Import Prelude.
Local Open Scope string_scope.
Local Open Scope Z_scope.

(** ** Values

    [PFloat] holds the binary64 number as its sign, mantissa and exponent;
    [POther] is any object that is neither a mapping, a sequence nor a JSON
    scalar, with its class name. *)
Inductive pyval :=
| PNone
| PBool (b : bool)
| PInt (z : Z)
| PFloat (f : spec_float)
| PStr (s : string)
| PList (l : list pyval)
| PTuple (l : list pyval)
| PDict (d : list (pyval * pyval))
| POther (class_name : string).

Abbreviation pdict := (list (pyval * pyval)).

Definition is_key (k : string) (v : pyval) : bool :=
  match v with PStr s => String.eqb k s | _ => false end.

(** [d.get(k)] and [k in d] for a string key. *)
Fixpoint pget (k : string) (d : pdict) : option pyval :=
  match d with
  | [] => None
  | (k', v) :: rest => if is_key k k' then Some v else pget k rest
  end.
Definition phas (k : string) (d : pdict) : bool :=
  match pget k d with Some _ => true | None => false end.

(** [d[k] = v]: a key that is present keeps its place. *)
Fixpoint pset (k : string) (v : pyval) (d : pdict) : pdict :=
  match d with
  | [] => [(PStr k, v)]
  | (k', v') :: rest => if is_key k k' then (k', v) :: rest else (k', v') :: pset k v rest
  end.

(** [bool(v)] *)
Definition truthy (v : pyval) : bool :=
  match v with
  | PNone => false
  | PBool b => b
  | PInt z => negb (z =? 0)
  | PFloat (S754_zero _) => false
  | PFloat _ => true
  | PStr s => negb (is_empty s)
  | PList l | PTuple l => match l with [] => false | _ => true end
  | PDict d => match d with [] => false | _ => true end
  | POther _ => true
  end.

(** [x or []] followed by iteration: a mapping gives its keys, a string its
    characters; any other object is not iterable. *)
Definition iter_or_empty (o : option pyval) : option (list pyval) :=
  match o with
  | None => Some []
  | Some v =>
      if truthy v then
        match v with
        | PList l | PTuple l => Some l
        | PDict d => Some (map fst d)
        | PStr s => Some (map (λ c, PStr (String c "")) (String.list_ascii_of_string s))
        | _ => None
        end
      else Some []
  end.

Definition float_of_Z (z : Z) : spec_float := binary_normalize 53 1024 z 0 false.
Definition finite_float (f : spec_float) : bool :=
  match f with S754_zero _ | S754_finite _ _ _ => true | _ => false end.

(** Arithmetic of [float]. *)
Definition float_add : spec_float → spec_float → spec_float := SFadd 53 1024.
Definition float_sub : spec_float → spec_float → spec_float := SFsub 53 1024.
Definition float_mul : spec_float → spec_float → spec_float := SFmul 53 1024.
Definition float_div : spec_float → spec_float → spec_float := SFdiv 53 1024.
Definition float_zero : spec_float := S754_zero false.
(** The literal [n/d], rounded to nearest as a decimal literal is. *)
Definition float_ratio (n d : Z) : spec_float := float_div (float_of_Z n) (float_of_Z d).

(** [float(v)], given [float(s)] on strings. *)
Inductive float_error := FloatValueError | FloatTypeError | FloatOverflowError.
Definition as_float (parse_float : string → option spec_float) (v : pyval) : result float_error spec_float :=
  match v with
  | PFloat f => Ok f
  | PInt z => match float_of_Z z with S754_infinity _ => Err FloatOverflowError | f => Ok f end
  | PBool b => Ok (float_of_Z (if b then 1 else 0))
  | PStr s => match parse_float s with Some f => Ok f | None => Err FloatValueError end
  | _ => Err FloatTypeError
  end.

(** Induction over the values nested in lists and dictionaries. *)
Section pyval_induction.
Context (P : pyval → Prop).
Context (Hnone : P PNone) (Hbool : ∀ b, P (PBool b)) (Hint : ∀ z, P (PInt z))
  (Hfloat : ∀ f, P (PFloat f)) (Hstr : ∀ s, P (PStr s)) (Hother : ∀ c, P (POther c)).
Context (Hlist : ∀ l, Forall P l → P (PList l)) (Htuple : ∀ l, Forall P l → P (PTuple l)).
Context (Hdict : ∀ d, Forall (λ kv, P kv.2) d → P (PDict d)).

Fixpoint pyval_rect_nested (v : pyval) : P v :=
  let fix all (l : list pyval) : Forall P l :=
    match l with
    | [] => Forall_nil_2 P
    | x :: rest => Forall_cons_2 P x rest (pyval_rect_nested x) (all rest)
    end in
  match v with
  | PNone => Hnone | PBool b => Hbool b | PInt z => Hint z | PFloat f => Hfloat f
  | PStr s => Hstr s | POther c => Hother c
  | PList l => Hlist l (all l)
  | PTuple l => Htuple l (all l)
  | PDict d => Hdict d
      ((fix go (d : pdict) : Forall (λ kv, P kv.2) d :=
          match d with
          | [] => Forall_nil_2 (λ kv, P kv.2)
          | kv :: rest => Forall_cons_2 (λ kv, P kv.2) kv rest (pyval_rect_nested kv.2) (go rest)
          end) d)
  end.
End pyval_induction.

(** ** JSON

    [json.dumps(v, allow_nan=False)]: the message of the first error met in
    depth-first order, or [None] when the value is written. *)
Definition nan_message : string := "Out of range float values are not JSON compliant".
Definition type_name (v : pyval) : string :=
  match v with
  | PNone => "NoneType" | PBool _ => "bool" | PInt _ => "int" | PFloat _ => "float"
  | PStr _ => "str" | PList _ => "list" | PTuple _ => "tuple" | PDict _ => "dict"
  | POther c => c
  end.

Definition json_key_error (k : pyval) : option string :=
  match k with
  | PStr _ | PInt _ | PBool _ | PNone => None
  | PFloat f => if finite_float f then None else Some nan_message
  | _ => Some ("keys must be str, int, float, bool or None, not " ++ type_name k)
  end.

Definition first_error {A} (f : A → option string) : list A → option string :=
  fix go l := match l with
  | [] => None
  | x :: rest => match f x with Some e => Some e | None => go rest end
  end.

Fixpoint json_error (v : pyval) : option string :=
  match v with
  | PNone | PBool _ | PInt _ | PStr _ => None
  | PFloat f => if finite_float f then None else Some nan_message
  | PList l | PTuple l => first_error json_error l
  | PDict d =>
      first_error (λ kv, match kv with
        | (k, x) => match json_key_error k with Some e => Some e | None => json_error x end
        end) d
  | POther c => Some ("Object of type " ++ c ++ " is not JSON serializable")
  end.

(** Whether every mapping inside the value has string keys only. *)
Definition is_str (v : pyval) : bool := match v with PStr _ => true | _ => false end.
Fixpoint string_keyed (v : pyval) : bool :=
  match v with
  | PDict d =>
      forallb (λ kv, match kv with (k, _) => is_str k end) d &&
      forallb (λ kv, match kv with (_, x) => string_keyed x end) d
  | PList l | PTuple l => forallb string_keyed l
  | _ => true
  end.

(** Values that are their own JSON image: no tuples, no other objects, string
    keys, finite numbers. *)
Fixpoint json_plain (v : pyval) : bool :=
  match v with
  | PNone | PBool _ | PInt _ | PStr _ => true
  | PFloat f => finite_float f
  | PList l => forallb json_plain l
  | PDict d => forallb (λ kv, match kv with (k, x) => is_str k && json_plain x end) d
  | PTuple _ | POther _ => false
  end.

Lemma first_error_none {A} (f : A → option string) l :
  first_error f l = None ↔ Forall (λ x, f x = None) l.
Proof.
  induction l as [|x l IH]; simpl; [split; [constructor|done]|].
  rewrite Forall_cons. destruct (f x); naive_solver.
Qed.

Lemma is_key_ne k k' x : is_key k x = true → is_key k' x = true → k = k'.
Proof. destruct x; simpl; try done. intros ->%String.eqb_eq ?%String.eqb_eq. by subst. Qed.

Lemma pget_pset_eq k v d : pget k (pset k v d) = Some v.
Proof.
  induction d as [|[x w] d IH]; simpl; [by rewrite String.eqb_refl|].
  destruct (is_key k x) eqn:E; simpl; by rewrite E.
Qed.

Lemma pget_pset_ne k k' v d : k ≠ k' → pget k' (pset k v d) = pget k' d.
Proof.
  intros Hne. induction d as [|[x w] d IH]; simpl.
  - by rewrite (proj2 (String.eqb_neq k' k)) by done.
  - destruct (is_key k x) eqn:E; simpl.
    + destruct (is_key k' x) eqn:E'; [by destruct (Hne (is_key_ne _ _ _ E E'))|done].
    + by rewrite IH.
Qed.

Lemma pget_pset k k' v d : pget k' (pset k v d) = if String.eqb k' k then Some v else pget k' d.
Proof.
  destruct (String.eqb_spec k' k) as [->|Hne]; [apply pget_pset_eq|by apply pget_pset_ne].
Qed.

Lemma phas_pget k d : phas k d = true ↔ is_Some (pget k d).
Proof. unfold phas. destruct (pget k d); split; [eauto|done|done|by intros [? ?]]. Qed.

Abbreviation key_of := (λ kv : pyval * pyval, match kv with (PStr s, _) => Some s | _ => None end).

(** A dictionary comprehension. *)
Definition dict_of (l : list (string * pyval)) : pdict :=
  fold_left (λ d kv, pset kv.1 kv.2 d) l [].

Lemma pset_new k v d : Some k ∉ map key_of d → pset k v d = (d ++ [(PStr k, v)])%list.
Proof.
  induction d as [|[k' v'] d IH]; simpl; [done|]. intros [Hk Hd]%not_elem_of_cons.
  rewrite (IH Hd). destruct k'; simpl; try done.
  destruct (String.eqb_spec k s); [by subst|done].
Qed.

Lemma dict_of_fresh (d : pdict) :
  NoDup (map key_of d) → forallb (λ kv, is_str kv.1) d = true →
  dict_of (map (λ kv, (match kv.1 with PStr s => s | _ => "" end, kv.2)) d) = d.
Proof.
  unfold dict_of. change d with ([] ++ d)%list at 1 4. generalize ([] : pdict) as acc.
  induction d as [|[k v] d IH]; intros acc Hnd Hp; simpl; [by rewrite app_nil_r|].
  simpl in Hp. apply andb_true_iff in Hp as [Hk Hp].
  destruct k; try done. simpl. rewrite pset_new.
  - rewrite IH; [by rewrite <- app_assoc| |done]. by rewrite <- app_assoc.
  - rewrite map_app in Hnd. apply NoDup_app in Hnd as (_ & Hnd & _). intros Hin.
    exact (Hnd _ Hin (list_elem_of_here _ _)).
Qed.

(** Updating a dictionary in place keeps its keys distinct and textual. *)
Lemma pset_keys k v (d : pdict) :
  map key_of (pset k v d) = if phas k d then map key_of d else (map key_of d ++ [Some k])%list.
Proof.
  unfold phas. induction d as [|[k' v'] d IH]; simpl; [done|].
  destruct (is_key k k') eqn:E; simpl; [done|]. rewrite IH. by destruct (pget k d).
Qed.

Lemma pget_none_key k (d : pdict) : pget k d = None ↔ Some k ∉ map key_of d.
Proof.
  induction d as [|[k' v'] d IH]; simpl; [split; [intros _; apply not_elem_of_nil|done]|].
  rewrite not_elem_of_cons. destruct k'; simpl; try (rewrite IH; naive_solver).
  destruct (String.eqb_spec k s) as [->|Hne]; [naive_solver|]. rewrite IH. naive_solver.
Qed.

Lemma dict_of_keys (l : list (string * pyval)) :
  NoDup (map key_of (dict_of l)) ∧
  Forall (λ kv : pyval * pyval, ∃ k, kv.1 = PStr k ∧ k ∈ map fst l) (dict_of l).
Proof.
  unfold dict_of. cut (∀ (S : list string) (acc : pdict), NoDup (map key_of acc) →
    Forall (λ kv : pyval * pyval, ∃ k, kv.1 = PStr k ∧ k ∈ S) acc → map fst l ⊆ S →
    NoDup (map key_of (fold_left (λ d kv, pset kv.1 kv.2 d) l acc)) ∧
    Forall (λ kv : pyval * pyval, ∃ k, kv.1 = PStr k ∧ k ∈ S) (fold_left (λ d kv, pset kv.1 kv.2 d) l acc)).
  { intros H. apply H; [constructor|constructor|done]. }
  intros S. induction l as [|[k v] l IH]; intros acc Hn Hf Hs; simpl; [done|].
  apply IH; [| |intros x Hx; apply Hs; by right].
  - rewrite pset_keys. destruct (phas k acc) eqn:E; [done|]. apply NoDup_app. split_and!; [done| |apply NoDup_singleton].
    intros x Hx ->%list_elem_of_singleton. revert Hx. apply pget_none_key.
    unfold phas in E. by destruct (pget k acc).
  - assert (k ∈ S) as Hk by (apply Hs; left). clear - Hf Hk.
    induction Hf as [|[k' v'] d Hkv Hd IH]; simpl; [repeat constructor; eauto|].
    destruct (is_key k k'); constructor; auto.
Qed.

(** ** Texts and digests *)

(** What the code takes from Python's texts: [str(v)], [json.dumps] of a string
    and of a float, [isoformat()], and SHA-256 of the UTF-8 encoding as an
    integer of 256 bits. *)
Class PyText := {
  py_str : pyval → string;
  py_str_text s : py_str (PStr s) = s;
  json_quote : string → string;
  json_float : spec_float → string;
  isoformat : Z → string;
  sha256 : string → Z;
}.

(** The first [n] characters of [hexdigest()]. *)
Definition hex_char (n : Z) : ascii := ascii_of_nat (Z.to_nat (if n <? 10 then 48 + n else 87 + n)).
Fixpoint hex_digits (n : nat) (v : Z) (acc : string) : string :=
  match n with
  | O => acc
  | S k => hex_digits k (v / 16) (String (hex_char (v mod 16)) acc)
  end.
Definition hexdigest_prefix (sha256 : string → Z) (n : nat) (material : string) : string :=
  hex_digits n (sha256 material / 2 ^ (256 - 4 * Z.of_nat n)) "".

(** [json.dumps(v, sort_keys=True, separators=(",", ":"))] of a value made of
    JSON's own types, with the keys as texts. *)
Fixpoint stable_json `{PyText} (v : pyval) : string :=
  match v with
  | PNone => "null"
  | PBool b => if b then "true" else "false"
  | PInt z => pretty z
  | PFloat f => json_float f
  | PStr s => json_quote s
  | PList l | PTuple l => "[" ++ join "," (map stable_json l) ++ "]"
  | PDict d =>
      "{" ++ join "," (map (λ kt, json_quote kt.1 ++ ":" ++ kt.2)
        (sort_on fst (map (λ kv, match kv with (k, x) => (py_str k, stable_json x) end) d))) ++ "}"
  | POther _ => ""
  end.

Definition pipe_free (s : string) : bool := all_chars (λ c, negb (Ascii.eqb c "|")) s.

(** The parts before the first separator can be read off. *)
Lemma join_first_inj a b a' b' :
  pipe_free a = true → pipe_free a' = true → a ++ "|" ++ b = a' ++ "|" ++ b' → a = a' ∧ b = b'.
Proof.
  unfold pipe_free. revert a'. induction a as [|c a IH]; intros [|c' a'].
  - intros _ _ E. injection E as E. done.
  - intros _ Hc' E. injection E as <- _. done.
  - intros Hc _ E. injection E as -> _. done.
  - intros [_ Ha]%andb_true_iff [_ Ha']%andb_true_iff E. injection E as -> E.
    by destruct (IH a' Ha Ha' E) as [-> ->].
Qed.

(** ** Dates *)
Record date := mkDate { year : Z; month : Z; day : Z }.
#[export] Instance date_eq_dec : EqDecision date.
Proof. solve_decision. Defined.

Definition leap_year (y : Z) : bool :=
  (y mod 4 =? 0) && (negb (y mod 100 =? 0) || (y mod 400 =? 0)).
Definition days_in_month (y m : Z) : Z :=
  if m =? 2 then (if leap_year y then 29 else 28)
  else if (m =? 4) || (m =? 6) || (m =? 9) || (m =? 11) then 30 else 31.

(** The dates [datetime.date] can hold. *)
Definition date_ok (d : date) : bool :=
  (1 <=? year d) && (year d <=? 9999) && (1 <=? month d) && (month d <=? 12)
  && (1 <=? day d) && (day d <=? days_in_month (year d) (month d)).

(** Chronological order. *)
Definition date_leb (a b : date) : bool :=
  (year a <? year b) ||
  ((year a =? year b) && ((month a <? month b) ||
    ((month a =? month b) && (day a <=? day b)))).

Definition digit_char (n : Z) : ascii := ascii_of_nat (Z.to_nat (48 + n)).
Definition digit_val (c : ascii) : Z := Z.of_nat (nat_of_ascii c) - 48.

(** Decimal digits of [n], at least [width] of them. *)
Fixpoint dec_digits (width : nat) (n : Z) (acc : string) : string :=
  match width with
  | O => acc
  | S w => dec_digits w (n / 10) (String (digit_char (n mod 10)) acc)
  end.
Definition two_digits (n : Z) : string := dec_digits 2 n "".
(** [%Y] pads to no width. *)
Definition year_text (y : Z) : string :=
  if y <? 10 then dec_digits 1 y ""
  else if y <? 100 then dec_digits 2 y ""
  else if y <? 1000 then dec_digits 3 y "" else dec_digits 4 y "".

(** [f"{d:%Y%m%d}"] *)
Definition date_text (d : date) : string :=
  year_text (year d) ++ two_digits (month d) ++ two_digits (day d).

Fixpoint dec_value (acc : Z) (s : string) : Z :=
  match s with
  | EmptyString => acc
  | String c rest => dec_value (acc * 10 + digit_val c) rest
  end.

(** [datetime.strptime(s, "%Y%m%d").date()] for [s] of eight digits. *)
Definition parse_yyyymmdd (s : string) : option date :=
  if (String.length s =? 8)%nat && all_chars is_digit s then
    let d := mkDate (dec_value 0 (String.substring 0 4 s))
      (dec_value 0 (String.substring 4 2 s)) (dec_value 0 (String.substring 6 2 s)) in
    if date_ok d then Some d else None
  else None.

Lemma digit_cases n : 0 ≤ n < 10 →
  n = 0 ∨ n = 1 ∨ n = 2 ∨ n = 3 ∨ n = 4 ∨ n = 5 ∨ n = 6 ∨ n = 7 ∨ n = 8 ∨ n = 9.
Proof. lia. Qed.

Lemma digit_val_char n : 0 ≤ n < 10 → digit_val (digit_char n) = n ∧ is_digit (digit_char n) = true.
Proof. intros H%digit_cases. by repeat destruct H as [->|H]; [..|subst]. Qed.

Lemma mod10 n : 0 ≤ n → 0 ≤ n mod 10 < 10.
Proof. intros. apply Z.mod_pos_bound. lia. Qed.

(** The eight-digit form of a date with a four-digit year reads back. *)
Lemma parse_date_text d :
  date_ok d = true → 1000 ≤ year d → parse_yyyymmdd (date_text d) = Some d.
Proof.
  intros Hok Hy. destruct d as [y m dd]. pose proof Hok as Hdate. unfold date_ok in Hok; simpl in Hok, Hy. to_prop.
  unfold parse_yyyymmdd, date_text, year_text, two_digits; simpl year; simpl month; simpl day.
  repeat rewrite (proj2 (Z.ltb_ge _ _)) by lia. cbn [dec_digits].
  unfold String.append.
  cbn [String.length Nat.eqb andb all_chars String.substring dec_value].
  assert (dd <= 31) by (unfold days_in_month in *; repeat case_match; lia).
  assert (0 ≤ y / 10 ∧ 0 ≤ y / 10 / 10 ∧ 0 ≤ y / 10 / 10 / 10 ∧ 0 ≤ m / 10 ∧ 0 ≤ dd / 10) as (?&?&?&?&?)
    by (repeat split; Z.to_euclidean_division_equations; lia).
  repeat match goal with
  | |- context [digit_val (digit_char ?n)] =>
      rewrite (proj1 (digit_val_char n ltac:(apply mod10; lia)))
  end.
  repeat match goal with
  | |- context [is_digit (digit_char ?n)] =>
      rewrite (proj2 (digit_val_char n ltac:(apply mod10; lia)))
  end.
  cbn [andb].
  replace (((0 * 10 + y / 10 / 10 / 10 mod 10) * 10 + y / 10 / 10 mod 10) * 10 +
    y / 10 mod 10) with (y / 10) by (Z.to_euclidean_division_equations; lia).
  replace (y / 10 * 10 + y mod 10) with y by (Z.to_euclidean_division_equations; lia).
  replace ((0 * 10 + m / 10 mod 10) * 10 + m mod 10) with m
    by (Z.to_euclidean_division_equations; lia).
  replace ((0 * 10 + dd / 10 mod 10) * 10 + dd mod 10) with dd
    by (Z.to_euclidean_division_equations; lia).
  by rewrite Hdate.
Qed.

Lemma date_leb_total a b : date_leb a b = true ∨ date_leb b a = true.
Proof.
  unfold date_leb. destruct (Z.compare_spec (year a) (year b)), (Z.compare_spec (month a) (month b)),
    (Z.compare_spec (day a) (day b)); lia.
Qed.

Lemma date_leb_trans a b c : date_leb a b = true → date_leb b c = true → date_leb a c = true.
Proof. unfold date_leb. lia. Qed.
