(* ===== verification/Programs.v ===== *)
(** * Programs: stateful code that raises

    Programs as functions from a state to a result and a state, over any type of
    errors: sequencing, [try ... finally], and handlers that raise again, with
    the lemmas that take a run apart. *)
From Stdlib Require Import String Ascii ZArith List.
From stdpp Require Import base tactics.
From S2P Require Import Prelude.

Definition program (E W A : Type) : Type := W → result E A * W.
Definition ret {E W A} (a : A) : program E W A := λ w, (Ok a, w).
Definition raise {E W A} (e : E) : program E W A := λ w, (Err e, w).
Definition lift {E W A} (r : result E A) : program E W A := λ w, (r, w).
Definition pbind {E W A B} (m : program E W A) (k : A → program E W B) : program E W B :=
  λ w, match m w with (Ok a, w') => k a w' | (Err e, w') => (Err e, w') end.
(** [try: body finally: cleanup] *)
Definition finally {E W A} (body : program E W A) (cleanup : program E W ()) : program E W A :=
  λ w, let '(r, w1) := body w in
    match cleanup w1 with (Ok _, w2) => (r, w2) | (Err e, w2) => (Err e, w2) end.
(** [try: m except Exception as exc: handler(exc)], of a handler that raises. *)
Definition map_raise {E F W A} (f : E → F) (m : program E W A) : program F W A :=
  λ w, let '(r, w1) := m w in (map_err f r, w1).

Notation "'let!' x := e 'in' k" := (pbind e (fun x => k))
  (at level 10, x binder, e at level 100, k at level 200,
   format "'[hv' 'let!'  x  :=  e  'in'  '//' k ']'") : py_scope.
Notation "'stop_if' c 'with' x ; k" := (pbind (lift (guard_err c x)) (fun _ => k))
  (at level 10, c at level 100, x at level 100, k at level 200,
   format "'[hv' 'stop_if'  c  'with'  x ;  '//' k ']'") : py_scope.

Section program_lemmas.
Context {E F W A B : Type}.
Implicit Types (w : W).

Lemma pbind_ok (m : program E W A) (k : A → program E W B) w b w' :
  pbind m k w = (Ok b, w') ↔ ∃ a w1, m w = (Ok a, w1) ∧ k a w1 = (Ok b, w').
Proof. unfold pbind. destruct (m w) as [[a|e] w1]; naive_solver. Qed.

Lemma pbind_cases (m : program E W A) (k : A → program E W B) w r w' :
  pbind m k w = (r, w') ↔
  (∃ a w1, m w = (Ok a, w1) ∧ k a w1 = (r, w')) ∨ (∃ e, m w = (Err e, w') ∧ r = Err e).
Proof. unfold pbind. destruct (m w) as [[a|e] w1]; naive_solver. Qed.

Lemma finally_cases (body : program E W A) (cleanup : program E W ()) w r w' :
  finally body cleanup w = (r, w') →
  ∃ r1 w1, body w = (r1, w1) ∧
    ((∃ u, cleanup w1 = (Ok u, w') ∧ r = r1) ∨ (∃ e, cleanup w1 = (Err e, w') ∧ r = Err e)).
Proof.
  unfold finally. destruct (body w) as [r1 w1]. destruct (cleanup w1) as [[u|e] w2] eqn:Hc;
  intros [= <- <-]; exists r1, w1; split; auto; [left|right]; eauto.
Qed.

Lemma map_raise_ok (f : E → F) (m : program E W A) w a w' : map_raise f m w = (Ok a, w') ↔ m w = (Ok a, w').
Proof. unfold map_raise. destruct (m w) as [[?|?] ?]; simpl; naive_solver. Qed.

Lemma map_raise_state (f : E → F) (m : program E W A) w : (map_raise f m w).2 = (m w).2.
Proof. unfold map_raise. by destruct (m w). Qed.

Lemma map_raise_cases (f : E → F) (m : program E W A) w r w' :
  map_raise f m w = (r, w') → ∃ r1, m w = (r1, w') ∧ r = map_err f r1.
Proof. unfold map_raise. destruct (m w) as [r1 w1]. intros [= <- <-]. eauto. Qed.
End program_lemmas.
