(* ===== verification/GraphStatus.v ===== *)
(** * GraphStatus: the status row of the live graph

    graph-engine's [models.Neo4jGraphStatus], the PostgreSQL singleton store
    of [status/store.py] and the transition manager of [status/manager.py].
    [StatusModel] holds the validated record, [StatusStore] the storage
    interface (a type class with its laws) and its PostgreSQL instance,
    [StatusManager] the guarded transitions over any store satisfying the
    interface, and [StatusSystem] the interleavings of several managers and
    ready-reads sharing one row. *)
From Stdlib Require Import String Ascii ZArith List.
From stdpp Require Import base gmap strings list relations.
From S2P Require Import Prelude.
Local Open Scope string_scope.
Local Open Scope Z_scope.

Module StatusModel.

(** [Literal["ready", "rebuilding", "failed"]] *)
Inductive GraphState := Ready | Rebuilding | Failed.
#[export] Instance GraphState_eq_dec : EqDecision GraphState.
Proof. solve_decision. Defined.

Definition state_text (g : GraphState) : string :=
  match g with Ready => "ready" | Rebuilding => "rebuilding" | Failed => "failed" end.

Definition state_of_text (s : string) : option GraphState :=
  if String.eqb s "ready" then Some Ready
  else if String.eqb s "rebuilding" then Some Rebuilding
  else if String.eqb s "failed" then Some Failed else None.

(** Instants are microseconds since the epoch. *)
Definition instant := Z.

Record Neo4jGraphStatus := mkStatus {
  graph_status : GraphState;
  graph_generation_id : Z;
  node_count : Z;
  edge_count : Z;
  key_label_counts : gmap string Z;
  checksum : string;
  last_verified_at : option instant;
  last_reload_at : option instant;
  writer_lock_token : option string;
}.
#[export] Instance Neo4jGraphStatus_eq_dec : EqDecision Neo4jGraphStatus.
Proof. solve_decision. Defined.

(** One constructor per raise site of the manager; [error_class] gives the
    Python exception class. *)
Inductive status_error :=
| NotInitialized
| ReadNotReady (current : GraphState)
| ReadWriterLocked
| LockedTransition (target : GraphState)
| BadTransition (current : option GraphState) (target : GraphState)
| WriterLockHeld
| FinishNeedsLock
| FinishNeedsReady
| FinishNeedsUnlocked
| SyncFailedNeedsLock
| InvariantBroken
| GenerationBackwards (current requested : Z)
| VerifyLocked
| SnapshotGenerationMismatch (snapshot current : Z)
| StaleTransition
| ModelInvalid
| CheckViolation.

Inductive exn_class :=
  LookupError | PermissionError | ValueError | AssertionError | RuntimeError
| ValidationError | DatabaseError.

Definition error_class (e : status_error) : exn_class :=
  match e with
  | NotInitialized => LookupError
  | ReadNotReady _ | ReadWriterLocked => PermissionError
  | InvariantBroken => AssertionError
  | StaleTransition => RuntimeError
  | ModelInvalid => ValidationError
  | CheckViolation => DatabaseError
  | _ => ValueError
  end.

(** Validation of an optional token: stripped, then non-empty. *)
Definition clean_token (token : option string) : result status_error (option string) :=
  match token with
  | None => Ok None
  | Some t => raise_if is_empty (strip t) with ModelInvalid; Ok (Some (strip t))
  end.

(** The model's constructor: [str_strip_whitespace], the [Field] bounds and
    the [_writer_lock_requires_ready_status] validator. *)
Definition make_status (g : GraphState) (gen nodes edges : Z) (labels : gmap string Z)
    (sum : string) (verified reload : option instant) (token : option string)
    : result status_error Neo4jGraphStatus :=
  raise_if (gen <? 0) with ModelInvalid;
  raise_if (nodes <? 0) with ModelInvalid;
  raise_if (edges <? 0) with ModelInvalid;
  raise_if is_empty (strip sum) with ModelInvalid;
  let* token' := clean_token token in
  raise_if (match token' with Some _ => negb (bool_decide (g = Ready)) | None => false end)
    with ModelInvalid;
  Ok (mkStatus g gen nodes edges labels (strip sum) verified reload token').

(** The record is one the constructor returns. *)
Record status_valid (st : Neo4jGraphStatus) : Prop := {
  valid_generation : 0 ≤ graph_generation_id st;
  valid_nodes : 0 ≤ node_count st;
  valid_edges : 0 ≤ edge_count st;
  valid_checksum : strip (checksum st) = checksum st ∧ is_empty (checksum st) = false;
  valid_token : ∀ t, writer_lock_token st = Some t →
    graph_status st = Ready ∧ strip t = t ∧ is_empty t = false;
}.

Definition remake (st : Neo4jGraphStatus) : result status_error Neo4jGraphStatus :=
  make_status (graph_status st) (graph_generation_id st) (node_count st) (edge_count st)
    (key_label_counts st) (checksum st) (last_verified_at st) (last_reload_at st)
    (writer_lock_token st).

Lemma make_status_ok g gen n e l c v r t st :
  make_status g gen n e l c v r t = Ok st →
  status_valid st ∧ graph_status st = g ∧ graph_generation_id st = gen ∧
  node_count st = n ∧ edge_count st = e ∧ key_label_counts st = l ∧
  last_verified_at st = v ∧ last_reload_at st = r ∧
  writer_lock_token st = strip <$> t ∧ checksum st = strip c.
Proof.
  unfold make_status. intros H. rinv. to_prop. simpl.
  assert (a3 = strip <$> t) as ->.
  { destruct t; simpl in Ha3; rinv; done. }
  split_and!; try done. constructor; simpl; try done.
  - rewrite strip_idemp. done.
  - intros t' Ht'. destruct t as [t0|]; simplify_eq/=. rinv. to_prop.
    rewrite strip_idemp. by split_and!.
Qed.

Lemma remake_valid st : remake st = Ok st ↔ status_valid st.
Proof.
  split.
  - intros H. by apply make_status_ok in H as [? _].
  - intros [Hg Hn He [Hc Hc'] Ht]. unfold remake, make_status.
    rewrite (proj2 (Z.ltb_ge _ _) Hg), (proj2 (Z.ltb_ge _ _) Hn), (proj2 (Z.ltb_ge _ _) He).
    simpl. rewrite Hc, Hc'. simpl.
    destruct st as [g gen n e l c v r [t|]]; simpl in *; [|done].
    destruct (Ht t eq_refl) as (-> & Hs & Hs'). by rewrite Hs, Hs'.
Qed.
End StatusModel.

Module StatusStore.
Import StatusModel.

(** The [StatusStore] protocol: what the manager relies on. *)
Class StatusStoreOps (S : Type) := {
  read_current_status : S → result status_error (option Neo4jGraphStatus);
  compare_and_write_current_status :
    S → option Neo4jGraphStatus → Neo4jGraphStatus → result status_error (bool * S);
  (** the records that fit the storage's column types *)
  storable : Neo4jGraphStatus → bool;
}.

(** Its contract on the states [store_ok] a store can be in: reads return a
    valid record, and compare-and-set writes exactly when the row matches and
    the new record can be stored. *)
Class StatusStoreSpec (S : Type) `{StatusStoreOps S} (store_ok : S → Prop) := {
  read_total s : store_ok s →
    ∃ o, read_current_status s = Ok o ∧ (∀ st, o = Some st → status_valid st);
  cas_match s o next : store_ok s → status_valid next → storable next = true →
    read_current_status s = Ok o →
    ∃ s', compare_and_write_current_status s o next = Ok (true, s') ∧
      store_ok s' ∧ read_current_status s' = Ok (Some next);
  cas_refused s o expected next : store_ok s →
    (∀ st, expected = Some st → status_valid st) →
    read_current_status s = Ok o → o ≠ expected ∨ storable next = false →
    compare_and_write_current_status s expected next = Ok (false, s) ∨
    is_ok (compare_and_write_current_status s expected next) = false;
}.

(** A row of the [neo4j_graph_status] table (its key is fixed per store). *)
Record PgRow := mkRow {
  row_graph_status : string;
  row_generation_id : Z;
  row_node_count : Z;
  row_edge_count : Z;
  row_label_counts : gmap string Z;
  row_checksum : string;
  row_verified_at : option instant;
  row_reload_at : option instant;
  row_lock_token : option string;
}.
#[export] Instance PgRow_eq_dec : EqDecision PgRow.
Proof. solve_decision. Defined.

(** [bigint] columns hold signed 64-bit integers. *)
Definition fits_bigint (n : Z) : bool := (-(2 ^ 63) <=? n) && (n <? 2 ^ 63).

(** The column types and CHECK constraints of the table. *)
Definition row_checks (r : PgRow) : bool :=
  match state_of_text (row_graph_status r) with Some _ => true | None => false end
  && (0 <=? row_generation_id r) && (0 <=? row_node_count r) && (0 <=? row_edge_count r)
  && fits_bigint (row_generation_id r) && fits_bigint (row_node_count r)
  && fits_bigint (row_edge_count r)
  && negb (is_empty (row_checksum r))
  && match row_lock_token r with None => true | Some t => negb (is_empty t) end.

Definition status_write_values (st : Neo4jGraphStatus) : PgRow :=
  mkRow (state_text (graph_status st)) (graph_generation_id st) (node_count st)
    (edge_count st) (key_label_counts st) (checksum st) (last_verified_at st)
    (last_reload_at st) (writer_lock_token st).

Definition status_from_row (r : PgRow) : result status_error Neo4jGraphStatus :=
  match state_of_text (row_graph_status r) with
  | None => Err ModelInvalid
  | Some g =>
      make_status g (row_generation_id r) (row_node_count r) (row_edge_count r)
        (row_label_counts r) (row_checksum r) (row_verified_at r) (row_reload_at r)
        (row_lock_token r)
  end.

(** The singleton table: [None] before the first insert. *)
Definition PgTable := option PgRow.

Definition pg_read (t : PgTable) : result status_error (option Neo4jGraphStatus) :=
  match t with
  | None => Ok None
  | Some r => let* st := status_from_row r in Ok (Some st)
  end.

(** [INSERT ... ON CONFLICT (status_key) DO NOTHING RETURNING status_key]; the
    constraints of the proposed row are checked before the conflict is. *)
Definition insert_if_missing (t : PgTable) (next_values : PgRow)
    : result status_error (bool * PgTable) :=
  raise_if negb (row_checks next_values) with CheckViolation;
  match t with
  | Some _ => Ok (false, t)
  | None => Ok (true, Some next_values)
  end.

(** [UPDATE ... WHERE <every column matches> RETURNING status_key] *)
Definition pg_compare_and_write (t : PgTable) (expected : option Neo4jGraphStatus)
    (next : Neo4jGraphStatus) : result status_error (bool * PgTable) :=
  let next_values := status_write_values next in
  match expected with
  | None => insert_if_missing t next_values
  | Some e =>
      match t with
      | None => Ok (false, t)
      | Some r =>
          if bool_decide (r = status_write_values e) then
            raise_if negb (row_checks next_values) with CheckViolation;
            Ok (true, Some next_values)
          else Ok (false, t)
      end
  end.

(** [write_current_status]: the unconditional upsert. *)
Definition pg_write (t : PgTable) (st : Neo4jGraphStatus) : result status_error PgTable :=
  let values := status_write_values st in
  raise_if negb (row_checks values) with CheckViolation; Ok (Some values).

(** The bootstrap's rewrite of rows left by the retired 'syncing' state. *)
Definition normalize_legacy_syncing_status (t : PgTable) : PgTable :=
  match t with
  | Some r =>
      if String.eqb (row_graph_status r) "syncing" then
        Some (mkRow "failed" (row_generation_id r) (row_node_count r) (row_edge_count r)
                (row_label_counts r)
                (if is_empty (row_checksum r) then "failed" else row_checksum r)
                None (row_reload_at r) None)
      else t
  | None => None
  end.

#[export] Instance pg_store_ops : StatusStoreOps PgTable := {
  read_current_status := pg_read;
  compare_and_write_current_status := pg_compare_and_write;
  storable st := row_checks (status_write_values st);
}.

(** Rows the store itself wrote. *)
Definition pg_ok (t : PgTable) : Prop :=
  ∀ r, t = Some r → ∃ st, status_valid st ∧ r = status_write_values st.

Lemma state_text_of g : state_of_text (state_text g) = Some g.
Proof. by destruct g. Qed.

Lemma status_row_roundtrip st :
  status_valid st → status_from_row (status_write_values st) = Ok st.
Proof.
  intros H. unfold status_from_row; simpl. rewrite state_text_of.
  by apply remake_valid.
Qed.

Lemma write_values_inj st1 st2 :
  status_valid st1 → status_valid st2 →
  status_write_values st1 = status_write_values st2 → st1 = st2.
Proof.
  intros H1%status_row_roundtrip H2%status_row_roundtrip E.
  rewrite E in H1. congruence.
Qed.

(** A valid record is storable exactly when its counters fit their columns. *)
Lemma row_checks_valid st :
  status_valid st → graph_generation_id st < 2 ^ 63 → node_count st < 2 ^ 63 →
  edge_count st < 2 ^ 63 → row_checks (status_write_values st) = true.
Proof.
  intros [Hg Hn He [_ Hc] Ht] ? ? ?. unfold row_checks, fits_bigint; simpl.
  rewrite state_text_of, Hc. repeat rewrite (proj2 (Z.leb_le _ _)) by lia.
  repeat rewrite (proj2 (Z.ltb_lt _ _)) by lia.
  destruct (writer_lock_token st) as [t|]; [|done].
  by destruct (Ht t eq_refl) as (_ & _ & ->).
Qed.

Lemma pg_read_ok t o : pg_ok t → pg_read t = Ok o → t = status_write_values <$> o.
Proof.
  intros Ht. destruct t as [r|]; simpl; [|by intros [= <-]].
  destruct (Ht r eq_refl) as (st & Hst & ->). rewrite status_row_roundtrip by done.
  by intros [= <-].
Qed.

#[export] Instance pg_store_spec : StatusStoreSpec PgTable pg_ok.
Proof.
  split.
  - intros [r|] Hok; [|by exists None].
    destruct (Hok r eq_refl) as (st & Hst & ->). exists (Some st). simpl.
    rewrite status_row_roundtrip by done. split; [done|]. by intros ? [= <-].
  - intros t o next Hok Hnext Hr Hread. apply pg_read_ok in Hread as ->; [|done].
    simpl in Hr. exists (Some (status_write_values next)). simpl. split_and!.
    + unfold pg_compare_and_write, insert_if_missing. destruct o as [st|]; simpl.
      * by rewrite bool_decide_eq_true_2, Hr.
      * by rewrite Hr.
    + intros ? [= <-]. eauto.
    + by rewrite status_row_roundtrip.
  - intros t o expected next Hok Hexp Hread Hne. simpl in *.
    assert (Ho : ∀ st, o = Some st → status_valid st).
    { intros st ->. destruct t as [r|]; [|done]. destruct (Hok r eq_refl) as (st' & Hst & ->).
      simpl in Hread. rewrite status_row_roundtrip in Hread by done. by simplify_eq/=. }
    apply pg_read_ok in Hread as ->; [|done]. unfold pg_compare_and_write, insert_if_missing.
    destruct (row_checks (status_write_values next)) eqn:Hr; simpl.
    + destruct Hne as [Hne|]; [|done]. left.
      destruct expected as [e|], o as [st|]; simpl; try done.
      rewrite bool_decide_eq_false_2; [done|]. intros E. apply Hne. f_equal.
      apply write_values_inj; auto.
    + destruct expected as [e|], o as [st|]; simpl; auto.
      case_bool_decide; simpl; auto.
Qed.
End StatusStore.

Module StatusManager.
Import StatusModel StatusStore.

(** [require_ready_status] *)
Definition require_ready_status (st : Neo4jGraphStatus) : result status_error Neo4jGraphStatus :=
  raise_if negb (bool_decide (graph_status st = Ready)) with ReadNotReady (graph_status st);
  raise_if bool_decide (writer_lock_token st ≠ None) with ReadWriterLocked;
  Ok st.

Definition sync_writer_lock_token : string := "incremental-sync".

(** The snapshot fields the manager reads ([GraphMetricsSnapshot]). *)
Record GraphMetricsSnapshot := mkSnapshot {
  snap_generation_id : Z;
  snap_node_count : Z;
  snap_edge_count : Z;
  snap_label_counts : gmap string Z;
  snap_checksum : string;
}.

Definition is_locked (current : option Neo4jGraphStatus) : bool :=
  match current with
  | Some st => match writer_lock_token st with Some _ => true | None => false end
  | None => false
  end.

Definition state_of (current : option Neo4jGraphStatus) : option GraphState :=
  graph_status <$> current.

(** The body of each transition, from the row it read to the compare-and-set
    it issues: [(expected, next)]. *)
Definition transition : Type := option Neo4jGraphStatus * Neo4jGraphStatus.

Definition rebuilding_transition (current : option Neo4jGraphStatus)
    : result status_error transition :=
  raise_if is_locked current with LockedTransition Rebuilding;
  raise_if bool_decide (state_of current = Some Rebuilding)
    with BadTransition (Some Rebuilding) Rebuilding;
  raise_if negb (bool_decide (state_of current ∈ [None; Some Ready; Some Failed]))
    with BadTransition (state_of current) Rebuilding;
  let* st := make_status Rebuilding
    (match current with Some c => graph_generation_id c | None => 0 end)
    0 0 ∅ "rebuilding" None
    (match current with Some c => last_reload_at c | None => None end) None in
  Ok (current, st).

Definition get_status_of (current : option Neo4jGraphStatus) : result status_error Neo4jGraphStatus :=
  match current with Some st => Ok st | None => Err NotInitialized end.

Definition copy_status_with_writer_lock (st : Neo4jGraphStatus) (token : string)
    : result status_error Neo4jGraphStatus :=
  make_status (graph_status st) (graph_generation_id st) (node_count st) (edge_count st)
    (key_label_counts st) (checksum st) (last_verified_at st) (last_reload_at st) (Some token).

Definition begin_sync_transition (current : option Neo4jGraphStatus)
    : result status_error transition :=
  let* st := get_status_of current in
  let* c := require_ready_status st in
  raise_if bool_decide (writer_lock_token c ≠ None) with WriterLockHeld;
  let* locked := copy_status_with_writer_lock c sync_writer_lock_token in
  Ok (Some c, locked).

Definition holds_sync_lock (st : Neo4jGraphStatus) : bool :=
  bool_decide (graph_status st = Ready) && bool_decide (writer_lock_token st ≠ None).

Definition finish_sync_transition (expected ready : Neo4jGraphStatus)
    : result status_error transition :=
  raise_if negb (holds_sync_lock expected) with FinishNeedsLock;
  raise_if negb (bool_decide (graph_status ready = Ready)) with FinishNeedsReady;
  raise_if bool_decide (writer_lock_token ready ≠ None) with FinishNeedsUnlocked;
  Ok (Some expected, ready).

Definition sync_failed_transition (expected : Neo4jGraphStatus) (nodes edges : Z)
    (labels : gmap string Z) (sum : string) : result status_error transition :=
  raise_if negb (holds_sync_lock expected) with SyncFailedNeedsLock;
  let* st := make_status Failed (graph_generation_id expected) nodes edges labels sum
    None (last_reload_at expected) None in
  Ok (Some expected, st).

Definition ready_transition (nodes edges : Z) (labels : gmap string Z) (sum : string)
    (generation : option Z) (reload_completed : bool) (now : instant)
    (current : option Neo4jGraphStatus) : result status_error transition :=
  raise_if negb (bool_decide (state_of current = Some Rebuilding))
    with BadTransition (state_of current) Ready;
  match current with
  | None => Err InvariantBroken
  | Some c =>
      let next_generation_id := default (graph_generation_id c + 1) generation in
      raise_if next_generation_id <? graph_generation_id c
        with GenerationBackwards (graph_generation_id c) next_generation_id;
      let* st := make_status Ready next_generation_id nodes edges labels sum
        (Some now) (if reload_completed then Some now else last_reload_at c) None in
      Ok (current, st)
  end.

Definition failed_transition (nodes edges : Z) (labels : gmap string Z) (sum : string)
    (current : option Neo4jGraphStatus) : result status_error transition :=
  raise_if is_locked current with LockedTransition Failed;
  raise_if negb (bool_decide (state_of current ∈ [Some Rebuilding; Some Ready]))
    with BadTransition (state_of current) Failed;
  match current with
  | None => Err InvariantBroken
  | Some c =>
      let* st := make_status Failed (graph_generation_id c) nodes edges labels sum
        None (last_reload_at c) None in
      Ok (current, st)
  end.

Definition verified_transition (snapshot : GraphMetricsSnapshot) (now : instant)
    (current : option Neo4jGraphStatus) : result status_error transition :=
  let* st := get_status_of current in
  let* c := require_ready_status st in
  raise_if bool_decide (writer_lock_token c ≠ None) with VerifyLocked;
  raise_if negb (snap_generation_id snapshot =? graph_generation_id c)
    with SnapshotGenerationMismatch (snap_generation_id snapshot) (graph_generation_id c);
  let* st' := make_status Ready (graph_generation_id c) (snap_node_count snapshot)
    (snap_edge_count snapshot) (snap_label_counts snapshot) (snap_checksum snapshot)
    (Some now) (last_reload_at c) None in
  Ok (Some c, st').

(** The calls a client can make; the clock reading is an argument. *)
Inductive status_call :=
| MarkRebuilding
| BeginSync
| FinishSync (expected ready : Neo4jGraphStatus)
| MarkSyncFailed (expected : Neo4jGraphStatus) (nodes edges : Z)
    (labels : gmap string Z) (sum : string)
| MarkReady (nodes edges : Z) (labels : gmap string Z) (sum : string)
    (generation : option Z) (reload_completed : bool) (now : instant)
| MarkFailed (nodes edges : Z) (labels : gmap string Z) (sum : string)
| MarkVerified (snapshot : GraphMetricsSnapshot) (now : instant).

Definition plan_call (c : status_call) (current : option Neo4jGraphStatus)
    : result status_error transition :=
  match c with
  | MarkRebuilding => rebuilding_transition current
  | BeginSync => begin_sync_transition current
  | FinishSync e r => finish_sync_transition e r
  | MarkSyncFailed e n d l s => sync_failed_transition e n d l s
  | MarkReady n d l s g rc now => ready_transition n d l s g rc now current
  | MarkFailed n d l s => failed_transition n d l s current
  | MarkVerified sn now => verified_transition sn now current
  end.

Section manager.
Context {S : Type} `{StatusStoreOps S}.

(** [_commit_transition] *)
Definition commit_transition (s : S) (t : transition)
  : result status_error (Neo4jGraphStatus * S) :=
  let* '(written, s') := compare_and_write_current_status s t.1 t.2 in
  raise_if negb written with StaleTransition; Ok (t.2, s').

(** [get_status] and [require_ready] *)
Definition get_status (s : S) : result status_error Neo4jGraphStatus :=
  let* o := read_current_status s in get_status_of o.
Definition require_ready (s : S) : result status_error Neo4jGraphStatus :=
  let* st := get_status s in require_ready_status st.

(** The row a method reads first; the two methods that release the lock
work from the row their caller passes. *)
Definition read_for (c : status_call) (s : S)
  : result status_error (option Neo4jGraphStatus) :=
  match c with
  | FinishSync _ _ | MarkSyncFailed _ _ _ _ _ => Ok None
  | _ => read_current_status s
  end.

(** A manager method: read the row, check the guards, compare-and-set. The
value is the written record; [begin_sync] also returns the row it read. *)
Definition run_call (c : status_call) (s : S) : result status_error (Neo4jGraphStatus * S) :=
  let* current := read_for c s in
  let* t := plan_call c current in
  commit_transition s t.

(** A session of calls: a raising call leaves the store as it was. *)
Definition run_calls (cs : list status_call) (s : S) : S :=
  fold_left (λ s c, match run_call c s with Ok (_, s') => s' | Err _ => s end) cs s.
End manager.
End StatusManager.

(** ** Abstract life cycle: what the store row goes through *)
Module StatusLifecycle.
Import StatusModel StatusStore StatusManager.

(** State, writer lock and generation of the row; [None] before bootstrap. *)
Record view := mkView { v_state : option GraphState; v_locked : bool; v_generation : Z }.

Definition view_of (o : option Neo4jGraphStatus) : view :=
  mkView (state_of o) (is_locked o)
    (match o with Some st => graph_generation_id st | None => 0 end).

(** The promised transitions. A generation may jump only when a rebuild or a
    sync completes. *)
Inductive lifecycle_step : view → view → Prop :=
| step_bootstrap :
    lifecycle_step (mkView None false 0) (mkView (Some Rebuilding) false 0)
| step_rebuild g n : g ∈ [Ready; Failed] →
    lifecycle_step (mkView (Some g) false n) (mkView (Some Rebuilding) false n)
| step_begin_sync n :
    lifecycle_step (mkView (Some Ready) false n) (mkView (Some Ready) true n)
| step_finish_sync n m : 0 ≤ m →
    lifecycle_step (mkView (Some Ready) true n) (mkView (Some Ready) false m)
| step_sync_failed n :
    lifecycle_step (mkView (Some Ready) true n) (mkView (Some Failed) false n)
| step_ready n m : n ≤ m →
    lifecycle_step (mkView (Some Rebuilding) false n) (mkView (Some Ready) false m)
| step_failed g n : g ∈ [Ready; Rebuilding] →
    lifecycle_step (mkView (Some g) false n) (mkView (Some Failed) false n)
| step_verified n :
    lifecycle_step (mkView (Some Ready) false n) (mkView (Some Ready) false n).

Definition opt_valid (o : option Neo4jGraphStatus) : Prop :=
  ∀ st, o = Some st → status_valid st.

(** Objects a caller passes in are themselves validated models. *)
Definition call_valid (c : status_call) : Prop :=
  match c with
  | FinishSync e r => status_valid e ∧ status_valid r
  | MarkSyncFailed e _ _ _ _ => status_valid e
  | _ => True
  end.

(** The row a call expects to replace, given the row it read. *)
Definition call_expects (c : status_call) (current : option Neo4jGraphStatus)
    : option Neo4jGraphStatus :=
  match c with
  | FinishSync e _ | MarkSyncFailed e _ _ _ _ => Some e
  | _ => current
  end.

Ltac plan_inv :=
  repeat (rinv; repeat match goal with
  | H : get_status_of ?o = Ok _ |- _ => destruct o; simpl in H; [injection H as H; subst|discriminate H]
  | H : require_ready_status _ = Ok _ |- _ => unfold require_ready_status in H
  | H : match ?o with Some _ => _ | None => Err _ end = Ok _ |- _ => destruct o; [|discriminate H]
  | H : copy_status_with_writer_lock _ _ = Ok _ |- _ => unfold copy_status_with_writer_lock in H
  end).

Lemma plan_expected c o t : plan_call c o = Ok t → t.1 = call_expects c o.
Proof.
  destruct c; simpl; intros H;
    unfold rebuilding_transition, begin_sync_transition, finish_sync_transition,
      sync_failed_transition, ready_transition, failed_transition, verified_transition in H;
    plan_inv; done.
Qed.

(** A planned transition does not depend on the row read beyond what it
    expects to replace. *)
Lemma plan_replay c o t : plan_call c o = Ok t → plan_call c t.1 = Ok t.
Proof.
  intros H. pose proof (plan_expected _ _ _ H) as E. rewrite E. by destruct c.
Qed.

Lemma holds_sync_lock_true st :
  holds_sync_lock st = true ↔ graph_status st = Ready ∧ is_locked (Some st) = true.
Proof.
  unfold holds_sync_lock. rewrite andb_true_iff, !bool_decide_eq_true. simpl.
  destruct (writer_lock_token st); naive_solver.
Qed.

Lemma unlocked_token st : is_locked (Some st) = false ↔ writer_lock_token st = None.
Proof. simpl. by destruct (writer_lock_token st). Qed.

Lemma plan_next_valid c o t :
  call_valid c → plan_call c o = Ok t → status_valid t.2.
Proof.
  destruct c; simpl; intros Hv H;
    unfold rebuilding_transition, begin_sync_transition, finish_sync_transition,
      sync_failed_transition, ready_transition, failed_transition, verified_transition in H;
    plan_inv; simpl;
    first [by destruct Hv | by eapply make_status_ok].
Qed.

(** Normalise the guards of a planned transition into facts on the row. *)
Ltac guard_facts :=
  to_prop;
  repeat match goal with
  | H : make_status _ _ _ _ _ _ _ _ _ = Ok _ |- _ =>
      apply make_status_ok in H as (_ & ? & ? & _ & _ & _ & _ & _ & ? & _)
  | H : holds_sync_lock _ = true |- _ => apply holds_sync_lock_true in H as [? ?]
  | H : ¬ (writer_lock_token _ ≠ None) |- _ => apply dec_stable in H
  end.

Lemma view_some st g b n :
  graph_status st = g → graph_generation_id st = n → is_locked (Some st) = b →
  view_of (Some st) = mkView (Some g) b n.
Proof. unfold view_of, state_of. by intros <- <- <-. Qed.

Lemma locked_none st t : writer_lock_token st = t → is_locked (Some st) = bool_decide (t ≠ None).
Proof. simpl. intros ->. by destruct t. Qed.

Lemma ready_if_locked st :
  status_valid st → is_locked (Some st) = true → graph_status st = Ready.
Proof.
  intros [_ _ _ _ Ht]. simpl. destruct (writer_lock_token st); [|done].
  by destruct (Ht _ eq_refl).
Qed.

Lemma plan_lifecycle c o t :
  call_valid c → opt_valid t.1 → plan_call c o = Ok t →
  lifecycle_step (view_of t.1) (view_of (Some t.2)).
Proof.
  intros Hv Hexp H. apply plan_replay in H. revert H.
  destruct t as [exp next]. simpl in *. intros H.
  destruct c; simpl in H;
    unfold rebuilding_transition, begin_sync_transition, finish_sync_transition,
      sync_failed_transition, ready_transition, failed_transition, verified_transition in H;
    plan_inv; guard_facts.
  - rewrite (view_some next Rebuilding false _ H H0) by by apply locked_none in H1.
    destruct exp as [st|]; [|constructor].
    rewrite (view_some st (graph_status st) false _ eq_refl eq_refl Ha).
    constructor. simpl in Ha0, Ha1. set_solver.
  - rewrite (view_some a0 Ready false _ Ha eq_refl) by by apply locked_none in Ha1.
    rewrite (view_some next Ready true (graph_generation_id a0)); [constructor|congruence|done|].
    by apply locked_none in H1.
  - destruct Hv as [_ Hv].
    rewrite (view_some expected Ready true _ H eq_refl H0).
    rewrite (view_some next Ready false _ Ha0 eq_refl) by by apply locked_none in Ha1.
    constructor. apply Hv.
  - rewrite (view_some expected Ready true _ H2 eq_refl H3).
    rewrite (view_some next Failed false _ H H0) by by apply locked_none in H1.
    constructor.
  - rewrite (view_some next Ready false _ H H0) by by apply locked_none in H1.
    injection Ha as Ha. rewrite (view_some n Rebuilding false _ Ha eq_refl); [by constructor|].
    destruct (is_locked (Some n)) eqn:Hl; [|done].
    apply ready_if_locked in Hl; [congruence|by apply Hexp].
  - rewrite (view_some next Failed false _ H H0) by by apply locked_none in H1.
    rewrite (view_some n (graph_status n) false _ eq_refl eq_refl Ha).
    constructor. simpl in Ha0. set_solver.
  - rewrite (view_some next Ready false _ H H0) by by apply locked_none in H1.
    rewrite (view_some a0 Ready false _ Ha eq_refl) by by apply locked_none in Ha1.
    constructor.
Qed.
Definition releases_lock (c : status_call) : bool :=
  match c with FinishSync _ _ | MarkSyncFailed _ _ _ _ _ => true | _ => false end.

(** On a locked row, no call but the two that release the lock is planned. *)
Lemma plan_refused_when_locked c st t :
  status_valid st → is_locked (Some st) = true →
  plan_call c (Some st) = Ok t → releases_lock c = false → False.
Proof.
  intros Hv Hl Hplan Hc. pose proof (ready_if_locked _ Hv Hl) as Hr.
  destruct c; try discriminate Hc; simpl in Hplan;
    unfold rebuilding_transition, begin_sync_transition, ready_transition, failed_transition,
      verified_transition in Hplan; plan_inv; guard_facts;
    try match goal with H : writer_lock_token ?x = None |- _ =>
      apply unlocked_token in H end; try congruence.
  all: simpl in *; congruence.
Qed.
End StatusLifecycle.

(** ** Several managers and readers on one row *)
Module StatusSystem.
Import StatusModel StatusStore StatusManager StatusLifecycle.

Section system.
Context {S : Type} `{StatusStoreOps S} (store_ok : S → Prop).
Context `{!StatusStoreSpec S store_ok}.

(** The shared store, the transition each manager has planned and not yet
issued, and the holders of the shared advisory lock of [ready_read]. *)
Record config := mkConfig {
  cfg_store : S;
  cfg_pending : gmap nat (status_call * transition);
  cfg_readers : gset nat;
}.

(** Writes run under the exclusive advisory lock, so only while no
[ready_read] holds the shared one. *)
Inductive sys_step : config → config → Prop :=
| sys_plan s ps rs pid c o t :
  call_valid c → read_current_status s = Ok o → plan_call c o = Ok t →
  sys_step (mkConfig s ps rs) (mkConfig s (<[pid := (c, t)]> ps) rs)
| sys_commit s ps pid c t st s' :
  ps !! pid = Some (c, t) → commit_transition s t = Ok (st, s') →
  sys_step (mkConfig s ps ∅) (mkConfig s' (delete pid ps) ∅)
| sys_stale s ps pid c t e :
  ps !! pid = Some (c, t) → commit_transition s t = Err e →
  sys_step (mkConfig s ps ∅) (mkConfig s (delete pid ps) ∅)
| sys_read_enter s ps rs pid st :
  pid ∉ rs → require_ready s = Ok st →
  sys_step (mkConfig s ps rs) (mkConfig s ps ({[pid]} ∪ rs))
| sys_read_exit s ps rs pid :
  sys_step (mkConfig s ps rs) (mkConfig s ps (rs ∖ {[pid]})).

Definition initial (cfg : config) : Prop :=
  store_ok (cfg_store cfg) ∧ read_current_status (cfg_store cfg) = Ok None ∧
  cfg_pending cfg = ∅ ∧ cfg_readers cfg = ∅.

Definition pending_sound (p : status_call * transition) : Prop :=
  call_valid p.1 ∧ opt_valid p.2.1 ∧ plan_call p.1 p.2.1 = Ok p.2.

Record config_ok (cfg : config) : Prop := {
  cfg_store_ok : store_ok (cfg_store cfg);
  cfg_pending_ok : map_Forall (λ _, pending_sound) (cfg_pending cfg);
}.

Lemma read_valid s o : store_ok s → read_current_status s = Ok o → opt_valid o.
Proof using All.
  intros Hs Hr. destruct (read_total s Hs) as (o' & Hr' & Hv).
  rewrite Hr in Hr'. by injection Hr' as <-.
Qed.

Lemma plan_sound s c o t :
  store_ok s → call_valid c → read_current_status s = Ok o → plan_call c o = Ok t →
  pending_sound (c, t).
Proof using All.
  intros Hs Hc Hr Hp. split_and!; simpl; [done| |by eapply plan_replay].
  rewrite (plan_expected _ _ _ Hp). pose proof (read_valid _ _ Hs Hr) as Ho.
  destruct c; simpl; try done; intros st [= <-]; simpl in Hc; by try destruct Hc.
Qed.

(** A successful compare-and-set replaced exactly the row it expected. *)
Lemma commit_ok s c t st s' :
  store_ok s → pending_sound (c, t) → commit_transition s t = Ok (st, s') →
  read_current_status s = Ok t.1 ∧ st = t.2 ∧ store_ok s' ∧
  read_current_status s' = Ok (Some t.2).
Proof using All.
  intros Hs (Hc & He & Hp) Hcommit. destruct (read_total s Hs) as (o & Hr & _).
  pose proof (plan_next_valid _ _ _ Hc Hp) as Hn.
  unfold commit_transition in Hcommit. rinv. destruct a as [w s1].
  destruct (decide (o = t.1 ∧ storable t.2 = true)) as [[-> Hst]|Hne].
  - destruct (cas_match s t.1 t.2 Hs Hn Hst Hr) as (s2 & Hcas & Hok & Hread).
  simpl in Ha. rewrite Hcas in Ha. injection Ha as <- <-.
  rinv. by simplify_eq/=.
  - assert (o ≠ t.1 ∨ storable t.2 = false) as Hor
    by (destruct (storable t.2); [left|right]; naive_solver).
  simpl in Ha, He. destruct (cas_refused s o t.1 t.2 Hs He Hr Hor) as [Hf|Hf];
    rewrite Ha in Hf; [|done]. injection Hf as -> ->. by rinv.
Qed.

Lemma config_ok_step cfg cfg' : config_ok cfg → sys_step cfg cfg' → config_ok cfg'.
Proof using All.
  intros [Hs Hp] Hstep. destruct Hstep; simpl in *; split; simpl; try done.
  - apply map_Forall_insert_2; [|done]. by eapply plan_sound.
  - by eapply commit_ok; [|eapply Hp|].
  - by apply map_Forall_delete.
  - by apply map_Forall_delete.
Qed.

Lemma reachable_ok cfg cfg' : config_ok cfg → rtc sys_step cfg cfg' → config_ok cfg'.
Proof using All. intros Hc. induction 1; [done|]. eauto using config_ok_step. Qed.

Lemma initial_ok cfg : initial cfg → config_ok cfg.
Proof using All. intros (Hs & _ & Hp & _). split; [done|]. rewrite Hp. apply map_Forall_empty. Qed.

(** One system step is one life-cycle step of the row, or none. *)
Lemma step_view cfg cfg' o :
  config_ok cfg → sys_step cfg cfg' → read_current_status (cfg_store cfg) = Ok o →
  ∃ o', read_current_status (cfg_store cfg') = Ok o' ∧
  (o' = o ∨ lifecycle_step (view_of o) (view_of o')).
Proof using All.
  intros [Hs Hp] Hstep Hr. destruct Hstep as [| ?? pid c t st s' Hl Hc | | |]; simpl in *; eauto.
  pose proof (Hp _ _ Hl) as Hsound. destruct (commit_ok _ _ _ _ _ Hs Hsound Hc) as (Hr' & -> & _ & Hr'').
  exists (Some t.2). split; [done|]. right. rewrite Hr in Hr'. injection Hr' as ->.
  destruct Hsound as (? & ? & ?). by eapply plan_lifecycle.
Qed.
End system.
#[global] Arguments config S : clear implicits.
#[global] Arguments config_ok {S} store_ok cfg.

(** C1: whatever the interleaving of managers and ready-reads over one row,
    from an empty table the row only ever goes through the promised
    life-cycle transitions: every transition planned on a stale read is
    rejected by the compare-and-set instead of being applied. *)
Theorem interleavings_follow_lifecycle {S} `{StatusStoreSpec S store_ok} (cfg cfg' : config S) :
  initial store_ok cfg → rtc sys_step cfg cfg' →
  ∃ o, read_current_status (cfg_store cfg') = Ok o ∧
    rtc lifecycle_step (mkView None false 0) (view_of o).
Proof.
  intros Hinit Hsteps.
  assert (∀ o, read_current_status (cfg_store cfg) = Ok o → config_ok store_ok cfg →
    ∃ o', read_current_status (cfg_store cfg') = Ok o' ∧
      rtc lifecycle_step (view_of o) (view_of o')) as Hgen.
  { clear Hinit. induction Hsteps as [cfg|c1 c2 c3 H12 H23 IH]; intros o Ho Hok.
    { exists o. split; [done|apply rtc_refl]. }
    destruct (step_view store_ok _ _ _ Hok H12 Ho) as (o2 & Ho2 & Hv).
    destruct (IH o2 Ho2 (config_ok_step store_ok _ _ Hok H12)) as (o3 & Ho3 & Hr).
    exists o3. split; [done|]. destruct Hv as [->|Hv]; [done|]. by eapply rtc_l. }
  pose proof (initial_ok store_ok _ Hinit) as Hok. destruct Hinit as (_ & Hread & _).
  by apply (Hgen None).
Qed.

(** C3: while the writer lock is held, the only step that can change the row
    is the commit of a [finish_sync] or [mark_sync_failed] call that presents
    exactly the locked row; every other planned transition is refused. *)
Theorem locked_row_changes_only_by_holder {S} `{StatusStoreSpec S store_ok}
    (cfg cfg' : config S) st :
  config_ok store_ok cfg → sys_step cfg cfg' →
  read_current_status (cfg_store cfg) = Ok (Some st) → is_locked (Some st) = true →
  read_current_status (cfg_store cfg') ≠ Ok (Some st) →
  ∃ pid c t, cfg_pending cfg !! pid = Some (c, t) ∧
    ((∃ r, c = FinishSync st r) ∨ (∃ n e l m, c = MarkSyncFailed st n e l m)).
Proof.
  intros [Hs Hp] Hstep Hr Hl Hne.
  destruct Hstep as [| ?? pid c t st0 s' Hlk Hc | | |]; simpl in *; try done.
  pose proof (Hp _ _ Hlk) as Hsound.
  destruct (commit_ok store_ok _ _ _ _ _ Hs Hsound Hc) as (Hr' & _).
  rewrite Hr in Hr'. injection Hr' as Ht. destruct Hsound as (Hv & He & Hplan). simpl in *.
  exists pid, c, t. split; [done|]. rewrite <- Ht in *.
  pose proof (plan_expected _ _ _ Hplan) as Hexp. rewrite <- Ht in Hexp.
  destruct c; simpl in Hexp; try (injection Hexp as <-; by eauto 8);
    (exfalso; eapply plan_refused_when_locked; [by apply He|exact Hl|exact Hplan|done]).
Qed.

(** A ready-read sees one row: as long as a reader holds the shared lock,
    no step of any other process changes what the store returns. *)
Theorem ready_read_is_stable {S} `{StatusStoreSpec S store_ok} (cfg cfg' : config S) pid :
  rtc (λ a b, pid ∈ cfg_readers a ∧ sys_step a b) cfg cfg' →
  cfg_store cfg' = cfg_store cfg.
Proof.
  induction 1 as [|a b c [Hin Hab] _ IH]; [done|]. rewrite IH.
  destruct Hab; simpl in *; try done; set_solver.
Qed.
End StatusSystem.

(** ** One manager at a time *)
Module StatusSequential.
Import StatusModel StatusStore StatusManager StatusLifecycle StatusSystem.

Section sequential.
Context {S : Type} `{StatusStoreSpec S store_ok}.

Lemma read_for_sound s c o t :
  store_ok s → call_valid c → read_for c s = Ok o → plan_call c o = Ok t →
  pending_sound (c, t).
Proof using All.
  intros Hs Hc Hr Hp.
  assert (∀ o', read_current_status s = Ok o' → plan_call c o' = Ok t → pending_sound (c, t)).
  { intros o' Hr' Hp'. by eapply (plan_sound store_ok). }
  destruct (read_total s Hs) as (o' & Hr' & _).
  destruct c; simpl in Hr; eauto.
Qed.

(** A call whose planned transition expects the stored row goes through. *)
Lemma run_call_succeeds s c o t :
  store_ok s → call_valid c → read_current_status s = Ok o →
  plan_call c o = Ok t → t.1 = o → storable t.2 = true →
  ∃ s', run_call c s = Ok (t.2, s') ∧ store_ok s' ∧ read_current_status s' = Ok (Some t.2).
Proof using All.
  intros Hs Hc Hr Hp <- Hst.
  destruct (cas_match s t.1 t.2 Hs (plan_next_valid _ _ _ Hc Hp) Hst Hr) as (s' & Hcas & Hok & Hread).
  exists s'. split; [|done]. unfold run_call, commit_transition.
  assert (∃ o', read_for c s = Ok o' ∧ plan_call c o' = Ok t) as (o' & -> & Hp')
  by (destruct c; simpl; eauto).
  simpl. rewrite Hp'. simpl. by rewrite Hcas.
Qed.
End sequential.

(** The same for the PostgreSQL store. *)
Lemma pg_run_call_succeeds (t : PgTable) c o tr :
  pg_ok t → call_valid c → pg_read t = Ok o → plan_call c o = Ok tr → tr.1 = o →
  row_checks (status_write_values tr.2) = true →
  ∃ t', run_call c t = Ok (tr.2, t') ∧ pg_ok t' ∧ pg_read t' = Ok (Some tr.2).
Proof. exact (@run_call_succeeds PgTable pg_store_ops pg_ok pg_store_spec t c o tr). Qed.

(** The whole history of a session: every row it stored was reached by the
    promised transitions. *)
Lemma run_calls_ok {S} `{StatusStoreSpec S store_ok} cs s o :
  store_ok s → Forall call_valid cs → read_current_status s = Ok o →
  store_ok (run_calls cs s) ∧ ∃ o', read_current_status (run_calls cs s) = Ok o' ∧
    rtc lifecycle_step (view_of o) (view_of o').
Proof.
  intros Hs Hcs. revert s o Hs. induction Hcs as [|c cs Hc Hcs IH]; intros s o Hs Hr; simpl.
  { split; [done|]. exists o. split; [done|apply rtc_refl]. }
  destruct (run_call c s) as [[st s']|e] eqn:Hrun; [|by apply IH].
  unfold run_call in Hrun. rinv.
  pose proof (read_for_sound s c _ _ Hs Hc Ha Ha0) as Hps.
  destruct (commit_ok store_ok _ _ _ _ _ Hs Hps Hrun) as (Hr' & -> & Hs' & Hread').
  destruct (IH s' _ Hs' Hread') as (Hok & o' & Ho' & Hsteps).
  split; [done|]. exists o'. split; [done|]. rewrite Hr in Hr'. injection Hr' as ->.
  eapply rtc_l; [|exact Hsteps]. destruct Hps as (? & ? & ?). by eapply plan_lifecycle.
Qed.

(** A manager method refines the life cycle: when it returns, the stored
    row is the returned record, valid, and one promised transition away from
    the row found; when it raises in planning or on a stale row, a session
    goes on from the unchanged store. *)
Theorem run_call_refines {S} `{StatusStoreSpec S store_ok} c s o :
  store_ok s → call_valid c → read_current_status s = Ok o →
  match run_call c s with
  | Ok (st, s') =>
      read_current_status s' = Ok (Some st) ∧ store_ok s' ∧ status_valid st ∧
      lifecycle_step (view_of o) (view_of (Some st))
  | Err _ => run_calls [c] s = s
  end.
Proof.
  intros Hs Hc Hr. unfold run_calls. simpl. destruct (run_call c s) as [[st s']|e] eqn:Hrun; [|done].
  unfold run_call in Hrun. rinv.
  pose proof (read_for_sound s c _ _ Hs Hc Ha Ha0) as Hps.
  destruct (commit_ok store_ok _ _ _ _ _ Hs Hps Hrun) as (Hr' & -> & Hs' & Hread').
  rewrite Hr in Hr'. injection Hr' as ->. destruct Hps as (? & ? & ?).
  split_and!; [done|done|by eapply plan_next_valid|by eapply plan_lifecycle].
Qed.

(** The calls that bring a live graph back: give up a pending sync, rebuild,
    and publish. *)
Definition recovery_calls (st : Neo4jGraphStatus) (n e : Z) (l : gmap string Z) (sum : string)
    (now : instant) : list status_call :=
  [MarkSyncFailed st 0 0 ∅ "failed"; MarkRebuilding; MarkReady n e l sum None true now].

(** Rows whose generation leaves room for the next one. *)
Definition room (st : Neo4jGraphStatus) : Prop :=
  status_valid st ∧ graph_generation_id st < 2 ^ 63 - 1.

Lemma make_status_succeeds g gen n e l c v r :
  0 ≤ gen → 0 ≤ n → 0 ≤ e → is_empty (strip c) = false →
  make_status g gen n e l c v r None = Ok (mkStatus g gen n e l (strip c) v r None).
Proof.
  intros ??? Hc. unfold make_status.
  by rewrite !(proj2 (Z.ltb_ge _ _)), Hc by done.
Qed.

Lemma fresh_storable g gen n e l c v r :
  0 ≤ gen < 2 ^ 63 → 0 ≤ n < 2 ^ 63 → 0 ≤ e < 2 ^ 63 → is_empty (strip c) = false →
  status_valid (mkStatus g gen n e l (strip c) v r None) ∧
  row_checks (status_write_values (mkStatus g gen n e l (strip c) v r None)) = true.
Proof.
  intros ??? Hc. destruct (make_status_ok g gen n e l c v r None _
    (make_status_succeeds g gen n e l c v r ltac:(lia) ltac:(lia) ltac:(lia) Hc)) as [Hv _].
  split; [done|]. apply row_checks_valid; simpl; by try lia.
Qed.

Lemma run_calls_go {S} `{StatusStoreOps S} c cs (s s' : S) st :
  run_call c s = Ok (st, s') → run_calls (c :: cs) s = run_calls cs s'.
Proof. unfold run_calls. simpl. by intros ->. Qed.

Lemma run_calls_skip {S} `{StatusStoreOps S} c cs (s : S) e :
  run_call c s = Err e → run_calls (c :: cs) s = run_calls cs s.
Proof. unfold run_calls. simpl. by intros ->. Qed.

Section recovery.
Context (n e : Z) (l : gmap string Z) (sum : string) (now : instant).
Context (Hn : 0 ≤ n < 2 ^ 63) (He : 0 ≤ e < 2 ^ 63) (Hsum : is_empty (strip sum) = false).
Implicit Types (t : PgTable) (st : Neo4jGraphStatus).

Let publish : status_call := MarkReady n e l sum None true now.
Let recovered st : Neo4jGraphStatus :=
mkStatus Ready (graph_generation_id st + 1) n e l (strip sum) (Some now) (Some now) None.

Lemma recover_from_rebuilding t st :
  pg_ok t → pg_read t = Ok (Some st) → room st → graph_status st = Rebuilding →
  pg_read (run_calls [publish] t) = Ok (Some (recovered st)).
Proof using All.
  intros Ht Hr [Hv Hg] Hst. pose proof (valid_generation _ Hv).
  assert (plan_call publish (Some st) = Ok (Some st, recovered st)) as Hp.
  { simpl. unfold ready_transition, state_of. simpl. rewrite Hst. simpl.
  rewrite (proj2 (Z.ltb_ge _ _)) by lia. simpl. by rewrite make_status_succeeds by (done || lia). }
  destruct (fresh_storable Ready (graph_generation_id st + 1) n e l sum (Some now) (Some now))
  as [_ Hsto]; [lia..|done|].
  destruct (pg_run_call_succeeds t publish (Some st) _ Ht I Hr Hp eq_refl Hsto) as (t' & Hrun & _ & Hread).
  by rewrite (run_calls_go _ _ _ _ _ Hrun).
Qed.

Lemma recover_from_stopped t st :
  pg_ok t → pg_read t = Ok (Some st) → room st → is_locked (Some st) = false →
  pg_read (run_calls [MarkRebuilding; publish] t) = Ok (Some (recovered st)).
Proof using All.
  intros Ht Hr Hroom Hl. destruct Hroom as [Hv Hg]. pose proof (valid_generation _ Hv) as Hg0.
  destruct (decide (graph_status st = Rebuilding)) as [Hst|Hst].
  { rewrite (run_calls_skip _ _ _ (BadTransition (Some Rebuilding) Rebuilding));
    [by apply recover_from_rebuilding|].
  unfold run_call. simpl. rewrite Hr. simpl. unfold rebuilding_transition. rewrite Hl.
  unfold state_of. simpl. by rewrite Hst. }
  destruct (fresh_storable Rebuilding (graph_generation_id st) 0 0 ∅ "rebuilding" None
  (last_reload_at st)) as [Hval Hsto]; [lia..|done|].
  change (strip "rebuilding") with "rebuilding" in *.
  assert (plan_call MarkRebuilding (Some st) = Ok (Some st, mkStatus Rebuilding
  (graph_generation_id st) 0 0 ∅ "rebuilding" None (last_reload_at st) None)) as Hp.
  { cbn [plan_call]. unfold rebuilding_transition. rewrite Hl. unfold state_of. simpl.
  rewrite bool_decide_eq_false_2 by congruence. simpl.
  rewrite bool_decide_eq_true_2 by (destruct (graph_status st); set_solver). simpl.
  by rewrite make_status_succeeds by (done || lia). }
  destruct (pg_run_call_succeeds t MarkRebuilding (Some st) _ Ht I Hr Hp eq_refl Hsto)
  as (t' & Hrun & Hok & Hread).
  rewrite (run_calls_go _ _ _ _ _ Hrun).
  by apply (recover_from_rebuilding t' _ Hok Hread).
Qed.

Lemma recover_from_any t st :
  pg_ok t → pg_read t = Ok (Some st) → room st →
  pg_read (run_calls (recovery_calls st n e l sum now) t) = Ok (Some (recovered st)).
Proof using All.
  intros Ht Hr Hroom. destruct Hroom as [Hv Hg]. pose proof (valid_generation _ Hv) as Hg0.
  destruct (is_locked (Some st)) eqn:Hl.
  - destruct (fresh_storable Failed (graph_generation_id st) 0 0 ∅ "failed" None
    (last_reload_at st)) as [Hval Hsto]; [lia..|done|].
  change (strip "failed") with "failed" in *.
  assert (plan_call (MarkSyncFailed st 0 0 ∅ "failed") (Some st) = Ok (Some st, mkStatus Failed
    (graph_generation_id st) 0 0 ∅ "failed" None (last_reload_at st) None)) as Hp.
  { simpl. unfold sync_failed_transition.
    rewrite (proj2 (holds_sync_lock_true st)) by (split; [by apply ready_if_locked|done]).
    simpl. by rewrite make_status_succeeds by (done || lia). }
  destruct (pg_run_call_succeeds t (MarkSyncFailed st 0 0 ∅ "failed") (Some st) _ Ht Hv Hr Hp
    eq_refl Hsto) as (t' & Hrun & Hok & Hread).
  unfold recovery_calls. rewrite (run_calls_go _ _ _ _ _ Hrun).
  by apply (recover_from_stopped t' _ Hok Hread).
  - unfold recovery_calls. rewrite (run_calls_skip _ _ _ SyncFailedNeedsLock).
  { by apply (recover_from_stopped t st). }
  unfold run_call. simpl. unfold sync_failed_transition.
  destruct (holds_sync_lock st) eqn:Hh; [|done].
  apply holds_sync_lock_true in Hh as [_ ?]. congruence.
Qed.
End recovery.

(** C23: recovery always succeeds: from any stored row, locked by a sync that
    died, rebuilding, ready or failed, the recovery calls lead to a ready,
    unlocked row of the next generation. *)
Theorem recovery_reaches_ready (t : PgTable) st n e l sum now :
  pg_ok t → pg_read t = Ok (Some st) → room st →
  0 ≤ n < 2 ^ 63 → 0 ≤ e < 2 ^ 63 → is_empty (strip sum) = false →
  pg_read (run_calls (recovery_calls st n e l sum now) t) =
    Ok (Some (mkStatus Ready (graph_generation_id st + 1) n e l (strip sum) (Some now) (Some now) None)).
Proof. intros. by apply recover_from_any. Qed.
End StatusSequential.

(** ** Concrete runs *)
Module StatusExamples.
Import StatusModel StatusStore StatusManager StatusLifecycle StatusSystem StatusSequential.

Definition ex_rebuilding : Neo4jGraphStatus := mkStatus Rebuilding 0 0 0 ∅ "rebuilding" None None None.
Definition ex_ready : Neo4jGraphStatus := mkStatus Ready 1 3 2 ∅ "abc" (Some 5) (Some 5) None.
Definition ex_locked : Neo4jGraphStatus :=
  mkStatus Ready 1 3 2 ∅ "abc" (Some 5) (Some 5) (Some "incremental-sync").
Definition row_of (st : Neo4jGraphStatus) : PgTable := Some (status_write_values st).
Definition ex_publish : status_call := MarkReady 3 2 ∅ "abc" None true 5.
Definition ex_start : config PgTable := mkConfig None ∅ ∅.
Definition ex_planned : config PgTable :=
  mkConfig None {[0%nat := (MarkRebuilding, (None, ex_rebuilding))]} ∅.

Lemma ex_valid_ready : status_valid ex_ready.
Proof. by apply remake_valid. Qed.
Lemma ex_valid_locked : status_valid ex_locked.
Proof. by apply remake_valid. Qed.
Lemma row_ok st : status_valid st → pg_ok (row_of st).
Proof. intros H r [= <-]. eauto. Qed.

Lemma ex_steps : rtc sys_step ex_start
  (mkConfig (row_of ex_rebuilding) (delete 0%nat {[0%nat := (MarkRebuilding, (None, ex_rebuilding))]}) ∅).
Proof.
  eapply rtc_l with ex_planned.
  { apply (sys_plan None ∅ ∅ 0%nat MarkRebuilding None (None, ex_rebuilding) I); reflexivity. }
  apply rtc_once. apply (sys_commit _ _ _ MarkRebuilding (None, ex_rebuilding) ex_rebuilding); reflexivity.
Qed.

Lemma interleavings_follow_lifecycle_witness :
  ∃ o, read_current_status (row_of ex_rebuilding) = Ok o ∧
    rtc lifecycle_step (mkView None false 0) (view_of o).
Proof.
  eapply (interleavings_follow_lifecycle (store_ok := pg_ok) ex_start _ _ ex_steps).
  Unshelve. split_and!; [intros r [=]|reflexivity|reflexivity|reflexivity].
Defined.

Definition ex_finish : status_call * transition :=
  (FinishSync ex_locked ex_ready, (Some ex_locked, ex_ready)).
Definition ex_sync : config PgTable := mkConfig (row_of ex_locked) {[7%nat := ex_finish]} ∅.

Lemma ex_sync_ok : config_ok pg_ok ex_sync.
Proof.
  split; simpl; [apply row_ok, ex_valid_locked|].
  apply map_Forall_singleton. split_and!; simpl; [split; apply remake_valid; reflexivity| |done].
  intros ? [= <-]. apply ex_valid_locked.
Qed.

Lemma ex_sync_commit :
  sys_step ex_sync (mkConfig (row_of ex_ready) (delete 7%nat {[7%nat := ex_finish]}) ∅).
Proof. by eapply (sys_commit _ _ 7%nat (FinishSync ex_locked ex_ready) _ ex_ready). Qed.

Lemma locked_row_changes_only_by_holder_witness :
  ∃ pid c t, cfg_pending ex_sync !! pid = Some (c, t) ∧
    ((∃ r, c = FinishSync ex_locked r) ∨ (∃ n e l m, c = MarkSyncFailed ex_locked n e l m)).
Proof.
  apply (locked_row_changes_only_by_holder (store_ok := pg_ok) ex_sync _ ex_locked
    ex_sync_ok ex_sync_commit); [reflexivity|reflexivity|discriminate].
Defined.

Lemma ready_read_is_stable_witness :
  cfg_store (mkConfig (row_of ex_ready) {[0%nat := (BeginSync, (Some ex_ready, ex_locked))]} {[1%nat]})
    = row_of ex_ready.
Proof.
  apply (ready_read_is_stable (store_ok := pg_ok)
    (mkConfig (row_of ex_ready) ∅ {[1%nat]}) _ 1%nat).
  apply rtc_once. split; [apply elem_of_singleton; reflexivity|].
  apply (sys_plan _ ∅ {[1%nat]} 0%nat BeginSync (Some ex_ready)); [exact I|reflexivity|reflexivity].
Defined.

Lemma run_call_refines_witness :
  match run_call BeginSync (row_of ex_ready) with
  | Ok (st, s') =>
      read_current_status s' = Ok (Some st) ∧ pg_ok s' ∧ status_valid st ∧
      lifecycle_step (view_of (Some ex_ready)) (view_of (Some st))
  | Err _ => run_calls [BeginSync] (row_of ex_ready) = row_of ex_ready
  end.
Proof.
  exact (run_call_refines (store_ok := pg_ok) BeginSync (row_of ex_ready) (Some ex_ready)
    (row_ok _ ex_valid_ready) I eq_refl).
Defined.

(** A sync that died holding the writer lock. *)
Lemma recovery_reaches_ready_witness :
  pg_read (run_calls (recovery_calls ex_locked 4 4 ∅ "def" 9) (row_of ex_locked)) =
    Ok (Some (mkStatus Ready 2 4 4 ∅ "def" (Some 9) (Some 9) None)).
Proof.
  exact (recovery_reaches_ready (row_of ex_locked) ex_locked 4 4 ∅ "def" 9 (row_ok _ ex_valid_locked)
    eq_refl (conj ex_valid_locked eq_refl) (conj (Zle_0_pos 4) eq_refl)
    (conj (Zle_0_pos 4) eq_refl) eq_refl).
Defined.
End StatusExamples.
