(* ===== verification/CandidateQueue.v ===== *)
(** * CandidateQueue: the PostgreSQL-backed candidate queue of data-platform

    [QueueModel] holds the rows and enums of [queue/models.py],
    [QueueValidation] the producer envelope checks of [queue/validation.py],
    [QueueRepository] the inserts and the locked fetch and update of
    [queue/repository.py], and [QueueWorker] the validation pass of
    [queue/worker.py]. *)
From Stdlib Require Import String Ascii ZArith List.
From stdpp Require Import base gmap strings list.
From S2P Require Import Prelude PyLib.
Local Open Scope string_scope.
Local Open Scope Z_scope.

Module QueueModel.

(** [Literal["Ex-0", "Ex-1", "Ex-2", "Ex-3"]] *)
Inductive CandidatePayloadType := Ex0 | Ex1 | Ex2 | Ex3.
#[export] Instance CandidatePayloadType_eq_dec : EqDecision CandidatePayloadType.
Proof. solve_decision. Defined.
Definition payload_type_text (p : CandidatePayloadType) : string :=
  match p with Ex0 => "Ex-0" | Ex1 => "Ex-1" | Ex2 => "Ex-2" | Ex3 => "Ex-3" end.
Definition payload_type_of (s : string) : option CandidatePayloadType :=
  if String.eqb s "Ex-0" then Some Ex0 else if String.eqb s "Ex-1" then Some Ex1
  else if String.eqb s "Ex-2" then Some Ex2 else if String.eqb s "Ex-3" then Some Ex3 else None.

(** [Literal["pending", "accepted", "rejected"]] *)
Inductive ValidationStatus := CandPending | CandAccepted | CandRejected.
#[export] Instance ValidationStatus_eq_dec : EqDecision ValidationStatus.
Proof. solve_decision. Defined.

Record CandidateQueueItem := mkItem {
  item_id : Z;
  item_payload_type : CandidatePayloadType;
  item_payload : pdict;
  item_submitted_by : string;
  item_submitted_at : Z;
  item_ingest_seq : Z;
  item_validation_status : ValidationStatus;
  item_rejection_reason : option string;
}.

Record CandidateSubmitReceipt := mkReceipt {
  candidate_id : Z;
  receipt_ingest_seq : Z;
  receipt_submitted_at : Z;
  receipt_validation_status : ValidationStatus;
  receipt_rejection_reason : option string;
  replayed : bool;
}.

(** The columns no statement of the code updates. *)
Definition row_core (r : CandidateQueueItem) : Z * CandidatePayloadType * pdict * string * Z * Z :=
  (item_id r, item_payload_type r, item_payload r, item_submitted_by r, item_submitted_at r,
   item_ingest_seq r).

(** The table and the two sequences its serial columns draw from. *)
Record candidate_table := mkQueue {
  q_rows : list CandidateQueueItem;
  q_next_id : Z;
  q_next_seq : Z;
}.

(** The key of the partial unique index [candidate_queue_ex3_delta_id_key]. *)
Definition delta_key (r : CandidateQueueItem) : option (string * string) :=
  match item_payload_type r, pget "delta_id" (item_payload r) with
  | Ex3, Some (PStr s) => if is_empty s then None else Some (item_submitted_by r, s)
  | _, _ => None
  end.

(** [ORDER BY ingest_seq ASC] *)
Definition seq_leb (a b : CandidateQueueItem) : bool := item_ingest_seq a <=? item_ingest_seq b.

Lemma payload_type_text_of p : payload_type_of (payload_type_text p) = Some p.
Proof. by destruct p. Qed.

Lemma payload_type_of_text s p : payload_type_of s = Some p → payload_type_text p = s.
Proof.
  unfold payload_type_of. intros H.
  repeat match type of H with context [String.eqb s ?t] =>
    destruct (String.eqb s t) eqn:?; to_prop; [by simplify_eq|] end. done.
Qed.
End QueueModel.

Module QueueValidation.
Import QueueModel.

(** [FORBIDDEN_PRODUCER_FIELDS] *)
Definition forbidden_producer_fields : list string :=
  ["dbt_log_path"; "dsn"; "ex_type"; "ingest_seq"; "layer_b_receipt_id"; "produced_at";
   "provider_payload"; "provider_response"; "raw_payload"; "raw_payload_path"; "runtime_path";
   "submitted_at"].

(** One constructor per raise site. *)
Inductive validation_error :=
| PayloadNotMapping
| ForbiddenIngestMetadata (fields : list string)
| BadPayloadType
| BadSubmittedBy
| NonStringKeys
| NotJson (detail : string)
| PayloadTypeMismatch (found expected : string)
| SubmittedByMismatch (found expected : string).

(** The exception's class name and [str]. *)
Definition validation_class (e : validation_error) : string :=
  match e with
  | ForbiddenIngestMetadata _ => "ForbiddenIngestMetadataError"
  | _ => "CandidateValidationError"
  end.

Definition quoted (s : string) : string := "'" ++ s ++ "'".

Definition validation_text (e : validation_error) : string :=
  match e with
  | PayloadNotMapping => "candidate payload must be a JSON object mapping"
  | ForbiddenIngestMetadata fields =>
      "producer payload must not include PostgreSQL ingest metadata fields: [" ++
      join ", " (map quoted fields) ++ "]"
  | BadPayloadType => "payload_type must be one of ['Ex-0', 'Ex-1', 'Ex-2', 'Ex-3']"
  | BadSubmittedBy => "submitted_by is required and must be a non-empty string"
  | NonStringKeys => "candidate payload JSON object keys must be strings"
  | NotJson d => "candidate payload must be JSON serializable: " ++ d
  | PayloadTypeMismatch f e =>
      "candidate payload_type does not match candidate_queue payload_type: " ++ f ++ " != " ++ e
  | SubmittedByMismatch f e =>
      "candidate submitted_by does not match candidate_queue submitted_by: " ++ f ++ " != " ++ e
  end.

Record CandidateEnvelope := mkEnvelope {
  env_payload_type : CandidatePayloadType;
  env_submitted_by : string;
  env_payload : pdict;
}.

Definition reject_forbidden_ingest_metadata (payload : pdict) : result validation_error () :=
  let forbidden_fields :=
    sorted_strings (filter (λ k, phas k payload) forbidden_producer_fields) in
  match forbidden_fields with
  | [] => Ok ()
  | _ => Err (ForbiddenIngestMetadata forbidden_fields)
  end.

Definition validate_payload_type (v : option pyval) : result validation_error CandidatePayloadType :=
  match v with
  | Some (PStr s) => match payload_type_of s with Some p => Ok p | None => Err BadPayloadType end
  | _ => Err BadPayloadType
  end.

Definition validate_submitted_by (v : option pyval) : result validation_error string :=
  match v with
  | Some (PStr s) => raise_if is_empty (strip s) with BadSubmittedBy; Ok s
  | _ => Err BadSubmittedBy
  end.

Definition copy_valid_payload (payload : pdict) : result validation_error pdict :=
  let* _ := reject_forbidden_ingest_metadata payload in
  raise_if negb (string_keyed (PDict payload)) with NonStringKeys;
  match json_error (PDict payload) with
  | Some detail => Err (NotJson detail)
  | None => Ok payload
  end.

Definition validate_candidate_envelope (payload : pyval) : result validation_error CandidateEnvelope :=
  match payload with
  | PDict d =>
      let* _ := reject_forbidden_ingest_metadata d in
      let* pt := validate_payload_type (pget "payload_type" d) in
      let* by_ := validate_submitted_by (pget "submitted_by" d) in
      let* d' := copy_valid_payload d in
      Ok (mkEnvelope pt by_ d')
  | _ => Err PayloadNotMapping
  end.

(** What a [CandidateValidator] answers: accept, reject with the exception's
    class and text, or raise anything else. *)
Inductive verdict :=
| VAccept
| VReject (class text : string)
| VRaise.

(** [EnvelopeCandidateValidator.validate] *)
Definition envelope_validator (item : CandidateQueueItem) : verdict :=
  let checked :=
    let* e := validate_candidate_envelope (PDict (item_payload item)) in
    raise_if negb (bool_decide (env_payload_type e = item_payload_type item)) with
      PayloadTypeMismatch (payload_type_text (env_payload_type e))
        (payload_type_text (item_payload_type item));
    raise_if negb (String.eqb (env_submitted_by e) (item_submitted_by item)) with
      SubmittedByMismatch (env_submitted_by e) (item_submitted_by item);
    Ok () in
  match checked with
  | Ok _ => VAccept
  | Err e => VReject (validation_class e) (validation_text e)
  end.

Lemma forbidden_absent d :
  reject_forbidden_ingest_metadata d = Ok () ↔
  ∀ k, k ∈ forbidden_producer_fields → phas k d = false.
Proof.
  unfold reject_forbidden_ingest_metadata, sorted_strings.
  set (l := py_sort _ _).
  assert (∀ k, k ∈ l ↔ phas k d = true ∧ k ∈ forbidden_producer_fields) as Hl.
  { intros k. unfold l. rewrite elem_of_py_sort, list_elem_of_filter.
    by rewrite Is_true_true. }
  split.
  - destruct l eqn:E; [|done]. intros _ k Hk. apply not_true_iff_false. intros Hp.
    assert (k ∈ []) as Hin by (by apply Hl). by apply elem_of_nil in Hin.
  - intros Hall. destruct l as [|x l']; [done|].
    destruct (proj1 (Hl x)) as [Hp Hx]; [left|]. by rewrite Hall in Hp.
Qed.

(** The shape of an accepted envelope. *)
Lemma validate_envelope_ok p e :
  validate_candidate_envelope p = Ok e ↔
  p = PDict (env_payload e) ∧
  (∀ k, k ∈ forbidden_producer_fields → phas k (env_payload e) = false) ∧
  pget "payload_type" (env_payload e) = Some (PStr (payload_type_text (env_payload_type e))) ∧
  pget "submitted_by" (env_payload e) = Some (PStr (env_submitted_by e)) ∧
  is_empty (strip (env_submitted_by e)) = false ∧
  string_keyed p = true ∧ json_error p = None.
Proof.
  split.
  - intros H. destruct p as [| | | | | | |d|]; try discriminate H.
    unfold validate_candidate_envelope in H. rinv. simpl.
    unfold copy_valid_payload in Ha2. rinv. destruct (json_error (PDict d)) eqn:Hj; [done|].
    rinv. to_prop. pose proof (proj1 (forbidden_absent _) Ha) as Hf.
    unfold validate_payload_type in Ha0.
    destruct (pget "payload_type" a2) as [[]|]; try done.
    destruct (payload_type_of s) eqn:Hs; try done. rinv.
    unfold validate_submitted_by in Ha1. destruct (pget "submitted_by" a2) as [[]|]; try done.
    rinv. apply payload_type_of_text in Hs as ->. by split_and!.
  - intros (-> & Hf & Hpt & Hsb & Hne & Hk & Hj). unfold validate_candidate_envelope.
    apply forbidden_absent in Hf. unfold copy_valid_payload.
    rewrite Hf, Hpt, Hsb, Hk, Hj. simpl. rewrite payload_type_text_of. simpl. rewrite Hne.
    by destruct e.
Qed.
End QueueValidation.

(** ** The jsonb column

    What PostgreSQL gives back for a payload written to a [jsonb] column, and
    what the code relies on: top-level strings and the set of keys survive,
    and the result is JSON. *)
Class Jsonb := {
  jsonb : pdict → option pdict;
  jsonb_strings d d' k s : jsonb d = Some d' →
    pget k d' = Some (PStr s) ↔ pget k d = Some (PStr s);
  jsonb_keys d d' k : jsonb d = Some d' → phas k d' = phas k d;
  jsonb_is_json d d' : jsonb d = Some d' →
    string_keyed (PDict d') = true ∧ json_error (PDict d') = None;
}.

Module QueueRepository.
Import QueueModel QueueValidation.

Inductive queue_error :=
| QueueValidationFailed (e : validation_error)
| CandidateQueueWriteError
| LimitNotPositive
| BadStatusArgument
| AcceptedWithReason
| RejectedWithoutReason
| ReceiptInvalid
| ValidatorRaised (id : Z).

(** [_row_to_candidate_queue_item]: the item's own checks on a returned row. *)
Definition row_to_item (r : CandidateQueueItem) : result queue_error CandidateQueueItem :=
  raise_if phas "ingest_seq" (item_payload r) || phas "submitted_at" (item_payload r)
    with CandidateQueueWriteError;
  Ok r.

Definition is_ex3_delta_envelope (e : CandidateEnvelope) : bool :=
  bool_decide (env_payload_type e = Ex3) &&
  match pget "delta_id" (env_payload e) with
  | Some (PStr s) => negb (is_empty s)
  | _ => false
  end.

(** [CandidateSubmitReceipt.from_candidate] *)
Definition from_candidate (item : CandidateQueueItem) (is_replay : bool)
    : result queue_error CandidateSubmitReceipt :=
  raise_if item_id item <? 1 with ReceiptInvalid;
  raise_if item_ingest_seq item <? 1 with ReceiptInvalid;
  Ok (mkReceipt (item_id item) (item_ingest_seq item) (item_submitted_at item)
        (item_validation_status item) (item_rejection_reason item) is_replay).

(** [_FETCH_EXISTING_EX3_DELTA_SQL] *)
Definition fetch_existing (t : candidate_table) (submitted_by delta_id : string)
    : option CandidateQueueItem :=
  head (py_sort seq_leb (filter (λ r,
    String.eqb (item_submitted_by r) submitted_by &&
    bool_decide (item_payload_type r = Ex3) &&
    match pget "delta_id" (item_payload r) with
    | Some (PStr s) => String.eqb s delta_id
    | _ => false
    end) (q_rows t))).

(** [_FETCH_PENDING_FOR_UPDATE_SQL]; [locked] are the rows other transactions
    hold. *)
Definition fetch_pending_for_update (limit : Z) (locked : gset Z) (t : candidate_table)
    : result queue_error (list CandidateQueueItem) :=
  raise_if limit <? 1 with LimitNotPositive;
  Ok (take (Z.to_nat limit) (py_sort seq_leb (filter (λ r,
    bool_decide (item_validation_status r = CandPending) &&
    negb (bool_decide (item_id r ∈ locked))) (q_rows t)))).

(** [_MARK_VALIDATION_RESULT_SQL] on one row. *)
Definition mark_row (id : Z) (status : ValidationStatus) (reason : option string)
    (r : CandidateQueueItem) : CandidateQueueItem :=
  if (item_id r =? id) && bool_decide (item_validation_status r = CandPending)
  then mkItem (item_id r) (item_payload_type r) (item_payload r) (item_submitted_by r)
         (item_submitted_at r) (item_ingest_seq r) status reason
  else r.

Definition mark_validation_result (id : Z) (status : ValidationStatus) (reason : option string)
    (t : candidate_table) : result queue_error candidate_table :=
  raise_if negb (bool_decide (status ∈ [CandAccepted; CandRejected])) with BadStatusArgument;
  raise_if bool_decide (status = CandAccepted) && bool_decide (reason ≠ None)
    with AcceptedWithReason;
  raise_if bool_decide (status = CandRejected) && bool_decide (reason = None)
    with RejectedWithoutReason;
  Ok (mkQueue (map (mark_row id status reason) (q_rows t)) (q_next_id t) (q_next_seq t)).

Section inserts.
Context {J : Jsonb}.

(** The row an INSERT proposes; the CHECK constraints refuse ingest metadata
in the payload. *)
Definition proposed_row (t : candidate_table) (e : CandidateEnvelope) (now : Z)
  : result queue_error CandidateQueueItem :=
  match jsonb (env_payload e) with
  | None => Err CandidateQueueWriteError
  | Some p =>
    raise_if phas "submitted_at" p || phas "ingest_seq" p with CandidateQueueWriteError;
    Ok (mkItem (q_next_id t) (env_payload_type e) p (env_submitted_by e) now (q_next_seq t)
          CandPending None)
  end.

(** Whether the row conflicts with the partial unique index. *)
Definition conflicts (t : candidate_table) (r : CandidateQueueItem) : bool :=
  match delta_key r with
  | None => false
  | Some k => existsb (λ r', bool_decide (delta_key r' = Some k)) (q_rows t)
  end.

(** Both sequences advance even when the row is not kept. *)
Definition draw (t : candidate_table) (new : list CandidateQueueItem) : candidate_table :=
  mkQueue (q_rows t ++ new)%list (q_next_id t + 1) (q_next_seq t + 1).

Definition insert_candidate (e : CandidateEnvelope) (now : Z) (t : candidate_table)
  : result queue_error (CandidateQueueItem * candidate_table) :=
  let* r := proposed_row t e now in
  raise_if conflicts t r with CandidateQueueWriteError;
  let* item := row_to_item r in
  Ok (item, draw t [r]).

Definition insert_candidate_idempotent (e : CandidateEnvelope) (now : Z) (t : candidate_table)
  : result queue_error (CandidateSubmitReceipt * candidate_table) :=
  if negb (is_ex3_delta_envelope e) then
  let* '(item, t') := insert_candidate e now t in
  let* receipt := from_candidate item false in
  Ok (receipt, t')
  else
  let* r := proposed_row t e now in
  if negb (conflicts t r) then
    let* item := row_to_item r in
    let* receipt := from_candidate item false in
    Ok (receipt, draw t [r])
  else
    let delta_id := match pget "delta_id" (env_payload e) with
                    | Some (PStr s) => s | _ => EmptyString end in
    match fetch_existing t (env_submitted_by e) delta_id with
    | None => Err CandidateQueueWriteError
    | Some existing =>
        let* item := row_to_item existing in
        let* receipt := from_candidate item true in
        Ok (receipt, draw t [])
    end.

(** [queue/api.py] *)
Definition submit_candidate (payload : pyval) (now : Z) (t : candidate_table)
  : result queue_error (CandidateQueueItem * candidate_table) :=
  let* e := map_err QueueValidationFailed (validate_candidate_envelope payload) in
  insert_candidate e now t.
Definition submit_candidate_idempotent (payload : pyval) (now : Z) (t : candidate_table)
  : result queue_error (CandidateSubmitReceipt * candidate_table) :=
  let* e := map_err QueueValidationFailed (validate_candidate_envelope payload) in
  insert_candidate_idempotent e now t.
End inserts.

(** The constraints the database keeps on the table. *)
Record table_ok (t : candidate_table) : Prop := {
  ok_next : 1 ≤ q_next_id t ∧ 1 ≤ q_next_seq t;
  ok_ids : ∀ r, r ∈ q_rows t → 1 ≤ item_id r < q_next_id t;
  ok_seqs : ∀ r, r ∈ q_rows t → 1 ≤ item_ingest_seq r < q_next_seq t;
  ok_unique_id : NoDup (map item_id (q_rows t));
  ok_unique_seq : NoDup (map item_ingest_seq (q_rows t));
  ok_payloads : ∀ r, r ∈ q_rows t →
    phas "submitted_at" (item_payload r) = false ∧ phas "ingest_seq" (item_payload r) = false;
  ok_unique_delta : ∀ r r' k, r ∈ q_rows t → r' ∈ q_rows t →
    delta_key r = Some k → delta_key r' = Some k → row_core r = row_core r';
}.

(** Rows are only ever appended; their core columns never change. *)
Definition rows_extend (t t' : candidate_table) : Prop :=
  ∃ new, map row_core (q_rows t') = (map row_core (q_rows t) ++ new)%list.
#[export] Instance rows_extend_preorder : PreOrder rows_extend.
Proof.
  split.
  - intros t. exists []. by rewrite app_nil_r.
  - intros t1 t2 t3 [n1 H1] [n2 H2]. exists (n1 ++ n2)%list. by rewrite H2, H1, app_assoc.
Qed.

Lemma delta_key_core r r' : row_core r = row_core r' → delta_key r = delta_key r'.
Proof. destruct r, r'. unfold row_core, delta_key. simpl. by intros [= <- <- <- <- <- <-]. Qed.

Lemma row_core_fields r r' : row_core r = row_core r' →
  item_id r = item_id r' ∧ item_payload_type r = item_payload_type r' ∧
  item_payload r = item_payload r' ∧ item_submitted_by r = item_submitted_by r' ∧
  item_submitted_at r = item_submitted_at r' ∧ item_ingest_seq r = item_ingest_seq r'.
Proof. unfold row_core. intros E. by injection E. Qed.

Lemma rows_extend_elem t t' r :
  rows_extend t t' → r ∈ q_rows t → ∃ r', r' ∈ q_rows t' ∧ row_core r' = row_core r.
Proof.
  intros [new Hext] Hr.
  assert (row_core r ∈ map row_core (q_rows t')) as Hin.
  { rewrite Hext. apply elem_of_app. left. by apply list_elem_of_fmap_2. }
  apply list_elem_of_fmap in Hin as (r' & Hc & Hr'). eauto.
Qed.

Lemma conflicts_true t r :
  conflicts t r = true ↔ ∃ k r', delta_key r = Some k ∧ r' ∈ q_rows t ∧ delta_key r' = Some k.
Proof.
  unfold conflicts. destruct (delta_key r) as [k|]; [|naive_solver].
  rewrite existsb_exists. setoid_rewrite bool_decide_eq_true.
  setoid_rewrite <- list_elem_of_In. naive_solver.
Qed.

Lemma mark_row_core id s reason r : row_core (mark_row id s reason r) = row_core r.
Proof. unfold mark_row. by case_match. Qed.

(** An operation that keeps the core columns keeps the table's constraints. *)
Lemma table_ok_core t t' :
  table_ok t → map row_core (q_rows t') = map row_core (q_rows t) →
  q_next_id t' = q_next_id t → q_next_seq t' = q_next_seq t → table_ok t'.
Proof.
  intros [Hn Hi Hs Hui Hus Hp Hd] Hc H1 H2.
  assert (∀ r, r ∈ q_rows t' → ∃ r0, r0 ∈ q_rows t ∧ row_core r = row_core r0) as Hback.
  { intros r Hr. assert (row_core r ∈ map row_core (q_rows t)) as Hin.
    { rewrite <- Hc. by apply list_elem_of_fmap_2. }
    apply list_elem_of_fmap in Hin as (r0 & ? & ?). eauto. }
  assert (∀ {B} (f : _ → B), map (λ c, f c) (map row_core (q_rows t')) = map f (map row_core (q_rows t)))
    as Hm by (intros; by rewrite Hc).
  split; rewrite ?H1, ?H2; try done.
  - intros r (r0 & Hr0 & E)%Hback. apply Hi in Hr0. apply row_core_fields in E as (E1 & _ & E3 & _ & _ & E6).
    by rewrite ?E1, ?E3, ?E6.
  - intros r (r0 & Hr0 & E)%Hback. apply Hs in Hr0. apply row_core_fields in E as (E1 & _ & E3 & _ & _ & E6).
    by rewrite ?E1, ?E3, ?E6.
  - specialize (Hm _ (λ c, c.1.1.1.1.1)). rewrite !map_map in Hm. unfold row_core in Hm.
    simpl in Hm. change (NoDup (map (λ r, item_id r) (q_rows t'))). by rewrite Hm.
  - specialize (Hm _ (λ c, c.2)). rewrite !map_map in Hm. unfold row_core in Hm.
    simpl in Hm. change (NoDup (map (λ r, item_ingest_seq r) (q_rows t'))). by rewrite Hm.
  - intros r (r0 & Hr0 & E)%Hback. apply Hp in Hr0. apply row_core_fields in E as (E1 & _ & E3 & _ & _ & E6).
    by rewrite ?E1, ?E3, ?E6.
  - intros r r' k (r0 & Hr0 & E)%Hback (r0' & Hr0' & E')%Hback Hk Hk'.
    rewrite (delta_key_core _ _ E) in Hk. rewrite (delta_key_core _ _ E') in Hk'.
    rewrite E, E'. eauto.
Qed.

Lemma mark_result_ok id s reason t t' :
  mark_validation_result id s reason t = Ok t' →
  map row_core (q_rows t') = map row_core (q_rows t) ∧ (table_ok t → table_ok t').
Proof.
  unfold mark_validation_result. intros H. rinv. simpl.
  assert (map row_core (map (mark_row id s reason) (q_rows t)) = map row_core (q_rows t)) as E.
  { rewrite map_map. apply map_ext. intros. apply mark_row_core. }
  split; [done|]. intros Ht. by apply (table_ok_core t).
Qed.

Section insert_lemmas.
Context {J : Jsonb}.

Lemma proposed_row_ok t e now r :
  proposed_row t e now = Ok r →
  ∃ p, jsonb (env_payload e) = Some p ∧ phas "submitted_at" p = false ∧
  phas "ingest_seq" p = false ∧
  r = mkItem (q_next_id t) (env_payload_type e) p (env_submitted_by e) now (q_next_seq t)
        CandPending None.
Proof.
  unfold proposed_row. intros H. destruct (jsonb _) as [p|]; [|done]. rinv. to_prop.
  exists p. by split_and!.
Qed.

Lemma proposed_delta t e now r :
  proposed_row t e now = Ok r →
  delta_key r = match pget "delta_id" (env_payload e) with
              | Some (PStr s) => if bool_decide (env_payload_type e = Ex3) && negb (is_empty s)
                  then Some (env_submitted_by e, s) else None
              | _ => None
              end.
Proof.
  intros (p & Hj & _ & _ & ->)%proposed_row_ok. unfold delta_key; simpl.
  pose proof (λ s, jsonb_strings _ _ "delta_id" s Hj) as Hs. simpl in Hs.
  destruct (pget "delta_id" p) as [[]|] eqn:Ep;
  destruct (pget "delta_id" (env_payload e)) as [[]|] eqn:Ee;
  try (by specialize (Hs s); destruct Hs as [H1 H2];
    first [specialize (H1 eq_refl) | specialize (H2 eq_refl)]);
  try (by destruct (env_payload_type e)).
  assert (s0 = s) as -> by (destruct (Hs s) as [H1 _]; specialize (H1 eq_refl); congruence).
  destruct (env_payload_type e); simpl; try done. by destruct (is_empty s).
Qed.

Lemma draw_ok t r e now :
  table_ok t → proposed_row t e now = Ok r → conflicts t r = false → table_ok (draw t [r]).
Proof.
  intros [[Hn1 Hn2] Hi Hs Hui Hus Hp Hd] (p & _ & Hp1 & Hp2 & Hr)%proposed_row_ok Hc.
  assert (∀ r' k, r' ∈ q_rows t → delta_key r = Some k → delta_key r' = Some k → False) as Hfresh.
  { intros r' k Hr' Hk Hk'. apply not_true_iff_false in Hc. apply Hc. apply conflicts_true. eauto. }
  split; simpl; [lia| | | | | |].
  - intros r0 [H|H%list_elem_of_singleton]%elem_of_app; [apply Hi in H; lia|]. subst; simpl; lia.
  - intros r0 [H|H%list_elem_of_singleton]%elem_of_app; [apply Hs in H; lia|]. subst; simpl; lia.
  - rewrite map_app. apply NoDup_app. split_and!; [done| |apply NoDup_singleton].
  intros x (r0 & -> & H)%list_elem_of_fmap Hx%list_elem_of_singleton. apply Hi in H.
  subst r; simpl in *. lia.
  - rewrite map_app. apply NoDup_app. split_and!; [done| |apply NoDup_singleton].
  intros x (r0 & -> & H)%list_elem_of_fmap Hx%list_elem_of_singleton. apply Hs in H.
  subst r; simpl in *. lia.
  - intros r0 [H|H%list_elem_of_singleton]%elem_of_app; [by apply Hp|]. by subst.
  - intros r1 r2 k [H1|H1%list_elem_of_singleton]%elem_of_app
    [H2|H2%list_elem_of_singleton]%elem_of_app Hk1 Hk2;
    [by eapply Hd| | |by rewrite H1, H2].
  + exfalso. subst r2. by eapply Hfresh.
  + exfalso. subst r1. by eapply Hfresh.
Qed.

Lemma draw_nil_ok t : table_ok t → table_ok (draw t []).
Proof.
  intros [Hn Hi Hs Hui Hus Hp Hd]. split; simpl; rewrite ?app_nil_r; try done; try lia.
  - intros r Hr. apply Hi in Hr. lia.
  - intros r Hr. apply Hs in Hr. lia.
Qed.

Lemma rows_extend_draw t new : rows_extend t (draw t new).
Proof. exists (map row_core new). simpl. by rewrite map_app. Qed.
End insert_lemmas.
End QueueRepository.

Module QueueWorker.
Import QueueModel QueueValidation QueueRepository.

Record QueueValidationSummary := mkSummary {
  scanned : Z;
  accepted : Z;
  rejected : Z;
  duration_ms : Z;
  rejection_counts : pydict Z;
  rejections_by_reason_type : pydict Z;
}.

(** [_format_rejection_reason], of an exception's class and [str]. *)
Definition format_rejection_reason (class text : string) : string :=
  let reason := if is_empty (strip text) then class else strip text in
  if Z.of_nat (String.length reason) <=? 1000 then reason else String.substring 0 1000 reason.

(** [counter[k] += 1] *)
Definition count_one (k : string) (d : pydict Z) : pydict Z :=
  dset k (default 0 (dget k d) + 1) d.

(** The variables of the loop, and the table as the transaction sees it. *)
Record pass := mkPass {
  pass_table : candidate_table;
  pass_accepted : Z;
  pass_rejected : Z;
  pass_counts : pydict Z;
  pass_types : pydict Z;
}.

Section worker.
Context (validate : CandidateQueueItem → verdict).

Definition validate_one (w : pass) (c : CandidateQueueItem) : result queue_error pass :=
  match validate c with
  | VReject class text =>
    let reason := format_rejection_reason class text in
    let* t := mark_validation_result (item_id c) CandRejected (Some reason) (pass_table w) in
    Ok (mkPass t (pass_accepted w) (pass_rejected w + 1) (count_one reason (pass_counts w))
          (count_one class (pass_types w)))
  | VRaise => Err (ValidatorRaised (item_id c))
  | VAccept =>
    let* t := mark_validation_result (item_id c) CandAccepted None (pass_table w) in
    Ok (mkPass t (pass_accepted w + 1) (pass_rejected w) (pass_counts w) (pass_types w))
  end.

(** One transaction: an error anywhere rolls everything back. *)
Definition validate_pending_candidates (limit : Z) (locked : gset Z) (elapsed_ms : Z)
  (t : candidate_table) : result queue_error (QueueValidationSummary * candidate_table) :=
  raise_if limit <? 1 with LimitNotPositive;
  let* candidates := fetch_pending_for_update limit locked t in
  let* w := rfold validate_one (mkPass t 0 0 [] []) candidates in
  Ok (mkSummary (Z.of_nat (length candidates)) (pass_accepted w) (pass_rejected w) elapsed_ms
      (sort_on fst (pass_counts w)) (sort_on fst (pass_types w)), pass_table w).

(** What the pass promises of each scanned row. *)
Definition settle (r : CandidateQueueItem) : CandidateQueueItem :=
  match validate r with
  | VAccept => mark_row (item_id r) CandAccepted None r
  | VReject class text =>
    mark_row (item_id r) CandRejected (Some (format_rejection_reason class text)) r
  | VRaise => r
  end.

Definition settle_batch (batch rows : list CandidateQueueItem) : list CandidateQueueItem :=
  map (λ r, if bool_decide (item_id r ∈ map item_id batch) then settle r else r) rows.

(** The batch the transaction locks, oldest first. *)
Definition pending_batch (limit : Z) (locked : gset Z) (t : candidate_table)
  : list CandidateQueueItem :=
  take (Z.to_nat limit) (py_sort seq_leb (filter (λ r,
  bool_decide (item_validation_status r = CandPending) &&
  negb (bool_decide (item_id r ∈ locked))) (q_rows t))).

Definition total (d : pydict Z) : Z := foldr (λ kv acc, kv.2 + acc) 0 d.

Lemma total_count_one k d : total (count_one k d) = total d + 1.
Proof.
  unfold count_one. assert (∀ v, total (dset k v d) = total d - default 0 (dget k d) + v) as H.
  { intros v. induction d as [|[k' v'] d IH]; simpl; [lia|].
  destruct (String.eqb k k'); simpl; [lia|]. rewrite IH. lia. }
  rewrite H. lia.
Qed.

#[export] Instance total_proper : Proper ((≡ₚ) ==> (=)) total.
Proof. intros d1 d2 H. unfold total. induction H; simpl; lia. Qed.

Lemma mark_result_step id status reason t t' :
  mark_validation_result id status reason t = Ok t' →
  t' = mkQueue (map (mark_row id status reason) (q_rows t)) (q_next_id t) (q_next_seq t).
Proof. unfold mark_validation_result. intros H. by rinv. Qed.

(** One loop step settles exactly the row of its candidate. *)
Lemma validate_one_rows w c w' :
  validate_one w c = Ok w' → NoDup (map item_id (q_rows (pass_table w))) →
  c ∈ q_rows (pass_table w) →
  q_rows (pass_table w') = settle_batch [c] (q_rows (pass_table w)) ∧
  pass_accepted w' + pass_rejected w' = pass_accepted w + pass_rejected w + 1 ∧
  total (pass_counts w') - pass_rejected w' = total (pass_counts w) - pass_rejected w ∧
  total (pass_types w') - pass_rejected w' = total (pass_types w) - pass_rejected w ∧
  validate c ≠ VRaise.
Proof.
  intros Hv Hnd Hc.
  assert (∀ r, r ∈ q_rows (pass_table w) → item_id r = item_id c → r = c) as Huniq.
  { intros r Hr E. by eapply (NoDup_map_inj item_id). }
  assert (∀ status reason, settle c = mark_row (item_id c) status reason c →
  map (mark_row (item_id c) status reason) (q_rows (pass_table w)) =
  settle_batch [c] (q_rows (pass_table w))) as Hmap.
  { intros status reason Hs. apply map_ext_in. intros r Hr%list_elem_of_In. simpl.
  destruct (decide (item_id r = item_id c)) as [E|E].
  - rewrite bool_decide_eq_true_2 by (rewrite E; apply list_elem_of_here).
    rewrite (Huniq r Hr E) in *. done.
  - rewrite bool_decide_eq_false_2 by (by rewrite list_elem_of_singleton).
    unfold mark_row. by rewrite (proj2 (Z.eqb_neq _ _) E). }
  unfold validate_one in Hv. destruct (validate c) eqn:Ev; [| |done]; rinv;
  apply mark_result_step in Ha as ->; simpl; rewrite ?total_count_one.
  - rewrite Hmap by (unfold settle; by rewrite Ev). split_and!; [done|lia..|done].
  - rewrite Hmap by (unfold settle; by rewrite Ev). split_and!; [done|lia..|done].
Qed.

Lemma settle_id r : item_id (settle r) = item_id r.
Proof. unfold settle, mark_row. by repeat case_match. Qed.

Lemma settle_batch_ids batch rows : map item_id (settle_batch batch rows) = map item_id rows.
Proof.
  unfold settle_batch. rewrite map_map. apply map_ext. intros r.
  case_bool_decide; [apply settle_id|done].
Qed.

Lemma settle_batch_cons c batch rows :
  item_id c ∉ map item_id batch →
  settle_batch batch (settle_batch [c] rows) = settle_batch (c :: batch) rows.
Proof.
  intros Hc. unfold settle_batch. rewrite map_map. apply map_ext. intros r. cbn [map].
  destruct (decide (item_id r = item_id c)) as [E|E].
  - rewrite (bool_decide_eq_true_2 (item_id r ∈ [item_id c])) by (rewrite E; apply list_elem_of_here).
  rewrite settle_id, E, bool_decide_eq_false_2 by done.
  by rewrite bool_decide_eq_true_2 by apply list_elem_of_here.
  - rewrite (bool_decide_eq_false_2 (item_id r ∈ [item_id c])) by (by rewrite list_elem_of_singleton).
  rewrite (bool_decide_ext (item_id r ∈ item_id c :: _) (item_id r ∈ map item_id batch)); [done|].
  rewrite elem_of_cons. naive_solver.
Qed.

Lemma settle_batch_elem batch rows c :
  c ∈ rows → item_id c ∉ map item_id batch → c ∈ settle_batch batch rows.
Proof.
  intros Hc Hn. apply list_elem_of_fmap. exists c. split; [|done].
  by rewrite bool_decide_eq_false_2.
Qed.

(** The whole loop. *)
Lemma validate_batch_rows batch w w' :
  rfold validate_one w batch = Ok w' → NoDup (map item_id (q_rows (pass_table w))) →
  NoDup (map item_id batch) → (∀ c, c ∈ batch → c ∈ q_rows (pass_table w)) →
  q_rows (pass_table w') = settle_batch batch (q_rows (pass_table w)) ∧
  pass_accepted w' + pass_rejected w' =
  pass_accepted w + pass_rejected w + Z.of_nat (length batch) ∧
  total (pass_counts w') - pass_rejected w' = total (pass_counts w) - pass_rejected w ∧
  total (pass_types w') - pass_rejected w' = total (pass_types w) - pass_rejected w ∧
  Forall (λ c, validate c ≠ VRaise) batch.
Proof.
  revert w. induction batch as [|c batch IH]; intros w H Hnd Hb Hin.
  { simpl in H. rinv. split_and!; [|simpl; lia|done|done|constructor].
  unfold settle_batch. symmetry. rewrite <- (map_id (q_rows _)) at 2. by apply map_ext. }
  simpl in H. rinv. apply NoDup_cons in Hb as [Hc Hb].
  destruct (validate_one_rows _ _ _ Ha Hnd) as (Hrows & H1 & H2 & H3 & H4);
  [apply Hin, list_elem_of_here|].
  destruct (IH a H) as (Hrows' & H1' & H2' & H3' & H4').
  - by rewrite Hrows, settle_batch_ids.
  - done.
  - intros c' Hc'. rewrite Hrows. apply settle_batch_elem; [apply Hin; by right|].
  cbn [map]. rewrite list_elem_of_singleton. intros E. apply Hc. rewrite <- E.
  by apply list_elem_of_fmap_2.
  - rewrite Hrows', Hrows, settle_batch_cons by done. cbn [length].
  split_and!; [done|lia..|by constructor].
Qed.
End worker.
End QueueWorker.

(** ** Histories of the queue *)
Module QueueHistory.
Import QueueModel QueueValidation QueueRepository QueueWorker.

Inductive queue_op :=
| OpSubmit (payload : pyval) (now : Z)
| OpSubmitIdempotent (payload : pyval) (now : Z)
| OpValidate (validate : CandidateQueueItem → verdict) (limit : Z) (locked : gset Z) (elapsed : Z).

Section history.
Context {J : Jsonb}.

Definition run_queue_op (op : queue_op) (t : candidate_table) : result queue_error candidate_table :=
  match op with
  | OpSubmit p now => let* '(_, t') := submit_candidate p now t in Ok t'
  | OpSubmitIdempotent p now => let* '(_, t') := submit_candidate_idempotent p now t in Ok t'
  | OpValidate v limit locked ms =>
    let* '(_, t') := validate_pending_candidates v limit locked ms t in Ok t'
  end.

(** A raising operation is rolled back and the next one runs. *)
Definition run_queue_ops (ops : list queue_op) (t : candidate_table) : candidate_table :=
  fold_left (λ t op, match run_queue_op op t with Ok t' => t' | Err _ => t end) ops t.

Lemma fetch_pending_batch limit locked t l :
  fetch_pending_for_update limit locked t = Ok l → l = pending_batch limit locked t ∧ 1 ≤ limit.
Proof. unfold fetch_pending_for_update. intros H. rinv. to_prop. done. Qed.

Lemma pending_batch_elem limit locked t c :
  c ∈ pending_batch limit locked t →
  c ∈ q_rows t ∧ item_validation_status c = CandPending ∧ item_id c ∉ locked.
Proof.
  unfold pending_batch. intros Hc. apply subseteq_take in Hc. rewrite elem_of_py_sort, list_elem_of_filter in Hc.
  destruct Hc as [Hb Hc]. apply Is_true_true in Hb. to_prop. done.
Qed.

Lemma pending_batch_NoDup limit locked t :
  table_ok t → NoDup (map item_id (pending_batch limit locked t)).
Proof.
  intros Ht. eapply NoDup_map_sub; [apply sublist_take|].
  eapply NoDup_map_perm; [apply py_sort_perm|].
  eapply NoDup_map_sub; [apply sublist_filter|apply (ok_unique_id _ Ht)].
Qed.

(** A successful pass, seen from the table. *)
Lemma validate_pass_rows v limit locked ms t s t' :
  table_ok t → validate_pending_candidates v limit locked ms t = Ok (s, t') →
  let batch := pending_batch limit locked t in
  q_rows t' = settle_batch v batch (q_rows t) ∧
  scanned s = Z.of_nat (length batch) ∧ accepted s + rejected s = scanned s ∧
  total (rejection_counts s) = rejected s ∧ total (rejections_by_reason_type s) = rejected s ∧
  Forall (λ c, v c ≠ VRaise) batch.
Proof.
  intros Ht H. unfold validate_pending_candidates in H. rinv.
  apply fetch_pending_batch in Ha0 as [-> _].
  destruct (validate_batch_rows v _ _ _ Ha1 (ok_unique_id _ Ht) (pending_batch_NoDup _ _ _ Ht))
  as (H1 & H2 & H3 & H4 & H5); [intros c Hc; by eapply pending_batch_elem|].
  simpl in *. unfold sort_on. rewrite !(py_sort_perm _ (_ : pydict Z)).
  split_and!; [done|done|lia..|done].
Qed.
Lemma validate_pass_core v limit locked ms t s t' :
  table_ok t → validate_pending_candidates v limit locked ms t = Ok (s, t') →
  table_ok t' ∧ rows_extend t t'.
Proof.
  intros Ht H. pose proof H as H'. unfold validate_pending_candidates in H. rinv.
  assert (∀ w, rfold (validate_one v) (mkPass t 0 0 [] []) a0 = Ok w →
  map row_core (q_rows (pass_table w)) = map row_core (q_rows t) ∧ table_ok (pass_table w)) as Hinv.
  { intros w. apply (rfold_inv (λ w, map row_core (q_rows (pass_table w)) = map row_core (q_rows t)
    ∧ table_ok (pass_table w))); [done|].
  intros b c b' _ [Hb1 Hb2] Hv. unfold validate_one in Hv.
  destruct (v c); [| |done]; rinv; apply mark_result_ok in Ha2 as [E Hok]; simpl;
    (split; [congruence|auto]). }
  apply Hinv in Ha1 as [E Hok]. simpl. split; [done|]. exists []. by rewrite E, app_nil_r.
Qed.

Lemma from_candidate_fields item b r :
  from_candidate item b = Ok r →
  candidate_id r = item_id item ∧ receipt_ingest_seq r = item_ingest_seq item ∧ replayed r = b.
Proof. unfold from_candidate. intros H. by rinv. Qed.

Lemma insert_candidate_ok e now t item t' :
  insert_candidate e now t = Ok (item, t') →
  proposed_row t e now = Ok item ∧ t' = draw t [item] ∧ conflicts t item = false.
Proof.
  unfold insert_candidate, row_to_item. intros H. rinv. done.
Qed.

Lemma insert_idempotent_ok e now t r t' :
  insert_candidate_idempotent e now t = Ok (r, t') →
  ∃ item, from_candidate item (replayed r) = Ok r ∧
  ((replayed r = false ∧ proposed_row t e now = Ok item ∧ t' = draw t [item] ∧ conflicts t item = false) ∨
   (replayed r = true ∧ is_ex3_delta_envelope e = true ∧ t' = draw t [] ∧ item ∈ q_rows t)).
Proof.
  unfold insert_candidate_idempotent. destruct (is_ex3_delta_envelope e) eqn:He; simpl; intros H.
  - rinv. destruct (conflicts t a) eqn:Hc; simpl in H.
  + destruct (fetch_existing _ _ _) as [r0|] eqn:Hf; [|done].
    exists r0. unfold row_to_item in H. rinv. pose proof Ha1 as Hfc.
    unfold from_candidate in Ha1. rinv. simpl.
    split; [done|]. right. split_and!; [done..|].
    unfold fetch_existing in Hf. apply head_Some_elem_of in Hf.
    rewrite elem_of_py_sort, list_elem_of_filter in Hf. by destruct Hf.
  + exists a. unfold row_to_item in H. rinv. pose proof Ha1 as Hfc.
    unfold from_candidate in Ha1. rinv. simpl. split; [done|]. by left.
  - rinv. destruct a as [item t0]. rinv. apply insert_candidate_ok in Ha as (Hp & -> & Hc).
  exists item. pose proof Ha0 as Hfc. unfold from_candidate in Ha0. rinv. simpl.
  split; [done|]. by left.
Qed.

Lemma run_queue_op_ok op t t' :
  table_ok t → run_queue_op op t = Ok t' → table_ok t' ∧ rows_extend t t'.
Proof.
  intros Ht H. destruct op as [p now|p now|v limit locked ms]; simpl in H; rinv.
  - destruct a as [item t0]. unfold submit_candidate in Ha. rinv.
  apply insert_candidate_ok in Ha as (Hp & -> & Hc).
  split; [by eapply draw_ok|apply rows_extend_draw].
  - destruct a as [r t0]. unfold submit_candidate_idempotent in Ha. rinv.
  apply insert_idempotent_ok in Ha as (item & _ & [(_ & Hp & -> & Hc)|(_ & _ & -> & _)]).
  + split; [by eapply draw_ok|apply rows_extend_draw].
  + split; [by apply draw_nil_ok|apply rows_extend_draw].
  - destruct a as [s t0]. rinv. by eapply validate_pass_core.
Qed.

Lemma run_queue_ops_ok ops t :
  table_ok t → table_ok (run_queue_ops ops t) ∧ rows_extend t (run_queue_ops ops t).
Proof.
  revert t. induction ops as [|op ops IH]; intros t Ht; [done|].
  unfold run_queue_ops. simpl. fold (run_queue_ops ops).
  destruct (run_queue_op op t) as [t'|] eqn:E; [|by apply IH].
  destruct (run_queue_op_ok _ _ _ Ht E) as [Ht' Hext]. destruct (IH t' Ht') as [H1 H2].
  split; [done|]. by transitivity t'.
Qed.

(** Rows found by an Ex-3 delta carry its key, and conversely. *)
Lemma fetch_filter_elem (t : candidate_table) by_ s x :
  is_empty s = false →
  x ∈ filter (λ r, String.eqb (item_submitted_by r) by_ && bool_decide (item_payload_type r = Ex3) &&
  match pget "delta_id" (item_payload r) with Some (PStr s') => String.eqb s' s | _ => false end)
  (q_rows t) ↔ x ∈ q_rows t ∧ delta_key x = Some (by_, s).
Proof.
  intros Hs. rewrite list_elem_of_filter, Is_true_true, (and_comm (x ∈ _)).
  apply and_iff_compat_r. unfold delta_key. rewrite !andb_true_iff, bool_decide_eq_true, String.eqb_eq.
  destruct (item_payload_type x); try naive_solver.
  destruct (pget "delta_id" (item_payload x)) as [[]|]; try naive_solver.
  rewrite String.eqb_eq. destruct (is_empty s0) eqn:E; split; try discriminate.
  - intros [_ ->]. congruence.
  - by intros [[-> _] ->].
  - by intros [= <- <-].
Qed.

Lemma fetch_existing_key t by_ s x :
  is_empty s = false → fetch_existing t by_ s = Some x →
  x ∈ q_rows t ∧ delta_key x = Some (by_, s).
Proof.
  intros Hs Hf. unfold fetch_existing in Hf. apply head_Some_elem_of in Hf.
  rewrite elem_of_py_sort in Hf. by apply fetch_filter_elem.
Qed.

(** The row of an Ex-3 delta is found again by its key. *)
Lemma fetch_existing_delta t r by_ s :
  table_ok t → r ∈ q_rows t → delta_key r = Some (by_, s) →
  ∃ r', fetch_existing t by_ s = Some r' ∧ r' ∈ q_rows t ∧ row_core r' = row_core r.
Proof.
  intros Ht Hr Hk.
  assert (is_empty s = false) as Hs.
  { unfold delta_key in Hk. destruct (item_payload_type r); try done.
  destruct (pget "delta_id" (item_payload r)) as [[]|]; try done.
  destruct (is_empty s0) eqn:E; naive_solver. }
  destruct (fetch_existing t by_ s) as [x|] eqn:Hf.
  - exists x. destruct (fetch_existing_key _ _ _ _ Hs Hf) as [Hx Hkx].
  split_and!; [done|done|by eapply (ok_unique_delta _ Ht)].
  - exfalso. pose proof (proj2 (fetch_filter_elem t by_ s r Hs) (conj Hr Hk)) as Hin.
  rewrite <- (elem_of_py_sort seq_leb) in Hin. unfold fetch_existing in Hf.
  destruct (py_sort _ _); [by apply elem_of_nil in Hin|done].
Qed.

Lemma ex3_delta e : is_ex3_delta_envelope e = true →
  ∃ s, pget "delta_id" (env_payload e) = Some (PStr s) ∧ is_empty s = false ∧ env_payload_type e = Ex3.
Proof.
  unfold is_ex3_delta_envelope. intros H. to_prop.
  destruct (pget "delta_id" (env_payload e)) as [[]|]; try done. to_prop. eauto.
Qed.

(** What a successful idempotent submission leaves behind for its key. *)
Lemma insert_idempotent_key e now t r t' :
  table_ok t → is_ex3_delta_envelope e = true → insert_candidate_idempotent e now t = Ok (r, t') →
  ∃ item s, from_candidate item (replayed r) = Ok r ∧ item ∈ q_rows t' ∧
  delta_key item = Some (env_submitted_by e, s) ∧
  pget "delta_id" (env_payload e) = Some (PStr s) ∧
  (∃ r0, proposed_row t e now = Ok r0) ∧ table_ok t'.
Proof.
  intros Ht He H. destruct (ex3_delta e He) as (s & Hs & Hne & Hpt).
  pose proof H as Hrun. unfold insert_candidate_idempotent in Hrun. rewrite He in Hrun. simpl in Hrun.
  rinv. rename Ha into Hprop. pose proof (proposed_delta _ _ _ _ Hprop) as Hdelta.
  rewrite Hs, Hne, Hpt in Hdelta. simpl in Hdelta.
  destruct (conflicts t a) eqn:Hc; simpl in Hrun.
  - rewrite Hs in Hrun. destruct (fetch_existing _ _ _) as [x|] eqn:Hf; [|done].
  destruct (fetch_existing_key _ _ _ _ Hne Hf) as [Hx Hk].
  exists x, s. unfold row_to_item in Hrun. rinv. pose proof Ha0 as Hfc. unfold from_candidate in Ha0. rinv. simpl in *.
  rewrite app_nil_r. split_and!; try done; [by eauto|by apply draw_nil_ok].
  - unfold row_to_item in Hrun. rinv. pose proof Ha0 as Hfc. unfold from_candidate in Ha0.
  rinv. simpl in *. eexists _, s. split_and!; [done| |done|done|by eauto|by eapply draw_ok].
  apply elem_of_app. right. by apply list_elem_of_singleton.
Qed.

(** A key already in the table is replayed. *)
Lemma replay_existing t e s now item t0 now0 r0 :
  table_ok t → item ∈ q_rows t → delta_key item = Some (env_submitted_by e, s) →
  is_ex3_delta_envelope e = true → pget "delta_id" (env_payload e) = Some (PStr s) →
  proposed_row t0 e now0 = Ok r0 →
  ∃ x r2, insert_candidate_idempotent e now t = Ok (r2, draw t []) ∧
  row_core x = row_core item ∧ from_candidate x true = Ok r2.
Proof.
  intros Ht Hin Hk He Hs Hp0. destruct (ex3_delta e He) as (s' & Hs' & Hne & Hpt).
  assert (∃ r1, proposed_row t e now = Ok r1) as [r1 Hp1].
  { unfold proposed_row in *. destruct (jsonb (env_payload e)); [|done].
  destruct (_ || _); simpl in *; [done|eauto]. }
  pose proof (proposed_delta _ _ _ _ Hp1) as Hdelta. rewrite Hs', Hne, Hpt in Hdelta. simpl in Hdelta.
  assert (s' = s) as -> by congruence.
  assert (conflicts t r1 = true) as Hc by (apply conflicts_true; eauto).
  destruct (fetch_existing_delta t item _ _ Ht Hin Hk) as (x & Hf & Hx & Hcore).
  assert (∃ r2, from_candidate x true = Ok r2) as [r2 Hfc].
  { unfold from_candidate. pose proof (ok_ids _ Ht _ Hx). pose proof (ok_seqs _ Ht _ Hx).
  rewrite !(proj2 (Z.ltb_ge _ _)) by lia. simpl. eauto. }
  exists x, r2. unfold insert_candidate_idempotent. rewrite He, Hp1. simpl. rewrite Hc. simpl.
  rewrite Hs, Hf. unfold row_to_item. destruct (ok_payloads _ Ht _ Hx) as [-> ->]. simpl.
  by rewrite Hfc.
Qed.

(** A pass raises only when the validator does. *)
Lemma pass_succeeds v limit locked ms t :
  (∀ r, v r ≠ VRaise) → 1 ≤ limit →
  ∃ s t', validate_pending_candidates v limit locked ms t = Ok (s, t').
Proof.
  intros Hv Hl. unfold validate_pending_candidates, fetch_pending_for_update.
  rewrite (proj2 (Z.ltb_ge _ _) Hl). simpl. set (l := take _ _). clearbody l.
  assert (∀ w, ∃ w', rfold (validate_one v) w l = Ok w') as Hw.
  { induction l as [|c l IH]; intros w; simpl; [eauto|].
  assert (∃ w1, validate_one v w c = Ok w1) as [w1 ->].
  { unfold validate_one. specialize (Hv c). destruct (v c); [| |done]; simpl; eauto. }
  simpl. apply IH. }
  destruct (Hw (mkPass t 0 0 [] [])) as [w ->]. simpl. eauto.
Qed.

(** Splitting off the batch's rows leaves the rest of the sorted pending rows. *)
Lemma filter_not_taken (l : list CandidateQueueItem) n :
  NoDup (map item_id l) →
  filter (λ r, negb (bool_decide (item_id r ∈ map item_id (take n l)))) l = drop n l.
Proof.
  intros Hnd. set (P := λ r : CandidateQueueItem, _).
  transitivity (filter P (take n l ++ drop n l)%list); [by rewrite take_drop|].
  rewrite filter_app. unfold P.
  rewrite (filter_none _ (take n l)), (filter_all _ (drop n l)); [done| |].
  - apply Forall_forall. intros x Hx. apply Is_true_true, negb_true_iff, bool_decide_eq_false.
  intros Hin. rewrite <- (take_drop n l), map_app in Hnd. apply NoDup_app in Hnd as (_ & Hd & _).
  apply (Hd _ Hin). by apply list_elem_of_fmap_2.
  - apply Forall_forall. intros x Hx Hn. apply Is_true_true, negb_true_iff, bool_decide_eq_false in Hn.
  apply Hn. by apply list_elem_of_fmap_2.
Qed.

Lemma settled_row_kept op t t' r :
  table_ok t → run_queue_op op t = Ok t' → r ∈ q_rows t →
  item_validation_status r ≠ CandPending → r ∈ q_rows t'.
Proof.
  intros Ht H Hr Hs. destruct op as [p now|p now|v limit locked ms]; simpl in H; rinv.
  - destruct a as [item t0]. unfold submit_candidate in Ha. rinv.
  apply insert_candidate_ok in Ha as (Hp & -> & Hc). apply elem_of_app. by left.
  - destruct a as [r0 t0]. unfold submit_candidate_idempotent in Ha. rinv.
  apply insert_idempotent_ok in Ha as (item & _ & [(_ & Hp & -> & Hc)|(_ & _ & -> & _)]);
    apply elem_of_app; by left.
  - destruct a as [s t0]. rinv. apply validate_pass_rows in Ha as (-> & _); [|done].
  apply list_elem_of_fmap. exists r. split; [|done]. case_bool_decide as Hin; [|done].
  apply list_elem_of_fmap in Hin as (c & Hid & Hc). apply pending_batch_elem in Hc as (Hc & Hp & _).
  rewrite (NoDup_map_inj item_id (q_rows t) r c) in Hs by (done || apply (ok_unique_id _ Ht)). done.
Qed.

Lemma settled_rows_kept ops t r :
  table_ok t → r ∈ q_rows t → item_validation_status r ≠ CandPending →
  r ∈ q_rows (run_queue_ops ops t).
Proof.
  revert t. induction ops as [|op ops IH]; intros t Ht Hr Hs; [done|].
  unfold run_queue_ops. simpl. fold (run_queue_ops ops).
  destruct (run_queue_op op t) as [t'|] eqn:E; [|by apply IH].
  apply IH; [by eapply run_queue_op_ok|by eapply settled_row_kept|done].
Qed.
End history.

(** C18: submitting is idempotent for Ex-3 deltas: whatever happened on the
    queue since the first submission (other submissions, validation passes),
    submitting the same envelope again returns the first submission's
    candidate and ingest sequence as a replay and adds no row. *)
Theorem resubmit_replays {J : Jsonb} (t : candidate_table) p e now r1 t1 ops now' :
  table_ok t → validate_candidate_envelope p = Ok e → is_ex3_delta_envelope e = true →
  submit_candidate_idempotent p now t = Ok (r1, t1) →
  ∃ r2 t3, submit_candidate_idempotent p now' (run_queue_ops ops t1) = Ok (r2, t3) ∧
    candidate_id r2 = candidate_id r1 ∧ receipt_ingest_seq r2 = receipt_ingest_seq r1 ∧
    replayed r2 = true ∧ q_rows t3 = q_rows (run_queue_ops ops t1).
Proof.
  intros Ht Hv He H. unfold submit_candidate_idempotent in *. rewrite Hv in *. simpl in *.
  destruct (insert_idempotent_key _ _ _ _ _ Ht He H) as (item & s & Hfc & Hin & Hk & Hd & Hj & Ht1).
  destruct (run_queue_ops_ok ops t1 Ht1) as [Ht2 Hext].
  destruct (rows_extend_elem _ _ _ Hext Hin) as (item' & Hin' & Hcore).
  rewrite <- (delta_key_core _ _ Hcore) in Hk.
  destruct Hj as [r0 Hj].
  destruct (replay_existing _ e s now' _ _ _ _ Ht2 Hin' Hk He Hd Hj) as (x & r2 & Hr2 & Hx & Hrec).
  exists r2, (draw (run_queue_ops ops t1) []). rewrite Hr2. split; [done|].
  assert (row_core x = row_core item) as Hxi by congruence. apply row_core_fields in Hxi.
  apply from_candidate_fields in Hfc as (-> & -> & _).
  apply from_candidate_fields in Hrec as (-> & -> & ->). simpl. rewrite app_nil_r.
  destruct Hxi as (? & _ & _ & _ & _ & ?). by split_and!.
Qed.

(** C25: a validation pass settles exactly the oldest [limit] unlocked pending
    rows, each with its validator's verdict, leaves every other row alone,
    and its counters add up: accepted plus rejected is the batch, and both
    rejection tallies sum to the rejected rows. *)
Theorem validation_pass_exact {J : Jsonb} v limit locked ms (t : candidate_table) s t' :
  table_ok t → validate_pending_candidates v limit locked ms t = Ok (s, t') →
  let batch := pending_batch limit locked t in
  q_rows t' = map (λ r, if bool_decide (item_id r ∈ map item_id batch)
                        then settle v r else r) (q_rows t) ∧
  scanned s = Z.of_nat (length batch) ∧ accepted s + rejected s = scanned s ∧
  total (rejection_counts s) = rejected s ∧ total (rejections_by_reason_type s) = rejected s.
Proof.
  intros Ht H. destruct (validate_pass_rows _ _ _ _ _ _ _ Ht H) as (H1 & H2 & H3 & H4 & H5 & _).
  by split_and!.
Qed.

(** [n] passes in a row. *)
Fixpoint passes (v : CandidateQueueItem → verdict) (limit : Z) (n : nat) (t : candidate_table)
    : candidate_table :=
  match n with
  | O => t
  | S n' =>
      match validate_pending_candidates v limit ∅ 0 t with
      | Ok (_, t') => passes v limit n' t'
      | Err _ => t
      end
  end.

Definition pending_rows (t : candidate_table) : list CandidateQueueItem :=
  filter (λ r, bool_decide (item_validation_status r = CandPending)) (q_rows t).

(** A pass without other transactions takes [limit] rows off the pending ones. *)
Lemma pass_pending {J : Jsonb} v limit ms (t : candidate_table) s t' :
  table_ok t → (∀ r, v r ≠ VRaise) → validate_pending_candidates v limit ∅ ms t = Ok (s, t') →
  length (pending_rows t') = (length (pending_rows t) - Z.to_nat limit)%nat.
Proof.
  intros Ht Hv H. destruct (validate_pass_rows _ _ _ _ _ _ _ Ht H) as (Hrows & _).
  assert (pending_batch limit ∅ t = take (Z.to_nat limit) (py_sort seq_leb (pending_rows t))) as Hb.
  { unfold pending_batch, pending_rows. do 2 f_equal. apply list_filter_iff. intros r.
    rewrite (bool_decide_eq_false_2 (item_id r ∈ ∅)) by set_solver. by rewrite andb_true_r. }
  set (sorted := py_sort seq_leb (pending_rows t)) in Hb.
  assert (length (pending_rows t') = length (filter (λ r, negb (bool_decide (item_id r ∈
    map item_id (take (Z.to_nat limit) sorted)))) (pending_rows t))) as ->.
  { unfold pending_rows at 1. rewrite Hrows, Hb. apply length_filter_map. intros r _.
    rewrite !Is_true_true, negb_true_iff, !bool_decide_eq_true, bool_decide_eq_false.
    case_bool_decide as Hin; [|tauto]. split; [|tauto].
    unfold settle, mark_row. rewrite Z.eqb_refl. specialize (Hv r). simpl.
    destruct (v r); [| |done]; by case_bool_decide. }
  assert (NoDup (map item_id sorted)) as Hnd.
  { eapply NoDup_map_perm; [apply py_sort_perm|].
    eapply NoDup_map_sub; [apply sublist_filter|apply (ok_unique_id _ Ht)]. }
  rewrite <- (py_sort_length seq_leb (pending_rows t)). fold sorted.
  rewrite <- length_drop, <- (filter_not_taken sorted _ Hnd).
  apply Permutation_length. assert (sorted ≡ₚ pending_rows t) as Hp by apply py_sort_perm.
  symmetry. by apply filter_Permutation.
Qed.

(** The queue drains: when the validator only accepts or rejects, no row
    is pending after passes enough for the rows that were. *)
Theorem queue_drains {J : Jsonb} v limit n (t : candidate_table) :
  table_ok t → (∀ r, v r ≠ VRaise) → 1 ≤ limit →
  Z.of_nat (length (pending_rows t)) ≤ Z.of_nat n * limit →
  pending_rows (passes v limit n t) = [].
Proof.
  intros Ht Hv Hl. revert t Ht. induction n as [|n IH]; intros t Ht Hn; simpl.
  { destruct (pending_rows t); [done|simpl in Hn; lia]. }
  destruct (pass_succeeds v limit ∅ 0 t Hv Hl) as (s & t' & Hpass). rewrite Hpass.
  apply IH; [by eapply validate_pass_core|].
  rewrite (pass_pending _ _ _ _ _ _ Ht Hv Hpass). lia.
Qed.

(** Submission and validation agree: the default validator accepts every
    row a submission inserted. *)
Theorem submitted_is_accepted {J : Jsonb} p now (t : candidate_table) item t' :
  submit_candidate p now t = Ok (item, t') → envelope_validator item = VAccept.
Proof.
  unfold submit_candidate. intros H. rinv.
  apply insert_candidate_ok in H as (Hp & _ & _).
  apply proposed_row_ok in Hp as (d & Hj & _ & _ & ->).
  apply validate_envelope_ok in Ha as (-> & Hf & Hpt & Hsb & Hne & _ & _).
  destruct (jsonb_is_json _ _ Hj) as [Hk Hjson].
  assert (validate_candidate_envelope (PDict d) =
    Ok (mkEnvelope (env_payload_type a) (env_submitted_by a) d)) as E.
  { apply validate_envelope_ok. simpl. split_and!; try done.
    - intros k Hk'. rewrite (jsonb_keys _ _ k Hj). auto.
    - by apply (jsonb_strings _ _ _ _ Hj).
    - by apply (jsonb_strings _ _ _ _ Hj). }
  unfold envelope_validator. cbn [item_payload]. rewrite E. simpl.
  by rewrite bool_decide_eq_true_2, String.eqb_refl.
Qed.
End QueueHistory.

(** ** Concrete runs *)
Module QueueExamples.
Import QueueModel QueueValidation QueueRepository QueueWorker QueueHistory.

(** A database that gives payloads back as they were written. *)
#[export] Instance plain_jsonb : Jsonb.
Proof.
  refine {| jsonb d := if string_keyed (PDict d) && bool_decide (json_error (PDict d) = None)
                       then Some d else None |}.
  all: intros d d'; intros;
    match goal with H : (if ?b then _ else _) = _ |- _ => destruct b eqn:E; [|done] end;
    injection H as <-; to_prop; by try split.
Defined.

Definition ex_envelope (kind by_ delta : string) : pyval :=
  PDict [(PStr "payload_type", PStr kind); (PStr "submitted_by", PStr by_);
         (PStr "delta_id", PStr delta); (PStr "score", PInt 7)].
Definition ex_empty : candidate_table := mkQueue [] 1 1.
Definition ex_delta : pyval := ex_envelope "Ex-3" "analyst" "d-1".
Definition ex_item : CandidateQueueItem :=
  mkItem 1 Ex3 [(PStr "payload_type", PStr "Ex-3"); (PStr "submitted_by", PStr "analyst");
                (PStr "delta_id", PStr "d-1"); (PStr "score", PInt 7)] "analyst" 100 1 CandPending None.
Definition ex_table : candidate_table := mkQueue [ex_item] 2 2.
Definition ex_receipt : CandidateSubmitReceipt := mkReceipt 1 1 100 CandPending None false.
Definition ex_ops : list queue_op :=
  [OpValidate envelope_validator 10 ∅ 0; OpSubmit (ex_envelope "Ex-1" "bot" "x") 150].

Lemma ex_empty_ok : table_ok ex_empty.
Proof.
  split; simpl; [lia|..]; try (intros r Hr; by apply elem_of_nil in Hr); try constructor.
  intros r r' k Hr. by apply elem_of_nil in Hr.
Qed.

Lemma ex_table_ok : table_ok ex_table.
Proof.
  change ex_table with (draw ex_empty [ex_item]).
  by apply (draw_ok ex_empty ex_item (mkEnvelope Ex3 "analyst" (item_payload ex_item)) 100 ex_empty_ok).
Qed.

Lemma resubmit_replays_witness :
  ∃ r2 t3, submit_candidate_idempotent ex_delta 200 (run_queue_ops ex_ops ex_table) = Ok (r2, t3) ∧
    candidate_id r2 = 1 ∧ receipt_ingest_seq r2 = 1 ∧ replayed r2 = true ∧
    q_rows t3 = q_rows (run_queue_ops ex_ops ex_table).
Proof.
  exact (resubmit_replays ex_empty ex_delta (mkEnvelope Ex3 "analyst" (item_payload ex_item)) 100
    ex_receipt ex_table ex_ops 200 ex_empty_ok eq_refl eq_refl eq_refl).
Defined.

Definition ex_settled : candidate_table :=
  mkQueue [mkItem 1 Ex3 (item_payload ex_item) "analyst" 100 1 CandAccepted None] 2 2.

Lemma validation_pass_exact_witness :
  q_rows ex_settled = map (λ r, if bool_decide (item_id r ∈ map item_id (pending_batch 10 ∅ ex_table))
    then settle envelope_validator r else r) (q_rows ex_table) ∧
  1 = Z.of_nat (length (pending_batch 10 ∅ ex_table)) ∧ 1 + 0 = 1 ∧ total [] = 0 ∧ total [] = 0.
Proof.
  exact (validation_pass_exact envelope_validator 10 ∅ 3 ex_table (mkSummary 1 1 0 3 [] [])
    ex_settled ex_table_ok eq_refl).
Defined.

(** A validator that rejects everything. *)
Definition ex_strict (r : CandidateQueueItem) : verdict := VReject "CandidateValidationError" "no".

Lemma queue_drains_witness : pending_rows (passes ex_strict 1 2 ex_table) = [].
Proof.
  apply (queue_drains ex_strict 1 2 ex_table ex_table_ok); [discriminate|lia|vm_compute; discriminate].
Defined.

Lemma submitted_is_accepted_witness : envelope_validator ex_item = VAccept.
Proof. exact (submitted_is_accepted ex_delta 100 ex_empty ex_item ex_table eq_refl). Defined.
End QueueExamples.
