(* ===== verification/CycleStore.v ===== *)
(** * CycleStore: cycle control rows, candidate freeze and publish manifests

    data-platform's [cycle/models.py], [cycle/repository.py],
    [cycle/manifest.py], [cycle/recommendation_provenance.py] and
    [formal_registry.py] over one database: the cycle metadata table, the
    candidate queue of [CandidateQueue], the selection table and the manifest
    table. Each operation is one transaction: it returns the new database or
    raises and changes nothing. *)
From Stdlib Require Import String Ascii ZArith List Sorting.Sorted.
From stdpp Require Import base gmap strings list relations.
From S2P Require Import Prelude PyLib CandidateQueue.
Import QueueModel QueueRepository QueueHistory.
Local Open Scope string_scope.
Local Open Scope Z_scope.

Module CycleModel.

Inductive CycleStatus :=
| CyPending | CyPhase0 | CyPhase1 | CyPhase2 | CyPhase3 | CyPublished | CyFailed.
#[export] Instance CycleStatus_eq_dec : EqDecision CycleStatus.
Proof. solve_decision. Defined.

Definition cycle_status_text (s : CycleStatus) : string :=
  match s with
  | CyPending => "pending" | CyPhase0 => "phase0" | CyPhase1 => "phase1" | CyPhase2 => "phase2"
  | CyPhase3 => "phase3" | CyPublished => "published" | CyFailed => "failed"
  end.
Definition cycle_status_of (s : string) : option CycleStatus :=
  if String.eqb s "pending" then Some CyPending else if String.eqb s "phase0" then Some CyPhase0
  else if String.eqb s "phase1" then Some CyPhase1 else if String.eqb s "phase2" then Some CyPhase2
  else if String.eqb s "phase3" then Some CyPhase3
  else if String.eqb s "published" then Some CyPublished
  else if String.eqb s "failed" then Some CyFailed else None.

(** Why a formal snapshot manifest is refused, per raise site. *)
Inductive manifest_fault :=
| ManifestEmpty | KeyNotString | KeyWhitespace | KeyNotFormal | KeyEmptyPart | KeyUnknownObject
| SnapshotTableMismatch | SnapshotIdMissing | SnapshotIdNotInteger | SnapshotIdNotPositive
| RequiredKeysMissing (missing : list string)
| ProvenanceTable | ProvenanceMissing | ProvenanceNotMapping | ProvenanceField (name : string)
| ProvenanceCycleId | ProvenanceIdsNotSequence | ProvenanceIdsValue | ProvenanceIdsEmpty
| ProvenanceNotCurrent | ProvenanceLayer | ProvenanceForbiddenKind | ProvenanceKind
| ProvenanceOtherCycle | ProvenanceOtherSnapshot.

Inductive cycle_error :=
| CycleIdFormat | CycleIdDate | CycleIdMismatch
| BadCycleStatus
| NegativeCandidateCount
| CycleAlreadyExists (cycle_id : string)
| CycleNotFound (cycle_id : string)
| CycleAlreadyFrozen (cycle_id : string) (current : CycleStatus)
| InvalidCycleTransition (cycle_id current target : string)
| BadSubmittedByFilter | BadPayloadTypeFilter
| BadCycleLimit
| PublishManifestNotFound
| ManifestAlreadyPublished (cycle_id : string)
| InvalidFormalSnapshotManifest (fault : manifest_fault)
| CycleDatabaseError
| CycleQueueError (e : queue_error).

(** [_cycle_date_from_id] *)
Definition cycle_date_from_id (cycle_id : string) : result cycle_error date :=
  let digits := String.substring 6 8 cycle_id in
  if startswith "CYCLE_" cycle_id && (String.length cycle_id =? 14)%nat && all_chars is_digit digits
  then match parse_yyyymmdd digits with
       | Some d => Ok d
       | None => Err CycleIdDate
       end
  else Err CycleIdFormat.

Definition cycle_id_for_date (d : date) : string := "CYCLE_" ++ date_text d.

Definition validate_cycle_status (s : string) : result cycle_error CycleStatus :=
  match cycle_status_of s with Some st => Ok st | None => Err BadCycleStatus end.

Record CycleMetadata := mkCycle {
  cy_id : string;
  cy_date : date;
  cy_status : CycleStatus;
  cy_cutoff_submitted_at : option Z;
  cy_cutoff_ingest_seq : option Z;
  cy_candidate_count : Z;
  cy_selection_frozen_at : option Z;
  cy_created_at : Z;
  cy_updated_at : Z;
}.

(** [SET status = ..., updated_at = now()] *)
Definition set_status (c : CycleMetadata) (st : CycleStatus) (now : Z) : CycleMetadata :=
  mkCycle (cy_id c) (cy_date c) st (cy_cutoff_submitted_at c) (cy_cutoff_ingest_seq c)
    (cy_candidate_count c) (cy_selection_frozen_at c) (cy_created_at c) now.

(** [_metadata_from_row] and the checks of [CycleMetadata.__post_init__]. *)
Definition metadata_from_row (r : CycleMetadata) : result cycle_error CycleMetadata :=
  let* d := cycle_date_from_id (cy_id r) in
  raise_if negb (bool_decide (d = cy_date r)) with CycleIdMismatch;
  raise_if cy_candidate_count r <? 0 with NegativeCandidateCount;
  Ok r.

(** A row of [cycle_candidate_selection]. *)
Record CycleCandidateSelection := mkSelection {
  sel_cycle : string;
  sel_candidate : Z;
  sel_at : Z;
}.

Record FormalTableSnapshot := mkSnapshotPin { snap_table : string; snap_id : Z }.

Record CyclePublishManifest := mkManifest {
  published_cycle_id : string;
  published_at : Z;
  formal_table_snapshots : gmap string FormalTableSnapshot;
}.

(** The stored manifest: its snapshot payload is [{table: {"snapshot_id": n}}]. *)
Record manifest_row := mkManifestRow {
  mrow_published_at : Z;
  mrow_payload : gmap string Z;
}.

Record cycle_db := mkCycleDb {
  db_cycles : gmap string CycleMetadata;
  db_queue : candidate_table;
  db_selection : list CycleCandidateSelection;
  db_manifests : gmap string manifest_row;
}.

Lemma cycle_id_roundtrip d :
  date_ok d = true → 1000 ≤ year d → cycle_date_from_id (cycle_id_for_date d) = Ok d.
Proof.
  intros Hd Hy. pose proof (parse_date_text d Hd Hy) as Hp.
  assert ((String.length (date_text d) =? 8)%nat && all_chars is_digit (date_text d) = true) as Hl.
  { unfold parse_yyyymmdd in Hp. by destruct (_ && _). }
  apply andb_true_iff in Hl as [Hl Hdig]. apply Nat.eqb_eq in Hl.
  unfold cycle_date_from_id, cycle_id_for_date.
  assert (String.substring 6 8 ("CYCLE_" ++ date_text d) = date_text d) as ->.
  { change (String.substring 0 8 (date_text d) = date_text d). rewrite <- Hl.
    generalize (date_text d). intros s. induction s as [|c s IH]; [done|]. simpl. by rewrite IH. }
  change (String.length ("CYCLE_" ++ date_text d)) with (6 + String.length (date_text d))%nat.
  rewrite Hl, Hdig, Hp. unfold startswith. cbn. by destruct (date_text d).
Qed.
End CycleModel.

Module CycleRepository.
Import CycleModel.

Definition forward_transition (s : CycleStatus) : option CycleStatus :=
  match s with
  | CyPending => Some CyPhase0 | CyPhase0 => Some CyPhase1
  | CyPhase1 => Some CyPhase2 | CyPhase2 => Some CyPhase3 | _ => None
  end.
Definition failed_source (s : CycleStatus) : bool :=
  match s with CyPublished | CyFailed => false | _ => true end.

Definition validate_transition (cycle_id : string) (current target : CycleStatus)
    : result cycle_error () :=
  if bool_decide (target = CyFailed) && failed_source current then Ok ()
  else if bool_decide (forward_transition current = Some target) then Ok ()
  else Err (InvalidCycleTransition cycle_id (cycle_status_text current) (cycle_status_text target)).

Definition transition_target (cycle_id status : string) : result cycle_error CycleStatus :=
  match cycle_status_of status with
  | Some s => Ok s
  | None => Err (InvalidCycleTransition cycle_id "unknown" status)
  end.

Definition with_cycles (db : cycle_db) (m : gmap string CycleMetadata) : cycle_db :=
  mkCycleDb m (db_queue db) (db_selection db) (db_manifests db).

(** The table's CHECK constraint on [cycle_id]. *)
Definition cycle_id_format (cycle_id : string) : bool :=
  startswith "CYCLE_" cycle_id && (String.length cycle_id =? 14)%nat &&
  all_chars is_digit (String.substring 6 8 cycle_id).

(** Every integrity error of the INSERT is reported as an existing cycle. *)
Definition create_cycle (cycle_date : date) (now : Z) (db : cycle_db)
    : result cycle_error (CycleMetadata * cycle_db) :=
  let cycle_id := cycle_id_for_date cycle_date in
  let row := mkCycle cycle_id cycle_date CyPending None None 0 None now now in
  raise_if negb (cycle_id_format cycle_id) with CycleAlreadyExists cycle_id;
  raise_if bool_decide (is_Some (db_cycles db !! cycle_id)) with CycleAlreadyExists cycle_id;
  raise_if existsb (λ kv, bool_decide (cy_date kv.2 = cycle_date)) (map_to_list (db_cycles db))
    with CycleAlreadyExists cycle_id;
  let* c := metadata_from_row row in
  Ok (c, with_cycles db (<[cycle_id := row]> (db_cycles db))).

Definition get_cycle (cycle_id : string) (db : cycle_db) : result cycle_error CycleMetadata :=
  let* _ := cycle_date_from_id cycle_id in
  match db_cycles db !! cycle_id with
  | None => Err (CycleNotFound cycle_id)
  | Some row => metadata_from_row row
  end.

Definition validate_cycle_limit (limit : pyval) : result cycle_error Z :=
  match limit with
  | PInt n => raise_if (n <? 1) || (500 <? n) with BadCycleLimit; Ok n
  | _ => Err BadCycleLimit
  end.

(** [ORDER BY cycle_date DESC, cycle_id DESC] *)
Definition newest_first (a b : CycleMetadata) : bool :=
  if bool_decide (cy_date a = cy_date b) then String.leb (cy_id b) (cy_id a)
  else date_leb (cy_date b) (cy_date a).

Definition list_cycles (limit : pyval) (status : option string) (db : cycle_db)
    : result cycle_error (list CycleMetadata) :=
  let* n := validate_cycle_limit limit in
  let* wanted := match status with
                 | None => Ok None
                 | Some s => let* st := validate_cycle_status s in Ok (Some st)
                 end in
  let rows := filter (λ c, from_option (λ st, bool_decide (cy_status c = st)) true wanted)
    (map snd (map_to_list (db_cycles db))) in
  rmap_list metadata_from_row (take (Z.to_nat n) (py_sort newest_first rows)).

Definition transition_cycle_status (cycle_id status : string) (now : Z) (db : cycle_db)
    : result cycle_error (CycleMetadata * cycle_db) :=
  let* _ := cycle_date_from_id cycle_id in
  let* target := transition_target cycle_id status in
  match db_cycles db !! cycle_id with
  | None => Err (CycleNotFound cycle_id)
  | Some c =>
      let* _ := validate_transition cycle_id (cy_status c) target in
      let row := set_status c target now in
      let* c' := metadata_from_row row in
      Ok (c', with_cycles db (<[cycle_id := row]> (db_cycles db)))
  end.

(** The two optional filters of a freeze. *)
Record freeze_filter := mkFilter {
  filter_submitted_by : option string;
  filter_payload_type : option CandidatePayloadType;
}.

Definition freeze_filter_clause (submitted_by payload_type : option string)
    : result cycle_error freeze_filter :=
  let* by_ := match submitted_by with
              | Some s => raise_if is_empty (strip s) with BadSubmittedByFilter; Ok (Some s)
              | None => Ok None
              end in
  let* pt := match payload_type with
             | Some s => match payload_type_of s with
                         | Some p => Ok (Some p) | None => Err BadPayloadTypeFilter end
             | None => Ok None
             end in
  Ok (mkFilter by_ pt).

(** Rows the freeze may take: accepted, matching the filter, in no selection;
    rows locked by other transactions are skipped. *)
Definition eligible (f : freeze_filter) (sel : list CycleCandidateSelection)
    (r : CandidateQueueItem) : bool :=
  bool_decide (item_validation_status r = CandAccepted) &&
  match filter_submitted_by f with None => true | Some s => String.eqb (item_submitted_by r) s end &&
  match filter_payload_type f with None => true | Some p => bool_decide (item_payload_type r = p) end &&
  negb (bool_decide (item_id r ∈ map sel_candidate sel)).

Definition frozen_rows (f : freeze_filter) (locked : gset Z) (db : cycle_db)
    : list CandidateQueueItem :=
  py_sort seq_leb (filter (λ r,
    eligible f (db_selection db) r && negb (bool_decide (item_id r ∈ locked)))
    (q_rows (db_queue db))).

(** SQL [max]: [NULL] of no rows. *)
Fixpoint sql_max (l : list Z) : option Z :=
  match l with
  | [] => None
  | x :: rest => Some (match sql_max rest with None => x | Some y => Z.max x y end)
  end.

Definition freeze_selection (cycle_id : string) (submitted_by payload_type : option string)
    (locked : gset Z) (now : Z) (db : cycle_db) : result cycle_error (CycleMetadata * cycle_db) :=
  let* _ := cycle_date_from_id cycle_id in
  let* f := freeze_filter_clause submitted_by payload_type in
  match db_cycles db !! cycle_id with
  | None => Err (CycleNotFound cycle_id)
  | Some c =>
      raise_if negb (bool_decide (cy_status c = CyPending)) || bool_decide (cy_selection_frozen_at c ≠ None)
        with CycleAlreadyFrozen cycle_id (cy_status c);
      let inserted := frozen_rows f locked db in
      let candidate_count := Z.of_nat (length inserted) in
      raise_if 2 ^ 31 <=? candidate_count with CycleDatabaseError;
      let row := mkCycle (cy_id c) (cy_date c) CyPhase0 (sql_max (map item_submitted_at inserted))
        (sql_max (map item_ingest_seq inserted)) candidate_count (Some now) (cy_created_at c) now in
      let* c' := metadata_from_row row in
      Ok (c', mkCycleDb (<[cycle_id := row]> (db_cycles db)) (db_queue db)
                (db_selection db ++ map (λ r, mkSelection cycle_id (item_id r) now) inserted)%list
                (db_manifests db))
  end.

(** [freeze_cycle_candidates] *)
Definition freeze_cycle_candidates (cycle_id : string) (submitted_by payload_type : option string)
    (locked : gset Z) (now : Z) (db : cycle_db) : result cycle_error (CycleMetadata * cycle_db) :=
  let* _ := cycle_date_from_id cycle_id in
  freeze_selection cycle_id submitted_by payload_type locked now db.
End CycleRepository.

Module CycleManifest.
Import CycleModel CycleRepository.

Definition fallback_formal_object_names : list string :=
  ["world_state_snapshot"; "official_alpha_pool"; "alpha_result_snapshot";
   "recommendation_snapshot"; "dashboard_snapshot"; "report"; "audit_record"; "replay_record"].
Definition required_formal_object_names : list string :=
  ["world_state_snapshot"; "official_alpha_pool"; "alpha_result_snapshot"; "recommendation_snapshot"].
Definition formal_recommendation_snapshot : string := "formal.recommendation_snapshot".

(** A value of the mapping a caller passes: a [FormalTableSnapshot], or the
    integer or mapping it can be built from. *)
Inductive snapshot_value :=
| RawSnapshot (v : pyval)
| SnapshotObject (s : FormalTableSnapshot).

Definition bad_manifest {A} (f : manifest_fault) : result cycle_error A :=
  Err (InvalidFormalSnapshotManifest f).

(** [validate_snapshot_id] *)
Definition validate_snapshot_id (v : pyval) : result cycle_error Z :=
  match v with
  | PInt n => raise_if n <? 1 with InvalidFormalSnapshotManifest SnapshotIdNotPositive; Ok n
  | _ => bad_manifest SnapshotIdNotInteger
  end.

Record RecommendationSnapshotProvenance := mkProvenance {
  prov_cycle_id : string;
  prov_current_cycle_id : string;
  prov_source_layer : string;
  prov_source_kind : string;
  prov_snapshot_id : Z;
  prov_audit_record_ids : list string;
  prov_replay_record_ids : list string;
}.

Inductive provenance_input :=
| NoProvenance
| ProvenanceObject (p : RecommendationSnapshotProvenance)
| ProvenanceMapping (d : pdict)
| ProvenanceOther.

Section manifests.
(** [contracts.schemas.formal_objects.FORMAL_OBJECT_NAMES], empty when the
package is not installed; and [str] of values that are not strings. *)
Context (contract_names : list string) (str_of : pyval → string).

Definition formal_object_names : list string :=
  match contract_names with [] => fallback_formal_object_names | _ => contract_names end.

Definition validate_formal_object_name (name : string) : bool :=
  negb (is_empty name) && bool_decide (name ∈ formal_object_names).

Definition validate_formal_table_key (table : pyval) : result cycle_error string :=
  match table with
  | PStr s =>
    raise_if negb (String.eqb s (strip s)) with InvalidFormalSnapshotManifest KeyWhitespace;
    raise_if negb (startswith "formal." s) with InvalidFormalSnapshotManifest KeyNotFormal;
    raise_if existsb is_empty (split_char "." s) with InvalidFormalSnapshotManifest KeyEmptyPart;
    raise_if negb (validate_formal_object_name (String.substring 7 (String.length s - 7) s))
      with InvalidFormalSnapshotManifest KeyUnknownObject;
    Ok s
  | _ => bad_manifest KeyNotString
  end.

(** [FormalTableSnapshot(table=..., snapshot_id=...)] *)
Definition make_snapshot (table : string) (id : pyval) : result cycle_error FormalTableSnapshot :=
  let* t := validate_formal_table_key (PStr table) in
  let* n := validate_snapshot_id id in
  Ok (mkSnapshotPin t n).

Definition coerce_snapshot (table : pyval) (value : snapshot_value)
  : result cycle_error FormalTableSnapshot :=
  let* t := validate_formal_table_key table in
  match value with
  | SnapshotObject s =>
    raise_if negb (String.eqb (snap_table s) t)
      with InvalidFormalSnapshotManifest SnapshotTableMismatch;
    Ok s
  | RawSnapshot (PDict d) =>
    match pget "snapshot_id" d with
    | None => bad_manifest SnapshotIdMissing
    | Some v => let* n := validate_snapshot_id v in make_snapshot t (PInt n)
    end
  | RawSnapshot v => let* n := validate_snapshot_id v in make_snapshot t (PInt n)
  end.

Definition require_formal_snapshot_keys (m : gmap string FormalTableSnapshot)
  : result cycle_error () :=
  let missing := sorted_strings (filter (λ k, negb (bool_decide (is_Some (m !! k))))
  (map (String.append "formal.") required_formal_object_names)) in
  match missing with
  | [] => Ok ()
  | _ => bad_manifest (RequiredKeysMissing missing)
  end.

Definition add_snapshot (m : gmap string FormalTableSnapshot) (kv : pyval * snapshot_value)
  : result cycle_error (gmap string FormalTableSnapshot) :=
  let* k := validate_formal_table_key kv.1 in
  let* s := coerce_snapshot kv.1 kv.2 in
  Ok (<[k := s]> m).

Definition normalize_snapshot_manifest (items : list (pyval * snapshot_value))
  : result cycle_error (gmap string FormalTableSnapshot) :=
  match items with
  | [] => bad_manifest ManifestEmpty
  | _ =>
    let* m := rfold add_snapshot ∅ items in
    let* _ := require_formal_snapshot_keys m in
    Ok m
  end.

(** ** Provenance *)
Definition prov_cycle_check (value : string) : result cycle_error string :=
  match cycle_date_from_id value with
  | Ok _ => Ok value
  | Err _ => bad_manifest ProvenanceCycleId
  end.

Definition validate_non_empty_ids (values : list pyval) : result cycle_error (list string) :=
  let* ids := rmap_list (λ v, match v with
  | PStr s => raise_if is_empty (strip s) with InvalidFormalSnapshotManifest ProvenanceIdsValue; Ok s
  | _ => bad_manifest ProvenanceIdsValue
  end) values in
  raise_if match ids with [] => true | _ => false end
  with InvalidFormalSnapshotManifest ProvenanceIdsEmpty;
  Ok ids.

Definition coerce_ids (v : pyval) : result cycle_error (list string) :=
  match v with
  | PList l | PTuple l => validate_non_empty_ids l
  | _ => bad_manifest ProvenanceIdsNotSequence
  end.

Definition forbidden_provenance_kinds : list string :=
  ["fixture"; "historical"; "smoke"; "synthetic"].

(** [RecommendationSnapshotProvenance(...)] *)
Definition make_provenance (cycle_id current_cycle_id layer kind : string) (snapshot_id : pyval)
  (audit replay : list string) : result cycle_error RecommendationSnapshotProvenance :=
  let* c := prov_cycle_check cycle_id in
  let* cc := prov_cycle_check current_cycle_id in
  let* n := validate_snapshot_id snapshot_id in
  let* a := validate_non_empty_ids (map PStr audit) in
  let* r := validate_non_empty_ids (map PStr replay) in
  raise_if negb (String.eqb c cc) with InvalidFormalSnapshotManifest ProvenanceNotCurrent;
  raise_if negb (String.eqb layer "L8") with InvalidFormalSnapshotManifest ProvenanceLayer;
  raise_if bool_decide (kind ∈ forbidden_provenance_kinds)
  with InvalidFormalSnapshotManifest ProvenanceForbiddenKind;
  raise_if negb (String.eqb kind "current-cycle") with InvalidFormalSnapshotManifest ProvenanceKind;
  Ok (mkProvenance c cc layer kind n a r).

Definition py_str (v : pyval) : string := match v with PStr s => s | _ => str_of v end.

Definition prov_field (name : string) (d : pdict) : result cycle_error pyval :=
  match pget name d with Some v => Ok v | None => bad_manifest (ProvenanceField name) end.

Definition coerce_provenance (p : provenance_input)
  : result cycle_error RecommendationSnapshotProvenance :=
  match p with
  | ProvenanceObject o => Ok o
  | ProvenanceMapping d =>
    let* c := prov_field "cycle_id" d in
    let* cc := prov_field "current_cycle_id" d in
    let* layer := prov_field "source_layer" d in
    let* kind := prov_field "source_kind" d in
    let* n := prov_field "recommendation_snapshot_id" d in
    let* a := prov_field "audit_record_ids" d in
    let* audit := coerce_ids a in
    let* r := prov_field "replay_record_ids" d in
    let* replay := coerce_ids r in
    make_provenance (py_str c) (py_str cc) (py_str layer) (py_str kind) n audit replay
  | _ => bad_manifest ProvenanceNotMapping
  end.

Definition preflight_recommendation_snapshot_publish (cycle_id : string) (snap : FormalTableSnapshot)
  (p : provenance_input) : result cycle_error RecommendationSnapshotProvenance :=
  raise_if negb (String.eqb (snap_table snap) formal_recommendation_snapshot)
  with InvalidFormalSnapshotManifest ProvenanceTable;
  match p with
  | NoProvenance => bad_manifest ProvenanceMissing
  | _ =>
    let* proof := coerce_provenance p in
    raise_if negb (String.eqb (prov_cycle_id proof) cycle_id)
      with InvalidFormalSnapshotManifest ProvenanceOtherCycle;
    raise_if negb (prov_snapshot_id proof =? snap_id snap)
      with InvalidFormalSnapshotManifest ProvenanceOtherSnapshot;
    Ok proof
  end.

(** ** The manifest table *)
Definition snapshot_payload (m : gmap string FormalTableSnapshot) : gmap string Z := snap_id <$> m.

(** [CyclePublishManifest(...)]: the constructor normalises once more. *)
Definition make_manifest (cycle_id : string) (at_ : Z) (m : gmap string FormalTableSnapshot)
  : result cycle_error CyclePublishManifest :=
  let* _ := cycle_date_from_id cycle_id in
  let* m' := normalize_snapshot_manifest
  (map (λ kv, (PStr kv.1, SnapshotObject kv.2)) (map_to_list m)) in
  Ok (mkManifest cycle_id at_ m').

Definition manifest_from_row (cycle_id : string) (row : manifest_row)
  : result cycle_error CyclePublishManifest :=
  let* m := normalize_snapshot_manifest
  (map (λ kv, (PStr kv.1, RawSnapshot (PDict [(PStr "snapshot_id", PInt kv.2)])))
    (map_to_list (mrow_payload row))) in
  make_manifest cycle_id (mrow_published_at row) m.

Definition publish_manifest (cycle_id : string) (items : list (pyval * snapshot_value))
  (provenance : provenance_input) (now : Z) (db : cycle_db)
  : result cycle_error (CyclePublishManifest * cycle_db) :=
  let* _ := cycle_date_from_id cycle_id in
  let* snapshots := normalize_snapshot_manifest items in
  let* _ := match snapshots !! formal_recommendation_snapshot with
          | Some snap => preflight_recommendation_snapshot_publish cycle_id snap provenance
          | None => bad_manifest ProvenanceTable
          end in
  match db_cycles db !! cycle_id with
  | None => Err PublishManifestNotFound
  | Some c =>
    raise_if bool_decide (is_Some (db_manifests db !! cycle_id))
      with ManifestAlreadyPublished cycle_id;
    raise_if negb (bool_decide (cy_status c = CyPhase3))
      with InvalidCycleTransition cycle_id (cycle_status_text (cy_status c)) "published";
    let row := mkManifestRow now (snapshot_payload snapshots) in
    let* m := manifest_from_row cycle_id row in
    Ok (m, mkCycleDb (<[cycle_id := set_status c CyPublished now]> (db_cycles db)) (db_queue db) (db_selection db)
             (<[cycle_id := row]> (db_manifests db)))
  end.

Definition get_publish_manifest (cycle_id : string) (db : cycle_db)
  : result cycle_error CyclePublishManifest :=
  let* _ := cycle_date_from_id cycle_id in
  match db_manifests db !! cycle_id with
  | None => Err PublishManifestNotFound
  | Some row => manifest_from_row cycle_id row
  end.

(** [ORDER BY published_at DESC, published_cycle_id DESC LIMIT 1] *)
Definition latest_row (rows : list (string * manifest_row)) : option (string * manifest_row) :=
  head (py_sort (λ a b,
  if mrow_published_at a.2 =? mrow_published_at b.2 then String.leb b.1 a.1
  else mrow_published_at b.2 <? mrow_published_at a.2) rows).

Definition get_latest_publish_manifest (db : cycle_db) : result cycle_error CyclePublishManifest :=
  match latest_row (map_to_list (db_manifests db)) with
  | None => Err PublishManifestNotFound
  | Some (id, row) => manifest_from_row id row
  end.

Definition get_publish_manifest_for_snapshot (snapshot_id : pyval) (table : pyval) (db : cycle_db)
  : result cycle_error CyclePublishManifest :=
  let* n := validate_snapshot_id snapshot_id in
  let* t := validate_formal_table_key table in
  match latest_row (filter (λ kv, bool_decide (mrow_payload kv.2 !! t = Some n))
        (map_to_list (db_manifests db))) with
  | None => Err PublishManifestNotFound
  | Some (id, row) => manifest_from_row id row
  end.
End manifests.
End CycleManifest.

(** ** Histories of the database *)
Module CycleHistory.
Import CycleModel CycleRepository CycleManifest.

Inductive db_op :=
| CreateCycle (d : date) (now : Z)
| FreezeCycle (cycle_id : string) (submitted_by payload_type : option string) (locked : gset Z) (now : Z)
| TransitionCycle (cycle_id status : string) (now : Z)
| PublishCycle (cycle_id : string) (items : list (pyval * snapshot_value)) (prov : provenance_input) (now : Z)
| QueueOp (op : queue_op).

Section history.
Context {J : Jsonb} (contract_names : list string) (str_of : pyval → string).

Definition run_db_op (op : db_op) (db : cycle_db) : result cycle_error cycle_db :=
  match op with
  | CreateCycle d now => let* '(_, db') := create_cycle d now db in Ok db'
  | FreezeCycle id by_ pt locked now =>
    let* '(_, db') := freeze_cycle_candidates id by_ pt locked now db in Ok db'
  | TransitionCycle id st now => let* '(_, db') := transition_cycle_status id st now db in Ok db'
  | PublishCycle id items prov now =>
    let* '(_, db') := publish_manifest contract_names str_of id items prov now db in Ok db'
  | QueueOp op =>
    let* q := map_err CycleQueueError (run_queue_op op (db_queue db)) in
    Ok (mkCycleDb (db_cycles db) q (db_selection db) (db_manifests db))
  end.

(** A raising transaction is rolled back and the next one runs. *)
Definition run_db_ops (ops : list db_op) (db : cycle_db) : cycle_db :=
  fold_left (λ db op, match run_db_op op db with Ok db' => db' | Err _ => db end) ops db.
End history.

Definition selected_ids (sel : list CycleCandidateSelection) (id : string) : list Z :=
  map sel_candidate (filter (λ s, sel_cycle s = id) sel).
Definition selected_rows (db : cycle_db) (id : string) : list CandidateQueueItem :=
  filter (λ r, item_id r ∈ selected_ids (db_selection db) id) (q_rows (db_queue db)).

(** What holds of every database the operations build. *)
Record db_ok (db : cycle_db) : Prop := {
  inv_queue : table_ok (db_queue db);
  inv_rows id c : db_cycles db !! id = Some c →
    cy_id c = id ∧ cycle_date_from_id id = Ok (cy_date c);
  inv_published id : is_Some (db_manifests db !! id) ↔
    ∃ c, db_cycles db !! id = Some c ∧ cy_status c = CyPublished;
  inv_pending id c : db_cycles db !! id = Some c → cy_status c = CyPending →
    cy_selection_frozen_at c = None;
  inv_sel_unique : NoDup (map sel_candidate (db_selection db));
  inv_sel_cycle s : s ∈ db_selection db →
    ∃ c, db_cycles db !! sel_cycle s = Some c ∧ cy_selection_frozen_at c ≠ None;
  inv_sel_row s : s ∈ db_selection db →
    ∃ r, r ∈ q_rows (db_queue db) ∧ item_id r = sel_candidate s ∧
      item_validation_status r = CandAccepted;
  inv_counts id c : db_cycles db !! id = Some c →
    cy_candidate_count c = Z.of_nat (length (selected_ids (db_selection db) id));
  inv_cutoff id c : db_cycles db !! id = Some c →
    cy_cutoff_ingest_seq c = sql_max (map item_ingest_seq (selected_rows db id)) ∧
    cy_cutoff_submitted_at c = sql_max (map item_submitted_at (selected_rows db id));
}.

Definition empty_db : cycle_db := mkCycleDb ∅ (mkQueue [] 1 1) [] ∅.

Lemma metadata_from_row_ok r c : metadata_from_row r = Ok c ↔
  c = r ∧ cycle_date_from_id (cy_id r) = Ok (cy_date r) ∧ 0 ≤ cy_candidate_count r.
Proof.
  unfold metadata_from_row. split.
  - intros H. rinv. to_prop. by subst.
  - intros (-> & -> & H). simpl. rewrite bool_decide_eq_true_2 by done. simpl.
    by rewrite (proj2 (Z.ltb_ge _ _) H).
Qed.

#[export] Instance sql_max_proper : Proper ((≡ₚ) ==> (=)) sql_max.
Proof.
  intros l1 l2 H. induction H; simpl; [done|by rewrite IHPermutation| |congruence].
  destruct (sql_max l); f_equal; lia.
Qed.

Lemma selected_ids_app sel1 sel2 id :
  selected_ids (sel1 ++ sel2)%list id = (selected_ids sel1 id ++ selected_ids sel2 id)%list.
Proof. unfold selected_ids. by rewrite filter_app, map_app. Qed.

(** No row of a cycle is selected before its freeze. *)
Lemma unfrozen_unselected db id :
  db_ok db → (∀ c, db_cycles db !! id = Some c → cy_selection_frozen_at c = None) →
  selected_ids (db_selection db) id = [].
Proof.
  intros Hdb Hc. unfold selected_ids. rewrite filter_none; [done|].
  apply Forall_forall. intros s Hs <-. destruct (inv_sel_cycle _ Hdb s Hs) as (c & Hl & Hf). eauto.
Qed.

Lemma unselected_rows db id :
  selected_ids (db_selection db) id = [] → selected_rows db id = [].
Proof.
  intros H. unfold selected_rows. apply filter_none. rewrite H. apply Forall_forall.
  intros r _. apply not_elem_of_nil.
Qed.

(** Changing a row's status, and the manifests accordingly. *)
Lemma db_ok_set_status db id c st now man :
  db_ok db → db_cycles db !! id = Some c → st ≠ CyPending →
  (∀ id', is_Some (man !! id') ↔ if decide (id' = id) then st = CyPublished
                               else is_Some (db_manifests db !! id')) →
  db_ok (mkCycleDb (<[id := set_status c st now]> (db_cycles db)) (db_queue db) (db_selection db) man).
Proof.
  intros [Hq Hr Hp Hpe Hsu Hsc Hsr Hc Hcut] Hl Hst Hman.
  split; simpl; try done.
  - intros id' c'. rewrite lookup_insert_Some. intros [[<- <-]|[? H]]; [|eauto]. simpl. by apply Hr.
  - intros id'. rewrite Hman. destruct (decide (id' = id)) as [->|Hne].
    + rewrite lookup_insert_eq. split; [by eauto|]. intros (c' & [= <-] & H). done.
    + rewrite lookup_insert_ne by done. apply Hp.
  - intros id' c'. rewrite lookup_insert_Some. intros [[<- <-]|[? H]]; [done|eauto].
  - intros s Hs. destruct (Hsc s Hs) as (c' & Hl' & Hf).
    destruct (decide (sel_cycle s = id)) as [E|Hne].
    + rewrite E in *. exists (set_status c st now). rewrite lookup_insert_eq. split; [done|]. simpl. congruence.
    + exists c'. by rewrite lookup_insert_ne.
  - intros id' c'. rewrite lookup_insert_Some. intros [[<- <-]|[? H]]; [by apply (Hc id c)|eauto].
  - intros id' c'. rewrite lookup_insert_Some.
    intros [[<- <-]|[? H]]; [by apply (Hcut id c)|by apply (Hcut id' c')].
Qed.

Lemma create_cycle_ok d now db c db' :
  db_ok db → create_cycle d now db = Ok (c, db') →
  db_ok db' ∧ db_cycles db !! cycle_id_for_date d = None ∧
  db' = with_cycles db (<[cycle_id_for_date d := c]> (db_cycles db)) ∧
  c = mkCycle (cycle_id_for_date d) d CyPending None None 0 None now now.
Proof.
  intros Hdb H. unfold create_cycle in H. rinv. to_prop.
  apply metadata_from_row_ok in Ha2 as (-> & Hdate & _).
  assert (db_cycles db !! cycle_id_for_date d = None) as Hnone by (by apply eq_None_not_Some).
  split; [|done].
  assert (selected_ids (db_selection db) (cycle_id_for_date d) = []) as Hsel
    by (apply unfrozen_unselected; [done|congruence]).
  pose proof (unselected_rows _ _ Hsel) as Hrows. unfold selected_rows in Hrows.
  destruct Hdb as [Hq Hr Hp Hpe Hsu Hsc Hsr Hc Hcut].
  split; simpl; try done.
  - intros id' c'. rewrite lookup_insert_Some. intros [[<- <-]|[? H]]; [|eauto]. simpl.
    done.
  - intros id'. rewrite Hp. destruct (decide (id' = cycle_id_for_date d)) as [->|Hne].
    + rewrite lookup_insert_eq, Hnone. naive_solver.
    + by rewrite lookup_insert_ne.
  - intros id' c'. rewrite lookup_insert_Some. intros [[<- <-]|[? H]]; [done|eauto].
  - intros s Hs. destruct (Hsc s Hs) as (c' & Hl' & Hf). exists c'.
    rewrite lookup_insert_ne; [done|congruence].
  - intros id' c'. rewrite lookup_insert_Some. intros [[<- <-]|[? H]]; [|eauto]. by rewrite Hsel.
  - intros id' c'. rewrite lookup_insert_Some. intros [[<- <-]|[? H]]; [|by apply (Hcut id' c')].
    unfold selected_rows; simpl. by rewrite Hrows.
Qed.
Lemma transition_ok id st now db c' db' :
  transition_cycle_status id st now db = Ok (c', db') →
  ∃ c target, db_cycles db !! id = Some c ∧ c' = set_status c target now ∧
    db' = with_cycles db (<[id := c']> (db_cycles db)) ∧
    ((target = CyFailed ∧ failed_source (cy_status c) = true) ∨
     forward_transition (cy_status c) = Some target).
Proof.
  unfold transition_cycle_status. intros H. rinv.
  destruct (db_cycles db !! id) as [c|] eqn:Hl; [|done]. rinv.
  apply metadata_from_row_ok in Ha2 as (-> & _). exists c, a0. split_and!; [done..|].
  unfold validate_transition in Ha1. destruct (bool_decide (a0 = CyFailed) && _) eqn:E.
  - to_prop. by left.
  - case_bool_decide; [by right|done].
Qed.

Lemma transition_db_ok id st now db c' db' :
  db_ok db → transition_cycle_status id st now db = Ok (c', db') → db_ok db'.
Proof.
  intros Hdb (c & target & Hl & -> & -> & Ht)%transition_ok.
  assert (target ≠ CyPending ∧ target ≠ CyPublished ∧ cy_status c ≠ CyPublished) as (H1 & H2 & H3).
  { destruct (cy_status c); simpl in Ht; naive_solver. }
  apply (db_ok_set_status db id c target now (db_manifests db) Hdb Hl H1).
  intros id'. destruct (decide (id' = id)) as [->|]; [|done].
  rewrite (inv_published _ Hdb). naive_solver.
Qed.

Lemma publish_ok names str_of id items prov now db m db' :
  publish_manifest names str_of id items prov now db = Ok (m, db') →
  ∃ c snaps snap, db_cycles db !! id = Some c ∧ cy_status c = CyPhase3 ∧
    db_manifests db !! id = None ∧
    normalize_snapshot_manifest names items = Ok snaps ∧
    snaps !! formal_recommendation_snapshot = Some snap ∧
    is_ok (preflight_recommendation_snapshot_publish str_of id snap prov) = true ∧
    manifest_from_row names id (mkManifestRow now (snapshot_payload snaps)) = Ok m ∧
    db' = mkCycleDb (<[id := set_status c CyPublished now]> (db_cycles db)) (db_queue db)
      (db_selection db) (<[id := mkManifestRow now (snapshot_payload snaps)]> (db_manifests db)).
Proof.
  unfold publish_manifest. intros H. rinv. destruct (a0 !! _) as [snap|] eqn:Hsnap; [|done].
  destruct (db_cycles db !! id) as [c|] eqn:Hl; [|done]. rinv. to_prop.
  exists c, a0, snap. split_and!; try done.
  - by apply eq_None_not_Some.
  - by rewrite Ha1.
Qed.

Lemma publish_db_ok names str_of id items prov now db m db' :
  db_ok db → publish_manifest names str_of id items prov now db = Ok (m, db') → db_ok db'.
Proof.
  intros Hdb (c & snaps & snap & Hl & Hst & Hm & _ & _ & _ & _ & ->)%publish_ok.
  apply (db_ok_set_status db id c CyPublished now _ Hdb Hl); [done|].
  intros id'. destruct (decide (id' = id)) as [->|Hne].
  - by rewrite lookup_insert_eq.
  - by rewrite lookup_insert_ne.
Qed.

(** ** The queue under the selection *)

(** What a selection reads of the queue depends on the rows' core columns. *)
Lemma selected_core {B} (f : Z → Z → B) (ids : list Z) (rows : list CandidateQueueItem) :
  map (λ r, f (item_ingest_seq r) (item_submitted_at r)) (filter (λ r, item_id r ∈ ids) rows) =
  map (λ c, f c.2 c.1.2) (filter (λ c, c.1.1.1.1.1 ∈ ids) (map row_core rows)).
Proof.
  induction rows as [|r rows IH]; [done|]. cbn [map]. rewrite !filter_cons.
  change ((row_core r).1.1.1.1.1) with (item_id r).
  destruct (decide (item_id r ∈ ids)); [|done]. cbn [map]. by rewrite IH.
Qed.

Lemma selected_extend {B} (f : Z → Z → B) (ids : list Z) t t' :
  table_ok t' → rows_extend t t' → (∀ i, i ∈ ids → ∃ r, r ∈ q_rows t ∧ item_id r = i) →
  map (λ r, f (item_ingest_seq r) (item_submitted_at r)) (filter (λ r, item_id r ∈ ids) (q_rows t')) =
  map (λ r, f (item_ingest_seq r) (item_submitted_at r)) (filter (λ r, item_id r ∈ ids) (q_rows t)).
Proof.
  intros Ht' [new Hext] Hids. rewrite !selected_core, Hext, filter_app.
  rewrite (filter_none _ new); [by rewrite app_nil_r|].
  apply Forall_forall. intros c Hc Hin. destruct (Hids _ Hin) as (r & Hr & E).
  assert (map (λ c : Z * CandidatePayloadType * pdict * string * Z * Z, c.1.1.1.1.1) (map row_core (q_rows t'))
    = map item_id (q_rows t')) as Hm by (rewrite map_map; by apply map_ext).
  pose proof (ok_unique_id _ Ht') as Hnd. rewrite <- Hm, Hext, map_app in Hnd.
  apply NoDup_app in Hnd as (_ & Hd & _). apply (Hd c.1.1.1.1.1).
  - rewrite <- E. rewrite map_map. by apply (list_elem_of_fmap_2 (λ r, item_id r)).
  - by apply (list_elem_of_fmap_2 (λ c : Z * CandidatePayloadType * pdict * string * Z * Z, c.1.1.1.1.1)).
Qed.

Lemma elem_of_selected_ids sel id i :
  i ∈ selected_ids sel id ↔ ∃ s, s ∈ sel ∧ sel_cycle s = id ∧ sel_candidate s = i.
Proof.
  unfold selected_ids. rewrite list_elem_of_fmap. setoid_rewrite list_elem_of_filter. naive_solver.
Qed.

Lemma queue_op_db_ok {J : Jsonb} op db q :
  db_ok db → run_queue_op op (db_queue db) = Ok q →
  db_ok (mkCycleDb (db_cycles db) q (db_selection db) (db_manifests db)).
Proof.
  intros Hdb H. pose proof Hdb as [Hq Hr Hp Hpe Hsu Hsc Hsr Hc Hcut].
  destruct (run_queue_op_ok _ _ _ Hq H) as [Hq' Hext].
  split; simpl; try done.
  - intros s Hs. destruct (Hsr s Hs) as (r & Hr' & E & Hacc). exists r. split; [|done].
    eapply settled_row_kept; [exact Hq|exact H|done|]. by rewrite Hacc.
  - intros id c Hl. destruct (Hcut id c Hl) as [-> ->]. unfold selected_rows. simpl.
    assert (∀ i, i ∈ selected_ids (db_selection db) id → ∃ r, r ∈ q_rows (db_queue db) ∧ item_id r = i) as Hids.
    { intros i (s & Hs & _ & <-)%elem_of_selected_ids. destruct (Hsr s Hs) as (r & ? & ? & _). eauto. }
    split; f_equal; symmetry.
    + by apply (selected_extend (λ a _, a)).
    + by apply (selected_extend (λ _ b, b)).
Qed.
(** ** Freezing *)

(** The row and selection entries a freeze writes. *)
Definition frozen_cycle (c : CycleMetadata) (inserted : list CandidateQueueItem) (now : Z)
    : CycleMetadata :=
  mkCycle (cy_id c) (cy_date c) CyPhase0 (sql_max (map item_submitted_at inserted))
    (sql_max (map item_ingest_seq inserted)) (Z.of_nat (length inserted)) (Some now)
    (cy_created_at c) now.
Definition selection_of (id : string) (inserted : list CandidateQueueItem) (now : Z)
    : list CycleCandidateSelection := map (λ r, mkSelection id (item_id r) now) inserted.

Lemma freeze_ok id by_ pt locked now db c' db' :
  freeze_selection id by_ pt locked now db = Ok (c', db') →
  ∃ c f, db_cycles db !! id = Some c ∧ cy_status c = CyPending ∧ cy_selection_frozen_at c = None ∧
    freeze_filter_clause by_ pt = Ok f ∧
    c' = frozen_cycle c (frozen_rows f locked db) now ∧
    db' = mkCycleDb (<[id := c']> (db_cycles db)) (db_queue db)
      (db_selection db ++ selection_of id (frozen_rows f locked db) now)%list (db_manifests db).
Proof.
  unfold freeze_selection. intros H. rinv.
  destruct (db_cycles db !! id) as [c|] eqn:Hl; [|done]. rinv. to_prop.
  apply metadata_from_row_ok in Ha3 as (-> & _). apply dec_stable in H0.
  exists c, a0. by split_and!.
Qed.

Lemma frozen_rows_elem f locked db r :
  r ∈ frozen_rows f locked db ↔
  r ∈ q_rows (db_queue db) ∧ eligible f (db_selection db) r = true ∧ item_id r ∉ locked.
Proof.
  unfold frozen_rows. rewrite elem_of_py_sort, list_elem_of_filter, Is_true_true, andb_true_iff,
    negb_true_iff, bool_decide_eq_false. tauto.
Qed.

Lemma eligible_unselected f sel r :
  eligible f sel r = true → item_validation_status r = CandAccepted ∧ item_id r ∉ map sel_candidate sel.
Proof. unfold eligible. intros H. by to_prop. Qed.

Lemma frozen_rows_NoDup f locked db :
  db_ok db → NoDup (map item_id (frozen_rows f locked db)).
Proof.
  intros Hdb. eapply NoDup_map_perm; [apply py_sort_perm|].
  eapply NoDup_map_sub; [apply sublist_filter|apply (ok_unique_id _ (inv_queue _ Hdb))].
Qed.

Lemma selection_of_ids id inserted now :
  selected_ids (selection_of id inserted now) id = map item_id inserted.
Proof.
  unfold selected_ids, selection_of. rewrite filter_all.
  - rewrite map_map. done.
  - apply Forall_forall. intros s (r & -> & _)%list_elem_of_fmap. done.
Qed.

Lemma selection_of_other id id' inserted now :
  id' ≠ id → selected_ids (selection_of id inserted now) id' = [].
Proof.
  intros Hne. unfold selected_ids, selection_of. rewrite filter_none; [done|].
  apply Forall_forall. intros s (r & -> & _)%list_elem_of_fmap. simpl. congruence.
Qed.

(** The rows whose ids were inserted are the rows inserted. *)
Lemma selected_rows_frozen f locked db :
  db_ok db →
  filter (λ r, item_id r ∈ map item_id (frozen_rows f locked db)) (q_rows (db_queue db)) ≡ₚ
  frozen_rows f locked db.
Proof.
  intros Hdb. transitivity (filter (λ r, Is_true (eligible f (db_selection db) r &&
    negb (bool_decide (item_id r ∈ locked)))) (q_rows (db_queue db)));
    [|symmetry; apply py_sort_perm].
  apply Permutation_refl', filter_ext_in. intros r Hr. rewrite Is_true_true, andb_true_iff, negb_true_iff, bool_decide_eq_false. split.
  - intros (r' & E & Hr')%list_elem_of_fmap. pose proof Hr' as Hr''.
    apply frozen_rows_elem in Hr' as (Hin & ? & ?).
    by rewrite (NoDup_map_inj item_id (q_rows (db_queue db)) r r')
      by (done || apply (ok_unique_id _ (inv_queue _ Hdb))).
  - intros [? ?]. apply list_elem_of_fmap_2. by apply frozen_rows_elem.
Qed.

Lemma freeze_db_ok id by_ pt locked now db c' db' :
  db_ok db → freeze_selection id by_ pt locked now db = Ok (c', db') → db_ok db'.
Proof.
  intros Hdb (c & f & Hl & Hst & Hfr & Hf & -> & ->)%freeze_ok.
  set (ins := frozen_rows f locked db).
  assert (Hnone : selected_ids (db_selection db) id = []).
  { apply unfrozen_unselected; [done|]. congruence. }
  assert (Hids : ∀ id', id' ≠ id → selected_ids (db_selection db ++ selection_of id ins now)%list id' =
    selected_ids (db_selection db) id').
  { intros id' Hne. by rewrite selected_ids_app, selection_of_other, app_nil_r. }
  assert (Hown : selected_ids (db_selection db ++ selection_of id ins now)%list id = map item_id ins).
  { by rewrite selected_ids_app, Hnone, selection_of_ids. }
  pose proof Hdb as [Hq Hr Hp Hpe Hsu Hsc Hsr Hc Hcut].
  split; simpl; try done.
  - intros id' c'. rewrite lookup_insert_Some. intros [[<- <-]|[? H]]; [by apply (Hr id c)|eauto].
  - intros id'. rewrite Hp. destruct (decide (id' = id)) as [->|Hne].
    + rewrite lookup_insert_eq. split; intros (c' & Hc' & Hs'); [congruence|].
      injection Hc' as <-. discriminate Hs'.
    + by rewrite lookup_insert_ne.
  - intros id' c'. rewrite lookup_insert_Some. intros [[<- <-]|[? H]]; [done|eauto].
  - rewrite map_app. apply NoDup_app. split_and!; [done| |].
    + intros i Hi Hi'. unfold selection_of in Hi'. rewrite map_map in Hi'.
      apply list_elem_of_fmap in Hi' as (r & -> & Hr'). simpl in Hi.
      apply frozen_rows_elem in Hr' as (_ & He & _). by apply eligible_unselected in He as [_ ?].
    + unfold selection_of. rewrite map_map. by apply frozen_rows_NoDup.
  - intros s [Hs|Hs]%elem_of_app.
    + destruct (Hsc s Hs) as (c' & Hl' & Hf'). destruct (decide (sel_cycle s = id)) as [E|Hne].
      * rewrite E in *. congruence.
      * exists c'. by rewrite lookup_insert_ne.
    + apply list_elem_of_fmap in Hs as (r & -> & _). eexists. simpl. by rewrite lookup_insert_eq.
  - intros s [Hs|Hs]%elem_of_app; [by apply Hsr|].
    apply list_elem_of_fmap in Hs as (r & -> & Hr'). apply frozen_rows_elem in Hr' as (? & He & _).
    apply eligible_unselected in He as [? _]. by exists r.
  - intros id' c'. rewrite lookup_insert_Some. intros [[<- <-]|[Hne H]]; simpl.
    + by rewrite Hown, length_map.
    + rewrite Hids by done. eauto.
  - intros id' c'. unfold selected_rows. simpl. rewrite lookup_insert_Some.
    intros [[<- <-]|[Hne H]]; simpl.
    + rewrite Hown. pose proof (selected_rows_frozen f locked db Hdb) as Hperm.
      split; symmetry; apply sql_max_proper, Permutation_map, Hperm.
    + rewrite Hids by done. by apply (Hcut id' c').
Qed.

Section invariant.
Context {J : Jsonb} (contract_names : list string) (str_of : pyval → string).

Lemma run_db_op_ok op db db' :
  db_ok db → run_db_op contract_names str_of op db = Ok db' → db_ok db'.
Proof.
  intros Hdb H. destruct op; simpl in H; rinv.
  - destruct a as [c db0]. rinv. by eapply create_cycle_ok.
  - destruct a as [c db0]. rinv. unfold freeze_cycle_candidates in Ha. rinv. by eapply freeze_db_ok.
  - destruct a as [c db0]. rinv. by eapply transition_db_ok.
  - destruct a as [c db0]. rinv. by eapply publish_db_ok.
  - by apply (queue_op_db_ok op).
Qed.

Lemma run_db_ops_ok ops db :
  db_ok db → db_ok (run_db_ops contract_names str_of ops db).
Proof.
  revert db. induction ops as [|op ops IH]; intros db Hdb; [done|].
  unfold run_db_ops. simpl. fold (run_db_ops contract_names str_of ops).
  destruct (run_db_op contract_names str_of op db) as [db'|] eqn:E; [|by apply IH].
  apply IH. by eapply run_db_op_ok.
Qed.

Lemma empty_db_ok : db_ok empty_db.
Proof.
  split; simpl; try (intros *; by rewrite lookup_empty); try constructor; simpl; try lia;
  try (intros * H; by apply elem_of_nil in H); try constructor.
  - rewrite lookup_empty. by intros [? ?].
  - intros (c & H & _). by rewrite lookup_empty in H.
Qed.
End invariant.
End CycleHistory.

(** ** The promised state machine of one cycle *)
Module CycleLifecycle.
Import CycleModel CycleRepository CycleManifest CycleHistory.

Inductive cycle_step : CycleMetadata → CycleMetadata → Prop :=
| cycle_advance c st now :
    forward_transition (cy_status c) = Some st → cycle_step c (set_status c st now)
| cycle_fail c now :
    failed_source (cy_status c) = true → cycle_step c (set_status c CyFailed now)
| cycle_freeze c inserted now :
    cy_status c = CyPending → cy_selection_frozen_at c = None →
    cycle_step c (frozen_cycle c inserted now)
| cycle_publish c now :
    cy_status c = CyPhase3 → cycle_step c (set_status c CyPublished now).

Section lifecycle.
Context {J : Jsonb} (contract_names : list string) (str_of : pyval → string).

Lemma run_db_op_step op db db' id c :
  db_ok db → run_db_op contract_names str_of op db = Ok db' → db_cycles db !! id = Some c →
  (∀ row, db_manifests db !! id = Some row → db_manifests db' !! id = Some row) ∧
  ∃ c', db_cycles db' !! id = Some c' ∧ (c' = c ∨ cycle_step c c').
Proof using All.
  intros Hdb H Hl. destruct op as [d now|cid by_ pt locked now|cid st now|cid items prov now|op];
  simpl in H; rinv.
  - destruct a as [c0 db0]. rinv. apply create_cycle_ok in Ha as (_ & Hnone & -> & _); [|done].
  split; [done|]. exists c. simpl. rewrite lookup_insert_ne by congruence. auto.
  - destruct a as [c0 db0]. rinv. unfold freeze_cycle_candidates in Ha. rinv.
  apply freeze_ok in Ha as (c1 & f & Hl1 & Hst & Hfr & _ & -> & ->). split; [done|]. simpl.
  destruct (decide (id = cid)) as [->|Hne].
  + rewrite lookup_insert_eq. eexists. split; [done|]. right. rewrite Hl1 in Hl.
    injection Hl as ->. by constructor.
  + rewrite lookup_insert_ne by done. eauto.
  - destruct a as [c0 db0]. rinv. apply transition_ok in Ha as (c1 & target & Hl1 & -> & -> & Ht).
  split; [done|]. simpl. destruct (decide (id = cid)) as [->|Hne].
  + rewrite lookup_insert_eq. eexists. split; [done|]. right. rewrite Hl1 in Hl.
    injection Hl as ->. destruct Ht as [[-> ?]|?]; by constructor.
  + rewrite lookup_insert_ne by done. eauto.
  - destruct a as [m db0]. rinv.
  apply publish_ok in Ha as (c1 & snaps & snap & Hl1 & Hst & Hm & _ & _ & _ & _ & ->). simpl.
  split.
  { intros row Hrow. rewrite lookup_insert_ne; [done|congruence]. }
  destruct (decide (id = cid)) as [->|Hne].
  + rewrite lookup_insert_eq. eexists. split; [done|]. right. rewrite Hl1 in Hl.
    injection Hl as ->. by constructor.
  + rewrite lookup_insert_ne by done. eauto.
  - split; [done|]. simpl. eauto.
Qed.

Lemma run_db_ops_steps ops db id c :
  db_ok db → db_cycles db !! id = Some c →
  (∀ row, db_manifests db !! id = Some row →
   db_manifests (run_db_ops contract_names str_of ops db) !! id = Some row) ∧
  ∃ c', db_cycles (run_db_ops contract_names str_of ops db) !! id = Some c' ∧ rtc cycle_step c c'.
Proof using All.
  revert db c. induction ops as [|op ops IH]; intros db c Hdb Hl.
  { split; [done|]. exists c. split; [done|apply rtc_refl]. }
  unfold run_db_ops. simpl. fold (run_db_ops contract_names str_of ops).
  destruct (run_db_op contract_names str_of op db) as [db'|] eqn:E; [|by apply IH].
  destruct (run_db_op_step _ _ _ _ _ Hdb E Hl) as (Hm & c1 & Hl1 & Hc1).
  destruct (IH db' c1 (run_db_op_ok _ _ _ _ _ Hdb E) Hl1) as (Hm' & c' & Hl' & Hsteps).
  split; [eauto|]. exists c'. split; [done|]. destruct Hc1 as [->|Hc1]; [done|]. by eapply rtc_l.
Qed.
End lifecycle.

(** C11: in every database the operations build, in whatever order clients
    call them: a cycle is published exactly when it has a manifest; no
    candidate belongs to two cycles; every selected candidate is an accepted
    queue row; and the candidate count and cutoffs of a cycle describe exactly
    the rows selected for it. *)
Theorem history_invariants {J : Jsonb} names str_of ops :
  let db := run_db_ops names str_of ops empty_db in
  (∀ id, is_Some (db_manifests db !! id) ↔
     ∃ c, db_cycles db !! id = Some c ∧ cy_status c = CyPublished) ∧
  NoDup (map sel_candidate (db_selection db)) ∧
  (∀ s, s ∈ db_selection db → ∃ r, r ∈ q_rows (db_queue db) ∧ item_id r = sel_candidate s ∧
     item_validation_status r = CandAccepted) ∧
  (∀ id c, db_cycles db !! id = Some c →
     cy_candidate_count c = Z.of_nat (length (selected_ids (db_selection db) id)) ∧
     cy_cutoff_ingest_seq c = sql_max (map item_ingest_seq (selected_rows db id)) ∧
     cy_cutoff_submitted_at c = sql_max (map item_submitted_at (selected_rows db id))).
Proof.
  intros db. destruct (run_db_ops_ok names str_of ops _ empty_db_ok) as [_ _ Hp _ Hu _ Hr Hc Hcut].
  split_and!; eauto.
Qed.

(** C29: whatever happens later, a cycle only moves along its state machine:
    one phase at a time or to failed, frozen at most once and only from
    pending, published only from phase3, and a published manifest is never
    rewritten. *)
Theorem cycle_follows_state_machine {J : Jsonb} names str_of ops db id c :
  db_ok db → db_cycles db !! id = Some c →
  (∀ row, db_manifests db !! id = Some row →
     db_manifests (run_db_ops names str_of ops db) !! id = Some row) ∧
  ∃ c', db_cycles (run_db_ops names str_of ops db) !! id = Some c' ∧ rtc cycle_step c c'.
Proof. apply run_db_ops_steps. Qed.

Lemma unfrozen_step c c' :
  cycle_step c c' → cy_status c ≠ CyPending → cy_selection_frozen_at c = None →
  cy_status c' ≠ CyPending ∧ cy_selection_frozen_at c' = None ∧ cy_candidate_count c' = cy_candidate_count c.
Proof.
  intros Hs Hne Hf. destruct Hs as [c st now Hfw|c now _|c ins now Hp|c now _]; simpl; try done.
  split_and!; [|done|done]. intros ->. by destruct (cy_status c).
Qed.

(** A freeze that was skipped is lost: once a cycle has left pending
    without a freeze, no later operation ever freezes it, and it still can
    reach published with no candidates and no freeze time. *)
Theorem skipped_freeze_is_permanent {J : Jsonb} names str_of ops db id c :
  db_ok db → db_cycles db !! id = Some c → cy_status c ≠ CyPending →
  cy_selection_frozen_at c = None →
  ∃ c', db_cycles (run_db_ops names str_of ops db) !! id = Some c' ∧
    cy_selection_frozen_at c' = None ∧ cy_candidate_count c' = cy_candidate_count c.
Proof.
  intros Hdb Hl Hne Hf.
  destruct (run_db_ops_steps names str_of ops db id c Hdb Hl) as (_ & c' & Hl' & Hsteps).
  exists c'. split; [done|]. clear Hl Hl'. induction Hsteps as [|c c1 c2 H1 _ IH]; [done|].
  destruct (unfrozen_step _ _ H1 Hne Hf) as (H2 & H3 & <-). by apply IH.
Qed.

(** A freeze takes exactly the accepted candidates that match its filter,
    that no cycle has taken and that no other transaction holds, in ingest
    order, and records their number and cutoffs in the cycle row. *)
Theorem freeze_takes_exactly_eligible id by_ pt locked now db c' db' :
  db_ok db → freeze_selection id by_ pt locked now db = Ok (c', db') →
  ∃ f picked, freeze_filter_clause by_ pt = Ok f ∧
    db_selection db' = (db_selection db ++ map (λ r, mkSelection id (item_id r) now) picked)%list ∧
    StronglySorted (λ a b, item_ingest_seq a ≤ item_ingest_seq b) picked ∧
    (∀ r, r ∈ picked ↔ r ∈ q_rows (db_queue db) ∧ eligible f (db_selection db) r = true ∧ item_id r ∉ locked) ∧
    db_cycles db' !! id = Some c' ∧ cy_status c' = CyPhase0 ∧ cy_selection_frozen_at c' = Some now ∧
    cy_candidate_count c' = Z.of_nat (length picked) ∧
    cy_cutoff_ingest_seq c' = sql_max (map item_ingest_seq picked).
Proof.
  intros Hdb (c & f & Hl & _ & _ & Hf & -> & ->)%freeze_ok.
  exists f, (frozen_rows f locked db). split_and!; try done; [| |by simpl; rewrite lookup_insert_eq].
  - apply (py_sort_by_key item_ingest_seq).
  - intros r. apply frozen_rows_elem.
Qed.

(** An unfiltered freeze with no competing transaction leaves no accepted
    candidate behind: every accepted row belongs to some cycle afterwards. *)
Theorem freeze_leaves_no_accepted id now db c' db' :
  db_ok db → freeze_selection id None None ∅ now db = Ok (c', db') →
  ∀ r, r ∈ q_rows (db_queue db') → item_validation_status r = CandAccepted →
  item_id r ∈ map sel_candidate (db_selection db').
Proof.
  intros Hdb (c & f & Hl & _ & _ & Hf & -> & ->)%freeze_ok r Hr Hacc. simpl in *.
  injection Hf as <-. rewrite map_app, elem_of_app.
  destruct (decide (item_id r ∈ map sel_candidate (db_selection db))) as [|Hn]; [by left|right].
  unfold selection_of. rewrite map_map. simpl. apply (list_elem_of_fmap_2 item_id).
  apply frozen_rows_elem. split_and!; [done| |set_solver]. unfold eligible. simpl.
  by rewrite bool_decide_eq_true_2, bool_decide_eq_false_2.
Qed.
End CycleLifecycle.

(** ** Publishing *)
Module CyclePublish.
Import CycleModel CycleRepository CycleManifest CycleHistory.

Section publish.
Context (names : list string) (str_of : pyval → string).

(** A pin is well formed when [FormalTableSnapshot] accepts it. *)
Definition pin_ok (s : FormalTableSnapshot) : Prop :=
  validate_formal_table_key names (PStr (snap_table s)) = Ok (snap_table s) ∧ 1 ≤ snap_id s.
Definition value_ok (v : snapshot_value) : Prop :=
  match v with SnapshotObject s => pin_ok s | RawSnapshot _ => True end.
Definition provenance_ok (p : provenance_input) : Prop :=
  match p with
  | ProvenanceObject o =>
    make_provenance (prov_cycle_id o) (prov_current_cycle_id o) (prov_source_layer o)
      (prov_source_kind o) (PInt (prov_snapshot_id o)) (prov_audit_record_ids o)
      (prov_replay_record_ids o) = Ok o
  | _ => True
  end.
Definition entries_ok (m : gmap string FormalTableSnapshot) : Prop :=
  ∀ k s, m !! k = Some s → snap_table s = k ∧ pin_ok s.
Definition required_present (m : gmap string FormalTableSnapshot) : Prop :=
  ∀ n, n ∈ required_formal_object_names → is_Some (m !! ("formal." ++ n)).

Lemma table_key_str v k : validate_formal_table_key names v = Ok k → v = PStr k.
Proof. unfold validate_formal_table_key. destruct v; try done. intros H. by rinv. Qed.

Lemma snapshot_id_ok v n : validate_snapshot_id v = Ok n ↔ v = PInt n ∧ 1 ≤ n.
Proof.
  unfold validate_snapshot_id. split.
  - destruct v; try done. intros H. rinv. to_prop. done.
  - intros [-> H]. by rewrite (proj2 (Z.ltb_ge _ _)) by lia.
Qed.

Lemma coerce_snapshot_ok k v t s :
  value_ok v → validate_formal_table_key names k = Ok t → coerce_snapshot names k v = Ok s →
  snap_table s = t ∧ pin_ok s.
Proof.
  intros Hv Hk H. pose proof (table_key_str _ _ Hk) as ->. unfold coerce_snapshot in H.
  rewrite Hk in H. simpl in H.
  assert (∀ n, make_snapshot names t (PInt n) = Ok s → snap_table s = t ∧ pin_ok s) as Hmake.
  { clear H. intros n Hm. unfold make_snapshot in Hm. rewrite Hk in Hm.
  cbn [rbind] in Hm. rinv.
  apply snapshot_id_ok in Ha as [_ ?]. by split. }
  destruct v as [v|o].
  - destruct v; simpl in H; rinv; eauto.
  destruct (pget "snapshot_id" d); [|done]. rinv. eauto.
  - rinv. to_prop. by split.
Qed.

Lemma required_keys_ok m : require_formal_snapshot_keys m = Ok () ↔ required_present m.
Proof.
  unfold require_formal_snapshot_keys, sorted_strings. set (l := py_sort _ _).
  assert (∀ k, k ∈ l ↔ ¬ is_Some (m !! k) ∧ k ∈ map (String.append "formal.") required_formal_object_names) as Hl.
  { intros k. unfold l. by rewrite elem_of_py_sort, list_elem_of_filter, Is_true_true,
    negb_true_iff, bool_decide_eq_false. }
  split.
  - intros H n Hn. destruct (decide (is_Some (m !! ("formal." ++ n)))) as [|Hno]; [done|exfalso].
  assert ("formal." ++ n ∈ l) as Hin.
  { apply Hl. split; [done|]. by apply list_elem_of_fmap_2. }
  destruct l; [by apply elem_of_nil in Hin|done].
  - intros Hreq. destruct l as [|k l']; [done|exfalso].
  destruct (proj1 (Hl k) (list_elem_of_here _ _)) as [Hno (n & -> & Hn)%list_elem_of_fmap].
  apply Hno, Hreq, Hn.
Qed.

Lemma normalize_ok items m :
  Forall (λ kv, value_ok kv.2) items → normalize_snapshot_manifest names items = Ok m →
  entries_ok m ∧ required_present m.
Proof.
  intros Hv H. unfold normalize_snapshot_manifest in H. destruct items as [|kv0 items]; [done|].
  rinv. apply required_keys_ok in Ha0. split; [|done].
  revert Ha. apply (rfold_inv entries_ok); [intros k s; by rewrite lookup_empty|].
  intros b [k v] b' Hin Hb Hadd. unfold add_snapshot in Hadd. simpl in Hadd. rinv.
  rewrite Forall_forall in Hv. pose proof (coerce_snapshot_ok _ _ _ _ (Hv _ Hin) Ha Ha1) as [Ht Hp].
  intros k' s'. rewrite lookup_insert_Some. intros [[<- <-]|[_ ?]]; [done|by apply Hb].
Qed.

Lemma rfold_add (l : list (string * FormalTableSnapshot)) g acc :
  (∀ kv acc, kv ∈ l → add_snapshot names acc (g kv) = Ok (<[kv.1 := kv.2]> acc)) →
  rfold (add_snapshot names) acc (map g l) = Ok (fold_left (λ m kv, <[kv.1 := kv.2]> m) l acc).
Proof.
  revert acc. induction l as [|kv l IH]; intros acc Hg; [done|]. cbn [map rfold fold_left].
  rewrite Hg by apply list_elem_of_here. simpl. apply IH. intros. apply Hg. by right.
Qed.

(** Normalising what a manifest stores, or its own snapshots, gives it back. *)
Lemma normalize_entries m g :
  entries_ok m → required_present m →
  (∀ k s, snap_table s = k → pin_ok s →
  ∀ acc, add_snapshot names acc (g (k, s)) = Ok (<[k := s]> acc)) →
  normalize_snapshot_manifest names (map g (map_to_list m)) = Ok m.
Proof.
  intros Hm Hreq Hg. unfold normalize_snapshot_manifest.
  destruct (map g (map_to_list m)) as [|x l] eqn:E.
  - destruct (Hreq "world_state_snapshot") as [? Hrep]; [apply list_elem_of_here|].
  apply elem_of_map_to_list in Hrep.
  apply map_eq_nil in E. rewrite E in Hrep. by apply elem_of_nil in Hrep.
  - rewrite <- E, rfold_add.
  + simpl. rewrite fold_insert_all. by rewrite (proj2 (required_keys_ok m) Hreq).
  + intros [k s] acc Hin. apply elem_of_map_to_list in Hin. destruct (Hm _ _ Hin). by apply Hg.
Qed.

Lemma manifest_row_roundtrip id now m d :
  cycle_date_from_id id = Ok d → entries_ok m → required_present m →
  manifest_from_row names id (mkManifestRow now (snapshot_payload m)) = Ok (mkManifest id now m).
Proof.
  intros Hid Hm Hreq. unfold manifest_from_row, make_manifest, snapshot_payload. simpl.
  rewrite map_to_list_fmap.
  change (prod_map ?f snap_id <$> ?l) with (map (prod_map f snap_id) l).
  rewrite map_map. rewrite normalize_entries; [|done|done|].
  - simpl. rewrite Hid. simpl. rewrite normalize_entries; [done|done|done|].
  intros k s Ht [Hk _] acc. unfold add_snapshot, coerce_snapshot. cbn [fst snd].
  rewrite <- Ht, Hk. cbn [rbind]. rewrite String.eqb_refl. done.
  - intros k s Ht [Hk Hn] acc. unfold add_snapshot, coerce_snapshot. cbn [fst snd prod_map Datatypes.id].
  rewrite <- Ht, Hk. cbn [rbind pget is_key String.eqb Ascii.eqb Bool.eqb].
  unfold make_snapshot. rewrite Hk, !(proj2 (snapshot_id_ok _ _) (conj eq_refl Hn)).
  cbn [rbind]. rewrite !(proj2 (snapshot_id_ok _ _) (conj eq_refl Hn)). by destruct s.
Qed.
(** What every accepted provenance says. *)
Definition proof_ok (o : RecommendationSnapshotProvenance) : Prop :=
  prov_cycle_id o = prov_current_cycle_id o ∧ prov_source_layer o = "L8" ∧
  prov_source_kind o = "current-cycle" ∧
  prov_audit_record_ids o ≠ [] ∧ prov_replay_record_ids o ≠ [].

Lemma non_empty_ids_ok l ids : validate_non_empty_ids l = Ok ids → ids ≠ [].
Proof. unfold validate_non_empty_ids. intros H. rinv. by destruct ids. Qed.

Lemma make_provenance_ok c cc layer kind n audit replay o :
  make_provenance c cc layer kind n audit replay = Ok o → proof_ok o.
Proof.
  unfold make_provenance. intros H. rinv. to_prop.
  apply non_empty_ids_ok in Ha2, Ha3. by split_and!.
Qed.

Lemma preflight_ok id snap p o :
  provenance_ok p → preflight_recommendation_snapshot_publish str_of id snap p = Ok o →
  coerce_provenance str_of p = Ok o ∧ proof_ok o ∧ prov_cycle_id o = id ∧
  prov_snapshot_id o = snap_id snap.
Proof.
  intros Hp H. unfold preflight_recommendation_snapshot_publish in H.
  destruct p as [|o'|d|]; rinv; try done; to_prop; split_and!; try done; simpl in *; rinv.
  - by eapply make_provenance_ok.
  - by eapply make_provenance_ok.
Qed.
End publish.

(** C38: publishing is all or nothing and reads back: a publish that returns
    found the cycle in phase3 without a manifest, leaves it published, and
    [get_publish_manifest] then returns exactly the returned manifest, which
    pins every required formal table with a positive snapshot id. *)
Theorem publish_reads_back names str_of id items prov now db m db' :
  Forall (λ kv, value_ok names kv.2) items →
  publish_manifest names str_of id items prov now db = Ok (m, db') →
  get_publish_manifest names id db' = Ok m ∧ published_cycle_id m = id ∧ published_at m = now ∧
  entries_ok names (formal_table_snapshots m) ∧ required_present (formal_table_snapshots m) ∧
  (∃ c, db_cycles db !! id = Some c ∧ cy_status c = CyPhase3 ∧ db_manifests db !! id = None) ∧
  (∃ c', db_cycles db' !! id = Some c' ∧ cy_status c' = CyPublished).
Proof.
  intros Hv H. assert (∃ d, cycle_date_from_id id = Ok d) as [d Hd].
  { unfold publish_manifest in H. rinv. eauto. }
  apply publish_ok in H as (c & snaps & snap & Hl & Hst & Hm & Hn & _ & _ & Hrow & ->).
  destruct (normalize_ok _ _ _ Hv Hn) as [He Hreq].
  pose proof (manifest_row_roundtrip names id now snaps d Hd He Hreq) as Hrt.
  rewrite Hrow in Hrt. injection Hrt as ->. split_and!; try done.
  - unfold get_publish_manifest. rewrite Hd. simpl. by rewrite lookup_insert_eq.
  - by exists c.
  - eexists. simpl. by rewrite lookup_insert_eq.
Qed.

(** Nothing is published on stale or synthetic evidence: a publish that
    returns carried an L8 provenance of the current cycle, the published one,
    with audit and replay records, for exactly the pinned recommendation
    snapshot. *)
Theorem publish_is_proven names str_of id items prov now db m db' :
  Forall (λ kv, value_ok names kv.2) items → provenance_ok prov →
  publish_manifest names str_of id items prov now db = Ok (m, db') →
  ∃ o, coerce_provenance str_of prov = Ok o ∧ proof_ok o ∧ prov_cycle_id o = id ∧
    formal_table_snapshots m !! formal_recommendation_snapshot =
      Some (mkSnapshotPin formal_recommendation_snapshot (prov_snapshot_id o)).
Proof.
  intros Hv Hp H. assert (∃ d, cycle_date_from_id id = Ok d) as [d Hd].
  { unfold publish_manifest in H. rinv. eauto. }
  apply publish_ok in H as (c & snaps & snap & _ & _ & _ & Hn & Hs & Hpre & Hrow & _).
  destruct (normalize_ok _ _ _ Hv Hn) as [He Hreq].
  rewrite (manifest_row_roundtrip names id now snaps d Hd He Hreq) in Hrow. injection Hrow as <-.
  destruct (preflight_recommendation_snapshot_publish _ _ _ _) as [o|] eqn:Ho; [|done].
  destruct (preflight_ok _ _ _ _ _ Hp Ho) as (H1 & H2 & H3 & H4).
  exists o. split_and!; try done. simpl. rewrite Hs. destruct (He _ _ Hs) as [Ht _].
  f_equal. destruct snap; simpl in *. by subst.
Qed.

(** Cycle ids and dates determine each other: the id of any date with a
    four-digit year reads back as that date. *)
Theorem cycle_id_reads_back d :
  date_ok d = true → 1000 ≤ year d → cycle_date_from_id (cycle_id_for_date d) = Ok d.
Proof. apply cycle_id_roundtrip. Qed.
End CyclePublish.

(** ** Concrete runs *)
Module CycleExamples.
Import QueueExamples QueueValidation CycleModel CycleRepository CycleManifest CycleHistory
  CycleLifecycle CyclePublish.

Definition ex_str (v : pyval) : string := "?".
Definition ex_day : date := mkDate 2026 4 16.
Definition ex_id : string := "CYCLE_20260416".
Definition ex_pins : list (pyval * snapshot_value) :=
  map (λ n, (PStr ("formal." ++ n), RawSnapshot (PInt 11))) required_formal_object_names.
Definition ex_prov : provenance_input := ProvenanceMapping
  [(PStr "cycle_id", PStr ex_id); (PStr "current_cycle_id", PStr ex_id);
   (PStr "source_layer", PStr "L8"); (PStr "source_kind", PStr "current-cycle");
   (PStr "recommendation_snapshot_id", PInt 11); (PStr "audit_record_ids", PList [PStr "a1"]);
   (PStr "replay_record_ids", PList [PStr "r1"])].

(** A whole cycle: submit, validate, freeze, run the phases, publish. *)
Definition ex_prefix : list db_op :=
  [QueueOp (OpSubmit ex_delta 100); QueueOp (OpValidate envelope_validator 10 ∅ 0);
   CreateCycle ex_day 110].
Definition ex_phases : list db_op :=
  [TransitionCycle ex_id "phase1" 130; TransitionCycle ex_id "phase2" 140;
   TransitionCycle ex_id "phase3" 150].
Definition ex_ready_db : cycle_db := run_db_ops [] ex_str ex_prefix empty_db.
Definition ex_phase3_db : cycle_db :=
  run_db_ops [] ex_str (FreezeCycle ex_id None None ∅ 120 :: ex_phases) ex_ready_db.

Lemma ex_ready_ok : db_ok ex_ready_db.
Proof. apply run_db_ops_ok, empty_db_ok. Qed.

Definition ex_created : CycleMetadata := mkCycle ex_id ex_day CyPending None None 0 None 110 110.
Definition ex_skipped_db : cycle_db :=
  run_db_ops [] ex_str (ex_prefix ++ [TransitionCycle ex_id "phase0" 120])%list empty_db.
Definition ex_skipped : CycleMetadata := mkCycle ex_id ex_day CyPhase0 None None 0 None 110 120.

Lemma cycle_follows_state_machine_witness :
  (∀ row, db_manifests ex_ready_db !! ex_id = Some row →
     db_manifests (run_db_ops [] ex_str ex_phases ex_ready_db) !! ex_id = Some row) ∧
  ∃ c', db_cycles (run_db_ops [] ex_str ex_phases ex_ready_db) !! ex_id = Some c' ∧
    rtc cycle_step ex_created c'.
Proof.
  apply (cycle_follows_state_machine [] ex_str ex_phases ex_ready_db ex_id ex_created);
    [exact ex_ready_ok|vm_compute; reflexivity].
Defined.

Lemma skipped_freeze_is_permanent_witness :
  ∃ c', db_cycles (run_db_ops [] ex_str
      (FreezeCycle ex_id None None ∅ 125 :: ex_phases ++ [PublishCycle ex_id ex_pins ex_prov 160])%list
      ex_skipped_db) !! ex_id = Some c' ∧
    cy_selection_frozen_at c' = None ∧ cy_candidate_count c' = 0.
Proof.
  apply (skipped_freeze_is_permanent [] ex_str _ ex_skipped_db ex_id ex_skipped);
    [apply run_db_ops_ok, empty_db_ok|vm_compute; reflexivity|discriminate|reflexivity].
Defined.

(** The skipped cycle does get published. *)
Example skipped_cycle_published :
  cy_status <$> (db_cycles (run_db_ops [] ex_str
    (ex_phases ++ [PublishCycle ex_id ex_pins ex_prov 160])%list ex_skipped_db) !! ex_id) =
  Some CyPublished.
Proof. vm_compute. reflexivity. Qed.

Definition ex_frozen : CycleMetadata :=
  mkCycle ex_id ex_day CyPhase0 (Some 100) (Some 1) 1 (Some 120) 110 120.
Definition ex_frozen_db : cycle_db :=
  run_db_ops [] ex_str [FreezeCycle ex_id None None ∅ 120] ex_ready_db.

Lemma ex_freeze : freeze_selection ex_id None None ∅ 120 ex_ready_db = Ok (ex_frozen, ex_frozen_db).
Proof. vm_compute. reflexivity. Qed.

Lemma freeze_takes_exactly_eligible_witness :
  ∃ f picked, freeze_filter_clause None None = Ok f ∧
    db_selection ex_frozen_db =
      (db_selection ex_ready_db ++ map (λ r, mkSelection ex_id (item_id r) 120) picked)%list ∧
    StronglySorted (λ a b, item_ingest_seq a ≤ item_ingest_seq b) picked ∧
    (∀ r, r ∈ picked ↔ r ∈ q_rows (db_queue ex_ready_db) ∧
       eligible f (db_selection ex_ready_db) r = true ∧ item_id r ∉ (∅ : gset Z)) ∧
    db_cycles ex_frozen_db !! ex_id = Some ex_frozen ∧ cy_status ex_frozen = CyPhase0 ∧
    cy_selection_frozen_at ex_frozen = Some 120 ∧
    cy_candidate_count ex_frozen = Z.of_nat (length picked) ∧
    cy_cutoff_ingest_seq ex_frozen = sql_max (map item_ingest_seq picked).
Proof.
  exact (freeze_takes_exactly_eligible ex_id None None ∅ 120 ex_ready_db ex_frozen ex_frozen_db
    ex_ready_ok ex_freeze).
Defined.

Definition ex_accepted : CandidateQueueItem :=
  mkItem 1 Ex3 (item_payload ex_item) "analyst" 100 1 CandAccepted None.

Lemma freeze_leaves_no_accepted_witness : 1 ∈ map sel_candidate (db_selection ex_frozen_db).
Proof.
  apply (freeze_leaves_no_accepted ex_id 120 ex_ready_db ex_frozen ex_frozen_db ex_ready_ok ex_freeze
    ex_accepted); [|reflexivity].
  replace (q_rows (db_queue ex_frozen_db)) with [ex_accepted] by (vm_compute; reflexivity).
  apply list_elem_of_here.
Defined.

Definition ex_manifest : CyclePublishManifest :=
  mkManifest ex_id 160 (list_to_map (map (λ n, ("formal." ++ n, mkSnapshotPin ("formal." ++ n) 11))
    required_formal_object_names)).
Definition ex_published_db : cycle_db :=
  run_db_ops [] ex_str [PublishCycle ex_id ex_pins ex_prov 160] ex_phase3_db.

Lemma ex_publish :
  publish_manifest [] ex_str ex_id ex_pins ex_prov 160 ex_phase3_db = Ok (ex_manifest, ex_published_db).
Proof. vm_compute. reflexivity. Qed.

Lemma ex_pins_ok : Forall (λ kv, value_ok [] kv.2) ex_pins.
Proof. by repeat constructor. Qed.

Lemma publish_reads_back_witness :
  get_publish_manifest [] ex_id ex_published_db = Ok ex_manifest ∧
  published_cycle_id ex_manifest = ex_id ∧ published_at ex_manifest = 160 ∧
  entries_ok [] (formal_table_snapshots ex_manifest) ∧
  required_present (formal_table_snapshots ex_manifest) ∧
  (∃ c, db_cycles ex_phase3_db !! ex_id = Some c ∧ cy_status c = CyPhase3 ∧
     db_manifests ex_phase3_db !! ex_id = None) ∧
  (∃ c', db_cycles ex_published_db !! ex_id = Some c' ∧ cy_status c' = CyPublished).
Proof.
  exact (publish_reads_back [] ex_str ex_id ex_pins ex_prov 160 ex_phase3_db ex_manifest
    ex_published_db ex_pins_ok ex_publish).
Defined.

Lemma publish_is_proven_witness :
  ∃ o, coerce_provenance ex_str ex_prov = Ok o ∧ proof_ok o ∧ prov_cycle_id o = ex_id ∧
    formal_table_snapshots ex_manifest !! formal_recommendation_snapshot =
      Some (mkSnapshotPin formal_recommendation_snapshot (prov_snapshot_id o)).
Proof.
  exact (publish_is_proven [] ex_str ex_id ex_pins ex_prov 160 ex_phase3_db ex_manifest
    ex_published_db ex_pins_ok I ex_publish).
Defined.

Lemma cycle_id_reads_back_witness : cycle_date_from_id "CYCLE_20260416" = Ok ex_day.
Proof. apply (cycle_id_reads_back ex_day); [reflexivity|vm_compute; discriminate]. Defined.
End CycleExamples.
