(* ===== verification/Storage.v ===== *)
(** * Storage: the SQLite hot snapshot store of [mvp20/storage.py]

    [StorageModel] holds the tables, [StorageRead] the merged and delta reads,
    [StorageWrite] the upsert, the freshness stamp and the atomic replacement
    of the compiled overlay tables; [StorageTheorems] relates them. A database
    file that does not exist is [None]; overlay tables that an older file
    lacks are [None] inside it. *)
From Stdlib Require Import String Ascii ZArith List Sorting.Sorted SpecFloat.
From stdpp Require Import base gmap strings list.
From S2P Require Import Prelude PyLib.
Local Open Scope string_scope.
Local Open Scope Z_scope.

(** [json.dumps] and [json.loads] of the standard library, as the store uses
    them: the text of a value made of JSON's own types reads back as it. *)
Class JsonText := {
  json_dumps : pyval → option string;
  json_loads : string → option pyval;
  json_loads_dumps v s : json_plain v = true → json_dumps v = Some s → json_loads s = Some v;
}.

Module StorageModel.

(** A row of [realtime_current]; its key is [(ts_code, dp_id)]. *)
Record RealtimeRow := mkRealtime {
  rt_value_json : string;
  rt_data_status : string;
  rt_confidence : option spec_float;
  rt_source : string;
  rt_updated_at : Z;
}.
Record FreshnessRow := mkFreshness {
  last_full_sync_at : option Z;
  last_partial_sync_at : option Z;
  sync_status : string;
}.
(** A row of [overlay_manifest]; its key is [(ts_code, industry_id)]. *)
Record OverlayManifestRow := mkOverlayManifest {
  om_ts_code : string;
  om_industry_id : string;
  om_overlay_path : string;
  om_period : option string;
  om_primary_industry : Z;
  om_overlay_status : string;
  om_updated_at : Z;
}.
Record NodeInstanceRow := mkNodeInstance {
  ni_ts_code : string;
  ni_industry_id : string;
  ni_node_id : string;
  ni_dp_id : option string;
  ni_payload_json : string;
  ni_data_status : option string;
  ni_required_level : option string;
  ni_missing_policy : option string;
  ni_calculation_type : option string;
  ni_aggregation_policy : option string;
  ni_materiality : option spec_float;
  ni_confidence : option spec_float;
  ni_source_overlay_path : option string;
}.
Record EdgeInstanceRow := mkEdgeInstance {
  ei_ts_code : string;
  ei_industry_id : string;
  ei_edge_id : string;
  ei_edge_kind : string;
  ei_from_node : option string;
  ei_to_node : option string;
  ei_edge_type : option string;
  ei_payload_json : string;
}.
Record GraphSnapshotRow := mkGraphSnapshot {
  gs_ts_code : string;
  gs_industry_id : string;
  gs_payload_json : string;
  gs_graph_version : option string;
  gs_data_version : option string;
  gs_updated_at : Z;
}.
Record OverlayAlertRow := mkOverlayAlert {
  oa_alert_id : string;
  oa_ts_code : string;
  oa_industry_id : string;
  oa_dp_id : option string;
  oa_severity : string;
  oa_code : string;
  oa_message : string;
  oa_created_at : Z;
  oa_resolved_at : option Z;
}.

(** The tables the overlay compiler owns. *)
Record overlay_tables := mkOverlay {
  overlay_manifest : gmap (string * string) OverlayManifestRow;
  company_node_instance : gmap (string * string * string) NodeInstanceRow;
  company_edge_instance : gmap (string * string * string) EdgeInstanceRow;
  company_graph_snapshot : gmap (string * string) GraphSnapshotRow;
  overlay_alert : gmap string OverlayAlertRow;
}.
Definition empty_overlay : overlay_tables := mkOverlay ∅ ∅ ∅ ∅ ∅.

Record hot_db := mkHotDb {
  realtime_current : gmap (string * string) RealtimeRow;
  freshness_meta : gmap string FreshnessRow;
  db_overlay : option overlay_tables;
}.

Inductive storage_error := JSONDecodeError | JSONEncodeError | IntegrityError.

(** [init_db]: every CREATE is [IF NOT EXISTS]. *)
Definition init_db (f : option hot_db) : hot_db :=
  match f with
  | None => mkHotDb ∅ ∅ (Some empty_overlay)
  | Some db => mkHotDb (realtime_current db) (freshness_meta db)
                 (Some (default empty_overlay (db_overlay db)))
  end.
End StorageModel.

Module StorageRead.
Import StorageModel.

Definition ts_code_to_market (ts_code : string) : option string :=
  if endswith ".SH" ts_code || endswith ".SZ" ts_code || endswith ".BJ" ts_code then Some "CN"
  else if endswith ".HK" ts_code then Some "HK"
  else if endswith ".US" ts_code then Some "US" else None.

(** [ORDER BY primary_industry DESC, industry_id] *)
Definition primary_first (a b : OverlayManifestRow) : bool :=
  (om_primary_industry b <? om_primary_industry a) ||
  ((om_primary_industry a =? om_primary_industry b) &&
   String.leb (om_industry_id a) (om_industry_id b)).

Definition industries_for_ts_code (db : hot_db) (ts_code : string) : list string :=
  match db_overlay db with
  | None => []
  | Some o =>
      map om_industry_id (py_sort primary_first
        (filter (λ r, String.eqb (om_ts_code r) ts_code) (map snd (map_to_list (overlay_manifest o)))))
  end.

(** What a caller gets for one data point; a delta carries no origin. *)
Record SnapshotEntry := mkEntry {
  se_value : pyval;
  se_data_status : string;
  se_confidence : option spec_float;
  se_source : string;
  se_updated_at : Z;
  se_age_seconds : Z;
  se_origin_ts_code : option string;
}.

(** [all_ts_codes]: the stock, its industries, its market. *)
Definition snapshot_sources (db : hot_db) (ts_code : string) (include_sentinels : bool) : list string :=
  ts_code ::
  if include_sentinels then
    (map (String.append "INDUSTRY:") (industries_for_ts_code db ts_code) ++
     match ts_code_to_market ts_code with Some m => [String.append "MARKET:" m] | None => [] end)%list
  else [].

(** [{t: i for i, t in enumerate(l)}.get(t, 999)]: the last position wins. *)
Fixpoint last_index (t : string) (l : list string) (i : nat) : option nat :=
  match l with
  | [] => None
  | x :: rest =>
      match last_index t rest (S i) with
      | Some j => Some j
      | None => if String.eqb t x then Some i else None
      end
  end.
Definition priority_of (codes : list string) (t : string) : nat :=
  default 999%nat (last_index t codes 0).

Abbreviation realtime_row := (string * string * RealtimeRow)%type.

(** The rows of the SELECT; the statement leaves their order open. *)
Definition select_sources (codes : list string) (db : hot_db) : list realtime_row :=
  filter (λ kv, bool_decide (kv.1.1 ∈ codes)) (map_to_list (realtime_current db)).

Section reads.
Context {J : JsonText}.

Definition entry_of (now : Z) (origin : option string) (r : RealtimeRow)
    : result storage_error SnapshotEntry :=
  match json_loads (rt_value_json r) with
  | None => Err JSONDecodeError
  | Some v => Ok (mkEntry v (rt_data_status r) (rt_confidence r) (rt_source r) (rt_updated_at r)
                    (now - rt_updated_at r) origin)
  end.

(** The loop body over the fetched rows: [best] holds each data point's entry
  with its priority. *)
Definition merge_row (codes : list string) (now : Z) (best : gmap string (SnapshotEntry * nat))
    (row : realtime_row) : result storage_error (gmap string (SnapshotEntry * nat)) :=
  let '((ts, dp), r) := row in
  let p := priority_of codes ts in
  let better := match best !! dp with None => true | Some (_, p') => (p <? p')%nat end in
  if better then
    let* e := entry_of now (Some ts) r in
    Ok (<[dp := (e, p)]> best)
  else Ok best.

Definition merge_rows (codes : list string) (now : Z) (rows : list realtime_row)
    : result storage_error (gmap string SnapshotEntry) :=
  let* best := rfold (merge_row codes now) ∅ rows in
  Ok (fst <$> best).

Definition read_hot_snapshot (f : option hot_db) (ts_code : string) (include_sentinels : bool)
    (now : Z) : result storage_error (gmap string SnapshotEntry) :=
  match f with
  | None => Ok ∅
  | Some db =>
      let codes := snapshot_sources db ts_code include_sentinels in
      merge_rows codes now (select_sources codes db)
  end.

Definition read_hot_snapshot_changed_since (f : option hot_db) (ts_code : string) (since now : Z)
    : result storage_error (gmap string SnapshotEntry) :=
  match f with
  | None => Ok ∅
  | Some db =>
      rfold (λ acc kv, let* e := entry_of now None kv.2 in Ok (<[kv.1.2 := e]> acc)) ∅
        (filter (λ kv, String.eqb kv.1.1 ts_code && (since <? rt_updated_at kv.2))
          (map_to_list (realtime_current db)))
  end.

Definition read_freshness_meta (f : option hot_db) : gmap string FreshnessRow :=
  match f with None => ∅ | Some db => freshness_meta db end.

Definition read_available_overlay_industries (f : option hot_db) (ts_code : string) : list string :=
  match f with None => [] | Some db => industries_for_ts_code db ts_code end.

(** The snapshot row a query selects: the named industry, or the first by
  [primary_industry DESC, industry_id] among those with a manifest row. *)
Definition select_graph_snapshot (o : overlay_tables) (ts_code : string) (industry_id : option string)
    : option GraphSnapshotRow :=
  match industry_id with
  | Some i => company_graph_snapshot o !! (ts_code, i)
  | None =>
      head (omap (λ m, company_graph_snapshot o !! (ts_code, om_industry_id m))
        (py_sort primary_first
          (filter (λ r, String.eqb (om_ts_code r) ts_code) (map snd (map_to_list (overlay_manifest o))))))
  end.

Definition read_compiled_graph_snapshot (f : option hot_db) (ts_code : string)
    (industry_id : option string) : result storage_error (option pyval) :=
  match f with
  | None => Ok None
  | Some db =>
      match db_overlay db with
      | None => Ok None
      | Some o =>
          match select_graph_snapshot o ts_code industry_id with
          | None => Ok None
          | Some r => match json_loads (gs_payload_json r) with
                      | Some v => Ok (Some v) | None => Err JSONDecodeError end
          end
      end
  end.

(** [ORDER BY severity, dp_id]; SQLite puts NULL first. *)
Definition alert_leb (a b : OverlayAlertRow) : bool :=
  if String.eqb (oa_severity a) (oa_severity b) then
    match oa_dp_id a, oa_dp_id b with
    | None, _ => true
    | Some _, None => false
    | Some x, Some y => String.leb x y
    end
  else String.leb (oa_severity a) (oa_severity b).

Definition read_overlay_alerts (f : option hot_db) (ts_code industry_id : string)
    : list OverlayAlertRow :=
  match f with
  | None => []
  | Some db =>
      match db_overlay db with
      | None => []
      | Some o => py_sort alert_leb (filter (λ a, String.eqb (oa_ts_code a) ts_code &&
          String.eqb (oa_industry_id a) industry_id && bool_decide (oa_resolved_at a = None))
          (map snd (map_to_list (overlay_alert o))))
      end
  end.
End reads.
End StorageRead.

Module StorageWrite.
Import StorageModel.

(** An item of an upsert batch; a value that is a [str] is stored verbatim. *)
Record upsert_item := mkUpsert {
  up_ts_code : string;
  up_dp_id : string;
  up_value : pyval;
  up_data_status : string;
  up_confidence : option spec_float;
  up_source : string;
  up_updated_at : Z;
}.

Section writes.
Context {J : JsonText}.

Definition upsert_row (u : upsert_item) : result storage_error (string * string * RealtimeRow) :=
  let* text := match up_value u with
               | PStr s => Ok s
               | v => match json_dumps v with Some s => Ok s | None => Err JSONEncodeError end
               end in
  Ok (up_ts_code u, up_dp_id u,
      mkRealtime text (up_data_status u) (up_confidence u) (up_source u) (up_updated_at u)).

(** Rows are encoded before the first write; each INSERT overwrites its key. *)
Definition upsert_realtime (f : option hot_db) (batch : list upsert_item)
    : result storage_error (Z * hot_db) :=
  let db := init_db f in
  let* rows := rmap_list upsert_row batch in
  Ok (Z.of_nat (length rows),
      mkHotDb (fold_left (λ m kv, <[kv.1 := kv.2]> m) rows (realtime_current db))
        (freshness_meta db) (db_overlay db)).
End writes.

Definition update_freshness (f : option hot_db) (layer status : string) (is_full : bool) (now : Z)
    : hot_db :=
  let db := init_db f in
  let old := freshness_meta db !! layer in
  let row :=
    if is_full then mkFreshness (Some now) (Some now) status
    else mkFreshness (old ≫= last_full_sync_at) (Some now) status in
  mkHotDb (realtime_current db) (<[layer := row]> (freshness_meta db)) (db_overlay db).

(** [INSERT]s into an empty table: a second row with a key violates it. *)
Definition insert_rows {K R} `{Countable K} (key : R → K) (rows : list R)
    : result storage_error (gmap K R) :=
  rfold (λ m r, raise_if bool_decide (is_Some (m !! key r)) with IntegrityError;
    Ok (<[key r := r]> m)) ∅ rows.

(** One transaction: all five tables are replaced, or none is. *)
Definition replace_compiled_overlays (f : option hot_db) (manifests : list OverlayManifestRow)
    (nodes : list NodeInstanceRow) (edges : list EdgeInstanceRow)
    (snapshots : list GraphSnapshotRow) (alerts : list OverlayAlertRow)
    : result storage_error hot_db :=
  let db := init_db f in
  let* m := insert_rows (λ r, (om_ts_code r, om_industry_id r)) manifests in
  let* n := insert_rows (λ r, (ni_ts_code r, ni_industry_id r, ni_node_id r)) nodes in
  let* e := insert_rows (λ r, (ei_ts_code r, ei_industry_id r, ei_edge_id r)) edges in
  let* s := insert_rows (λ r, (gs_ts_code r, gs_industry_id r)) snapshots in
  let* a := insert_rows oa_alert_id alerts in
  Ok (mkHotDb (realtime_current db) (freshness_meta db) (Some (mkOverlay m n e s a))).
End StorageWrite.

Module StorageTheorems.
Import StorageModel StorageRead StorageWrite.

(** The first source, in priority order, that has a row for the data point. *)
Definition best_source (db : hot_db) (codes : list string) (dp : string)
    : option (string * RealtimeRow) :=
  head (omap (λ c, (λ r, (c, r)) <$> realtime_current db !! (c, dp)) codes).

Lemma last_index_none t l i : t ∉ l → last_index t l i = None.
Proof.
  revert i. induction l as [|x l IH]; intros i Hin; simpl; [done|].
  apply not_elem_of_cons in Hin as [Hne Hin]. rewrite IH by done.
  by apply String.eqb_neq in Hne as ->.
Qed.

Lemma last_index_ge t l i j : last_index t l i = Some j → (i ≤ j)%nat.
Proof.
  revert i. induction l as [|x l IH]; intros i; simpl; [done|].
  destruct (last_index t l (S i)) as [j'|] eqn:E.
  - intros [= <-]. apply IH in E. lia.
  - destruct (String.eqb t x); [|done]. intros [= <-]. lia.
Qed.

Lemma last_index_some t l i : t ∈ l → is_Some (last_index t l i).
Proof.
  revert i. induction l as [|x l IH]; intros i; simpl; [by intros ?%elem_of_nil|].
  rewrite elem_of_cons. intros [->|Hin].
  - rewrite String.eqb_refl. destruct (last_index x l (S i)); eauto.
  - destruct (IH (S i) Hin) as [j ->]. eauto.
Qed.

(** The source of least priority index is the first one that has a row. *)
Lemma least_priority_first {R} (get : string → option R) codes i c r :
  NoDup codes → c ∈ codes → get c = Some r →
  (∀ c' r', c' ∈ codes → get c' = Some r' →
     (default 999 (last_index c codes i) ≤ default 999 (last_index c' codes i))%nat) →
  head (omap (λ c, (λ r, (c, r)) <$> get c) codes) = Some (c, r).
Proof.
  revert i. induction codes as [|x codes IH]; intros i Hnd Hc Hget Hmin; [by apply elem_of_nil in Hc|].
  apply NoDup_cons in Hnd as [Hx Hnd].
  assert (default 999%nat (last_index x (x :: codes) i) = i) as Hxi.
  { simpl. by rewrite (last_index_none x codes), String.eqb_refl. }
  assert (∀ c', c' ∈ codes → last_index c' (x :: codes) i = last_index c' codes (S i)) as Hrest.
  { intros c' Hc'. simpl. destruct (last_index_some c' codes (S i) Hc') as [j Hj]. by rewrite Hj. }
  destruct (decide (c = x)) as [->|Hne].
  { simpl. by rewrite Hget. }
  assert (c ∈ codes) as Hc' by (apply elem_of_cons in Hc as [?|?]; done).
  simpl. destruct (get x) as [r0|] eqn:Hgx; simpl.
  - exfalso. specialize (Hmin x r0 (list_elem_of_here _ _) Hgx). rewrite Hxi, Hrest in Hmin by done.
    destruct (last_index_some c codes (S i) Hc') as [j Hj]. rewrite Hj in Hmin. simpl in Hmin.
    apply last_index_ge in Hj. lia.
  - apply (IH (S i)); try done. intros c1 r1 Hc1 Hr1.
    specialize (Hmin c1 r1 (proj2 (elem_of_cons _ _ _) (or_intror Hc1)) Hr1).
    by rewrite !Hrest in Hmin.
Qed.

Section merge.
Context {J : JsonText} (codes : list string) (now : Z).

(** What the loop knows after the rows [seen]. *)
Definition merge_inv (seen : list realtime_row) (best : gmap string (SnapshotEntry * nat)) : Prop :=
  ∀ dp, match best !! dp with
        | None => ∀ c r, (c, dp, r) ∉ seen
        | Some (e, p) => ∃ c r, (c, dp, r) ∈ seen ∧ p = priority_of codes c ∧
            entry_of now (Some c) r = Ok e ∧
            ∀ c' r', (c', dp, r') ∈ seen → (p ≤ priority_of codes c')%nat
        end.

Lemma merge_inv_step seen best ts dp r :
  merge_inv seen best → is_Some (json_loads (rt_value_json r)) →
  ∃ best', merge_row codes now best (ts, dp, r) = Ok best' ∧ merge_inv (seen ++ [(ts, dp, r)])%list best'.
Proof.
  intros Hinv [v Hv]. unfold merge_row.
  assert (∃ e, entry_of now (Some ts) r = Ok e) as [e He] by (unfold entry_of; rewrite Hv; eauto).
  pose proof (Hinv dp) as Hdp.
  destruct (match best !! dp with None => true | Some (_, p') => _ end) eqn:Hbetter.
  - rewrite He. simpl. eexists. split; [done|]. intros dp'.
    destruct (decide (dp' = dp)) as [->|Hne].
    + rewrite lookup_insert_eq. exists ts, r. split_and!; [|done|done|].
      { apply elem_of_app. right. apply list_elem_of_here. }
      intros c' r'. rewrite elem_of_app, list_elem_of_singleton. intros [Hin|[= -> ->]]; [|done].
      destruct (best !! dp) as [[e' p']|]; [|by apply Hdp in Hin].
      destruct Hdp as (c & r0 & _ & _ & _ & Hmin). apply Hmin in Hin. apply Nat.ltb_lt in Hbetter. lia.
    + rewrite lookup_insert_ne by done. specialize (Hinv dp').
      destruct (best !! dp') as [[e' p']|].
      * destruct Hinv as (c & r0 & Hin & Hp & He' & Hmin). exists c, r0.
        split_and!; [by apply elem_of_app; left|done|done|].
        intros c' r' Hin'. apply elem_of_app in Hin' as [?|[= -> -> ->]%list_elem_of_singleton]; [eauto|done].
      * intros c r0 Hin. apply elem_of_app in Hin as [Hin|[= -> -> ->]%list_elem_of_singleton];
          [by apply Hinv in Hin|done].
  - eexists. split; [done|]. intros dp'. specialize (Hinv dp').
    destruct (decide (dp' = dp)) as [->|Hne].
    + destruct (best !! dp) as [[e' p']|]; [|done].
      destruct Hdp as (c & r0 & Hin & Hp & He' & Hmin). exists c, r0.
      split_and!; [by apply elem_of_app; left|done|done|].
      intros c' r' Hin'. apply Nat.ltb_ge in Hbetter.
      apply elem_of_app in Hin' as [?|[= -> ->]%list_elem_of_singleton]; [eauto|done].
    + destruct (best !! dp') as [[e' p']|].
      * destruct Hinv as (c & r0 & Hin & Hp & He' & Hmin). exists c, r0.
        split_and!; [by apply elem_of_app; left|done|done|].
        intros c' r' Hin'. apply elem_of_app in Hin' as [?|[= -> -> ->]%list_elem_of_singleton]; [eauto|done].
      * intros c r0 Hin. apply elem_of_app in Hin as [Hin|[= -> -> ->]%list_elem_of_singleton];
          [by apply Hinv in Hin|done].
Qed.

Lemma merge_inv_rows rows seen best :
  merge_inv seen best → (∀ c dp r, (c, dp, r) ∈ rows → is_Some (json_loads (rt_value_json r))) →
  ∃ best', rfold (merge_row codes now) best rows = Ok best' ∧ merge_inv (seen ++ rows)%list best'.
Proof.
  revert seen best. induction rows as [|[[ts dp] r] rows IH]; intros seen best Hinv Hdec; cbn [rfold].
  - exists best. by rewrite app_nil_r.
  - destruct (merge_inv_step seen best ts dp r Hinv) as (b & Hb & Hinv');
      [eapply Hdec, list_elem_of_here|].
    rewrite Hb. cbn [rbind]. rewrite (cons_middle (ts, dp, r)), app_assoc.
    apply IH; [done|]. intros c dp' r' Hin. eapply Hdec. right. exact Hin.
Qed.
End merge.

(** Every stored text the read may look at is JSON. *)
Definition decodable {J : JsonText} (db : hot_db) (codes : list string) : Prop :=
  ∀ c dp r, c ∈ codes → realtime_current db !! (c, dp) = Some r → is_Some (json_loads (rt_value_json r)).

Definition snapshot_entry {J : JsonText} (now : Z) (src : string * RealtimeRow) : option SnapshotEntry :=
  match entry_of now (Some src.1) src.2 with Ok e => Some e | Err _ => None end.

Lemma select_elem codes db c dp r :
  (c, dp, r) ∈ select_sources codes db ↔ c ∈ codes ∧ realtime_current db !! (c, dp) = Some r.
Proof.
  unfold select_sources. rewrite list_elem_of_filter, elem_of_map_to_list, Is_true_true.
  simpl. by rewrite bool_decide_eq_true.
Qed.

(** Any listing of the selected rows merges to the best source of each point. *)
Lemma merge_rows_best {J : JsonText} db codes now rows :
  NoDup codes → decodable db codes →
  (∀ c dp r, (c, dp, r) ∈ rows ↔ c ∈ codes ∧ realtime_current db !! (c, dp) = Some r) →
  ∃ m, merge_rows codes now rows = Ok m ∧
    ∀ dp, m !! dp = best_source db codes dp ≫= snapshot_entry now.
Proof.
  intros Hnd Hdec Hrows.
  destruct (merge_inv_rows codes now rows [] ∅) as (best & Hb & Hinv).
  - intros dp. rewrite lookup_empty. intros c r. apply not_elem_of_nil.
  - intros c dp r Hin. apply Hrows in Hin as [? ?]. by eapply Hdec.
  - exists (fst <$> best). unfold merge_rows. rewrite Hb. split; [done|].
    intros dp. rewrite lookup_fmap. specialize (Hinv dp). simpl in Hinv.
    destruct (best !! dp) as [[e p]|]; simpl.
    + destruct Hinv as (c & r & Hin & -> & He & Hmin). apply Hrows in Hin as [Hc Hr].
      unfold best_source.
      rewrite (least_priority_first (λ c, realtime_current db !! (c, dp)) codes 0 c r Hnd Hc Hr).
      * simpl. unfold snapshot_entry. simpl. by rewrite He.
      * intros c' r' Hc' Hr'. apply (Hmin c' r'). by apply Hrows.
    + unfold best_source. destruct (omap _ codes) as [|[c r] l] eqn:E; [done|exfalso].
      assert ((c, r) ∈ omap (λ c, (λ r, (c, r)) <$> realtime_current db !! (c, dp)) codes) as Hin
        by (rewrite E; apply list_elem_of_here).
      apply list_elem_of_omap in Hin as (c' & Hc' & Hr').
      destruct (realtime_current db !! (c', dp)) as [r'|] eqn:Hl; simplify_eq/=.
      apply (Hinv c r). by apply Hrows.
Qed.

(** Stocks are not sentinels. *)
Definition stock_code (ts_code : string) : Prop :=
  startswith "INDUSTRY:" ts_code = false ∧ startswith "MARKET:" ts_code = false.

(** The compiler's keys hold the table's columns. *)
Definition manifest_keys_ok (db : hot_db) : Prop :=
  ∀ o k r, db_overlay db = Some o → overlay_manifest o !! k = Some r → k = (om_ts_code r, om_industry_id r).

Lemma industries_NoDup db ts_code :
  manifest_keys_ok db → NoDup (industries_for_ts_code db ts_code).
Proof.
  intros Hk. unfold industries_for_ts_code. destruct (db_overlay db) as [o|] eqn:Ho; [|constructor].
  eapply NoDup_map_perm; [apply py_sort_perm|].
  assert (NoDup (map (λ r, (om_ts_code r, om_industry_id r)) (map snd (map_to_list (overlay_manifest o))))) as Hnd.
  { rewrite map_map. rewrite (map_ext_in _ fst).
    - apply NoDup_fst_map_to_list.
    - intros [k r] Hin%list_elem_of_In. apply elem_of_map_to_list in Hin. simpl. symmetry. by eapply Hk. }
  revert Hnd. induction (map snd _) as [|r l IH]; [constructor|]. cbn [map].
  rewrite NoDup_cons. intros [Hr Hl]. rewrite filter_cons. destruct (decide _) as [Ht|]; [|by apply IH].
  cbn [map]. rewrite NoDup_cons. split; [|by apply IH].
  intros (r' & E & Hin)%list_elem_of_fmap. apply list_elem_of_filter in Hin as [Ht' Hin].
  apply Hr. apply list_elem_of_fmap. exists r'. split; [|done].
  apply Is_true_true, String.eqb_eq in Ht, Ht'. congruence.
Qed.

Lemma prefix_append p s : startswith p (String.append p s) = true.
Proof.
  unfold startswith. induction p as [|c p IH]; [by destruct s|].
  change (String.append (String c p) s) with (String c (String.append p s)). cbn [String.prefix].
  by destruct (ascii_dec c c).
Qed.

Lemma append_inj p s t : String.append p s = String.append p t → s = t.
Proof.
  induction p as [|c p IH]; [done|].
  change (String.append (String c p) ?x) with (String c (String.append p x)). intros [= H]. auto.
Qed.

Lemma sources_NoDup db ts_code inc :
  manifest_keys_ok db → stock_code ts_code → NoDup (snapshot_sources db ts_code inc).
Proof.
  intros Hk [Hi Hm]. unfold snapshot_sources. apply NoDup_cons.
  destruct inc; [|split; [apply not_elem_of_nil|constructor]].
  assert (∀ m, m ∈ match ts_code_to_market ts_code with Some m => [String.append "MARKET:" m] | None => [] end →
    startswith "MARKET:" m = true) as Hmk.
  { intros m. destruct (ts_code_to_market ts_code); [|by intros ?%elem_of_nil].
    intros ->%list_elem_of_singleton. apply prefix_append. }
  split.
  - intros [(i & -> & _)%list_elem_of_fmap|Hin]%elem_of_app.
    + by rewrite prefix_append in Hi.
    + apply Hmk in Hin. congruence.
  - apply NoDup_app. split_and!.
    + apply (NoDup_fmap_2_strong (String.append "INDUSTRY:")); [|by apply industries_NoDup].
      intros x y _ _. apply append_inj.
    + intros x (i & -> & _)%list_elem_of_fmap Hin%Hmk. by cbn in Hin.
    + destruct (ts_code_to_market ts_code); [apply NoDup_singleton|constructor].
Qed.

(** ** The sources of a snapshot, as the read promises them *)

(** A place a stock's values may come from: its own rows, the sentinel rows of
    an industry its compiled overlays name, those of its market. *)
Inductive snapshot_source :=
| StockRows
| IndustryRows (manifest_row : OverlayManifestRow)
| MarketRows (market : string).

Definition source_code (ts_code : string) (s : snapshot_source) : string :=
  match s with
  | StockRows => ts_code
  | IndustryRows r => String.append "INDUSTRY:" (om_industry_id r)
  | MarketRows m => String.append "MARKET:" m
  end.

Definition trades_on (ts_code m : string) : Prop :=
  (m = "CN" ∧ (endswith ".SH" ts_code ∨ endswith ".SZ" ts_code ∨ endswith ".BJ" ts_code)) ∨
  (m = "HK" ∧ endswith ".HK" ts_code) ∨ (m = "US" ∧ endswith ".US" ts_code).

(** Which sources a read of [ts_code] may look at. *)
Definition is_source (db : hot_db) (ts_code : string) (inc : bool) (s : snapshot_source) : Prop :=
  match s with
  | StockRows => True
  | IndustryRows r => inc = true ∧ om_ts_code r = ts_code ∧
      ∃ o k, db_overlay db = Some o ∧ overlay_manifest o !! k = Some r
  | MarketRows m => inc = true ∧ trades_on ts_code m
  end.

(** [ts_code > INDUSTRY:<primary> > INDUSTRY:<other> > MARKET:<market>]: a
    higher [primary_industry] comes first, and among equals the lesser name. *)
Definition more_specific (s s' : snapshot_source) : Prop :=
  match s, s' with
  | StockRows, StockRows => False
  | StockRows, _ => True
  | IndustryRows r, IndustryRows r' =>
      om_primary_industry r' < om_primary_industry r ∨
      (om_primary_industry r = om_primary_industry r' ∧ om_industry_id r ≠ om_industry_id r' ∧
       String.leb (om_industry_id r) (om_industry_id r') = true)
  | IndustryRows _, MarketRows _ => True
  | _, _ => False
  end.

(** The row a read serves for [dp]: of a source that has one, when no more
    specific source has one. *)
Definition served (db : hot_db) (ts_code : string) (inc : bool) (dp : string)
    (s : snapshot_source) (r : RealtimeRow) : Prop :=
  is_source db ts_code inc s ∧ realtime_current db !! (source_code ts_code s, dp) = Some r ∧
  ∀ s', is_source db ts_code inc s' → more_specific s' s →
    realtime_current db !! (source_code ts_code s', dp) = None.

(** The code's list of sources, before it is turned into codes. *)
Definition source_list (db : hot_db) (ts_code : string) (inc : bool) : list snapshot_source :=
  StockRows ::
  if inc then
    (map IndustryRows (match db_overlay db with
      | None => []
      | Some o => py_sort primary_first
          (filter (λ r, String.eqb (om_ts_code r) ts_code) (map snd (map_to_list (overlay_manifest o))))
      end) ++ match ts_code_to_market ts_code with Some m => [MarketRows m] | None => [] end)%list
  else [].

Lemma source_list_codes db ts_code inc :
  snapshot_sources db ts_code inc = map (source_code ts_code) (source_list db ts_code inc).
Proof.
  unfold snapshot_sources, source_list, industries_for_ts_code. destruct inc; [|done].
  cbn [map source_code]. f_equal. rewrite map_app. f_equal.
  - destruct (db_overlay db); [|done]. by rewrite !map_map.
  - by destruct (ts_code_to_market ts_code).
Qed.

Lemma prefix_same p q s : String.length p = String.length q →
  String.prefix p s = true → String.prefix q s = true → p = q.
Proof.
  revert q s. induction p as [|c p IH]; intros [|c' q] [|x s]; try done. cbn [String.prefix String.length].
  intros [= Hl]. destruct (ascii_dec c x) as [->|], (ascii_dec c' x) as [->|]; try done.
  intros Hp Hq. f_equal. by apply (IH q s).
Qed.

Lemma endswith_excludes p q s :
  String.length (String.rev p) = String.length (String.rev q) → String.rev p ≠ String.rev q →
  endswith p s = true → endswith q s = false.
Proof.
  intros Hl Hne Hp. destruct (endswith q s) eqn:Hq; [|done]. by destruct Hne, (prefix_same _ _ _ Hl Hp Hq).
Qed.

Lemma trades_on_market ts_code m : trades_on ts_code m ↔ ts_code_to_market ts_code = Some m.
Proof.
  pose proof (λ p q H1 H2, endswith_excludes p q ts_code H1 H2) as Hex.
  pose proof (Hex ".SH" ".HK" eq_refl ltac:(done)). pose proof (Hex ".SH" ".US" eq_refl ltac:(done)).
  pose proof (Hex ".SZ" ".HK" eq_refl ltac:(done)). pose proof (Hex ".SZ" ".US" eq_refl ltac:(done)).
  pose proof (Hex ".BJ" ".HK" eq_refl ltac:(done)). pose proof (Hex ".BJ" ".US" eq_refl ltac:(done)).
  pose proof (Hex ".HK" ".US" eq_refl ltac:(done)). clear Hex.
  unfold trades_on, ts_code_to_market. rewrite !Is_true_true.
  destruct (endswith ".SH" ts_code), (endswith ".SZ" ts_code), (endswith ".BJ" ts_code),
    (endswith ".HK" ts_code), (endswith ".US" ts_code); cbn [orb]; intuition congruence.
Qed.

Lemma source_list_elem db ts_code inc s :
  s ∈ source_list db ts_code inc ↔ is_source db ts_code inc s.
Proof.
  unfold source_list. rewrite elem_of_cons. destruct s as [|r|m]; cbn [is_source].
  - split; [done|by left].
  - split.
    + intros [?|Hin]; [done|]. destruct inc; [|by apply elem_of_nil in Hin].
      apply elem_of_app in Hin as [(r' & [= <-] & Hin)%list_elem_of_fmap|Hin].
      * destruct (db_overlay db) as [o|] eqn:Ho; [|by apply elem_of_nil in Hin].
        apply elem_of_py_sort, list_elem_of_filter in Hin as [Ht%Is_true_true Hin].
        apply String.eqb_eq in Ht. apply list_elem_of_fmap in Hin as ([k r'] & -> & Hin).
        split_and!; [done|done|]. exists o, k. by rewrite <- elem_of_map_to_list.
      * destruct (ts_code_to_market _); [by apply list_elem_of_singleton in Hin|by apply elem_of_nil in Hin].
    + intros (-> & <- & o & k & Ho & Hk). right. apply elem_of_app. left. apply list_elem_of_fmap_2.
      rewrite Ho. apply elem_of_py_sort, list_elem_of_filter. rewrite String.eqb_refl. split; [done|].
      apply list_elem_of_fmap. exists (k, r). by rewrite elem_of_map_to_list.
  - rewrite trades_on_market. split.
    + intros [?|Hin]; [done|]. destruct inc; [|by apply elem_of_nil in Hin].
      apply elem_of_app in Hin as [(r' & ? & _)%list_elem_of_fmap|Hin]; [done|].
      destruct (ts_code_to_market _); [|by apply elem_of_nil in Hin].
      by apply list_elem_of_singleton in Hin as [= ->].
    + intros (-> & ->). right. apply elem_of_app. right. apply list_elem_of_here.
Qed.

Lemma primary_first_true a b : primary_first a b = true ↔
  om_primary_industry b < om_primary_industry a ∨
  (om_primary_industry a = om_primary_industry b ∧ String.leb (om_industry_id a) (om_industry_id b) = true).
Proof. unfold primary_first. by rewrite orb_true_iff, andb_true_iff, Z.ltb_lt, Z.eqb_eq. Qed.

(** The code lists the sources from the most specific down. *)
Lemma source_list_sorted db ts_code inc :
  manifest_keys_ok db → StronglySorted more_specific (source_list db ts_code inc).
Proof.
  intros Hk. unfold source_list. constructor; [|].
  2: { destruct inc; [|constructor]. apply Forall_app. split; [by apply Forall_fmap, Forall_true|].
       by destruct (ts_code_to_market ts_code); repeat constructor. }
  destruct inc; [|constructor].
  assert (∀ l m, StronglySorted more_specific (map IndustryRows l) →
    StronglySorted more_specific (map IndustryRows l ++ match m : option string with
      Some m => [MarketRows m] | None => [] end)%list) as Happ.
  { intros l m. induction l as [|r l IH]; cbn [map app]; [destruct m; repeat constructor|].
    intros [Hl Hr]%StronglySorted_inv. constructor; [by apply IH|]. apply Forall_app.
    split; [done|]. by destruct m; repeat constructor. }
  apply Happ. clear Happ. pose proof (industries_NoDup db ts_code Hk) as Hnd.
  unfold industries_for_ts_code in Hnd. destruct (db_overlay db) as [o|]; [|constructor].
  set (l := py_sort primary_first _) in *.
  assert (StronglySorted primary_first l) as Hs.
  { apply py_sort_sorted.
    - intros x y. rewrite !primary_first_true. 
      destruct (Z.lt_trichotomy (om_primary_industry x) (om_primary_industry y)) as [?|[?|?]],
        (String.leb_total (om_industry_id x) (om_industry_id y)); auto.
    - intros x y z. rewrite !primary_first_true.
      pose proof (string_leb_trans (om_industry_id x) (om_industry_id y) (om_industry_id z)). intuition lia. }
  revert Hnd. induction Hs as [|r l' _ IH Hr]; cbn [map]; [constructor|].
  intros [Hx Hnd]%NoDup_cons. constructor; [by apply IH|].
  apply Forall_fmap, Forall_forall. intros r' Hr'. rewrite Forall_forall in Hr.
  pose proof (Hr _ Hr') as Hle%Is_true_true%primary_first_true. cbn. destruct Hle as [?|[? ?]]; [by left|right].
  split_and!; [done| |done]. intros E. apply Hx. rewrite E. by apply list_elem_of_fmap_2.
Qed.

Lemma more_specific_asymm s s' : more_specific s s' → ¬ more_specific s' s.
Proof.
  destruct s as [|r|m], s' as [|r'|m']; cbn; try tauto. intros [?|(? & Hne & H)] [?|(? & _ & H')]; try lia.
  apply Hne. apply (anti_symm String.le); by apply Is_true_true.
Qed.

(** In a list sorted by specificity, the first source that has a row is the
    one no more specific source outranks. *)
Lemma first_source_served {R} (code : snapshot_source → string) (get : string → option R) l c r :
  StronglySorted more_specific l →
  head (omap (λ c, (λ r, (c, r)) <$> get c) (map code l)) = Some (c, r) ↔
  ∃ s, s ∈ l ∧ c = code s ∧ get (code s) = Some r ∧
    ∀ s', s' ∈ l → more_specific s' s → get (code s') = None.
Proof.
  induction 1 as [|x l _ IH Hx].
  { split; [done|]. intros (s & Hs & _). by apply elem_of_nil in Hs. }
  rewrite Forall_forall in Hx. cbn [map omap list_omap]. destruct (get (code x)) as [r0|] eqn:Hg; cbn [fmap option_fmap option_map head].
  - split.
    + intros [= <- <-]. exists x. split_and!; [apply list_elem_of_here|done|done|].
      intros s' [->|Hs']%elem_of_cons Hm; [by destruct (more_specific_asymm _ _ Hm Hm)|].
      exfalso. by apply (more_specific_asymm _ _ Hm), Hx.
    + intros (s & [->|Hs]%elem_of_cons & -> & Hr & Hmin); [congruence|].
      by rewrite (Hmin x (list_elem_of_here _ _) (Hx _ Hs)) in Hg.
  - rewrite IH. split.
    + intros (s & Hs & -> & Hr & Hmin). exists s. split_and!; [by right|done|done|].
      intros s' [->|Hs']%elem_of_cons Hm; [done|by apply Hmin].
    + intros (s & [->|Hs]%elem_of_cons & -> & Hr & Hmin); [congruence|].
      exists s. split_and!; [done|done|done|]. intros s' Hs'. apply Hmin. by right.
Qed.

Lemma best_source_served db ts_code inc dp c r :
  manifest_keys_ok db →
  best_source db (snapshot_sources db ts_code inc) dp = Some (c, r) ↔
  ∃ s, c = source_code ts_code s ∧ served db ts_code inc dp s r.
Proof.
  intros Hk. unfold best_source. rewrite source_list_codes.
  rewrite (first_source_served _ (λ c, realtime_current db !! (c, dp))) by by apply source_list_sorted.
  unfold served. setoid_rewrite source_list_elem. naive_solver.
Qed.

(** Every text a read of the stock may look at is JSON. *)
Definition readable {J : JsonText} (db : hot_db) (ts_code : string) (inc : bool) : Prop :=
  ∀ s dp r, is_source db ts_code inc s → realtime_current db !! (source_code ts_code s, dp) = Some r →
    is_Some (json_loads (rt_value_json r)).

Lemma readable_decodable {J : JsonText} db ts_code inc :
  readable db ts_code inc ↔ decodable db (snapshot_sources db ts_code inc).
Proof.
  unfold readable, decodable. rewrite source_list_codes. split.
  - intros H c dp r (s & -> & Hs)%list_elem_of_fmap Hr. apply (H s dp r); [by apply source_list_elem|done].
  - intros H s dp r Hs Hr. apply (H (source_code ts_code s) dp r); [|done].
    by apply list_elem_of_fmap_2, source_list_elem.
Qed.

(** A data point is missing exactly when no source has it. *)
Lemma snapshot_absent {J : JsonText} db ts_code inc now dp :
  decodable db (snapshot_sources db ts_code inc) →
  best_source db (snapshot_sources db ts_code inc) dp ≫= snapshot_entry now = None ↔
  ∀ s, is_source db ts_code inc s → realtime_current db !! (source_code ts_code s, dp) = None.
Proof.
  intros Hdec. setoid_rewrite <- source_list_elem. unfold best_source. rewrite source_list_codes in *.
  induction (source_list db ts_code inc) as [|x l IH]; cbn [map omap list_omap].
  { split; [|done]. intros _ s Hs. by apply elem_of_nil in Hs. }
  destruct (realtime_current db !! (source_code ts_code x, dp)) as [r|] eqn:Hg;
    cbn [fmap option_fmap option_map head].
  - split.
    + intros H. destruct (Hdec (source_code ts_code x) dp r) as [v Hv]; [apply list_elem_of_here|done|].
      cbn in H. unfold snapshot_entry, entry_of in H. cbn in H. by rewrite Hv in H.
    + intros H. by rewrite (H x (list_elem_of_here _ _)) in Hg.
  - rewrite IH.
    + split; intros H s; [intros [->|?]%elem_of_cons|intros ?]; auto. apply H. by right.
    + intros c dp' r Hc. apply Hdec. by right.
Qed.

(** C34: a snapshot read serves each data point from the most specific source
    that has a row for it, the stock's own rows before the sentinel rows of
    its industries (a higher [primary_industry] first, equals by name) before
    those of its market, the sentinels only when they are asked for; the
    entry carries that row's value, status, confidence, source, time and age
    and names where it came from; a data point no source has is absent. The
    result does not depend on the order in which the database returns rows. *)
Theorem snapshot_read_priority {J : JsonText} db ts_code inc now :
  manifest_keys_ok db → stock_code ts_code → readable db ts_code inc →
  ∃ m, read_hot_snapshot (Some db) ts_code inc now = Ok m ∧
    (∀ dp e, m !! dp = Some e ↔ ∃ s r v,
       served db ts_code inc dp s r ∧ json_loads (rt_value_json r) = Some v ∧
       e = mkEntry v (rt_data_status r) (rt_confidence r) (rt_source r) (rt_updated_at r)
         (now - rt_updated_at r) (Some (source_code ts_code s))) ∧
    (∀ dp, m !! dp = None ↔ ∀ s, is_source db ts_code inc s →
       realtime_current db !! (source_code ts_code s, dp) = None) ∧
    (∀ rows, rows ≡ₚ select_sources (snapshot_sources db ts_code inc) db →
       merge_rows (snapshot_sources db ts_code inc) now rows = Ok m).
Proof.
  intros Hk Hs Hread%readable_decodable. pose proof (sources_NoDup db ts_code inc Hk Hs) as Hnd.
  destruct (merge_rows_best db _ now _ Hnd Hread (select_elem _ db)) as (m & Hm & Hspec).
  exists m. split_and!; [done|..].
  - intros dp e. rewrite Hspec. split.
    + intros ([c r] & Hbest & He)%bind_Some. apply best_source_served in Hbest as (s & -> & Hsv); [|done].
      unfold snapshot_entry, entry_of in He. cbn in He.
      destruct (json_loads (rt_value_json r)) as [v|] eqn:Hv; simplify_eq/=. by exists s, r, v.
    + intros (s & r & v & Hsv & Hv & ->).
      assert (best_source db (snapshot_sources db ts_code inc) dp = Some (source_code ts_code s, r)) as ->
        by (apply best_source_served; eauto).
      unfold snapshot_entry, entry_of. cbn. by rewrite Hv.
  - intros dp. rewrite Hspec. apply (snapshot_absent db ts_code inc now dp Hread).
  - intros rows Hrows. destruct (merge_rows_best db _ now rows Hnd Hread) as (m' & Hm' & Hspec').
    + intros c dp r. rewrite Hrows. apply select_elem.
    + rewrite Hm'. f_equal. apply map_eq. intros dp. by rewrite Hspec, Hspec'.
Qed.
Definition item_key (u : upsert_item) : string * string := (up_ts_code u, up_dp_id u).

Lemma fold_insert_last {R} (rows : list ((string * string) * R)) (m : gmap (string * string) R) k :
  fold_left (λ m kv, <[kv.1 := kv.2]> m) rows m !! k =
  match last (filter (λ kv, kv.1 = k) rows) with Some kv => Some kv.2 | None => m !! k end.
Proof.
  revert m. induction rows as [|[k' r] rows IH]; intros m; [done|]. cbn [fold_left fst snd].
  rewrite IH, filter_cons. cbn [fst]. destruct (decide (k' = k)) as [->|Hne].
  - rewrite last_cons. destruct (last _) as [[k1 r1]|]; [done|]. by rewrite lookup_insert_eq.
  - destruct (last _); [done|]. by rewrite lookup_insert_ne.
Qed.

Lemma upsert_row_key {J : JsonText} u row : upsert_row u = Ok row → row.1 = item_key u.
Proof. unfold upsert_row. intros H. by rinv. Qed.

Lemma last_filter_rows {J : JsonText} batch rows k :
  rmap_list upsert_row batch = Ok rows →
  match last (filter (λ u, item_key u = k) batch) with
  | Some u => ∃ row, upsert_row u = Ok row ∧ last (filter (λ kv, kv.1 = k) rows) = Some row
  | None => last (filter (λ kv : string * string * RealtimeRow, kv.1 = k) rows) = None
  end.
Proof.
  intros H%rmap_list_ok. induction H as [|u row batch rows Hu _ IH]; [done|].
  rewrite !filter_cons. pose proof (upsert_row_key _ _ Hu) as Hk.
  destruct (decide (item_key u = k)), (decide (row.1 = k)); try congruence.
  rewrite !last_cons. destruct (last (filter _ batch)) as [u'|].
  - destruct IH as (row' & ? & ->). eauto.
  - rewrite IH. eauto.
Qed.

(** An upsert batch is last-write-wins per (ts_code, dp_id): it returns the
    batch's length, every key holds the encoding of its last item in the
    batch, every other key and every other table is untouched. *)
Theorem upsert_last_write_wins {J : JsonText} f batch n db' :
  upsert_realtime f batch = Ok (n, db') →
  n = Z.of_nat (length batch) ∧
  freshness_meta db' = freshness_meta (init_db f) ∧ db_overlay db' = db_overlay (init_db f) ∧
  ∀ k, match last (filter (λ u, item_key u = k) batch) with
       | Some u => ∃ r, upsert_row u = Ok (k, r) ∧ realtime_current db' !! k = Some r
       | None => realtime_current db' !! k = realtime_current (init_db f) !! k
       end.
Proof.
  unfold upsert_realtime. intros H. rinv. simpl. split_and!; try done.
  - by rewrite (rmap_list_length _ _ _ Ha).
  - intros k. rewrite fold_insert_last. pose proof (last_filter_rows _ _ k Ha) as Hl.
    destruct (last (filter (λ u, item_key u = k) batch)) as [u|] eqn:Hu.
    + destruct Hl as ([k' r] & Hrow & ->). exists r. split; [|done].
      apply last_Some_elem_of, list_elem_of_filter in Hu as [<- _].
      pose proof (upsert_row_key _ _ Hrow) as Hk. simpl in Hk. by subst.
    + by rewrite Hl.
Qed.

(** What the collector writes the API serves: after an upsert, reading the
    stock's own rows returns, for every data point of the batch whose last
    item is a JSON object or array, exactly that value with its status,
    source and age. *)
Theorem upsert_then_read {J : JsonText} f batch n db' u now :
  upsert_realtime f batch = Ok (n, db') →
  last (filter (λ u', item_key u' = item_key u) batch) = Some u →
  json_plain (up_value u) = true → is_str (up_value u) = false →
  manifest_keys_ok db' → stock_code (up_ts_code u) → decodable db' [up_ts_code u] →
  ∃ m, read_hot_snapshot (Some db') (up_ts_code u) false now = Ok m ∧
    m !! up_dp_id u = Some (mkEntry (up_value u) (up_data_status u) (up_confidence u) (up_source u)
      (up_updated_at u) (now - up_updated_at u) (Some (up_ts_code u))).
Proof.
  intros Hup Hlast Hplain Hstr Hk Hs Hdec.
  destruct (merge_rows_best db' [up_ts_code u] now (select_sources [up_ts_code u] db'))
    as (m & Hm & Hspec); [apply NoDup_singleton|done|apply select_elem|].
  exists m. split; [done|]. rewrite Hspec. unfold best_source. cbn [omap list_omap].
  assert (∃ text, json_dumps (up_value u) = Some text ∧
    realtime_current db' !! item_key u = Some (mkRealtime text (up_data_status u) (up_confidence u)
      (up_source u) (up_updated_at u))) as (text & Htext & Hrow).
  { unfold upsert_realtime in Hup. rinv. simpl. rewrite fold_insert_last.
    pose proof (last_filter_rows _ _ (item_key u) Ha) as Hl. rewrite Hlast in Hl.
    destruct Hl as (row & Hu & ->). unfold upsert_row in Hu.
    destruct (up_value u) eqn:Ev; try discriminate Hstr; simpl in Hu;
      destruct (json_dumps _) as [t|] eqn:Ht; try discriminate Hu; simpl in Hu; rinv; eauto. }
  change (up_ts_code u, up_dp_id u) with (item_key u). rewrite Hrow. simpl.
  unfold snapshot_entry, entry_of. simpl. by rewrite (json_loads_dumps _ _ Hplain Htext).
Qed.

(** A table built from rows with distinct keys. *)
Definition table_of {K R} `{Countable K} (key : R → K) (rows : list R) : gmap K R :=
  list_to_map (map (λ r, (key r, r)) rows).

Lemma insert_rows_ok {K R} `{Countable K} (key : R → K) (rows : list R) (m : gmap K R) :
  insert_rows key rows = Ok m ↔ NoDup (map key rows) ∧ m = table_of key rows.
Proof.
  unfold insert_rows. set (step := λ (m : gmap K R) (r : R), rbind _ _).
  assert (∀ acc, rfold step acc rows = Ok m ↔
    NoDup (map key rows) ∧ (∀ r, r ∈ rows → acc !! key r = None) ∧
    m = fold_left (λ m kv, <[kv.1 := kv.2]> m) (map (λ r, (key r, r)) rows) acc) as Hgen.
  { induction rows as [|r rows IH]; intros acc; cbn [rfold map fold_left fst snd].
    - split; [|by intros (_ & _ & ->)]. intros [= <-]. split_and!; [constructor| |done].
      intros r Hr. by apply elem_of_nil in Hr.
    - rewrite rbind_ok. setoid_rewrite IH. unfold step. rewrite NoDup_cons. split.
      + intros (b & Hb & Hnd & Hnone & ->). rinv. to_prop. apply eq_None_not_Some in Ha.
        split_and!; try done.
        * intros (r' & E & Hin)%list_elem_of_fmap. specialize (Hnone _ Hin).
          by rewrite <- E, lookup_insert_eq in Hnone.
        * intros r' [->|Hin]%elem_of_cons; [done|]. specialize (Hnone _ Hin).
          by apply lookup_insert_None in Hnone as [? _].
      + intros ([Hr Hnd] & Hnone & ->). exists (<[key r := r]> acc).
        rewrite (Hnone r (list_elem_of_here _ _)). split_and!; [done|done| |done].
        intros r' Hin. apply lookup_insert_None. split; [apply Hnone; by right|].
        intros E. apply Hr. rewrite E. by apply list_elem_of_fmap_2. }
  rewrite Hgen. assert (NoDup (map key rows) → fold_left (λ m kv, <[kv.1 := kv.2]> m)
    (map (λ r, (key r, r)) rows) ∅ = table_of key rows) as Hfold.
  { intros Hnd. rewrite fold_insert_map; [apply (right_id_L ∅ (∪))|]. by rewrite map_map. }
  split.
  - intros (Hnd & _ & ->). auto.
  - intros [Hnd ->]. split_and!; [done|intros; apply lookup_empty|]. by rewrite Hfold.
Qed.

(** Replacing the compiled overlays is atomic: it succeeds exactly when no
    table gets two rows for one key, then every overlay table holds exactly
    the given rows, and realtime and freshness rows are untouched. *)
Theorem replace_overlays_atomic f ms ns es ss als db' :
  replace_compiled_overlays f ms ns es ss als = Ok db' ↔
  NoDup (map (λ r, (om_ts_code r, om_industry_id r)) ms) ∧
  NoDup (map (λ r, (ni_ts_code r, ni_industry_id r, ni_node_id r)) ns) ∧
  NoDup (map (λ r, (ei_ts_code r, ei_industry_id r, ei_edge_id r)) es) ∧
  NoDup (map (λ r, (gs_ts_code r, gs_industry_id r)) ss) ∧
  NoDup (map oa_alert_id als) ∧
  db' = mkHotDb (realtime_current (init_db f)) (freshness_meta (init_db f))
    (Some (mkOverlay (table_of (λ r, (om_ts_code r, om_industry_id r)) ms)
      (table_of (λ r, (ni_ts_code r, ni_industry_id r, ni_node_id r)) ns)
      (table_of (λ r, (ei_ts_code r, ei_industry_id r, ei_edge_id r)) es)
      (table_of (λ r, (gs_ts_code r, gs_industry_id r)) ss) (table_of oa_alert_id als))).
Proof.
  unfold replace_compiled_overlays. rewrite rbind_ok. setoid_rewrite insert_rows_ok.
  setoid_rewrite rbind_ok. setoid_rewrite insert_rows_ok. setoid_rewrite rbind_ok.
  setoid_rewrite insert_rows_ok. setoid_rewrite rbind_ok. setoid_rewrite insert_rows_ok.
  setoid_rewrite rbind_ok. setoid_rewrite insert_rows_ok. split.
  - intros (m & [? ->] & n & [? ->] & e & [? ->] & s & [? ->] & a & [? ->] & [= <-]). by split_and!.
  - intros (? & ? & ? & ? & ? & ->). repeat (eexists; split; [by split|]). done.
Qed.

(** One stock's rows with an undecodable text among them cannot be merged. *)
Lemma own_rows_undecodable {J : JsonText} codes now ts dp r rows best :
  json_loads (rt_value_json r) = None → (ts, dp, r) ∈ rows → NoDup (map fst rows) →
  (∀ c dp' r', (c, dp', r') ∈ rows → c = ts ∧ best !! dp' = None) →
  rfold (merge_row codes now) best rows = Err JSONDecodeError.
Proof.
  intros Hr. revert best. induction rows as [|[[c dp0] r0] rows IH];
    intros best Hin Hnd Hown; [by apply elem_of_nil in Hin|].
  destruct (Hown c dp0 r0 (list_elem_of_here _ _)) as [-> Hfresh].
  cbn [rfold]. unfold merge_row at 1. rewrite Hfresh.
  cbn [map] in Hnd. apply NoDup_cons in Hnd as [Hk Hnd].
  apply elem_of_cons in Hin as [[= <- <-]|Hin]; [unfold entry_of; by rewrite Hr|].
  unfold entry_of at 1. destruct (json_loads (rt_value_json r0)); [|done]. cbn [rbind].
  apply IH; [done|done|]. intros c' dp' r' Hin'.
  destruct (Hown c' dp' r') as [-> Hf]; [by right|]. split; [done|].
  rewrite lookup_insert_ne; [done|]. intros <-. apply Hk.
  apply list_elem_of_fmap. by exists (ts, dp0, r').
Qed.

(** A value stored verbatim breaks the reads of its stock: once a string
    that is not JSON text is the last value written for a data point, every
    read of that stock's own rows raises. *)
Theorem verbatim_string_breaks_reads {J : JsonText} f batch n db' u s now :
  upsert_realtime f batch = Ok (n, db') →
  last (filter (λ u', item_key u' = item_key u) batch) = Some u →
  up_value u = PStr s → json_loads s = None →
  read_hot_snapshot (Some db') (up_ts_code u) false now = Err JSONDecodeError.
Proof.
  intros Hup Hlast Hv Hs.
  assert (∃ r, realtime_current db' !! (up_ts_code u, up_dp_id u) = Some r ∧ rt_value_json r = s) as (r & Hr & Hrs).
  { unfold upsert_realtime in Hup. rinv. simpl. rewrite fold_insert_last.
    pose proof (last_filter_rows _ _ (item_key u) Ha) as Hl. rewrite Hlast in Hl.
    destruct Hl as (row & Hu & Hrow). unfold item_key in Hrow. rewrite Hrow.
    unfold upsert_row in Hu. rewrite Hv in Hu. simpl in Hu. rinv. eauto. }
  unfold read_hot_snapshot, snapshot_sources, merge_rows.
  rewrite (own_rows_undecodable _ now (up_ts_code u) (up_dp_id u) r); [done|by subst| | |].
  - apply select_elem. split; [apply list_elem_of_here|done].
  - eapply NoDup_map_sub; [apply sublist_filter|apply NoDup_fst_map_to_list].
  - intros c dp r' [Hc _]%select_elem. apply list_elem_of_singleton in Hc.
    split; [done|apply lookup_empty].
Qed.
End StorageTheorems.

(** ** Concrete runs *)
Module StorageExamples.
Import StorageModel StorageRead StorageWrite StorageTheorems.

(** The texts of four constants. *)
#[export] Instance constant_json : JsonText.
Proof.
  refine {|
    json_dumps v := match v with
      | PNone => Some "null" | PBool true => Some "true" | PBool false => Some "false"
      | PList [] => Some "[]" | _ => None end;
    json_loads s :=
      if String.eqb s "null" then Some PNone else if String.eqb s "true" then Some (PBool true)
      else if String.eqb s "false" then Some (PBool false)
      else if String.eqb s "[]" then Some (PList []) else None |}.
  intros v s _ H. destruct v as [|[]| | | |[]| | |]; by simplify_eq/=.
Defined.

Definition ex_up (ts dp : string) (v : pyval) (at_ : Z) : upsert_item :=
  mkUpsert ts dp v "Known" None "mock" at_.
Definition ex_manifest_row (ind : string) (primary : Z) : OverlayManifestRow :=
  mkOverlayManifest "300750.SZ" ind "p.yaml" None primary "complete" 10.
Definition ex_overlay : hot_db := mkHotDb
  {[("300750.SZ", "L1.a") := mkRealtime "true" "Known" None "s" 100;
    ("INDUSTRY:STORAGE", "L1.a") := mkRealtime "false" "Known" None "s" 100;
    ("INDUSTRY:ROBOTICS", "L2.b") := mkRealtime "[]" "Known" None "s" 100;
    ("MARKET:CN", "L2.b") := mkRealtime "null" "Known" None "s" 100]} ∅
  (Some (mkOverlay (table_of (λ r, (om_ts_code r, om_industry_id r))
    [ex_manifest_row "ROBOTICS" 0; ex_manifest_row "STORAGE" 1]) ∅ ∅ ∅ ∅)).

Lemma ex_overlay_keys : manifest_keys_ok ex_overlay.
Proof.
  intros o k r [= <-] H. simpl in H. apply elem_of_list_to_map_2 in H.
  apply list_elem_of_fmap in H as (r' & [= -> ->] & _). done.
Qed.

Lemma ex_overlay_readable : readable ex_overlay "300750.SZ" true.
Proof.
  intros c dp r _ H. simpl in H. apply elem_of_map_to_list in H.
  replace (map_to_list _) with
    (map_to_list (realtime_current ex_overlay)) in H by reflexivity.
  assert (Forall (λ kv, is_Some (json_loads (rt_value_json kv.2)))
    (map_to_list (realtime_current ex_overlay))) as Hall by (vm_compute; repeat constructor; eauto).
  rewrite Forall_forall in Hall. apply (Hall _ H).
Qed.

Lemma snapshot_read_priority_witness :
  ∃ m, read_hot_snapshot (Some ex_overlay) "300750.SZ" true 150 = Ok m ∧
    (∀ dp e, m !! dp = Some e ↔ ∃ s r v,
       served ex_overlay "300750.SZ" true dp s r ∧ json_loads (rt_value_json r) = Some v ∧
       e = mkEntry v (rt_data_status r) (rt_confidence r) (rt_source r) (rt_updated_at r)
         (150 - rt_updated_at r) (Some (source_code "300750.SZ" s))) ∧
    (∀ dp, m !! dp = None ↔ ∀ s, is_source ex_overlay "300750.SZ" true s →
       realtime_current ex_overlay !! (source_code "300750.SZ" s, dp) = None) ∧
    (∀ rows, rows ≡ₚ select_sources (snapshot_sources ex_overlay "300750.SZ" true) ex_overlay →
       merge_rows (snapshot_sources ex_overlay "300750.SZ" true) 150 rows = Ok m).
Proof.
  exact (snapshot_read_priority ex_overlay "300750.SZ" true 150 ex_overlay_keys
    (conj eq_refl eq_refl) ex_overlay_readable).
Defined.

(** The industry's value wins over the market's. *)
Example ex_industry_wins :
  (λ '(c, _), c) <$> best_source ex_overlay (snapshot_sources ex_overlay "300750.SZ" true) "L2.b" =
  Some "INDUSTRY:ROBOTICS".
Proof. vm_compute. reflexivity. Qed.

(** The primary industry comes before the others, whatever its name. *)
Example ex_primary_industry_first :
  snapshot_sources ex_overlay "300750.SZ" true =
  ["300750.SZ"; "INDUSTRY:STORAGE"; "INDUSTRY:ROBOTICS"; "MARKET:CN"].
Proof. vm_compute. reflexivity. Qed.

Definition ex_batch : list upsert_item :=
  [ex_up "600000.SH" "L1.a" PNone 40; ex_up "600000.SH" "L1.a" (PList []) 50].
Definition ex_stored : hot_db := mkHotDb
  {[("600000.SH", "L1.a") := mkRealtime "[]" "Known" None "mock" 50]} ∅ (Some empty_overlay).

Lemma ex_upsert : upsert_realtime None ex_batch = Ok (2, ex_stored).
Proof. vm_compute. reflexivity. Qed.

Lemma upsert_last_write_wins_witness :
  2 = Z.of_nat (length ex_batch) ∧ freshness_meta ex_stored = freshness_meta (init_db None) ∧
  db_overlay ex_stored = db_overlay (init_db None) ∧
  ∀ k, match last (filter (λ u, item_key u = k) ex_batch) with
       | Some u => ∃ r, upsert_row u = Ok (k, r) ∧ realtime_current ex_stored !! k = Some r
       | None => realtime_current ex_stored !! k = realtime_current (init_db None) !! k
       end.
Proof. exact (upsert_last_write_wins None ex_batch 2 ex_stored ex_upsert). Defined.

Lemma upsert_then_read_witness :
  ∃ m, read_hot_snapshot (Some ex_stored) "600000.SH" false 60 = Ok m ∧
    m !! "L1.a" = Some (mkEntry (PList []) "Known" None "mock" 50 10 (Some "600000.SH")).
Proof.
  apply (upsert_then_read None ex_batch 2 ex_stored (ex_up "600000.SH" "L1.a" (PList []) 50) 60);
    [exact ex_upsert|reflexivity|reflexivity|reflexivity| |split; reflexivity|].
  - intros o k r [= <-] H. change ((∅ : gmap (string * string) OverlayManifestRow) !! k = Some r) in H. by rewrite lookup_empty in H.
  - intros c dp r _ H. simpl in H. apply lookup_singleton_Some in H as [_ <-]. simpl. eauto.
Defined.

Lemma verbatim_string_breaks_reads_witness :
  read_hot_snapshot (Some (mkHotDb {[("600000.SH", "L1.a") := mkRealtime "rising" "Known" None "mock" 50]}
    ∅ (Some empty_overlay))) "600000.SH" false 60 = Err JSONDecodeError.
Proof.
  apply (verbatim_string_breaks_reads None [ex_up "600000.SH" "L1.a" (PStr "rising") 50] 1 _
    (ex_up "600000.SH" "L1.a" (PStr "rising") 50) "rising" 60); reflexivity.
Defined.
End StorageExamples.
