(* ===== verification/Sse.v ===== *)
(** * Sse: the realtime delta stream of [mvp20/sse.py]

    [JsonSafe] is [mvp20/json_utils.py]; [Stream] is the loop of
    [stream_realtime_delta] over what it observes at each iteration: the
    clock readings, the database it polls and whether the write succeeds. *)
From Stdlib Require Import String Ascii ZArith List SpecFloat.
From stdpp Require Import base gmap strings list.
From S2P Require Import Prelude PyLib Storage.
Import StorageModel StorageRead.
Local Open Scope string_scope.
Local Open Scope Z_scope.

Module JsonSafe.

Section safe.
(** [str(k)] of a dictionary key that is not a string. *)
Context (key_text : pyval → string).

Definition str_key (k : pyval) : string :=
  match k with PStr s => s | _ => key_text k end.

(** [json_safe]. *)
Fixpoint json_safe (v : pyval) : pyval :=
  match v with
  | PFloat f => if finite_float f then PFloat f else PNone
  | PDict d => PDict (dict_of (map (λ kv, match kv with (k, x) => (str_key k, json_safe x) end) d))
  | PList l | PTuple l => PList (map json_safe l)
  | _ => v
  end.
End safe.

(** No objects but JSON's own: [default=str] handles the others. *)
Fixpoint no_other (v : pyval) : bool :=
  match v with
  | POther _ => false
  | PList l | PTuple l => forallb no_other l
  | PDict d => forallb (λ kv, match kv with (_, x) => no_other x end) d
  | _ => true
  end.

(** Python dictionaries have one entry per key. *)
Fixpoint keys_unique (v : pyval) : bool :=
  match v with
  | PDict d => bool_decide (NoDup (map (λ kv, match kv with (PStr s, _) => Some s | _ => None end) d))
      && forallb (λ kv, match kv with (_, x) => keys_unique x end) d
  | PList l | PTuple l => forallb keys_unique l
  | _ => true
  end.

Abbreviation plain_entry := (λ kv : pyval * pyval, match kv with (k, x) => is_str k && json_plain x end).


Lemma pset_plain k v d :
  json_plain v = true → forallb plain_entry d = true → forallb plain_entry (pset k v d) = true.
Proof.
  intros Hv. induction d as [|[k' v'] d IH]; simpl; [by rewrite Hv|].
  intros [[Hk Hv']%andb_true_iff Hd]%andb_true_iff.
  destruct (is_key k k'); simpl; [by rewrite Hk, Hv, Hd|by rewrite Hk, Hv', IH].
Qed.

Lemma dict_of_plain l :
  Forall (λ kv, json_plain kv.2 = true) l → forallb plain_entry (dict_of l) = true.
Proof.
  unfold dict_of. intros Hl. assert (forallb plain_entry ([] : pdict) = true) as H0 by done. revert H0.
  generalize ([] : pdict). induction Hl as [|kv l Hkv _ IH]; intros d Hd; simpl; [done|].
  by apply IH, pset_plain.
Qed.

Lemma plain_keys (d : pdict) :
  forallb plain_entry d = true → forallb (λ kv, is_str kv.1) d = true.
Proof. rewrite !forallb_forall. intros H [k v] Hx. by specialize (H _ Hx) as [? ?]%andb_true_iff. Qed.

Lemma json_safe_plain key_text v : no_other v = true → json_plain (json_safe key_text v) = true.
Proof.
  induction v as [| | |f| | |l IH|l IH|d IH] using pyval_rect_nested; simpl; try done.
  - intros _. destruct (finite_float f) eqn:E; simpl; [by rewrite E|done].
  - rewrite !forallb_forall. intros H x (y & <- & Hy)%in_map_iff.
    rewrite Forall_forall in IH. apply IH; [by apply list_elem_of_In|auto].
  - rewrite !forallb_forall. intros H x (y & <- & Hy)%in_map_iff.
    rewrite Forall_forall in IH. apply IH; [by apply list_elem_of_In|auto].
  - rewrite forallb_forall. intros H. apply dict_of_plain. rewrite Forall_map.
    rewrite Forall_forall in IH |- *. intros [k x] Hx. simpl.
    apply (IH (k, x) Hx). by apply (H (k, x)), list_elem_of_In.
Qed.

Lemma json_plain_safe key_text v :
  json_plain v = true → keys_unique v = true → json_safe key_text v = v.
Proof.
  induction v as [| | |f| | |l IH|l IH|d IH] using pyval_rect_nested; simpl; try done.
  - by intros ->.
  - intros H Hu. f_equal. rewrite <- (map_id l) at 2. apply map_ext_in. intros x Hx.
    rewrite forallb_forall in H, Hu. rewrite Forall_forall in IH.
    apply IH; [by apply list_elem_of_In|auto..].
  - intros H [Hnd%bool_decide_eq_true Hu]%andb_true_iff. f_equal.
    rewrite <- (dict_of_fresh d Hnd (plain_keys d H)) at 2. f_equal. apply map_ext_in. intros [k x] Hx.
    rewrite forallb_forall in H, Hu. rewrite Forall_forall in IH.
    specialize (H _ Hx). apply andb_true_iff in H as [Hk Hp]. specialize (Hu _ Hx).
    pose proof (IH (k, x) ltac:(by apply list_elem_of_In) Hp Hu) as E. simpl in E. simpl. rewrite E. by destruct k.
Qed.

(** C39: what the API sends is strict JSON: [json_safe] of any value built from
    JSON's own types has only string keys, finite numbers and lists, and a
    value that already is so (with one entry per key, as in any Python
    dictionary) is sent unchanged. *)
Theorem json_safe_is_strict key_text v :
  (no_other v = true → json_plain (json_safe key_text v) = true) ∧
  (json_plain v = true → keys_unique v = true → json_safe key_text v = v).
Proof. split; [apply json_safe_plain|apply json_plain_safe]. Qed.

(** A NaN, a tuple and two keys with the same text. *)
Lemma json_safe_is_strict_witness :
  json_plain (json_safe (λ _, "1") (PDict [(PInt 1, PFloat S754_nan); (PStr "1", PTuple [PInt 2])])) = true ∧
  json_safe (λ _, "1") (PDict [(PInt 1, PFloat S754_nan); (PStr "1", PTuple [PInt 2])])
    = PDict [(PStr "1", PList [PInt 2])].
Proof.
  split; [|reflexivity].
  apply (proj1 (json_safe_is_strict (λ _, "1")
    (PDict [(PInt 1, PFloat S754_nan); (PStr "1", PTuple [PInt 2])]))). reflexivity.
Defined.
End JsonSafe.

Module Stream.
Import JsonSafe.

(** Times are microseconds; [int(time.time())] is whole seconds. *)
Definition seconds (t : Z) : Z := t / 1000000.

(** What one iteration of the loop observes. *)
Record tick := mkTick {
  tk_check : Z;            (* time.time() against the maximum duration *)
  tk_poll : Z;             (* time.time() after the sleep *)
  tk_db : option hot_db;   (* the database the poll reads *)
  tk_read : Z;             (* the clock of the read, in seconds *)
  tk_beat : Z;             (* time.time() against the heartbeat interval *)
  tk_written : Z;          (* time.time() after a write *)
  tk_write_ok : bool;      (* whether the write reaches the client *)
}.

(** The events delivered to the client. *)
Inductive sse_frame :=
| FrameSnapshot (values : gmap string SnapshotEntry)
| FrameDelta (values : gmap string SnapshotEntry) (at_ : Z)
| FrameHeartbeat (at_ : Z)
| FrameClose.

Inductive stream_end := StreamClosed | StreamDisconnected | StreamReadFailed (e : storage_error).

(** [last_check] and [last_event_at]. *)
Record loop_state := mkLoop { last_check : Z; last_event_at : Z }.

Section stream.
Context {J : JsonText} (key_text : pyval → string).
Context (ts_code : string) (max_duration_seconds heartbeat_interval_seconds started_at : Z).

(** Each value passes through [json_safe] before it is written. *)
Definition safe_entry (e : SnapshotEntry) : SnapshotEntry :=
  mkEntry (json_safe key_text (se_value e)) (se_data_status e)
    (c ← se_confidence e; if finite_float c then Some c else None)
    (se_source e) (se_updated_at e) (se_age_seconds e) (se_origin_ts_code e).

(** [write_event]: a frame reaches the client unless the write fails. *)
Definition write_event (ok : bool) (f : sse_frame) (after : loop_state)
    : list sse_frame * (loop_state + stream_end) :=
  if ok then ([f], inl after) else ([], inr StreamDisconnected).

(** One iteration of [while True]. *)
Definition stream_step (st : loop_state) (t : tick) : list sse_frame * (loop_state + stream_end) :=
  if max_duration_seconds * 1000000 <? tk_check t - started_at then
    (if tk_write_ok t then [FrameClose] else [], inr StreamClosed)
  else
    let now := seconds (tk_poll t) in
    match read_hot_snapshot_changed_since (tk_db t) ts_code (last_check st) (tk_read t) with
    | Err e => ([], inr (StreamReadFailed e))
    | Ok delta =>
        if negb (bool_decide (delta = ∅)) then
          write_event (tk_write_ok t) (FrameDelta (safe_entry <$> delta) now)
            (mkLoop now (tk_written t))
        else if heartbeat_interval_seconds * 1000000 <? tk_beat t - last_event_at st then
          write_event (tk_write_ok t) (FrameHeartbeat now) (mkLoop now (tk_written t))
        else ([], inl (mkLoop now (last_event_at st)))
    end.

Fixpoint stream_loop (st : loop_state) (ticks : list tick)
    : list sse_frame * (loop_state + stream_end) :=
  match ticks with
  | [] => ([], inl st)
  | t :: rest =>
      match stream_step st t with
      | (fs, inr e) => (fs, inr e)
      | (fs, inl st') => let '(fs', r) := stream_loop st' rest in (fs ++ fs', r)%list
      end
  end.

(** [stream_realtime_delta] up to the loop: the snapshot, then the clocks. *)
Definition stream_realtime_delta (db0 : option hot_db) (read0 : Z) (write0 : bool)
    (check0 event0 : Z) (ticks : list tick) : list sse_frame * (loop_state + stream_end) :=
  match read_hot_snapshot db0 ts_code true read0 with
  | Err e => ([], inr (StreamReadFailed e))
  | Ok initial =>
      if write0 then
        let '(fs, r) := stream_loop (mkLoop (seconds check0) event0) ticks in
        (FrameSnapshot (safe_entry <$> initial) :: fs, r)
      else ([], inr StreamDisconnected)
  end.

Lemma stream_step_running st t fs st' :
  stream_step st t = (fs, inl st') → last_check st' = seconds (tk_poll t).
Proof.
  unfold stream_step, write_event. intros H.
  repeat case_match; by simplify_eq.
Qed.

Lemma stream_loop_app st pre post :
  stream_loop st (pre ++ post)%list =
  match stream_loop st pre with
  | (fs, inl st') => let '(fs', r) := stream_loop st' post in (fs ++ fs', r)%list
  | (fs, inr e) => (fs, inr e)
  end.
Proof.
  revert st. induction pre as [|t pre IH]; intros st; simpl.
  - by destruct (stream_loop st post).
  - destruct (stream_step st t) as [fs [st'|e]]; [|done]. rewrite IH.
    destruct (stream_loop st' pre) as [fs1 [st1|e]]; [|done].
    destruct (stream_loop st1 post). by rewrite app_assoc.
Qed.

(** The delta a poll reads: the stock's rows stamped after [since]. *)
Lemma changed_since_lookup db since now m dp :
  read_hot_snapshot_changed_since (Some db) ts_code since now = Ok m →
  m !! dp = match realtime_current db !! (ts_code, dp) with
            | Some r => if since <? rt_updated_at r
                        then match entry_of now None r with Ok e => Some e | Err _ => None end
                        else None
            | None => None
            end.
Proof.
  unfold read_hot_snapshot_changed_since. set (rows := filter _ _). intros H.
  assert (∀ k r, (k, r) ∈ rows ↔ k.1 = ts_code ∧ since < rt_updated_at r ∧ realtime_current db !! k = Some r) as Hrows.
  { intros k r. unfold rows. rewrite list_elem_of_filter, elem_of_map_to_list, Is_true_true,
      andb_true_iff, String.eqb_eq, Z.ltb_lt. tauto. }
  assert (NoDup (map fst rows)) as Hnd.
  { eapply NoDup_map_sub; [apply sublist_filter|apply NoDup_fst_map_to_list]. }
  clearbody rows.
  assert (∀ acc, rfold (λ acc kv, let* e := entry_of now None kv.2 in Ok (<[kv.1.2 := e]> acc)) acc rows = Ok m →
    (∀ r, ((ts_code, dp), r) ∈ rows → ∃ e, entry_of now None r = Ok e ∧ m !! dp = Some e) ∧
    ((∀ r, ((ts_code, dp), r) ∉ rows) → m !! dp = acc !! dp)) as Hgen.
  { assert (∀ k r, (k, r) ∈ rows → k.1 = ts_code) as Hts by (intros k r Hin; by apply Hrows in Hin as (? & _)).
    clear H Hrows. induction rows as [|[[ts d] r0] rows IH]; intros acc; cbn [rfold].
    - intros [= <-]. split; [intros r Hr; by apply elem_of_nil in Hr|done].
    - intros (acc' & (e & He & [= <-])%rbind_ok & H)%rbind_ok. cbn [map] in Hnd.
      apply NoDup_cons in Hnd as [Hk Hnd].
      destruct (IH Hnd (λ k r Hin, Hts k r (proj2 (elem_of_cons _ _ _) (or_intror Hin))) _ H) as [H1 H2].
      split.
      + intros r [[= <- <- <-]|Hin]%elem_of_cons; [|auto]. exists e. split; [done|].
        rewrite H2; [apply lookup_insert_eq|]. intros r2 Hin. apply Hk.
        apply list_elem_of_fmap. by eexists (_, r2).
      + intros Hno. rewrite H2 by (intros r Hin; apply (Hno r); by right).
        apply lookup_insert_ne. intros <-. apply (Hno r0).
        rewrite <- (Hts (ts, d) r0) by apply list_elem_of_here. apply list_elem_of_here. }
  destruct (Hgen ∅ H) as [H1 H2].
  destruct (realtime_current db !! (ts_code, dp)) as [r|] eqn:Hl.
  - destruct (since <? rt_updated_at r) eqn:Hs.
    + apply Z.ltb_lt in Hs. destruct (H1 r) as (e & -> & ->); [by apply Hrows|done].
    + apply Z.ltb_ge in Hs. rewrite H2; [apply lookup_empty|].
      intros r' (_ & ? & ?)%Hrows. assert (r' = r) by congruence. subst. lia.
  - rewrite H2; [apply lookup_empty|]. intros r' (_ & _ & ?)%Hrows. congruence.
Qed.
Lemma stream_loop_within st ticks fs st' :
  stream_loop st ticks = (fs, inl st') →
  Forall (λ t, tk_check t - started_at ≤ max_duration_seconds * 1000000) ticks.
Proof.
  revert st fs. induction ticks as [|t ticks IH]; intros st fs; simpl; [constructor|].
  destruct (stream_step st t) as [fs1 [st1|e]] eqn:Hstep; [|done].
  destruct (stream_loop st1 ticks) as [fs2 r] eqn:Hloop. intros [= <- ->].
  constructor; [|by eapply IH].
  unfold stream_step in Hstep. case_match eqn:Hc; [by destruct (tk_write_ok t)|].
  by apply Z.ltb_ge in Hc.
Qed.

Lemma stream_step_delta st t fs r m at_ dp u :
  stream_step st t = (fs, r) → FrameDelta m at_ ∈ fs → u ≤ last_check st →
  (∀ db row, tk_db t = Some db → realtime_current db !! (ts_code, dp) = Some row → rt_updated_at row ≤ u) →
  m !! dp = None.
Proof.
  intros H Hin Hu Hrow. unfold stream_step in H.
  destruct (_ <? tk_check t - started_at).
  { destruct (tk_write_ok t); injection H as <- <-;
      [apply list_elem_of_singleton in Hin; done|by apply elem_of_nil in Hin]. }
  destruct (read_hot_snapshot_changed_since _ _ _ _) as [delta|e] eqn:Hread;
    [|injection H as <- <-; by apply elem_of_nil in Hin].
  unfold write_event in H.
  assert (fs = [FrameDelta (safe_entry <$> delta) (seconds (tk_poll t))] ∨
    fs = [FrameHeartbeat (seconds (tk_poll t))] ∨ fs = []) as Hfs.
  { destruct (negb _); [destruct (tk_write_ok t)|destruct (Z.ltb _ _); [destruct (tk_write_ok t)|]];
      injection H as <- _; auto. }
  destruct Hfs as [Hfs | [Hfs | Hfs]]; subst fs.
  - apply list_elem_of_singleton in Hin. injection Hin as -> _. rewrite lookup_fmap.
    destruct (tk_db t) as [db|]; [|injection Hread as <-; by rewrite lookup_empty].
    rewrite (changed_since_lookup _ _ _ _ dp Hread).
    destruct (realtime_current db !! (ts_code, dp)) as [row|] eqn:Hl; [|done].
    specialize (Hrow _ _ eq_refl Hl). by rewrite (proj2 (Z.ltb_ge _ _)) by lia.
  - by apply list_elem_of_singleton in Hin.
  - by apply elem_of_nil in Hin.
Qed.

Lemma late_row_loop st ticks dp u m at_ :
  u ≤ last_check st →
  (∀ t, t ∈ ticks → u ≤ seconds (tk_poll t)) →
  (∀ t db row, t ∈ ticks → tk_db t = Some db →
     realtime_current db !! (ts_code, dp) = Some row → rt_updated_at row ≤ u) →
  FrameDelta m at_ ∈ (stream_loop st ticks).1 → m !! dp = None.
Proof.
  revert st. induction ticks as [|t ticks IH]; intros st Hu Hpolls Hrows; simpl; [by intros ?%elem_of_nil|].
  destruct (stream_step st t) as [fs1 r1] eqn:Hstep.
  assert (FrameDelta m at_ ∈ fs1 → m !! dp = None) as Hfirst.
  { intros Hin. eapply stream_step_delta; [exact Hstep|exact Hin|exact Hu|].
    intros db row. apply Hrows, list_elem_of_here. }
  destruct r1 as [st1|e]; [|done]. destruct (stream_loop st1 ticks) as [fs2 r2] eqn:Hloop. simpl.
  intros [Hin|Hin]%elem_of_app; [auto|].
  apply (IH st1); [|intros; apply Hpolls; by right|intros t' db row Ht'; apply Hrows; by right|by rewrite Hloop].
  rewrite (stream_step_running _ _ _ _ Hstep). apply Hpolls, list_elem_of_here.
Qed.

(** A poll whose read succeeds and has something to say. *)
Lemma stream_step_fresh st t db row dp m :
  tk_check t - started_at ≤ max_duration_seconds * 1000000 → tk_write_ok t = true →
  tk_db t = Some db → realtime_current db !! (ts_code, dp) = Some row →
  last_check st < rt_updated_at row →
  read_hot_snapshot_changed_since (Some db) ts_code (last_check st) (tk_read t) = Ok m →
  stream_step st t = ([FrameDelta (safe_entry <$> m) (seconds (tk_poll t))],
    inl (mkLoop (seconds (tk_poll t)) (tk_written t))) ∧
  ∃ e, entry_of (tk_read t) None row = Ok e ∧ (safe_entry <$> m) !! dp = Some (safe_entry e).
Proof.
  intros Hc Hw Hdb Hl Hlt Hread. pose proof (changed_since_lookup _ _ _ _ dp Hread) as Hm.
  rewrite Hl, (proj2 (Z.ltb_lt _ _) Hlt) in Hm.
  assert (∃ e, entry_of (tk_read t) None row = Ok e) as [e He].
  { destruct (entry_of (tk_read t) None row) as [e|] eqn:He; [eauto|exfalso].
    unfold read_hot_snapshot_changed_since in Hread. revert Hread.
    set (f := λ acc kv, _). set (rows := filter _ _).
    assert (((ts_code, dp), row) ∈ rows) as Hin.
    { unfold rows. rewrite list_elem_of_filter, elem_of_map_to_list, Is_true_true, andb_true_iff,
        String.eqb_eq, Z.ltb_lt. done. }
    clearbody rows. intros Hread.
    assert (∀ acc, rfold f acc rows ≠ Ok m) as Hno; [|by eapply Hno].
    clear Hread. induction rows as [|kv rows IH]; [by apply elem_of_nil in Hin|].
    intros acc Hr. cbn [rfold] in Hr. apply rbind_ok in Hr as (acc' & Hacc & Hr).
    apply elem_of_cons in Hin as [<-|Hin]; [|by eapply IH].
    unfold f in Hacc. simpl in Hacc. by rewrite He in Hacc. }
  rewrite He in Hm. split.
  - unfold stream_step. rewrite (proj2 (Z.ltb_ge _ _) Hc), Hdb, Hread.
    rewrite bool_decide_eq_false_2; [simpl; by rewrite Hw|].
    intros ->. by rewrite lookup_empty in Hm.
  - exists e. split; [done|]. by rewrite lookup_fmap, Hm.
Qed.
End stream.

(** A stream always ends: when the clock advances by at least the poll
    interval per iteration, no more iterations than fit the maximum duration
    leave it running, whatever the database and the client do. *)
Theorem stream_terminates {J : JsonText} key_text ts max hb started poll st ticks fs r :
  stream_loop key_text ts max hb started st ticks = (fs, r) →
  (∀ i t, ticks !! i = Some t → started + Z.of_nat i * poll * 1000000 ≤ tk_check t) →
  0 < poll → 0 ≤ max → max < (Z.of_nat (length ticks) - 1) * poll →
  ∃ e, r = inr e.
Proof.
  intros Hloop Hclock Hpoll Hmax Hlen. destruct r as [st'|e]; [exfalso|eauto].
  apply stream_loop_within in Hloop. rewrite Forall_forall in Hloop.
  destruct (last ticks) as [t|] eqn:Hlast.
  - pose proof Hlast as Hin. apply last_Some_elem_of in Hin. specialize (Hloop _ Hin).
    rewrite last_lookup in Hlast. specialize (Hclock _ _ Hlast).
    assert (0 < length ticks)%nat by (destruct ticks; [by apply elem_of_nil in Hin|simpl; lia]).
    replace (Z.of_nat (Nat.pred (length ticks))) with (Z.of_nat (length ticks) - 1) in Hclock by lia.
    nia.
  - apply last_None in Hlast. subst. simpl in Hlen. nia.
Qed.

(** A change is streamed by the next poll that can see it: when the stream
    is still running, a poll whose database holds a row of the stock stamped
    after the second of the previous poll delivers that row's value. *)
Theorem fresh_row_is_streamed {J : JsonText} key_text ts max hb started st pre t post fs st1 db row dp m :
  stream_loop key_text ts max hb started st pre = (fs, inl st1) →
  tk_check t - started ≤ max * 1000000 → tk_write_ok t = true →
  tk_db t = Some db → realtime_current db !! (ts, dp) = Some row →
  last_check st1 < rt_updated_at row →
  read_hot_snapshot_changed_since (Some db) ts (last_check st1) (tk_read t) = Ok m →
  ∃ delta e fs' r, stream_loop key_text ts max hb started st (pre ++ t :: post)%list =
      ((fs ++ FrameDelta delta (seconds (tk_poll t)) :: fs')%list, r) ∧
    entry_of (tk_read t) None row = Ok e ∧ delta !! dp = Some (safe_entry key_text e).
Proof.
  intros Hpre Hc Hw Hdb Hl Hlt Hread.
  destruct (stream_step_fresh key_text ts max hb started st1 t db row dp m Hc Hw Hdb Hl Hlt Hread)
    as (Hstep & e & He & Hm).
  rewrite stream_loop_app, Hpre. cbn [stream_loop]. rewrite Hstep.
  destruct (stream_loop _ _ _ _ _ _ post) as [fs' r]. simpl.
  exists (safe_entry key_text <$> m), e, fs', r. done.
Qed.

(** A change stamped no later than the second of the last poll is never
    streamed: a row that becomes visible after that poll, with an update time
    the poll has already passed, appears in no delta of the rest of the
    stream, however long it stays in the database. *)
Theorem late_row_is_never_streamed {J : JsonText} key_text ts max hb started st ticks dp u m at_ :
  u ≤ last_check st →
  (∀ t, t ∈ ticks → u ≤ seconds (tk_poll t)) →
  (∀ t db row, t ∈ ticks → tk_db t = Some db →
     realtime_current db !! (ts, dp) = Some row → rt_updated_at row ≤ u) →
  FrameDelta m at_ ∈ (stream_loop key_text ts max hb started st ticks).1 → m !! dp = None.
Proof. apply late_row_loop. Qed.
End Stream.

(** ** Concrete runs *)
Module StreamExamples.
Import JsonSafe Stream StorageExamples.

Definition ex_key (v : pyval) : string := "?".
Definition ex_tick (s : Z) (db : option hot_db) : tick :=
  mkTick (s * 1000000) ((s + 5) * 1000000) db (s + 5) ((s + 5) * 1000000) ((s + 5) * 1000000) true.
Definition ex_state : loop_state := mkLoop 100 100000000.

Lemma stream_terminates_witness :
  ∃ e, (stream_loop ex_key "600000.SH" 9 30 100000000 ex_state
    [ex_tick 100 None; ex_tick 105 None; ex_tick 110 None]).2 = inr e.
Proof.
  eapply (stream_terminates ex_key "600000.SH" 9 30 100000000 5 ex_state
    [ex_tick 100 None; ex_tick 105 None; ex_tick 110 None]); [apply surjective_pairing| |lia|lia|simpl; lia].
  intros i t H. repeat (destruct i as [|i]; simpl in H; [injection H as <-; simpl; lia|]). done.
Defined.

Definition ex_row (at_ : Z) : RealtimeRow := mkRealtime "true" "Known" None "mock" at_.
Definition ex_db (at_ : Z) : hot_db := mkHotDb {[("600000.SH", "L1.a") := ex_row at_]} ∅ None.
Definition ex_entry : SnapshotEntry := mkEntry (PBool true) "Known" None "mock" 107 3 None.

Lemma fresh_row_is_streamed_witness :
  ∃ delta e fs' r, stream_loop ex_key "600000.SH" 60 30 100000000 ex_state
      ([ex_tick 100 None] ++ ex_tick 105 (Some (ex_db 107)) :: [])%list =
      (([] ++ FrameDelta delta 110 :: fs')%list, r) ∧
    entry_of 110 None (ex_row 107) = Ok e ∧ delta !! "L1.a" = Some (safe_entry ex_key e).
Proof.
  apply (fresh_row_is_streamed ex_key "600000.SH" 60 30 100000000 ex_state [ex_tick 100 None]
    (ex_tick 105 (Some (ex_db 107))) [] [] (mkLoop 105 100000000) (ex_db 107) (ex_row 107) "L1.a"
    {["L1.a" := ex_entry]}); try reflexivity; vm_compute; discriminate.
Defined.

(** A row stamped 98 becomes visible after the poll of second 100, together
    with one stamped 102: the delta has only the second. *)
Definition ex_late_db : hot_db :=
  mkHotDb {[("600000.SH", "L1.a") := ex_row 98; ("600000.SH", "L1.b") := ex_row 102]} ∅ None.

Definition ex_late_entry : SnapshotEntry := mkEntry (PBool true) "Known" None "mock" 102 3 None.

Lemma late_row_is_never_streamed_witness :
  FrameDelta {["L1.b" := ex_late_entry]} 105 ∈ (stream_loop ex_key "600000.SH" 60 30 100000000 ex_state
    [ex_tick 100 (Some ex_late_db); ex_tick 105 (Some ex_late_db)]).1 ∧
  ({["L1.b" := ex_late_entry]} : gmap string SnapshotEntry) !! "L1.a" = None.
Proof.
  assert (FrameDelta {["L1.b" := ex_late_entry]} 105 ∈ (stream_loop ex_key "600000.SH" 60 30 100000000 ex_state
    [ex_tick 100 (Some ex_late_db); ex_tick 105 (Some ex_late_db)]).1) as Hin
    by (vm_compute; apply list_elem_of_here).
  split; [exact Hin|].
  apply (late_row_is_never_streamed ex_key "600000.SH" 60 30 100000000 ex_state
    [ex_tick 100 (Some ex_late_db); ex_tick 105 (Some ex_late_db)] "L1.a" 98 _ 105); [| | |exact Hin].
  - vm_compute. discriminate.
  - intros t Ht. apply list_elem_of_In in Ht. simpl in Ht.
    destruct Ht as [<- | [<- | []]]; vm_compute; discriminate.
  - intros t db row Ht Hdb Hrow. apply list_elem_of_In in Ht. simpl in Ht.
    destruct Ht as [<- | [<- | []]]; injection Hdb as <-; vm_compute in Hrow;
      injection Hrow as <-; vm_compute; discriminate.
Defined.
End StreamExamples.
