(* ===== verification/History.v ===== *)
(** * History: the minute archive of [mvp20/history.py]

    The archive is two directories of Parquet files: one file per minute of
    collection and one per compacted day. DuckDB is the class [DuckDB], which
    states what SQL promises of the two statements the module runs; the order
    in which a scan meets rows is left open. *)
From Stdlib Require Import String Ascii ZArith List Sorting.Sorted SpecFloat.
From stdpp Require Import base gmap strings list sorting.
From S2P Require Import Prelude PyLib Storage.
Local Open Scope string_scope.
Local Open Scope Z_scope.

Module HistoryModel.

(** A row of a Parquet file: the seven columns both kinds of file have. *)
Record HistoryRow := mkRow {
  hr_ts_code : string;
  hr_dp_id : string;
  hr_value_json : string;
  hr_data_status : string;
  hr_confidence : option spec_float;
  hr_source : string;
  hr_updated_at : Z;
}.

(** [history_dir]: the files of [minute/] and [daily_compact/] by name. *)
Record history_dir := mkHistory {
  minute : gmap string (list HistoryRow);
  daily_compact : gmap string (list HistoryRow);
}.

Inductive history_error := EmptyBatch | UnencodableValue | UndecodableValue.

(** What a query returns for one row. *)
Record point := mkPoint {
  pt_updated_at : Z;
  pt_value : pyval;
  pt_data_status : string;
  pt_confidence : option spec_float;
  pt_source : string;
}.

(** All rows below a directory. *)
Definition rows_in (files : gmap string (list HistoryRow)) : list HistoryRow :=
  concat (map snd (map_to_list files)).
Definition all_rows (h : history_dir) : list HistoryRow :=
  (rows_in (minute h) ++ rows_in (daily_compact h))%list.
End HistoryModel.

(** DuckDB: a scan of files gives their rows, in an order of its choice, and
    ORDER BY sorts what it is given. *)
Class DuckDB := {
  duck_scan : list HistoryModel.HistoryRow → list HistoryModel.HistoryRow;
  duck_scan_perm l : duck_scan l ≡ₚ l;
  duck_order_by : list HistoryModel.HistoryRow → list HistoryModel.HistoryRow;
  duck_order_by_perm l : duck_order_by l ≡ₚ l;
  duck_order_by_sorted l :
    StronglySorted (λ a b, HistoryModel.hr_updated_at a ≤ HistoryModel.hr_updated_at b) (duck_order_by l);
}.

Module HistoryOps.
Import HistoryModel.

(** The WHERE clause of [query_history]. *)
Definition in_range (ts dp : string) (since until : Z) (r : HistoryRow) : Prop :=
  hr_ts_code r = ts ∧ hr_dp_id r = dp ∧ since ≤ hr_updated_at r ∧ hr_updated_at r ≤ until.
#[export] Instance in_range_dec ts dp since until r : Decision (in_range ts dp since until r).
Proof. apply _. Defined.

Section ops.
Context {J : JsonText} {D : DuckDB}.

(** A row of [batch]: [(ts_code, dp_id, value, data_status, confidence,
    source, updated_at)]. *)
Abbreviation batch_item := (string * string * pyval * string * option spec_float * string * Z)%type.

Definition row_of_item (i : batch_item) : result history_error HistoryRow :=
  let '(ts, dp, v, status, conf, src, upd) := i in
  let* text := match v with
               | PStr s => Ok s
               | _ => match json_dumps v with Some s => Ok s | None => Err UnencodableValue end
               end in
  Ok (mkRow ts dp text status conf src upd).

Definition minute_file (minute_key : string) : string :=
  "partition_minute=" ++ minute_key ++ ".parquet".

(** [append_minute_parquet] in the minute [minute_key] ([%Y%m%d_%H%M]). *)
Definition append_minute_parquet (h : history_dir) (minute_key : string) (batch : list batch_item)
    : result history_error (string * history_dir) :=
  raise_if match batch with [] => true | _ => false end with EmptyBatch;
  let out_path := minute_file minute_key in
  let* table := rmap_list row_of_item batch in
  let table' := match minute h !! out_path with
                | Some existing => (existing ++ table)%list
                | None => table
                end in
  Ok (out_path, mkHistory (<[out_path := table']> (minute h)) (daily_compact h)).

(** The SELECT of [query_history] over whichever directories have files. *)
Definition select_rows (h : history_dir) (ts_code dp_id : string) (since until : Z) (limit : nat)
    : list HistoryRow :=
  take limit (duck_order_by (filter (in_range ts_code dp_id since until)
    (duck_scan (rows_in (minute h)) ++ duck_scan (rows_in (daily_compact h)))%list)).

Definition point_of (r : HistoryRow) : result history_error point :=
  let* v := if is_empty (hr_value_json r) then Ok PNone else
            match json_loads (hr_value_json r) with Some v => Ok v | None => Err UndecodableValue end in
  Ok (mkPoint (hr_updated_at r) v (hr_data_status r) (hr_confidence r) (hr_source r)).

Definition query_history (h : history_dir) (ts_code dp_id : string) (since_unix : Z)
    (until_unix : option Z) (limit : nat) : result history_error (list point) :=
  let until := default 2000000000 until_unix in
  rmap_list point_of (select_rows h ts_code dp_id since_unix until limit).

(** [glob(f"partition_minute={date}_*.parquet")] for a date of digits. *)
Definition matches_date (date_yyyymmdd name : string) : bool :=
  let prefix := "partition_minute=" ++ date_yyyymmdd ++ "_" in
  startswith prefix name &&
  endswith ".parquet" (String.substring (String.length prefix) (String.length name) name).

Definition iso_date (d : string) : string :=
  String.substring 0 4 d ++ "-" ++ String.substring 4 2 d ++ "-" ++
  String.substring 6 (String.length d) d.
Definition daily_file (d : string) : string := "date=" ++ iso_date d ++ ".parquet".

(** The minute files of a date, and the others. *)
Definition date_files (h : history_dir) (d : string) : gmap string (list HistoryRow) :=
  filter (λ kv, matches_date d kv.1 = true) (minute h).
Definition other_files (h : history_dir) (d : string) : gmap string (list HistoryRow) :=
  filter (λ kv, ¬ matches_date d kv.1 = true) (minute h).

Definition compact_date (h : history_dir) (date_yyyymmdd : string) (delete_source : bool)
    : option string * history_dir :=
  let sources := date_files h date_yyyymmdd in
  if bool_decide (sources = ∅) then (None, h)
  else
    let out_path := daily_file date_yyyymmdd in
    (Some out_path,
     mkHistory (if delete_source then other_files h date_yyyymmdd else minute h)
       (<[out_path := duck_scan (rows_in sources)]> (daily_compact h))).

(** [datetime.now(utc) - timedelta(days=1)], by its date. *)
Definition yesterday (d : date) : date :=
  if 1 <? day d then mkDate (year d) (month d) (day d - 1)
  else if 1 <? month d then
    mkDate (year d) (month d - 1) (days_in_month (year d) (month d - 1))
  else mkDate (year d - 1) 12 31.
Definition compact_yesterday (h : history_dir) (today : date) : option string * history_dir :=
  compact_date h (date_text (yesterday today)) true.

(** ** Rows of directories *)

Lemma rows_in_insert files k rows :
  files !! k = None → rows_in (<[k := rows]> files) ≡ₚ (rows ++ rows_in files)%list.
Proof. intros H. unfold rows_in. by rewrite map_to_list_insert by done. Qed.

Lemma rows_in_overwrite files k old rows :
  files !! k = Some old → rows_in (<[k := (old ++ rows)%list]> files) ≡ₚ (rows ++ rows_in files)%list.
Proof.
  intros H. rewrite <- (insert_delete_id files k old H) at 2.
  rewrite <- insert_delete_eq, !rows_in_insert by apply lookup_delete_eq.
  by rewrite (Permutation_app_comm old rows), app_assoc.
Qed.

Lemma rows_in_union f1 f2 : f1 ##ₘ f2 → rows_in (f1 ∪ f2) ≡ₚ (rows_in f1 ++ rows_in f2)%list.
Proof.
  induction f1 as [|k rows f1 Hk IH] using map_ind; intros Hd.
  - by rewrite map_empty_union.
  - apply map_disjoint_insert_l in Hd as [Hk2 Hd].
    rewrite <- insert_union_l, !rows_in_insert, (IH Hd), app_assoc; [done|done|].
    by apply lookup_union_None.
Qed.

Lemma rows_in_split h d :
  rows_in (minute h) ≡ₚ (rows_in (date_files h d) ++ rows_in (other_files h d))%list.
Proof.
  unfold date_files, other_files.
  rewrite <- (map_filter_union_complement (λ kv, matches_date d kv.1 = true) (minute h)) at 1.
  apply rows_in_union, map_disjoint_filter_complement.
Qed.

(** ** Queries see the rows, not the files *)

Lemma scan_all h :
  (duck_scan (rows_in (minute h)) ++ duck_scan (rows_in (daily_compact h)))%list ≡ₚ all_rows h.
Proof. unfold all_rows. by rewrite !duck_scan_perm. Qed.

Lemma select_unlimited h ts dp since until limit :
  (length (filter (in_range ts dp since until) (all_rows h)) ≤ limit)%nat →
  select_rows h ts dp since until limit ≡ₚ filter (in_range ts dp since until) (all_rows h).
Proof.
  intros Hl. unfold select_rows. rewrite take_ge.
  - rewrite duck_order_by_perm. by rewrite scan_all.
  - rewrite duck_order_by_perm, scan_all. exact Hl.
Qed.

Lemma points_perm l1 l2 ps :
  l1 ≡ₚ l2 → rmap_list point_of l1 = Ok ps → ∃ ps', rmap_list point_of l2 = Ok ps' ∧ ps' ≡ₚ ps.
Proof.
  intros Hp. revert ps. induction Hp as [|x l1 l2 _ IH|x y l|l1 l2 l3 _ IH1 _ IH2]; intros ps H.
  - eauto.
  - simpl in *. apply rbind_ok in H as (p & Hx & (ps0 & Hl & [= <-])%rbind_ok).
    destruct (IH _ Hl) as (ps' & E & Hps). exists (p :: ps'). rewrite Hx. simpl. rewrite E.
    split; [done|]. by rewrite Hps.
  - simpl in *. apply rbind_ok in H as (p & Hx & (ps0 & (q & Hy & (ps1 & Hl & [= <-])%rbind_ok)%rbind_ok & [= <-])%rbind_ok).
    exists (q :: p :: ps1). rewrite Hy. simpl. rewrite Hx. simpl. rewrite Hl. split; [done|apply perm_swap].
  - destruct (IH1 _ H) as (ps1 & E1 & Hp1). destruct (IH2 _ E1) as (ps2 & E2 & Hp2).
    exists ps2. split; [done|]. by rewrite Hp2.
Qed.
End ops.
End HistoryOps.

Module HistoryTheorems.
Import HistoryModel HistoryOps.

Lemma compacted_rows {D : DuckDB} h d ds old :
  date_files h d ≠ ∅ → default [] (daily_compact h !! daily_file d) = old →
  (rows_in (daily_compact (compact_date h d ds).2) ++ old)%list ≡ₚ
  (rows_in (date_files h d) ++ rows_in (daily_compact h))%list.
Proof.
  intros Hne Hold. unfold compact_date. rewrite bool_decide_eq_false_2 by done. simpl.
  destruct (daily_compact h !! daily_file d) as [rows|] eqn:Hl; simpl in Hold; subst old.
  - rewrite <- (insert_delete_id (daily_compact h) (daily_file d) rows Hl) at 2.
    rewrite <- insert_delete_eq, !rows_in_insert by apply lookup_delete_eq.
    rewrite duck_scan_perm, <- app_assoc. f_equiv. apply Permutation_app_comm.
  - rewrite app_nil_r, rows_in_insert by done. by rewrite duck_scan_perm.
Qed.

Lemma compact_deleting {D : DuckDB} h d old :
  date_files h d ≠ ∅ → default [] (daily_compact h !! daily_file d) = old →
  all_rows h ≡ₚ (old ++ all_rows (compact_date h d true).2)%list.
Proof.
  intros Hne Hold. pose proof (compacted_rows h d true old Hne Hold) as Hrows.
  unfold all_rows. rewrite (rows_in_split h d).
  transitivity (rows_in (other_files h d) ++ (rows_in (daily_compact (compact_date h d true).2) ++ old))%list.
  - rewrite Hrows, app_assoc. f_equiv. apply Permutation_app_comm.
  - rewrite (app_assoc (rows_in (other_files h d))), Permutation_app_comm. f_equiv. f_equiv.
    unfold compact_date. by rewrite bool_decide_eq_false_2.
Qed.

Lemma compact_nothing {D : DuckDB} h d ds : date_files h d = ∅ → compact_date h d ds = (None, h).
Proof. intros H. unfold compact_date. by rewrite bool_decide_eq_true_2. Qed.

(** Compaction changes where rows are kept, not what the archive answers:
    compacting a date that has no daily file yet keeps every row exactly once
    and leaves none of the date's minute files, and every query whose limit
    covers its matches returns the same points. *)
Theorem compaction_preserves_history {J : JsonText} {D : DuckDB} h d :
  daily_compact h !! daily_file d = None →
  let h' := (compact_date h d true).2 in
  all_rows h' ≡ₚ all_rows h ∧
  (∀ name, matches_date d name = true → minute h' !! name = None) ∧
  ∀ ts dp since until limit ps,
    (length (filter (in_range ts dp since (default 2000000000%Z until)) (all_rows h)) ≤ limit)%nat →
    query_history h ts dp since until limit = Ok ps →
    ∃ ps', query_history h' ts dp since until limit = Ok ps' ∧ ps' ≡ₚ ps.
Proof.
  intros Hnone h'. assert (all_rows h' ≡ₚ all_rows h) as Hperm.
  { unfold h'. destruct (decide (date_files h d = ∅)) as [E|Hne]; [by rewrite compact_nothing|].
    symmetry. rewrite (compact_deleting h d []); [done|done|by rewrite Hnone]. }
  split_and!; [done| |].
  - intros name Hm. unfold h'. destruct (decide (date_files h d = ∅)) as [E|Hne].
    + rewrite compact_nothing by done. simpl. destruct (minute h !! name) as [rows|] eqn:Hl; [exfalso|done].
      assert (date_files h d !! name = Some rows) as Hf by by apply map_lookup_filter_Some.
      by rewrite E, lookup_empty in Hf.
    + unfold compact_date. rewrite bool_decide_eq_false_2 by done. simpl.
      apply map_lookup_filter_None. right. intros rows _ Hn. by apply Hn.
  - intros ts dp since until limit ps Hlimit Hq. unfold query_history in *.
    eapply points_perm; [|exact Hq].
    rewrite !select_unlimited; [by rewrite Hperm|by rewrite Hperm|done].
Qed.

(** Compacting a date again loses data: when the date already has a daily
    file and new minute files, the compaction overwrites it, and the archive
    loses exactly the rows compacted before. *)
Theorem recompaction_loses_rows {D : DuckDB} h d old :
  daily_compact h !! daily_file d = Some old → date_files h d ≠ ∅ →
  all_rows h ≡ₚ (old ++ all_rows (compact_date h d true).2)%list.
Proof. intros Hold Hne. apply compact_deleting; [done|by rewrite Hold]. Qed.

(** With [delete_source=False] every row of the date is in the archive
    twice, and a query that is not cut by its limit selects each of them
    twice: nothing removes duplicates. *)
Theorem kept_sources_are_duplicated {J : JsonText} {D : DuckDB} h d ts dp since until limit :
  daily_compact h !! daily_file d = None →
  let h' := (compact_date h d false).2 in
  let matching := filter (in_range ts dp since until) in
  (length (matching (all_rows h')) ≤ limit)%nat →
  select_rows h' ts dp since until limit ≡ₚ
    (matching (rows_in (date_files h d)) ++ matching (all_rows h))%list.
Proof.
  intros Hnone h' matching Hl. rewrite select_unlimited by exact Hl.
  change (matching (all_rows h') ≡ₚ (matching (rows_in (date_files h d)) ++ matching (all_rows h))%list).
  unfold matching. rewrite <- filter_app. apply filter_Permutation. unfold h'.
  destruct (decide (date_files h d = ∅)) as [E|Hne]; [by rewrite E, compact_nothing|].
  pose proof (compacted_rows h d false [] Hne) as Hrows. rewrite Hnone in Hrows.
  specialize (Hrows eq_refl). rewrite app_nil_r in Hrows. unfold all_rows. rewrite Hrows.
  unfold compact_date. rewrite bool_decide_eq_false_2 by done. cbn [snd minute].
  rewrite app_assoc, (Permutation_app_comm (rows_in (minute h))), <- app_assoc. done.
Qed.

Lemma points_sorted {J : JsonText} l ps :
  rmap_list point_of l = Ok ps → map hr_updated_at l = map pt_updated_at ps.
Proof.
  revert ps. induction l as [|r l IH]; intros ps H; simpl in H; [by injection H as <-|].
  apply rbind_ok in H as (p & Hp & (ps' & Hl & [= <-])%rbind_ok). simpl. rewrite (IH _ Hl). f_equal.
  unfold point_of in Hp. by apply rbind_ok in Hp as (v & _ & [= <-]).
Qed.

Lemma sorted_by_map {A B} (f : A → Z) (g : B → Z) l l' :
  map f l = map g l' → StronglySorted (λ a b, f a ≤ f b) l → StronglySorted (λ a b, g a ≤ g b) l'.
Proof.
  intros E H. revert l' E. induction H as [|x l Hl IH Hx]; intros [|y l'] E; try done; [constructor|].
  injection E as Exy E. constructor; [by apply IH|].
  apply (Forall_map g (λ z, g y ≤ z)). rewrite <- E, <- Exy. by apply Forall_map.
Qed.

Lemma sorted_app_split {A} (R : A → A → Prop) l1 l2 :
  StronglySorted R (l1 ++ l2)%list →
  StronglySorted R l1 ∧ ∀ x y, x ∈ l1 → y ∈ l2 → R x y.
Proof.
  induction l1 as [|x l1 IH]; simpl; [split; [constructor|by intros ?? ?%elem_of_nil]|].
  intros H. apply StronglySorted_inv in H as [H Hx]. destruct (IH H) as [H1 H2].
  rewrite Forall_app in Hx. destruct Hx as [Hx1 Hx2]. split; [by constructor|].
  intros a b [->|Ha]%elem_of_cons Hb; [|by apply H2]. rewrite Forall_forall in Hx2. by apply Hx2.
Qed.

(** A query returns the earliest matches in time order: the rows of the
    pair in the range, both ends included, at most [limit] of them, and every
    match it leaves out is no earlier than the ones it returns. *)
Theorem query_history_exact {J : JsonText} {D : DuckDB} h ts dp since until limit ps :
  query_history h ts dp since until limit = Ok ps →
  StronglySorted (λ a b, pt_updated_at a ≤ pt_updated_at b) ps ∧
  ∃ kept dropped,
    filter (in_range ts dp since (default 2000000000%Z until)) (all_rows h) ≡ₚ (kept ++ dropped)%list ∧
    rmap_list point_of kept = Ok ps ∧
    length ps = Nat.min limit (length (kept ++ dropped)%list) ∧
    ∀ k r, k ∈ kept → r ∈ dropped → hr_updated_at k ≤ hr_updated_at r.
Proof.
  unfold query_history, select_rows. set (l := duck_order_by _). intros H.
  pose proof (duck_order_by_sorted (filter (in_range ts dp since (default 2000000000%Z until))
    (duck_scan (rows_in (minute h)) ++ duck_scan (rows_in (daily_compact h)))%list)) as Hsorted.
  fold l in Hsorted. rewrite <- (take_drop limit l) in Hsorted.
  apply sorted_app_split in Hsorted as [Hs Hcut]. split.
  - eapply sorted_by_map; [apply (points_sorted _ _ H)|exact Hs].
  - exists (take limit l), (drop limit l). split_and!; [|done| |done].
    + rewrite take_drop. unfold l. rewrite duck_order_by_perm. apply filter_Permutation.
      symmetry. apply scan_all.
    + rewrite (rmap_list_length _ _ _ H), take_drop, length_take. done.
Qed.

Lemma append_rows {J : JsonText} h k batch path h' :
  append_minute_parquet h k batch = Ok (path, h') →
  ∃ rows, rmap_list row_of_item batch = Ok rows ∧ all_rows h' ≡ₚ (rows ++ all_rows h)%list.
Proof.
  unfold append_minute_parquet. intros (u & _ & (rows & Hrows & [= <- <-])%rbind_ok)%rbind_ok.
  exists rows. split; [done|]. unfold all_rows. simpl. rewrite app_assoc. f_equiv.
  destruct (minute h !! minute_file k) as [old|] eqn:Hl.
  - by apply rows_in_overwrite.
  - by apply rows_in_insert.
Qed.

(** What is appended can be queried: after an append, a query that covers
    an item's time, with room for every match, returns a point with exactly
    the item's JSON value, status, confidence and source. *)
Theorem append_then_query {J : JsonText} {D : DuckDB} h k batch path h' ts dp v st c src upd since until limit ps :
  json_loads "" = None →
  append_minute_parquet h k batch = Ok (path, h') →
  (ts, dp, v, st, c, src, upd) ∈ batch → json_plain v = true → is_str v = false →
  since ≤ upd ≤ default 2000000000 until →
  (length (filter (in_range ts dp since (default 2000000000%Z until)) (all_rows h')) ≤ limit)%nat →
  query_history h' ts dp since until limit = Ok ps →
  mkPoint upd v st c src ∈ ps.
Proof.
  intros Hempty Happ Hin Hplain Hstr Hrange Hl Hq.
  apply append_rows in Happ as (rows & Hrows & Hall).
  destruct (rmap_list_elem _ _ _ _ Hrows Hin) as (r & Hr & Hrow).
  assert (∃ text, json_dumps v = Some text ∧ r = mkRow ts dp text st c src upd) as (text & Htext & ->).
  { unfold row_of_item in Hrow. destruct v; try discriminate Hstr; cbv iota in Hrow;
      apply rbind_ok in Hrow as (text & Ht & [= <-]); exists text;
      destruct (json_dumps _); by simplify_eq. }
  assert (mkRow ts dp text st c src upd ∈ select_rows h' ts dp since (default 2000000000 until) limit) as Hsel.
  { rewrite select_unlimited by done. apply list_elem_of_filter. split; [repeat split; simpl; lia|].
    rewrite Hall. apply elem_of_app. by left. }
  destruct (rmap_list_elem _ _ _ _ Hq Hsel) as (p & Hp & Hpoint).
  pose proof (json_loads_dumps _ _ Hplain Htext) as Hload. unfold point_of in Hpoint. simpl in Hpoint.
  destruct text as [|ch text]; [congruence|]. cbn [is_empty] in Hpoint.
  rewrite Hload in Hpoint. by injection Hpoint as <-.
Qed.
End HistoryTheorems.

(** ** Concrete runs *)
Module HistoryExamples.
Import HistoryModel HistoryOps HistoryTheorems StorageExamples.

(** A database that reads files in name order and sorts stably. *)
#[export] Instance stable_duck : DuckDB.
Proof.
  refine {| duck_scan l := l; duck_order_by := py_sort (λ a b, hr_updated_at a <=? hr_updated_at b) |}.
  - done.
  - apply py_sort_perm.
  - apply py_sort_by_key.
Defined.

Definition ex_hrow (text : string) (at_ : Z) : HistoryRow :=
  mkRow "600000.SH" "L1.a" text "Known" None "mock" at_.
Definition ex_archive : history_dir := mkHistory
  {["partition_minute=20260101_1200.parquet" := [ex_hrow "true" 20; ex_hrow "false" 10];
    "partition_minute=20260102_0000.parquet" := [ex_hrow "null" 30]]} ∅.
Definition ex_compacted : history_dir := Eval vm_compute in (compact_date ex_archive "20260101" true).2.

Example ex_daily : daily_compact ex_compacted !! "date=2026-01-01.parquet" =
  Some [ex_hrow "true" 20; ex_hrow "false" 10].
Proof. vm_compute. reflexivity. Qed.

Definition ex_points : list point :=
  [mkPoint 10 (PBool false) "Known" None "mock"; mkPoint 20 (PBool true) "Known" None "mock";
   mkPoint 30 PNone "Known" None "mock"].

Lemma ex_query : query_history ex_archive "600000.SH" "L1.a" 0 None 5 = Ok ex_points.
Proof. vm_compute. reflexivity. Qed.

Lemma compaction_preserves_history_witness :
  ∃ ps, query_history (compact_date ex_archive "20260101" true).2 "600000.SH" "L1.a" 0 None 5 = Ok ps ∧
    ps ≡ₚ ex_points.
Proof.
  refine (proj2 (proj2 (compaction_preserves_history ex_archive "20260101" eq_refl))
    "600000.SH" "L1.a" 0 None 5%nat ex_points _ ex_query).
  vm_compute. lia.
Defined.

(** A minute file that arrives after its date was compacted. *)
Definition ex_late_minute : history_dir :=
  mkHistory {["partition_minute=20260101_1201.parquet" := [ex_hrow "null" 80]]}
    (daily_compact ex_compacted).

Lemma recompaction_loses_rows_witness :
  all_rows ex_late_minute ≡ₚ
    ([ex_hrow "true" 20; ex_hrow "false" 10] ++ all_rows (compact_date ex_late_minute "20260101" true).2)%list ∧
  all_rows (compact_date ex_late_minute "20260101" true).2 = [ex_hrow "null" 80].
Proof.
  split; [|vm_compute; reflexivity].
  refine (recompaction_loses_rows ex_late_minute "20260101" [ex_hrow "true" 20; ex_hrow "false" 10] _ _);
    [vm_compute; reflexivity|].
  apply (bool_decide_unpack _). vm_compute. exact I.
Defined.

Lemma kept_sources_are_duplicated_witness :
  select_rows (compact_date ex_archive "20260101" false).2 "600000.SH" "L1.a" 0 15 9 ≡ₚ
    [ex_hrow "false" 10; ex_hrow "false" 10].
Proof.
  refine (kept_sources_are_duplicated ex_archive "20260101" "600000.SH" "L1.a" 0 15 9 eq_refl _).
  vm_compute. lia.
Defined.

Lemma query_history_exact_witness :
  StronglySorted (λ a b, pt_updated_at a ≤ pt_updated_at b) ex_points ∧
  ∃ kept dropped,
    filter (in_range "600000.SH" "L1.a" 0 2000000000) (all_rows ex_archive) ≡ₚ (kept ++ dropped)%list ∧
    rmap_list point_of kept = Ok ex_points ∧
    length ex_points = Nat.min 5 (length (kept ++ dropped)%list) ∧
    ∀ k r, k ∈ kept → r ∈ dropped → hr_updated_at k ≤ hr_updated_at r.
Proof. exact (query_history_exact ex_archive "600000.SH" "L1.a" 0 None 5 ex_points ex_query). Defined.

Definition ex_appended : history_dir := mkHistory
  (<["partition_minute=20260102_0000.parquet" := [ex_hrow "null" 30; ex_hrow "[]" 40]]> (minute ex_archive)) ∅.

Lemma append_then_query_witness :
  mkPoint 40 (PList []) "Known" None "mock" ∈
    [mkPoint 30 PNone "Known" None "mock"; mkPoint 40 (PList []) "Known" None "mock"].
Proof.
  apply (append_then_query ex_archive "20260102_0000"
    [("600000.SH", "L1.a", PList [], "Known", None, "mock", 40)]
    "partition_minute=20260102_0000.parquet" ex_appended "600000.SH" "L1.a" (PList []) "Known" None
    "mock" 40 25 None 5); try reflexivity.
  - apply list_elem_of_here.
  - simpl. lia.
  - vm_compute. lia.
Defined.
End HistoryExamples.
