(* ===== verification/Overlay.v ===== *)
(** * Overlay: regenerating stock overlays without losing what was filled in

    The merge of [mvp20/overlays.py] between a freshly generated overlay and
    the file on disk, the coverage counters stored in an overlay, and the
    alerts the compiler derives from one. Documents are the dictionaries YAML
    gives; two dictionaries with the same entries are equal for Python, which
    [dict_eq] states. *)
From Stdlib Require Import String Ascii ZArith List SpecFloat.
From stdpp Require Import base gmap strings list.
From S2P Require Import Prelude PyLib.
Local Open Scope string_scope.
Local Open Scope Z_scope.

Module OverlayMerge.

(** Same keys, same values: Python's [==] on dictionaries. *)
Definition dict_eq (a b : pdict) : Prop := ∀ k, pget k a = pget k b.
#[export] Instance dict_eq_equivalence : Equivalence dict_eq.
Proof.
  split; unfold dict_eq; [by intros a k|by intros a b H k|intros a b c H1 H2 k; by rewrite H1].
Qed.
#[export] Instance pget_proper : Proper (eq ==> dict_eq ==> eq) pget.
Proof. intros k ? <- a b H. apply H. Qed.
#[export] Instance pset_proper : Proper (eq ==> eq ==> dict_eq ==> dict_eq) pset.
Proof. intros k ? <- v ? <- a b H k'. rewrite !pget_pset. by destruct (String.eqb _ _). Qed.

Definition str_is (s : string) (o : option pyval) : bool :=
  match o with Some v => is_key s v | None => false end.

Inductive merge_error := NotIterable.

Section merge.
(** [str(v)] of a value that is not a string, and the event-driven data points
    of [config/llm_field_governance.yaml]. *)
Context (str_of : pyval → string) (event_driven_dp_ids : gset string).

(** [str(d.get(k) or "")] *)
Definition str_or_empty (o : option pyval) : string :=
  match o with
  | Some v => if truthy v then match v with PStr s => s | _ => str_of v end else ""
  | None => ""
  end.

Definition preserve_fields : list string :=
  ["value"; "confidence"; "evidence_sources"; "last_updated"; "data_source"; "missing_reason";
   "source_fingerprint_at_fill"; "last_filled_period"; "last_event_id"].

Definition status_induced_fields (status : string) : list (string * pyval) :=
  if String.eqb status "N/A" then
    [("missing_policy", PStr "not_applicable_remove"); ("active_weight", PFloat (S754_zero false))]
  else if String.eqb status "Inactive" then
    [("missing_policy", PStr "inactive_zero_weight"); ("active_weight", PFloat (S754_zero false))]
  else if String.eqb status "Optionality" then [("missing_policy", PStr "optionality_track")]
  else [].

Definition set_all (kvs : list (string * pyval)) (d : pdict) : pdict :=
  fold_left (λ d kv, pset kv.1 kv.2 d) kvs d.

(** Only statuses that are strings have an entry; no other status is preserved. *)
Definition apply_status_induced_fields (merged_node : pdict) (status : pyval) : pdict :=
  match status with
  | PStr s => set_all (status_induced_fields s) merged_node
  | _ => merged_node
  end.

(** [v not in (None, "", {}, [])] *)
Definition filled (o : option pyval) : bool :=
  match o with
  | None | Some PNone | Some (PStr "") | Some (PDict []) | Some (PList []) => false
  | Some _ => true
  end.

Definition should_preserve_node (existing_node : pdict) : bool :=
  let status := pget "data_status" existing_node in
  let dp_id := str_or_empty (pget "dp_id" existing_node) in
  if str_is "Known" status then true
  else if str_is "N/A" status then true
  else if str_is "Optionality" status then
    match pget "value" existing_node with
    | Some (PDict value) =>
        filled (pget "current_contribution" value) || filled (pget "future_option_value" value)
    | _ => false
    end
  else if str_is "Inactive" status then negb (bool_decide (dp_id ∈ event_driven_dp_ids))
  else false.

Definition node_key (n : pdict) : string * string :=
  (str_or_empty (pget "node_id" n), str_or_empty (pget "dp_id" n)).

(** The node a key refers to: the last one of the list. *)
Definition nodes_by_key (nodes : list pyval) : gmap (string * string) pdict :=
  fold_left (λ m n, match n with PDict d => <[node_key d := d]> m | _ => m end) nodes ∅.

(** [for fname in _PRESERVE_FIELDS: if fname in existing_node: ...] *)
Definition take_fields (fields : list string) (existing_node merged : pdict) : pdict :=
  fold_left (λ m f, match pget f existing_node with Some v => pset f v m | None => m end) fields merged.

(** The branch that preserves: the generated node with the kept fields. *)
Definition preserve_node (new_node existing_node : pdict) : pdict :=
  let merged := take_fields preserve_fields existing_node new_node in
  match pget "data_status" existing_node with
  | None => merged
  | Some preserved_status =>
      let merged := pset "data_status" preserved_status merged in
      match preserved_status with
      | PNone => merged
      | _ =>
          let merged := if phas "status" merged then pset "status" preserved_status merged else merged in
          apply_status_induced_fields merged preserved_status
      end
  end.

Definition merge_node (existing_nodes : gmap (string * string) pdict) (new_node : pyval) : pyval :=
  match new_node with
  | PDict n =>
      match existing_nodes !! node_key n with
      | Some e => if should_preserve_node e then PDict (preserve_node n e) else new_node
      | None => new_node
      end
  | _ => new_node
  end.

Definition nodes_of (overlay : pdict) : result merge_error (list pyval) :=
  match iter_or_empty (pget "nodes" overlay) with Some l => Ok l | None => Err NotIterable end.

Definition merge_preserve_existing_overlay (generated : pdict) (existing : option pdict) (force : bool)
    : result merge_error pdict :=
  match existing with
  | Some e =>
      if force then Ok generated
      else
        let* old := nodes_of e in
        let existing_nodes := nodes_by_key old in
        let* new := nodes_of generated in
        Ok (pset "nodes" (PList (map (merge_node existing_nodes) new)) generated)
  | None => Ok generated
  end.

(** ** One node *)

Lemma pget_take_fields fields e d k :
  pget k (take_fields fields e d) =
  if bool_decide (k ∈ fields) then match pget k e with Some v => Some v | None => pget k d end
  else pget k d.
Proof.
  unfold take_fields. revert d. induction fields as [|f fields IH]; intros d; [done|]. cbn [fold_left].
  rewrite IH. destruct (decide (k = f)) as [->|Hne].
  - rewrite (bool_decide_eq_true_2 (f ∈ f :: fields)) by apply list_elem_of_here.
    destruct (pget f e) as [v|] eqn:E; [rewrite pget_pset_eq; by case_bool_decide|by case_bool_decide].
  - assert (bool_decide (k ∈ f :: fields) = bool_decide (k ∈ fields)) as ->.
    { apply bool_decide_ext. rewrite elem_of_cons. naive_solver. }
    destruct (pget f e); [rewrite pget_pset_ne by done|]; done.
Qed.

Lemma preserve_status e : should_preserve_node e = true →
  ∃ s, pget "data_status" e = Some (PStr s) ∧ s ∈ ["Known"; "N/A"; "Optionality"; "Inactive"].
Proof.
  unfold should_preserve_node. destruct (pget "data_status" e) as [v|]; [|done].
  destruct v; try done. unfold str_is. cbn [is_key]. intros H. exists s. split; [done|].
  rewrite !elem_of_cons.
  destruct (String.eqb_spec "Known" s) as [E|_]; [by left|].
  destruct (String.eqb_spec "N/A" s) as [E|_]; [right; by left|].
  destruct (String.eqb_spec "Optionality" s) as [E|_]; [do 2 right; by left|].
  destruct (String.eqb_spec "Inactive" s) as [E|_]; [do 3 right; by left|done].
Qed.

(** Where a preserved node takes each key from. *)
Definition preserved_value (n e : pdict) (s : string) (k : string) : option pyval :=
  match dget k (status_induced_fields s) with
  | Some v => Some v
  | None =>
      if String.eqb k "data_status" then Some (PStr s)
      else if String.eqb k "status" then (if phas "status" n then Some (PStr s) else None)
      else if bool_decide (k ∈ preserve_fields) then
        match pget k e with Some v => Some v | None => pget k n end
      else pget k n
  end.

Lemma pget_set_all kvs d k : NoDup (map fst kvs) →
  pget k (set_all kvs d) = match dget k kvs with Some v => Some v | None => pget k d end.
Proof.
  unfold set_all. revert d. induction kvs as [|[k' v] kvs IH]; intros d Hnd; [done|].
  cbn [map fst] in Hnd. apply NoDup_cons in Hnd as [Hk Hnd]. cbn [fold_left fst snd]. rewrite IH by done.
  cbn [dget]. destruct (String.eqb_spec k k') as [->|Hne]; [|by rewrite pget_pset_ne].
  destruct (dget k' kvs) as [w|] eqn:E; [exfalso|apply pget_pset_eq].
  apply Hk, elem_of_dkeys. eauto.
Qed.

Lemma induced_keys s k v :
  dget k (status_induced_fields s) = Some v → k = "missing_policy" ∨ k = "active_weight".
Proof.
  unfold status_induced_fields. intros H.
  repeat case_match; simpl in H; repeat case_match; try done;
    repeat match goal with E : String.eqb _ _ = true |- _ => apply String.eqb_eq in E end; auto.
Qed.

Lemma induced_NoDup s : NoDup (map fst (status_induced_fields s)).
Proof.
  unfold status_induced_fields. repeat case_match; simpl; repeat constructor; try set_solver.
Qed.

Lemma pget_preserve_node n e k : should_preserve_node e = true →
  ∃ s, pget "data_status" e = Some (PStr s) ∧
    pget k (preserve_node n e) = preserved_value n e s k.
Proof.
  intros (s & Hs & _)%preserve_status. exists s. split; [done|].
  unfold preserve_node. rewrite Hs. cbv iota zeta.
  set (m := pset "data_status" (PStr s) (take_fields preserve_fields e n)).
  assert (∀ k, pget k m = if String.eqb k "data_status" then Some (PStr s)
    else if bool_decide (k ∈ preserve_fields) then
      match pget k e with Some v => Some v | None => pget k n end
    else pget k n) as Hm.
  { intros k'. unfold m. rewrite pget_pset. destruct (String.eqb k' "data_status"); [done|].
    apply pget_take_fields. }
  assert (phas "status" m = phas "status" n) as -> by (unfold phas; by rewrite Hm).
  clearbody m. unfold apply_status_induced_fields. rewrite pget_set_all by apply induced_NoDup.
  unfold preserved_value. destruct (dget k (status_induced_fields s)) as [v|]; [done|].
  destruct (phas "status" n) eqn:Hst.
  - rewrite pget_pset, Hm. destruct (String.eqb_spec k "status") as [->|]; [done|].
    by destruct (String.eqb k "data_status").
  - rewrite Hm. destruct (String.eqb k "data_status"); [done|].
    destruct (String.eqb_spec k "status") as [->|]; [|done].
    unfold phas in Hst. simpl. by destruct (pget "status" n).
Qed.
End merge.
End OverlayMerge.

Module OverlayCoverage.
Import OverlayMerge.


(** [_coverage_for_nodes]'s counters and sums. *)
Record coverage := mkCoverage {
  known_count : nat;
  unknown_count : nat;
  na_count : nat;
  inactive_count : nat;
  low_materiality_count : nat;
  optionality_count : nat;
  required_missing_count : nat;
  conditional_missing_count : nat;
  applicable_materiality : spec_float;
  known_materiality : spec_float;
  low_confidence_paths : list string;
}.
Definition no_coverage : coverage := mkCoverage 0 0 0 0 0 0 0 0 float_zero float_zero [].

Section coverage.
(** [float(s)] of a string, and [str(v)] of a value that is not a string. *)
Context (parse_float : string → option spec_float) (str_of : pyval → string).

(** [float(d.get(k) or 0)] *)
Definition float_or_zero (o : option pyval) : result float_error spec_float :=
  match o with
  | Some v => if truthy v then as_float parse_float v else Ok float_zero
  | None => Ok float_zero
  end.

Definition str_value (o : option pyval) : string :=
  match o with Some (PStr s) => s | Some v => str_of v | None => str_of PNone end.

Definition count_node (c : coverage) (node : pdict) : result float_error coverage :=
  let status := pget "data_status" node in
  let* materiality := float_or_zero (pget "materiality" node) in
  let '(mkCoverage kn un na ia lm op rq cd am km paths) := c in
  let am' := float_add am materiality in
  Ok (if str_is "Known" status then
        mkCoverage (S kn) un na ia lm op rq cd am' (float_add km materiality) paths
      else if str_is "N/A" status then mkCoverage kn un (S na) ia lm op rq cd am km paths
      else if str_is "Unknown" status then
        if str_is "required" (pget "required_level" node) then
          mkCoverage kn (S un) na ia lm op (S rq) cd am' km paths
        else if str_is "conditional_required" (pget "required_level" node) then
          mkCoverage kn (S un) na ia lm op rq (S cd) am' km (paths ++ [str_value (pget "dp_id" node)])%list
        else mkCoverage kn (S un) na ia lm op rq cd am' km paths
      else if str_is "Inactive" status then mkCoverage kn un na (S ia) lm op rq cd am' km paths
      else if str_is "Low Materiality" status then mkCoverage kn un na ia (S lm) op rq cd am' km paths
      else if str_is "Optionality" status then mkCoverage kn un na ia lm (S op) rq cd am' km paths
      else c).

(** The dictionary returned. *)
Definition coverage_dict (c : coverage) : pdict :=
  let count n := PInt (Z.of_nat n) in
  [(PStr "data_coverage",
    if SFltb float_zero (applicable_materiality c)
    then PFloat (float_div (known_materiality c) (applicable_materiality c)) else PNone);
   (PStr "known_count", count (known_count c));
   (PStr "unknown_count", count (unknown_count c));
   (PStr "na_count", count (na_count c));
   (PStr "inactive_count", count (inactive_count c));
   (PStr "low_materiality_count", count (low_materiality_count c));
   (PStr "optionality_count", count (optionality_count c));
   (PStr "required_missing_count", count (required_missing_count c));
   (PStr "conditional_missing_count", count (conditional_missing_count c));
   (PStr "low_confidence_paths", PList (map PStr (low_confidence_paths c)))].

Definition count_nodes (nodes : list pdict) : result float_error coverage :=
  rfold count_node no_coverage nodes.
Definition coverage_for_nodes (nodes : list pdict) : result float_error pdict :=
  let* c := count_nodes nodes in Ok (coverage_dict c).

(** The rules of [validate_stock_overlay] on a node's status. *)
Definition status_rules_hold (node : pdict) : result float_error bool :=
  let status := pget "data_status" node in
  let na_ok := negb (str_is "N/A" status) || str_is "not_applicable_remove" (pget "missing_policy" node) in
  let* inactive_ok :=
    if str_is "Inactive" status then
      let* w := float_or_zero (pget "active_weight" node) in
      (* 0.2 *)
      Ok (negb (SFltb (S754_finite false 7205759403792794 (-55)) w))
    else Ok true in
  Ok (na_ok && inactive_ok).

(** How many nodes have a status. *)
Definition with_status (s : string) (nodes : list pdict) : nat :=
  length (filter (λ n, str_is s (pget "data_status" n) = true) nodes).
Definition unknown_at (level : string) (nodes : list pdict) : list pdict :=
  filter (λ n, str_is "Unknown" (pget "data_status" n) = true ∧
    str_is level (pget "required_level" n) = true) nodes.

Lemma str_is_inj s s' o : str_is s o = true → str_is s' o = true → s = s'.
Proof. destruct o as [v|]; [|done]. apply is_key_ne. Qed.

Lemma str_is_excl s s' o : str_is s o = true → s ≠ s' → str_is s' o = false.
Proof. intros H Hne. destruct (str_is s' o) eqn:E; [by destruct (Hne (str_is_inj _ _ _ H E))|done]. Qed.
End coverage.
End OverlayCoverage.

Module OverlayTheorems.
Import OverlayMerge OverlayCoverage.

Section theorems.
Context (str_of : pyval → string) (events : gset string).
Implicit Types (n e m : pdict).

(** The node the merge keeps for a generated node. *)
Definition merged_node (olds : list pyval) n : pdict :=
  match nodes_by_key str_of olds !! node_key str_of n with
  | Some e => if should_preserve_node str_of events e then preserve_node n e else n
  | None => n
  end.

Lemma merge_node_dict olds n :
  merge_node str_of events (nodes_by_key str_of olds) (PDict n) = PDict (merged_node olds n).
Proof. unfold merged_node. simpl. by repeat case_match. Qed.

Lemma preserved_data_status n e : should_preserve_node str_of events e = true →
  pget "data_status" (preserve_node n e) = pget "data_status" e.
Proof.
  intros H. destruct (pget_preserve_node str_of events n e "data_status" H) as (s & Hs & ->).
  unfold preserved_value. destruct (dget "data_status" (status_induced_fields s)) as [v|] eqn:E; [|done].
  by apply induced_keys in E as [?|?].
Qed.

Lemma preserved_identity n e k : should_preserve_node str_of events e = true →
  k ∈ ["node_id"; "dp_id"] → pget k (preserve_node n e) = pget k n.
Proof.
  intros H Hk. destruct (pget_preserve_node str_of events n e k H) as (s & Hs & ->). unfold preserved_value.
  destruct (dget k (status_induced_fields s)) as [v|] eqn:E;
    [apply induced_keys in E as [->| ->]; set_solver|].
  apply elem_of_cons in Hk as [->|Hk]; [done|]. by apply list_elem_of_singleton in Hk as ->.
Qed.

Lemma merged_key olds n : node_key str_of (merged_node olds n) = node_key str_of n.
Proof.
  unfold merged_node. destruct (nodes_by_key _ _ !! _) as [e|]; [|done].
  destruct (should_preserve_node _ _ e) eqn:E; [|done]. unfold node_key.
  rewrite !preserved_identity by (done || set_solver). done.
Qed.

Lemma merge_ok generated existing out :
  merge_preserve_existing_overlay str_of events generated (Some existing) false = Ok out ↔
  ∃ olds news, nodes_of existing = Ok olds ∧ nodes_of generated = Ok news ∧
    out = pset "nodes" (PList (map (merge_node str_of events (nodes_by_key str_of olds)) news)) generated.
Proof.
  unfold merge_preserve_existing_overlay. rewrite rbind_ok. split.
  - intros (olds & Ho & (news & Hn & [= <-])%rbind_ok). eauto 6.
  - intros (olds & news & Ho & Hn & ->). exists olds. split; [done|]. by rewrite Hn.
Qed.

(** The last node with a key is the one [nodes_by_key] gives. *)
Lemma nodes_by_key_unique (l : list pdict) n :
  NoDup (map (node_key str_of) l) → n ∈ l → nodes_by_key str_of (map PDict l) !! node_key str_of n = Some n.
Proof.
  intros Hnd Hin. unfold nodes_by_key.
  assert (∀ (acc : gmap (string * string) pdict) l,
    fold_left (λ b x, match x with PDict d => <[node_key str_of d := d]> b | _ => b end) (map PDict l) acc
    = fold_left (λ b kv, <[kv.1 := kv.2]> b) (map (λ d, (node_key str_of d, d)) l) acc) as ->.
  { intros acc l'. revert acc. induction l' as [|d l' IH]; intros acc; simpl; [done|apply IH]. }
  rewrite fold_insert_map by (by rewrite map_map). rewrite (right_id_L ∅ (∪)).
  apply elem_of_list_to_map_1; [by rewrite map_map|]. apply list_elem_of_fmap. by exists n.
Qed.

(** Regenerating an overlay loses nothing that was filled in: every
    generated node keeps its place, and where the file has a node with its
    key whose status warrants it (Known, N/A, a filled Optionality, an
    Inactive that is not event-driven), each field comes from where the code
    says: the policy the status induces, then the status itself, then the
    nine preserved fields of the file, and everything else from the generated
    node; all other entries of the document are the generated ones. *)
Theorem merge_keeps_filled_nodes generated existing out olds news :
  merge_preserve_existing_overlay str_of events generated (Some existing) false = Ok out →
  nodes_of existing = Ok olds → nodes_of generated = Ok news →
  ∃ merged, pget "nodes" out = Some (PList merged) ∧ length merged = length news ∧
    (∀ k, k ≠ "nodes" → pget k out = pget k generated) ∧
    ∀ i n, news !! i = Some (PDict n) →
      ∃ m, merged !! i = Some (PDict m) ∧
        match nodes_by_key str_of olds !! node_key str_of n with
        | Some e =>
            if should_preserve_node str_of events e
            then ∃ s, pget "data_status" e = Some (PStr s) ∧ ∀ k, pget k m = preserved_value n e s k
            else m = n
        | None => m = n
        end.
Proof.
  intros (olds' & news' & Ho & Hn & ->)%merge_ok Ho' Hn'.
  rewrite Ho in Ho'. rewrite Hn in Hn'. injection Ho' as ->. injection Hn' as ->.
  eexists. split; [apply pget_pset_eq|]. split; [apply List.length_map|]. split; [intros k Hk; apply pget_pset_ne; congruence|].
  intros i n Hi. exists (merged_node olds n). split.
  - rewrite list_lookup_fmap, Hi. simpl. f_equal. apply (merge_node_dict olds n).
  - unfold merged_node. destruct (nodes_by_key str_of olds !! node_key str_of n) as [e|]; [|done].
    destruct (should_preserve_node str_of events e) eqn:E; [|done].
    destruct (preserve_status _ _ _ E) as (s & Hs & _). exists s. split; [done|].
    intros k. destruct (pget_preserve_node str_of events n e k E) as (s' & Hs' & ->). congruence.
Qed.

(** A preserved node obeys the validator's status rules: with its status
    kept, the merge also sets the policy and weight the status demands, so
    the node is never rejected for an N/A policy nor flagged for an Inactive
    weight, whatever the generated defaults were. *)
Theorem preserved_node_is_valid parse_float n e : should_preserve_node str_of events e = true →
  status_rules_hold parse_float (preserve_node n e) = Ok true.
Proof.
  intros H. unfold status_rules_hold.
  destruct (preserve_status _ _ _ H) as (s & Hs & Hin).
  rewrite (preserved_data_status n e H), Hs.
  destruct (pget_preserve_node str_of events n e "missing_policy" H) as (s1 & Hs1 & ->).
  destruct (pget_preserve_node str_of events n e "active_weight" H) as (s2 & Hs2 & ->).
  assert (s1 = s) as -> by congruence. assert (s2 = s) as -> by congruence. unfold preserved_value.
  apply elem_of_cons in Hin as [->|Hin]; [done|]. apply elem_of_cons in Hin as [->|Hin]; [done|].
  apply elem_of_cons in Hin as [->|Hin]; [done|]. by apply list_elem_of_singleton in Hin as ->.
Qed.

Lemma nodes_by_key_key olds k e : nodes_by_key str_of olds !! k = Some e → node_key str_of e = k.
Proof.
  unfold nodes_by_key. assert (∀ k e, (∅ : gmap (string * string) pdict) !! k = Some e → node_key str_of e = k)
    as H0 by (intros ??; by rewrite lookup_empty).
  revert k e H0. generalize (∅ : gmap (string * string) pdict).
  induction olds as [|x olds IH]; intros b k e Hb; simpl; [apply Hb|].
  intros H. eapply IH; [|exact H]. intros k' e' Hl. destruct x; try by eapply Hb.
  destruct (decide (node_key str_of d = k')) as [<-|Hne].
  - rewrite lookup_insert_eq in Hl. by injection Hl as ->.
  - rewrite lookup_insert_ne in Hl by done. by eapply Hb.
Qed.

Lemma preserve_again n e : should_preserve_node str_of events e = true →
  node_key str_of e = node_key str_of n →
  should_preserve_node str_of events (preserve_node n e) = true.
Proof.
  intros H Hkey. pose proof (preserved_data_status n e H) as Hst.
  assert (pget "dp_id" (preserve_node n e) = pget "dp_id" n) as Hdp
    by (apply preserved_identity; [done|set_solver]).
  assert (str_or_empty str_of (pget "dp_id" n) = str_or_empty str_of (pget "dp_id" e)) as Hdp'
    by (unfold node_key in Hkey; congruence).
  destruct (pget_preserve_node str_of events n e "value" H) as (s & Hs & Hv).
  revert H. unfold should_preserve_node. rewrite Hst, Hdp, Hdp', Hv, Hs. unfold preserved_value.
  destruct (dget "value" (status_induced_fields s)) as [w|] eqn:E; [by apply induced_keys in E as [?|?]|].
  change (bool_decide ("value" ∈ preserve_fields)) with true. cbv iota. cbn [String.eqb Ascii.eqb Bool.eqb].
  repeat (destruct (str_is _ _); [done|]). destruct (pget "value" e); [done|].
  by destruct (str_is _ _).
Qed.

(** A generated node that the merge would not change if it were on disk. *)
Definition settled n : Prop :=
  should_preserve_node str_of events n = true → dict_eq (preserve_node n n) n.

Lemma merge_twice n e :
  should_preserve_node str_of events e = true → node_key str_of e = node_key str_of n →
  dict_eq (preserve_node n (preserve_node n e)) (preserve_node n e).
Proof.
  intros H Hkey k.
  destruct (pget_preserve_node str_of events n _ k (preserve_again n e H Hkey)) as (s & Hs & ->).
  rewrite (preserved_data_status n e H) in Hs.
  destruct (pget_preserve_node str_of events n e k H) as (s' & Hs' & Hk).
  assert (s' = s) as -> by congruence. unfold preserved_value at 1. rewrite Hk. unfold preserved_value.
  repeat case_match; try done; congruence.
Qed.

Definition node_eq (a b : pyval) : Prop :=
  match a, b with PDict x, PDict y => dict_eq x y | _, _ => a = b end.

(** Regeneration is stable: merging a generated overlay with the file that
    a merge of the same overlay produced changes no node, as long as the
    generated nodes have distinct keys and are settled. *)
Theorem merge_idempotent generated existing out news out' :
  nodes_of generated = Ok (map PDict news) →
  NoDup (map (node_key str_of) news) → Forall settled news →
  merge_preserve_existing_overlay str_of events generated (Some existing) false = Ok out →
  merge_preserve_existing_overlay str_of events generated (Some out) false = Ok out' →
  ∃ l l', pget "nodes" out = Some (PList l) ∧ pget "nodes" out' = Some (PList l') ∧
    Forall2 node_eq l' l.
Proof.
  intros Hgen Hnd Hsettled (olds & news1 & Ho & Hn1 & ->)%merge_ok (olds2 & news2 & Ho2 & Hn2 & ->)%merge_ok.
  rewrite Hgen in Hn1, Hn2. injection Hn1 as <-. injection Hn2 as <-.
  assert (map (merge_node str_of events (nodes_by_key str_of olds)) (map PDict news)
    = map PDict (map (merged_node olds) news)) as Hm.
  { rewrite !map_map. apply map_ext. intros n. apply merge_node_dict. }
  rewrite Hm in *. unfold nodes_of, iter_or_empty in Ho2. rewrite pget_pset_eq in Ho2.
  eexists _, _. split; [apply pget_pset_eq|]. split; [apply pget_pset_eq|].
  assert (olds2 = map PDict (map (merged_node olds) news)) as ->.
  { destruct news; simpl in Ho2; by injection Ho2 as <-. }
  clear Ho2 Hgen Hm.
  assert (∀ n, n ∈ news → nodes_by_key str_of (map PDict (map (merged_node olds) news)) !! node_key str_of n
    = Some (merged_node olds n)) as Hlook.
  { intros n Hn. rewrite <- (merged_key olds n). apply nodes_by_key_unique.
    - rewrite map_map. erewrite map_ext; [exact Hnd|]. intros x. apply merged_key.
    - apply list_elem_of_fmap. by exists n. }
  rewrite (map_map PDict), (map_map (merged_node olds) PDict news).
  apply Forall2_fmap, Forall_Forall2_diag, Forall_forall. intros n Hn.
  rewrite merge_node_dict. simpl. unfold merged_node at 1. rewrite map_map in Hlook.
  rewrite (Hlook n Hn). clear Hlook.
  unfold merged_node. destruct (nodes_by_key str_of olds !! node_key str_of n) as [e|] eqn:He.
  + apply nodes_by_key_key in He. destruct (should_preserve_node str_of events e) eqn:Hp.
    * rewrite preserve_again by done. by apply merge_twice.
    * rewrite Forall_forall in Hsettled. specialize (Hsettled n Hn). unfold settled in Hsettled.
      by destruct (should_preserve_node str_of events n); [apply Hsettled|].
  + rewrite Forall_forall in Hsettled. specialize (Hsettled n Hn). unfold settled in Hsettled.
    by destruct (should_preserve_node str_of events n); [apply Hsettled|].
Qed.

(** ** Coverage *)

Context (parse_float : string → option spec_float).

Lemma with_status_cons st n l :
  with_status st (n :: l) =
  ((if str_is st (pget "data_status" n) then 1 else 0) + with_status st l)%nat.
Proof. unfold with_status. rewrite filter_cons. by destruct (str_is st _); case_decide. Qed.

Lemma unknown_at_cons level n l :
  unknown_at level (n :: l) =
  if str_is "Unknown" (pget "data_status" n) && str_is level (pget "required_level" n)
  then n :: unknown_at level l else unknown_at level l.
Proof.
  unfold unknown_at. rewrite filter_cons.
  destruct (str_is "Unknown" _), (str_is level _); case_decide; naive_solver.
Qed.

(** The statuses the counters distinguish exclude each other. *)
Ltac status_cases n :=
  repeat match goal with
  | H : str_is ?s (pget "data_status" n) = true |- context [str_is ?s' (pget "data_status" n)] =>
      rewrite (str_is_excl s s' _ H) by done
  | |- context [str_is ?s (pget "data_status" n)] =>
      let E := fresh "Est" in destruct (str_is s (pget "data_status" n)) eqn:E; try rewrite E
  end.

Lemma count_nodes_from c0 nodes c :
  rfold (count_node parse_float str_of) c0 nodes = Ok c →
  known_count c = (known_count c0 + with_status "Known" nodes)%nat ∧
  unknown_count c = (unknown_count c0 + with_status "Unknown" nodes)%nat ∧
  na_count c = (na_count c0 + with_status "N/A" nodes)%nat ∧
  inactive_count c = (inactive_count c0 + with_status "Inactive" nodes)%nat ∧
  low_materiality_count c = (low_materiality_count c0 + with_status "Low Materiality" nodes)%nat ∧
  optionality_count c = (optionality_count c0 + with_status "Optionality" nodes)%nat ∧
  required_missing_count c = (required_missing_count c0 + length (unknown_at "required" nodes))%nat ∧
  conditional_missing_count c =
    (conditional_missing_count c0 + length (unknown_at "conditional_required" nodes))%nat ∧
  low_confidence_paths c = (low_confidence_paths c0 ++
    map (λ n, str_value str_of (pget "dp_id" n)) (unknown_at "conditional_required" nodes))%list.
Proof.
  revert c0. induction nodes as [|n nodes IH]; intros c0; cbn [rfold].
  { intros [= <-]. unfold with_status, unknown_at. simpl. rewrite !Nat.add_0_r, app_nil_r. by split_and!. }
  intros (c1 & Hc1 & H%IH)%rbind_ok. destruct c0. unfold count_node in Hc1.
  apply rbind_ok in Hc1 as (w & _ & [= <-]). revert H.
  rewrite !with_status_cons, !unknown_at_cons.
  destruct (str_is "required" (pget "required_level" n)) eqn:Er;
    destruct (str_is "conditional_required" (pget "required_level" n)) eqn:Ec;
    [by pose proof (str_is_inj _ _ _ Er Ec)|..];
    status_cases n; cbn -[with_status unknown_at]; intros (-> & -> & -> & -> & -> & -> & -> & -> & ->);
    rewrite <- ?app_assoc, <- ?Nat.add_succ_comm; split_and!; (done || lia).
Qed.

(** The coverage counters count: each one is the number of nodes with its
    status, the missing counters are the Unknown nodes of their level, and
    the low-confidence paths are the data points of the conditional ones, in
    order. *)
Lemma coverage_counts_nodes nodes c :
  count_nodes parse_float str_of nodes = Ok c →
  known_count c = with_status "Known" nodes ∧ unknown_count c = with_status "Unknown" nodes ∧
  na_count c = with_status "N/A" nodes ∧ inactive_count c = with_status "Inactive" nodes ∧
  low_materiality_count c = with_status "Low Materiality" nodes ∧
  optionality_count c = with_status "Optionality" nodes ∧
  required_missing_count c = length (unknown_at "required" nodes) ∧
  conditional_missing_count c = length (unknown_at "conditional_required" nodes) ∧
  low_confidence_paths c =
    map (λ n, str_value str_of (pget "dp_id" n)) (unknown_at "conditional_required" nodes).
Proof. intros H. exact (count_nodes_from no_coverage _ _ H). Qed.

Lemma with_status_le st (f : pdict → pdict) nodes :
  (∀ n, n ∈ nodes → str_is st (pget "data_status" n) = true → str_is st (pget "data_status" (f n)) = true) →
  (with_status st nodes ≤ with_status st (map f nodes))%nat ∧
  ((∃ n, n ∈ nodes ∧ str_is st (pget "data_status" n) = false ∧ str_is st (pget "data_status" (f n)) = true) →
   (with_status st nodes < with_status st (map f nodes))%nat).
Proof.
  induction nodes as [|x nodes IH]; intros Hf; [split; [done|by intros (n & ?%elem_of_nil & _)]|].
  destruct IH as [Hle Hlt]; [intros n Hn; apply Hf; by right|].
  pose proof (Hf x (list_elem_of_here _ _)) as Hx. cbn [map]. rewrite !with_status_cons.
  assert ((if str_is st (pget "data_status" x) then 1 else 0) ≤
    (if str_is st (pget "data_status" (f x)) then 1 else 0))%nat as Hhead
    by (destruct (str_is st (pget "data_status" x)); [rewrite Hx by done|]; lia).
  split; [lia|]. intros (n & [->|Hn]%elem_of_cons & H0 & H1); [rewrite H0, H1; lia|].
  assert (with_status st nodes < with_status st (map f nodes))%nat by (apply Hlt; eauto). lia.
Qed.

(** The coverage of a merged overlay is not that of its nodes: the merge
    keeps the generated document's coverage, so when it restores a Known node
    over one that is not (and takes no Known status away), the stored known
    count is below the number of Known nodes stored next to it. *)
Theorem merged_coverage_is_stale generated existing out olds news c n e :
  merge_preserve_existing_overlay str_of events generated (Some existing) false = Ok out →
  nodes_of existing = Ok olds → nodes_of generated = Ok (map PDict news) →
  count_nodes parse_float str_of news = Ok c →
  pget "coverage" generated = Some (PDict (coverage_dict c)) →
  (∀ n e, n ∈ news → str_is "Known" (pget "data_status" n) = true →
     nodes_by_key str_of olds !! node_key str_of n = Some e → should_preserve_node str_of events e = true →
     str_is "Known" (pget "data_status" e) = true) →
  n ∈ news → str_is "Known" (pget "data_status" n) = false →
  nodes_by_key str_of olds !! node_key str_of n = Some e → str_is "Known" (pget "data_status" e) = true →
  ∃ merged, pget "nodes" out = Some (PList (map PDict merged)) ∧
    pget "coverage" out = Some (PDict (coverage_dict c)) ∧
    (known_count c < with_status "Known" merged)%nat.
Proof.
  intros (olds' & news' & Ho & Hn & ->)%merge_ok Ho' Hn' Hc Hcov Hkeep Hin Hst He Hes.
  rewrite Ho in Ho'. rewrite Hn in Hn'. injection Ho' as ->. injection Hn' as ->.
  exists (map (merged_node olds) news). rewrite pget_pset_eq, pget_pset_ne by done.
  rewrite !map_map. split_and!; [do 2 f_equal|done|].
  - apply map_ext. intros x. apply (merge_node_dict olds x).
  - destruct (coverage_counts_nodes news c Hc) as (-> & _). apply with_status_le.
    + intros x Hx Hk. unfold merged_node. destruct (nodes_by_key str_of olds !! node_key str_of x) as [ex|] eqn:Hex; [|done].
      destruct (should_preserve_node str_of events ex) eqn:Hp; [|done].
      rewrite preserved_data_status by done. by eapply Hkeep.
    + exists n. split_and!; [done|done|]. unfold merged_node. rewrite He.
      assert (should_preserve_node str_of events e = true) as Hp by (unfold should_preserve_node; by rewrite Hes).
      by rewrite Hp, preserved_data_status.
Qed.
End theorems.
End OverlayTheorems.

(** ** Concrete runs *)
Module OverlayExamples.
Import OverlayMerge OverlayCoverage OverlayTheorems.

Definition ex_str_of (v : pyval) : string := "None".
Definition ex_parse (s : string) : option spec_float := None.
Definition ex_events : gset string := {["L9.media.short_report"]}.
Definition float_one : spec_float := float_of_Z 1.

(** A generated node, and the same slot as somebody filled it in. *)
Definition ex_slot (dp : string) : pdict :=
  [(PStr "node_id", PStr (String.append "S:" dp)); (PStr "dp_id", PStr dp);
   (PStr "active_weight", PFloat float_one); (PStr "status", PStr "Unknown");
   (PStr "required_level", PStr "conditional_required"); (PStr "data_status", PStr "Unknown");
   (PStr "missing_policy", PStr "unknown_reduce_confidence"); (PStr "materiality", PFloat float_one);
   (PStr "value", PNone)].
Definition ex_known : pdict := pset "value" (PInt 7) (pset "data_status" (PStr "Known") (ex_slot "a")).
Definition ex_na : pdict := pset "data_status" (PStr "N/A") (ex_slot "b").

Definition ex_news : list pdict := [ex_slot "a"; ex_slot "b"].
Definition ex_coverage : coverage := Eval vm_compute in
  match count_nodes ex_parse ex_str_of ex_news with Ok c => c | Err _ => no_coverage end.
Definition ex_generated : pdict :=
  [(PStr "nodes", PList (map PDict ex_news)); (PStr "coverage", PDict (coverage_dict ex_coverage))].
Definition ex_existing : pdict := [(PStr "nodes", PList [PDict ex_known; PDict ex_na])].
Definition ex_merged : pdict := Eval vm_compute in
  match merge_preserve_existing_overlay ex_str_of ex_events ex_generated (Some ex_existing) false with
  | Ok d => d | Err _ => [] end.

Lemma ex_merge :
  merge_preserve_existing_overlay ex_str_of ex_events ex_generated (Some ex_existing) false = Ok ex_merged.
Proof. vm_compute. reflexivity. Qed.

(** The slot set to N/A loses its weight and gets the policy of N/A. *)
Example ex_na_policy :
  pget "missing_policy" (merged_node ex_str_of ex_events [PDict ex_known; PDict ex_na] (ex_slot "b"))
  = Some (PStr "not_applicable_remove").
Proof. vm_compute. reflexivity. Qed.

Lemma merge_keeps_filled_nodes_witness :
  ∃ merged, pget "nodes" ex_merged = Some (PList merged) ∧ length merged = 2%nat ∧
    (∀ k, k ≠ "nodes" → pget k ex_merged = pget k ex_generated) ∧
    ∀ i n, map PDict ex_news !! i = Some (PDict n) →
      ∃ m, merged !! i = Some (PDict m) ∧
        match nodes_by_key ex_str_of [PDict ex_known; PDict ex_na] !! node_key ex_str_of n with
        | Some e =>
            if should_preserve_node ex_str_of ex_events e
            then ∃ s, pget "data_status" e = Some (PStr s) ∧ ∀ k, pget k m = preserved_value n e s k
            else m = n
        | None => m = n
        end.
Proof.
  exact (merge_keeps_filled_nodes ex_str_of ex_events ex_generated ex_existing ex_merged
    [PDict ex_known; PDict ex_na] (map PDict ex_news) ex_merge eq_refl eq_refl).
Defined.

Lemma preserved_node_is_valid_witness :
  status_rules_hold ex_parse (preserve_node (ex_slot "b") ex_na) = Ok true ∧
  status_rules_hold ex_parse ex_na = Ok false.
Proof.
  split; [|vm_compute; reflexivity].
  apply (preserved_node_is_valid ex_str_of ex_events ex_parse (ex_slot "b") ex_na). vm_compute. reflexivity.
Defined.

Lemma merge_idempotent_witness :
  ∃ l l', pget "nodes" ex_merged = Some (PList l) ∧ pget "nodes" ex_merged = Some (PList l') ∧
    Forall2 node_eq l' l.
Proof.
  apply (merge_idempotent ex_str_of ex_events ex_generated ex_existing ex_merged ex_news ex_merged).
  - reflexivity.
  - vm_compute. repeat constructor; intros H; apply list_elem_of_In in H; simpl in H; intuition congruence.
  - repeat constructor; intros H; vm_compute in H; discriminate.
  - exact ex_merge.
  - vm_compute. reflexivity.
Defined.

Lemma ex_coverage_counts :
  unknown_count ex_coverage = 2%nat ∧ low_confidence_paths ex_coverage = ["a"; "b"].
Proof.
  destruct (coverage_counts_nodes ex_str_of ex_parse ex_news ex_coverage) as (_ & Hu & _ & _ & _ & _ & _ & _ & Hp);
    [vm_compute; reflexivity|].
  split; [exact Hu|exact Hp].
Defined.

Lemma merged_coverage_is_stale_witness :
  ∃ merged, pget "nodes" ex_merged = Some (PList (map PDict merged)) ∧
    pget "coverage" ex_merged = Some (PDict (coverage_dict ex_coverage)) ∧
    (known_count ex_coverage < with_status "Known" merged)%nat.
Proof.
  apply (merged_coverage_is_stale ex_str_of ex_events ex_parse ex_generated ex_existing ex_merged
    [PDict ex_known; PDict ex_na] ex_news ex_coverage (ex_slot "a") ex_known); try (vm_compute; reflexivity).
  - intros n e Hn H. apply list_elem_of_In in Hn. simpl in Hn.
    destruct Hn as [<- | [<- | []]]; vm_compute in H; discriminate.
  - apply list_elem_of_here.
Defined.
End OverlayExamples.
