(* ===== verification/Fallback.v ===== *)
(** * Fallback: calling model providers in [reasoner-runtime]

    [Classify] is [providers/models.py] and the failure classes of
    [providers/routing.py]: how an exception becomes a public error
    classification, and when a fallback decision is accepted by its
    validator. [Chain] and [Execute] are [providers/fallback.py]: the order in
    which provider profiles are tried, and the retry and fallback loop around
    a provider call. A call reads and changes a state of any type, so the
    theorems hold for every behaviour of the providers. Texts are ASCII. *)
From Stdlib Require Import String Ascii ZArith List Sorting.Sorted.
From stdpp Require Import base gmap strings list sorting.
From S2P Require Import Prelude PyLib.
Local Open Scope string_scope.
Local Open Scope Z_scope.

(** ** Text search *)
Module Text.

(** [\w] and [\s] *)
Definition word_char (c : ascii) : bool :=
  is_digit c || is_upper_az c || is_lower_az c || Ascii.eqb c "_".
Fixpoint skip_spaces (s : string) : string :=
  match s with String c rest => if py_space c then skip_spaces rest else s | EmptyString => s end.

(** A word at the start of a text, letters of either case. *)
Fixpoint strip_word (w s : string) : option string :=
  match w, s with
  | EmptyString, _ => Some s
  | String a w', String b s' => if Ascii.eqb a (lower_char b) then strip_word w' s' else None
  | _, _ => None
  end.

(** [w1\s+w2...\b] at the start of a text. *)
Fixpoint words_at (ws : list string) (s : string) : bool :=
  match ws with
  | [] => true
  | w :: rest =>
      match strip_word w s with
      | None => false
      | Some s' =>
          match rest with
          | [] => match s' with String c _ => negb (word_char c) | EmptyString => true end
          | _ => match s' with
                 | String c _ => py_space c && words_at rest (skip_spaces s')
                 | EmptyString => false
                 end
          end
      end
  end.

(** [re.search(r"\bw1\s+w2...\b", s, re.IGNORECASE)] for lower-case words. *)
Fixpoint search_from (in_word : bool) (ws : list string) (s : string) : bool :=
  (negb in_word && words_at ws s) ||
  match s with EmptyString => false | String c rest => search_from (word_char c) ws rest end.
Definition search (ws : list string) (s : string) : bool := search_from false ws s.

Example search_spaced : search ["api"; "key"] "bad API   Key!" = true.
Proof. reflexivity. Qed.
Example search_inside : search ["auth"] "reauthorize" = false.
Proof. reflexivity. Qed.
End Text.

(** ** Error classification *)
Module Classify.
Import Text.

(** An exception: the names of its class and base classes, its text, and the
    HTTP status its attributes carry. A class is identified by its name. *)
Record exn := mkExn { exn_mro : list string; exn_text : string; exn_status : option Z }.
Definition type_name (e : exn) : string := match exn_mro e with c :: _ => c | [] => "" end.
Definition isinstance (e : exn) (classes : list string) : bool :=
  existsb (λ c, bool_decide (c ∈ classes)) (exn_mro e).

Inductive FailureClass := FC_none | FC_success_with_fallback | FC_task_level | FC_infra_level.
#[export] Instance failure_class_dec : EqDecision FailureClass.
Proof. solve_decision. Defined.
Definition failure_class_value (f : FailureClass) : string :=
  match f with
  | FC_none => "none" | FC_success_with_fallback => "success_with_fallback"
  | FC_task_level => "task_level" | FC_infra_level => "infra_level"
  end.

Inductive ReasonerErrorCategory := INPUT_CONTRACT | MODEL_PROVIDER | TIMEOUT | INTERNAL.
Inductive ErrorCode :=
| REASONER_INPUT_CONTRACT_ERROR | REASONER_MODEL_PROVIDER_ERROR
| REASONER_TIMEOUT_ERROR | REASONER_INTERNAL_ERROR.
#[export] Instance category_dec : EqDecision ReasonerErrorCategory.
Proof. solve_decision. Defined.
#[export] Instance error_code_dec : EqDecision ErrorCode.
Proof. solve_decision. Defined.
Definition error_code_by_category (c : ReasonerErrorCategory) : ErrorCode :=
  match c with
  | INPUT_CONTRACT => REASONER_INPUT_CONTRACT_ERROR
  | MODEL_PROVIDER => REASONER_MODEL_PROVIDER_ERROR
  | TIMEOUT => REASONER_TIMEOUT_ERROR
  | INTERNAL => REASONER_INTERNAL_ERROR
  end.

(** The context mapping handed along with an error. *)
Abbreviation context := (pydict pyval).

Record Classification := mkClassification {
  cl_code : ErrorCode;
  cl_category : ReasonerErrorCategory;
  cl_retryable : bool;
  cl_message : string;
  cl_details : context;
}.

Definition exhausted_error_names : list string :=
  ["AuthenticationError"; "AuthorizationError"; "BudgetExceededError"; "ForbiddenError";
   "InvalidAPIKeyError"; "PermissionDeniedError"; "QuotaExceededError"].
Definition limited_error_names : list string := ["RateLimitError"].
Definition exhausted_message_patterns : list (list string) :=
  [["auth"]; ["authentication"]; ["authorization"]; ["billing"]; ["unauthorized"]; ["forbidden"];
   ["invalid"; "api"; "key"]; ["api"; "key"]; ["budget"; "exceeded"]; ["quota"; "exceeded"];
   ["quota"; "exhausted"]; ["insufficient_quota"]; ["credits"; "exhausted"]].
Definition limited_message_patterns : list (list string) :=
  [["rate"; "limit"]; ["rate_limit"]; ["too"; "many"; "requests"]; ["limited"]].

Definition provider_quota_status_from_error (error : option exn) : string :=
  match error with
  | None => "ok"
  | Some e =>
      let status_in l := match exn_status e with Some c => bool_decide (c ∈ l) | None => false end in
      if status_in [401; 402; 403] then "exhausted"
      else if status_in [429] then "limited"
      else if isinstance e exhausted_error_names then "exhausted"
      else if isinstance e limited_error_names then "limited"
      else if existsb (λ p, search p (exn_text e)) exhausted_message_patterns then "exhausted"
      else if existsb (λ p, search p (exn_text e)) limited_message_patterns then "limited"
      else "ok"
  end.

Section classify.
(** [str(v)] of a value that is not a string. *)
Context (str_of : pyval → string).

Definition str_value (v : pyval) : string := match v with PStr s => s | _ => str_of v end.

Definition is_timeout_failure (error : option exn) (ctx : context) : bool :=
  match error with
  | Some e => isinstance e ["TimeoutError"] || existsb (λ n, contains "timeout" (lower n)) (exn_mro e)
  | None => false
  end ||
  existsb (λ kv, bool_decide (kv.1 ∈ ["error"; "error_type"; "phase"; "failure_source"]) &&
    (contains "timeout" (lower (str_value kv.2)) || contains "timed out" (lower (str_value kv.2)))) ctx.

Definition get_truthy (k : string) (ctx : context) : bool :=
  match dget k ctx with Some v => truthy v | None => false end.
Definition get_is (k s : string) (ctx : context) : bool :=
  match dget k ctx with Some v => is_key s v | None => false end.

Definition has_provider_context (ctx : context) : bool :=
  existsb (λ k, get_truthy k ctx) ["provider"; "model"; "target"; "final_target"]
  || get_truthy "attempts" ctx
  || (get_is "failure_source" "provider" ctx || get_is "phase" "provider" ctx).

Definition is_non_retryable_provider_failure (error : option exn) (ctx : context) : bool :=
  String.eqb (lower match dget "quota_status" ctx with Some v => str_value v | None => "" end) "exhausted"
  || String.eqb (provider_quota_status_from_error error) "exhausted"
  || match dget "error" ctx with
     | None | Some PNone => false
     | Some v => existsb (λ p, search p (str_value v)) exhausted_message_patterns
     end.

Definition classification_category (f : FailureClass) (error : option exn) (ctx : context)
    : ReasonerErrorCategory :=
  if bool_decide (f = FC_task_level) then INPUT_CONTRACT
  else if is_timeout_failure error ctx then TIMEOUT
  else if has_provider_context ctx then MODEL_PROVIDER else INTERNAL.

Definition classification_retryable (c : ReasonerErrorCategory) (f : FailureClass)
    (error : option exn) (ctx : context) : bool :=
  if bool_decide (f = FC_task_level) then false
  else match c with
       | TIMEOUT => true
       | MODEL_PROVIDER => negb (is_non_retryable_provider_failure error ctx)
       | _ => false
       end.

Definition classification_message (c : ReasonerErrorCategory) (f : FailureClass)
    (message : option string) : string :=
  let given := match message with Some m => strip m | None => "" end in
  if negb (is_empty given) then given
  else if bool_decide (f = FC_task_level) then "structured output validation failed"
  else match c with
       | TIMEOUT => "reasoner provider request timed out"
       | MODEL_PROVIDER => "reasoner model provider failed"
       | _ => "reasoner runtime infrastructure failed"
       end.

(** [sorted(_SAFE_DETAIL_KEYS)] *)
Definition safe_detail_keys : list string :=
  ["attempts"; "caller_module"; "configured_target"; "failure_source"; "fallback_path";
   "final_target"; "model"; "phase"; "provider"; "quota_status"; "reachable"; "request_id";
   "retry_count"; "target"; "target_schema"].

Fixpoint json_safe_detail_value (v : pyval) : option pyval :=
  match v with
  | PNone => None
  | PStr _ | PInt _ | PFloat _ | PBool _ => Some v
  | PList l | PTuple l => Some (PList (omap json_safe_detail_value l))
  | _ => Some (PStr (str_of v))
  end.

Definition classification_details (f : FailureClass) (error : option exn) (ctx : context) : context :=
  let details := [("failure_class", PStr (failure_class_value f))] in
  let details := match error with
                 | Some e => dset "exception_type" (PStr (type_name e)) details
                 | None => details
                 end in
  fold_left (λ d k, match dget k ctx ≫= json_safe_detail_value with
                    | Some v => dset k v d | None => d end) safe_detail_keys details.

Definition to_reasoner_error_classification (f : FailureClass) (error : option exn) (ctx : context)
    (message : option string) : option Classification :=
  match f with
  | FC_none | FC_success_with_fallback => None
  | _ =>
      let category := classification_category f error ctx in
      Some (mkClassification (error_code_by_category category) category
        (classification_retryable category f error ctx)
        (classification_message category f message)
        (classification_details f error ctx))
  end.

Definition classification_conflicts (supplied expected : Classification) : bool :=
  negb (bool_decide (cl_code supplied = cl_code expected))
  || negb (bool_decide (cl_category supplied = cl_category expected))
  || (negb (cl_retryable expected) && cl_retryable supplied).

Record FallbackDecision := mkDecision {
  configured_target : string;
  attempts : list string;
  final_target : option string;
  failure_class : FailureClass;
  terminal_reason : option string;
  error_classification : option Classification;
}.

Definition opt_str (o : option string) : pyval := match o with Some s => PStr s | None => PNone end.
Definition str_list (l : list string) : pyval := PList (map PStr l).

(** [FallbackDecision(...)]: the validator fills in the classification, or
    checks the one supplied; [None] is pydantic's ValidationError. *)
Definition make_decision (d : FallbackDecision) : option FallbackDecision :=
  let expected := to_reasoner_error_classification (failure_class d) None
    [("configured_target", PStr (configured_target d)); ("attempts", str_list (attempts d));
     ("final_target", opt_str (final_target d))] None in
  match expected, error_classification d with
  | None, None => Some d
  | None, Some _ => None
  | Some c, None =>
      Some (mkDecision (configured_target d) (attempts d) (final_target d) (failure_class d)
        (terminal_reason d) (Some c))
  | Some c, Some supplied => if classification_conflicts supplied c then None else Some d
  end.

(** ** Routing errors *)

Definition litellm_infra_names : list string :=
  ["APIConnectionError"; "APITimeoutError"; "AuthenticationError"; "BudgetExceededError";
   "InternalServerError"; "RateLimitError"; "ServiceUnavailableError"; "Timeout"].

Definition classify_failure (e : exn) (failure_source : string) : FailureClass :=
  if isinstance e ["NoAvailableProviderError"; "ProviderConfigError"] then FC_infra_level
  else if isinstance e litellm_infra_names then FC_infra_level
  else if isinstance e ["ConnectionError"; "TimeoutError"] then FC_infra_level
  else if isinstance e ["ParseValidationError"] ||
          (String.eqb failure_source "parse" && isinstance e ["ValueError"; "ValidationError"])
  then FC_task_level
  else if isinstance e ["ValidationError"] then FC_infra_level
  else FC_infra_level.
End classify.
End Classify.

(** ** The fallback chain *)
Module Chain.

Inductive AuthSpec := CodexCliAuthSpec (path : option string) | ClaudeCodeCliAuthSpec (binary_path : option string).
Record ProviderProfile := mkProfile {
  provider : string;
  model : string;
  timeout_ms : Z;
  fallback_priority : Z;
  rate_limit_rpm : option Z;
  auth : option AuthSpec;
}.

(** The fields of a request that routing reads, and the rest of it. *)
Record ReasonerRequest := mkRequest {
  configured_provider : string;
  configured_model : string;
  max_retries : nat;
  request_body : pyval;
}.

Definition format_target (prov mdl : string) : string :=
  if startswith (prov ++ "/") mdl then mdl else (prov ++ "/" ++ mdl)%string.
Definition format_provider_target (p : ProviderProfile) : string := format_target (provider p) (model p).
Definition format_request_target (r : ReasonerRequest) : string :=
  format_target (configured_provider r) (configured_model r).

Definition by_priority : list ProviderProfile → list ProviderProfile :=
  py_sort (λ a b, fallback_priority a <=? fallback_priority b).

(** The first loop: the configured target's best profile, if there is one. *)
Definition configured_first (target : string) (sorted : list ProviderProfile) : list ProviderProfile :=
  match List.find (λ p, String.eqb (format_provider_target p) target) sorted with
  | Some p => [p]
  | None => []
  end.

(** The second loop: one profile per target not yet selected. *)
Fixpoint select_new (selected_targets : gset string) (sorted : list ProviderProfile) : list ProviderProfile :=
  match sorted with
  | [] => []
  | p :: rest =>
      let target := format_provider_target p in
      if bool_decide (target ∈ selected_targets) then select_new selected_targets rest
      else p :: select_new ({[target]} ∪ selected_targets) rest
  end.

Definition ordered_fallback_chain (request : ReasonerRequest) (profiles : list ProviderProfile)
    : option (list ProviderProfile) :=
  match profiles with
  | [] => None
  | _ =>
      let first := configured_first (format_request_target request) (by_priority profiles) in
      let selected_targets := list_to_set (map format_provider_target first) in
      Some (first ++ select_new selected_targets (by_priority profiles))%list
  end.

(** [select_provider] of [routing.py]. *)
Definition select_provider (prov mdl : string) (profiles : list ProviderProfile)
    : option ProviderProfile :=
  let sorted := by_priority profiles in
  match List.find (λ p, String.eqb (provider p) prov && String.eqb (model p) mdl) sorted with
  | Some p => Some p
  | None => head sorted
  end.

Lemma sublist_mem {A} (l1 l2 : list A) x : sublist l1 l2 → x ∈ l1 → x ∈ l2.
Proof. intros Hs Hx. eapply elem_of_submseteq; [exact Hx|by apply sublist_submseteq]. Qed.

Lemma select_new_spec seen l :
  NoDup (map format_provider_target (select_new seen l)) ∧
  (∀ t, t ∈ map format_provider_target (select_new seen l) ↔
     (t ∉ seen) ∧ t ∈ map format_provider_target l) ∧
  sublist (select_new seen l) l.
Proof.
  revert seen. induction l as [|p l IH]; intros seen; cbn [select_new].
  { split_and!; [constructor| |constructor]. intros t. rewrite elem_of_nil. tauto. }
  destruct (IH seen) as (Hnd & Hin & Hsub).
  destruct (IH ({[format_provider_target p]} ∪ seen)) as (Hnd' & Hin' & Hsub').
  case_bool_decide as Hp.
  - split_and!; [done| |by apply sublist_cons]. intros t. rewrite Hin. cbn [map]. rewrite elem_of_cons.
    split; [tauto|]. intros [H [->|?]]; [done|tauto].
  - cbn [map]. split_and!; [apply NoDup_cons; split; [|done]| |by apply sublist_skip].
    + rewrite Hin'. set_solver.
    + intros t. rewrite !elem_of_cons, Hin'.
      destruct (decide (t = format_provider_target p)) as [->|]; set_solver.
Qed.

(** In a sorted list the profile kept for a target is the first with it. *)
Lemma select_new_best seen l p q :
  StronglySorted (λ a b, fallback_priority a ≤ fallback_priority b) l →
  p ∈ select_new seen l → q ∈ l → format_provider_target q = format_provider_target p →
  fallback_priority p ≤ fallback_priority q.
Proof.
  revert seen. induction l as [|x l IH]; intros seen Hs Hp Hq Ht; [by apply elem_of_nil in Hq|].
  apply StronglySorted_inv in Hs as [Hs Hx]. rewrite Forall_forall in Hx. cbn [select_new] in Hp.
  assert (∀ s, p ∈ select_new s l → p ∈ l ∧ format_provider_target p ∉ s) as Hsel.
  { intros s H. destruct (select_new_spec s l) as (_ & Hin & Hsub). split; [by eapply sublist_mem|].
    apply Hin. apply list_elem_of_fmap. eauto. }
  case_bool_decide as Hd.
  - destruct (Hsel _ Hp) as [Hpl Hps]. apply elem_of_cons in Hq as [->|Hq]; [by rewrite Ht in Hd|].
    by eapply IH.
  - apply elem_of_cons in Hp as [->|Hp].
    + apply elem_of_cons in Hq as [->|Hq]; [done|by apply Hx].
    + destruct (Hsel _ Hp) as [Hpl Hps]. apply elem_of_cons in Hq as [->|Hq]; [set_solver|by eapply IH].
Qed.

Lemma by_priority_sorted l :
  StronglySorted (λ a b, fallback_priority a ≤ fallback_priority b) (by_priority l).
Proof. apply py_sort_by_key. Qed.

Lemma find_first {A} (l : list A) (f : A → bool) p :
  List.find f l = Some p →
  ∃ pre post, l = (pre ++ p :: post)%list ∧ f p = true ∧ Forall (λ q, f q = false) pre.
Proof.
  induction l as [|x l IH]; simpl; [done|]. destruct (f x) eqn:E.
  - intros [= ->]. by exists [], l.
  - intros H. destruct (IH H) as (pre & post & -> & Hp & Hpre). exists (x :: pre), post.
    split_and!; [done|done|by constructor].
Qed.

Lemma find_best l t p :
  List.find (λ p, String.eqb (format_provider_target p) t) (by_priority l) = Some p →
  format_provider_target p = t ∧ p ∈ l ∧
  ∀ q, q ∈ l → format_provider_target q = t → fallback_priority p ≤ fallback_priority q.
Proof.
  intros H. apply find_first in H as (pre & post & Hl & Hp%String.eqb_eq & Hpre).
  split; [done|]. assert (∀ q, q ∈ l ↔ q ∈ pre ∨ q = p ∨ q ∈ post) as Hin.
  { intros q. rewrite <- (elem_of_py_sort (λ a b, fallback_priority a <=? fallback_priority b) q l).
    fold by_priority. change (q ∈ by_priority l ↔ q ∈ pre ∨ q = p ∨ q ∈ post).
    rewrite Hl, elem_of_app, elem_of_cons. done. }
  split; [apply Hin; tauto|]. intros q [Hq|[->|Hq]]%Hin Ht; [|done|].
  - rewrite Forall_forall in Hpre. specialize (Hpre q Hq). by apply String.eqb_neq in Hpre.
  - pose proof (by_priority_sorted l) as Hs. rewrite Hl in Hs.
    clear -Hs Hq. induction pre as [|x pre IH]; simpl in Hs; apply StronglySorted_inv in Hs as [Hs Hx].
    + rewrite Forall_forall in Hx. by apply Hx.
    + by apply IH.
Qed.

Lemma sorted_sublist {A} (R : A → A → Prop) l1 l2 :
  sublist l1 l2 → StronglySorted R l2 → StronglySorted R l1.
Proof.
  induction 1 as [|x l1 l2 Hs IH|x l1 l2 Hs IH]; intros H; [constructor|..];
    apply StronglySorted_inv in H as [H Hx]; [|by apply IH].
  constructor; [by apply IH|]. rewrite Forall_forall in Hx |- *. intros y Hy. apply Hx.
  by eapply sublist_mem.
Qed.

Lemma chain_shape request profiles chain :
  ordered_fallback_chain request profiles = Some chain →
  ∃ first, chain = (first ++ select_new (list_to_set (map format_provider_target first)) (by_priority profiles))%list ∧
    ((first = [] ∧ format_request_target request ∉ map format_provider_target profiles) ∨
     ∃ p, first = [p] ∧ format_provider_target p = format_request_target request ∧ p ∈ profiles ∧
       ∀ q, q ∈ profiles → format_provider_target q = format_request_target request →
         fallback_priority p ≤ fallback_priority q).
Proof.
  intros H. set (t0 := format_request_target request).
  exists (configured_first t0 (by_priority profiles)). split.
  { unfold ordered_fallback_chain in H. destruct profiles; [done|]. by injection H as <-. }
  unfold configured_first. destruct (List.find _ _) as [p|] eqn:E.
  - right. exists p. split; [done|]. by apply find_best in E as (? & ? & ?).
  - left. split; [done|]. intros (q & Hqt & Hq)%list_elem_of_fmap.
    apply (elem_of_py_sort (λ a b, fallback_priority a <=? fallback_priority b)), list_elem_of_In in Hq.
    apply (find_none _ _ E) in Hq. by apply String.eqb_neq in Hq.
Qed.

Lemma chain_targets request profiles chain :
  ordered_fallback_chain request profiles = Some chain →
  NoDup (map format_provider_target chain) ∧
  ∀ t, t ∈ map format_provider_target chain ↔ t ∈ map format_provider_target profiles.
Proof.
  intros (first & -> & Hfirst)%chain_shape.
  set (seen := list_to_set (map format_provider_target first)).
  destruct (select_new_spec seen (by_priority profiles)) as (Hnd & Hin & _).
  assert (∀ t, t ∈ map format_provider_target (by_priority profiles) ↔ t ∈ map format_provider_target profiles)
    as Hperm by (intros t; unfold by_priority; by rewrite py_sort_perm).
  rewrite map_app. split.
  - rewrite NoDup_app. split_and!; [| |done].
    + destruct Hfirst as [[-> _]|(p & -> & _)]; [constructor|apply NoDup_singleton].
    + intros t Ht Hs. apply Hin in Hs as [Hs _]. apply Hs. unfold seen. by apply elem_of_list_to_set.
  - intros t. rewrite elem_of_app, Hin, Hperm. unfold seen. rewrite elem_of_list_to_set.
    split; [|intros Ht; destruct (decide (t ∈ map format_provider_target first)); tauto].
    intros [Ht|[_ Ht]]; [|done]. destruct Hfirst as [[E _]|(p & E & Hp & Hpin & _)]; rewrite E in Ht;
      [by apply elem_of_nil in Ht|]. apply list_elem_of_singleton in Ht as ->.
    apply list_elem_of_fmap. by exists p.
Qed.

(** The fallback chain is sound: it has exactly one profile per target
    that the catalog offers, each the one of best priority for its target;
    when the configured target is offered it comes first, and the rest follow
    in priority order. *)
Theorem chain_covers_targets request profiles chain :
  ordered_fallback_chain request profiles = Some chain →
  NoDup (map format_provider_target chain) ∧
  (∀ t, t ∈ map format_provider_target chain ↔ t ∈ map format_provider_target profiles) ∧
  (∀ p q, p ∈ chain → q ∈ profiles → format_provider_target q = format_provider_target p →
     p ∈ profiles ∧ fallback_priority p ≤ fallback_priority q) ∧
  (format_request_target request ∈ map format_provider_target profiles →
     ∃ p rest, chain = p :: rest ∧ format_provider_target p = format_request_target request ∧
       StronglySorted (λ a b, fallback_priority a ≤ fallback_priority b) rest) ∧
  (format_request_target request ∉ map format_provider_target profiles →
     StronglySorted (λ a b, fallback_priority a ≤ fallback_priority b) chain).
Proof.
  intros H. destruct (chain_targets _ _ _ H) as [Hnd Hin]. split; [done|]. split; [done|].
  apply chain_shape in H as (first & -> & Hfirst).
  set (seen := list_to_set (map format_provider_target first)).
  destruct (select_new_spec seen (by_priority profiles)) as (_ & _ & Hsub).
  assert (∀ q, q ∈ by_priority profiles ↔ q ∈ profiles) as Hmem by (intros q; apply elem_of_py_sort).
  split_and!.
  - intros p q [Hp|Hp]%elem_of_app Hq Ht.
    + destruct Hfirst as [[E _]|(p' & E & Hp' & Hpin & Hbest)]; rewrite E in Hp;
        [by apply elem_of_nil in Hp|]. apply list_elem_of_singleton in Hp as ->.
      split; [done|]. apply Hbest; [done|]. by rewrite Ht.
    + split; [by apply Hmem, (sublist_mem _ _ _ Hsub)|].
      eapply select_new_best; [apply by_priority_sorted|exact Hp|by apply Hmem|done].
  - intros Ht. destruct Hfirst as [[_ E]|(p & E & Hp & _)]; [done|].
    exists p, (select_new seen (by_priority profiles)). rewrite E. split_and!; [done|done|].
    eapply sorted_sublist; [exact Hsub|apply by_priority_sorted].
  - intros Ht. destruct Hfirst as [[E _]|(p & E & Hp & Hpin & _)].
    + rewrite E. eapply sorted_sublist; [exact Hsub|apply by_priority_sorted].
    + destruct Ht. rewrite <- Hp. apply list_elem_of_fmap. by exists p.
Qed.
End Chain.

(** ** Executing a request *)
Module Execute.
Import Text Classify Chain.

(** The fields of a result that the loop fills in, and the rest of it. *)
Record GenerationResult := mkGenerated {
  actual_provider : string;
  actual_model : string;
  result_configured_target : option string;
  result_failure_class : string;
  fallback_path : list string;
  retry_count : nat;
  generated : pyval;
}.

(** [DecisionRejected] is the ValidationError of the decision's validator. *)
Inductive execution_error :=
| FallbackExecutionError (decision : FallbackDecision) (last_error : option exn)
| DecisionRejected.

(** How the calls to one provider end. *)
Inductive provider_end :=
| Generated (r : GenerationResult) (retry_index : nat)
| ParseFailed (e : exn)
| TaskFailed (e : exn)
| InfraFailed (e : exn).

Definition no_available_provider : exn :=
  mkExn ["NoAvailableProviderError"; "ProviderRoutingError"; "RuntimeError"; "Exception"; "BaseException"]
    "at least one provider profile is required" None.

Section execute.
Context (str_of : pyval → string) {W : Type}.
Context (call_fn : W → ReasonerRequest → ProviderProfile → nat → result exn GenerationResult * W).
Context (request : ReasonerRequest).

(** [for retry_index in range(max_retries + 1)], with [left] retries to go. *)
Fixpoint call_provider (profile : ProviderProfile) (left retry_index : nat) (w : W) : provider_end * W :=
  match call_fn w request profile retry_index with
  | (Ok res, w') => (Generated res retry_index, w')
  | (Err e, w') =>
      if isinstance e ["ParseValidationError"] then
        match left with
        | S left' => call_provider profile left' (S retry_index) w'
        | O => (ParseFailed e, w')
        end
      else if bool_decide (classify_failure e "provider" = FC_task_level) then (TaskFailed e, w')
      else (InfraFailed e, w')
  end.

Definition task_context (attempts : list string) (p : ProviderProfile) (key value : string) : context :=
  let target := format_provider_target p in
  [("configured_target", PStr (format_request_target request)); ("attempts", str_list attempts);
   ("final_target", PStr target); ("provider", PStr (provider p)); ("model", PStr (model p));
   ("target", PStr target); (key, PStr value)].

(** [raise FallbackExecutionError(FallbackDecision(...), error)] *)
Definition raise_decision {A} (attempts : list string) (final : option string) (f : FailureClass)
    (reason : string) (error : option exn) (ctx : context) : result execution_error A :=
  match make_decision str_of (mkDecision (format_request_target request) attempts final f (Some reason)
          (to_reasoner_error_classification str_of f error ctx None)) with
  | Some d => Err (FallbackExecutionError d error)
  | None => Err DecisionRejected
  end.

Definition raise_task {A} (attempts : list string) (p : ProviderProfile) (e : exn) (key value : string)
    : result execution_error A :=
  raise_decision attempts (Some (format_provider_target p)) FC_task_level (exn_text e) (Some e)
    (task_context attempts p key value).

Definition succeed (attempts : list string) (had_infra_failure : bool) (p : ProviderProfile)
    (res : GenerationResult) (retry_index : nat)
    : result execution_error (GenerationResult * FallbackDecision) :=
  let f := if had_infra_failure then FC_success_with_fallback else FC_none in
  let configured := format_request_target request in
  let res' := mkGenerated (provider p) (model p) (Some configured) (failure_class_value f) attempts
                retry_index (generated res) in
  match make_decision str_of (mkDecision configured attempts (Some (format_provider_target p)) f None None) with
  | Some d => Ok (res', d)
  | None => Err DecisionRejected
  end.

(** After the loop. *)
Definition raise_exhausted {A} (attempts : list string) (last_error : option exn)
    : result execution_error A :=
  raise_decision attempts None FC_infra_level
    match last_error with Some e => exn_text e | None => "fallback chain exhausted" end last_error
    [("configured_target", PStr (format_request_target request)); ("attempts", str_list attempts);
     ("failure_source", PStr match attempts with [] => "routing" | _ => "provider" end)].

(** [for profile in fallback_chain] *)
Fixpoint try_chain (chain : list ProviderProfile) (attempts : list string) (had_infra_failure : bool)
    (last_error : option exn) (w : W)
    : result execution_error (GenerationResult * FallbackDecision) * W :=
  match chain with
  | [] => (raise_exhausted attempts last_error, w)
  | p :: rest =>
      let attempts' := (attempts ++ [format_provider_target p])%list in
      match call_provider p (max_retries request) 0 w with
      | (Generated res i, w') => (succeed attempts' had_infra_failure p res i, w')
      | (ParseFailed e, w') => (raise_task attempts' p e "phase" "parse", w')
      | (TaskFailed e, w') => (raise_task attempts' p e "failure_source" "provider", w')
      | (InfraFailed e, w') => try_chain rest attempts' true (Some e) w'
      end
  end.

Definition execute_with_fallback (profiles : list ProviderProfile) (w : W)
    : result execution_error (GenerationResult * FallbackDecision) * W :=
  match ordered_fallback_chain request profiles with
  | None =>
      (raise_decision [] None FC_infra_level (exn_text no_available_provider) (Some no_available_provider)
         [("configured_target", PStr (format_request_target request))], w)
  | Some chain => try_chain chain [] false None w
  end.

(** Every provider of a list fails over to the next; [last] is the error of
    the last one. *)
Inductive falls_through : W → list ProviderProfile → option exn → W → Prop :=
| ft_none w : falls_through w [] None w
| ft_provider w p e w1 rest last w2 :
    call_provider p (max_retries request) 0 w = (InfraFailed e, w1) →
    falls_through w1 rest last w2 →
    falls_through w (p :: rest) (Some (default e last)) w2.

(** ** Decisions *)

Lemma task_decision_accepted {A} attempts p e key value :
  ∃ d, raise_task (A := A) attempts p e key value = Err (FallbackExecutionError d (Some e)) ∧
    Classify.attempts d = attempts ∧ final_target d = Some (format_provider_target p) ∧
    failure_class d = FC_task_level ∧ terminal_reason d = Some (exn_text e) ∧
    ∃ c, error_classification d = Some c ∧ cl_category c = INPUT_CONTRACT ∧ cl_retryable c = false.
Proof. eexists. split; [reflexivity|]. split_and!; try done. eexists. split; reflexivity || done. Qed.

(** An exhausted chain's decision is accepted unless its error is a timeout. *)
Lemma exhausted_decision {A} attempts e :
  attempts ≠ [] →
  if is_timeout_failure str_of (Some e) [] then raise_exhausted (A := A) attempts (Some e) = Err DecisionRejected
  else ∃ d, raise_exhausted (A := A) attempts (Some e) = Err (FallbackExecutionError d (Some e)) ∧
    Classify.attempts d = attempts ∧ final_target d = None ∧ failure_class d = FC_infra_level ∧
    terminal_reason d = Some (exn_text e) ∧
    ∃ c, error_classification d = Some c ∧ cl_category c = MODEL_PROVIDER.
Proof.
  intros Hne. destruct attempts as [|a attempts]; [done|].
  unfold raise_exhausted, raise_decision, make_decision, to_reasoner_error_classification.
  set (ctx := [("configured_target", PStr (format_request_target request)); _; _]).
  set (own := [("configured_target", _); ("attempts", _); ("final_target", _)]).
  assert (classification_category str_of FC_infra_level (Some e) ctx =
    if is_timeout_failure str_of (Some e) [] then TIMEOUT else MODEL_PROVIDER) as Hcat.
  { unfold classification_category. cbn [bool_decide decide decide_rel failure_class_dec].
    change (is_timeout_failure str_of (Some e) ctx) with
      ((isinstance e ["TimeoutError"] || existsb (λ n, contains "timeout" (lower n)) (exn_mro e)) || false).
    change (is_timeout_failure str_of (Some e) []) with
      ((isinstance e ["TimeoutError"] || existsb (λ n, contains "timeout" (lower n)) (exn_mro e)) || false).
    by destruct (_ || false). }
  change (classification_category str_of (failure_class _) None own) with MODEL_PROVIDER.
  cbn [error_classification failure_class]. rewrite Hcat.
  destruct (is_timeout_failure str_of (Some e) []).
  - reflexivity.
  - unfold classification_conflicts. cbn [cl_code cl_category error_code_by_category cl_retryable classification_retryable].
    change (negb (is_non_retryable_provider_failure str_of None own)) with true.
    rewrite !bool_decide_eq_true_2 by done. cbn [negb orb andb].
    eexists. split; [reflexivity|]. split_and!; try done. eexists. done.
Qed.

Lemma call_provider_retries p left i w r j w' :
  call_provider p left i w = (Generated r j, w') → (i ≤ j ≤ i + left)%nat.
Proof.
  revert i w. induction left as [|left IH]; intros i w; cbn [call_provider];
    destruct (call_fn w request p i) as [[res|e] w1].
  - intros [= <- <- <-]. lia.
  - destruct (isinstance e _); [done|]. by case_bool_decide.
  - intros [= <- <- <-]. lia.
  - destruct (isinstance e _); [|by case_bool_decide]. intros H%IH. lia.
Qed.

(** The loop runs through the providers that fail over, and stops at the
    first that does not or at the end of the chain. *)
Lemma try_chain_split chain attempts had last w :
  ∃ pre w1 last', falls_through w pre last' w1 ∧
    let attempts' := (attempts ++ map format_provider_target pre)%list in
    let had' := had || negb (bool_decide (pre = [])) in
    let last'' := match last' with Some e => Some e | None => last end in
    ((chain = pre ∧ try_chain chain attempts had last w = (raise_exhausted attempts' last'', w1)) ∨
     ∃ p post w2 en, chain = (pre ++ p :: post)%list ∧
       call_provider p (max_retries request) 0 w1 = (en, w2) ∧
       match en with
       | Generated r i => try_chain chain attempts had last w =
           (succeed (attempts' ++ [format_provider_target p]) had' p r i, w2)
       | ParseFailed e => try_chain chain attempts had last w =
           (raise_task (attempts' ++ [format_provider_target p]) p e "phase" "parse", w2)
       | TaskFailed e => try_chain chain attempts had last w =
           (raise_task (attempts' ++ [format_provider_target p]) p e "failure_source" "provider", w2)
       | InfraFailed _ => False
       end).
Proof.
  revert attempts had last w. induction chain as [|p chain IH]; intros attempts had last w.
  { exists [], w, None. split; [constructor|]. left. simpl. by rewrite app_nil_r. }
  cbn [try_chain]. destruct (call_provider p (max_retries request) 0 w) as [en w1] eqn:Hcall.
  destruct en as [r i|e|e|e].
  1,2,3: exists [], w, None; split; [constructor|]; right; exists p, chain, w1; eexists; split; [done|];
    split; [exact Hcall|]; simpl; by rewrite app_nil_r, ?orb_false_r.
  destruct (IH (attempts ++ [format_provider_target p])%list true (Some e) w1)
    as (pre & w2 & last' & Hfalls & Hcase).
  exists (p :: pre), w2, (Some (default e last')). split; [by econstructor|].
  cbn [map]. simpl in Hcase. rewrite <- !app_assoc in Hcase. simpl in Hcase.
  assert (match last' with Some x => Some x | None => Some e end = Some (default e last')) as Hl by (by destruct last').
  rewrite Hl in Hcase. rewrite bool_decide_eq_false_2 by done. simpl. rewrite orb_true_r.
  destruct Hcase as [[-> ->]|(q & post & w3 & en & -> & Hq & H)]; [by left|right].
  exists q, post, w3, en. split_and!; [done|done|]. by rewrite <- !app_assoc in *.
Qed.

Lemma succeed_ok attempts had p r i :
  succeed attempts had p r i = Ok
    (mkGenerated (provider p) (model p) (Some (format_request_target request))
       (failure_class_value (if had then FC_success_with_fallback else FC_none)) attempts i (generated r),
     mkDecision (format_request_target request) attempts (Some (format_provider_target p))
       (if had then FC_success_with_fallback else FC_none) None None).
Proof. by destruct had. Qed.

(** C28: a result is attributed truthfully: when a request succeeds, the
    providers before one of the chain all failed over, that one produced the
    content within its retries, and the result and the decision name it, the
    path tried, the retry and whether a fallback happened; failing over
    happens exactly when earlier providers were tried. *)
Theorem success_is_attributed profiles w res d w' :
  execute_with_fallback profiles w = (Ok (res, d), w') →
  ∃ chain pre p post last w1 r, ordered_fallback_chain request profiles = Some chain ∧
    chain = (pre ++ p :: post)%list ∧ falls_through w pre last w1 ∧
    call_provider p (max_retries request) 0 w1 = (Generated r (retry_count res), w') ∧
    (retry_count res ≤ max_retries request)%nat ∧
    generated res = generated r ∧ actual_provider res = provider p ∧ actual_model res = model p ∧
    fallback_path res = map format_provider_target (pre ++ [p])%list ∧
    Classify.attempts d = fallback_path res ∧ final_target d = Some (format_provider_target p) ∧
    failure_class d = (if bool_decide (pre = []) then FC_none else FC_success_with_fallback) ∧
    result_failure_class res = failure_class_value (failure_class d).
Proof.
  unfold execute_with_fallback. destruct (ordered_fallback_chain request profiles) as [chain|]; [|done].
  destruct (try_chain_split chain [] false None w) as (pre & w1 & last & Hfalls & [[_ ->]|H]).
  { unfold raise_exhausted, raise_decision. by case_match. }
  destruct H as (p & post & w2 & en & Hchain & Hcall & H).
  destruct en as [r i|e|e|e]; [|rewrite H; unfold raise_task, raise_decision; by case_match..|done].
  rewrite H, succeed_ok. intros [= <- <- <-]. simpl.
  exists chain, pre, p, post, last, w1, r. rewrite map_app. split_and!; try done.
  - pose proof (call_provider_retries _ _ _ _ _ _ _ Hcall). lia.
  - by case_bool_decide.
Qed.

(** C32: a failure says how far it went: a request that ends in a fallback
    error either had no provider at all, or was stopped by a task-level
    failure of the last provider tried (never retryable), or ran through the
    whole chain; its decision lists exactly the providers tried and always
    carries a classification. *)
Theorem failure_is_reported profiles w d e w' :
  execute_with_fallback profiles w = (Err (FallbackExecutionError d e), w') →
  is_Some (error_classification d) ∧
  ((profiles = [] ∧ Classify.attempts d = [] ∧ failure_class d = FC_infra_level) ∨
   ∃ chain pre last w1, ordered_fallback_chain request profiles = Some chain ∧
     falls_through w pre last w1 ∧
     ((chain = pre ∧ Classify.attempts d = map format_provider_target chain ∧
        final_target d = None ∧ failure_class d = FC_infra_level ∧ e = last) ∨
      ∃ p post err, chain = (pre ++ p :: post)%list ∧ e = Some err ∧
        (call_provider p (max_retries request) 0 w1 = (ParseFailed err, w') ∨
         call_provider p (max_retries request) 0 w1 = (TaskFailed err, w')) ∧
        Classify.attempts d = map format_provider_target (pre ++ [p])%list ∧
        final_target d = Some (format_provider_target p) ∧ failure_class d = FC_task_level ∧
        ∃ c, error_classification d = Some c ∧ cl_category c = INPUT_CONTRACT ∧ cl_retryable c = false)).
Proof.
  unfold execute_with_fallback. destruct (ordered_fallback_chain request profiles) as [chain|] eqn:Hc.
  2:{ intros [= <- <- <-]. simpl. split; [eauto|]. left. split; [|done].
      unfold ordered_fallback_chain in Hc. by destruct profiles. }
  destruct (try_chain_split chain [] false None w) as (pre & w1 & last & Hfalls & [[-> ->]|H]).
  - assert (pre ≠ []) as Hne.
    { intros ->. unfold ordered_fallback_chain in Hc. destruct profiles as [|q l]; [done|].
      injection Hc as Hc. apply (f_equal (map format_provider_target)) in Hc.
      assert (ordered_fallback_chain request (q :: l) = Some []) as Hc' by (unfold ordered_fallback_chain; f_equal; by apply fmap_nil_inv in Hc).
      destruct (chain_targets _ _ _ Hc') as [_ Hin]. specialize (Hin (format_provider_target q)).
      simpl in Hin. rewrite elem_of_nil, elem_of_cons in Hin. tauto. }
    destruct Hfalls as [|w p e' w2 rest last w3 Hp Hrest]; [done|].
    intros H. injection H as H <-.
    pose proof (exhausted_decision (A := GenerationResult * FallbackDecision)
      (map format_provider_target (p :: rest)) (default e' last) ltac:(done)) as Hex.
    simpl in H, Hex. destruct (is_timeout_failure _ _ _); rewrite H in Hex; [done|].
    destruct Hex as (d' & [= <- ->] & Ha & Hf & Hcl & _ & c & Hcc & _). split; [eauto|]. right.
    exists (p :: rest), (p :: rest), (Some (default e' last)), w3. split_and!; [done|by econstructor|].
    left. split_and!; done.
  - destruct H as (p & post & w2 & en & Hchain & Hcall & H).
    destruct en as [r i|err|err|err]; [rewrite H, succeed_ok; done| | |done];
      rewrite H; intros [Heq <-]%pair_equal_spec.
    1: destruct (task_decision_accepted (A := GenerationResult * FallbackDecision)
        (map format_provider_target pre ++ [format_provider_target p])%list p err "phase" "parse")
        as (d' & Hd & Ha & Hf & Hcl & _ & c & Hcc & Hcat & Hret).
    2: destruct (task_decision_accepted (A := GenerationResult * FallbackDecision)
        (map format_provider_target pre ++ [format_provider_target p])%list p err "failure_source" "provider")
        as (d' & Hd & Ha & Hf & Hcl & _ & c & Hcc & Hcat & Hret).
    all: rewrite app_nil_l, Hd in Heq; injection Heq as <- <-; split; [eauto|]; right;
      exists chain, pre, last, w1; split_and!; [done|done|]; right; exists p, post, err;
      rewrite map_app; split_and!; eauto.
Qed.

(** Running out of providers because of timeouts is not reported as a
    fallback error: when the chain is exhausted and its last error is a
    timeout, the decision built for the error is rejected by its own
    validator; with any other last error the fallback error is raised, with
    the whole chain as its attempts. *)
Theorem exhausted_by_timeout profiles chain w w' e :
  ordered_fallback_chain request profiles = Some chain →
  falls_through w chain (Some e) w' →
  if is_timeout_failure str_of (Some e) []
  then execute_with_fallback profiles w = (Err DecisionRejected, w')
  else ∃ d, execute_with_fallback profiles w = (Err (FallbackExecutionError d (Some e)), w') ∧
    Classify.attempts d = map format_provider_target chain ∧
    ∃ c, error_classification d = Some c ∧ cl_category c = MODEL_PROVIDER.
Proof.
  intros Hc Hfalls.
  assert (∀ chain w last w', falls_through w chain last w' → ∀ attempts had l0,
    try_chain chain attempts had l0 w = (raise_exhausted (attempts ++ map format_provider_target chain)
      match last with Some x => Some x | None => l0 end, w')) as Hrun.
  { clear. induction 1 as [w|w p e w1 rest last w2 Hp Hrest IH]; intros attempts had l0.
    - simpl. by rewrite app_nil_r.
    - cbn [try_chain]. rewrite Hp, IH. cbn [map]. rewrite <- app_assoc. by destruct last. }
  assert (chain ≠ []) as Hne by (intros ->; inversion Hfalls).
  unfold execute_with_fallback. rewrite Hc, (Hrun _ _ _ _ Hfalls). cbn [app].
  pose proof (exhausted_decision (A := GenerationResult * FallbackDecision)
    (map format_provider_target chain) e ltac:(by destruct chain)) as Hex.
  destruct (is_timeout_failure _ _ _); [by rewrite Hex|].
  destruct Hex as (d & -> & Ha & _ & _ & _ & Hcl). eauto.
Qed.
End execute.

(** A provider call that also counts the calls made. *)
Definition counting {W : Type}
    (call_fn : W → ReasonerRequest → ProviderProfile → nat → result exn GenerationResult * W)
    (nw : nat * W) (request : ReasonerRequest) (p : ProviderProfile) (i : nat)
    : result exn GenerationResult * (nat * W) :=
  let '(r, w') := call_fn nw.2 request p i in (r, (S nw.1, w')).

Lemma counting_provider {W} (call_fn : W → _) request p left i n w en n' w' :
  call_provider (counting call_fn) request p left i (n, w) = (en, (n', w')) →
  (n' ≤ n + S left)%nat ∧ call_provider call_fn request p left i w = (en, w').
Proof.
  revert i n w. induction left as [|left IH]; intros i n w; cbn [call_provider];
    unfold counting at 1; simpl; destruct (call_fn w request p i) as [[res|e] w1].
  1,3: intros [= <- <- <-]; split; [lia|done].
  - repeat case_match; intros [= <- <- <-]; (split; [lia|done]).
  - destruct (isinstance e _).
    + intros H. apply IH in H as [? ?]. split; [lia|done].
    + case_bool_decide; intros [= <- <- <-]; (split; [lia|done]).
Qed.

Lemma counting_chain str_of {W} (call_fn : W → _) request chain attempts had last n w r n' w' :
  try_chain str_of (counting call_fn) request chain attempts had last (n, w) = (r, (n', w')) →
  (n' ≤ n + length chain * S (max_retries request))%nat ∧
  try_chain str_of call_fn request chain attempts had last w = (r, w').
Proof.
  revert attempts had last n w. induction chain as [|p chain IH]; intros attempts had last n w; cbn [try_chain].
  { intros [= <- <- <-]. split; [simpl; lia|done]. }
  destruct (call_provider (counting call_fn) request p (max_retries request) 0 (n, w)) as [en [n1 w1]] eqn:Hc.
  apply counting_provider in Hc as [Hn ->].
  destruct en as [res i|e|e|e]; [intros [= <- <- <-]; split; [simpl; lia|done]..|].
  intros H. apply IH in H as [? ->]. split; [simpl; lia|done].
Qed.

(** C40: a request makes a bounded number of provider calls: at most one per
    profile and permitted attempt, whatever the providers answer; counting
    them changes nothing else. *)
Theorem calls_are_bounded str_of {W} (call_fn : W → _) request profiles w r n w' :
  execute_with_fallback str_of (counting call_fn) request profiles (0%nat, w) = (r, (n, w')) →
  (n ≤ length profiles * S (max_retries request))%nat ∧
  execute_with_fallback str_of call_fn request profiles w = (r, w').
Proof.
  unfold execute_with_fallback. destruct (ordered_fallback_chain request profiles) as [chain|] eqn:Hc.
  - intros H. apply counting_chain in H as [Hn ->]. split; [|done].
    destruct (chain_targets _ _ _ Hc) as [Hnd Hin].
    assert (length chain ≤ length profiles)%nat as Hlen.
    { rewrite <- (List.length_map format_provider_target chain), <- (List.length_map format_provider_target profiles).
      apply submseteq_length, NoDup_submseteq; [done|]. intros t. apply Hin. }
    assert (length chain * S (max_retries request) ≤ length profiles * S (max_retries request))%nat
      by (apply Nat.mul_le_mono_r; done). lia.
  - intros [= <- <- <-]. split; [lia|done].
Qed.
End Execute.

(** ** Concrete runs *)
Module FallbackExamples.
Import Classify Chain Execute.

Definition ex_profile (p : string) (prio : Z) : ProviderProfile := mkProfile p "m" 30000 prio None None.
Definition ex_request : ReasonerRequest := mkRequest "openai" "m" 1 PNone.
Definition ex_profiles : list ProviderProfile := [ex_profile "minimax" 1; ex_profile "openai" 2; ex_profile "openai" 3].
Definition ex_chain : list ProviderProfile := [ex_profile "openai" 2; ex_profile "minimax" 1].

Lemma chain_covers_targets_witness :
  ordered_fallback_chain ex_request ex_profiles = Some ex_chain ∧
  NoDup (map format_provider_target ex_chain).
Proof.
  assert (ordered_fallback_chain ex_request ex_profiles = Some ex_chain) as H by (vm_compute; reflexivity).
  split; [exact H|exact (proj1 (chain_covers_targets ex_request ex_profiles ex_chain H))].
Defined.

(** Answers read off a script, one per call. *)
Definition script := list (result exn GenerationResult).
Definition ex_text : exn := mkExn ["Exception"] "ended" None.
Definition ex_call (w : script) (_ : ReasonerRequest) (_ : ProviderProfile) (_ : nat)
    : result exn GenerationResult * script :=
  match w with a :: rest => (a, rest) | [] => (Err ex_text, []) end.
Definition ex_answer : GenerationResult := mkGenerated "" "" None "none" [] 0 (PInt 7).
Definition ex_timeout : exn := mkExn ["APITimeoutError"; "Exception"] "slow" None.
Definition ex_parse : exn := mkExn ["ParseValidationError"; "ValueError"] "bad" None.

Definition ex_result : GenerationResult :=
  mkGenerated "minimax" "m" (Some "openai/m") "success_with_fallback" ["openai/m"; "minimax/m"] 1 (PInt 7).
Definition ex_decision : FallbackDecision :=
  mkDecision "openai/m" ["openai/m"; "minimax/m"] (Some "minimax/m") FC_success_with_fallback None None.

(** The first provider is down, the second answers at its second attempt. *)
Lemma success_is_attributed_witness :
  ∃ chain pre p post last w1 r, ordered_fallback_chain ex_request ex_profiles = Some chain ∧
    chain = (pre ++ p :: post)%list ∧
    falls_through ex_call ex_request [Err ex_timeout; Err ex_parse; Ok ex_answer] pre last w1 ∧
    call_provider ex_call ex_request p 1 0 w1 = (Generated r 1, []) ∧ generated ex_result = generated r.
Proof.
  destruct (success_is_attributed (λ _, "") ex_call ex_request ex_profiles
    [Err ex_timeout; Err ex_parse; Ok ex_answer] ex_result ex_decision [])
    as (chain & pre & p & post & last & w1 & r & Hc & Hs & Hf & Hcall & _ & Hg & _);
    [vm_compute; reflexivity|].
  exists chain, pre, p, post, last, w1, r. exact (conj Hc (conj Hs (conj Hf (conj Hcall Hg)))).
Defined.

Definition ex_down : exn := mkExn ["RateLimitError"; "Exception"] "busy" (Some 429).
Definition ex_failure : option (FallbackDecision * option exn) := Eval vm_compute in
  match execute_with_fallback (λ _, "") ex_call ex_request ex_profiles [Err ex_timeout; Err ex_down] with
  | (Err (FallbackExecutionError d e), _) => Some (d, e) | _ => None end.

Lemma failure_is_reported_witness :
  match ex_failure with
  | Some (d, e) => is_Some (error_classification d) ∧ e = Some ex_down
  | None => False
  end.
Proof.
  split; [|reflexivity].
  eapply (failure_is_reported (λ _, "") ex_call ex_request ex_profiles [Err ex_timeout; Err ex_down]).
  vm_compute. reflexivity.
Defined.

Lemma exhausted_by_timeout_witness :
  execute_with_fallback (λ _, "") ex_call ex_request ex_profiles [Err ex_down; Err ex_timeout]
  = (Err DecisionRejected, []).
Proof.
  apply (exhausted_by_timeout (λ _, "") ex_call ex_request ex_profiles ex_chain
    [Err ex_down; Err ex_timeout] [] ex_timeout); [vm_compute; reflexivity|].
  eapply (ft_provider ex_call ex_request _ _ ex_down _ _ (Some ex_timeout)); [reflexivity|].
  eapply (ft_provider ex_call ex_request _ _ ex_timeout _ _ None); [reflexivity|constructor].
Defined.

Lemma calls_are_bounded_witness :
  (3 ≤ length ex_profiles * 2)%nat ∧
  execute_with_fallback (λ _, "") ex_call ex_request ex_profiles [Err ex_timeout; Err ex_parse; Ok ex_answer]
  = (Ok (ex_result, ex_decision), []).
Proof.
  apply (calls_are_bounded (λ _, "") ex_call ex_request ex_profiles
    [Err ex_timeout; Err ex_parse; Ok ex_answer]). vm_compute. reflexivity.
Defined.
End FallbackExamples.
