(* ===== verification/Review.v ===== *)
(** * Review: the manual review queue of entity-registry

    [ReviewModel] holds the records of [references.py], [core.py] and
    [review.py] with their validators; [ReviewStores] the in-memory
    repositories of [storage.py], the review repository with its claim and its
    atomic completion of a decision, written against the interfaces
    [AuditWriter] and [AliasWriter]; [ReviewWorkflow] the operations of
    [review.py] on all repositories together, enqueueing against any
    [ReviewRepository], whose calls may raise. Identifiers drawn at random and
    clock readings are arguments. *)
From Stdlib Require Import String Ascii ZArith List SpecFloat.
From stdpp Require Import base gmap strings list.
From S2P Require Import Prelude PyLib Programs.
Local Open Scope string_scope.
Local Open Scope Z_scope.

Module ReviewModel.

Inductive ReviewStatus := PENDING | CLAIMED | REJECTED | PROMOTED | DECIDED.
#[export] Instance review_status_dec : EqDecision ReviewStatus.
Proof. solve_decision. Defined.
Definition terminal (s : ReviewStatus) : bool :=
  match s with REJECTED | PROMOTED | DECIDED => true | PENDING | CLAIMED => false end.

Inductive AliasType := FULL_NAME | SHORT_NAME | CODE | ENGLISH | FORMER_NAME | CNSPELL.
#[export] Instance alias_type_dec : EqDecision AliasType.
Proof. solve_decision. Defined.
#[export] Instance alias_type_countable : Countable AliasType.
Proof.
  refine (inj_countable' (λ a, match a with
    | FULL_NAME => 0 | SHORT_NAME => 1 | CODE => 2 | ENGLISH => 3 | FORMER_NAME => 4 | CNSPELL => 5 end)
    (λ n, match n with 0 => FULL_NAME | 1 => SHORT_NAME | 2 => CODE | 3 => ENGLISH | 4 => FORMER_NAME
      | _ => CNSPELL end) _).
  by intros [].
Defined.
Inductive ResolutionMethod := DETERMINISTIC | FUZZY | LLM | MANUAL | UNRESOLVED.
#[export] Instance resolution_method_dec : EqDecision ResolutionMethod.
Proof. solve_decision. Defined.
Inductive DecisionType := AUTO | LLM_ASSISTED | MANUAL_REVIEW.

Inductive review_error :=
| ModelValidationError
| QueueItemNotFound (queue_item_id : string)
| ReferenceNotFound (reference_id : string)
| CaseNotFound (reference_id : string)
| EntityNotFound (entity_id : string)
| AlreadyCompleted (queue_item_id : string)
| AlreadyClaimed (queue_item_id : string)
| CannotBeClaimed (s : ReviewStatus)
| EmptyReviewer
| NotExplicitlyUnresolved
| MissingReferenceCreatedAt (queue_item_id : string)
| NotTerminalStatus
| NotTransactional
| CaseReferenceMismatch
| AliasNeedsEntity
| WriterError (message : string).

Record EntityReference := mkReference {
  ref_id : string;
  ref_raw_mention_text : string;
  ref_source_context : pdict;
  ref_resolved_entity_id : option string;
  ref_resolution_method : ResolutionMethod;
  ref_resolution_confidence : option spec_float;
  ref_created_at : Z;
  ref_rule_version : string;
}.
Record ResolutionCase := mkCase {
  case_id : string;
  case_reference_id : string;
  case_candidate_entity_ids : list string;
  case_selected_entity_id : option string;
  case_decision_type : DecisionType;
  case_decision_rationale : string;
  case_created_at : Z;
  case_rule_version : string;
}.
Record EntityAlias := mkAlias {
  al_canonical_entity_id : string;
  al_text : string;
  al_type : AliasType;
  al_confidence : spec_float;
  al_source : string;
  al_is_primary : bool;
  al_created_at : Z;
  al_rule_version : string;
}.
Record UnresolvedQueueItem := mkItem {
  queue_item_id : string;
  reference_id : string;
  raw_mention_text : string;
  source_context : pdict;
  reference_created_at : option Z;
  candidate_entity_ids : list string;
  status : ReviewStatus;
  claimed_by : option string;
  created_at : Z;
  updated_at : Z;
  decided_at : option Z;
}.
Record ManualReviewDecision := mkDecision {
  selected_entity_id : option string;
  confidence : option spec_float;
  rationale : string;
  promote_alias : bool;
  alias_type : option AliasType;
}.

Definition blank (s : string) : bool := is_empty (strip s).
(** [value < 0.0 or value > 1.0] *)
Definition outside_unit (f : spec_float) : bool :=
  SFltb f (S754_zero false) || SFltb (float_of_Z 1) f.

(** [EntityReference.validate_resolution_state] *)
Definition make_reference (r : EntityReference) : result review_error EntityReference :=
  match ref_resolution_method r, ref_resolved_entity_id r, ref_resolution_confidence r with
  | UNRESOLVED, None, None => Ok r
  | UNRESOLVED, _, _ => Err ModelValidationError
  | _, Some _, Some c => if outside_unit c then Err ModelValidationError else Ok r
  | _, _, _ => Err ModelValidationError
  end.

(** [EntityAlias.validate_confidence] *)
Definition make_alias (a : EntityAlias) : result review_error EntityAlias :=
  if outside_unit (al_confidence a) then Err ModelValidationError else Ok a.

(** The validators of [UnresolvedQueueItem]. *)
Definition make_item (i : UnresolvedQueueItem) : result review_error UnresolvedQueueItem :=
  if blank (queue_item_id i) || blank (reference_id i) || blank (raw_mention_text i)
     || match claimed_by i with Some c => blank c | None => false end
     || existsb blank (candidate_entity_ids i)
  then Err ModelValidationError else Ok i.

(** The validators of [ManualReviewDecision]. *)
Definition make_review_decision (d : ManualReviewDecision) : result review_error ManualReviewDecision :=
  if match selected_entity_id d with Some s => blank s | None => false end
     || blank (rationale d)
     || match confidence d with Some c => outside_unit c | None => false end
     || (promote_alias d && (bool_decide (selected_entity_id d = None) || bool_decide (alias_type d = None)))
  then Err ModelValidationError else Ok d.

(** [model_copy(update={...})] *)
Definition with_status (s : ReviewStatus) (claimed : option string) (now : Z) (decided : option Z)
    (i : UnresolvedQueueItem) : UnresolvedQueueItem :=
  mkItem (queue_item_id i) (reference_id i) (raw_mention_text i) (source_context i)
    (reference_created_at i) (candidate_entity_ids i) s claimed (created_at i) now decided.
Definition with_reference_created_at (t : Z) (i : UnresolvedQueueItem) : UnresolvedQueueItem :=
  mkItem (queue_item_id i) (reference_id i) (raw_mention_text i) (source_context i)
    (Some t) (candidate_entity_ids i) (status i) (claimed_by i) (created_at i) (updated_at i) (decided_at i).
End ReviewModel.

(** ** What the review repository needs of the other two

    A write either succeeds or raises, possibly after changing its store; a
    repository with a rollback can undo it. The rollback is given the store
    as it was when the decision began: repositories without a rollback method
    of their own are restored from a snapshot taken then. *)
Class AuditWriter (A : Type) := {
  save_resolution : A → ReviewModel.EntityReference → ReviewModel.ResolutionCase →
    A * option ReviewModel.review_error;
  audit_transactional : bool;
  rollback_resolution : A → A → ReviewModel.EntityReference → ReviewModel.ResolutionCase → A;
  rollback_resolution_exact a r c :
    audit_transactional = true → rollback_resolution a (save_resolution a r c).1 r c = a;
  rollback_resolution_done a r c :
    audit_transactional = true → rollback_resolution a a r c = a;
}.
Class AliasWriter (B : Type) := {
  save_alias : B → ReviewModel.EntityAlias → B * option ReviewModel.review_error;
  alias_transactional : bool;
  rollback_alias : B → B → ReviewModel.EntityAlias → B;
  rollback_alias_exact b a :
    alias_transactional = true → rollback_alias b (save_alias b a).1 a = b;
  rollback_alias_done b a : alias_transactional = true → rollback_alias b b a = b;
}.

(** ** What filing an item needs of the repositories

    The lookup and the save of a [ReviewRepository], and the reads of the other
    two; each of them may raise, a save before or after it has its effect. *)
Class ReviewRepository (R : Type) := {
  find_by_reference : string → program ReviewModel.review_error R (option ReviewModel.UnresolvedQueueItem);
  save_item : ReviewModel.UnresolvedQueueItem → program ReviewModel.review_error R ();
}.

(** What a review repository promises: a lookup changes nothing and answers what
    is there; a save under an id of its own reference touches that reference
    only, leaves its item as it was or as given, and is there if it returns. *)
Class ReviewRepositoryLaws (R : Type) `{ReviewRepository R} := {
  repository_ok : R → Prop;
  queued : R → string → option ReviewModel.UnresolvedQueueItem;
  find_answers ref s res s' : repository_ok s → find_by_reference ref s = (res, s') →
    repository_ok s' ∧ (∀ ref', queued s' ref' = queued s ref') ∧ ∀ o, res = Ok o → o = queued s ref;
  save_files i s res s' : repository_ok s →
    (∀ ref j, queued s ref = Some j → ReviewModel.queue_item_id j = ReviewModel.queue_item_id i → ref = ReviewModel.reference_id i) →
    save_item i s = (res, s') →
    repository_ok s' ∧ (∀ ref, ref ≠ ReviewModel.reference_id i → queued s' ref = queued s ref) ∧
    (queued s' (ReviewModel.reference_id i) = queued s (ReviewModel.reference_id i) ∨
     queued s' (ReviewModel.reference_id i) = Some i) ∧
    (res = Ok () → is_Some (queued s' (ReviewModel.reference_id i)));
}.

Module ReviewStores.
Import ReviewModel.

(** ** The in-memory repositories *)

Record audit_store := mkAudit {
  references : gmap string EntityReference;
  cases : gmap string ResolutionCase;
}.

Definition audit_save (a : audit_store) (r : EntityReference) (c : ResolutionCase)
    : audit_store * option review_error :=
  if negb (String.eqb (case_reference_id c) (ref_id r)) then (a, Some CaseReferenceMismatch)
  else (mkAudit (<[ref_id r := r]> (references a)) (<[case_id c := c]> (cases a)), None).

(** [_snapshot_audit_writer] and [_restore_audit_writer] *)
#[export] Instance in_memory_audit : AuditWriter audit_store.
Proof.
  refine {| save_resolution := audit_save; audit_transactional := true;
            rollback_resolution before _ _ _ := before |}; done.
Defined.

Definition semantic_key (a : EntityAlias) : string * string * AliasType :=
  (al_canonical_entity_id a, al_text a, al_type a).

Record alias_store := mkAliases {
  by_text : gmap string (list EntityAlias);
  by_entity : gmap string (list EntityAlias);
  semantic_keys : gset (string * string * AliasType);
}.

(** [d.setdefault(k, []).append(x)] *)
Definition append_at {V} (k : string) (x : V) (m : gmap string (list V)) : gmap string (list V) :=
  <[k := (default [] (m !! k) ++ [x])%list]> m.

Definition alias_save_if_absent (s : alias_store) (a : EntityAlias) : bool * alias_store :=
  if bool_decide (semantic_key a ∈ semantic_keys s) then (false, s)
  else (true, mkAliases (append_at (al_text a) a (by_text s))
          (append_at (al_canonical_entity_id a) a (by_entity s)) ({[semantic_key a]} ∪ semantic_keys s)).

#[export] Instance in_memory_aliases : AliasWriter alias_store.
Proof.
  refine {| save_alias s a := ((alias_save_if_absent s a).2, None); alias_transactional := true;
            rollback_alias before _ _ := before |}; done.
Defined.

Definition find_by_text (s : alias_store) (text : string) : list EntityAlias :=
  default [] (by_text s !! text).

Definition cases_of (a : audit_store) (ref : string) : list ResolutionCase :=
  filter (λ c, case_reference_id c = ref) (map snd (map_to_list (cases a))).

(** ** The review repository *)

Record review_store := mkReview {
  items : gmap string UnresolvedQueueItem;
  by_reference : gmap string string;
}.
Definition empty_review : review_store := mkReview ∅ ∅.

Definition review_find (s : review_store) (ref : string) : option UnresolvedQueueItem :=
  by_reference s !! ref ≫= λ id, items s !! id.

(** [_save_unchecked] *)
Definition review_save (s : review_store) (i : UnresolvedQueueItem) : review_store :=
  if match by_reference s !! reference_id i with
     | Some id => negb (String.eqb id (queue_item_id i))
     | None => false
     end
  then s
  else
    let idx := match items s !! queue_item_id i with
               | Some p => if String.eqb (reference_id p) (reference_id i) then by_reference s
                           else delete (reference_id p) (by_reference s)
               | None => by_reference s
               end in
    mkReview (<[queue_item_id i := i]> (items s)) (<[reference_id i := queue_item_id i]> idx).

Definition item_leb (a b : UnresolvedQueueItem) : bool :=
  (created_at a <? created_at b) ||
  ((created_at a =? created_at b) && String.leb (queue_item_id a) (queue_item_id b)).

(** [limit] is [None] or non-negative. *)
Definition list_by_status (s : review_store) (st : ReviewStatus) (limit : option nat)
    : list UnresolvedQueueItem :=
  let found := py_sort item_leb (filter (λ i, status i = st) (map snd (map_to_list (items s)))) in
  match limit with Some n => take n found | None => found end.

Definition claim (s : review_store) (id reviewer_id : string) (now : Z)
    : result review_error (UnresolvedQueueItem * review_store) :=
  let reviewer := strip reviewer_id in
  raise_if is_empty reviewer with EmptyReviewer;
  match items s !! id with
  | None => Err (QueueItemNotFound id)
  | Some i =>
      match status i with
      | CLAIMED => if bool_decide (claimed_by i = Some reviewer) then Ok (i, s) else Err (AlreadyClaimed id)
      | PENDING =>
          let updated := with_status CLAIMED (Some reviewer) now (decided_at i) i in
          Ok (updated, mkReview (<[id := updated]> (items s)) (<[reference_id updated := id]> (by_reference s)))
      | st => Err (CannotBeClaimed st)
      end
  end.

Section complete.
Context {A B : Type} `{AuditWriter A} `{AliasWriter B}.

(** The stores after a completed or failed decision, and its outcome. *)
Definition outcome : Type :=
  result review_error (UnresolvedQueueItem * EntityReference * ResolutionCase) * (review_store * A * B).

Definition complete_decision (s : review_store) (audit : A) (aliases : B) (id : string)
    (terminal_status : ReviewStatus) (now : Z)
    (build_records : UnresolvedQueueItem →
       result review_error (EntityReference * ResolutionCase * option EntityAlias)) : outcome :=
  let failed e := (Err e, (s, audit, aliases)) in
  if negb (terminal terminal_status) then failed NotTerminalStatus
  else
    match items s !! id with
    | None => failed (QueueItemNotFound id)
    | Some i =>
        if terminal (status i) then failed (AlreadyCompleted id)
        else
          let updated := with_status terminal_status (claimed_by i) now (Some now) i in
          match build_records i with
          | Err e => failed e
          | Ok (r, c, alias) =>
              if negb audit_transactional
                 || (bool_decide (alias ≠ None) && negb alias_transactional)
              then failed NotTransactional
              else
                let '(audit', err1) := save_resolution audit r c in
                let '(aliases', err2) :=
                  match err1, alias with
                  | None, Some a => save_alias aliases a
                  | _, _ => (aliases, None)
                  end in
                match (match err1 with Some e => Some e | None => err2 end) with
                | Some e =>
                    (Err e, (s, rollback_resolution audit audit' r c,
                       match alias with Some a => rollback_alias aliases aliases' a | None => aliases' end))
                | None => (Ok (updated, r, c), (review_save s updated, audit', aliases'))
                end
          end
    end.
End complete.

#[export] Instance in_memory_reviews : ReviewRepository review_store :=
  {| find_by_reference ref s := (Ok (review_find s ref), s); save_item i s := (Ok (), review_save s i) |}.

(** The reads of the audit repositories: what they answer is what is stored. *)
Class AuditReads := {
  get_reference : audit_store → string → result review_error (option EntityReference);
  find_cases : audit_store → string → result review_error (list ResolutionCase);
  get_reference_stored a id o : get_reference a id = Ok o → o = references a !! id;
  find_cases_stored a id l : find_cases a id = Ok l → l ≡ₚ cases_of a id;
}.
#[export] Instance in_memory_reads : AuditReads.
Proof.
  refine {| get_reference a id := Ok (references a !! id); find_cases a id := Ok (cases_of a id) |}; by intros a id x [= <-].
Defined.
End ReviewStores.

Module ReviewWorkflow.
Import ReviewModel ReviewStores.

(** All repositories, in memory; canonical entities by their id only. *)
Record registry := mkRegistry {
  entities : gset string;
  audit : audit_store;
  aliases : alias_store;
  reviews : review_store;
}.

Record ResolutionAuditPayload := mkPayload {
  entity_reference : EntityReference;
  resolution_case : ResolutionCase;
  unresolved : bool;
  queue_item : option UnresolvedQueueItem;
}.

Section workflow.
(** [_new_queue_item_id], a digest, and the current rule version. *)
Context (new_queue_item_id : string → string) (rule_version : string).

Definition require_explicit_unresolved (r : EntityReference) : result review_error () :=
  if bool_decide (ref_resolved_entity_id r ≠ None) ||
     negb (bool_decide (ref_resolution_method r = UNRESOLVED))
  then Err NotExplicitlyUnresolved else Ok ().

(** [max(cases, key=(created_at, case_id))]: the first of the greatest. *)
Definition case_ltb (a b : ResolutionCase) : bool :=
  (case_created_at a <? case_created_at b) ||
  ((case_created_at a =? case_created_at b) && String.ltb (case_id a) (case_id b)).
Fixpoint max_case (best : ResolutionCase) (l : list ResolutionCase) : ResolutionCase :=
  match l with [] => best | c :: rest => max_case (if case_ltb best c then c else best) rest end.

Definition latest_case_for_reference (a : audit_store) (ref : string) : result review_error ResolutionCase :=
  match cases_of a ref with
  | [] => Err (CaseNotFound ref)
  | c :: rest => Ok (max_case c rest)
  end.

Definition enqueue_unresolved_reference (g : registry) (r : EntityReference) (now : Z)
    : result review_error (UnresolvedQueueItem * registry) :=
  let* _ := require_explicit_unresolved r in
  let save i :=
    let s := review_save (reviews g) i in
    Ok (default i (review_find s (ref_id r)), mkRegistry (entities g) (audit g) (aliases g) s) in
  match review_find (reviews g) (ref_id r) with
  | Some existing =>
      match reference_created_at existing with
      | None => save (with_reference_created_at (ref_created_at r) existing)
      | Some _ => Ok (existing, g)
      end
  | None =>
      let* latest := latest_case_for_reference (audit g) (ref_id r) in
      let* item := make_item (mkItem (new_queue_item_id (ref_id r)) (ref_id r)
        (ref_raw_mention_text r) (ref_source_context r) (Some (ref_created_at r))
        (case_candidate_entity_ids latest) PENDING None now now None) in
      save item
  end.

(** The same over any repositories. *)
Section handover.
Context {R : Type} `{ReviewRepository R} {reads : AuditReads}.

Definition save_and_find (ref : string) (i : UnresolvedQueueItem) : program review_error R UnresolvedQueueItem :=
  let! _ := save_item i in
  let! found := find_by_reference ref in
  ret (default i found).
Definition enqueue_reference (a : audit_store) (r : EntityReference) (now : Z) : program review_error R UnresolvedQueueItem :=
  let! _ := lift (require_explicit_unresolved r) in
  let! existing := find_by_reference (ref_id r) in
  match existing with
  | Some i =>
      match reference_created_at i with
      | None => save_and_find (ref_id r) (with_reference_created_at (ref_created_at r) i)
      | Some _ => ret i
      end
  | None =>
      let! cases := lift (find_cases a (ref_id r)) in
      match cases with
      | [] => raise (CaseNotFound (ref_id r))
      | c :: rest =>
          let! item := lift (make_item (mkItem (new_queue_item_id (ref_id r)) (ref_id r)
            (ref_raw_mention_text r) (ref_source_context r) (Some (ref_created_at r))
            (case_candidate_entity_ids (max_case c rest)) PENDING None now now None)) in
          save_and_find (ref_id r) item
      end
  end.
(** One reference at a time: what raises leaves those before it queued. *)
Fixpoint enqueue_batch_manual_review (a : audit_store) (reference_ids : list string) (now : Z)
    : program review_error R (list UnresolvedQueueItem) :=
  match reference_ids with
  | [] => ret []
  | id :: rest =>
      let! found := lift (get_reference a id) in
      match found with
      | None => raise (ReferenceNotFound id)
      | Some r =>
          let! i := enqueue_reference a r now in
          let! more := enqueue_batch_manual_review a rest now in
          ret (i :: more)
      end
  end.
End handover.

Definition claim_review_item (g : registry) (id reviewer : string) (now : Z)
    : result review_error (UnresolvedQueueItem * registry) :=
  let* '(i, s) := claim (reviews g) id reviewer now in
  Ok (i, mkRegistry (entities g) (audit g) (aliases g) s).

Definition manual_confidence (d : ManualReviewDecision) : spec_float := default (float_of_Z 1) (confidence d).

Definition reference_for_decision (i : UnresolvedQueueItem) (d : ManualReviewDecision)
    : result review_error EntityReference :=
  match reference_created_at i with
  | None => Err (MissingReferenceCreatedAt (queue_item_id i))
  | Some t =>
      let selected := selected_entity_id d in
      make_reference (mkReference (reference_id i) (raw_mention_text i) (source_context i) selected
        match selected with None => UNRESOLVED | Some _ => MANUAL end
        match selected with None => None | Some _ => Some (manual_confidence d) end t rule_version)
  end.

Definition candidate_ids_for_decision (i : UnresolvedQueueItem) (selected : option string) : list string :=
  match selected with
  | Some s => if bool_decide (s ∈ candidate_entity_ids i) then candidate_entity_ids i
              else (candidate_entity_ids i ++ [s])%list
  | None => candidate_entity_ids i
  end.

Definition alias_for_decision (i : UnresolvedQueueItem) (d : ManualReviewDecision) (alias_now : Z)
    : result review_error (option EntityAlias) :=
  if negb (promote_alias d) then Ok None
  else match selected_entity_id d, alias_type d with
       | Some s, Some t =>
           let* a := make_alias (mkAlias s (raw_mention_text i) t (manual_confidence d)
             "manual_review" false alias_now rule_version) in Ok (Some a)
       | _, _ => Err AliasNeedsEntity
       end.

(** [build_records]; the case's id is drawn at random, and the case and the
    alias each read the clock. *)
Definition build_records (d : ManualReviewDecision) (new_case_id : string) (case_now alias_now : Z)
    (i : UnresolvedQueueItem) : result review_error (EntityReference * ResolutionCase * option EntityAlias) :=
  let* r := reference_for_decision i d in
  let c := mkCase new_case_id (reference_id i) (candidate_ids_for_decision i (selected_entity_id d))
    (selected_entity_id d) MANUAL_REVIEW (rationale d) case_now rule_version in
  let* a := alias_for_decision i d alias_now in
  Ok (r, c, a).

Definition terminal_status_of (d : ManualReviewDecision) : ReviewStatus :=
  match selected_entity_id d with None => REJECTED | Some _ => PROMOTED end.

Definition submit_manual_review_decision (g : registry) (id : string) (d : ManualReviewDecision)
    (new_case_id : string) (now case_now alias_now : Z)
    : result review_error ResolutionAuditPayload * registry :=
  let missing := match selected_entity_id d with
                 | Some e => if bool_decide (e ∈ entities g) then None else Some e
                 | None => None
                 end in
  match missing with
  | Some e => (Err (EntityNotFound e), g)
  | None =>
      let '(res, (s, au, al)) := complete_decision (reviews g) (audit g) (aliases g) id
        (terminal_status_of d) now (build_records d new_case_id case_now alias_now) in
      (let* '(i, r, c) := res in
       Ok (mkPayload r c (bool_decide (selected_entity_id d = None)) (Some i)),
       mkRegistry (entities g) au al s)
  end.

Definition get_resolution_audit_payload (g : registry) (ref : string)
    : result review_error ResolutionAuditPayload :=
  match references (audit g) !! ref with
  | None => Err (ReferenceNotFound ref)
  | Some r =>
      let* c := latest_case_for_reference (audit g) ref in
      Ok (mkPayload r c (bool_decide (ref_resolved_entity_id r = None) &&
            bool_decide (ref_resolution_method r = UNRESOLVED)) (review_find (reviews g) ref))
  end.

(** ** Histories *)

Inductive review_op :=
| OpEnqueue (r : EntityReference) (now : Z)
| OpClaim (id reviewer : string) (now : Z)
| OpSubmit (id : string) (d : ManualReviewDecision) (new_case_id : string) (now case_now alias_now : Z).

Definition run_review_op (g : registry) (o : review_op) : registry :=
  match o with
  | OpEnqueue r now => match enqueue_unresolved_reference g r now with Ok (_, g') => g' | Err _ => g end
  | OpClaim id who now => match claim_review_item g id who now with Ok (_, g') => g' | Err _ => g end
  | OpSubmit id d c now case_now alias_now =>
      (submit_manual_review_decision g id d c now case_now alias_now).2
  end.
Definition run_review_ops (g : registry) (ops : list review_op) : registry := fold_left run_review_op ops g.

(** ** The review repository's index *)

(** Each item is filed under its id and its reference, which has one item. *)
Definition review_ok (s : review_store) : Prop :=
  (∀ id i, items s !! id = Some i → queue_item_id i = id ∧ by_reference s !! reference_id i = Some id) ∧
  (∀ ref id, by_reference s !! ref = Some id → ∃ i, items s !! id = Some i ∧ reference_id i = ref).

Lemma empty_review_ok : review_ok empty_review.
Proof. split; intros *; simpl; by rewrite lookup_empty. Qed.

(** Saving a new version of an item that is filed changes only that item. *)
Lemma review_save_update s i i' :
  review_ok s → items s !! queue_item_id i = Some i →
  queue_item_id i' = queue_item_id i → reference_id i' = reference_id i →
  review_save s i' = mkReview (<[queue_item_id i := i']> (items s)) (by_reference s) ∧
  review_ok (review_save s i').
Proof.
  intros [H1 H2] Hi Hid Href. destruct (H1 _ _ Hi) as [_ Hr].
  assert (review_save s i' = mkReview (<[queue_item_id i := i']> (items s)) (by_reference s)) as E.
  { unfold review_save. rewrite Href, Hr, Hid, String.eqb_refl. simpl. rewrite Hi, String.eqb_refl.
    f_equal. by apply insert_id. }
  split; [done|]. rewrite E. split; simpl.
  - intros id j. rewrite lookup_insert_Some. intros [[<- <-]|[_ Hj]]; [|by apply H1]. by rewrite Href.
  - intros ref id (j & Hj & Hjr)%H2. destruct (decide (id = queue_item_id i)) as [->|Hne].
    + exists i'. rewrite lookup_insert_eq. split; [done|]. congruence.
    + exists j. by rewrite lookup_insert_ne.
Qed.

(** Filing an item for a reference that has none, under an id of its own. *)
Lemma review_save_new s i :
  review_ok s → by_reference s !! reference_id i = None → items s !! queue_item_id i = None →
  review_save s i = mkReview (<[queue_item_id i := i]> (items s)) (<[reference_id i := queue_item_id i]> (by_reference s)) ∧
  review_ok (review_save s i).
Proof.
  intros [H1 H2] Hr Hi. assert (review_save s i = mkReview (<[queue_item_id i := i]> (items s))
    (<[reference_id i := queue_item_id i]> (by_reference s))) as E by (unfold review_save; by rewrite Hr, Hi).
  split; [done|]. rewrite E. split; simpl.
  - intros id j. rewrite lookup_insert_Some. intros [[<- <-]|[Hne Hj]].
    + split; [done|apply lookup_insert_eq].
    + destruct (H1 _ _ Hj) as [Hid Hjr]. split; [done|]. rewrite lookup_insert_ne; [done|congruence].
  - intros ref id. rewrite lookup_insert_Some. intros [[<- <-]|[Hne Hl]].
    + exists i. by rewrite lookup_insert_eq.
    + destruct (H2 _ _ Hl) as (j & Hj & Hjr). exists j. rewrite lookup_insert_ne; [done|congruence].
Qed.

Lemma review_find_ok s ref i :
  review_ok s → review_find s ref = Some i →
  items s !! queue_item_id i = Some i ∧ reference_id i = ref ∧ by_reference s !! ref = Some (queue_item_id i).
Proof.
  intros [H1 H2]. unfold review_find. destruct (by_reference s !! ref) as [id|] eqn:Hr; [|done]. simpl.
  intros Hi. destruct (H2 _ _ Hr) as (j & Hj & Hjr). assert (j = i) as -> by congruence.
  destruct (H1 _ _ Hi) as [-> _]. done.
Qed.

(** C30: completing a decision is all or nothing, for any audit and alias
    writers that keep the rollback contract: either it raises and the review,
    audit and alias stores are as before, or the item was open, both records
    (and the alias, if there is one) were written, and the item is filed with
    the terminal status. *)
Theorem decision_is_atomic {A B} `{AuditWriter A} `{AliasWriter B} s (au : A) (al : B) id ts now build :
  let out := complete_decision s au al id ts now build in
  (∃ e, out = (Err e, (s, au, al))) ∨
  ∃ i r c alias au' al', items s !! id = Some i ∧ terminal (status i) = false ∧ terminal ts = true ∧
    build i = Ok (r, c, alias) ∧ save_resolution au r c = (au', None) ∧
    match alias with Some a => save_alias al a = (al', None) | None => al' = al end ∧
    let updated := with_status ts (claimed_by i) now (Some now) i in
    out = (Ok (updated, r, c), (review_save s updated, au', al')).
Proof.
  simpl. unfold complete_decision. destruct (terminal ts) eqn:Hts; [|simpl; eauto].
  destruct (items s !! id) as [i|] eqn:Hi; [|simpl; eauto]. simpl.
  destruct (terminal (status i)) eqn:Hst; [eauto|].
  destruct (build i) as [[[r c] alias]|e] eqn:Hb; [|eauto].
  destruct (negb audit_transactional || _) eqn:Htr; [eauto|].
  apply orb_false_iff in Htr as [Hau%negb_false_iff Hal].
  assert (alias ≠ None → alias_transactional = true) as Halt.
  { intros Hne. apply andb_false_iff in Hal as [Hal|Hal]; [by rewrite bool_decide_eq_true_2 in Hal|].
    by apply negb_false_iff in Hal. }
  pose proof (rollback_resolution_exact au r c Hau) as Hroll.
  destruct (save_resolution au r c) as [au' [e1|]] eqn:Hsave; simpl in Hroll.
  - left. exists e1. rewrite Hroll. destruct alias as [a|]; [|done]. by rewrite rollback_alias_done by auto.
  - destruct alias as [a|].
    + pose proof (rollback_alias_exact al a (Halt ltac:(done))) as Hrolla.
      destruct (save_alias al a) as [al' [e2|]] eqn:Hsa; simpl in Hrolla.
      * left. exists e2. by rewrite Hroll, Hrolla.
      * right. exists i, r, c, (Some a), au', al'. done.
    + right. exists i, r, c, None, au', al. done.
Qed.

Lemma in_memory_decision s (au : audit_store) (al : alias_store) id ts now build :
  let out := complete_decision s au al id ts now build in
  (∃ e, out = (Err e, (s, au, al))) ∨
  ∃ i r c alias, items s !! id = Some i ∧ terminal (status i) = false ∧ terminal ts = true ∧
    build i = Ok (r, c, alias) ∧ case_reference_id c = ref_id r ∧
    let updated := with_status ts (claimed_by i) now (Some now) i in
    out = (Ok (updated, r, c), (review_save s updated,
      mkAudit (<[ref_id r := r]> (references au)) (<[case_id c := c]> (cases au)),
      match alias with Some a => (alias_save_if_absent al a).2 | None => al end)).
Proof.
  simpl. unfold complete_decision. destruct (terminal ts); [|simpl; eauto].
  destruct (items s !! id) as [i|]; [|simpl; eauto]. simpl.
  destruct (terminal (status i)) eqn:Hst; [eauto|].
  destruct (build i) as [[[r c] alias]|e] eqn:Hb; [|eauto]. rewrite andb_false_r. unfold audit_save.
  destruct (String.eqb_spec (case_reference_id c) (ref_id r)) as [Hr|Hr]; simpl.
  - right. exists i, r, c, alias. by destruct alias.
  - left. exists CaseReferenceMismatch. by destruct alias.
Qed.

(** ** What an item may become *)

(** The item of a reference, before and after: its identity is fixed, its
    status only advances, and a completed item never changes. *)
Definition rank (s : ReviewStatus) : nat :=
  match s with PENDING => 0 | CLAIMED => 1 | _ => 2 end.
Definition identity (i : UnresolvedQueueItem) :=
  (queue_item_id i, reference_id i, raw_mention_text i, source_context i, reference_created_at i,
   candidate_entity_ids i, created_at i).
Definition evolves (i i' : UnresolvedQueueItem) : Prop :=
  identity i' = identity i ∧ (rank (status i) ≤ rank (status i'))%nat ∧
  (terminal (status i) = true → i' = i) ∧
  (status i = CLAIMED → claimed_by i' = claimed_by i).

Lemma evolves_refl i : evolves i i.
Proof. by repeat split. Qed.
Lemma evolves_trans i j k : evolves i j → evolves j k → evolves i k.
Proof.
  intros (E1 & R1 & T1 & C1) (E2 & R2 & T2 & C2). repeat split; [congruence|lia| |].
  - intros Ht. specialize (T1 Ht). subst j. auto.
  - intros Hc. rewrite <- (C1 Hc). destruct (status j) eqn:Hj.
    + rewrite Hc in R1. simpl in R1. lia.
    + by apply C2.
    + by rewrite T2.
    + by rewrite T2.
    + by rewrite T2.
Qed.

(** The references whose mentions the histories queue, on which the digest has
    no collision. *)
Context (known : string → Prop).

Definition item_ok (i : UnresolvedQueueItem) : Prop :=
  known (reference_id i) ∧ queue_item_id i = new_queue_item_id (reference_id i) ∧ is_Some (reference_created_at i) ∧
  (status i = CLAIMED → is_Some (claimed_by i)) ∧
  (terminal (status i) = true ↔ is_Some (decided_at i)).

Definition op_known (o : review_op) : Prop :=
  match o with OpEnqueue r _ => known (ref_id r) | _ => True end.

Definition registry_ok (g : registry) : Prop :=
  review_ok (reviews g) ∧ ∀ id i, items (reviews g) !! id = Some i → item_ok i.

(** Every item of [g] is still there in [g'], evolved. *)
Definition items_evolve (g g' : registry) : Prop :=
  ∀ id i, items (reviews g) !! id = Some i →
    ∃ i', items (reviews g') !! id = Some i' ∧ evolves i i'.

(** Replacing one item by an evolution of it. *)
Lemma update_ok g g' i i' :
  registry_ok g → items (reviews g) !! queue_item_id i = Some i → evolves i i' → item_ok i' →
  items (reviews g') = <[queue_item_id i := i']> (items (reviews g)) → review_ok (reviews g') →
  registry_ok g' ∧ items_evolve g g'.
Proof.
  intros [Hr Hitems] Hi Hev Hok' E Hr'. split; [split; [done|]|].
  - intros id j. rewrite E, lookup_insert_Some. intros [[_ <-]|[_ Hj]]; [done|by eapply Hitems].
  - intros id j Hj. rewrite E. destruct (decide (id = queue_item_id i)) as [->|Hne].
    + exists i'. rewrite lookup_insert_eq. split; [done|]. by assert (j = i) as -> by congruence.
    + exists j. rewrite lookup_insert_ne by done. split; [done|apply evolves_refl].
Qed.

Lemma unchanged_ok g g' :
  registry_ok g → reviews g' = reviews g → registry_ok g' ∧ items_evolve g g'.
Proof.
  intros Hok E. unfold registry_ok, items_evolve. rewrite E. split; [done|].
  intros id i Hi. exists i. split; [done|apply evolves_refl].
Qed.

Lemma max_case_greatest best l x :
  x ∈ best :: l → (∀ c, c ∈ best :: l → c = x ∨ (case_ltb c x = true ∧ case_ltb x c = false)) →
  max_case best l = x.
Proof.
  revert best. induction l as [|c l IH]; intros best Hx Hlt; simpl.
  { by apply list_elem_of_singleton in Hx as ->. }
  apply IH.
  - apply elem_of_cons in Hx as [->|[->|Hx]%elem_of_cons]; [| |by right].
    + destruct (Hlt c) as [->|[_ ->]]; [set_solver| |apply list_elem_of_here].
      destruct (case_ltb best best); apply list_elem_of_here.
    + destruct (Hlt best) as [->|[-> _]]; [set_solver| |apply list_elem_of_here].
      destruct (case_ltb c c); apply list_elem_of_here.
  - intros c' [->|Hc']%elem_of_cons; apply Hlt; [destruct (case_ltb best c); set_solver|set_solver].
Qed.

Lemma earlier_case a b : case_created_at a < case_created_at b → case_ltb a b = true ∧ case_ltb b a = false.
Proof.
  intros Hab. unfold case_ltb. rewrite (proj2 (Z.ltb_lt _ _) Hab).
  rewrite (proj2 (Z.ltb_ge (case_created_at b) _)) by lia.
  by rewrite (proj2 (Z.eqb_neq (case_created_at b) _)) by lia.
Qed.

(** The case just saved is the latest when all earlier ones are older. *)
Lemma latest_after_save a c :
  (∀ c', c' ∈ cases_of a (case_reference_id c) → case_created_at c' < case_created_at c) →
  ∀ refs, latest_case_for_reference (mkAudit refs (<[case_id c := c]> (cases a))) (case_reference_id c) = Ok c.
Proof.
  intros Hold refs. unfold latest_case_for_reference.
  assert (∀ c', c' ∈ cases_of (mkAudit refs (<[case_id c := c]> (cases a))) (case_reference_id c) ↔
    case_reference_id c' = case_reference_id c ∧ ∃ k, <[case_id c := c]> (cases a) !! k = Some c') as Hin.
  { intros c'. unfold cases_of. simpl. rewrite list_elem_of_filter, list_elem_of_fmap. split.
    - intros [Hr ([k v] & -> & Hk%elem_of_map_to_list)]. eauto.
    - intros [Hr [k Hk]]. split; [done|]. exists (k, c'). by rewrite elem_of_map_to_list. }
  assert (c ∈ cases_of (mkAudit refs (<[case_id c := c]> (cases a))) (case_reference_id c)) as Hc.
  { apply Hin. split; [done|]. exists (case_id c). apply lookup_insert_eq. }
  generalize dependent (cases_of (mkAudit refs (<[case_id c := c]> (cases a))) (case_reference_id c)).
  intros [|best l] Hin Hc; [by apply elem_of_nil in Hc|].
  f_equal. apply max_case_greatest; [done|]. intros c' [Hr [k Hk]]%Hin.
  apply lookup_insert_Some in Hk as [[_ <-]|[_ Hk]]; [by left|right]. apply earlier_case, Hold.
  unfold cases_of. rewrite list_elem_of_filter, list_elem_of_fmap. split; [done|].
  exists (k, c'). by rewrite elem_of_map_to_list.
Qed.

(** A decision can be audited: after a decision succeeds (and when its
    case is the newest of the reference), the audit payload of the reference
    is the one the decision returned: the reference as decided, the case, the
    completed item, and unresolved exactly when no entity was selected. *)
Theorem decision_reads_back g id d c now cnow anow p g' :
  registry_ok g → submit_manual_review_decision g id d c now cnow anow = (Ok p, g') →
  (∀ c', c' ∈ cases_of (audit g) (ref_id (entity_reference p)) → case_created_at c' < cnow) →
  get_resolution_audit_payload g' (ref_id (entity_reference p)) = Ok p ∧
  ∃ i, queue_item p = Some i ∧ items (reviews g') !! id = Some i ∧ terminal (status i) = true ∧
    (unresolved p = true ↔ selected_entity_id d = None).
Proof.
  intros [Hr Hitems] H Hold. unfold submit_manual_review_decision in H.
  destruct (match selected_entity_id d with Some _ => _ | None => _ end) as [e|]; [done|].
  destruct (in_memory_decision (reviews g) (audit g) (aliases g) id (terminal_status_of d) now
    (build_records d c cnow anow)) as [[e E]|(i & r & cs & alias & Hi & Hst & Hts & Hb & Hcr & E)];
    rewrite E in H; [done|].
  injection H as <- <-. simpl in *.
  unfold build_records in Hb. apply rbind_ok in Hb as (r0 & Hr0 & (al & Hal & [= -> <- ->])%rbind_ok).
  unfold reference_for_decision in Hr0. destruct (reference_created_at i) as [t|]; [|done].
  assert (r = mkReference (reference_id i) (raw_mention_text i) (source_context i) (selected_entity_id d)
    match selected_entity_id d with None => UNRESOLVED | Some _ => MANUAL end
    match selected_entity_id d with None => None | Some _ => Some (manual_confidence d) end t rule_version) as Hrr.
  { unfold make_reference in Hr0. destruct (selected_entity_id d); simpl in Hr0; [|by injection Hr0 as <-].
    destruct (outside_unit _); [done|by injection Hr0 as <-]. }
  destruct (proj1 Hr _ _ Hi) as [Hid Hir]. rewrite <- Hid in Hi.
  set (u := with_status _ _ _ _ _).
  destruct (review_save_update (reviews g) i u Hr Hi eq_refl eq_refl) as [Esave _].
  split.
  - unfold get_resolution_audit_payload. simpl. rewrite lookup_insert_eq.
    set (cs := mkCase _ _ _ _ _ _ _ _) in *.
    assert (ref_id r = case_reference_id cs) as Href by (symmetry; exact Hcr).
    rewrite Href, (latest_after_save (audit g) cs); [|intros c' Hc'; apply Hold; by rewrite Href].
    simpl. do 2 f_equal.
    + rewrite Hrr. simpl. by destruct (selected_entity_id d).
    + rewrite Esave. unfold review_find. simpl. rewrite Hir. simpl. by rewrite Hid, lookup_insert_eq.
  - exists u. rewrite Esave. simpl. rewrite Hid, lookup_insert_eq. split_and!; [done|done|done|].
    by rewrite bool_decide_eq_true.
Qed.

Context (new_id_inj : ∀ a b, known a → known b → new_queue_item_id a = new_queue_item_id b → a = b).

Lemma enqueue_ok g r now i g' :
  known (ref_id r) → registry_ok g → enqueue_unresolved_reference g r now = Ok (i, g') →
  (registry_ok g' ∧ items_evolve g g') ∧ review_find (reviews g') (ref_id r) = Some i ∧
  reference_id i = ref_id r ∧ is_Some (reference_created_at i).
Proof.
  intros Hk Hok. pose proof Hok as [Hr Hitems]. unfold enqueue_unresolved_reference.
  intros (u & _ & H)%rbind_ok. destruct (review_find (reviews g) (ref_id r)) as [e|] eqn:Hf.
  - destruct (review_find_ok _ _ _ Hr Hf) as (Hi & Href & _).
    destruct (Hitems _ _ Hi) as (_ & _ & Hc & _). destruct (reference_created_at e) as [t|] eqn:Ht; [|by destruct Hc].
    injection H as <- <-. split; [by apply unchanged_ok|]. rewrite Ht. eauto.
  - apply rbind_ok in H as (latest & _ & (item & Hitem & [= <- <-])%rbind_ok).
    unfold make_item in Hitem. destruct (_ || _) in Hitem; [done|]. injection Hitem as <-.
    set (item := mkItem _ _ _ _ _ _ _ _ _ _ _).
    assert (by_reference (reviews g) !! ref_id r = None) as Hnone.
    { destruct (by_reference (reviews g) !! ref_id r) as [id|] eqn:E; [|done]. destruct Hr as [_ H2].
      destruct (H2 _ _ E) as (j & Hj & _). unfold review_find in Hf. rewrite E in Hf. simpl in Hf. by rewrite Hj in Hf. }
    assert (items (reviews g) !! new_queue_item_id (ref_id r) = None) as Hfresh.
    { destruct (items (reviews g) !! _) as [j|] eqn:E; [|done]. destruct Hr as [H1 _].
      destruct (H1 _ _ E) as [Hid Hjr]. destruct (Hitems _ _ E) as (Hkj & Hid' & _).
      rewrite Hid in Hid'. apply new_id_inj in Hid'; [|done..]. by rewrite <- Hid', Hnone in Hjr. }
    destruct (review_save_new (reviews g) item Hr Hnone Hfresh) as [E Hr'].
    assert (review_find (review_save (reviews g) item) (ref_id r) = Some item) as Hfind.
    { rewrite E. unfold review_find. simpl. rewrite lookup_insert_eq. simpl. apply lookup_insert_eq. }
    split; [split|].
    + split; [exact Hr'|]. simpl. rewrite E. simpl. intros id j. rewrite lookup_insert_Some.
      intros [[_ <-]|[_ Hj]]; [|by eapply Hitems]. repeat split; simpl; eauto; try done.
    + intros id j Hj. exists j. split; [|apply evolves_refl]. simpl. rewrite E. simpl.
      rewrite lookup_insert_ne; [done|]. intros <-. simpl in Hj. congruence.
    + rewrite Hfind. simpl. eauto.
Qed.

Lemma claim_ok g id who now i g' :
  registry_ok g → claim_review_item g id who now = Ok (i, g') →
  (registry_ok g' ∧ items_evolve g g') ∧ items (reviews g') !! id = Some i ∧ status i = CLAIMED ∧
  claimed_by i = Some (strip who).
Proof.
  intros Hok H. pose proof Hok as [Hr Hitems]. unfold claim_review_item in H.
  apply rbind_ok in H as ([i0 s] & Hclaim & [= <- <-]). unfold claim in Hclaim.
  apply rbind_ok in Hclaim as (u & _ & Hclaim).
  destruct (items (reviews g) !! id) as [j|] eqn:Hi; [|done].
  destruct Hr as [H1 H2]. destruct (H1 _ _ Hi) as [Hid Hjr]. destruct (status j) eqn:Hst; try done.
  - injection Hclaim as <- <-. set (u' := with_status CLAIMED _ _ _ _).
    destruct (Hitems _ _ Hi) as (Hkn & Hq & Hc & _ & Hd).
    split; [|simpl; by rewrite lookup_insert_eq].
    apply (update_ok g _ j u'); simpl; [done|by rewrite Hid| | |by rewrite Hid|].
    + repeat split; simpl; try done; rewrite Hst; simpl; (done || lia).
    + split; [done|]. split; [done|]. split; [done|]. split; [simpl; eauto|]. rewrite Hst in Hd. exact Hd.
    + assert (by_reference (reviews g) = <[reference_id j := id]> (by_reference (reviews g))) as E
        by (symmetry; by apply insert_id).
      rewrite <- E. split; simpl.
      * intros id' k. rewrite lookup_insert_Some. intros [[<- <-]|[_ Hk]]; [done|by apply H1].
      * intros ref id' (k & Hk & Hkr)%H2. destruct (decide (id' = id)) as [->|Hne].
        -- exists u'. rewrite lookup_insert_eq. split; [done|]. simpl. congruence.
        -- exists k. by rewrite lookup_insert_ne.
  - case_bool_decide as Hwho; [|done]. injection Hclaim as <- <-. split; [by apply unchanged_ok|]. done.
Qed.

Lemma submit_ok g id d c now cnow anow res g' :
  registry_ok g → submit_manual_review_decision g id d c now cnow anow = (res, g') →
  (registry_ok g' ∧ items_evolve g g').
Proof.
  intros Hok. pose proof Hok as [Hr Hitems]. unfold submit_manual_review_decision.
  destruct (match selected_entity_id d with Some _ => _ | None => _ end) as [e|];
    [intros [= _ <-]; by apply unchanged_ok|].
  destruct (in_memory_decision (reviews g) (audit g) (aliases g) id (terminal_status_of d) now
    (build_records d c cnow anow)) as [[e ->]|(i & r & cs & alias & Hi & Hst & Hts & _ & _ & ->)].
  - intros [= _ <-]. by apply unchanged_ok.
  - intros [= _ <-]. destruct (proj1 Hr _ _ Hi) as [Hid _]. rewrite <- Hid in Hi.
    set (u := with_status _ _ _ _ _).
    destruct (review_save_update (reviews g) i u Hr Hi eq_refl eq_refl) as [E Hr'].
    destruct (Hitems _ _ Hi) as (Hkn & Hq & Hc & _ & _).
    apply (update_ok g _ i u); simpl; [done|done| | |by rewrite E|done].
    + repeat split; simpl; try done.
      * unfold terminal_status_of in *. destruct (status i), (selected_entity_id d); simpl; lia || done.
      * intros Hs. congruence.
    + repeat split; simpl; eauto. intros Hs. by rewrite Hs in Hts.
Qed.

Lemma run_op_ok g o : op_known o → registry_ok g → registry_ok (run_review_op g o) ∧ items_evolve g (run_review_op g o).
Proof.
  intros Hk Hok. destruct o as [r now|id who now|id d c now cnow anow]; simpl.
  - destruct (enqueue_unresolved_reference g r now) as [[i g']|e] eqn:E; [|by apply unchanged_ok].
    by destruct (enqueue_ok g r now i g' Hk Hok E) as [? _].
  - destruct (claim_review_item g id who now) as [[i g']|e] eqn:E; [|by apply unchanged_ok].
    by destruct (claim_ok g id who now i g' Hok E) as [? _].
  - destruct (submit_manual_review_decision g id d c now cnow anow) as [res g'] eqn:E. by eapply submit_ok.
Qed.

Lemma run_ops_ok g ops : Forall op_known ops → registry_ok g → registry_ok (run_review_ops g ops) ∧ items_evolve g (run_review_ops g ops).
Proof.
  unfold run_review_ops. intros Hops. revert g. induction Hops as [|o ops Ho _ IH]; intros g Hok; simpl.
  - by apply unchanged_ok.
  - destruct (run_op_ok g o Ho Hok) as [Hok1 Hev1]. destruct (IH _ Hok1) as [Hok2 Hev2]. split; [done|].
    intros id i Hi. destruct (Hev1 _ _ Hi) as (i1 & Hi1 & E1). destruct (Hev2 _ _ Hi1) as (i2 & Hi2 & E2).
    exists i2. split; [done|by eapply evolves_trans].
Qed.

Lemma fresh_registry_ok g : reviews g = empty_review → registry_ok g.
Proof.
  intros E. unfold registry_ok. rewrite E. split; [apply empty_review_ok|].
  intros id i. simpl. by rewrite lookup_empty.
Qed.

(** C17: the review queue keeps its promises over any history: starting with an
    empty queue, as long as the digests of the references queued do not
    collide, a reference has one item at any time, filed under its id; an
    item never disappears, keeps the mention it was created for, only moves
    from pending to claimed to completed, stays with the reviewer who claimed
    it until then, and is never changed once completed. *)
Theorem review_history g0 ops1 ops2 :
  reviews g0 = empty_review → Forall op_known ops1 → Forall op_known ops2 →
  let g1 := run_review_ops g0 ops1 in
  let g2 := run_review_ops g1 ops2 in
  registry_ok g1 ∧
  (∀ id id' i i', items (reviews g1) !! id = Some i → items (reviews g1) !! id' = Some i' →
     reference_id i = reference_id i' → id = id') ∧
  (∀ id i, items (reviews g1) !! id = Some i →
     ∃ i', items (reviews g2) !! id = Some i' ∧ evolves i i').
Proof using new_id_inj.
  intros H0 Hk1 Hk2 g1 g2. destruct (run_ops_ok g0 ops1 Hk1 (fresh_registry_ok g0 H0)) as [Hok1 _].
  destruct (run_ops_ok g1 ops2 Hk2 Hok1) as [_ Hev]. split; [done|]. split; [|exact Hev].
  destruct Hok1 as [[H1 _] _]. intros id id' i i' Hi Hi' E.
  destruct (H1 _ _ Hi) as [_ Hr]. destruct (H1 _ _ Hi') as [_ Hr']. rewrite E in Hr.
  unfold g1 in *. congruence.
Qed.

(** Enqueueing is idempotent: once a reference is queued, enqueueing it
    again, at any time and with whatever the caller now says of its mention,
    returns the same item and changes nothing. *)
Theorem enqueue_is_idempotent g r now i g' r' now' :
  known (ref_id r) → registry_ok g → enqueue_unresolved_reference g r now = Ok (i, g') →
  ref_id r' = ref_id r → ref_resolution_method r' = UNRESOLVED → ref_resolved_entity_id r' = None →
  enqueue_unresolved_reference g' r' now' = Ok (i, g').
Proof using new_id_inj.
  intros Hk Hok H Hid Hm Hnone. destruct (enqueue_ok g r now i g' Hk Hok H) as (_ & Hf & _ & Hc).
  unfold enqueue_unresolved_reference, require_explicit_unresolved. rewrite Hm, Hnone. simpl.
  rewrite Hid, Hf. by destruct Hc as [t ->].
Qed.

End workflow.

(** ** The in-memory repository keeps the promise *)

Lemma review_find_by s id ref i : review_ok s → by_reference s !! ref = Some id → items s !! id = Some i → review_find s ref = Some i.
Proof. intros _ Hr Hi. unfold review_find. by rewrite Hr. Qed.

(** Saving under the id of one's own reference. *)
Lemma review_save_own s i : review_ok s →
  (∀ ref j, review_find s ref = Some j → queue_item_id j = queue_item_id i → ref = reference_id i) →
  review_save s i = s ∧ is_Some (review_find s (reference_id i)) ∨
  review_ok (review_save s i) ∧ ∀ ref, review_find (review_save s i) ref = if decide (ref = reference_id i) then Some i else review_find s ref.
Proof.
  intros Hs Hown. pose proof Hs as [H1 H2]. destruct (by_reference s !! reference_id i) as [id|] eqn:Hr.
  - destruct (H2 _ _ Hr) as (j & Hj & Hjr). destruct (decide (id = queue_item_id i)) as [->|Hne].
    + right. destruct (H1 _ _ Hj) as [Hid _]. destruct (review_save_update s j i Hs) as [E Hok]; [by rewrite Hid|by rewrite Hid|done|].
      split; [done|]. intros ref. rewrite E. unfold review_find. simpl. rewrite Hid. case_decide as Hd.
      * subst ref. rewrite Hr. simpl. by rewrite lookup_insert_eq.
      * destruct (by_reference s !! ref) as [id'|] eqn:Hr'; [|done]. simpl. apply lookup_insert_ne. intros <-.
        destruct (H2 _ _ Hr') as (j' & Hj' & Hjr'). congruence.
    + left. unfold review_save. rewrite Hr. rewrite (proj2 (String.eqb_neq _ _) Hne). simpl. split; [done|].
      exists j. by eapply review_find_by.
  - right. assert (items s !! queue_item_id i = None) as Hi.
    { destruct (items s !! queue_item_id i) as [j|] eqn:Hj; [|done]. destruct (H1 _ _ Hj) as [Hid Hjr].
      rewrite <- (Hown (reference_id j) j) in Hr; [congruence| |done]. by eapply review_find_by. }
    destruct (review_save_new s i Hs Hr Hi) as [E Hok]. split; [done|]. intros ref. rewrite E. unfold review_find. simpl.
    case_decide as Hd.
    + subst ref. rewrite lookup_insert_eq. simpl. apply lookup_insert_eq.
    + rewrite lookup_insert_ne by congruence. destruct (by_reference s !! ref) as [id'|] eqn:Hr'; [|done]. simpl.
      apply lookup_insert_ne. intros <-. destruct (H2 _ _ Hr') as (j' & Hj' & _). congruence.
Qed.

#[export] Instance in_memory_laws : ReviewRepositoryLaws review_store.
Proof.
  refine {| repository_ok := review_ok; queued := review_find |}.
  - intros ref s res s' Hs [= <- <-]. split_and!; [done|done|by intros o [= <-]].
  - intros i s res s' Hs Hown [= <- <-]. destruct (review_save_own s i Hs Hown) as [[-> Hfound]|[Hok Hf]].
    + split_and!; auto.
    + split_and!; [done| | |]; intros; rewrite !Hf; [by rewrite decide_False|right|]; rewrite decide_True by done; eauto.
Defined.

(** Over the in-memory repositories the two forms of an enqueue agree. *)
Lemma enqueue_in_memory new_id g r now :
  match enqueue_unresolved_reference new_id g r now with
  | Ok (i, g') => enqueue_reference new_id (audit g) r now (reviews g) = (Ok i, reviews g') ∧ g' = mkRegistry (entities g) (audit g) (aliases g) (reviews g')
  | Err e => enqueue_reference new_id (audit g) r now (reviews g) = (Err e, reviews g)
  end.
Proof.
  unfold enqueue_unresolved_reference, enqueue_reference, save_and_find, latest_case_for_reference, pbind, lift, ret, raise; cbn.
  destruct (require_explicit_unresolved r) as [[]|e]; [|done]. cbn.
  destruct (review_find (reviews g) (ref_id r)) as [i|] eqn:Hf.
  - destruct (reference_created_at i); cbn; [split; [done|by destruct g]|done].
  - destruct (cases_of (audit g) (ref_id r)) as [|c l]; [done|]. cbn. by destruct (make_item _).
Qed.
End ReviewWorkflow.

(** ** A mention queued, claimed and decided *)

Module ReviewExamples.
Import ReviewModel ReviewStores ReviewWorkflow.

Definition new_id : string → string := String.append "RQ_".
Lemma new_id_injective a b : new_id a = new_id b → a = b.
Proof. apply (inj (String.append "RQ_")). Qed.

Definition any_reference (ref : string) : Prop := True.
Lemma no_collision a b : any_reference a → any_reference b → new_id a = new_id b → a = b.
Proof. intros _ _. apply new_id_injective. Qed.

Definition mention : EntityReference :=
  mkReference "REF_1" "Acme" [] None UNRESOLVED None 10 "v1".
Definition first_case : ResolutionCase :=
  mkCase "CASE_0" "REF_1" ["ENT_STOCK_1"] None AUTO "two candidates" 11 "v1".
Definition first_registry : registry :=
  mkRegistry {["ENT_STOCK_1"; "ENT_STOCK_2"]}
    (mkAudit {["REF_1" := mention]} {["CASE_0" := first_case]})
    (mkAliases ∅ ∅ ∅) empty_review.
Definition to_second : ManualReviewDecision :=
  mkDecision (Some "ENT_STOCK_2") None "checked the filing" true (Some SHORT_NAME).

Definition queued : registry := run_review_op new_id "v1" first_registry (OpEnqueue mention 20).
Definition claimed : registry := run_review_op new_id "v1" queued (OpClaim "RQ_REF_1" " ann " 30).
Definition submitted := submit_manual_review_decision "v1" claimed "RQ_REF_1" to_second "CASE_1" 40 41 42.

Lemma all_known ops : Forall (op_known any_reference) ops.
Proof. apply list.Forall_true. by intros []. Qed.

Lemma queued_ok : registry_ok new_id any_reference queued.
Proof. by apply run_op_ok; [apply no_collision| |apply fresh_registry_ok]. Qed.
Lemma claimed_ok : registry_ok new_id any_reference claimed.
Proof. by apply run_op_ok; [apply no_collision| |apply queued_ok]. Qed.

(** The reviewer's name is stripped; the case adds the entity chosen; the
    alias can be found by the mention. *)
Example submitted_item :
  match submitted with
  | (Ok p, g') =>
      (option_map (λ i, (status i, claimed_by i, decided_at i)) (queue_item p),
       case_candidate_entity_ids (resolution_case p), unresolved p,
       map al_canonical_entity_id (find_by_text (aliases g') "Acme"))
  | (Err _, _) => (None, [], true, [])
  end = (Some (PROMOTED, Some "ann", Some 40), ["ENT_STOCK_1"; "ENT_STOCK_2"], false, ["ENT_STOCK_2"]).
Proof. vm_compute. reflexivity. Qed.

(** A second reviewer is refused, and so is a second decision. *)
Example second_reviewer_refused :
  match claim_review_item claimed "RQ_REF_1" "bob" 50 with Err e => Some e | Ok _ => None end
  = Some (AlreadyClaimed "RQ_REF_1").
Proof. vm_compute. reflexivity. Qed.
Example second_decision_refused :
  match (submit_manual_review_decision "v1" submitted.2 "RQ_REF_1" to_second "CASE_2" 50 51 52).1 with
  | Err e => Some e | Ok _ => None end = Some (AlreadyCompleted "RQ_REF_1").
Proof. vm_compute. reflexivity. Qed.
(** Without a case the mention cannot be queued. *)
Example no_case_refused :
  match enqueue_unresolved_reference new_id (mkRegistry ∅ (mkAudit ∅ ∅) (mkAliases ∅ ∅ ∅) empty_review)
    mention 20 with Err e => Some e | Ok _ => None end = Some (CaseNotFound "REF_1").
Proof. vm_compute. reflexivity. Qed.

Lemma review_history_witness :
  let g1 := run_review_ops new_id "v1" first_registry [OpEnqueue mention 20; OpClaim "RQ_REF_1" " ann " 30] in
  let g2 := run_review_ops new_id "v1" g1 [OpSubmit "RQ_REF_1" to_second "CASE_1" 40 41 42] in
  is_Some (items (reviews g1) !! "RQ_REF_1") ∧ registry_ok new_id any_reference g1 ∧
  (∀ id id' i i', items (reviews g1) !! id = Some i → items (reviews g1) !! id' = Some i' →
     reference_id i = reference_id i' → id = id') ∧
  (∀ id i, items (reviews g1) !! id = Some i → ∃ i', items (reviews g2) !! id = Some i' ∧ evolves i i').
Proof.
  split; [vm_compute; eauto|].
  apply (review_history new_id "v1" any_reference no_collision first_registry); [reflexivity|apply all_known..].
Defined.

Lemma enqueue_is_idempotent_witness :
  let again := mkReference "REF_1" "Acme Corp" [] None UNRESOLVED None 99 "v2" in
  ∃ i, enqueue_unresolved_reference new_id first_registry mention 20 = Ok (i, queued) ∧
    enqueue_unresolved_reference new_id queued again 77 = Ok (i, queued).
Proof.
  eexists. split; [vm_compute; reflexivity|].
  apply (enqueue_is_idempotent new_id any_reference no_collision first_registry mention 20);
    [done|by apply fresh_registry_ok|vm_compute; reflexivity|reflexivity..].
Defined.

Lemma decision_reads_back_witness :
  ∃ p g', submitted = (Ok p, g') ∧ get_resolution_audit_payload g' "REF_1" = Ok p ∧
    ∃ i, queue_item p = Some i ∧ items (reviews g') !! "RQ_REF_1" = Some i ∧ terminal (status i) = true ∧
      (unresolved p = true ↔ selected_entity_id to_second = None).
Proof.
  assert (match submitted.1 with Ok p => ref_id (entity_reference p) = "REF_1" | Err _ => False end) as Href
    by (vm_compute; reflexivity).
  destruct submitted as [[p|e] g'] eqn:E; [cbn [fst] in Href|destruct Href].
  exists p, g'. split; [reflexivity|].
  pose proof (decision_reads_back new_id "v1" any_reference claimed "RQ_REF_1" to_second "CASE_1"
    40 41 42 p g' claimed_ok E) as H.
  rewrite Href in H. apply H.
  assert (cases_of (audit claimed) "REF_1" = [first_case]) as -> by (vm_compute; reflexivity).
  intros c' ->%list_elem_of_singleton. reflexivity.
Defined.
End ReviewExamples.
