(* ===== verification/Promotion.v ===== *)
(** * Promotion: from contract deltas to a plan of graph records

    [Evidence] is [graph_engine/evidence.py]; [PromotionModel] the records of
    [graph_engine/models.py] and [contracts/schemas/ex_payloads.py] with their
    pydantic validation; [Planner] is [promotion/planner.py]. What pydantic
    makes of numbers and times is the class [Pydantic], and SHA-256 is an
    argument. Payloads hold JSON values. *)
From Stdlib Require Import String Ascii ZArith List SpecFloat.
From stdpp Require Import base gmap strings list sorting.
From S2P Require Import Prelude PyLib.
Local Open Scope string_scope.
Local Open Scope Z_scope.

Inductive promotion_error :=
| ValidationError
| BadEvidence
| UnsupportedDeltaType (delta_id delta_type : string)
| MissingEntityIds (node_ids : list string)
| NodeKeyError (node_id : string)
| MissingAnchors (entity_ids : list string)
| WrongCycle (delta_id cycle_id : string)
| NotFrozen (delta_id : string)
| UnsupportedLabel (delta_id label : string)
| UnsupportedRelationship (delta_id relationship_type : string)
| UnsupportedRelation (delta_id relation_type : string)
| MissingSection (delta_id key : string)
| SectionNotMapping (delta_id key : string)
| UpsertNotEndpoint (node_id : string)
| UpsertConflict (node_id existing new : string)
| UpsertMappingConflict (conflicts : list string)
| UpsertsUnsupported
| UpsertNotMapping
| UpsertsMalformed
| ForbiddenField (key : string)
| BadWeight (e : float_error)
| AllowlistEmpty
| Disallowed (relationship_types : list string).

(** ** Evidence references *)
Module Evidence.

(** A string that is not blank, stripped. *)
Definition text (v : pyval) : option string :=
  match v with
  | PStr s => let s' := strip s in if is_empty s' then None else Some s'
  | _ => None
  end.
Definition evidence_ref (v : pyval) : result promotion_error string :=
  match text v with Some r => Ok r | None => Err BadEvidence end.

Definition sorted_union (a b : list string) : list string :=
  sorted_set (list_to_set a ∪ list_to_set b).

(** [evidence_refs_from_value(value)], of no mapping. *)
Definition evidence_refs_of (v : option pyval) : result promotion_error (list string) :=
  match v with
  | None | Some PNone => Ok []
  | Some (PStr s) => let* r := evidence_ref (PStr s) in Ok [r]
  | Some (PList l) | Some (PTuple l) =>
      let* refs := rmap_list evidence_ref l in Ok (sorted_set (list_to_set refs))
  | Some _ => Err BadEvidence
  end.

Definition evidence_refs_from_mapping (m : pdict) : result promotion_error (list string) :=
  let* refs := evidence_refs_of (pget "evidence_refs" m) in
  let* ref := evidence_refs_of (pget "evidence_ref" m) in
  Ok (sorted_union refs ref).

Definition evidence_refs_from_value (allow_mapping : bool) (v : option pyval)
    : result promotion_error (list string) :=
  match v with
  | Some (PDict m) => if allow_mapping then evidence_refs_from_mapping m else Err BadEvidence
  | _ => evidence_refs_of v
  end.

(** References as they are stored: not blank, stripped, sorted, distinct. *)
Definition ref_ok (r : string) : Prop := strip r = r ∧ is_empty r = false.
Definition refs_ok (refs : list string) : Prop :=
  StronglySorted String.leb refs ∧ NoDup refs ∧ Forall ref_ok refs.

Lemma text_ok v r : text v = Some r → ref_ok r.
Proof.
  destruct v; simpl; try done. destruct (is_empty (strip s)) eqn:E; [done|]. intros [= <-].
  split; [apply strip_idemp|done].
Qed.

Lemma text_of_ok r : ref_ok r → text (PStr r) = Some r.
Proof. intros [Hs He]. simpl. by rewrite Hs, He. Qed.

Lemma sorted_set_refs (s : gset string) : (∀ r, r ∈ s → ref_ok r) → refs_ok (sorted_set s).
Proof.
  intros Hs. split_and!; [apply sorted_strings_sorted|apply NoDup_sorted_set|].
  apply list.Forall_forall. intros r Hr. apply Hs. by apply elem_of_sorted_set.
Qed.

Lemma elem_of_sorted_union a b r : r ∈ sorted_union a b ↔ r ∈ a ∨ r ∈ b.
Proof. unfold sorted_union. rewrite elem_of_sorted_set. set_solver. Qed.

Lemma sorted_union_refs a b : Forall ref_ok a → Forall ref_ok b → refs_ok (sorted_union a b).
Proof.
  rewrite !list.Forall_forall. intros Ha Hb. apply sorted_set_refs.
  intros r [?%elem_of_list_to_set|?%elem_of_list_to_set]%elem_of_union; auto.
Qed.

Lemma evidence_refs_of_ok v refs : evidence_refs_of v = Ok refs → refs_ok refs.
Proof.
  assert (∀ x r, evidence_ref x = Ok r → ref_ok r) as Href.
  { intros x r. unfold evidence_ref. destruct (text x) as [t|] eqn:E; [|done].
    intros [= <-]. by eapply text_ok. }
  assert (∀ l refs, rmap_list evidence_ref l = Ok refs → ∀ r : string,
    r ∈ (list_to_set refs : gset string) → ref_ok r) as Hlist.
  { intros l refs' H%rmap_list_ok r Hr%elem_of_list_to_set. induction H; [by apply elem_of_nil in Hr|].
    apply elem_of_cons in Hr as [->|?]; eauto. }
  destruct v as [[]|]; simpl; try done; try (intros [= <-]; split_and!; constructor).
  - intros (r & Hr & [= <-])%rbind_ok. apply Href in Hr.
    split_and!; repeat constructor; [apply not_elem_of_nil|apply Hr..].
  - intros (r & Hr & [= <-])%rbind_ok. eapply sorted_set_refs, Hlist, Hr.
  - intros (r & Hr & [= <-])%rbind_ok. eapply sorted_set_refs, Hlist, Hr.
Qed.

Lemma evidence_refs_from_mapping_ok m refs : evidence_refs_from_mapping m = Ok refs → refs_ok refs.
Proof.
  intros (a & Ha & (b & Hb & [= <-])%rbind_ok)%rbind_ok.
  apply evidence_refs_of_ok in Ha as (_ & _ & ?), Hb as (_ & _ & ?). by apply sorted_union_refs.
Qed.

Lemma evidence_refs_from_value_ok b v refs : evidence_refs_from_value b v = Ok refs → refs_ok refs.
Proof.
  destruct v as [[]|]; try apply evidence_refs_of_ok.
  simpl. destruct b; [apply evidence_refs_from_mapping_ok|done].
Qed.

(** Reading a list of stored references gives the list back. *)
Lemma evidence_refs_stored refs : refs_ok refs → evidence_refs_of (Some (PList (map PStr refs))) = Ok refs.
Proof.
  intros (Hs & Hn & Hf). simpl.
  assert (rmap_list evidence_ref (map PStr refs) = Ok refs) as ->.
  { apply rmap_list_ok. clear Hs Hn. induction Hf as [|r refs Hr _ IH]; simpl; constructor; [|done].
    unfold evidence_ref. by rewrite text_of_ok. }
  simpl. f_equal. unfold sorted_set.
  transitivity (sorted_strings refs).
  - apply sorted_strings_unique. by apply elements_list_to_set.
  - apply (StronglySorted_unique String.le); [apply sorted_strings_sorted|done|apply py_sort_perm].
Qed.
End Evidence.

(** What pydantic makes of a field declared [datetime], [float] with a lower
    bound 0, or [float] between 0 and 1; a number that satisfies the bounds is
    kept as it is. *)
Class Pydantic := {
  as_datetime : pyval → option Z;
  as_weight : pyval → option spec_float;
  as_confidence : pyval → option spec_float;
  as_weight_kept f : finite_float f = true → SFleb (S754_zero false) f = true → as_weight (PFloat f) = Some f;
}.

Module PromotionModel.
Import Evidence.

Inductive NodeLabel := ENTITY | SECTOR | INDUSTRY | REGION | EVENT | ASSERTION.
Definition node_labels : list (string * NodeLabel) :=
  [("Entity", ENTITY); ("Sector", SECTOR); ("Industry", INDUSTRY); ("Region", REGION);
   ("Event", EVENT); ("Assertion", ASSERTION)].
Inductive RelationshipType :=
| SUPPLY_CHAIN | OWNERSHIP | INDUSTRY_CHAIN | SECTOR_MEMBERSHIP | EVENT_IMPACT | ASSERTION_LINK
| CO_HOLDING | NORTHBOUND_HOLD.
Definition relationship_types : list (string * RelationshipType) :=
  [("SUPPLY_CHAIN", SUPPLY_CHAIN); ("OWNERSHIP", OWNERSHIP); ("INDUSTRY_CHAIN", INDUSTRY_CHAIN);
   ("SECTOR_MEMBERSHIP", SECTOR_MEMBERSHIP); ("EVENT_IMPACT", EVENT_IMPACT);
   ("ASSERTION_LINK", ASSERTION_LINK); ("CO_HOLDING", CO_HOLDING); ("NORTHBOUND_HOLD", NORTHBOUND_HOLD)].
#[export] Instance node_label_dec : EqDecision NodeLabel.
Proof. solve_decision. Defined.
#[export] Instance relationship_type_dec : EqDecision RelationshipType.
Proof. solve_decision. Defined.

(** [value in _VALID_NODE_LABELS], [value in _VALID_RELATIONSHIP_TYPES] *)
Definition valid_node_label (s : string) : bool := dhas s node_labels.
Definition valid_relationship_type (s : string) : bool := dhas s relationship_types.

Record GraphNodeRecord := mkNode {
  node_id : string;
  canonical_entity_id : string;
  label : string;
  node_properties : pdict;
  node_created_at : Z;
  node_updated_at : Z;
}.
Record GraphEdgeRecord := mkEdge {
  edge_id : string;
  source_node_id : string;
  target_node_id : string;
  relationship_type : string;
  edge_properties : pdict;
  weight : spec_float;
  edge_created_at : Z;
  edge_updated_at : Z;
}.
Record GraphAssertionRecord := mkAssertion {
  assertion_id : string;
  assertion_source_node_id : string;
  assertion_target_node_id : option string;
  assertion_type : string;
  assertion_evidence : pdict;
  confidence : spec_float;
  assertion_created_at : Z;
}.

Inductive DeltaType := NodeAdd | EdgeAdd | EdgeUpdate | AssertionAdd.
Inductive DeltaStatus := DsValidated | DsRejected | DsFrozen.
#[export] Instance delta_status_dec : EqDecision DeltaStatus.
Proof. solve_decision. Defined.

Record FrozenGraphDelta := mkDelta {
  delta_id : string;
  delta_cycle_id : string;
  delta_type : DeltaType;
  source_entity_ids : list string;
  payload : pdict;
  validation_status : DeltaStatus;
}.
Record PromotionPlan := mkPlan {
  plan_cycle_id : string;
  selection_ref : string;
  delta_ids : list string;
  node_records : list GraphNodeRecord;
  edge_records : list GraphEdgeRecord;
  assertion_records : list GraphAssertionRecord;
  plan_created_at : Z;
}.

(** [Ex3CandidateGraphDelta] *)
Record CandidateGraphDelta := mkContract {
  c_subsystem_id : string;
  c_delta_id : string;
  c_delta_type : string;
  c_source_node : string;
  c_target_node : string;
  c_relation_type : string;
  c_properties : pdict;
  c_evidence : list string;
  c_producer_context : option pdict;
}.

(** *** Validation *)

Definition opt_ok {A} (o : option A) : result promotion_error A :=
  match o with Some a => Ok a | None => Err ValidationError end.
Definition field {A} (f : pyval → option A) (k : string) (d : pdict) : result promotion_error A :=
  opt_ok (pget k d ≫= f).

(** [extra="forbid"] *)
Definition extra_forbidden (fields : list string) (d : pdict) : bool :=
  negb (forallb (λ kv, match kv with (PStr k, _) => bool_decide (k ∈ fields) | _ => false end) d).

(** [dict[str, Any]]: the keys must be strings and are stripped. *)
Definition any_dict (v : pyval) : option pdict :=
  match v with
  | PDict d =>
      if forallb (λ kv, is_str kv.1) d then
        Some (dict_of (map (λ kv, (match kv.1 with PStr s => strip s | _ => "" end, kv.2)) d))
      else None
  | _ => None
  end.

(** [list[EvidenceRef]] with at least one element. *)
Definition text_list (v : pyval) : option (list string) :=
  match v with
  | PList l | PTuple l =>
      match mapM text l with Some (r :: refs) => Some (r :: refs) | _ => None end
  | _ => None
  end.
(** [T | None] *)
Definition optional {A} (f : pyval → option A) (v : pyval) : option (option A) :=
  match v with PNone => Some None | _ => Some <$> f v end.
Definition plain_text (v : pyval) : option string :=
  match v with PStr s => Some (strip s) | _ => None end.

Definition contract_fields : list string :=
  ["subsystem_id"; "delta_id"; "delta_type"; "source_node"; "target_node"; "relation_type";
   "properties"; "evidence"; "producer_context"].

(** [CandidateGraphDelta.model_validate(payload)]; the ingest fields it rejects
    by name are not among its fields either. *)
Definition make_contract_delta (d : pdict) : result promotion_error CandidateGraphDelta :=
  raise_if extra_forbidden contract_fields d with ValidationError;
  let* subsystem := field text "subsystem_id" d in
  let* id := field text "delta_id" d in
  let* type := field text "delta_type" d in
  let* source := field text "source_node" d in
  let* target := field text "target_node" d in
  let* relation := field text "relation_type" d in
  let* properties := field any_dict "properties" d in
  let* evidence := field text_list "evidence" d in
  let* context := opt_ok (optional any_dict (default PNone (pget "producer_context" d))) in
  Ok (mkContract subsystem id type source target relation properties evidence context).

(** [contract_delta.model_dump()] *)
Definition model_dump (c : CandidateGraphDelta) : pdict :=
  [(PStr "subsystem_id", PStr (c_subsystem_id c)); (PStr "delta_id", PStr (c_delta_id c));
   (PStr "delta_type", PStr (c_delta_type c)); (PStr "source_node", PStr (c_source_node c));
   (PStr "target_node", PStr (c_target_node c)); (PStr "relation_type", PStr (c_relation_type c));
   (PStr "properties", PDict (c_properties c)); (PStr "evidence", PList (map PStr (c_evidence c)));
   (PStr "producer_context", match c_producer_context c with Some d => PDict d | None => PNone end)].

Definition propagatable_relationship_types : list string :=
  ["SUPPLY_CHAIN"; "OWNERSHIP"; "INDUSTRY_CHAIN"; "SECTOR_MEMBERSHIP"; "EVENT_IMPACT"; "CO_HOLDING";
   "NORTHBOUND_HOLD"].
Fixpoint is_propagation_channel (v : pyval) : bool :=
  match v with
  | PList l | PTuple l => existsb is_propagation_channel l
  | PStr s => bool_decide (s ∈ ["fundamental"; "event"; "reflexive"])
  | _ => false
  end.
Definition is_propagatable_edge (relationship : string) (properties : pdict) : bool :=
  bool_decide (relationship ∈ propagatable_relationship_types) ||
  existsb (λ k, match pget k properties with Some v => is_propagation_channel v | None => false end)
    ["propagation_channel"; "channel"; "impact_channel"].

(** [_propagatable_edges_require_evidence_refs]; its errors are validation errors. *)
Definition require_evidence_refs (e : GraphEdgeRecord) : result promotion_error GraphEdgeRecord :=
  if is_propagatable_edge (relationship_type e) (edge_properties e) then
    let* refs := map_err (λ _, ValidationError) (evidence_refs_from_mapping (edge_properties e)) in
    match refs with
    | [] => Err ValidationError
    | _ => Ok (mkEdge (edge_id e) (source_node_id e) (target_node_id e) (relationship_type e)
             (pset "evidence_refs" (PList (map PStr refs)) (edge_properties e)) (weight e)
             (edge_created_at e) (edge_updated_at e))
    end
  else Ok e.

Section pydantic.
Context `{Pydantic}.

Definition make_node_record (d : pdict) : result promotion_error GraphNodeRecord :=
  raise_if extra_forbidden
    ["node_id"; "canonical_entity_id"; "label"; "properties"; "created_at"; "updated_at"] d
    with ValidationError;
  let* id := field text "node_id" d in
  let* entity := field text "canonical_entity_id" d in
  let* l := field text "label" d in
  let* properties := field any_dict "properties" d in
  let* created := field as_datetime "created_at" d in
  let* updated := field as_datetime "updated_at" d in
  Ok (mkNode id entity l properties created updated).

Definition make_edge_record (id source target type properties w : pyval) (created updated : Z)
    : result promotion_error GraphEdgeRecord :=
  let* id' := opt_ok (text id) in
  let* source' := opt_ok (text source) in
  let* target' := opt_ok (text target) in
  let* type' := opt_ok (text type) in
  let* properties' := opt_ok (any_dict properties) in
  let* w' := opt_ok (as_weight w) in
  require_evidence_refs (mkEdge id' source' target' type' properties' w' created updated).

Definition edge_from_mapping (d : pdict) : result promotion_error GraphEdgeRecord :=
  raise_if extra_forbidden
    ["edge_id"; "source_node_id"; "target_node_id"; "relationship_type"; "properties"; "weight";
     "created_at"; "updated_at"] d with ValidationError;
  let* id := opt_ok (pget "edge_id" d) in
  let* source := opt_ok (pget "source_node_id" d) in
  let* target := opt_ok (pget "target_node_id" d) in
  let* type := opt_ok (pget "relationship_type" d) in
  let* properties := opt_ok (pget "properties" d) in
  let* created := field as_datetime "created_at" d in
  let* updated := field as_datetime "updated_at" d in
  make_edge_record id source target type properties
    (default (PFloat (float_of_Z 1)) (pget "weight" d)) created updated.

Definition make_assertion_record (d : pdict) : result promotion_error GraphAssertionRecord :=
  raise_if extra_forbidden
    ["assertion_id"; "source_node_id"; "target_node_id"; "assertion_type"; "evidence"; "confidence";
     "created_at"] d with ValidationError;
  let* id := field text "assertion_id" d in
  let* source := field text "source_node_id" d in
  let* target := field (optional plain_text) "target_node_id" d in
  let* type := field text "assertion_type" d in
  let* evidence := field any_dict "evidence" d in
  let* c := field as_confidence "confidence" d in
  let* created := field as_datetime "created_at" d in
  Ok (mkAssertion id source target type evidence c created).
End pydantic.

(** [FrozenGraphDelta(...)] *)
Definition make_delta (id cycle_id : string) (type : DeltaType) (entities : list string) (p : pdict)
    (st : DeltaStatus) : result promotion_error FrozenGraphDelta :=
  let* id' := opt_ok (text (PStr id)) in
  let* cycle := opt_ok (text (PStr cycle_id)) in
  raise_if bool_decide (entities = []) with ValidationError;
  let* p' := opt_ok (any_dict (PDict p)) in
  Ok (mkDelta id' cycle type (map strip entities) p' st).

(** *** What validation guarantees *)

Definition keys_clean (d : pdict) : Prop :=
  NoDup (map key_of d) ∧ Forall (λ kv : pyval * pyval, ∃ k, kv.1 = PStr k ∧ strip k = k) d.

Lemma any_dict_clean v d : any_dict v = Some d → keys_clean d.
Proof.
  destruct v as [| | | | | | |m|]; simpl; try done. destruct (forallb _ m); [|done]. intros [= <-].
  destruct (dict_of_keys (map (λ kv, (match kv.1 with PStr s => strip s | _ => "" end, kv.2)) m)) as [Hn Hf].
  split; [done|]. eapply Forall_impl; [exact Hf|]. intros kv (k & E & Hk). exists k. split; [done|].
  apply list_elem_of_fmap in Hk as ([k' v'] & -> & Hk). apply list_elem_of_fmap in Hk as ([x y] & [= -> ->] & _).
  simpl. destruct x; try done. apply strip_idemp.
Qed.

(** A dictionary that was validated is kept as it is. *)
Lemma any_dict_kept d : keys_clean d → any_dict (PDict d) = Some d.
Proof.
  intros [Hn Hf]. simpl.
  assert (forallb (λ kv : pyval * pyval, is_str kv.1) d = true) as Hstr.
  { apply forallb_forall. intros [k v] Hin. rewrite list.Forall_forall in Hf.
    destruct (Hf _ (proj2 (list_elem_of_In _ _) Hin)) as (s & E & _). simpl in *. by rewrite E. }
  rewrite Hstr. f_equal. rewrite <- (dict_of_fresh d Hn Hstr) at 2. f_equal.
  apply map_ext_in. intros [k v] Hin. rewrite list.Forall_forall in Hf.
  destruct (Hf _ (proj2 (list_elem_of_In _ _) Hin)) as (s & E & Hs). simpl in *. rewrite E. by rewrite Hs.
Qed.

Lemma opt_ok_ok {A} (o : option A) a : opt_ok o = Ok a ↔ o = Some a.
Proof. destruct o; simpl; naive_solver. Qed.
Lemma field_ok {A} (f : pyval → option A) k d a : field f k d = Ok a ↔ ∃ v, pget k d = Some v ∧ f v = Some a.
Proof. unfold field. rewrite opt_ok_ok. destruct (pget k d); simpl; naive_solver. Qed.

(** A contract delta as it was validated. *)
Record contract_ok (c : CandidateGraphDelta) : Prop := {
  c_texts : Forall ref_ok [c_subsystem_id c; c_delta_id c; c_delta_type c; c_source_node c;
    c_target_node c; c_relation_type c];
  c_properties_ok : keys_clean (c_properties c);
  c_evidence_ok : c_evidence c ≠ [] ∧ Forall ref_ok (c_evidence c);
  c_context_ok : ∀ d, c_producer_context c = Some d → keys_clean d;
}.

Lemma text_list_ok v l : text_list v = Some l → l ≠ [] ∧ Forall ref_ok l.
Proof.
  assert (∀ vs, match mapM text vs with Some (r :: refs) => Some (r :: refs) | _ => None end = Some l →
    l ≠ [] ∧ Forall ref_ok l) as H.
  { intros vs. destruct (mapM text vs) as [[|r refs]|] eqn:E; try done. intros [= <-]. split; [done|].
    apply mapM_Some in E. induction E as [|x y vs' l' Hxy _ IH]; constructor; [by eapply text_ok|done]. }
  destruct v; try done; apply H.
Qed.

Lemma make_contract_delta_ok d c : make_contract_delta d = Ok c → contract_ok c.
Proof.
  unfold make_contract_delta. intros H. rinv.
  repeat match goal with H : field text _ _ = Ok _ |- _ => apply field_ok in H as (? & _ & ?%text_ok) end.
  repeat match goal with H : field _ _ _ = Ok _ |- _ => apply field_ok in H as (? & _ & ?) end.
  split; simpl.
  - rewrite !Forall_cons, Forall_nil. done.
  - by eapply any_dict_clean.
  - by eapply text_list_ok.
  - intros d' ->. match goal with H : opt_ok _ = Ok _ |- _ => apply opt_ok_ok in H; revert H end.
    destruct (default PNone _); unfold optional; [done|..];
      (intros (? & ? & [= ->])%fmap_Some; by eapply any_dict_clean).
Qed.

Lemma text_list_kept l : l ≠ [] → Forall ref_ok l → text_list (PList (map PStr l)) = Some l.
Proof.
  intros Hne Hl. unfold text_list. assert (mapM text (map PStr l) = Some l) as ->.
  { apply mapM_Some. clear Hne. induction Hl as [|r l Hr _ IH]; simpl; constructor; [by apply text_of_ok|done]. }
  by destruct l.
Qed.

(** Validating what a contract delta dumps gives it back. *)
Lemma make_contract_delta_dump c : contract_ok c → make_contract_delta (model_dump c) = Ok c.
Proof.
  intros [Ht Hp [He1 He2] Hc]. destruct c as [sub id ty s t rel props ev ctx]. simpl in *.
  repeat (apply Forall_cons in Ht as [?%text_of_ok Ht]).
  unfold make_contract_delta, field. cbn -[text any_dict text_list optional strip].
  repeat match goal with H : text _ = Some _ |- _ => rewrite H; clear H; cbn -[text any_dict text_list optional strip] end.
  rewrite (any_dict_kept props Hp). cbn -[any_dict text_list optional].
  rewrite (text_list_kept ev He1 He2). cbn -[any_dict optional].
  destruct ctx as [d|]; [|done]. unfold optional. by rewrite (any_dict_kept d (Hc d eq_refl)).
Qed.
End PromotionModel.

Module Planner.
Import Evidence PromotionModel.

Definition forbidden_payload_fields : list string :=
  ["chunk"; "light_rag_artifact"; "lightrag_artifact"; "raw_text"].
Definition holdings_upsert_relationship_types : list string := ["CO_HOLDING"; "NORTHBOUND_HOLD"].
(** 2000-01-01T00:00:00Z in seconds. *)
Definition timestamp_base : Z := 946684800.
Definition timestamp_span_seconds : Z := 10 * 365 * 24 * 60 * 60.

Definition contract_delta_type_to_internal : list (string * DeltaType) :=
  [("add", EdgeAdd); ("add_edge", EdgeAdd); ("edge_upsert", EdgeAdd); ("upsert_edge", EdgeAdd);
   ("upsert_relation", EdgeAdd)].
Definition contract_relation_type_to_internal : list (string * string) :=
  (map (λ kv, (lower kv.1, kv.1)) relationship_types ++
   [("supplier_of", "SUPPLY_CHAIN"); ("supply_contract", "SUPPLY_CHAIN")])%list.
Definition contract_token (s : string) : string := replace_char "-" "_" (lower (strip s)).

Definition internal_delta_type (c : CandidateGraphDelta) : result promotion_error DeltaType :=
  match dget (contract_token (c_delta_type c)) contract_delta_type_to_internal with
  | Some t => Ok t
  | None => Err (UnsupportedDeltaType (c_delta_id c) (c_delta_type c))
  end.
Definition internal_relationship_type (c : CandidateGraphDelta) : result promotion_error string :=
  match dget (contract_token (c_relation_type c)) contract_relation_type_to_internal with
  | Some t => Ok t
  | None => Err (UnsupportedRelation (c_delta_id c) (c_relation_type c))
  end.

(** *** Node upserts carried by holdings deltas *)

Definition as_mapping (v : pyval) : option pdict := match v with PDict d => Some d | _ => None end.
Definition coerce_node_upsert_payloads (v : pyval) : result promotion_error (list pdict) :=
  match v with
  | PDict d =>
      if phas "node_id" d then Ok [d]
      else Ok (omap (λ k, pget k d ≫= as_mapping) ["source"; "source_node"; "target"; "target_node"])
  | PList l | PTuple l =>
      rmap_list (λ x, match as_mapping x with Some d => Ok d | None => Err UpsertNotMapping end) l
  | _ => Err UpsertsMalformed
  end.
Definition node_upsert_payloads (c : CandidateGraphDelta) : result promotion_error (list pdict) :=
  match c_producer_context c with
  | None => Ok []
  | Some context =>
      match pget "graph_node_upserts" context with
      | None | Some PNone => Ok []
      | Some raw =>
          let* t := internal_relationship_type c in
          raise_if negb (bool_decide (t ∈ holdings_upsert_relationship_types)) with UpsertsUnsupported;
          coerce_node_upsert_payloads raw
      end
  end.

(** *** Sections of a payload *)

Definition required_payload_section (d : FrozenGraphDelta) (key : string) : result promotion_error pdict :=
  match pget key (payload d) with
  | Some (PDict s) => Ok s
  | _ => Err (MissingSection (delta_id d) key)
  end.
Definition optional_payload_section (d : FrozenGraphDelta) (key : string)
    : result promotion_error (option pdict) :=
  match pget key (payload d) with
  | None | Some PNone => Ok None
  | Some (PDict s) => Ok (Some s)
  | Some _ => Err (SectionNotMapping (delta_id d) key)
  end.

Definition looks_like_contract_delta (d : pdict) : bool :=
  forallb (λ k, phas k d)
    ["delta_id"; "delta_type"; "source_node"; "target_node"; "relation_type"; "properties"; "evidence";
     "subsystem_id"].
Fixpoint first_mapping (keys : list string) (d : pdict) : option pdict :=
  match keys with
  | [] => None
  | k :: rest => match pget k d with Some (PDict m) => Some m | _ => first_mapping rest d end
  end.
Definition contract_delta_from_payload (d : pdict) : result promotion_error (option CandidateGraphDelta) :=
  match first_mapping ["contract_delta"; "candidate_delta"; "graph_delta"] d with
  | Some m => let* c := make_contract_delta m in Ok (Some c)
  | None =>
      if looks_like_contract_delta d then let* c := make_contract_delta d in Ok (Some c) else Ok None
  end.

Definition delta_evidence_refs (d : FrozenGraphDelta) (c : option CandidateGraphDelta)
    : result promotion_error (list string) :=
  let* refs := evidence_refs_from_value false (pget "evidence_refs" (payload d)) in
  let* ref := evidence_refs_from_value false (pget "evidence_ref" (payload d)) in
  let* evidence := evidence_refs_from_value true (pget "evidence" (payload d)) in
  let* contract :=
    match c with
    | Some c' => evidence_refs_from_value false (Some (PList (map PStr (c_evidence c'))))
    | None => Ok []
    end in
  Ok (sorted_set (list_to_set refs ∪ list_to_set ref ∪ list_to_set evidence ∪ list_to_set contract)).

(** [_reject_forbidden_payload_fields]: the first forbidden key met. *)
Fixpoint forbidden_field (v : pyval) : option string :=
  match v with
  | PDict d =>
      first_error (λ kv, match kv with
        | (PStr k, x) => if bool_decide (k ∈ forbidden_payload_fields) then Some k else forbidden_field x
        | (_, x) => forbidden_field x
        end) d
  | PList l => first_error forbidden_field l
  | _ => None
  end.
Definition reject_forbidden_payload_fields (v : pyval) : result promotion_error () :=
  match forbidden_field v with Some k => Err (ForbiddenField k) | None => Ok () end.

Section planner.
Context `{Pydantic}.
(** SHA-256 of the UTF-8 encoding, as an integer of 256 bits, and [float(s)]. *)
Context (sha256 : string → Z) (parse_float : string → option spec_float).

Definition parse_node_checked (id : string) (d : pdict) : result promotion_error GraphNodeRecord :=
  let* n := make_node_record d in
  raise_if negb (valid_node_label (label n)) with UnsupportedLabel id (label n);
  Ok n.

Definition node_upsert_records (id : string) (c : CandidateGraphDelta)
    : result promotion_error (list GraphNodeRecord) :=
  let* payloads := node_upsert_payloads c in rmap_list (parse_node_checked id) payloads.

Definition stable_contract_edge_timestamp (d : FrozenGraphDelta) (c : CandidateGraphDelta) : Z :=
  let material := join "|" [delta_cycle_id d; delta_id d; c_delta_id c; c_source_node c; c_target_node c;
    c_relation_type c] in
  timestamp_base + (sha256 material / 2 ^ 192) mod timestamp_span_seconds.

Definition edge_weight (properties : pdict) : result promotion_error spec_float :=
  match pget "weight" properties with
  | None | Some PNone => Ok (float_of_Z 1)
  | Some v => map_err BadWeight (as_float parse_float v)
  end.

(** [v] when it is a string that is not blank. *)
Definition nonblank_string (v : option pyval) : option string :=
  match v with
  | Some (PStr s) => if is_empty (strip s) then None else Some s
  | _ => None
  end.

Definition holdings_edge_material (c : CandidateGraphDelta) (relationship : string) : string :=
  match nonblank_string (pget "edge_key" (c_properties c)) with
  | Some key => key
  | None => join "|" [relationship; c_source_node c; c_target_node c]
  end.

Definition edge_id_for (c : CandidateGraphDelta) (relationship : string) : string :=
  if bool_decide (relationship ∈ holdings_upsert_relationship_types) then
    match nonblank_string (pget "edge_id" (c_properties c)) with
    | Some id => strip id
    | None => lower relationship ++ ":" ++ hexdigest_prefix sha256 24 (holdings_edge_material c relationship)
    end
  else c_delta_id c.

Definition edge_from_contract (d : FrozenGraphDelta) (c : CandidateGraphDelta) (refs : list string)
    : result promotion_error GraphEdgeRecord :=
  let created := stable_contract_edge_timestamp d c in
  let* existing := evidence_refs_from_mapping (c_properties c) in
  let properties := pset "evidence_refs" (PList (map PStr (sorted_union existing refs))) (c_properties c) in
  let* t := internal_relationship_type c in
  let* w := edge_weight properties in
  make_edge_record (PStr (edge_id_for c t)) (PStr (c_source_node c)) (PStr (c_target_node c)) (PStr t)
    (PDict properties) (PFloat w) created created.

Definition edge_payload_with_evidence_refs (section : pdict) (refs : list string)
    : result promotion_error pdict :=
  match refs, pget "properties" section with
  | _ :: _, Some (PDict properties) =>
      let* existing := evidence_refs_from_mapping properties in
      Ok (pset "properties"
        (PDict (pset "evidence_refs" (PList (map PStr (sorted_union existing refs))) properties)) section)
  | _, _ => Ok section
  end.

(** [_parse_edge_record] with [_edge_payload] *)
Definition parse_edge_record (d : FrozenGraphDelta) : result promotion_error GraphEdgeRecord :=
  let* c := contract_delta_from_payload (payload d) in
  let* section := optional_payload_section d "edge" in
  let* refs := delta_evidence_refs d c in
  let* e :=
    match section, c with
    | Some s, _ => let* s' := edge_payload_with_evidence_refs s refs in edge_from_mapping s'
    | None, None => Err (MissingSection (delta_id d) "edge")
    | None, Some c' => edge_from_contract d c' refs
    end in
  raise_if negb (valid_relationship_type (relationship_type e))
    with UnsupportedRelationship (delta_id d) (relationship_type e);
  Ok e.

Definition parse_node_record (d : FrozenGraphDelta) : result promotion_error GraphNodeRecord :=
  let* s := required_payload_section d "node" in parse_node_checked (delta_id d) s.

Definition parse_node_upsert_records (d : FrozenGraphDelta) : result promotion_error (list GraphNodeRecord) :=
  let* c := contract_delta_from_payload (payload d) in
  match c with None => Ok [] | Some c' => node_upsert_records (delta_id d) c' end.

Definition parse_assertion_record (d : FrozenGraphDelta) : result promotion_error GraphAssertionRecord :=
  let* c := contract_delta_from_payload (payload d) in
  let* s := required_payload_section d "assertion" in
  let* refs := delta_evidence_refs d c in
  let* s' :=
    match refs with
    | [] => Ok s
    | _ =>
        let evidence := default [] (pget "evidence" s ≫= as_mapping) in
        let* existing := evidence_refs_from_mapping evidence in
        Ok (pset "evidence"
          (PDict (pset "evidence_refs" (PList (map PStr (sorted_union existing refs))) evidence)) s)
    end in
  make_assertion_record s'.

(** *** The plan *)

Definition validate_delta_header (d : FrozenGraphDelta) (cycle_id : string) : result promotion_error () :=
  raise_if negb (String.eqb (delta_cycle_id d) cycle_id) with WrongCycle (delta_id d) (delta_cycle_id d);
  raise_if negb (bool_decide (validation_status d = DsFrozen)) with NotFrozen (delta_id d);
  Ok ().

Record plan_parts := mkParts {
  nodes_by_id : pydict GraphNodeRecord;
  edges_so_far : list GraphEdgeRecord;
  assertions_so_far : list GraphAssertionRecord;
}.
Definition add_node (nodes : pydict GraphNodeRecord) (n : GraphNodeRecord) : pydict GraphNodeRecord :=
  dset (node_id n) n nodes.

Definition plan_delta (cycle_id : string) (p : plan_parts) (d : FrozenGraphDelta)
    : result promotion_error plan_parts :=
  let* _ := validate_delta_header d cycle_id in
  let* _ := reject_forbidden_payload_fields (PDict (payload d)) in
  match delta_type d with
  | NodeAdd =>
      let* n := parse_node_record d in
      Ok (mkParts (add_node (nodes_by_id p) n) (edges_so_far p) (assertions_so_far p))
  | EdgeAdd | EdgeUpdate =>
      let* ns := parse_node_upsert_records d in
      let* e := parse_edge_record d in
      Ok (mkParts (fold_left add_node ns (nodes_by_id p)) (edges_so_far p ++ [e])%list (assertions_so_far p))
  | AssertionAdd =>
      let* a := parse_assertion_record d in
      Ok (mkParts (nodes_by_id p) (edges_so_far p) (assertions_so_far p ++ [a])%list)
  end.

Definition build_promotion_plan (cycle_id selection : string) (deltas : list FrozenGraphDelta) (now : Z)
    : result promotion_error PromotionPlan :=
  let sorted_deltas := sort_on delta_id deltas in
  let* p := rfold (plan_delta cycle_id) (mkParts [] [] []) sorted_deltas in
  let* cycle := opt_ok (text (PStr cycle_id)) in
  let* sel := opt_ok (text (PStr selection)) in
  Ok (mkPlan cycle sel (map delta_id sorted_deltas) (map snd (nodes_by_id p)) (edges_so_far p)
    (assertions_so_far p) now).

(** *** Freezing contract deltas *)

Definition freeze_contract_delta (cycle_id : string) (node_entity_ids : gmap string string)
    (c : CandidateGraphDelta) : result promotion_error FrozenGraphDelta :=
  let* t := internal_delta_type c in
  match node_entity_ids !! c_source_node c, node_entity_ids !! c_target_node c with
  | Some a, Some b => make_delta (c_delta_id c) cycle_id t [a; b] (model_dump c) DsFrozen
  | None, _ => Err (NodeKeyError (c_source_node c))
  | _, None => Err (NodeKeyError (c_target_node c))
  end.

Definition endpoints (c : CandidateGraphDelta) : gset string := {[c_source_node c; c_target_node c]}.
Definition supported_endpoint_node_ids (cs : list CandidateGraphDelta) : result promotion_error (gset string) :=
  rfold (λ ids c, let* _ := internal_delta_type c in Ok (ids ∪ endpoints c)) ∅ cs.

Definition upsert_entity_id (c : CandidateGraphDelta) (ids : gmap string string) (n : GraphNodeRecord)
    : result promotion_error (gmap string string) :=
  raise_if negb (bool_decide (node_id n ∈ endpoints c)) with UpsertNotEndpoint (node_id n);
  match ids !! node_id n with
  | Some e =>
      raise_if negb (String.eqb e (canonical_entity_id n))
        with UpsertConflict (node_id n) e (canonical_entity_id n);
      Ok (<[node_id n := canonical_entity_id n]> ids)
  | None => Ok (<[node_id n := canonical_entity_id n]> ids)
  end.
Definition node_upsert_entity_ids (cs : list CandidateGraphDelta)
    : result promotion_error (gmap string string) :=
  rfold (λ ids c, let* ns := node_upsert_records (c_delta_id c) c in rfold (upsert_entity_id c) ids ns) ∅ cs.

Definition mapping_conflict (upserts existing : gmap string string) (n : string) : bool :=
  match upserts !! n, existing !! n with Some a, Some b => negb (String.eqb b a) | _, _ => false end.
Definition mapping_conflicts (upserts existing : gmap string string) : list string :=
  List.filter (mapping_conflict upserts existing) (sorted_set (dom upserts)).
Definition entity_missing (entities : gmap string string) (n : string) : bool :=
  match entities !! n with Some e => is_empty e | None => true end.
Definition missing_entity_ids (ids : gset string) (entities : gmap string string) : list string :=
  List.filter (entity_missing entities) (sorted_set ids).

(** [EntityAnchorReader] *)
Context (canonical_entity_ids_for_node_ids : gset string → gmap string string)
  (existing_entity_ids : gset string → gset string).

(** The entity of every node the deltas touch. *)
Definition resolve_entity_ids (cs : list CandidateGraphDelta) : result promotion_error (gmap string string) :=
  let* endpoint_ids := supported_endpoint_node_ids cs in
  let* upserts := node_upsert_entity_ids cs in
  let existing := if bool_decide (endpoint_ids = ∅) then ∅
                  else canonical_entity_ids_for_node_ids endpoint_ids in
  raise_if bool_decide (mapping_conflicts upserts existing ≠ [])
    with UpsertMappingConflict (mapping_conflicts upserts existing);
  let resolved := existing ∪ upserts in
  raise_if bool_decide (missing_entity_ids endpoint_ids resolved ≠ [])
    with MissingEntityIds (missing_entity_ids endpoint_ids resolved);
  Ok resolved.
Definition freeze_contract_deltas (cycle_id : string) (cs : list CandidateGraphDelta)
    : result promotion_error (list FrozenGraphDelta) :=
  let* resolved := resolve_entity_ids cs in rmap_list (freeze_contract_delta cycle_id resolved) cs.

Definition validate_entity_anchors (deltas : list FrozenGraphDelta) : result promotion_error () :=
  let ids : gset string := list_to_set (concat (map source_entity_ids deltas)) in
  let missing := sorted_set (ids ∖ existing_entity_ids ids) in
  raise_if bool_decide (missing ≠ []) with MissingAnchors missing; Ok ().

(** *** [promote_graph_deltas] up to the writes *)

Definition validate_allowed_relationship_types (plan : PromotionPlan) (allowed : gset string)
    : result promotion_error () :=
  raise_if bool_decide (allowed = ∅) with AllowlistEmpty;
  let types : gset string := list_to_set (map relationship_type (edge_records plan)) in
  let disallowed := filter (λ t, t ∉ allowed) (sorted_set types) in
  raise_if bool_decide (disallowed ≠ []) with Disallowed disallowed; Ok ().

Definition promotion_plan (cycle_id selection : string) (cs : list CandidateGraphDelta)
    (allowed : option (gset string)) (now : Z) : result promotion_error PromotionPlan :=
  let* deltas := freeze_contract_deltas cycle_id cs in
  let* _ := validate_entity_anchors deltas in
  let* plan := build_promotion_plan cycle_id selection deltas now in
  let* _ := match allowed with
            | Some types => validate_allowed_relationship_types plan types
            | None => Ok ()
            end in
  Ok plan.
End planner.
End Planner.

Module PlannerTheorems.
Import Evidence PromotionModel Planner.

(** A plan does not depend on the order in which the candidate reader
    returned the deltas: for deltas with distinct ids every permutation gives
    the same plan, or the same error. *)
Theorem plan_order_independent `{Pydantic} sha256 parse_float cycle_id selection deltas deltas' now :
  NoDup (map delta_id deltas) → deltas ≡ₚ deltas' →
  build_promotion_plan sha256 parse_float cycle_id selection deltas now =
  build_promotion_plan sha256 parse_float cycle_id selection deltas' now.
Proof. intros Hn Hp. unfold build_promotion_plan. by rewrite (sort_on_perm_eq delta_id deltas deltas'). Qed.

(** *** What a plan holds *)

(** [k] is a key of the value or of a mapping inside it. *)
Inductive occurs (k : string) : pyval → Prop :=
| occurs_key d v : (PStr k, v) ∈ d → occurs k (PDict d)
| occurs_value d k' v : (k', v) ∈ d → occurs k v → occurs k (PDict d)
| occurs_item l v : v ∈ l → occurs k v → occurs k (PList l).

Lemma forbidden_field_none v :
  forbidden_field v = None ↔ ∀ k, k ∈ forbidden_payload_fields → ¬ occurs k v.
Proof.
  induction v as [| | | | | |l IH|l IH|d IH] using pyval_rect_nested;
    try (split; [by inversion 3|done]).
  - change (forbidden_field (PList l)) with (first_error forbidden_field l). rewrite first_error_none, list.Forall_forall. rewrite list.Forall_forall in IH. split.
    + intros Hall k Hk. inversion 1 as [| |? v Hv Hocc]; subst. by apply (proj1 (IH v Hv) (Hall v Hv) k).
    + intros Hno v Hv. apply IH; [done|]. intros k Hk Hocc. apply (Hno k Hk). by econstructor.
  - change (forbidden_field (PDict d)) with (first_error (λ kv, match kv with
      | (PStr k, x) => if bool_decide (k ∈ forbidden_payload_fields) then Some k else forbidden_field x
      | (_, x) => forbidden_field x end) d).
    rewrite first_error_none, list.Forall_forall. rewrite list.Forall_forall in IH. split.
    + intros Hall k Hk Hocc. inversion Hocc as [? v Hv|? k' v Hv Hin|]; subst; specialize (Hall _ Hv); cbn in Hall.
      * by rewrite bool_decide_eq_true_2 in Hall.
      * assert (forbidden_field v = None) as Hnone
          by (destruct k'; try done; by destruct (bool_decide _)).
        by apply (proj1 (IH _ Hv) Hnone k).
    + intros Hno [k' v] Hv. pose proof (proj2 (IH _ Hv)) as Hnone. cbn in Hnone.
      assert (forbidden_field v = None) as E by (apply Hnone; intros k Hk ?; apply (Hno k Hk); by eapply occurs_value).
      destruct k'; try done. case_bool_decide as Hk; [|done]. destruct (Hno s Hk). by econstructor.
Qed.

Definition node_ok (n : GraphNodeRecord) : Prop :=
  ref_ok (node_id n) ∧ ref_ok (canonical_entity_id n) ∧ valid_node_label (label n) = true ∧
  keys_clean (node_properties n).

(** An edge that propagates impact lists its evidence. *)
Definition edge_ok (e : GraphEdgeRecord) : Prop :=
  Forall ref_ok [edge_id e; source_node_id e; target_node_id e] ∧
  valid_relationship_type (relationship_type e) = true ∧
  (is_propagatable_edge (relationship_type e) (edge_properties e) = true →
   ∃ refs, refs ≠ [] ∧ refs_ok refs ∧ pget "evidence_refs" (edge_properties e) = Some (PList (map PStr refs))).

Section planner.
Context `{Pydantic} (sha256 : string → Z) (parse_float : string → option spec_float).

Lemma parse_node_checked_ok id d n : parse_node_checked id d = Ok n → node_ok n.
Proof.
  unfold parse_node_checked, make_node_record. intros H'. rinv.
  repeat match goal with H : field text _ _ = Ok _ |- _ => apply field_ok in H as (? & _ & ?%text_ok) end.
  repeat match goal with H : field any_dict _ _ = Ok _ |- _ => apply field_ok in H as (? & _ & ?%any_dict_clean) end.
  to_prop. done.
Qed.

Lemma node_upsert_records_ok id c ns : node_upsert_records id c = Ok ns → Forall node_ok ns.
Proof.
  unfold node_upsert_records. intros (ps & _ & Hns%rmap_list_ok)%rbind_ok.
  induction Hns as [|p n ps ns Hpn _ IH]; constructor; [by eapply parse_node_checked_ok|done].
Qed.

Lemma propagatable_pset r k v props :
  (k = "evidence_refs") → is_propagatable_edge r (pset k v props) = is_propagatable_edge r props.
Proof.
  intros ->. unfold is_propagatable_edge. cbn [existsb]. rewrite !pget_pset_ne by done. done.
Qed.

Lemma require_evidence_refs_ok e e' :
  require_evidence_refs e = Ok e' →
  (edge_id e', source_node_id e', target_node_id e', relationship_type e') =
    (edge_id e, source_node_id e, target_node_id e, relationship_type e) ∧
  (edge_created_at e', edge_updated_at e', weight e') = (edge_created_at e, edge_updated_at e, weight e) ∧
  (is_propagatable_edge (relationship_type e') (edge_properties e') = true →
   ∃ refs, evidence_refs_from_mapping (edge_properties e) = Ok refs ∧ refs ≠ [] ∧ refs_ok refs ∧
     pget "evidence_refs" (edge_properties e') = Some (PList (map PStr refs))).
Proof.
  unfold require_evidence_refs. destruct (is_propagatable_edge _ _) eqn:Hp.
  - intros (refs & Hrefs%map_err_ok & He)%rbind_ok. pose proof (evidence_refs_from_mapping_ok _ _ Hrefs).
    destruct refs as [|r refs]; [done|]. injection He as <-. split_and!; [done|done|]. intros _. simpl.
    exists (r :: refs). rewrite pget_pset_eq. done.
  - intros [= <-]. split_and!; [done|done|]. by rewrite Hp.
Qed.

Lemma make_edge_record_ok id s t r props w c u e :
  make_edge_record id s t r props w c u = Ok e →
  text id = Some (edge_id e) ∧ text s = Some (source_node_id e) ∧ text t = Some (target_node_id e) ∧
  text r = Some (relationship_type e) ∧ edge_created_at e = c ∧ edge_updated_at e = u ∧
  ∃ p, any_dict props = Some p ∧
    (is_propagatable_edge (relationship_type e) (edge_properties e) = true →
     ∃ refs, evidence_refs_from_mapping p = Ok refs ∧ refs ≠ [] ∧ refs_ok refs ∧
       pget "evidence_refs" (edge_properties e) = Some (PList (map PStr refs))).
Proof.
  unfold make_edge_record. intros He. rinv.
  repeat match goal with H : opt_ok _ = Ok _ |- _ => apply opt_ok_ok in H end.
  apply require_evidence_refs_ok in He as (E1 & E2 & Hev). simpl in *.
  injection E1 as <- <- <- <-. injection E2 as -> -> _. split_and!; try done. eauto.
Qed.

Lemma parse_edge_record_ok d e : parse_edge_record sha256 parse_float d = Ok e → edge_ok e.
Proof.
  unfold parse_edge_record. intros Hd. rinv. to_prop.
  assert (∃ id s t r props w c u, make_edge_record id s t r props w c u = Ok e) as
    (id & s & t & r & props & w & c & u & Hm%make_edge_record_ok).
  { rename Ha2 into He. destruct a0 as [sec|].
    - unfold edge_from_mapping in He. rinv. do 8 eexists. exact He.
    - destruct a as [c|]; [|done]. unfold edge_from_contract in He. rinv. do 8 eexists. exact He. }
  destruct Hm as (H1%text_ok & H2%text_ok & H3%text_ok & _ & _ & _ & p & _ & Hp).
  split_and!; [rewrite !Forall_cons, Forall_nil; done|done|].
  intros Hpr. destruct (Hp Hpr) as (refs & _ & ? & ? & ?). eauto.
Qed.

Definition nodes_ok (nodes : pydict GraphNodeRecord) : Prop :=
  NoDup (dkeys nodes) ∧ Forall (λ kv, node_ok kv.2 ∧ kv.1 = node_id kv.2) nodes.
Definition parts_ok (p : plan_parts) : Prop :=
  nodes_ok (nodes_by_id p) ∧ Forall edge_ok (edges_so_far p).

Lemma add_node_ok nodes n : nodes_ok nodes → node_ok n → nodes_ok (add_node nodes n).
Proof.
  intros [Hn Hf] Hok. split; [by apply NoDup_dset|]. unfold add_node. clear Hn.
  induction Hf as [|[k n'] nodes Hk Hf IH]; simpl; [by rewrite Forall_singleton|].
  destruct (String.eqb_spec (node_id n) k) as [E|]; rewrite Forall_cons; done.
Qed.

Lemma parse_node_upsert_records_ok d ns : parse_node_upsert_records d = Ok ns → Forall node_ok ns.
Proof.
  intros ([c|] & _ & Hns)%rbind_ok; [by eapply node_upsert_records_ok|]. by injection Hns as <-.
Qed.

Lemma add_nodes_ok nodes ns : nodes_ok nodes → Forall node_ok ns → nodes_ok (fold_left add_node ns nodes).
Proof. intros Hn Hns. revert nodes Hn. induction Hns; simpl; auto using add_node_ok. Qed.

(** What one delta adds to the plan. *)
Lemma plan_delta_adds cycle p d p' :
  plan_delta sha256 parse_float cycle p d = Ok p' →
  delta_cycle_id d = cycle ∧ validation_status d = DsFrozen ∧ forbidden_field (PDict (payload d)) = None ∧
  match delta_type d with
  | NodeAdd => ∃ n, parse_node_record d = Ok n ∧
      p' = mkParts (add_node (nodes_by_id p) n) (edges_so_far p) (assertions_so_far p)
  | EdgeAdd | EdgeUpdate => ∃ ns e, parse_node_upsert_records d = Ok ns ∧
      parse_edge_record sha256 parse_float d = Ok e ∧
      p' = mkParts (fold_left add_node ns (nodes_by_id p)) (edges_so_far p ++ [e])%list (assertions_so_far p)
  | AssertionAdd => ∃ a, parse_assertion_record d = Ok a ∧
      p' = mkParts (nodes_by_id p) (edges_so_far p) (assertions_so_far p ++ [a])%list
  end.
Proof.
  unfold plan_delta, validate_delta_header, reject_forbidden_payload_fields.
  intros (u & Hh & (v & Hf & Hd)%rbind_ok)%rbind_ok.
  destruct (forbidden_field _) eqn:E; [done|]. rinv. to_prop. split_and!; [done..|].
  destruct (delta_type d); rinv; eauto 6.
Qed.

Lemma plan_delta_ok cycle p d p' :
  parts_ok p → plan_delta sha256 parse_float cycle p d = Ok p' → parts_ok p'.
Proof.
  intros [Hn He] (_ & _ & _ & Hd)%plan_delta_adds. destruct (delta_type d).
  - destruct Hd as (n & (s & _ & Hs)%rbind_ok & ->). split; [|done].
    apply add_node_ok; [done|by eapply parse_node_checked_ok].
  - destruct Hd as (ns & e & Hns%parse_node_upsert_records_ok & He'%parse_edge_record_ok & ->).
    split; [by apply add_nodes_ok|]. apply Forall_app. by rewrite Forall_singleton.
  - destruct Hd as (ns & e & Hns%parse_node_upsert_records_ok & He'%parse_edge_record_ok & ->).
    split; [by apply add_nodes_ok|]. apply Forall_app. by rewrite Forall_singleton.
  - by destruct Hd as (a & _ & ->).
Qed.

Definition is_edge_delta (d : FrozenGraphDelta) : bool :=
  match delta_type d with EdgeAdd | EdgeUpdate => true | _ => false end.

(** The edges of a plan, in the order of the deltas. *)
Lemma plan_deltas_edges cycle l p p' :
  rfold (plan_delta sha256 parse_float cycle) p l = Ok p' →
  Forall (λ d, delta_cycle_id d = cycle ∧ validation_status d = DsFrozen ∧
    forbidden_field (PDict (payload d)) = None) l ∧
  ∃ es, edges_so_far p' = (edges_so_far p ++ es)%list ∧
    Forall2 (λ d e, parse_edge_record sha256 parse_float d = Ok e) (List.filter is_edge_delta l) es.
Proof.
  revert p. induction l as [|d l IH]; intros p; simpl.
  { intros [= <-]. split; [constructor|]. exists []. by rewrite app_nil_r. }
  intros (q & Hd%plan_delta_adds & (Hl & es & Hes & HF)%IH)%rbind_ok.
  destruct Hd as (? & ? & ? & Hd). split; [by constructor|].
  unfold is_edge_delta at 1. destruct (delta_type d).
  - destruct Hd as (n & _ & ->). by exists es.
  - destruct Hd as (ns & e & _ & He & ->). exists (e :: es). simpl in Hes. rewrite <- app_assoc in Hes.
    split; [done|by constructor].
  - destruct Hd as (ns & e & _ & He & ->). exists (e :: es). simpl in Hes. rewrite <- app_assoc in Hes.
    split; [done|by constructor].
  - destruct Hd as (a & _ & ->). by exists es.
Qed.

(** C4: a plan is well formed whatever the deltas were: its nodes have
    distinct ids, supported labels and non-blank names; every edge has a
    supported type and non-blank ends, and one that propagates impact lists its
    evidence, sorted and without blanks; there is one edge per edge delta; every
    delta was frozen for this cycle, and none mentions a raw-text field at any
    depth of its payload. *)
Theorem plan_is_well_formed cycle_id selection deltas now plan :
  build_promotion_plan sha256 parse_float cycle_id selection deltas now = Ok plan →
  NoDup (map node_id (node_records plan)) ∧ Forall node_ok (node_records plan) ∧
  Forall edge_ok (edge_records plan) ∧
  length (edge_records plan) = length (List.filter is_edge_delta deltas) ∧
  StronglySorted String.leb (delta_ids plan) ∧ delta_ids plan ≡ₚ map delta_id deltas ∧
  ∀ d, d ∈ deltas → delta_cycle_id d = cycle_id ∧ validation_status d = DsFrozen ∧
    ∀ k, k ∈ forbidden_payload_fields → ¬ occurs k (PDict (payload d)).
Proof.
  unfold build_promotion_plan. intros (p & Hp & Hplan)%rbind_ok. rinv. simpl.
  assert (parts_ok (mkParts [] [] [])) as H0 by (repeat split; constructor).
  destruct (rfold_inv parts_ok _ _ _ _ H0 (λ b d b' _ Hb Hd, plan_delta_ok cycle_id b d b' Hb Hd) Hp)
    as [[Hn Hf] He].
  apply plan_deltas_edges in Hp as (Hl & es & Hes & HF). simpl in Hes. subst es.
  assert (map node_id (map snd (nodes_by_id p)) = dkeys (nodes_by_id p)) as Hkeys.
  { unfold dkeys. rewrite map_map. clear Hn. induction Hf as [|kv l [_ E] _ IH]; simpl; [done|]. by rewrite E, IH. }
  split_and!.
  - by rewrite Hkeys.
  - apply Forall_map. eapply Forall_impl; [exact Hf|]. by intros kv [? _].
  - done.
  - rewrite <- (Forall2_length _ _ _ HF). apply length_filter_perm, py_sort_perm.
  - pose proof (sort_on_sorted delta_id deltas) as Hs. clear -Hs. induction Hs as [|d l Hs IH Hd]; simpl; constructor; [done|].
    apply Forall_map. eapply Forall_impl; [exact Hd|]. done.
  - apply Permutation_map, py_sort_perm.
  - intros d Hd. rewrite list.Forall_forall in Hl. destruct (Hl d) as (? & ? & Hfb); [by apply elem_of_py_sort|].
    split_and!; [done..|]. by apply forbidden_field_none.
Qed.
End planner.

(** *** Contract deltas *)

Lemma pset_clean k v d : strip k = k → keys_clean d → keys_clean (pset k v d).
Proof.
  intros Hk [Hn Hf]. split.
  - rewrite pset_keys. destruct (phas k d) eqn:E; [done|]. apply NoDup_app. split_and!; [done| |apply NoDup_singleton].
    intros x Hx ->%list_elem_of_singleton. revert Hx. apply pget_none_key. unfold phas in E. by destruct (pget k d).
  - clear Hn. induction Hf as [|[k' v'] d Hkv Hd IH]; simpl; [rewrite Forall_singleton; eauto|].
    destruct (is_key k k'); rewrite Forall_cons; done.
Qed.

Lemma model_dump_clean c : keys_clean (model_dump c).
Proof.
  split.
  - cbv [model_dump map]. repeat (apply NoDup_cons_2; [apply (bool_decide_eq_true_1 _); vm_compute; reflexivity|]).
    apply NoDup_nil_2.
  - unfold model_dump. rewrite !Forall_cons, Forall_nil. split_and!; try done; eexists; (split; [reflexivity|vm_compute; reflexivity]).
Qed.

Lemma contract_from_dump c : contract_ok c → contract_delta_from_payload (model_dump c) = Ok (Some c).
Proof.
  intros Hc. unfold contract_delta_from_payload.
  change (first_mapping _ (model_dump c)) with (@None pdict).
  change (looks_like_contract_delta (model_dump c)) with true.
  cbn [rbind]. by rewrite (make_contract_delta_dump c Hc).
Qed.

(** Contract deltas survive freezing: the payload stored for a delta that
    was validated, whatever it was validated from, is kept by the validation of
    the frozen record and parses back to the delta. *)
Theorem contract_delta_roundtrip p c cycle_id entities d :
  make_contract_delta p = Ok c →
  make_delta (c_delta_id c) cycle_id EdgeAdd entities (model_dump c) DsFrozen = Ok d →
  delta_id d = c_delta_id c ∧ payload d = model_dump c ∧
  contract_delta_from_payload (payload d) = Ok (Some c).
Proof.
  intros Hc%make_contract_delta_ok Hd. pose proof Hc as [Ht _ _ _].
  rewrite !Forall_cons in Ht. destruct Ht as (_ & Hid & _).
  unfold make_delta in Hd. rewrite (any_dict_kept _ (model_dump_clean c)), (text_of_ok _ Hid) in Hd.
  cbn [opt_ok] in Hd. rinv. simpl.
  split_and!; [done|done|]. by apply contract_from_dump.
Qed.

Section service.
Context `{Pydantic} (sha256 : string → Z) (parse_float : string → option spec_float).

Lemma all_chars_app f s t : all_chars f (s ++ t) = all_chars f s && all_chars f t.
Proof. induction s as [|c s IH]; simpl; [done|]. by rewrite IH, andb_assoc. Qed.

Lemma strip_no_space s : all_chars (λ c, negb (py_space c)) s = true → strip s = s.
Proof.
  intros Hs. unfold strip. assert (rstrip s = s) as ->.
  - induction s as [|c s IH]; simpl; [done|]. simpl in Hs. apply andb_true_iff in Hs as [Hc%negb_true_iff Hs].
    rewrite IH by done. destruct s; [by rewrite Hc|done].
  - destruct s as [|c s]; [done|]. simpl in *. apply andb_true_iff in Hs as [Hc%negb_true_iff _]. by rewrite Hc.
Qed.

Lemma hex_char_no_space n : 0 ≤ n < 16 → py_space (hex_char n) = false.
Proof.
  intros Hn. assert (∃ k, (k < 16)%nat ∧ n = Z.of_nat k) as (k & Hk & ->) by (exists (Z.to_nat n); lia).
  do 16 (destruct k as [|k]; [reflexivity|]). lia.
Qed.

Lemma hex_digits_no_space n v acc :
  all_chars (λ c, negb (py_space c)) acc = true →
  all_chars (λ c, negb (py_space c)) (hex_digits n v acc) = true.
Proof.
  revert v acc. induction n as [|n IH]; intros v acc Hacc; simpl; [done|]. apply IH. simpl.
  rewrite hex_char_no_space by (apply Z.mod_pos_bound; lia). done.
Qed.

Lemma relationship_known c t :
  internal_relationship_type c = Ok t → ref_ok t ∧ valid_relationship_type t = true.
Proof.
  unfold internal_relationship_type. destruct (dget _ _) as [t'|] eqn:E; [|done]. intros [= ->].
  apply dget_Some_elem in E.
  assert (Forall (λ kv : string * string, ref_ok kv.2 ∧ valid_relationship_type kv.2 = true)
    contract_relation_type_to_internal) as Hall.
  { unfold contract_relation_type_to_internal, relationship_types. simpl.
    rewrite !Forall_cons, Forall_nil. split_and!; done. }
  rewrite list.Forall_forall in Hall. apply (Hall _ E).
Qed.

Lemma holdings_no_space t : t ∈ holdings_upsert_relationship_types →
  all_chars (λ c, negb (py_space c)) (lower t) = true.
Proof. intros Ht. unfold holdings_upsert_relationship_types in Ht. set_unfold. by destruct Ht as [->|[->|?]]. Qed.

Lemma is_empty_app s t : is_empty (s ++ t) = is_empty s && is_empty t.
Proof. by destruct s. Qed.

Lemma holdings_id_ok t m : t ∈ holdings_upsert_relationship_types →
  ref_ok (lower t ++ ":" ++ hexdigest_prefix sha256 24 m).
Proof.
  intros Ht. split.
  - apply strip_no_space. rewrite !all_chars_app, (holdings_no_space t Ht). unfold hexdigest_prefix.
    by rewrite (hex_digits_no_space 24 _ "" eq_refl).
  - rewrite is_empty_app. unfold holdings_upsert_relationship_types in Ht. set_unfold.
    by destruct Ht as [->|[->|?]].
Qed.

Lemma edge_id_for_ok c t : ref_ok (c_delta_id c) → ref_ok (edge_id_for sha256 c t).
Proof.
  intros Hc. unfold edge_id_for. case_bool_decide as Ht; [|done].
  destruct (nonblank_string (pget "edge_id" _)) as [s|] eqn:E; [|by apply holdings_id_ok].
  unfold nonblank_string in E. destruct (pget "edge_id" _) as [[]|]; try done.
  destruct (is_empty (strip s0)) eqn:Es; [done|]. injection E as <-. split; [apply strip_idemp|done].
Qed.

(** The properties of an edge list the evidence its delta brings. *)
Lemma make_edge_evidence id s t r props refs w c u e :
  keys_clean props → refs_ok refs →
  make_edge_record id s t r (PDict (pset "evidence_refs" (PList (map PStr refs)) props)) w c u = Ok e →
  ∃ refs', pget "evidence_refs" (edge_properties e) = Some (PList (map PStr refs')) ∧ refs ⊆ refs'.
Proof.
  intros Hp Hrefs He. unfold make_edge_record in He. rinv.
  apply opt_ok_ok in Ha3. rewrite any_dict_kept in Ha3 by (by apply pset_clean). injection Ha3 as <-.
  unfold require_evidence_refs in He. destruct (is_propagatable_edge _ _).
  - apply rbind_ok in He as (refs' & Hrefs'%map_err_ok & He). simpl in Hrefs'.
    assert (refs ⊆ refs') as Hsub.
    { unfold evidence_refs_from_mapping in Hrefs'. rewrite pget_pset_eq, (evidence_refs_stored refs Hrefs) in Hrefs'.
      rinv. intros x Hx. apply elem_of_sorted_union. by left. }
    destruct refs' as [|r0 refs']; [done|]. injection He as <-. simpl. rewrite pget_pset_eq. by exists (r0 :: refs').
  - injection He as <-. simpl. rewrite pget_pset_eq. eauto.
Qed.

Lemma delta_evidence_refs_contract d c refs :
  contract_ok c → delta_evidence_refs d (Some c) = Ok refs → refs_ok refs ∧ c_evidence c ⊆ refs.
Proof.
  intros [_ _ [_ Hev] _] Hd. unfold delta_evidence_refs in Hd. rinv.
  apply evidence_refs_from_value_ok in Ha as (_ & _ & Ha), Ha0 as (_ & _ & Ha0), Ha1 as (_ & _ & Ha1).
  assert (∀ r, r ∈ c_evidence c → r ∈ a2) as Hin.
  { unfold evidence_refs_from_value, evidence_refs_of in Ha2. rinv. intros r Hr.
    apply elem_of_sorted_set, elem_of_list_to_set. apply rmap_list_ok in Ha3.
    apply list_elem_of_lookup in Hr as [i Hi].
    destruct (Forall2_lookup_l _ _ _ i (PStr r) Ha3) as (r' & Hr' & E).
    { by rewrite list_lookup_fmap, Hi. }
    rewrite list.Forall_forall in Hev. unfold evidence_ref in E. rewrite text_of_ok in E
      by (apply Hev; by eapply list_elem_of_lookup_2). injection E as <-. by eapply list_elem_of_lookup_2. }
  apply evidence_refs_from_value_ok in Ha2 as (_ & _ & Ha2). split.
  - rewrite list.Forall_forall in Ha, Ha0, Ha1, Ha2. apply sorted_set_refs. intros r. rewrite !elem_of_union, !elem_of_list_to_set. naive_solver.
  - intros r Hr. apply elem_of_sorted_set. rewrite !elem_of_union, !elem_of_list_to_set. auto.
Qed.

(** The edge of a frozen contract delta. *)
Record edge_of (c : CandidateGraphDelta) (e : GraphEdgeRecord) : Prop := {
  of_ends : source_node_id e = c_source_node c ∧ target_node_id e = c_target_node c;
  of_type : ∃ t, internal_relationship_type c = Ok t ∧ relationship_type e = t ∧ edge_id e = edge_id_for sha256 c t;
  of_evidence : ∃ refs, pget "evidence_refs" (edge_properties e) = Some (PList (map PStr refs)) ∧
    c_evidence c ⊆ refs;
  of_times : edge_updated_at e = edge_created_at e ∧
    timestamp_base ≤ edge_created_at e < timestamp_base + timestamp_span_seconds;
}.

Lemma parse_contract_edge d c e :
  contract_ok c → payload d = model_dump c → parse_edge_record sha256 parse_float d = Ok e → edge_of c e.
Proof.
  intros Hc Hp He. pose proof Hc as [Ht Hprops _ _]. rewrite !Forall_cons in Ht.
  destruct Ht as (_ & Hid & _ & Hs & Htgt & _ & _).
  unfold parse_edge_record in He. rewrite Hp, (contract_from_dump c Hc) in He. cbn [rbind] in He.
  unfold optional_payload_section in He. rewrite Hp in He. change (pget "edge" (model_dump c)) with (@None pyval) in He.
  apply rbind_ok in He as (sec & [= <-] & He).
  apply rbind_ok in He as (refs & Hrefs & He). apply rbind_ok in He as (e' & He' & He). rinv.
  apply (delta_evidence_refs_contract d c) in Hrefs as [Hrefs Hsub]; [|done].
  unfold edge_from_contract in He'. apply rbind_ok in He' as (ex & Hex & He').
  apply rbind_ok in He' as (t & Hrel & He'). apply rbind_ok in He' as (w & _ & He').
  apply evidence_refs_from_mapping_ok in Hex as (_ & _ & Hex). destruct Hrefs as (_ & _ & Hrefs).
  destruct (make_edge_evidence _ _ _ _ _ (sorted_union ex refs) _ _ _ _ Hprops (sorted_union_refs _ _ Hex Hrefs) He')
    as (refs' & Hget & Hsub').
  apply make_edge_record_ok in He' as (H1 & H2 & H3 & H4 & H5 & H6 & _).
  destruct (relationship_known c t Hrel) as [Hrt _].
  rewrite (text_of_ok _ (edge_id_for_ok c t Hid)) in H1. rewrite (text_of_ok _ Hs) in H2.
  rewrite (text_of_ok _ Htgt) in H3. rewrite (text_of_ok _ Hrt) in H4. split.
  - split; congruence.
  - exists t. split; [done|]. split; congruence.
  - exists refs'. split; [done|]. intros r Hr. apply Hsub', elem_of_sorted_union. auto.
  - rewrite H5, H6. split; [done|]. unfold stable_contract_edge_timestamp.
    pose proof (Z.mod_pos_bound (sha256 (join "|" [delta_cycle_id d; delta_id d; c_delta_id c; c_source_node c;
      c_target_node c; c_relation_type c]) / 2 ^ 192) timestamp_span_seconds ltac:(done)). lia.
Qed.

(** *** Resolved endpoints *)

Context (canonical_entity_ids_for_node_ids : gset string → gmap string string)
  (existing_entity_ids : gset string → gset string).
Abbreviation resolve := (resolve_entity_ids canonical_entity_ids_for_node_ids).

Lemma supported_endpoints_ok cs acc ids :
  rfold (λ ids c, let* _ := internal_delta_type c in Ok (ids ∪ endpoints c)) acc cs = Ok ids →
  acc ⊆ ids ∧ ∀ c, c ∈ cs → endpoints c ⊆ ids.
Proof.
  revert acc. induction cs as [|c cs IH]; intros acc; simpl.
  { intros [= <-]. split; [done|]. intros c Hc. by apply elem_of_nil in Hc. }
  intros (acc' & (t & _ & [= <-])%rbind_ok & [Hacc Hcs]%IH)%rbind_ok. split; [set_solver|].
  intros c' [->|Hc']%elem_of_cons; [set_solver|auto].
Qed.

Lemma resolve_endpoints cs resolved c n :
  resolve cs = Ok resolved → c ∈ cs → n ∈ endpoints c →
  ∃ a, resolved !! n = Some a ∧ is_empty a = false.
Proof.
  unfold resolve_entity_ids. intros (ids & Hids & (ups & _ & H')%rbind_ok)%rbind_ok Hc Hn. rinv.
  apply supported_endpoints_ok in Hids as [_ Hids]. specialize (Hids c Hc n Hn). to_prop.
  match goal with H : ¬ missing_entity_ids _ ?m ≠ [] |- _ => apply dec_stable in H; rename H into Hm; set (r := m) in * end.
  assert (entity_missing r n = false) as Hf.
  { destruct (entity_missing r n) eqn:E; [|done]. exfalso.
    assert (n ∈ missing_entity_ids ids r) as Hin.
    { unfold missing_entity_ids. apply list_elem_of_In, filter_In. split; [|done].
      by apply list_elem_of_In, elem_of_sorted_set. }
    rewrite Hm in Hin. by apply elem_of_nil in Hin. }
  unfold entity_missing in Hf. destruct (r !! n) as [a|]; [eauto|done].
Qed.

Lemma freeze_contract_delta_ok cycle resolved c d :
  contract_ok c → freeze_contract_delta cycle resolved c = Ok d →
  delta_id d = c_delta_id c ∧ payload d = model_dump c ∧ is_edge_delta d = true ∧
  ∃ a b, resolved !! c_source_node c = Some a ∧ resolved !! c_target_node c = Some b ∧
    source_entity_ids d = [strip a; strip b].
Proof using Type.
  intros Hc Hd. pose proof Hc as [Ht _ _ _]. rewrite !Forall_cons in Ht. destruct Ht as (_ & Hid & _).
  unfold freeze_contract_delta in Hd. apply rbind_ok in Hd as (t & Ht & Hd).
  assert (t = EdgeAdd) as ->.
  { unfold internal_delta_type in Ht. destruct (dget _ _) as [t'|] eqn:E; [|done]. injection Ht as ->.
    apply dget_Some_elem in E. unfold contract_delta_type_to_internal in E.
    repeat (apply elem_of_cons in E as [[= _ ->]|E]; [done|]). by apply elem_of_nil in E. }
  destruct (resolved !! c_source_node c) as [a|] eqn:Ea, (resolved !! c_target_node c) as [b|] eqn:Eb; try done.
  unfold make_delta in Hd. rewrite (any_dict_kept _ (model_dump_clean c)), (text_of_ok _ Hid) in Hd.
  cbn [opt_ok] in Hd. rinv. simpl. split_and!; [done..|]. by exists a, b.
Qed.

Lemma anchors_known registry ds :
  (∀ ids, existing_entity_ids ids ⊆ registry) → validate_entity_anchors existing_entity_ids ds = Ok () →
  ∀ d z, d ∈ ds → z ∈ source_entity_ids d → z ∈ registry.
Proof.
  intros Hreg (u & Hmissing & _)%rbind_ok d z Hd Hz.
  apply guard_err_ok, bool_decide_eq_false, dec_stable in Hmissing. rewrite sorted_set_nil in Hmissing.
  apply (Hreg (list_to_set (concat (map source_entity_ids ds)))).
  assert (z ∈ (list_to_set (concat (map source_entity_ids ds)) : gset string)); [|set_solver].
  apply elem_of_list_to_set, list_elem_of_In, in_concat. exists (source_entity_ids d).
  split; [|by apply list_elem_of_In]. apply in_map. by apply list_elem_of_In.
Qed.

(** C15: promotion adds exactly the relationships its deltas propose, between
    known entities: when a plan is made, every contract delta has its edge,
    with its ends, its type, an id that depends on the delta only, its
    evidence and a time in the decade from 2000; both ends resolve to non-blank
    entity ids that the registry knows; and there are no other edges. *)
Theorem promoted_edges_are_anchored (registry : gset string) cycle_id selection cs allowed now plan :
  (∀ ids, existing_entity_ids ids ⊆ registry) → Forall contract_ok cs →
  promotion_plan sha256 parse_float canonical_entity_ids_for_node_ids existing_entity_ids
    cycle_id selection cs allowed now = Ok plan →
  length (edge_records plan) = length cs ∧
  ∃ resolved, resolve cs = Ok resolved ∧
  ∀ c, c ∈ cs → (∃ e, e ∈ edge_records plan ∧ edge_of c e) ∧
    ∀ n, n ∈ endpoints c → ∃ a, resolved !! n = Some a ∧ is_empty a = false ∧ strip a ∈ registry.
Proof.
  intros Hreg Hcs. rewrite list.Forall_forall in Hcs. unfold promotion_plan, freeze_contract_deltas.
  intros (ds & (resolved & Hres & Hds)%rbind_ok & Hplan)%rbind_ok.
  apply rbind_ok in Hplan as (u & Hanchor & (plan' & Hplan & Hall)%rbind_ok). rinv. clear Ha.
  assert (∀ c, c ∈ cs → ∃ d, d ∈ ds ∧ freeze_contract_delta cycle_id resolved c = Ok d) as Hfreeze
    by (intros c Hc; by apply (rmap_list_elem _ _ _ _ Hds)).
  assert (Forall (λ d, is_edge_delta d = true) ds) as Hedges.
  { apply rmap_list_ok in Hds. clear -Hds Hcs. induction Hds as [|c d cs ds Hd _ IH]; constructor.
    - apply (freeze_contract_delta_ok _ _ c) in Hd as (_ & _ & ? & _); [done|]. apply Hcs. left.
    - apply IH. intros c' Hc'. apply Hcs. by right. }
  assert (∀ l, Forall (λ d, is_edge_delta d = true) l → List.filter is_edge_delta l = l) as Hfilter.
  { intros l Hl. induction Hl as [|d l Hd _ IH]; simpl; [done|]. by rewrite Hd, IH. }
  unfold build_promotion_plan in Hplan. apply rbind_ok in Hplan as (p & Hp & Hplan). rinv. simpl.
  apply plan_deltas_edges in Hp as (_ & es & Hes & HF). simpl in Hes. subst es.
  rewrite Hfilter in HF by (eapply Permutation_Forall; [symmetry; apply py_sort_perm|done]).
  split. { rewrite <- (Forall2_length _ _ _ HF). unfold sort_on. rewrite py_sort_length. by eapply rmap_list_length. }
  exists resolved. split; [done|]. intros c Hc. destruct (Hfreeze c Hc) as (d & Hd & Hcd).
  destruct (freeze_contract_delta_ok _ _ _ _ (Hcs c Hc) Hcd) as (_ & Hpay & _ & x & y & Hx & Hy & Hids). split.
  - assert (d ∈ sort_on delta_id ds) as [i Hi]%list_elem_of_lookup by (by apply elem_of_py_sort).
    destruct (Forall2_lookup_l _ _ _ _ _ HF Hi) as (e & He & Hparse). exists e.
    split; [by eapply list_elem_of_lookup_2|]. apply (parse_contract_edge d c); [by apply Hcs|done|done].
  - pose proof (λ z, anchors_known registry ds Hreg Hanchor d z Hd) as Hin. rewrite Hids in Hin.
    intros n Hn. destruct (resolve_endpoints _ _ _ _ Hres Hc Hn) as (z & Hz & Hne).
    exists z. split_and!; [done|done|]. apply Hin. unfold endpoints in Hn. set_unfold. destruct Hn as [->| ->].
    + left. congruence.
    + right. left. congruence.
Qed.
End service.

(** *** Identity of holdings edges *)

(** A holdings edge is identified by its type and ends: for two deltas that
    name no edge of their own and whose source nodes contain no vertical bar,
    and as long as the digests of the two descriptions do not collide, the edge
    ids are equal exactly when the type and both ends are, whatever the delta
    ids: a later delta updates the edge of an earlier one and no other. *)
Theorem holdings_edge_identity sha256 c c' t t' :
  t ∈ holdings_upsert_relationship_types → t' ∈ holdings_upsert_relationship_types →
  Forall (λ d, nonblank_string (pget "edge_id" (c_properties d)) = None ∧
    nonblank_string (pget "edge_key" (c_properties d)) = None ∧ pipe_free (c_source_node d) = true) [c; c'] →
  (hexdigest_prefix sha256 24 (holdings_edge_material c t) = hexdigest_prefix sha256 24 (holdings_edge_material c' t') →
   holdings_edge_material c t = holdings_edge_material c' t') →
  edge_id_for sha256 c t = edge_id_for sha256 c' t' ↔
  t = t' ∧ c_source_node c = c_source_node c' ∧ c_target_node c = c_target_node c'.
Proof.
  rewrite !Forall_cons. intros Ht Ht' ((Hi & Hk & Hp) & (Hi' & Hk' & Hp') & _) Hcol.
  unfold edge_id_for. rewrite !bool_decide_eq_true_2, Hi, Hi' by done. split.
  - intros E. assert (t = t') as <-.
    { unfold holdings_upsert_relationship_types in *. set_unfold.
      destruct Ht as [->|[->|?]], Ht' as [->|[->|?]]; done. }
    assert (hexdigest_prefix sha256 24 (holdings_edge_material c t) =
      hexdigest_prefix sha256 24 (holdings_edge_material c' t)) as E'.
    { apply (inj (String.append (lower t))), (inj (String.append ":")) in E. exact E. }
    apply Hcol in E'. unfold holdings_edge_material in E'. rewrite Hk, Hk' in E'.
    assert (pipe_free t = true) as Hpt.
    { unfold holdings_upsert_relationship_types in Ht. set_unfold. by destruct Ht as [->|[->|?]]. }
    apply join_first_inj in E' as [_ E']; [|done..]. by apply join_first_inj in E' as [-> ->].
  - intros (<- & Hs & Htg). unfold holdings_edge_material. by rewrite Hk, Hk', Hs, Htg.
Qed.

(** Without that condition two different holdings share an edge. *)
Example piped_nodes_collide :
  let holding s t := mkContract "sub" "d" "add" s t "co_holding" [] ["e"] None in
  holdings_edge_material (holding "a|b" "c") "CO_HOLDING" = holdings_edge_material (holding "a" "b|c") "CO_HOLDING".
Proof. reflexivity. Qed.
End PlannerTheorems.

(** ** Examples *)
Module PromotionExamples.
Import Evidence PromotionModel Planner PlannerTheorems.

(** Numbers and timestamps that are already of the declared type. *)
Definition number (v : pyval) : option spec_float :=
  match v with PInt z => Some (float_of_Z z) | PFloat f => if finite_float f then Some f else None | _ => None end.
Definition bounded (hi : option spec_float) (f : spec_float) : option spec_float :=
  if SFleb (S754_zero false) f && match hi with Some h => SFleb f h | None => true end then Some f else None.
#[local] Instance strict_pydantic : Pydantic.
Proof.
  refine {| as_datetime v := match v with PInt z => Some z | _ => None end;
            as_weight v := number v ≫= bounded None;
            as_confidence v := number v ≫= bounded (Some (float_of_Z 1)) |}.
  intros f Hf Hle. simpl. rewrite Hf. simpl. unfold bounded. by rewrite Hle.
Defined.

(** A digest that tells the examples' texts apart. *)
Fixpoint polynomial (s : string) : Z :=
  match s with EmptyString => 7 | String c rest => polynomial rest * 257 + Z.of_nat (nat_of_ascii c) end.
Definition toy_digest (s : string) : Z := (polynomial s * (2 ^ 256 / 3)) mod 2 ^ 256.
Definition no_float (s : string) : option spec_float := None.

Definition supply : pdict :=
  [(PStr "subsystem_id", PStr "news"); (PStr "delta_id", PStr "D2"); (PStr "delta_type", PStr "Add-Edge");
   (PStr "source_node", PStr " N1 "); (PStr "target_node", PStr "N2"); (PStr "relation_type", PStr "supplier_of");
   (PStr "properties", PDict [(PStr "weight", PInt 2)]); (PStr "evidence", PList [PStr "E9"; PStr "E1"])].
Definition supply_contract : CandidateGraphDelta :=
  mkContract "news" "D2" "Add-Edge" "N1" "N2" "supplier_of" [(PStr "weight", PInt 2)] ["E9"; "E1"] None.
Definition upsert (id entity : string) : pyval :=
  PDict [(PStr "node_id", PStr id); (PStr "canonical_entity_id", PStr entity); (PStr "label", PStr "Entity");
    (PStr "properties", PDict []); (PStr "created_at", PInt 5); (PStr "updated_at", PInt 5)].
Definition holding : CandidateGraphDelta :=
  mkContract "holdings" "D1" "edge_upsert" "F1" "N2" "co_holding" [] ["E3"]
    (Some [(PStr "graph_node_upserts", PDict [(PStr "source", upsert "F1" "ENT_F")])]).
Definition known_nodes (ids : gset string) : gmap string string :=
  filter (λ kv, kv.1 ∈ ids) {["N1" := "ENT_1"; "N2" := "ENT_2"]}.
Definition registry : gset string := {["ENT_1"; "ENT_2"; "ENT_F"]}.
Definition known_entities (ids : gset string) : gset string := ids ∩ registry.
Definition contracts : list CandidateGraphDelta := [supply_contract; holding].
Definition promote (cs : list CandidateGraphDelta) (allowed : option (gset string)) :
    result promotion_error PromotionPlan :=
  promotion_plan toy_digest no_float known_nodes known_entities "CYCLE_1" "SEL_1" cs allowed 99.

(** The whole pipeline on two deltas. *)
Example supply_is_validated : make_contract_delta supply = Ok supply_contract.
Proof. vm_compute. reflexivity. Qed.
Example pipeline :
  match promote contracts None with
  | Ok p => (delta_ids p, map (λ n, (node_id n, canonical_entity_id n)) (node_records p),
      map (λ e, (source_node_id e, target_node_id e, relationship_type e, pget "evidence_refs" (edge_properties e)))
        (edge_records p))
  | Err _ => ([], [], [])
  end =
  (["D1"; "D2"], [("F1", "ENT_F")],
   [("F1", "N2", "CO_HOLDING", Some (PList [PStr "E3"]));
    ("N1", "N2", "SUPPLY_CHAIN", Some (PList [PStr "E1"; PStr "E9"]))]).
Proof. vm_compute. reflexivity. Qed.
Example disallowed_type :
  promote contracts (Some {["SUPPLY_CHAIN"]}) = Err (Disallowed ["CO_HOLDING"]).
Proof. vm_compute. reflexivity. Qed.
Example unknown_endpoint :
  promote [mkContract "s" "D1" "add" "N1" "N7" "ownership" [] ["e"] None] None = Err (MissingEntityIds ["N7"]).
Proof. vm_compute. reflexivity. Qed.

Definition add_node_delta : FrozenGraphDelta :=
  mkDelta "D3" "CYCLE_1" NodeAdd ["ENT_1"] [(PStr "node", upsert "N9" "ENT_1")] DsFrozen.
Definition supply_delta : FrozenGraphDelta :=
  mkDelta "D2" "CYCLE_1" EdgeAdd ["ENT_1"; "ENT_2"] (model_dump supply_contract) DsFrozen.
Definition build (ds : list FrozenGraphDelta) : result promotion_error PromotionPlan :=
  build_promotion_plan toy_digest no_float "CYCLE_1" "SEL_1" ds 99.
Example raw_text_refused :
  build [mkDelta "D3" "CYCLE_1" NodeAdd ["ENT_1"]
    [(PStr "node", upsert "N9" "ENT_1"); (PStr "x", PList [PDict [(PStr "raw_text", PNone)]])] DsFrozen]
  = Err (ForbiddenField "raw_text").
Proof. vm_compute. reflexivity. Qed.
Example unfrozen_refused :
  build [mkDelta "D3" "CYCLE_1" NodeAdd ["ENT_1"] [(PStr "node", upsert "N9" "ENT_1")] DsValidated]
  = Err (NotFrozen "D3").
Proof. vm_compute. reflexivity. Qed.

Lemma plan_order_independent_witness :
  NoDup (map delta_id [add_node_delta; supply_delta]) ∧
  build [add_node_delta; supply_delta] = build [supply_delta; add_node_delta].
Proof.
  assert (NoDup (map delta_id [add_node_delta; supply_delta])) as Hn
    by (apply NoDup_cons; split; [intros [=]%list_elem_of_singleton|apply NoDup_singleton]).
  split; [exact Hn|]. apply (plan_order_independent toy_digest no_float); [exact Hn|]. apply Permutation_swap.
Defined.

Lemma plan_is_well_formed_witness :
  ∃ plan, build [add_node_delta; supply_delta] = Ok plan ∧ length (edge_records plan) = 1%nat ∧
    delta_ids plan ≡ₚ ["D3"; "D2"] ∧ Forall edge_ok (edge_records plan).
Proof.
  assert (match build [add_node_delta; supply_delta] with Ok _ => True | Err _ => False end) as Hok
    by (vm_compute; exact I).
  destruct (build [add_node_delta; supply_delta]) as [plan|e] eqn:E; [|destruct Hok].
  exists plan. split; [reflexivity|].
  destruct (plan_is_well_formed toy_digest no_float _ _ _ _ _ E) as (_ & _ & He & Hl & _ & Hids & _).
  split; [exact Hl|]. split; [exact Hids|exact He].
Defined.

Lemma contract_delta_roundtrip_witness :
  ∃ d, make_delta "D2" "CYCLE_1" EdgeAdd ["ENT_1"] (model_dump supply_contract) DsFrozen = Ok d ∧
    contract_delta_from_payload (payload d) = Ok (Some supply_contract).
Proof.
  eexists. split; [vm_compute; reflexivity|].
  eapply (contract_delta_roundtrip supply supply_contract "CYCLE_1" ["ENT_1"]); vm_compute; reflexivity.
Defined.

Lemma contracts_ok : Forall contract_ok contracts.
Proof.
  apply Forall_cons. split; [|apply Forall_cons; split; [|apply Forall_nil; exact I]].
  - apply (make_contract_delta_ok supply). vm_compute. reflexivity.
  - apply (make_contract_delta_ok (model_dump holding)). vm_compute. reflexivity.
Qed.

Lemma promoted_edges_are_anchored_witness :
  ∃ plan, promote contracts None = Ok plan ∧ length (edge_records plan) = 2%nat ∧
    ∃ e, e ∈ edge_records plan ∧ edge_of toy_digest supply_contract e.
Proof.
  assert (match promote contracts None with Ok _ => True | Err _ => False end) as Hok by (vm_compute; exact I).
  destruct (promote contracts None) as [plan|e] eqn:E; [|destruct Hok].
  exists plan. split; [reflexivity|].
  destruct (promoted_edges_are_anchored toy_digest no_float known_nodes known_entities registry
    "CYCLE_1" "SEL_1" contracts None 99 plan) as (Hl & resolved & _ & Hc).
  - intros ids. apply intersection_subseteq_r.
  - exact contracts_ok.
  - exact E.
  - split; [exact Hl|]. apply Hc. left.
Defined.

Lemma holdings_edge_identity_witness :
  let later := mkContract "holdings" "D7" "add" "F1" "N2" "co_holding" [] ["E4"] None in
  let other := mkContract "holdings" "D8" "add" "F1" "N3" "co_holding" [] ["E4"] None in
  edge_id_for toy_digest holding "CO_HOLDING" = edge_id_for toy_digest later "CO_HOLDING" ∧
  edge_id_for toy_digest holding "CO_HOLDING" ≠ edge_id_for toy_digest other "CO_HOLDING".
Proof.
  intros later other.
  assert ("CO_HOLDING" ∈ holdings_upsert_relationship_types) as Hin by left. split.
  - apply (holdings_edge_identity toy_digest holding later); [exact Hin|exact Hin| | |].
    + rewrite !Forall_cons, Forall_nil. split_and!; vm_compute; reflexivity || exact I.
    + intros _. reflexivity.
    + split_and!; reflexivity.
  - intros E. apply (holdings_edge_identity toy_digest holding other) in E; [|exact Hin|exact Hin| |].
    + destruct E as (_ & _ & [=]).
    + rewrite !Forall_cons, Forall_nil. split_and!; vm_compute; reflexivity || exact I.
    + vm_compute. intros [=].
Defined.
End PromotionExamples.
