(* ===== verification/LiveSync.v ===== *)
(** * LiveSync: mirroring a plan into the live graph

    [graph_engine/sync/live_graph.py]. [LiveGraph] is the property graph and
    the effect of the Cypher clauses the module generates, [Sync] the rows and
    batches it makes of a plan and the transaction it sends.

    A node is known by its label and [node_id], as the uniqueness constraints
    of [schema/indexes.py] have it, and a relationship by what its MERGE
    matches on; the graph holds what these statements made. A clause works on
    the whole of its batch before the next clause of the same query starts. *)
From Stdlib Require Import String Ascii ZArith List SpecFloat.
From stdpp Require Import base gmap strings list.
From S2P Require Import Prelude PyLib Promotion.
Import PromotionModel.
Local Open Scope string_scope.
Local Open Scope Z_scope.

Module LiveGraph.

(** A property value: a JSON value or a point in time. *)
Inductive prop := PvVal (v : pyval) | PvTime (t : Z).
Abbreviation props := (gmap string prop).

Abbreviation node_key := (string * string)%type.
(** [-[:type {edge_id}]->] and [-[:ASSERTION_LINK {assertion_id, role}]->] *)
Inductive rel_key :=
| EdgeKey (type : string) (source target : node_key) (edge_id : string)
| LinkKey (source target : node_key) (assertion_id role : string).
#[export] Instance rel_key_dec : EqDecision rel_key.
Proof. solve_decision. Defined.
#[export] Instance rel_key_countable : Countable rel_key.
Proof.
  refine (inj_countable' (λ k, match k with
    | EdgeKey t a b i => inl (t, a, b, i) | LinkKey a b i r => inr (a, b, i, r) end)
    (λ x, match x with inl (t, a, b, i) => EdgeKey t a b i | inr (a, b, i, r) => LinkKey a b i r end) _).
  by intros [].
Defined.

Record graph := mkGraph { nodes : gmap node_key props; rels : gmap rel_key props }.
Definition empty_graph : graph := mkGraph ∅ ∅.

(** [MATCH (n {node_id: id})] *)
Definition matching (g : graph) (id : string) : list node_key :=
  filter (λ k, k.2 = id) (elements (dom (nodes g))).

Record node_row := mkNodeRow { nr_id : string; nr_props : props }.
Record edge_row := mkEdgeRow {
  er_id : string; er_source : string; er_target : string; er_type : string; er_props : props }.
Record assertion_row := mkAssertionRow {
  ar_id : string; ar_source : string; ar_target : option string; ar_type : string;
  ar_evidence_json : string; ar_confidence : spec_float; ar_created : Z }.

Definition text_prop (s : string) : prop := PvVal (PStr s).

(** [MERGE (n:label {node_id}) SET n = properties] *)
Definition merge_node (label : string) (g : graph) (r : node_row) : graph :=
  mkGraph (<[(label, nr_id r) := nr_props r]> (nodes g)) (rels g).

(** The stale relationships of a row: its edge id between other nodes or with
    another type. *)
Definition stale (r : edge_row) (k : rel_key) (p : props) : bool :=
  match k with
  | EdgeKey _ s t id =>
      String.eqb id (er_id r) &&
      (negb (String.eqb s.2 (er_source r)) || negb (String.eqb t.2 (er_target r)) ||
       match p !! "relationship_type" with
       | Some (PvVal (PStr x)) => negb (String.eqb x (er_type r))
       | _ => false
       end)
  | LinkKey _ _ _ _ => false
  end.
Definition delete_stale (g : graph) (r : edge_row) : graph :=
  mkGraph (nodes g) (filter (λ kv, stale r kv.1 kv.2 = false) (rels g)).

(** [MATCH (source {node_id}) MATCH (target {node_id})
    MERGE (source)-[r:type {edge_id}]->(target) SET r = properties] *)
Definition edge_keys (type : string) (g : graph) (r : edge_row) : list rel_key :=
  s ← matching g (er_source r); t ← matching g (er_target r); [EdgeKey type s t (er_id r)].
Definition set_rels (ks : list rel_key) (p : props) (m : gmap rel_key props) : gmap rel_key props :=
  fold_left (λ m k, <[k := p]> m) ks m.
Definition merge_edge (type : string) (g : graph) (r : edge_row) : graph :=
  mkGraph (nodes g) (set_rels (edge_keys type g r) (er_props r) (rels g)).

(** [SET assertion.x = ...]; setting a property to null removes it. *)
Definition assertion_key (r : assertion_row) : node_key := ("Assertion", ar_id r).
Definition set_assertion (r : assertion_row) (p : props) : props :=
  <["assertion_id" := text_prop (ar_id r)]> (<["assertion_type" := text_prop (ar_type r)]>
  (<["confidence" := PvVal (PFloat (ar_confidence r))]> (<["evidence_json" := text_prop (ar_evidence_json r)]>
  (<["source_node_id" := text_prop (ar_source r)]>
  (partial_alter (λ _, text_prop <$> ar_target r) "target_node_id"
  (<["created_at" := PvTime (ar_created r)]> p)))))).
Definition link_props (r : assertion_row) (role : string) : props :=
  <["assertion_id" := text_prop (ar_id r)]> (<["role" := text_prop role]>
  {["created_at" := PvTime (ar_created r)]}).

Definition merge_assertion (g : graph) (r : assertion_row) : graph :=
  match matching g (ar_source r) with
  | [] => g
  | sources =>
      mkGraph
        (<[assertion_key r :=
             set_assertion r (default {["node_id" := text_prop (ar_id r)]} (nodes g !! assertion_key r))]> (nodes g))
        (set_rels (map (λ s, LinkKey s (assertion_key r) (ar_id r) "source") sources)
           (link_props r "source") (rels g))
  end.
Definition merge_assertion_target (g : graph) (r : assertion_row) : graph :=
  match ar_target r, nodes g !! assertion_key r with
  | Some target, Some _ =>
      mkGraph (nodes g)
        (set_rels (map (λ t, LinkKey (assertion_key r) t (ar_id r) "target") (matching g target))
           (link_props r "target") (rels g))
  | _, _ => g
  end.

(** One subquery of the transaction. *)
Inductive clause :=
| NodeSync (label : string) (rows : list node_row)
| EdgeSync (type : string) (rows : list edge_row)
| AssertionSourceSync (rows : list assertion_row)
| AssertionTargetSync (rows : list assertion_row).

Definition run_clause (g : graph) (c : clause) : graph :=
  match c with
  | NodeSync label rows => fold_left (merge_node label) rows g
  | EdgeSync type rows => fold_left (merge_edge type) rows (fold_left delete_stale rows g)
  | AssertionSourceSync rows => fold_left merge_assertion rows g
  | AssertionTargetSync rows => fold_left merge_assertion_target rows g
  end.

(** [_sync_transaction_query]: nothing is changed when an endpoint is missing. *)
Definition missing_endpoints (g : graph) (required : list string) : list string :=
  filter (λ id, matching g id = []) required.
Definition run_transaction (g : graph) (required : list string) (clauses : list clause)
    : list string * bool * graph :=
  match missing_endpoints g required with
  | [] => ([], true, fold_left run_clause clauses g)
  | missing => (missing, false, g)
  end.
End LiveGraph.

Inductive sync_error :=
| BadBatchSize
| UnsupportedNodeLabel (label : string)
| UnsupportedRelationshipType (type : string)
| MissingEndpoints (node_ids : list string)
| NotApplied.

Module Sync.
Import LiveGraph.

Definition reserved_property_names : list string :=
  ["assertion_id"; "assertion_type"; "canonical_entity_id"; "confidence"; "created_at"; "edge_id";
   "evidence"; "evidence_json"; "label"; "node_id"; "properties"; "properties_json"; "relationship_type";
   "source_node_id"; "target_node_id"; "updated_at"; "weight"].

Definition is_alpha_ (c : ascii) : bool := is_upper_az c || is_lower_az c || Ascii.eqb c "_".
Definition is_safe_property_name (s : string) : bool :=
  negb (bool_decide (s ∈ reserved_property_names)) &&
  match s with
  | EmptyString => false
  | String c rest => is_alpha_ c && all_chars (λ x, is_alpha_ x || is_digit x) rest
  end.

Inductive scalar_type := ScStr | ScBool | ScInt | ScFloat.
#[export] Instance scalar_type_dec : EqDecision scalar_type.
Proof. solve_decision. Defined.
Definition neo4j_scalar_property_type (v : pyval) : option scalar_type :=
  match v with
  | PStr _ => Some ScStr | PBool _ => Some ScBool | PInt _ => Some ScInt | PFloat _ => Some ScFloat
  | _ => None
  end.
Definition is_neo4j_property_value (v : pyval) : bool :=
  match v with
  | PList [] => true
  | PList (x :: rest) =>
      match neo4j_scalar_property_type x with
      | None => false
      | Some t => forallb (λ y, bool_decide (neo4j_scalar_property_type y = Some t)) (x :: rest)
      end
  | _ => match neo4j_scalar_property_type v with Some _ => true | None => false end
  end.

Definition add_safe_property (m : props) (kv : pyval * pyval) : props :=
  match kv with
  | (PStr k, v) => if is_safe_property_name k && is_neo4j_property_value v then <[k := PvVal v]> m else m
  | _ => m
  end.
Definition safe_properties (d : pdict) : props := fold_left add_safe_property d ∅.

Section sync.
(** [_structured_payload_json] *)
Context (payload_json : pdict → string).

Definition node_row_of (n : GraphNodeRecord) : node_row :=
  mkNodeRow (node_id n)
    (safe_properties (node_properties n) ∪
     list_to_map [("node_id", text_prop (node_id n)); ("canonical_entity_id", text_prop (canonical_entity_id n));
       ("label", text_prop (label n)); ("properties_json", text_prop (payload_json (node_properties n)));
       ("created_at", PvTime (node_created_at n)); ("updated_at", PvTime (node_updated_at n))]).
Definition edge_row_of (e : GraphEdgeRecord) : edge_row :=
  mkEdgeRow (edge_id e) (source_node_id e) (target_node_id e) (relationship_type e)
    (safe_properties (edge_properties e) ∪
     list_to_map [("edge_id", text_prop (edge_id e)); ("source_node_id", text_prop (source_node_id e));
       ("target_node_id", text_prop (target_node_id e));
       ("relationship_type", text_prop (relationship_type e)); ("weight", PvVal (PFloat (weight e)));
       ("properties_json", text_prop (payload_json (edge_properties e)));
       ("created_at", PvTime (edge_created_at e)); ("updated_at", PvTime (edge_updated_at e))]).
Definition assertion_row_of (a : GraphAssertionRecord) : assertion_row :=
  mkAssertionRow (assertion_id a) (assertion_source_node_id a) (assertion_target_node_id a)
    (assertion_type a) (payload_json (assertion_evidence a)) (confidence a) (assertion_created_at a).

(** [_batched]; [batch_size] is at least one. *)
Fixpoint batched_from {A} (fuel : nat) (size : nat) (rows : list A) : list (list A) :=
  match fuel, rows with
  | S f, _ :: _ => take size rows :: batched_from f size (drop size rows)
  | _, _ => []
  end.
Definition batched {A} (size : nat) (rows : list A) : list (list A) := batched_from (length rows) size rows.

(** [defaultdict(list)]: groups in the order their keys are first met. *)
Definition group_rows {A} (rows : list (string * A)) : pydict (list A) :=
  fold_left (λ d kv, dset kv.1 (default [] (dget kv.1 d) ++ [kv.2])%list d) rows [].

Definition sync_clauses (p : PromotionPlan) (batch_size : nat) : list clause :=
  let assertions := map assertion_row_of (assertion_records p) in
  (concat (map (λ g, map (NodeSync g.1) (batched batch_size g.2))
     (group_rows (map (λ n, (label n, node_row_of n)) (node_records p)))) ++
   concat (map (λ g, map (EdgeSync g.1) (batched batch_size g.2))
     (group_rows (map (λ e, (relationship_type e, edge_row_of e)) (edge_records p)))) ++
   map AssertionSourceSync (batched batch_size assertions) ++
   map AssertionTargetSync (batched batch_size (List.filter (λ r, bool_decide (ar_target r ≠ None)) assertions)))%list.

Definition referenced_endpoint_node_ids (p : PromotionPlan) : gset string :=
  list_to_set (concat (map (λ e, [source_node_id e; target_node_id e]) (edge_records p))) ∪
  list_to_set (concat (map (λ a, assertion_source_node_id a :: option_list (assertion_target_node_id a))
    (assertion_records p))).
Definition required_endpoint_node_ids (p : PromotionPlan) : list string :=
  sorted_set (referenced_endpoint_node_ids p ∖ list_to_set (map node_id (node_records p))).

(** [_validate_dynamic_identifiers] *)
Definition validate_dynamic_identifiers (p : PromotionPlan) : result sync_error () :=
  let* _ := riter (λ n, guard_err (negb (valid_node_label (label n))) (UnsupportedNodeLabel (label n)))
    (node_records p) in
  riter (λ e, guard_err (negb (valid_relationship_type (relationship_type e)))
    (UnsupportedRelationshipType (relationship_type e))) (edge_records p).

(** The outcome and the graph it leaves. *)
Definition sync_live_graph (p : PromotionPlan) (batch_size : nat) (g : graph)
    : result sync_error () * graph :=
  match (raise_if (batch_size <? 1)%nat with BadBatchSize; validate_dynamic_identifiers p) with
  | Err e => (Err e, g)
  | Ok _ =>
      match sync_clauses p batch_size with
      | [] => (Ok (), g)
      | clauses =>
          let '(missing, applied, g') := run_transaction g (required_endpoint_node_ids p) clauses in
          (match sorted_strings missing with
           | [] => if applied then Ok () else Err NotApplied
           | missing' => Err (MissingEndpoints missing')
           end, g')
      end
  end.
End sync.
End Sync.

Module SyncTheorems.
Import LiveGraph Sync.

(** ** Grouping and batching lose no row *)

Definition ungroup {A} (d : pydict (list A)) : list (string * A) :=
  concat (map (λ g, map (pair g.1) g.2) d).

Lemma ungroup_add {A} k (v : A) (d : pydict (list A)) :
  ungroup (dset k (default [] (dget k d) ++ [v])%list d) ≡ₚ (k, v) :: ungroup d.
Proof.
  unfold ungroup. induction d as [|[k' l] d IH]; simpl; [done|].
  destruct (String.eqb_spec k k') as [->|Hne]; simpl.
  - rewrite map_app, <- app_assoc. simpl. by rewrite <- Permutation_middle.
  - rewrite IH. by rewrite <- Permutation_middle.
Qed.

Lemma group_rows_perm {A} (rows : list (string * A)) : ungroup (group_rows rows) ≡ₚ rows.
Proof.
  unfold group_rows. assert (∀ d, ungroup (fold_left (λ d kv, dset kv.1 (default [] (dget kv.1 d) ++ [kv.2])%list d) rows d)
    ≡ₚ (ungroup d ++ rows)%list) as H; [|apply H].
  induction rows as [|[k v] rows IH]; intros d; simpl; [by rewrite app_nil_r|].
  rewrite IH, ungroup_add. simpl. apply Permutation_middle.
Qed.

Lemma concat_batched {A} size (rows : list A) : (1 ≤ size)%nat → concat (batched size rows) = rows.
Proof.
  intros Hs. unfold batched. assert (∀ fuel (l : list A), (length l ≤ fuel)%nat → concat (batched_from fuel size l) = l) as H.
  - induction fuel as [|fuel IH]; intros [|x l] Hl; try done; [simpl in Hl; lia|].
    cbn [batched_from concat]. rewrite IH; [apply take_drop|]. rewrite length_drop. simpl in Hl |- *. lia.
  - by apply H.
Qed.

Definition node_pairs (c : clause) : list (string * node_row) :=
  match c with NodeSync l rows => map (pair l) rows | _ => [] end.
Definition edge_pairs (c : clause) : list (string * edge_row) :=
  match c with EdgeSync t rows => map (pair t) rows | _ => [] end.

Lemma pairs_of_groups {A} (mk : string → list A → clause) (pairs : clause → list (string * A))
    size (d : pydict (list A)) :
  (∀ k rows, pairs (mk k rows) = map (pair k) rows) → (1 ≤ size)%nat →
  concat (map pairs (concat (map (λ g, map (mk g.1) (batched size g.2)) d))) = ungroup d.
Proof.
  intros Hmk Hs. unfold ungroup. induction d as [|[k rows] d IH]; simpl; [done|].
  rewrite map_app, concat_app, IH. f_equal. rewrite map_map.
  rewrite (map_ext _ (λ l, map (pair k) l)) by (intros; apply Hmk).
  by rewrite <- concat_map, concat_batched.
Qed.

Definition put_node (g : graph) (kr : string * node_row) : graph := merge_node kr.1 g kr.2.

Lemma run_node_clauses g cs : Forall (λ c, match c with NodeSync _ _ => True | _ => False end) cs →
  fold_left run_clause cs g = fold_left put_node (concat (map node_pairs cs)) g.
Proof.
  intros Hcs. revert g. induction Hcs as [|c cs Hc _ IH]; intros g; simpl; [done|].
  destruct c as [l rows| | |]; try done. rewrite IH. simpl. rewrite fold_left_app. f_equal.
  clear. revert g. induction rows as [|r rows IH]; intros g; simpl; [done|]. apply IH.
Qed.

Lemma put_nodes_lookup pairs g :
  NoDup (map (λ kr, (kr.1, nr_id kr.2)) pairs) →
  rels (fold_left put_node pairs g) = rels g ∧
  (∀ l r, (l, r) ∈ pairs → nodes (fold_left put_node pairs g) !! (l, nr_id r) = Some (nr_props r)) ∧
  (∀ k, k ∉ map (λ kr, (kr.1, nr_id kr.2)) pairs → nodes (fold_left put_node pairs g) !! k = nodes g !! k).
Proof.
  revert g. induction pairs as [|[l r] pairs IH]; intros g; simpl.
  { intros _. split_and!; [done| |done]. intros l r H. by apply elem_of_nil in H. }
  rewrite NoDup_cons. intros [Hr Hnd]. destruct (IH (put_node g (l, r)) Hnd) as (H1 & H2 & H3). split_and!.
  - by rewrite H1.
  - intros l' r' [[= -> ->]|Hin]%elem_of_cons; [|by apply H2]. rewrite H3 by done. apply lookup_insert_eq.
  - intros k [Hk Hks]%not_elem_of_cons. rewrite H3 by done. by apply lookup_insert_ne.
Qed.

(** ** The edges *)

Lemma elem_of_matching g id k : k ∈ matching g id ↔ k.2 = id ∧ is_Some (nodes g !! k).
Proof. unfold matching. by rewrite list_elem_of_filter, elem_of_elements, elem_of_dom. Qed.

Lemma elem_of_edge_keys ty g r k :
  k ∈ edge_keys ty g r ↔
  ∃ s t, s ∈ matching g (er_source r) ∧ t ∈ matching g (er_target r) ∧ k = EdgeKey ty s t (er_id r).
Proof. unfold edge_keys. set_unfold. naive_solver. Qed.

Lemma set_rels_lookup ks p m k :
  set_rels ks p m !! k = if decide (k ∈ ks) then Some p else m !! k.
Proof.
  unfold set_rels. revert m. induction ks as [|k' ks IH]; intros m; simpl.
  { destruct (decide (k ∈ [])) as [H%elem_of_nil|]; done. }
  rewrite IH. destruct (decide (k ∈ ks)) as [Hin|Hin], (decide (k ∈ k' :: ks)) as [Hin'|Hin']; try done.
  - destruct Hin'. by right.
  - apply elem_of_cons in Hin' as [->|]; [apply lookup_insert_eq|done].
  - rewrite lookup_insert_ne; [done|]. intros ->. destruct Hin'. left.
Qed.

(** The relationships after a set of edge rows, from those before: what a row
    merges, else what no row finds stale. *)
Definition edges_spec (pairs : list (string * edge_row)) (g : graph) (m : gmap rel_key props) : Prop :=
  ∀ k, (∀ ty r, (ty, r) ∈ pairs → k ∈ edge_keys ty g r → m !! k = Some (er_props r)) ∧
    ((∀ ty r, (ty, r) ∈ pairs → k ∉ edge_keys ty g r) →
     ∀ p, m !! k = Some p ↔ rels g !! k = Some p ∧ ∀ ty r, (ty, r) ∈ pairs → stale r k p = false).

Lemma merged_cases (pairs : list (string * edge_row)) g k :
  (∃ ty r, (ty, r) ∈ pairs ∧ k ∈ edge_keys ty g r) ∨ (∀ ty r, (ty, r) ∈ pairs → k ∉ edge_keys ty g r).
Proof.
  destruct (decide (Exists (λ tr : string * edge_row, k ∈ edge_keys tr.1 g tr.2) pairs)) as [H|H].
  - left. apply list.Exists_exists in H as ([ty r] & ? & ?). eauto.
  - right. intros ty r Hin Hk. apply H, list.Exists_exists. by exists (ty, r).
Qed.

Lemma edges_spec_unique pairs pairs' g m m' :
  pairs ≡ₚ pairs' → edges_spec pairs g m → edges_spec pairs' g m' → m = m'.
Proof.
  intros Hp Hm Hm'. apply map_eq. intros k. destruct (Hm k) as [H1 H2], (Hm' k) as [H1' H2'].
  destruct (merged_cases pairs g k) as [(ty & r & Hin & Hk)|Hno].
  - rewrite (H1 ty r Hin Hk). symmetry. apply (H1' ty r); [by rewrite <- Hp|done].
  - apply option_eq. intros p. rewrite H2 by done. rewrite H2' by (intros ty r Hin; apply Hno; by rewrite Hp).
    by setoid_rewrite Hp.
Qed.

Definition edge_ids (pairs : list (string * edge_row)) : list string := map (λ tr, er_id tr.2) pairs.

Lemma edge_keys_id ty g r k : k ∈ edge_keys ty g r → ∃ s t, k = EdgeKey ty s t (er_id r).
Proof. rewrite elem_of_edge_keys. naive_solver. Qed.

Lemma edge_keys_nodes ty g g' r : nodes g = nodes g' → edge_keys ty g r = edge_keys ty g' r.
Proof. intros E. unfold edge_keys, matching. by rewrite E. Qed.

Lemma stale_other r ty s t id p : id ≠ er_id r → stale r (EdgeKey ty s t id) p = false.
Proof. intros Hne. simpl. by rewrite (proj2 (String.eqb_neq _ _) Hne). Qed.

(** Rows with distinct edge ids do not interfere. *)
Lemma edges_spec_app ps1 ps2 g g1 m :
  NoDup (edge_ids (ps1 ++ ps2)) → nodes g1 = nodes g → edges_spec ps1 g (rels g1) → edges_spec ps2 g1 m →
  edges_spec (ps1 ++ ps2) g m.
Proof.
  unfold edge_ids. rewrite map_app, NoDup_app. intros (_ & Hdis & _) En H1 H2 k.
  assert (∀ ty1 r1 ty2 r2, (ty1, r1) ∈ ps1 → (ty2, r2) ∈ ps2 → er_id r1 ≠ er_id r2) as Hne.
  { intros ty1 r1 ty2 r2 Hin1 Hin2 E. apply (Hdis (er_id r1)); [by apply (list_elem_of_fmap_2 (λ tr : string * edge_row, er_id tr.2) _ (ty1, r1))|].
    rewrite E. by apply (list_elem_of_fmap_2 (λ tr : string * edge_row, er_id tr.2) _ (ty2, r2)). }
  destruct (H1 k) as [H1a H1b], (H2 k) as [H2a H2b].
  assert (∀ ty r, edge_keys ty g1 r = edge_keys ty g r) as Ek by (intros; by apply edge_keys_nodes).
  split.
  - intros ty r [Hin|Hin]%elem_of_app Hk; [|by apply (H2a ty r Hin); rewrite Ek].
    apply edge_keys_id in Hk as Hid. destruct Hid as (s & t & ->).
    apply H2b; [intros ty' r' Hin' Hk'; rewrite Ek in Hk'; apply edge_keys_id in Hk' as (? & ? & [=]); by eapply Hne|].
    split; [by eapply H1a|]. intros ty' r' Hin'. apply stale_other. by eapply Hne.
  - intros Hno p. rewrite H2b by (intros ty r Hin; rewrite Ek; apply Hno; set_solver).
    rewrite H1b by (intros ty r Hin; apply Hno; set_solver). setoid_rewrite elem_of_app. naive_solver.
Qed.

Lemma delete_stale_all rows g :
  nodes (fold_left delete_stale rows g) = nodes g ∧
  ∀ k p, rels (fold_left delete_stale rows g) !! k = Some p ↔
    rels g !! k = Some p ∧ ∀ r, r ∈ rows → stale r k p = false.
Proof.
  revert g. induction rows as [|r rows IH]; intros g; simpl.
  { split; [done|]. intros k p. split; [intros ?; split; [done|]; intros r Hr; by apply elem_of_nil in Hr|tauto]. }
  destruct (IH (delete_stale g r)) as [En Hl]. split; [done|]. intros k p. rewrite Hl. simpl.
  rewrite map_lookup_filter_Some. simpl. setoid_rewrite elem_of_cons. naive_solver.
Qed.

Lemma merge_edges_all ty rows g :
  NoDup (map er_id rows) →
  nodes (fold_left (merge_edge ty) rows g) = nodes g ∧
  ∀ k, (∀ r, r ∈ rows → k ∈ edge_keys ty g r → rels (fold_left (merge_edge ty) rows g) !! k = Some (er_props r)) ∧
    ((∀ r, r ∈ rows → k ∉ edge_keys ty g r) → rels (fold_left (merge_edge ty) rows g) !! k = rels g !! k).
Proof.
  revert g. induction rows as [|r rows IH]; intros g; simpl.
  { intros _. split; [done|]. intros k. split; [intros r Hr; by apply elem_of_nil in Hr|done]. }
  rewrite NoDup_cons. intros [Hr Hnd]. destruct (IH (merge_edge ty g r) Hnd) as [En Hl]. split; [done|].
  assert (∀ r', edge_keys ty (merge_edge ty g r) r' = edge_keys ty g r') as Ek by (intros; by apply edge_keys_nodes).
  intros k. destruct (Hl k) as [Hl1 Hl2]. split.
  - intros r' [->|Hin]%elem_of_cons Hk; [|apply Hl1; [done|by rewrite Ek]].
    rewrite Hl2; [simpl; rewrite set_rels_lookup; by destruct (decide _)|].
    intros r' Hin' Hk'. rewrite Ek in Hk'. apply edge_keys_id in Hk as (? & ? & ->), Hk' as (? & ? & [= _ _ E]).
    apply Hr. rewrite E. by apply list_elem_of_fmap_2.
  - intros Hno. rewrite Hl2; [|intros r' Hin'; rewrite Ek; apply Hno; by right].
    simpl. rewrite set_rels_lookup. destruct (decide _) as [Hk|]; [|done]. destruct (Hno r); [left|done].
Qed.

Lemma edge_clause_spec ty rows g :
  NoDup (map er_id rows) →
  nodes (run_clause g (EdgeSync ty rows)) = nodes g ∧
  edges_spec (map (pair ty) rows) g (rels (run_clause g (EdgeSync ty rows))).
Proof.
  intros Hnd. simpl. destruct (delete_stale_all rows g) as [En Hdel].
  destruct (merge_edges_all ty rows (fold_left delete_stale rows g) Hnd) as [En' Hmerge].
  split; [congruence|]. intros k. destruct (Hmerge k) as [H1 H2].
  assert (∀ r, edge_keys ty (fold_left delete_stale rows g) r = edge_keys ty g r) as Ek by (intros; by apply edge_keys_nodes).
  split.
  - intros ty' r (r' & [= -> ->] & Hin)%list_elem_of_fmap Hk. apply H1; [done|by rewrite Ek].
  - intros Hno p. rewrite H2.
    + rewrite Hdel. split; intros [? Hs]; (split; [done|]).
      * intros ty' r (r' & [= -> ->] & Hin)%list_elem_of_fmap. auto.
      * intros r Hin. apply (Hs ty). by apply (list_elem_of_fmap_2 (pair ty)).
    + intros r Hin. rewrite Ek. apply Hno. by apply (list_elem_of_fmap_2 (pair ty)).
Qed.

Lemma edge_clauses_spec cs g :
  Forall (λ c, match c with EdgeSync _ _ => True | _ => False end) cs →
  NoDup (edge_ids (concat (map edge_pairs cs))) →
  nodes (fold_left run_clause cs g) = nodes g ∧
  edges_spec (concat (map edge_pairs cs)) g (rels (fold_left run_clause cs g)).
Proof.
  intros Hcs. revert g. induction Hcs as [|c cs Hc _ IH]; intros g; simpl.
  { intros _. split; [done|]. intros k. split; [intros ty r Hx; by apply elem_of_nil in Hx|].
    intros _ p. split; [|tauto]. intros ?. split; [done|]. intros ty r Hx. by apply elem_of_nil in Hx. }
  intros Hnd. destruct c as [|ty rows| |]; try done. cbn [edge_pairs] in *.
  pose proof Hnd as Hnd0. unfold edge_ids in Hnd. rewrite map_app, NoDup_app, map_map in Hnd. destruct Hnd as (Hnd1 & _ & Hnd2).
  destruct (edge_clause_spec ty rows g Hnd1) as [En H1]. destruct (IH (run_clause g (EdgeSync ty rows)) Hnd2) as [En' H2].
  split; [congruence|]. by eapply edges_spec_app.
Qed.

(** ** The phases of a transaction *)

Section phases.
Context (payload_json : pdict → string).
Abbreviation node_rows p := (map (λ n, (label n, node_row_of payload_json n)) (node_records p)).
Abbreviation edge_rows p := (map (λ e, (relationship_type e, edge_row_of payload_json e)) (edge_records p)).
Abbreviation assertion_rows p := (map (assertion_row_of payload_json) (assertion_records p)).
Abbreviation target_rows p := (List.filter (λ r, bool_decide (ar_target r ≠ None)) (assertion_rows p)).

(** The node rows in the order the query lists them. *)
Definition ordered_nodes (p : PromotionPlan) : list (string * node_row) := ungroup (group_rows (node_rows p)).
Definition after_nodes (p : PromotionPlan) (g : graph) : graph := fold_left put_node (ordered_nodes p) g.

Lemma run_row_clauses (mk : list assertion_row → clause) f size rows g :
  (∀ g rows, run_clause g (mk rows) = fold_left f rows g) → (1 ≤ size)%nat →
  fold_left run_clause (map mk (batched size rows)) g = fold_left f rows g.
Proof.
  intros Hmk Hs. rewrite <- (concat_batched size rows Hs) at 2. generalize (batched size rows) as l.
  intros l. revert g. induction l as [|b l IH]; intros g; simpl; [done|]. by rewrite IH, Hmk, fold_left_app.
Qed.

Lemma clause_kinds {A} (mk : string → list A → clause) (P : clause → Prop) size (d : pydict (list A)) :
  (∀ k rows, P (mk k rows)) → Forall P (concat (map (λ g, map (mk g.1) (batched size g.2)) d)).
Proof.
  intros Hmk. induction d as [|[k rows] d IH]; simpl; [constructor|]. apply Forall_app. split; [|done].
  apply Forall_map, list.Forall_true. intros x. apply Hmk.
Qed.

Definition edge_ids_distinct (p : PromotionPlan) : Prop := NoDup (map edge_id (edge_records p)).

Lemma edge_rows_ids p : edge_ids_distinct p → NoDup (edge_ids (edge_rows p)).
Proof. unfold edge_ids. by rewrite map_map. Qed.

Lemma effect_phases p size g :
  (1 ≤ size)%nat → edge_ids_distinct p →
  ∃ m, edges_spec (edge_rows p) (after_nodes p g) m ∧
    fold_left run_clause (sync_clauses payload_json p size) g =
    fold_left merge_assertion_target (target_rows p)
      (fold_left merge_assertion (assertion_rows p) (mkGraph (nodes (after_nodes p g)) m)).
Proof.
  intros Hs Hnd. unfold sync_clauses. rewrite !fold_left_app.
  rewrite (run_row_clauses AssertionTargetSync merge_assertion_target), (run_row_clauses AssertionSourceSync merge_assertion) by done.
  rewrite (run_node_clauses g) by (by apply (clause_kinds NodeSync)).
  rewrite (pairs_of_groups NodeSync node_pairs) by done. fold (ordered_nodes p). fold (after_nodes p g).
  set (cs := concat (map (λ g, map (EdgeSync g.1) (batched size g.2)) (group_rows (edge_rows p)))).
  assert (concat (map edge_pairs cs) ≡ₚ edge_rows p) as Hperm.
  { unfold cs. rewrite (pairs_of_groups EdgeSync edge_pairs) by done. apply group_rows_perm. }
  destruct (edge_clauses_spec cs (after_nodes p g)) as [En Hspec].
  - by apply (clause_kinds EdgeSync).
  - unfold edge_ids. rewrite Hperm. by apply edge_rows_ids.
  - exists (rels (fold_left run_clause cs (after_nodes p g))). split.
    + intros k. destruct (Hspec k) as [H1 H2]. split; [intros ty r; rewrite <- Hperm; apply H1|].
      intros Hno pr. rewrite H2 by (intros ty r Hin; apply Hno; by rewrite <- Hperm). by setoid_rewrite Hperm.
    + rewrite <- En. by destruct (fold_left run_clause cs (after_nodes p g)).
Qed.

Lemma no_clauses p size : (1 ≤ size)%nat →
  sync_clauses payload_json p size = [] ↔
  node_records p = [] ∧ edge_records p = [] ∧ assertion_records p = [].
Proof.
  intros Hs. unfold sync_clauses. split; [|by intros (-> & -> & ->)].
  intros (H1 & (H2 & (H3 & _)%app_eq_nil)%app_eq_nil)%app_eq_nil.
  pose proof (pairs_of_groups NodeSync node_pairs size (group_rows (node_rows p)) ltac:(done) Hs) as E1.
  pose proof (pairs_of_groups EdgeSync edge_pairs size (group_rows (edge_rows p)) ltac:(done) Hs) as E2.
  rewrite H1 in E1. rewrite H2 in E2. simpl in E1, E2.
  pose proof (group_rows_perm (node_rows p)) as P1. pose proof (group_rows_perm (edge_rows p)) as P2.
  rewrite <- E1 in P1. rewrite <- E2 in P2. apply Permutation_nil_l, eq_sym, map_eq_nil in P1, P2.
  apply map_eq_nil in H3. pose proof (concat_batched size (assertion_rows p) Hs) as E3. rewrite H3 in E3.
  by apply eq_sym, map_eq_nil in E3.
Qed.

(** The batch size does not matter: a plan with distinct edge ids has the
    same outcome and leaves the same graph for every batch size of at least
    one, although each batch deletes the stale relationships of its rows before
    it merges any. *)
Theorem batch_size_irrelevant p size size' g :
  (1 ≤ size)%nat → (1 ≤ size')%nat → edge_ids_distinct p →
  sync_live_graph payload_json p size g = sync_live_graph payload_json p size' g.
Proof.
  intros Hs Hs' Hnd. unfold sync_live_graph.
  rewrite (proj2 (Nat.ltb_ge size 1) Hs), (proj2 (Nat.ltb_ge size' 1) Hs'). simpl.
  destruct (validate_dynamic_identifiers p) as [u|e]; [|done].
  assert (fold_left run_clause (sync_clauses payload_json p size) g =
    fold_left run_clause (sync_clauses payload_json p size') g) as E.
  { destruct (effect_phases p size g Hs Hnd) as (m & Hm & ->), (effect_phases p size' g Hs' Hnd) as (m' & Hm' & ->).
    by rewrite (edges_spec_unique _ _ _ _ _ (Permutation_refl _) Hm Hm'). }
  destruct (sync_clauses payload_json p size) as [|c cs] eqn:Hc, (sync_clauses payload_json p size') as [|c' cs'] eqn:Hc'.
  - done.
  - apply (no_clauses p size Hs) in Hc. apply (no_clauses p size' Hs') in Hc. congruence.
  - apply (no_clauses p size' Hs') in Hc'. apply (no_clauses p size Hs) in Hc'. congruence.
  - unfold run_transaction. destruct (missing_endpoints _ _); [by rewrite E|done].
Qed.

(** ** What a transaction leaves *)

Record plan_distinct (p : PromotionPlan) : Prop := {
  distinct_nodes : NoDup (map node_id (node_records p));
  distinct_edges : edge_ids_distinct p;
  distinct_assertions : NoDup (map assertion_id (assertion_records p));
  fresh_assertions a : a ∈ assertion_records p →
    (assertion_id a ∉ map node_id (node_records p)) ∧ (assertion_id a ∉ referenced_endpoint_node_ids p);
}.

(** A relationship has the type its properties say. *)
Definition graph_ok (g : graph) : Prop :=
  ∀ ty s t id p, rels g !! EdgeKey ty s t id = Some p → p !! "relationship_type" = Some (text_prop ty).

Lemma safe_properties_reserved d k : k ∈ reserved_property_names → safe_properties d !! k = None.
Proof.
  intros Hk. unfold safe_properties. generalize (lookup_empty (A:=prop) k). generalize (∅ : props).
  induction d as [|[x v] d IH]; intros m Hm; simpl; [done|]. apply IH. destruct x; try done. simpl.
  destruct (is_safe_property_name s) eqn:Es; [|done]. destruct (is_neo4j_property_value v); [|done].
  simpl. rewrite lookup_insert_ne; [done|]. intros ->. unfold is_safe_property_name in Es.
  by rewrite bool_decide_eq_true_2 in Es.
Qed.

Lemma edge_row_type e : er_props (edge_row_of payload_json e) !! "relationship_type" = Some (text_prop (relationship_type e)).
Proof.
  simpl. rewrite lookup_union_r; [done|]. apply safe_properties_reserved. apply (bool_decide_eq_true_1 _). done.
Qed.

Lemma elem_of_edge_rows p ty r :
  (ty, r) ∈ edge_rows p ↔ ∃ e, e ∈ edge_records p ∧ ty = relationship_type e ∧ r = edge_row_of payload_json e.
Proof. rewrite list_elem_of_fmap. naive_solver. Qed.

Lemma edge_rows_unique p e e' :
  edge_ids_distinct p → e ∈ edge_records p → e' ∈ edge_records p → edge_id e = edge_id e' → e = e'.
Proof. intros Hnd. by apply NoDup_map_inj. Qed.

(** No edge a row merged is stale for another. *)
Lemma merged_not_stale p g e e' k :
  edge_ids_distinct p → e ∈ edge_records p → e' ∈ edge_records p →
  k ∈ edge_keys (relationship_type e) g (edge_row_of payload_json e) →
  stale (edge_row_of payload_json e') k (er_props (edge_row_of payload_json e)) = false.
Proof.
  intros Hnd He He' (s & t & [Hs _]%elem_of_matching & [Ht _]%elem_of_matching & ->)%elem_of_edge_keys.
  destruct (decide (edge_id e = edge_id e')) as [E|Hne]; [|by apply stale_other].
  rewrite (edge_rows_unique p e e' Hnd He He' E) in *. unfold stale. rewrite edge_row_type. cbn [er_id er_source er_target er_type edge_row_of] in *.
  unfold text_prop. by rewrite Hs, Ht, !String.eqb_refl.
Qed.

Lemma edges_spec_ok p g m :
  edge_ids_distinct p → graph_ok g → edges_spec (edge_rows p) g m → graph_ok (mkGraph (nodes g) m).
Proof.
  intros Hnd Hok Hm ty s t id pr. simpl. intros Hl. destruct (Hm (EdgeKey ty s t id)) as [H1 H2].
  destruct (merged_cases (edge_rows p) g (EdgeKey ty s t id)) as [(ty' & r & Hin & Hk)|Hno].
  - rewrite (H1 ty' r Hin Hk) in Hl. injection Hl as <-. apply elem_of_edge_rows in Hin as (e & _ & -> & ->).
    apply edge_keys_id in Hk as (? & ? & [= -> _ _ _]). apply edge_row_type.
  - apply (H2 Hno) in Hl as [Hl _]. by eapply Hok.
Qed.

(** *** Assertions *)

Definition assertion_ids (rows : list assertion_row) : list string := map ar_id rows.

(** The parts of the graph that assertion rows leave alone. *)
Definition assertion_frame (ids : list string) (g g' : graph) : Prop :=
  (∀ k, k.2 ∉ ids → nodes g' !! k = nodes g !! k) ∧
  (∀ k, is_Some (nodes g !! k) → is_Some (nodes g' !! k)) ∧
  (∀ ty s t id, rels g' !! EdgeKey ty s t id = rels g !! EdgeKey ty s t id) ∧
  (∀ s t id role, id ∉ ids → rels g' !! LinkKey s t id role = rels g !! LinkKey s t id role).

Lemma assertion_frame_trans ids ids' g g1 g2 :
  assertion_frame ids g g1 → assertion_frame ids' g1 g2 → assertion_frame (ids ++ ids')%list g g2.
Proof.
  intros (A1 & A2 & A3 & A4) (B1 & B2 & B3 & B4). split_and!.
  - intros k [Hk Hk']%not_elem_of_app. by rewrite B1, A1.
  - auto.
  - intros. by rewrite B3, A3.
  - intros s t id role [Hk Hk']%not_elem_of_app. by rewrite B4, A4.
Qed.

Lemma set_rels_other ks p m k : k ∉ ks → set_rels ks p m !! k = m !! k.
Proof. intros Hk. rewrite set_rels_lookup. by destruct (decide (k ∈ ks)). Qed.

Lemma set_rels_noop ks p m : (∀ k, k ∈ ks → m !! k = Some p) → set_rels ks p m = m.
Proof.
  intros Hks. apply map_eq. intros k. rewrite set_rels_lookup.
  destruct (decide (k ∈ ks)) as [Hk|]; [|done]. by rewrite Hks.
Qed.

Lemma merge_assertion_frame g r : assertion_frame [ar_id r] g (merge_assertion g r).
Proof.
  unfold merge_assertion. destruct (matching g (ar_source r)) as [|s l]; [by split_and!|].
  generalize (s :: l) as sources. intros sources. split_and!; cbn [nodes rels].
  - intros k Hk. apply lookup_insert_ne. intros <-. apply Hk. left.
  - intros k Hk. destruct (decide (k = assertion_key r)) as [->|]; [rewrite lookup_insert_eq; eauto|].
    by rewrite lookup_insert_ne.
  - intros ty s' t id. apply set_rels_other. intros (? & ? & _)%list_elem_of_fmap. done.
  - intros s' t id role Hid. apply set_rels_other. intros (? & [= _ _ -> _] & _)%list_elem_of_fmap. apply Hid. left.
Qed.

Lemma merge_target_frame g r : assertion_frame [ar_id r] g (merge_assertion_target g r).
Proof.
  unfold merge_assertion_target. destruct (ar_target r) as [t|]; [|by split_and!].
  destruct (nodes g !! assertion_key r); [|by split_and!]. split_and!; cbn [nodes rels]; try done.
  - intros ty s' t' id. apply set_rels_other. intros (? & ? & _)%list_elem_of_fmap. done.
  - intros s' t' id role Hid. apply set_rels_other. intros (? & [= _ _ -> _] & _)%list_elem_of_fmap. apply Hid. left.
Qed.

Lemma fold_frame (f : graph → assertion_row → graph) rows g :
  (∀ g r, assertion_frame [ar_id r] g (f g r)) → assertion_frame (assertion_ids rows) g (fold_left f rows g).
Proof.
  intros Hf. revert g. induction rows as [|r rows IH]; intros g; simpl; [by split_and!|].
  apply (assertion_frame_trans [ar_id r] (assertion_ids rows) g (f g r)); [apply Hf|apply IH].
Qed.

Lemma frame_matching ids g g' id k :
  assertion_frame ids g g' → id ∉ ids → k ∈ matching g' id ↔ k ∈ matching g id.
Proof.
  intros (H1 & _) Hid. rewrite !elem_of_matching. split; intros [<- Hk]; (split; [done|]).
  - by rewrite <- H1.
  - by rewrite H1.
Qed.

(** A source or target row has been applied. *)
Definition source_done (r : assertion_row) (g : graph) : Prop :=
  matching g (ar_source r) = [] ∨
  ((∃ p, nodes g !! assertion_key r = Some p ∧ set_assertion r p = p) ∧
   ∀ s, s ∈ matching g (ar_source r) →
     rels g !! LinkKey s (assertion_key r) (ar_id r) "source" = Some (link_props r "source")).
Definition target_done (r : assertion_row) (g : graph) : Prop :=
  ∀ target t, ar_target r = Some target → is_Some (nodes g !! assertion_key r) → t ∈ matching g target →
    rels g !! LinkKey (assertion_key r) t (ar_id r) "target" = Some (link_props r "target").

Lemma set_assertion_idemp r p : set_assertion r (set_assertion r p) = set_assertion r p.
Proof.
  apply map_eq. intros k. unfold set_assertion.
  rewrite !lookup_insert, !lookup_partial_alter, !lookup_insert, !lookup_partial_alter, !lookup_insert.
  repeat case_decide; done.
Qed.

Lemma matching_nil g id : matching g id = [] ↔ ∀ k, k ∉ matching g id.
Proof.
  split; [intros -> k; apply not_elem_of_nil|]. destruct (matching g id) as [|k l]; [done|].
  intros H. destruct (H k). left.
Qed.

Lemma source_done_noop r g : source_done r g → merge_assertion g r = g.
Proof.
  unfold merge_assertion. intros [->|[(p & Hp & Hset) Hl]]; [done|]. rewrite Hp. cbn [default from_option id]. rewrite Hset.
  rewrite insert_id by done. revert Hl. destruct (matching g (ar_source r)) as [|s l]; [done|].
  generalize (s :: l) as sources. intros sources Hl. destruct g as [ns rs]; cbn [nodes rels] in *. f_equal.
  apply set_rels_noop. intros k (s' & -> & Hs')%list_elem_of_fmap. by apply Hl.
Qed.

Lemma target_done_noop r g : target_done r g → merge_assertion_target g r = g.
Proof.
  unfold merge_assertion_target, target_done. destruct (ar_target r) as [target|]; [|done].
  destruct (nodes g !! assertion_key r) as [p|]; [|done]. intros H. destruct g as [ns rs]; simpl in *. f_equal.
  apply set_rels_noop. intros k (s' & -> & Hs')%list_elem_of_fmap. eapply H; eauto.
Qed.

Lemma source_done_after r g : ar_id r ≠ ar_source r → source_done r (merge_assertion g r).
Proof.
  intros Hne. pose proof (merge_assertion_frame g r) as Hf.
  assert (∀ k, k ∈ matching (merge_assertion g r) (ar_source r) ↔ k ∈ matching g (ar_source r)) as Hm.
  { intros k. apply (frame_matching [ar_id r]); [done|]. by intros ?%list_elem_of_singleton. }
  destruct (matching g (ar_source r)) as [|s l] eqn:E.
  - left. apply matching_nil. intros k. rewrite Hm. apply not_elem_of_nil.
  - right. unfold merge_assertion in Hm |- *. rewrite E in Hm |- *. split.
    + eexists. split; [simpl; apply lookup_insert_eq|]. apply set_assertion_idemp.
    + intros k Hk%Hm. cbn [rels]. rewrite set_rels_lookup. destruct (decide _) as [|Hn]; [done|].
      destruct Hn. apply list_elem_of_fmap. eauto.
Qed.

Lemma source_done_frame ids r g g' :
  assertion_frame ids g g' → ar_id r ∉ ids → ar_source r ∉ ids → source_done r g → source_done r g'.
Proof.
  intros Hf Hid Hs Hd. pose proof Hf as (H1 & _ & _ & H4).
  assert (∀ k, k ∈ matching g' (ar_source r) ↔ k ∈ matching g (ar_source r)) as Hm by (intros; by eapply frame_matching).
  destruct Hd as [Hnil|[(p & Hp & Hset) Hl]].
  - left. apply matching_nil. intros k. rewrite Hm, Hnil. apply not_elem_of_nil.
  - right. split; [exists p; by rewrite H1|]. intros s Hk%Hm. rewrite H4 by done. by apply Hl.
Qed.

Lemma target_done_frame ids r g g' :
  assertion_frame ids g g' → ar_id r ∉ ids → (∀ t, ar_target r = Some t → t ∉ ids) →
  target_done r g → target_done r g'.
Proof.
  intros Hf Hid Ht Hd target t Htg Hk Hm. pose proof Hf as (H1 & _ & _ & H4). rewrite H4 by done.
  apply (Hd target t Htg); [by rewrite <- H1|]. by apply (frame_matching ids g g' target t Hf (Ht _ Htg)).
Qed.

Lemma target_done_after r g : target_done r (merge_assertion_target g r).
Proof.
  intros target t Htg. unfold merge_assertion_target. rewrite Htg.
  destruct (nodes g !! assertion_key r) eqn:E; [|intros Hk; rewrite E in Hk; by destruct Hk].
  intros _ Hm. cbn [rels]. rewrite set_rels_lookup. destruct (decide _) as [|Hn]; [done|].
  destruct Hn. apply list_elem_of_fmap. eauto.
Qed.

(** Rows with distinct ids stay done. *)
Lemma fold_done (f : graph → assertion_row → graph) (P : assertion_row → graph → Prop) rows g :
  NoDup (assertion_ids rows) →
  (∀ r g, r ∈ rows → P r (f g r)) →
  (∀ r r' g, r ∈ rows → r' ∈ rows → ar_id r ≠ ar_id r' → P r g → P r (f g r')) →
  ∀ r, r ∈ rows → P r (fold_left f rows g).
Proof.
  intros Hnd Hafter Hkeep.
  assert (∀ l g, l ⊆ rows → ∀ r, r ∈ rows → ar_id r ∉ assertion_ids l → P r g → P r (fold_left f l g)) as Hstay.
  { induction l as [|r' l IH]; intros g' Hl r Hr Hn HP; simpl; [done|]. simpl in Hn. apply not_elem_of_cons in Hn as [Hne Hn].
    apply IH; [|done|done|apply Hkeep; [done| |done|done]]; set_solver. }
  assert (∀ l g, l ⊆ rows → NoDup (assertion_ids l) → ∀ r, r ∈ l → P r (fold_left f l g)) as H; [|by apply H].
  induction l as [|r' l IH]; intros g' Hl Hn r Hr; [by apply elem_of_nil in Hr|]. simpl in Hn. apply NoDup_cons in Hn as [Hn1 Hn2].
  simpl. apply elem_of_cons in Hr as [->|Hr]; [|apply IH; [set_solver|done|done]].
  apply Hstay; [set_solver|apply Hl; left|done|apply Hafter, Hl; left].
Qed.

(** ** Mirroring *)

Lemma elem_of_referenced p id :
  id ∈ referenced_endpoint_node_ids p ↔
  (∃ e, e ∈ edge_records p ∧ (id = source_node_id e ∨ id = target_node_id e)) ∨
  (∃ a, a ∈ assertion_records p ∧ (id = assertion_source_node_id a ∨ assertion_target_node_id a = Some id)).
Proof.
  unfold referenced_endpoint_node_ids. rewrite elem_of_union, !elem_of_list_to_set, !list_elem_of_In, !in_concat.
  setoid_rewrite in_map_iff. setoid_rewrite list_elem_of_In. split.
  - intros [(l & (e & <- & He) & Hid)|(l & (a & <- & Ha) & Hid)].
    + left. exists e. split; [done|]. destruct Hid as [<-|[<-|[]]]; auto.
    + right. exists a. split; [done|]. destruct Hid as [<-|Hid]; [auto|]. right.
      destruct (assertion_target_node_id a); simpl in Hid; [destruct Hid as [->|[]]; done|done].
  - intros [(e & He & Hid)|(a & Ha & Hid)]; [left|right]; eexists; (split; [eexists; split; [reflexivity|done]|]).
    + destruct Hid as [->| ->]; [left|right; left]; done.
    + destruct Hid as [->|E]; [by left|]. rewrite E. right. by left.
Qed.

Lemma sync_outcome p size g res g' :
  (1 ≤ size)%nat → sync_live_graph payload_json p size g = (res, g') →
  match res with
  | Ok _ => g' = fold_left run_clause (sync_clauses payload_json p size) g ∧
      ∀ id, id ∈ referenced_endpoint_node_ids p → id ∈ map node_id (node_records p) ∨ matching g id ≠ []
  | Err _ => g' = g
  end.
Proof.
  intros Hs. unfold sync_live_graph. rewrite (proj2 (Nat.ltb_ge size 1) Hs). simpl.
  destruct (validate_dynamic_identifiers p) as [u|e]; [|by intros [= <- <-]].
  destruct (sync_clauses payload_json p size) as [|c cs] eqn:Hc.
  - intros [= <- <-]. apply (no_clauses p size Hs) in Hc as (_ & He & Ha). split; [done|].
    intros id Hid%elem_of_referenced. rewrite He, Ha in Hid.
    destruct Hid as [(e & Hin & _)|(a & Hin & _)]; by apply elem_of_nil in Hin.
  - unfold run_transaction. destruct (missing_endpoints g (required_endpoint_node_ids p)) as [|m ms] eqn:Hm.
    + intros [= <- <-]. split; [done|]. intros id Hid.
      destruct (decide (id ∈ map node_id (node_records p))) as [|Hn]; [by left|right]. intros Hnil.
      assert (id ∈ missing_endpoints g (required_endpoint_node_ids p)) as Hin; [|rewrite Hm in Hin; by apply elem_of_nil in Hin].
      unfold missing_endpoints. rewrite list_elem_of_filter. split; [done|].
      unfold required_endpoint_node_ids. rewrite elem_of_sorted_set, elem_of_difference, elem_of_list_to_set. done.
    + destruct (sorted_strings (m :: ms)) eqn:E; [|by intros [= <- <-]].
      pose proof (py_sort_length String.leb (m :: ms)) as Hl. unfold sorted_strings in E. by rewrite E in Hl.
Qed.

Lemma ordered_nodes_perm p : ordered_nodes p ≡ₚ node_rows p.
Proof. apply group_rows_perm. Qed.

Lemma ordered_nodes_keys p :
  NoDup (map node_id (node_records p)) → NoDup (map (λ kr, (kr.1, nr_id kr.2)) (ordered_nodes p)).
Proof.
  intros Hnd. apply (NoDup_map_perm _ _ _ (ordered_nodes_perm p)). rewrite map_map. simpl.
  apply (NoDup_fmap_1 snd). rewrite <- list_fmap_compose. exact Hnd.
Qed.

Lemma after_nodes_spec p g :
  NoDup (map node_id (node_records p)) →
  rels (after_nodes p g) = rels g ∧
  (∀ n, n ∈ node_records p →
    nodes (after_nodes p g) !! (label n, node_id n) = Some (nr_props (node_row_of payload_json n))) ∧
  (∀ k, k.2 ∉ map node_id (node_records p) → nodes (after_nodes p g) !! k = nodes g !! k) ∧
  (∀ k, is_Some (nodes g !! k) → is_Some (nodes (after_nodes p g) !! k)).
Proof.
  intros Hnd. destruct (put_nodes_lookup (ordered_nodes p) g (ordered_nodes_keys p Hnd)) as (H1 & H2 & H3).
  assert (∀ k, k ∈ map (λ kr, (kr.1, nr_id kr.2)) (ordered_nodes p) →
    ∃ n, n ∈ node_records p ∧ k = (label n, node_id n)) as Hk.
  { intros k. rewrite (ordered_nodes_perm p), map_map. intros (n & -> & Hn)%list_elem_of_fmap. eauto. }
  assert (∀ n, n ∈ node_records p →
    nodes (after_nodes p g) !! (label n, node_id n) = Some (nr_props (node_row_of payload_json n))) as Hin.
  { intros n Hn. apply (H2 (label n) (node_row_of payload_json n)). rewrite ordered_nodes_perm.
    by apply (list_elem_of_fmap_2 (λ n, (label n, node_row_of payload_json n))). }
  split_and!; [done|done| |].
  - intros k Hnk. apply H3. intros (n & Hn & ->)%Hk. apply Hnk. by apply (list_elem_of_fmap_2 node_id).
  - intros k Hsome. destruct (decide (k ∈ map (λ kr, (kr.1, nr_id kr.2)) (ordered_nodes p))) as [(n & Hn & ->)%Hk|Hno].
    + rewrite Hin by done. eauto.
    + unfold after_nodes. by rewrite H3.
Qed.

Lemma target_rows_ids p r : r ∈ target_rows p → r ∈ assertion_rows p.
Proof. rewrite !list_elem_of_In, filter_In. tauto. Qed.

Lemma assertion_rows_distinct p : plan_distinct p →
  NoDup (assertion_ids (assertion_rows p)) ∧ NoDup (assertion_ids (target_rows p)) ∧
  (∀ r, r ∈ assertion_rows p → (ar_id r ∉ map node_id (node_records p)) ∧ (ar_id r ∉ referenced_endpoint_node_ids p)) ∧
  (∀ r, r ∈ assertion_rows p → ar_source r ∈ referenced_endpoint_node_ids p ∧
    ∀ t, ar_target r = Some t → t ∈ referenced_endpoint_node_ids p).
Proof.
  intros [_ _ Hnd Hfresh]. assert (NoDup (assertion_ids (assertion_rows p))) as H1.
  { unfold assertion_ids. by rewrite map_map. }
  split_and!; [done| | |].
  - eapply NoDup_map_sub; [|exact H1]. generalize (assertion_rows p) as l.
    induction l as [|r l IH]; simpl; [constructor|]. destruct (bool_decide _); by constructor.
  - intros r (a & -> & Ha)%list_elem_of_fmap. by apply Hfresh.
  - intros r (a & -> & Ha)%list_elem_of_fmap. split; [apply elem_of_referenced; eauto|].
    intros t Ht. apply elem_of_referenced. eauto.
Qed.

(** The graph before the assertions, and what they leave of it. *)
Lemma effect_frame p size g :
  (1 ≤ size)%nat → plan_distinct p →
  ∃ m, edges_spec (edge_rows p) (after_nodes p g) m ∧
    assertion_frame (assertion_ids (assertion_rows p)) (mkGraph (nodes (after_nodes p g)) m)
      (fold_left run_clause (sync_clauses payload_json p size) g) ∧
    (∀ r, r ∈ assertion_rows p → source_done r (fold_left run_clause (sync_clauses payload_json p size) g)) ∧
    (∀ r, r ∈ target_rows p → target_done r (fold_left run_clause (sync_clauses payload_json p size) g)).
Proof.
  intros Hs Hd. destruct (effect_phases p size g Hs (distinct_edges p Hd)) as (m & Hm & ->). exists m. split; [done|].
  destruct (assertion_rows_distinct p Hd) as (H1 & H2 & H3 & H4).
  set (g1 := mkGraph _ m). set (g2 := fold_left merge_assertion (assertion_rows p) g1).
  assert (∀ r r', r ∈ assertion_rows p → r' ∈ assertion_rows p → ar_source r ≠ ar_id r' ∧
    ∀ t, ar_target r = Some t → t ≠ ar_id r') as Hne.
  { intros r r' Hr Hr'. destruct (H3 r' Hr') as [_ Hn], (H4 r Hr) as [Hsrc Htgt].
    split; [intros E; apply Hn; by rewrite <- E|]. intros t Ht ->. by apply Hn, Htgt. }
  pose proof (fold_frame merge_assertion (assertion_rows p) g1 merge_assertion_frame) as F1.
  pose proof (fold_frame merge_assertion_target (target_rows p) g2 merge_target_frame) as F2.
  split_and!.
  - destruct (assertion_frame_trans _ _ _ _ _ F1 F2) as (A1 & A2 & A3 & A4).
    assert (∀ id, id ∉ assertion_ids (assertion_rows p) →
      id ∉ (assertion_ids (assertion_rows p) ++ assertion_ids (target_rows p))%list) as Hsub.
    { intros id Hid [?|(r & -> & Hr%target_rows_ids)%list_elem_of_fmap]%elem_of_app; [done|].
      apply Hid. by apply list_elem_of_fmap_2. }
    split_and!; [intros k Hk; by apply A1, Hsub|done|done|intros s t id role Hid; by apply A4, Hsub].
  - intros r Hr. assert (source_done r g2) as Hg2.
    { apply (fold_done merge_assertion source_done (assertion_rows p)); [done| | |done].
      - intros r' g' Hr'. apply source_done_after. destruct (Hne r' r' Hr' Hr') as [? _]. congruence.
      - intros r1 r2 g' Hr1 Hr2 Hid. apply (source_done_frame [ar_id r2]); [apply merge_assertion_frame| |].
        + by intros ?%list_elem_of_singleton.
        + intros ?%list_elem_of_singleton. by destruct (Hne r1 r2 Hr1 Hr2) as [? _]. }
    clear F1. revert Hg2. generalize g2. assert (target_rows p ⊆ assertion_rows p) as Hsub by (intros x; apply target_rows_ids).
    revert Hsub. generalize (target_rows p) as l. induction l as [|r' l IH]; intros Hsub g' Hg'; simpl; [done|].
    apply IH; [set_solver|]. unfold merge_assertion_target.
    assert (r' ∈ assertion_rows p) as Hr' by (apply Hsub; left).
    destruct (ar_target r') as [tg|]; [|done]. destruct (nodes g' !! assertion_key r'); [|done].
    destruct Hg' as [?|[? Hl]]; [by left|right]. split; [done|]. intros s Hin. cbn [rels].
    rewrite set_rels_other; [by apply Hl|]. by intros (? & [=] & _)%list_elem_of_fmap.
  - apply (fold_done merge_assertion_target target_done); [done|intros; apply target_done_after|].
    intros r1 r2 g' Hr1%target_rows_ids Hr2%target_rows_ids Hid.
    apply (target_done_frame [ar_id r2]); [apply merge_target_frame|by intros ?%list_elem_of_singleton|].
    intros t Ht ?%list_elem_of_singleton. destruct (Hne r1 r2 Hr1 Hr2) as [_ Hn]. by apply (Hn t Ht).
Qed.

Lemma same_edge_keys p g g' e :
  plan_distinct p → e ∈ edge_records p →
  assertion_frame (assertion_ids (assertion_rows p)) g g' →
  ∀ k, k ∈ edge_keys (relationship_type e) g' (edge_row_of payload_json e) ↔
       k ∈ edge_keys (relationship_type e) g (edge_row_of payload_json e).
Proof.
  intros Hd He Hf k. destruct (assertion_rows_distinct p Hd) as (_ & _ & H3 & _).
  assert (∀ id, id ∈ referenced_endpoint_node_ids p → id ∉ assertion_ids (assertion_rows p)) as Hid.
  { intros id Hin (r & -> & Hr)%list_elem_of_fmap. by destruct (H3 r Hr). }
  rewrite !elem_of_edge_keys.
  assert (∀ id, id ∈ referenced_endpoint_node_ids p → ∀ x, x ∈ matching g' id ↔ x ∈ matching g id) as Hm.
  { intros id Hin x. eapply frame_matching; eauto. }
  setoid_rewrite (Hm (er_source (edge_row_of payload_json e))); [|apply elem_of_referenced; eauto].
  setoid_rewrite (Hm (er_target (edge_row_of payload_json e))); [|apply elem_of_referenced; eauto]. done.
Qed.

(** The relationships found after the transaction satisfy the rows again. *)
Lemma effect_edges p g m g' :
  plan_distinct p → edges_spec (edge_rows p) g m →
  assertion_frame (assertion_ids (assertion_rows p)) (mkGraph (nodes g) m) g' →
  edges_spec (edge_rows p) g' (rels g').
Proof.
  intros Hd Hm Hf k. pose proof Hf as (_ & _ & H3 & _).
  assert (∀ ty r, (ty, r) ∈ edge_rows p → k ∈ edge_keys ty g' r ↔ k ∈ edge_keys ty g r) as Hk.
  { intros ty r (e & He & -> & ->)%elem_of_edge_rows. rewrite (same_edge_keys p (mkGraph (nodes g) m) g' e Hd He Hf).
    by rewrite (edge_keys_nodes _ (mkGraph (nodes g) m) g). }
  split.
  - intros ty r Hin Hkk. apply (Hk ty r Hin) in Hkk. apply edge_keys_id in Hkk as Hid. destruct Hid as (s & t & ->).
    rewrite H3. simpl. by apply (proj1 (Hm _) ty r).
  - intros Hno pr. split; [|tauto]. intros Hl. split; [done|]. intros ty r Hin.
    destruct k as [ty' s t id|]; [|done]. rewrite H3 in Hl. simpl in Hl.
    apply (proj2 (Hm (EdgeKey ty' s t id))) in Hl; [by apply (proj2 Hl ty r)|].
    intros ty2 r2 Hin2 Hk2. apply (Hno ty2 r2 Hin2). by apply Hk.
Qed.

Lemma put_nodes_noop pairs g :
  (∀ l r, (l, r) ∈ pairs → nodes g !! (l, nr_id r) = Some (nr_props r)) → fold_left put_node pairs g = g.
Proof.
  induction pairs as [|[l r] pairs IH]; intros Hp; simpl; [done|].
  assert (put_node g (l, r) = g) as ->.
  { unfold put_node, merge_node. simpl. rewrite insert_id by (apply Hp; left). by destruct g. }
  apply IH. intros l' r' Hin. apply Hp. by right.
Qed.

Lemma fold_noop {A} (f : graph → A → graph) rows g : (∀ r, r ∈ rows → f g r = g) → fold_left f rows g = g.
Proof.
  induction rows as [|r rows IH]; intros Hf; simpl; [done|]. rewrite Hf by left. apply IH. intros r' Hr'.
  apply Hf. by right.
Qed.

Lemma effect_nodes p size g n :
  (1 ≤ size)%nat → plan_distinct p → n ∈ node_records p →
  nodes (fold_left run_clause (sync_clauses payload_json p size) g) !! (label n, node_id n) =
    Some (nr_props (node_row_of payload_json n)).
Proof.
  intros Hs Hd Hn. destruct (effect_frame p size g Hs Hd) as (m & _ & (H1 & _) & _).
  destruct (after_nodes_spec p g (distinct_nodes p Hd)) as (_ & H2 & _). rewrite H1; [by apply H2|].
  intros (r & E & Hr)%list_elem_of_fmap. simpl in E. destruct (assertion_rows_distinct p Hd) as (_ & _ & H3 & _).
  destruct (H3 r Hr) as [Hno _]. apply Hno. rewrite <- E. by apply (list_elem_of_fmap_2 node_id).
Qed.

(** C6: the live graph mirrors the plan, or is left alone: a sync that raises
    changes nothing; one that succeeds leaves every node record with exactly
    its properties, every edge record between existing nodes with exactly its
    properties and no other relationship with its edge id, and all nodes and
    edges the plan does not name as they were. *)
Theorem sync_mirrors_plan p size g res g' :
  (1 ≤ size)%nat → plan_distinct p → graph_ok g →
  sync_live_graph payload_json p size g = (res, g') →
  match res with
  | Err _ => g' = g
  | Ok _ =>
      graph_ok g' ∧
      (∀ n, n ∈ node_records p →
         nodes g' !! (label n, node_id n) = Some (nr_props (node_row_of payload_json n))) ∧
      (∀ e, e ∈ edge_records p →
         (∃ s t, s.2 = source_node_id e ∧ t.2 = target_node_id e ∧ is_Some (nodes g' !! s) ∧
            is_Some (nodes g' !! t) ∧
            rels g' !! EdgeKey (relationship_type e) s t (edge_id e) =
              Some (er_props (edge_row_of payload_json e))) ∧
         ∀ ty s t, is_Some (rels g' !! EdgeKey ty s t (edge_id e)) →
           ty = relationship_type e ∧ s.2 = source_node_id e ∧ t.2 = target_node_id e) ∧
      (∀ k, k.2 ∉ map node_id (node_records p) → k.2 ∉ map assertion_id (assertion_records p) →
         nodes g' !! k = nodes g !! k) ∧
      (∀ ty s t id, id ∉ map edge_id (edge_records p) → rels g' !! EdgeKey ty s t id = rels g !! EdgeKey ty s t id)
  end.
Proof.
  intros Hs Hd Hok Hsync%(sync_outcome p size g res g' Hs). destruct res as [u|e]; [|done].
  destruct Hsync as [-> Hends]. destruct (effect_frame p size g Hs Hd) as (m & Hm & Hf & _ & _).
  pose proof (effect_nodes p size g) as Hnodes.
  set (g' := fold_left run_clause (sync_clauses payload_json p size) g) in *. pose proof Hf as (F1 & F2 & F3 & _).
  destruct (after_nodes_spec p g (distinct_nodes p Hd)) as (N1 & N2 & N3 & N4).
  assert (graph_ok g') as Hok'.
  { intros ty s t id pr. rewrite F3. apply (edges_spec_ok p (after_nodes p g) m); [apply Hd| |done].
    intros ty' s' t' id' pr'. rewrite N1. apply Hok. }
  pose proof (effect_edges p (after_nodes p g) m g' Hd Hm Hf) as Hspec.
  split; [done|]. split; [intros n; by apply Hnodes|]. split; [|split].
  - intros e He. set (r := edge_row_of payload_json e).
    assert ((relationship_type e, r) ∈ edge_rows p) as Hin by (apply elem_of_edge_rows; eauto).
    assert (∀ id, id ∈ referenced_endpoint_node_ids p → ∃ s, s ∈ matching g' id) as Hex.
    { intros id [Hid|Hid]%Hends.
      - apply list_elem_of_fmap in Hid as (n & -> & Hn). exists (label n, node_id n). apply elem_of_matching.
        split; [done|]. rewrite Hnodes by done. eauto.
      - destruct (matching g id) as [|s l] eqn:E; [done|]. exists s. apply elem_of_matching.
        assert (s ∈ matching g id) as [<- Hsome]%elem_of_matching by (rewrite E; left).
        split; [done|]. by apply F2, N4. }
    destruct (Hex (source_node_id e)) as [s Hsm]; [apply elem_of_referenced; eauto|].
    destruct (Hex (target_node_id e)) as [t Htm]; [apply elem_of_referenced; eauto|]. split.
    + exists s, t. pose proof (proj1 (elem_of_matching _ _ _) Hsm) as [? ?].
      pose proof (proj1 (elem_of_matching _ _ _) Htm) as [? ?]. split_and!; try done.
      apply (proj1 (Hspec (EdgeKey (relationship_type e) s t (edge_id e))) (relationship_type e) r Hin).
      apply elem_of_edge_keys. by exists s, t.
    + intros ty s' t' [pr Hpr]. pose proof (Hok' _ _ _ _ _ Hpr) as Hty.
      destruct (merged_cases (edge_rows p) g' (EdgeKey ty s' t' (edge_id e))) as [(ty2 & r2 & Hin2 & Hk2)|Hno].
      * apply elem_of_edge_rows in Hin2 as (e2 & He2 & -> & ->).
        apply elem_of_edge_keys in Hk2 as (s2 & t2 & [? _]%elem_of_matching & [? _]%elem_of_matching & [= -> -> -> E]).
        by rewrite (edge_rows_unique p e e2 (distinct_edges p Hd) He He2 E).
      * apply (proj2 (Hspec _) Hno) in Hpr as [_ Hst]. specialize (Hst _ _ Hin). unfold stale in Hst.
        rewrite Hty in Hst. cbn [er_id er_source er_target er_type r edge_row_of text_prop] in Hst.
        rewrite String.eqb_refl in Hst. apply orb_false_iff in Hst as [[H1 H2]%orb_false_iff H3]. to_prop. done.
  - intros k Hk Hka. rewrite F1; [by apply N3|]. unfold assertion_ids. rewrite map_map. exact Hka.
  - intros ty s t id Hid. rewrite F3. simpl. rewrite <- N1. apply option_eq. intros pr.
    rewrite (proj2 (Hm (EdgeKey ty s t id))).
    + split; [tauto|]. intros Hl. split; [done|]. intros ty2 r2 (e2 & He2 & -> & ->)%elem_of_edge_rows.
      apply stale_other. simpl. intros ->. apply Hid. by apply list_elem_of_fmap_2.
    + intros ty2 r2 (e2 & He2 & -> & ->)%elem_of_edge_rows (s2 & t2 & [=])%edge_keys_id. subst. apply Hid.
      by apply list_elem_of_fmap_2.
Qed.

(** Syncing again changes nothing: replaying a plan whose sync succeeded,
    with any batch size, succeeds and leaves the graph as it is. *)
Theorem sync_idempotent p size size' g g' :
  (1 ≤ size)%nat → (1 ≤ size')%nat → plan_distinct p →
  sync_live_graph payload_json p size g = (Ok (), g') →
  sync_live_graph payload_json p size' g' = (Ok (), g').
Proof.
  intros Hs Hs' Hd Hsync. rewrite (batch_size_irrelevant p size' size) by (done || apply Hd).
  pose proof (sync_outcome p size g _ g' Hs Hsync) as [Hg' Hends].
  destruct (effect_frame p size g Hs Hd) as (m & Hm & Hf & Hsrc & Htgt). rewrite <- Hg' in Hf, Hsrc, Htgt.
  assert (fold_left run_clause (sync_clauses payload_json p size) g' = g') as Hnoop.
  { destruct (effect_phases p size g' Hs (distinct_edges p Hd)) as (m' & Hm' & ->).
    assert (after_nodes p g' = g') as En.
    { apply put_nodes_noop. intros l r. rewrite ordered_nodes_perm. intros (n & [= -> ->] & Hn)%list_elem_of_fmap.
      rewrite Hg'. by apply effect_nodes. }
    rewrite En in Hm' |- *.
    assert (m' = rels g') as ->.
    { eapply edges_spec_unique; [reflexivity|exact Hm'|].
      exact (effect_edges p (after_nodes p g) m g' Hd Hm Hf). }
    assert (mkGraph (nodes g') (rels g') = g') as -> by (by destruct g').
    rewrite (fold_noop merge_assertion (assertion_rows p) g'); [|intros r Hr; by apply source_done_noop, Hsrc].
    apply fold_noop. intros r Hr. by apply target_done_noop, Htgt. }
  unfold sync_live_graph in Hsync |- *. destruct (raise_if _ with _; _) as [u|e]; [|done].
  destruct (sync_clauses payload_json p size) as [|c cs]; [done|]. unfold run_transaction in *.
  assert (missing_endpoints g' (required_endpoint_node_ids p) = []) as ->; [|by rewrite Hnoop].
  unfold missing_endpoints. apply filter_none, list.Forall_forall. intros id Hid Hnil.
  unfold required_endpoint_node_ids in Hid. rewrite elem_of_sorted_set, elem_of_difference, elem_of_list_to_set in Hid.
  destruct Hid as [Hid Hn]. destruct (Hends id Hid) as [|Hex]; [done|].
  destruct (matching g id) as [|k l] eqn:E; [done|].
  assert (k ∈ matching g id) as [<- Hk]%elem_of_matching by (rewrite E; left).
  assert (k ∈ matching g' k.2) as Hin; [|rewrite Hnil in Hin; by apply elem_of_nil in Hin].
  apply elem_of_matching. split; [done|]. destruct Hf as (_ & F2 & _). apply F2.
  by apply (after_nodes_spec p g (distinct_nodes p Hd)).
Qed.
End phases.
End SyncTheorems.

(** ** Examples *)
Module SyncExamples.
Import LiveGraph Sync SyncTheorems.

Definition size_json (d : pdict) : string := String.concat "" (map (λ _, "1") d).
Definition company (id : string) : GraphNodeRecord :=
  mkNode id ("ENT_" ++ id) "Entity" [(PStr "sector", PStr "power"); (PStr "node_id", PStr "spoofed")] 10 20.
Definition supplies (source target : string) : GraphEdgeRecord :=
  mkEdge "D2" source target "SUPPLY_CHAIN" [(PStr "tier", PInt 1); (PStr "mixed", PList [PInt 1; PStr "a"])]
    (float_of_Z 2) 10 10.
Definition announced : GraphAssertionRecord :=
  mkAssertion "A1" "N1" (Some "N2") "announcement" [] (float_of_Z 1) 30.
Definition plan_of (ns : list GraphNodeRecord) (es : list GraphEdgeRecord) (assertions : list GraphAssertionRecord) :
    PromotionPlan := mkPlan "CYCLE_1" "SEL_1" [] ns es assertions 99.
Definition first_plan : PromotionPlan := plan_of [company "N1"; company "N2"; company "N3"] [supplies "N1" "N2"] [announced].
(** The edge moves to another target. *)
Definition second_plan : PromotionPlan := plan_of [] [supplies "N1" "N3"] [].
Definition sync (p : PromotionPlan) (size : nat) (g : graph) : result sync_error () * graph :=
  sync_live_graph size_json p size g.
Definition first_graph : graph := (sync first_plan 500 empty_graph).2.

Example first_sync :
  (sync first_plan 500 empty_graph).1 = Ok () ∧
  (map fst (map_to_list (nodes first_graph)) ≡ₚ
     [("Entity", "N1"); ("Entity", "N2"); ("Entity", "N3"); ("Assertion", "A1")]) ∧
  size (rels first_graph) = 3%nat ∧
  (nodes first_graph !! ("Entity", "N1") ≫= lookup "node_id") = Some (text_prop "N1") ∧
  (rels first_graph !! EdgeKey "SUPPLY_CHAIN" ("Entity", "N1") ("Entity", "N2") "D2" ≫= lookup "mixed") = None.
Proof.
  split_and!; try (vm_compute; reflexivity).
  apply (bool_decide_unpack _). vm_compute. exact I.
Qed.
Example moved_edge :
  let g := (sync second_plan 1 first_graph).2 in
  rels g !! EdgeKey "SUPPLY_CHAIN" ("Entity", "N1") ("Entity", "N2") "D2" = None ∧
  is_Some (rels g !! EdgeKey "SUPPLY_CHAIN" ("Entity", "N1") ("Entity", "N3") "D2").
Proof. split; [vm_compute; reflexivity|]. apply (bool_decide_unpack _). vm_compute. exact I. Qed.
Example endpoints_must_exist :
  sync second_plan 1 empty_graph = (Err (MissingEndpoints ["N1"; "N3"]), empty_graph).
Proof. vm_compute. reflexivity. Qed.
Example labels_are_checked :
  (sync (plan_of [mkNode "N1" "E" "Person" [] 0 0] [] []) 1 empty_graph).1 = Err (UnsupportedNodeLabel "Person").
Proof. vm_compute. reflexivity. Qed.

Lemma first_plan_distinct : plan_distinct first_plan.
Proof.
  split; [| | |intros a Ha; apply list_elem_of_singleton in Ha as ->; split];
    apply (bool_decide_unpack _); vm_compute; exact I.
Qed.
Lemma second_plan_distinct : plan_distinct second_plan.
Proof.
  split; [| | |intros a Ha; by apply elem_of_nil in Ha]; apply (bool_decide_unpack _); vm_compute; exact I.
Qed.

Lemma batch_size_irrelevant_witness :
  edge_ids_distinct first_plan ∧ sync first_plan 1 empty_graph = sync first_plan 500 empty_graph.
Proof.
  split; [apply first_plan_distinct|].
  apply (batch_size_irrelevant size_json first_plan 1 500); [lia|lia|apply first_plan_distinct].
Defined.

Lemma sync_mirrors_plan_witness :
  let '(res, g) := sync second_plan 1 first_graph in
  res = Ok () ∧ nodes g !! ("Entity", "N2") = nodes first_graph !! ("Entity", "N2") ∧
  ∀ ty s t, is_Some (rels g !! EdgeKey ty s t "D2") → ty = "SUPPLY_CHAIN" ∧ s.2 = "N1" ∧ t.2 = "N3".
Proof.
  assert (graph_ok first_graph) as Hok.
  { pose proof (sync_mirrors_plan size_json first_plan 500 empty_graph) as H.
    destruct (sync_live_graph size_json first_plan 500 empty_graph) as [res g] eqn:E.
    assert (first_graph = g) as -> by (unfold first_graph, sync; rewrite E; reflexivity).
    assert (res = Ok ()) as -> by (change (fst (res, g) = Ok ()); rewrite <- E; vm_compute; reflexivity).
    apply (H (Ok ()) g); [lia|apply first_plan_distinct| |reflexivity].
    intros ty s t id p [=]. }
  destruct (sync second_plan 1 first_graph) as [res g] eqn:E.
  assert (res = Ok ()) as -> by (change (fst (res, g) = Ok ()); rewrite <- E; vm_compute; reflexivity).
  destruct (sync_mirrors_plan size_json second_plan 1 first_graph (Ok ()) g) as (_ & _ & He & Hk & _);
    [lia|apply second_plan_distinct|exact Hok|exact E|].
  split; [reflexivity|]. split.
  - apply Hk; apply not_elem_of_nil.
  - apply (He (supplies "N1" "N3")). left.
Defined.

Lemma sync_idempotent_witness :
  sync first_plan 2 first_graph = (Ok (), first_graph).
Proof.
  assert ((sync first_plan 500 empty_graph).1 = Ok ()) as Hok by (vm_compute; reflexivity).
  apply (sync_idempotent size_json first_plan 500 2 empty_graph first_graph);
    [lia|lia|apply first_plan_distinct|].
  change (sync first_plan 500 empty_graph = (Ok (), first_graph)). rewrite <- Hok. apply surjective_pairing.
Defined.
End SyncExamples.
