(* ===== verification/LiveMetrics.v ===== *)
(** * LiveMetrics: what the live graph amounts to

    [Metrics] is [graph_engine/live_metrics.py]: the metrics query, the
    normalisation of its rows and the checksum. [Snapshots] is the part of
    [snapshots/generator.py] that turns a reading into the published
    [GraphSnapshot] of [contracts/schemas/graph.py], and [Consistency] the
    check of [status/consistency.py] with the bridge of [reload/service.py]
    from a snapshot back to metrics.

    The database returns property maps and lists as values of [pyval]; a date
    or any other object of its driver is [POther], of its text. *)
From Stdlib Require Import String Ascii ZArith List SpecFloat.
From stdpp Require Import base gmap strings list sorting pretty.
From S2P Require Import Prelude PyLib GraphStatus Promotion LiveSync.
Import PromotionModel Evidence LiveGraph.
Local Open Scope string_scope.
Local Open Scope Z_scope.

Inductive metrics_error :=
| MalformedRows | MalformedRow | IncompleteRow
| MalformedField (name : string) | NegativeField (name : string)
| MalformedLabelCounts | MissingLabel | MalformedLabelCount
| MalformedMapping.

Module Metrics.

Section metrics.
Context `{PyText}.

(** The list under a key [labels] is sorted. *)
Definition sort_labels (k : string) (raw normal : pyval) : pyval :=
  match String.eqb k "labels", raw, normal with
  | true, PList _, PList l => PList (sort_on stable_json l)
  | _, _, _ => normal
  end.

(** [_jsonable] *)
Fixpoint jsonable (v : pyval) : pyval :=
  match v with
  | PNone | PBool _ | PInt _ | PFloat _ | PStr _ => v
  | PList l | PTuple l => PList (map jsonable l)
  | PDict d =>
      PDict (dict_of (sort_on fst
        (map (λ kv, match kv with (k, x) => (py_str k, sort_labels (py_str k) x (jsonable x)) end) d)))
  | POther text => PStr text
  end.

Definition jsonable_mapping (v : pyval) : result metrics_error pdict :=
  match jsonable v with PDict d => Ok d | _ => Err MalformedMapping end.

(** [sorted(values, key=_stable_json)] of normalised values *)
Definition sorted_payload_list (values : list pyval) : list pyval := sort_on stable_json (map jsonable values).
(** [checksum_payload] *)
Definition checksum_payload (payload : pyval) : string :=
  hexdigest_prefix sha256 64 (stable_json (jsonable payload)).

Definition structural_payload (nodes_count edges_count : Z) (ns rs : list pdict) : pyval :=
  PDict [(PStr "node_count", PInt nodes_count); (PStr "edge_count", PInt edges_count);
    (PStr "nodes", PList (sorted_payload_list (map PDict ns)));
    (PStr "relationships", PList (sorted_payload_list (map PDict rs)))].

Record LiveGraphMetrics := mkMetrics {
  lm_node_count : Z;
  lm_edge_count : Z;
  lm_label_counts : gmap string Z;
  lm_checksum : string;
  lm_nodes : list pdict;
  lm_relationships : list pdict;
}.

(** *** Reading the rows, strictly *)

Definition single_metrics_row (rows : list pyval) : result metrics_error pdict :=
  match rows with
  | [PDict row] =>
      raise_if negb (forallb (λ k, phas k row) ["node_count"; "edge_count"; "label_counts"; "nodes"; "relationships"])
        with IncompleteRow;
      Ok row
  | [_] => Err MalformedRow
  | _ => Err MalformedRows
  end.

Definition int_field (row : pdict) (name : string) : result metrics_error Z :=
  match pget name row with
  | Some (PInt z) => raise_if z <? 0 with NegativeField name; Ok z
  | _ => Err (MalformedField name)
  end.
Definition list_field (row : pdict) (name : string) : result metrics_error (list pyval) :=
  match pget name row with Some (PList l) => Ok l | _ => Err (MalformedField name) end.

Definition add_label_count (counts : gmap string Z) (item : pyval) : result metrics_error (gmap string Z) :=
  match item with
  | PDict d =>
      match pget "label" d, pget "count" d with
      | Some (PStr label), Some (PInt count) =>
          raise_if count <? 0 with MalformedLabelCount; Ok (<[label := count]> counts)
      | Some (PStr _), _ => Err MalformedLabelCount
      | _, _ => Err MissingLabel
      end
  | _ => Err MalformedLabelCounts
  end.
Definition strict_label_counts (row : pdict) : result metrics_error (gmap string Z) :=
  match pget "label_counts" row with
  | Some (PList items) => rfold add_label_count ∅ items
  | _ => Err MalformedLabelCounts
  end.

(** [read_live_graph_metric_payload(client, strict=True)] *)
Definition read_live_graph_metric_payload (rows : list pyval) : result metrics_error LiveGraphMetrics :=
  let* row := single_metrics_row rows in
  let* node_count := int_field row "node_count" in
  let* edge_count := int_field row "edge_count" in
  let* labels := strict_label_counts row in
  let* ns := list_field row "nodes" in
  let* rs := list_field row "relationships" in
  let* normal_nodes := rmap_list jsonable_mapping ns in
  let* normal_rels := rmap_list jsonable_mapping rs in
  Ok (mkMetrics node_count edge_count labels
    (checksum_payload (structural_payload node_count edge_count normal_nodes normal_rels))
    normal_nodes normal_rels).

(** *** The query *)

Definition live_value (p : prop) : pyval := match p with PvVal v => v | PvTime t => POther (isoformat t) end.
Definition live_properties (p : props) : pdict := map (λ kv, (PStr kv.1, live_value kv.2)) (map_to_list p).
Definition live_property (k : string) (p : props) : pyval := match p !! k with Some v => live_value v | None => PNone end.

Definition node_entry (n : node_key * props) : pyval :=
  PDict [(PStr "labels", PList [PStr n.1.1]); (PStr "node_id", live_property "node_id" n.2);
    (PStr "canonical_entity_id", live_property "canonical_entity_id" n.2);
    (PStr "properties", PDict (live_properties n.2))].

Definition rel_ends (k : rel_key) : node_key * node_key :=
  match k with EdgeKey _ s t _ => (s, t) | LinkKey s t _ _ => (s, t) end.
Definition rel_type (k : rel_key) : string :=
  match k with EdgeKey type _ _ _ => type | LinkKey _ _ _ _ => "ASSERTION_LINK" end.
Definition end_id (g : graph) (k : node_key) : pyval := live_property "node_id" (default ∅ (nodes g !! k)).
Definition rel_entry (g : graph) (r : rel_key * props) : pyval :=
  PDict [(PStr "source_node_id", end_id g (rel_ends r.1).1); (PStr "target_node_id", end_id g (rel_ends r.1).2);
    (PStr "relationship_type", PStr (rel_type r.1)); (PStr "edge_id", live_property "edge_id" r.2);
    (PStr "properties", PDict (live_properties r.2))].

Definition labels_of (ns : list (node_key * props)) : list string := map (λ n, n.1.1) ns.
Definition label_entry (ns : list (node_key * props)) (l : string) : pyval :=
  PDict [(PStr "label", PStr l); (PStr "count", PInt (Z.of_nat (length (List.filter (String.eqb l) (labels_of ns)))))].

(** [LIVE_GRAPH_METRICS_QUERY]: the nodes and relationships come in some order,
    the labels in theirs. *)
Definition metrics_rows (g : graph) (ns : list (node_key * props)) (rs : list (rel_key * props)) : list pyval :=
  [PDict [(PStr "node_count", PInt (Z.of_nat (length ns))); (PStr "edge_count", PInt (Z.of_nat (length rs)));
     (PStr "label_counts", PList (map (label_entry ns) (sorted_set (list_to_set (labels_of ns)))));
     (PStr "nodes", PList (map node_entry ns)); (PStr "relationships", PList (map (rel_entry g) rs))]].

(** A reading of the graph, in the order of its maps. *)
Definition live_metrics (g : graph) : result metrics_error LiveGraphMetrics :=
  read_live_graph_metric_payload (metrics_rows g (map_to_list (nodes g)) (map_to_list (rels g))).
End metrics.
End Metrics.

(** ** The published snapshot *)
Inductive snapshot_error :=
| SnapshotInvalid
| SnapshotEvidence
| SnapshotMetrics (e : metrics_error)
| SnapshotStatus (e : StatusModel.status_error)
| GenerationDisagrees (received status_has : Z)
| NotSingleLabel (node_id : string)
| MissingProperties (object_id : string) (keys : list string)
| MismatchedProperties (object_id : string) (keys : list string).

Module Snapshots.
Import Metrics StatusModel StatusStore StatusManager.

Record EntityReference := mkEntity {
  entity_id : string;
  entity_type : string;
  canonical_id_rule_version : string;
}.
Record GraphNode := mkGraphNode {
  gn_id : string;
  gn_labels : list string;
  gn_properties : pdict;
  gn_entity : option EntityReference;
}.
Record GraphEdge := mkGraphEdge {
  ge_id : string;
  ge_source : string;
  ge_target : string;
  ge_type : string;
  ge_properties : pdict;
  ge_evidence_refs : list string;
}.
Record GraphSnapshot := mkGraphSnapshot {
  gs_id : string;
  gs_cycle_id : string;
  gs_version : string;
  gs_created_at : Z;
  gs_node_count : Z;
  gs_edge_count : Z;
  gs_nodes : list GraphNode;
  gs_edges : list GraphEdge;
}.

(** [NonEmptyString] under [str_strip_whitespace] *)
Definition nonempty (s : string) : result snapshot_error string :=
  match text (PStr s) with Some s' => Ok s' | None => Err SnapshotInvalid end.
Definition properties_ok (d : pdict) : result snapshot_error pdict :=
  match any_dict (PDict d) with Some d' => Ok d' | None => Err SnapshotInvalid end.

(** [counts_must_match_payloads] *)
Definition endpoints_missing (ns : list GraphNode) (ends : list string) : list string :=
  sorted_set (list_to_set ends ∖ list_to_set (map gn_id ns)).
Definition counts_must_match_payloads (s : GraphSnapshot) : result snapshot_error GraphSnapshot :=
  raise_if negb (gs_node_count s =? Z.of_nat (length (gs_nodes s))) with SnapshotInvalid;
  raise_if negb (gs_edge_count s =? Z.of_nat (length (gs_edges s))) with SnapshotInvalid;
  raise_if bool_decide (endpoints_missing (gs_nodes s) (map ge_source (gs_edges s)) ≠ []) ||
    bool_decide (endpoints_missing (gs_nodes s) (map ge_target (gs_edges s)) ≠ []) with SnapshotInvalid;
  Ok s.

Section snapshots.
Context `{PyText}.

(** [a or b] for the values of two [get]s *)
Definition py_or (a b : option pyval) : option pyval :=
  match a with Some v => if truthy v then a else b | None => b end.
(** [str(v or "")] *)
Definition str_or_empty (v : option pyval) : string :=
  match v with Some x => if truthy x then py_str x else "" | None => "" end.

Definition string_values (v : option pyval) : list string :=
  match v with
  | Some (PList l) | Some (PTuple l) => sorted_strings (List.filter (λ s, negb (is_empty s)) (map py_str l))
  | None | Some PNone => []
  | Some x => if is_empty (py_str x) then [] else [py_str x]
  end.
Definition dict_value (v : option pyval) : pdict := match v with Some (PDict d) => d | _ => [] end.

Definition entity_reference (id : option pyval) (labels : list string) (rule_version : option pyval)
    : result snapshot_error (option EntityReference) :=
  match id with
  | None | Some PNone => Ok None
  | Some v =>
      if is_empty (py_str v) then Ok None
      else
        let type := lower (hd "unknown" (string_values (Some (PList (map PStr labels))))) in
        let version :=
          match rule_version with
          | None | Some PNone => "unknown"
          | Some w => if is_empty (py_str w) then "unknown" else py_str w
          end in
        let* id' := nonempty (py_str v) in
        let* type' := nonempty type in
        let* version' := nonempty version in
        Ok (Some (mkEntity id' type' version'))
  end.

Definition contract_node (node : pdict) : result snapshot_error GraphNode :=
  let labels := match string_values (pget "labels" node) with [] => ["Entity"] | l => l end in
  let properties := dict_value (pget "properties" node) in
  let* entity := entity_reference (py_or (pget "canonical_entity_id" node) (pget "canonical_entity_id" properties))
    labels (py_or (pget "canonical_id_rule_version" node) (pget "canonical_id_rule_version" properties)) in
  let* id := nonempty (str_or_empty (py_or (pget "node_id" node) (pget "node_id" properties))) in
  let* labels' := rmap_list nonempty labels in
  let* properties' := properties_ok properties in
  Ok (mkGraphNode id labels' properties' entity).

Definition contract_edge (rel : pdict) : result snapshot_error GraphEdge :=
  let properties := dict_value (pget "properties" rel) in
  let* refs := map_err (λ _, SnapshotEvidence) (evidence_refs_from_mapping properties) in
  let* id := nonempty (str_or_empty (py_or (pget "edge_id" rel) (pget "edge_id" properties))) in
  let* source := nonempty (str_or_empty (pget "source_node_id" rel)) in
  let* target := nonempty (str_or_empty (pget "target_node_id" rel)) in
  let* type := nonempty (str_or_empty (pget "relationship_type" rel)) in
  let* properties' := properties_ok properties in
  let* refs' := rmap_list nonempty refs in
  Ok (mkGraphEdge id source target type properties' refs').

(** [contracts.core.version.__version__] *)
Definition contract_version : string := "0.1.3".

Definition graph_snapshot_from_metrics (cycle_id : string) (generation : Z) (m : LiveGraphMetrics) (now : Z)
    : result snapshot_error GraphSnapshot :=
  let* ns := rmap_list contract_node (lm_nodes m) in
  let* es := rmap_list contract_edge (lm_relationships m) in
  let* cycle := nonempty cycle_id in
  let* id := nonempty ("graph-snapshot-" ++ cycle_id ++ "-" ++ pretty generation ++ "-" ++
    String.substring 0 12 (lm_checksum m)) in
  counts_must_match_payloads
    (mkGraphSnapshot id cycle contract_version now (lm_node_count m) (lm_edge_count m) ns es).

(** [build_graph_snapshot], given the metrics rows of the live graph. *)
Definition build_graph_snapshot {S} `{StatusStoreOps S} (s : S) (rows : list pyval) (cycle_id : string)
    (generation : Z) (now : Z) : result snapshot_error GraphSnapshot :=
  let* ready := map_err SnapshotStatus (require_ready s) in
  raise_if negb (generation =? graph_generation_id ready)
    with GenerationDisagrees generation (graph_generation_id ready);
  let* m := map_err SnapshotMetrics (read_live_graph_metric_payload rows) in
  graph_snapshot_from_metrics cycle_id generation m now.
End snapshots.
End Snapshots.

(** ** Consistency of a snapshot with the live graph *)
Module Consistency.
Import Metrics Snapshots StatusModel StatusManager.

Inductive ConsistencySnapshot :=
| MetricsSnapshot (m : GraphMetricsSnapshot)
| FullSnapshot (s : GraphSnapshot).

Record metric_values := mkValues {
  mv_generation : option Z;
  mv_node_count : Z;
  mv_edge_count : Z;
  mv_label_counts : gmap string Z;
  mv_checksum : string;
}.

Section consistency.
Context `{PyText}.

Definition count_label (counts : gmap string Z) (l : string) : gmap string Z :=
  <[l := default 0 (counts !! l) + 1]> counts.
Definition count_node (counts : gmap string Z) (n : GraphNode) : gmap string Z :=
  fold_left count_label (sorted_strings (gn_labels n)) counts.
Definition snapshot_labels (s : GraphSnapshot) : gmap string Z := fold_left count_node (gs_nodes s) ∅.

Definition node_payload (n : GraphNode) : pdict :=
  [(PStr "labels", PList (map PStr (sorted_strings (gn_labels n)))); (PStr "node_id", PStr (gn_id n));
   (PStr "canonical_entity_id",
      match gn_entity n with
      | Some e => PStr (entity_id e)
      | None => default PNone (pget "canonical_entity_id" (gn_properties n))
      end);
   (PStr "properties", PDict (gn_properties n))].
Definition edge_payload (e : GraphEdge) : result snapshot_error pdict :=
  let* refs := map_err (λ _, SnapshotEvidence)
    (evidence_refs_from_value false (Some (PList (map PStr (ge_evidence_refs e))))) in
  let properties :=
    match refs with [] => ge_properties e | _ => pset "evidence_refs" (PList (map PStr refs)) (ge_properties e) end in
  Ok [(PStr "source_node_id", PStr (ge_source e)); (PStr "target_node_id", PStr (ge_target e));
      (PStr "relationship_type", PStr (ge_type e)); (PStr "edge_id", PStr (ge_id e));
      (PStr "properties", PDict properties)].

(** [_snapshot_metric_values] *)
Definition snapshot_metric_values (s : ConsistencySnapshot) : result snapshot_error metric_values :=
  match s with
  | MetricsSnapshot m =>
      Ok (mkValues (Some (snap_generation_id m)) (snap_node_count m) (snap_edge_count m) (snap_label_counts m)
        (snap_checksum m))
  | FullSnapshot g =>
      let* es := rmap_list edge_payload (gs_edges g) in
      Ok (mkValues None (gs_node_count g) (gs_edge_count g) (snapshot_labels g)
        (checksum_payload (structural_payload (gs_node_count g) (gs_edge_count g)
          (map node_payload (gs_nodes g)) es)))
  end.

(** [_check_live_graph_consistency_after_status], given what the reader and
    the metrics query return. *)
Definition check_after_status {E} (snapshot : result E ConsistencySnapshot) (rows : list pyval)
    (status : option Neo4jGraphStatus) : bool :=
  match snapshot with
  | Err _ => false
  | Ok s =>
      match snapshot_metric_values s with
      | Err _ => false
      | Ok v =>
          if match status, mv_generation v with Some _, None => true | _, _ => false end then false
          else
            match read_live_graph_metric_payload rows with
            | Err _ => false
            | Ok m =>
                if match status with
                   | Some st => negb (bool_decide (mv_generation v = Some (graph_generation_id st)))
                   | None => false
                   end then false
                else
                  (mv_node_count v =? lm_node_count m) && (mv_edge_count v =? lm_edge_count m) &&
                  bool_decide (mv_label_counts v = lm_label_counts m) && String.eqb (mv_checksum v) (lm_checksum m)
            end
      end
  end.

(** [check_live_graph_consistency]; [store] is the status manager's, if any. *)
Definition check_live_graph_consistency {S E} `{StatusStore.StatusStoreOps S} (must_be_ready : bool) (store : option S)
    (snapshot : result E ConsistencySnapshot) (rows : list pyval) : result (option status_error) bool :=
  if must_be_ready then
    match store with
    | None => Err None
    | Some s =>
        let* ready := map_err Some (require_ready s) in Ok (check_after_status snapshot rows (Some ready))
    end
  else
    match store with
    | None => Ok (check_after_status snapshot rows None)
    | Some s =>
        match get_status s with
        | Ok st => Ok (check_after_status snapshot rows (Some st))
        | Err NotInitialized => Ok (check_after_status snapshot rows None)
        | Err e => Err (Some e)
        end
    end.

(** *** From a snapshot back to metrics: [reload/service.py] *)

Definition require_snapshot_properties (id : string) (properties : pdict) (keys : list string)
    : result snapshot_error () :=
  let missing := sorted_strings (List.filter (λ k, negb (phas k properties)) keys) in
  raise_if bool_decide (missing ≠ []) with MissingProperties id missing; Ok ().

Definition has_text (k s : string) (properties : pdict) : bool :=
  match pget k properties with Some (PStr x) => String.eqb x s | _ => false end.
Definition mismatches (expected : list (string * string)) (properties : pdict) : list string :=
  map fst (List.filter (λ ks, negb (has_text ks.1 ks.2 properties)) expected).
Definition require_properties_match (id : string) (expected : list (string * string)) (properties : pdict)
    : result snapshot_error () :=
  raise_if bool_decide (mismatches expected properties ≠ [])
    with MismatchedProperties id (mismatches expected properties);
  Ok ().

Definition validate_node (n : GraphNode) : result snapshot_error () :=
  match gn_labels n with
  | [label] =>
      let* _ := require_snapshot_properties (gn_id n) (gn_properties n)
        ["node_id"; "label"; "properties_json"; "created_at"; "updated_at"] in
      let* _ := match gn_entity n with
                | Some _ => require_snapshot_properties (gn_id n) (gn_properties n) ["canonical_entity_id"]
                | None => Ok ()
                end in
      require_properties_match (gn_id n)
        ([("node_id", gn_id n); ("label", label)] ++
         match gn_entity n with Some e => [("canonical_entity_id", entity_id e)] | None => [] end) (gn_properties n)
  | _ => Err (NotSingleLabel (gn_id n))
  end.
Definition validate_edge (e : GraphEdge) : result snapshot_error () :=
  let* _ := require_snapshot_properties (ge_id e) (ge_properties e)
    ["edge_id"; "source_node_id"; "target_node_id"; "relationship_type"; "weight"; "properties_json"; "created_at";
     "updated_at"] in
  require_properties_match (ge_id e)
    [("edge_id", ge_id e); ("source_node_id", ge_source e); ("target_node_id", ge_target e);
     ("relationship_type", ge_type e)] (ge_properties e).

Definition metrics_snapshot_from_graph_snapshot (g : GraphSnapshot) (generation : Z)
    : result snapshot_error GraphMetricsSnapshot :=
  let* _ := riter validate_node (gs_nodes g) in
  let* es := rmap_list (λ e, let* _ := validate_edge e in edge_payload e) (gs_edges g) in
  raise_if generation <? 0 with SnapshotInvalid;
  Ok (mkSnapshot generation (gs_node_count g) (gs_edge_count g) (snapshot_labels g)
    (checksum_payload (structural_payload (gs_node_count g) (gs_edge_count g) (map node_payload (gs_nodes g)) es))).
End consistency.
End Consistency.

Module MetricsTheorems.
Import Metrics.

(** ** Sorting by a text *)

Lemma map_sort_insert {A} (key : A → string) x l :
  map key (sort_insert (λ x y, String.leb (key x) (key y)) x l) = sort_insert String.leb (key x) (map key l).
Proof. induction l as [|y l IH]; simpl; [done|]. destruct (String.leb (key x) (key y)); simpl; congruence. Qed.

Lemma map_sort_on {A} (key : A → string) l : map key (sort_on key l) = sorted_strings (map key l).
Proof.
  unfold sort_on, sorted_strings, py_sort. induction l as [|x l IH]; simpl; [done|].
  rewrite map_sort_insert. by f_equal.
Qed.

(** A dictionary built from sorted entries is sorted, and holds only those entries. *)
Definition key_text (kv : pyval * pyval) : string := match kv.1 with PStr s => s | _ => "" end.

Lemma pset_sub k v d kv : kv ∈ pset k v d → kv = (PStr k, v) ∨ kv ∈ d.
Proof.
  induction d as [|[k' v'] d IH]; simpl.
  - intros ->%list_elem_of_singleton. by left.
  - destruct (is_key k k') eqn:E; intros [->|Hin]%elem_of_cons.
    + left. destruct k'; simpl in E; try done. by apply String.eqb_eq in E as ->.
    + right. by right.
    + right. left.
    + destruct (IH Hin) as [->|?]; [by left|right; by right].
Qed.

Lemma dict_of_sub l kv : kv ∈ dict_of l → ∃ k v, kv = (PStr k, v) ∧ (k, v) ∈ l.
Proof.
  unfold dict_of. assert (∀ acc, kv ∈ fold_left (λ d kv, pset kv.1 kv.2 d) l acc →
    kv ∈ acc ∨ ∃ k v, kv = (PStr k, v) ∧ (k, v) ∈ l) as H.
  { induction l as [|[k v] l IH]; intros acc; simpl; [auto|]. intros [Hin|(k' & v' & -> & Hin)]%IH.
    - apply pset_sub in Hin as [->|?]; [|auto]. right. exists k, v. split; [done|left].
    - right. exists k', v'. split; [done|by right]. }
  intros [Hin|?]%H; [by apply elem_of_nil in Hin|done].
Qed.

Lemma pset_key_texts k v d :
  map key_text (pset k v d) = if phas k d then map key_text d else (map key_text d ++ [k])%list.
Proof.
  unfold phas. induction d as [|[k' v'] d IH]; simpl; [done|].
  destruct (is_key k k') eqn:E; simpl; [done|]. rewrite IH. by destruct (pget k d).
Qed.

Lemma StronglySorted_map {A B} (R : B → B → Prop) (f : A → B) l :
  StronglySorted R (map f l) ↔ StronglySorted (λ x y, R (f x) (f y)) l.
Proof.
  induction l as [|x l IH]; simpl; [split; constructor|]. split; inversion 1; subst; constructor; try by apply IH.
  - by apply Forall_fmap.
  - by apply Forall_fmap.
Qed.

Lemma dict_of_sorted l :
  StronglySorted String.leb (map fst l) → StronglySorted String.leb (map key_text (dict_of l)).
Proof.
  unfold dict_of. assert (∀ acc, StronglySorted String.leb (map key_text acc) →
    (∀ a b, a ∈ map key_text acc → b ∈ map fst l → String.leb a b) → StronglySorted String.leb (map fst l) →
    StronglySorted String.leb (map key_text (fold_left (λ d kv, pset kv.1 kv.2 d) l acc))) as H.
  { induction l as [|[k v] l IH]; intros acc Ha Hab Hl; simpl; [done|]. inversion Hl as [|? ? Hl' Hk]; subst.
    rewrite list.Forall_forall in Hk. apply IH; [| |done]; rewrite pset_key_texts; destruct (phas k acc).
    - done.
    - apply StronglySorted_app. split_and!; [|done|repeat constructor].
      intros a b Hin ->%list_elem_of_singleton. apply Hab; [done|left].
    - intros a b Hin Hb. apply Hab; [done|by right].
    - intros a b [Hin| ->%list_elem_of_singleton]%elem_of_app Hb; [apply Hab; [done|by right]|by apply Hk]. }
  intros Hl. apply H; [constructor| |done]. intros a b Hin. by apply elem_of_nil in Hin.
Qed.

(** ** Normal values *)
Section normal.
Context `{PyText}.

Fixpoint tuple_free (v : pyval) : bool :=
  match v with
  | PList l => forallb tuple_free l
  | PTuple _ => false
  | PDict d => forallb (λ kv, match kv with (_, x) => tuple_free x end) d
  | _ => true
  end.

Lemma sort_labels_normal k x :
  tuple_free x = true → jsonable (jsonable x) = jsonable x →
  sort_labels k (sort_labels k x (jsonable x)) (jsonable (sort_labels k x (jsonable x))) =
    sort_labels k x (jsonable x).
Proof.
  intros Ht Hx. unfold sort_labels at 2 3 4. destruct (String.eqb k "labels") eqn:Ek.
  - destruct x; try (simpl; unfold sort_labels; by rewrite Ek); try done.
    + unfold sort_labels. rewrite Ek. cbn [jsonable] in Hx |- *. injection Hx as Hx.
      assert (map jsonable (sort_on stable_json (map jsonable l)) = sort_on stable_json (map jsonable l)) as E.
      { assert (Forall (λ y, jsonable y = y) (map jsonable l)) as Hf.
        { clear - Hx. revert Hx. generalize (map jsonable l) as l'. induction l' as [|y l' IH]; simpl; constructor.
          - by injection Hx.
          - apply IH. by injection Hx. }
        assert (Forall (λ y, jsonable y = y) (sort_on stable_json (map jsonable l))) as Hs
          by (unfold sort_on; by rewrite py_sort_perm).
        clear - Hs. induction Hs as [|y l' Hy _ IH]; simpl; congruence. }
      rewrite E. rewrite sort_on_id; [done|]. apply sort_on_sorted.
  - rewrite Hx. unfold sort_labels. by rewrite Ek.
Qed.

(** [_jsonable] twice is [_jsonable]. *)
Lemma jsonable_idemp v : tuple_free v = true → jsonable (jsonable v) = jsonable v.
Proof.
  induction v as [| | | | | |l IH|l IH|d IH] using pyval_rect_nested; intros Ht; try done.
  - cbn [jsonable]. f_equal. cbn [tuple_free] in Ht. induction IH as [|x l Hx _ IHl]; [done|].
    cbn [map forallb] in *. apply andb_true_iff in Ht as [H1 H2]. by rewrite (Hx H1), IHl.
  - cbn [jsonable]. set (L := map _ d). set (E := dict_of (sort_on fst L)). f_equal.
    destruct (dict_of_keys (sort_on fst L)) as [Hnd Hkeys]. fold E in Hnd, Hkeys.
    assert (forallb (λ kv : pyval * pyval, is_str kv.1) E = true) as Hstr.
    { apply forallb_forall. intros kv Hin%list_elem_of_In. rewrite list.Forall_forall in Hkeys.
      destruct (Hkeys _ Hin) as (k & E1 & _). by rewrite E1. }
    assert (∀ kv, kv ∈ E → ∃ k v, kv = (PStr k, v) ∧ sort_labels k v (jsonable v) = v) as Hval.
    { intros kv (k & v & -> & Hin)%dict_of_sub. exists k, v. split; [done|]. apply elem_of_py_sort in Hin.
      apply list_elem_of_fmap in Hin as ([k' x] & [= -> ->] & Hin). rewrite list.Forall_forall in IH.
      apply sort_labels_normal; [|apply (IH _ Hin)].
      all: cbn [tuple_free] in Ht; apply forallb_forall with (x := (k', x)) in Ht; [done|by apply list_elem_of_In]. }
    assert (map (λ kv, match kv with (k, x) => (py_str k, sort_labels (py_str k) x (jsonable x)) end) E =
      map (λ kv, (key_text kv, kv.2)) E) as ->.
    { apply map_ext_in. intros kv Hin%list_elem_of_In. destruct (Hval kv Hin) as (k & v & -> & Hv).
      rewrite py_str_text. by rewrite Hv. }
    rewrite sort_on_id.
    + apply (dict_of_fresh E Hnd Hstr).
    + apply (StronglySorted_map String.leb fst). rewrite map_map. apply dict_of_sorted.
      rewrite map_sort_on. apply sorted_strings_sorted.
Qed.
(** ** The checksum of a payload forgets the order of its parts *)

Definition normal (d : pdict) : Prop := jsonable (PDict d) = PDict d.

Lemma sorted_payload_text ds ds' :
  Forall normal ds → ds ≡ₚ ds' →
  map stable_json (map jsonable (sorted_payload_list (map PDict ds))) =
  map stable_json (map jsonable (sorted_payload_list (map PDict ds'))).
Proof.
  assert (∀ l, Forall normal l → map stable_json (map jsonable (sorted_payload_list (map PDict l))) =
    sorted_strings (map stable_json (map PDict l))) as H'.
  { intros l Hl. unfold sorted_payload_list.
    assert (∀ vs, Forall (λ v, jsonable v = v) vs → map jsonable vs = vs) as Hid
      by (induction 1; simpl; congruence).
    assert (Forall (λ v, jsonable v = v) (map PDict l)) as Hn by (by apply list.Forall_fmap).
    rewrite (Hid _ Hn), Hid; [apply map_sort_on|]. unfold sort_on. by rewrite py_sort_perm. }
  intros Hn Hp. rewrite (H' ds Hn), (H' ds' (Permutation_Forall Hp Hn)).
  apply sorted_strings_unique. by rewrite Hp.
Qed.

Lemma jsonable_structural nc ec ns rs :
  jsonable (structural_payload nc ec ns rs) =
  PDict [(PStr "edge_count", PInt ec); (PStr "node_count", PInt nc);
    (PStr "nodes", PList (map jsonable (sorted_payload_list (map PDict ns))));
    (PStr "relationships", PList (map jsonable (sorted_payload_list (map PDict rs))))].
Proof.
  unfold structural_payload. cbn [jsonable map]. rewrite !py_str_text.
  generalize (map jsonable (sorted_payload_list (map PDict ns))) as a.
  generalize (map jsonable (sorted_payload_list (map PDict rs))) as b. reflexivity.
Qed.

Lemma checksum_perm nc ec ns ns' rs rs' :
  Forall normal ns → Forall normal rs → ns ≡ₚ ns' → rs ≡ₚ rs' →
  checksum_payload (structural_payload nc ec ns rs) = checksum_payload (structural_payload nc ec ns' rs').
Proof.
  intros Hn Hr Hpn Hpr. unfold checksum_payload. rewrite !jsonable_structural. f_equal.
  cbn [stable_json map]. rewrite (sorted_payload_text ns ns' Hn Hpn), (sorted_payload_text rs rs' Hr Hpr). done.
Qed.

(** ** Reading the graph *)

(** Values as the synchronisation stores them. *)
Definition prop_plain (p : prop) : Prop :=
  match p with PvVal v => Sync.is_neo4j_property_value v = true | PvTime _ => True end.
Definition props_plain (p : props) : Prop := map_Forall (λ _ v, prop_plain v) p.
Definition graph_plain (g : graph) : Prop :=
  map_Forall (λ _ p, props_plain p) (nodes g) ∧ map_Forall (λ _ p, props_plain p) (rels g).

Lemma plain_tuple_free v : Sync.is_neo4j_property_value v = true → tuple_free v = true.
Proof.
  destruct v as [| | | | |l| | |]; try done. simpl. destruct l as [|x l]; [done|].
  destruct (Sync.neo4j_scalar_property_type x) as [t|] eqn:Ex; [|done]. intros [Hx Hl]%andb_true_iff.
  simpl. apply andb_true_iff. split; [by destruct x|]. apply forallb_forall. intros y Hy.
  apply forallb_forall with (x := y) in Hl; [|done]. apply bool_decide_eq_true in Hl. by destruct y.
Qed.

Lemma live_value_free v : prop_plain v → tuple_free (live_value v) = true.
Proof. destruct v; simpl; [apply plain_tuple_free|done]. Qed.

Lemma live_property_free k p : props_plain p → tuple_free (live_property k p) = true.
Proof. unfold live_property. intros Hp. destruct (p !! k) eqn:E; [|done]. by eapply live_value_free, Hp. Qed.

Lemma live_properties_free p : props_plain p → tuple_free (PDict (live_properties p)) = true.
Proof.
  intros Hp. cbn [tuple_free]. apply forallb_forall. unfold live_properties. intros [k v] Hin.
  apply in_map_iff in Hin as ([k' w] & [= <- <-] & Hin). apply live_value_free.
  eapply Hp. by apply elem_of_map_to_list, list_elem_of_In.
Qed.

Lemma node_entry_free n : props_plain n.2 → tuple_free (node_entry n) = true.
Proof.
  intros Hp. unfold node_entry. pose proof (live_properties_free _ Hp) as Hl.
  cbn [tuple_free forallb] in *. rewrite !live_property_free by done. cbn [andb]. by rewrite Hl.
Qed.

Lemma rel_entry_free g r : graph_plain g → props_plain r.2 → tuple_free (rel_entry g r) = true.
Proof.
  intros [Hg _] Hp. unfold rel_entry. pose proof (live_properties_free _ Hp) as Hl.
  assert (∀ k, tuple_free (end_id g k) = true) as Hend.
  { intros k. apply live_property_free. destruct (nodes g !! k) eqn:E; [by eapply Hg|apply map_Forall_empty]. }
  cbn [tuple_free forallb] in *. rewrite !Hend, !live_property_free by done. cbn [andb]. by rewrite Hl.
Qed.
Lemma jsonable_entry d : tuple_free (PDict d) = true → ∃ d', jsonable_mapping (PDict d) = Ok d' ∧ normal d'.
Proof.
  intros Hd. eexists. split; [reflexivity|]. pose proof (jsonable_idemp _ Hd) as E. exact E.
Qed.

Lemma read_mappings (vs : list pyval) :
  Forall (λ v, tuple_free v = true ∧ ∃ d, v = PDict d) vs →
  ∃ ds, rmap_list jsonable_mapping vs = Ok ds ∧ Forall normal ds ∧ map PDict ds = map jsonable vs.
Proof.
  induction 1 as [|v vs [Hv [d ->]] _ (ds & Hds & Hn & Hm)]; [by exists []|].
  destruct (jsonable_entry d Hv) as (d' & Hd' & Hn'). cbn [rmap_list]. rewrite Hd', Hds. cbn [rbind]. exists (d' :: ds).
  split_and!; [done|by constructor|]. cbn [map]. rewrite Hm. f_equal. unfold jsonable_mapping in Hd'.
  by destruct (jsonable (PDict d)); simplify_eq.
Qed.

Lemma count_labels ls counts :
  NoDup ls → ∀ (f : string → nat),
  rfold add_label_count counts (map (λ l, PDict [(PStr "label", PStr l); (PStr "count", PInt (Z.of_nat (f l)))]) ls) =
  Ok (list_to_map (map (λ l, (l, Z.of_nat (f l))) ls) ∪ counts).
Proof.
  intros Hn f. revert counts. induction ls as [|l ls IH]; intros counts.
  { simpl. by rewrite (left_id_L ∅ (∪)). }
  apply NoDup_cons in Hn as [Hl Hn]. cbn [map rfold]. unfold add_label_count at 1. cbn [pget is_key String.eqb Ascii.eqb Bool.eqb].
  simpl. rewrite (proj2 (Z.ltb_ge _ _)) by lia. simpl. rewrite (IH Hn). f_equal.
  rewrite <- insert_union_l. symmetry. apply insert_union_r. apply not_elem_of_list_to_map_1.
  intros (x & -> & Hx)%list_elem_of_fmap. apply list_elem_of_fmap in Hx as (y & -> & Hy). done.
Qed.

Definition label_count (g : graph) (l : string) : nat :=
  length (List.filter (λ n, String.eqb l n.1.1) (map_to_list (nodes g))).

Lemma lookup_function_map (f : string → nat) ls l : NoDup ls →
  (list_to_map (map (λ l, (l, Z.of_nat (f l))) ls) : gmap string Z) !! l =
    if decide (l ∈ ls) then Some (Z.of_nat (f l)) else None.
Proof.
  intros Hn. assert (map fst (map (λ l, (l, Z.of_nat (f l))) ls) = ls) as E by (rewrite map_map; apply map_id).
  case_decide as Hl.
  - apply elem_of_list_to_map_1; [exact (eq_ind_r NoDup Hn E)|].
    by apply (list_elem_of_fmap_2 (λ l, (l, Z.of_nat (f l)))).
  - apply not_elem_of_list_to_map_1. exact (eq_ind_r (λ ks, l ∉ ks) Hl E).
Qed.

(** What a strict reading returns, in any order the rows come. *)
Record reading (g : graph) (m : LiveGraphMetrics) : Prop := {
  reading_nodes : lm_node_count m = Z.of_nat (size (nodes g));
  reading_edges : lm_edge_count m = Z.of_nat (size (rels g));
  reading_labels l : lm_label_counts m !! l =
    if decide (0 < label_count g l)%nat then Some (Z.of_nat (label_count g l)) else None;
}.

Lemma label_entries_count g ns l : ns ≡ₚ map_to_list (nodes g) →
  length (List.filter (String.eqb l) (labels_of ns)) = label_count g l.
Proof.
  intros Hp. unfold label_count. rewrite <- (length_filter_perm _ _ _ Hp). unfold labels_of.
  clear Hp. induction ns as [|n ns IH]; simpl; [done|]. destruct (String.eqb l n.1.1); simpl; by rewrite IH.
Qed.

Lemma label_count_present g ns l : ns ≡ₚ map_to_list (nodes g) → (0 < label_count g l)%nat ↔ l ∈ labels_of ns.
Proof.
  intros Hp. rewrite <- (label_entries_count g ns l Hp). clear Hp.
  induction (labels_of ns) as [|x ls IH]; simpl; [split; [lia|intros H'; by apply elem_of_nil in H']|].
  rewrite elem_of_cons. destruct (String.eqb_spec l x) as [->|Hx]; simpl; [split; [by left|lia]|].
  rewrite IH. naive_solver.
Qed.

Lemma map_PDict_perm (l l' : list pdict) : map PDict l ≡ₚ map PDict l' → l ≡ₚ l'.
Proof.
  set (f := λ v, match v with PDict d => d | _ => [] end). intros Hp%(Permutation_map f).
  rewrite !map_map, !map_id in Hp. exact Hp.
Qed.

Lemma read_rows g ns rs : graph_plain g → ns ≡ₚ map_to_list (nodes g) → rs ≡ₚ map_to_list (rels g) →
  ∃ m, read_live_graph_metric_payload (metrics_rows g ns rs) = Ok m ∧ reading g m ∧
    Forall normal (lm_nodes m) ∧ Forall normal (lm_relationships m) ∧
    map PDict (lm_nodes m) = map jsonable (map node_entry ns) ∧
    map PDict (lm_relationships m) = map jsonable (map (rel_entry g) rs) ∧
    lm_checksum m = checksum_payload (structural_payload (Z.of_nat (size (nodes g))) (Z.of_nat (size (rels g)))
      (lm_nodes m) (lm_relationships m)).
Proof.
  intros Hg Hns Hrs.
  destruct (read_mappings (map node_entry ns)) as (dn & Hdn & Hnn & Hmn).
  { apply list.Forall_forall. intros v (n & -> & Hn)%list_elem_of_fmap. split; [|eexists; reflexivity].
    apply node_entry_free. rewrite Hns in Hn. destruct n as [k p]. apply elem_of_map_to_list in Hn.
    destruct Hg as [Hg _]. by eapply Hg. }
  destruct (read_mappings (map (rel_entry g) rs)) as (dr & Hdr & Hnr & Hmr).
  { apply list.Forall_forall. intros v (r & -> & Hr)%list_elem_of_fmap. split; [|eexists; reflexivity].
    apply (rel_entry_free g r Hg). rewrite Hrs in Hr. destruct r as [k p]. apply elem_of_map_to_list in Hr.
    destruct Hg as [_ Hg]. by eapply Hg. }
  assert (length ns = size (nodes g)) as Hln by (rewrite (Permutation_length Hns); apply length_map_to_list).
  assert (length rs = size (rels g)) as Hlr by (rewrite (Permutation_length Hrs); apply length_map_to_list).
  unfold read_live_graph_metric_payload, metrics_rows. cbn [single_metrics_row].
  set (entries := map (label_entry ns) (sorted_set (list_to_set (labels_of ns)))).
  unfold int_field, list_field, strict_label_counts. cbn -[rfold rmap_list Z.of_nat checksum_payload structural_payload].
  rewrite !(proj2 (Z.ltb_ge _ _)) by lia. cbn -[rfold rmap_list Z.of_nat checksum_payload structural_payload].
  unfold entries, label_entry. rewrite count_labels by apply NoDup_sorted_set.
  rewrite (right_id_L ∅ (∪)). cbn [rbind]. rewrite Hdn, Hdr. cbn [rbind]. eexists. split; [reflexivity|].
  split_and!; cbn; try done; [|by rewrite Hln, Hlr].
  split; cbn; [by rewrite Hln|by rewrite Hlr|]. intros l.
  rewrite lookup_function_map by apply NoDup_sorted_set. rewrite (label_entries_count g ns l Hns).
  apply decide_ext. rewrite elem_of_sorted_set, elem_of_list_to_set. symmetry. by apply label_count_present.
Qed.

(** The counts need no assumption. *)
Lemma read_counts g ns rs m : read_live_graph_metric_payload (metrics_rows g ns rs) = Ok m →
  lm_node_count m = Z.of_nat (length ns) ∧ lm_edge_count m = Z.of_nat (length rs).
Proof.
  unfold read_live_graph_metric_payload, metrics_rows. cbn [single_metrics_row]. intros H'. rinv. cbn.
  unfold int_field in *. simpl in *. rinv. done.
Qed.

Lemma live_counts g m : live_metrics g = Ok m →
  lm_node_count m = Z.of_nat (size (nodes g)) ∧ lm_edge_count m = Z.of_nat (size (rels g)).
Proof. intros [-> ->]%read_counts. by rewrite !length_map_to_list. Qed.

Lemma readings_agree g ns rs ns' rs' : graph_plain g →
  ns ≡ₚ map_to_list (nodes g) → rs ≡ₚ map_to_list (rels g) →
  ns' ≡ₚ map_to_list (nodes g) → rs' ≡ₚ map_to_list (rels g) →
  ∃ m m', read_live_graph_metric_payload (metrics_rows g ns rs) = Ok m ∧
    read_live_graph_metric_payload (metrics_rows g ns' rs') = Ok m' ∧
    reading g m ∧ reading g m' ∧ lm_label_counts m = lm_label_counts m' ∧ lm_checksum m = lm_checksum m' .
Proof.
  intros Hg Hns Hrs Hns' Hrs'. destruct (read_rows g ns rs Hg Hns Hrs) as (m & Hm & Hr & Hn & Hnr & En & Er & Hc).
  destruct (read_rows g ns' rs' Hg Hns' Hrs') as (m0 & Hm0 & Hr0 & Hn0 & Hnr0 & En0 & Er0 & Hc0).
  exists m, m0. split_and!; [done..| |].
  - apply map_eq. intros l. by rewrite (reading_labels g m Hr), (reading_labels g m0 Hr0).
  - rewrite Hc, Hc0. apply checksum_perm; [done|done| |]; apply map_PDict_perm.
    + rewrite En, En0. by rewrite Hns, Hns'.
    + rewrite Er, Er0. by rewrite Hrs, Hrs'.
Qed.

(** ** A snapshot of the graph *)

Lemma dict_of_nodup (l : pydict pyval) : NoDup (map fst l) → dict_of l = map (λ kv, (PStr kv.1, kv.2)) l.
Proof.
  intros Hn. rewrite <- (dict_of_fresh (map (λ kv, (PStr kv.1, kv.2)) l)).
  - f_equal. rewrite map_map. simpl. symmetry. rewrite (map_ext _ id) by (by intros []). apply map_id.
  - rewrite map_map. simpl. rewrite <- (map_map fst Some). by apply NoDup_fmap_2; [apply _|].
  - apply forallb_forall. by intros kv (x & <- & _)%in_map_iff.
Qed.

Lemma pget_of_dget k (l : pydict pyval) : pget k (map (λ kv, (PStr kv.1, kv.2)) l) = dget k l.
Proof. induction l as [|[k' v] l IH]; simpl; [done|]. by rewrite IH. Qed.

(** The normal form of a property map. *)
Definition normal_value (k : string) (v : prop) : pyval := sort_labels k (live_value v) (jsonable (live_value v)).
Definition normal_pairs (p : props) : pydict pyval :=
  sort_on fst (map (λ kv, (kv.1, normal_value kv.1 kv.2)) (map_to_list p)).
Definition normal_properties (p : props) : pdict := map (λ kv, (PStr kv.1, kv.2)) (normal_pairs p).

Lemma normal_pairs_keys p : NoDup (map fst (normal_pairs p)).
Proof.
  unfold normal_pairs, sort_on. rewrite py_sort_perm, map_map. simpl. apply NoDup_fst_map_to_list.
Qed.

Lemma jsonable_properties p : jsonable (PDict (live_properties p)) = PDict (normal_properties p).
Proof.
  cbn [jsonable]. f_equal. unfold normal_properties. rewrite <- dict_of_nodup by apply normal_pairs_keys.
  unfold normal_pairs, live_properties. rewrite map_map. do 2 f_equal. apply map_ext. intros [k v]. simpl.
  by rewrite py_str_text.
Qed.

Lemma pget_normal k p : pget k (normal_properties p) = normal_value k <$> p !! k.
Proof.
  unfold normal_properties. rewrite pget_of_dget. destruct (p !! k) as [v|] eqn:E; simpl.
  - apply elem_of_dget; [apply normal_pairs_keys|]. apply elem_of_py_sort.
    apply (list_elem_of_fmap_2 (λ kv : string * prop, (kv.1, normal_value kv.1 kv.2)) _ (k, v)).
    by apply elem_of_map_to_list.
  - destruct (dget k (normal_pairs p)) as [w|] eqn:E'; [|done]. apply dget_Some_elem in E'.
    apply elem_of_py_sort in E'. apply list_elem_of_fmap in E' as ([k' v] & [= -> ->] & Hin).
    apply elem_of_map_to_list in Hin. congruence.
Qed.

Lemma normal_properties_normal p : props_plain p → normal (normal_properties p).
Proof.
  intros Hp. unfold normal. rewrite <- jsonable_properties. by apply jsonable_idemp, live_properties_free.
Qed.

Definition keys_stripped (p : props) : Prop := ∀ k, is_Some (p !! k) → strip k = k.

Lemma normal_properties_clean p : keys_stripped p → any_dict (PDict (normal_properties p)) = Some (normal_properties p).
Proof.
  intros Hk. apply any_dict_kept. split.
  - unfold normal_properties. rewrite map_map. simpl. rewrite <- (map_map fst Some).
    apply NoDup_fmap_2; [apply _|]. apply normal_pairs_keys.
  - apply list.Forall_forall. intros kv ([k v] & -> & Hin)%list_elem_of_fmap. exists k. split; [done|].
    apply elem_of_py_sort, list_elem_of_fmap in Hin as ([k' w] & [= -> ->] & Hin). apply Hk.
    apply elem_of_map_to_list in Hin. eauto.
Qed.

Import Snapshots Consistency StatusModel StatusManager.

(** Nodes and relationships as a synchronised plan without assertions leaves
    them: the reserved properties agree with the key. *)
Record node_publishable (k : node_key) (p : props) : Prop := {
  np_label : valid_node_label k.1 = true ∧ p !! "label" = Some (text_prop k.1);
  np_id : ref_ok k.2 ∧ p !! "node_id" = Some (text_prop k.2);
  np_entity : ∃ e, ref_ok e ∧ p !! "canonical_entity_id" = Some (text_prop e);
  np_version : p !! "canonical_id_rule_version" = None;
  np_others : Forall (λ x, is_Some (p !! x)) ["properties_json"; "created_at"; "updated_at"];
  np_keys : keys_stripped p;
}.
Record edge_publishable (g : graph) (ty : string) (s t : node_key) (id : string) (p : props) : Prop := {
  ep_ends : is_Some (nodes g !! s) ∧ is_Some (nodes g !! t);
  ep_type : ref_ok ty ∧ p !! "relationship_type" = Some (text_prop ty);
  ep_id : ref_ok id ∧ p !! "edge_id" = Some (text_prop id);
  ep_source : p !! "source_node_id" = Some (text_prop s.2);
  ep_target : p !! "target_node_id" = Some (text_prop t.2);
  ep_others : Forall (λ x, is_Some (p !! x)) ["weight"; "properties_json"; "created_at"; "updated_at"];
  ep_keys : keys_stripped p;
  ep_evidence : p !! "evidence_ref" = None ∧ ∀ v, p !! "evidence_refs" = Some v →
    ∃ refs, refs_ok refs ∧ v = PvVal (PList (map PStr refs));
}.
Record publishable (g : graph) : Prop := {
  pub_plain : graph_plain g;
  pub_nodes k p : nodes g !! k = Some p → node_publishable k p;
  pub_edges k p : rels g !! k = Some p →
    match k with EdgeKey ty s t id => edge_publishable g ty s t id p | LinkKey _ _ _ _ => False end;
}.

Lemma py_str_nonempty s : ref_ok s → nonempty (py_str (PStr s)) = Ok s.
Proof. intros Hs. rewrite py_str_text. unfold nonempty. by rewrite (text_of_ok s Hs). Qed.
Lemma nonempty_ok s : ref_ok s → nonempty s = Ok s.
Proof. intros Hs. unfold nonempty. by rewrite (text_of_ok s Hs). Qed.

Lemma truthy_text s : ref_ok s → truthy (PStr s) = true.
Proof. intros [_ Hs]. simpl. by rewrite Hs. Qed.

Lemma live_text k p s : p !! k = Some (text_prop s) → live_property k p = PStr s.
Proof. unfold live_property. by intros ->. Qed.
Lemma pget_text k p s : p !! k = Some (text_prop s) → pget k (normal_properties p) = Some (PStr s).
Proof. intros H'. rewrite pget_normal, H'. simpl. unfold normal_value, sort_labels. by destruct (String.eqb k "labels"). Qed.

Definition node_dict (k : node_key) (e : string) (p : props) : pdict :=
  [(PStr "canonical_entity_id", PStr e); (PStr "labels", PList [PStr k.1]); (PStr "node_id", PStr k.2);
   (PStr "properties", PDict (normal_properties p))].

Lemma jsonable_node k p e : node_publishable k p → p !! "canonical_entity_id" = Some (text_prop e) →
  jsonable (node_entry (k, p)) = PDict (node_dict k e p).
Proof.
  intros Hp He. unfold node_entry. cbn [fst snd]. rewrite (live_text _ _ _ He), (live_text _ _ _ (proj2 (np_id k p Hp))).
  pose proof (jsonable_properties p) as HP. cbn [jsonable] in HP.
  cbn [jsonable map]. rewrite !py_str_text, HP. reflexivity.
Qed.

Definition snapshot_node (k : node_key) (e : string) (p : props) : GraphNode :=
  mkGraphNode k.2 [k.1] (normal_properties p) (Some (mkEntity e (lower k.1) "unknown")).

Lemma valid_label_ok l : valid_node_label l = true → ref_ok l ∧ ref_ok (lower l).
Proof.
  intros Hl. apply dhas_true in Hl. unfold node_labels in Hl. simpl in Hl.
  repeat (apply elem_of_cons in Hl as [->|Hl]; [done|]). by apply elem_of_nil in Hl.
Qed.

Lemma node_dict_fields k e p :
  let d := node_dict k e p in
  pget "labels" d = Some (PList [PStr k.1]) ∧ pget "node_id" d = Some (PStr k.2) ∧
  pget "canonical_entity_id" d = Some (PStr e) ∧ pget "properties" d = Some (PDict (normal_properties p)) ∧
  pget "canonical_id_rule_version" d = None.
Proof. done. Qed.

Lemma string_values_one l : ref_ok l → string_values (Some (PList [PStr l])) = [l].
Proof. intros [_ Hl]. unfold string_values. cbn [map]. rewrite py_str_text. cbn [List.filter]. by rewrite Hl. Qed.

Lemma contract_node_of k p e : node_publishable k p → p !! "canonical_entity_id" = Some (text_prop e) → ref_ok e →
  contract_node (node_dict k e p) = Ok (snapshot_node k e p).
Proof.
  intros Hp He Hr. destruct (np_label k p Hp) as [Hl _]. destruct (valid_label_ok _ Hl) as [Hl1 Hl2].
  destruct (np_id k p Hp) as [Hid _]. destruct (node_dict_fields k e p) as (E1 & E2 & E3 & E4 & E5).
  unfold contract_node. rewrite E1, E2, E3, E4, E5. cbn [dict_value].
  rewrite (pget_text _ _ _ He), pget_normal, (np_version k p Hp). cbn [fmap option_fmap option_map py_or].
  rewrite (truthy_text _ Hr), (truthy_text _ Hid), (string_values_one _ Hl1).
  unfold entity_reference. rewrite py_str_text. pose proof Hr as [_ Hr2]. rewrite Hr2.
  cbn [map]. rewrite (string_values_one _ Hl1).
  cbn [hd]. rewrite (nonempty_ok e Hr), (nonempty_ok _ Hl2). cbn [rbind].
  unfold str_or_empty. rewrite (truthy_text _ Hid), (py_str_nonempty _ Hid). cbn [rbind rmap_list].
  rewrite (nonempty_ok _ Hl1). cbn [rbind]. unfold properties_ok.
  rewrite (normal_properties_clean p (np_keys k p Hp)). reflexivity.
Qed.

Lemma payload_node k e p : props_plain p → jsonable (PDict (node_payload (snapshot_node k e p))) = PDict (node_dict k e p).
Proof.
  intros Hp. pose proof (normal_properties_normal p Hp) as HP. unfold normal in HP.
  unfold node_payload, snapshot_node. cbn [gn_labels gn_id gn_entity gn_properties entity_id].
  change (sorted_strings [k.1]) with [k.1]. cbn [jsonable] in HP. cbn [jsonable map]. rewrite !py_str_text, HP.
  reflexivity.
Qed.

Definition edge_dict (ty : string) (s t : node_key) (id : string) (p : props) : pdict :=
  [(PStr "edge_id", PStr id); (PStr "properties", PDict (normal_properties p)); (PStr "relationship_type", PStr ty);
   (PStr "source_node_id", PStr s.2); (PStr "target_node_id", PStr t.2)].
Lemma edge_dict_fields ty s t id p :
  let d := edge_dict ty s t id p in
  pget "edge_id" d = Some (PStr id) ∧ pget "source_node_id" d = Some (PStr s.2) ∧
  pget "target_node_id" d = Some (PStr t.2) ∧ pget "relationship_type" d = Some (PStr ty) ∧
  pget "properties" d = Some (PDict (normal_properties p)).
Proof. done. Qed.

Lemma end_id_of g k : publishable g → is_Some (nodes g !! k) → end_id g k = PStr k.2 ∧ ref_ok k.2.
Proof.
  intros Hg [p Hp]. destruct (np_id k p (pub_nodes g Hg k p Hp)) as [Hid E]. split; [|done].
  unfold end_id. rewrite Hp. by apply live_text.
Qed.

Lemma jsonable_rel g ty s t id p : publishable g → edge_publishable g ty s t id p →
  jsonable (rel_entry g (EdgeKey ty s t id, p)) = PDict (edge_dict ty s t id p).
Proof.
  intros Hg Hp. destruct (ep_ends _ _ _ _ _ _ Hp) as [Hs Ht]. unfold rel_entry. cbn [rel_ends rel_type fst snd].
  rewrite (proj1 (end_id_of g s Hg Hs)), (proj1 (end_id_of g t Hg Ht)), (live_text _ _ _ (proj2 (ep_id _ _ _ _ _ _ Hp))).
  pose proof (jsonable_properties p) as HP. cbn [jsonable] in HP. cbn [jsonable map]. rewrite !py_str_text, HP. reflexivity.
Qed.

Lemma jsonable_texts refs : map jsonable (map PStr refs) = map PStr refs.
Proof. rewrite map_map. by apply map_ext. Qed.

Lemma pset_same k v d : pget k d = Some v → pset k v d = d.
Proof.
  induction d as [|[k' v'] d IH]; simpl; [done|]. destruct (is_key k k'); [by intros [= ->]|]. intros H'. by rewrite (IH H').
Qed.

Definition edge_dict_payload (ty : string) (s t : node_key) (id : string) (p : props) : pdict :=
  [(PStr "source_node_id", PStr s.2); (PStr "target_node_id", PStr t.2); (PStr "relationship_type", PStr ty);
   (PStr "edge_id", PStr id); (PStr "properties", PDict (normal_properties p))].

(** The evidence of a relationship is its list, which is stored as it is read. *)
Lemma edge_evidence g ty s t id p : edge_publishable g ty s t id p → ∃ refs, refs_ok refs ∧
  evidence_refs_from_mapping (normal_properties p) = Ok refs ∧
  (refs = [] ∨ pget "evidence_refs" (normal_properties p) = Some (PList (map PStr refs))).
Proof.
  intros Hp. destruct (ep_evidence _ _ _ _ _ _ Hp) as [H1 H2]. unfold evidence_refs_from_mapping.
  rewrite !pget_normal, H1. destruct (p !! "evidence_refs") as [v|] eqn:E.
  - destruct (H2 v eq_refl) as (refs & Hr & ->). exists refs. split; [done|].
    assert (normal_value "evidence_refs" (PvVal (PList (map PStr refs))) = PList (map PStr refs)) as Hv.
    { unfold normal_value, sort_labels. cbn [live_value jsonable String.eqb Ascii.eqb Bool.eqb]. by rewrite jsonable_texts. }
    cbn [fmap option_fmap option_map]. rewrite Hv. split; [|by right]. rewrite (evidence_refs_stored refs Hr).
    cbn [rbind evidence_refs_of]. f_equal. unfold sorted_union. destruct Hr as (Hs & Hn & _).
    apply (StronglySorted_unique String.le); [apply sorted_strings_sorted|done|]. unfold sorted_set, sorted_strings.
    rewrite py_sort_perm. rewrite list_to_set_nil, (right_id_L ∅ (∪)). by apply elements_list_to_set.
  - exists []. split; [split_and!; constructor|]. split; [done|by left].
Qed.

Definition snapshot_edge (ty : string) (s t : node_key) (id : string) (p : props) (refs : list string) : GraphEdge :=
  mkGraphEdge id s.2 t.2 ty (normal_properties p) refs.

Lemma rmap_nonempty refs : Forall ref_ok refs → rmap_list nonempty refs = Ok refs.
Proof. induction 1 as [|r refs Hr _ IH]; [done|]. cbn [rmap_list]. by rewrite (nonempty_ok r Hr), IH. Qed.

Lemma phas_normal k p : is_Some (p !! k) → phas k (normal_properties p) = true.
Proof. intros [v Hv]. apply phas_pget. rewrite pget_normal, Hv. eauto. Qed.

Lemma properties_present id p keys :
  Forall (λ k, is_Some (p !! k)) keys → require_snapshot_properties id (normal_properties p) keys = Ok ().
Proof.
  intros Hk. unfold require_snapshot_properties.
  assert (List.filter (λ k, negb (phas k (normal_properties p))) keys = []) as ->; [|done].
  induction Hk as [|k keys Hk _ IH]; [done|]. cbn [List.filter]. by rewrite (phas_normal k p Hk).
Qed.

Lemma properties_match id p expected :
  Forall (λ ks, p !! ks.1 = Some (text_prop ks.2)) expected →
  require_properties_match id expected (normal_properties p) = Ok ().
Proof.
  intros Hk. unfold require_properties_match. assert (mismatches expected (normal_properties p) = []) as ->; [|done].
  unfold mismatches. induction Hk as [|[k s] expected Hk _ IH]; [done|]. cbn [List.filter fst snd] in *.
  unfold has_text at 1. by rewrite (pget_text _ _ _ Hk), String.eqb_refl.
Qed.

Definition edge_refs (p : props) : list string :=
  match evidence_refs_from_mapping (normal_properties p) with Ok refs => refs | Err _ => [] end.

Lemma contract_edge_of g ty s t id p : publishable g → edge_publishable g ty s t id p → props_plain p →
  let e := snapshot_edge ty s t id p (edge_refs p) in
  contract_edge (edge_dict ty s t id p) = Ok e ∧ validate_edge e = Ok () ∧
  edge_payload e = Ok (edge_dict_payload ty s t id p) ∧
  jsonable (PDict (edge_dict_payload ty s t id p)) = PDict (edge_dict ty s t id p).
Proof.
  intros Hg Hp Hpl. destruct (edge_evidence _ _ _ _ _ _ Hp) as (refs & Hr & Hm & Hget). unfold edge_refs. rewrite Hm.
  destruct (edge_dict_fields ty s t id p) as (E1 & E2 & E3 & E4 & E5).
  destruct (ep_ends _ _ _ _ _ _ Hp) as [Hs Ht]. destruct (end_id_of g s Hg Hs) as [_ Hsr], (end_id_of g t Hg Ht) as [_ Htr].
  destruct (ep_id _ _ _ _ _ _ Hp) as [Hid Hid'], (ep_type _ _ _ _ _ _ Hp) as [Hty Hty']. split_and!.
  - unfold contract_edge. rewrite E1, E2, E3, E4, E5. cbn [dict_value]. rewrite Hm. cbn [map_err rbind py_or].
    unfold str_or_empty. rewrite (truthy_text _ Hid). cbn [rbind].
    rewrite !truthy_text, !py_str_nonempty by done. cbn [rbind]. unfold properties_ok.
    rewrite (normal_properties_clean p (ep_keys _ _ _ _ _ _ Hp)). cbn [rbind].
    by rewrite (rmap_nonempty refs) by apply Hr.
  - unfold validate_edge. pose proof (ep_others _ _ _ _ _ _ Hp) as Ho. rewrite !Forall_cons in Ho.
    destruct Ho as (O1 & O2 & O3 & O4 & _). pose proof (ep_source _ _ _ _ _ _ Hp) as H1.
    pose proof (ep_target _ _ _ _ _ _ Hp) as H2. cbn [ge_id ge_properties ge_source ge_target ge_type snapshot_edge].
    rewrite properties_present by (repeat constructor; eauto). cbn [rbind].
    by apply properties_match; repeat constructor.
  - unfold edge_payload, evidence_refs_from_value. cbn [ge_evidence_refs snapshot_edge]. rewrite (evidence_refs_stored refs Hr).
    cbn [map_err rbind ge_properties snapshot_edge]. destruct Hget as [->|Hget]; [done|].
    destruct refs as [|r refs]; [done|]. by rewrite (pset_same _ _ _ Hget).
  - pose proof (normal_properties_normal p Hpl) as HP. unfold normal in HP. cbn [jsonable] in HP.
    unfold edge_dict_payload. cbn [jsonable map]. rewrite !py_str_text, HP. reflexivity.
Qed.

Lemma validate_snapshot_node k p e : node_publishable k p → p !! "canonical_entity_id" = Some (text_prop e) →
  validate_node (snapshot_node k e p) = Ok ().
Proof.
  intros Hp He. pose proof (np_others k p Hp) as Ho. rewrite !Forall_cons in Ho. destruct Ho as (O1 & O2 & O3 & _).
  destruct (np_label k p Hp) as [_ Hl], (np_id k p Hp) as [_ Hid].
  unfold validate_node, snapshot_node. cbn [gn_labels gn_id gn_properties gn_entity entity_id].
  rewrite !properties_present by (repeat constructor; eauto). cbn [rbind app].
  by apply properties_match; repeat constructor.
Qed.

(** Nodes and relationships of the snapshot, entry by entry. *)
Definition entity_of (p : props) : string :=
  match p !! "canonical_entity_id" with Some (PvVal (PStr e)) => e | _ => "" end.
Definition node_dict_of (n : node_key * props) : pdict := node_dict n.1 (entity_of n.2) n.2.
Definition snapshot_node_of (n : node_key * props) : GraphNode := snapshot_node n.1 (entity_of n.2) n.2.
Definition rel_dict_of (r : rel_key * props) : pdict :=
  match r.1 with EdgeKey ty s t id => edge_dict ty s t id r.2 | LinkKey _ _ _ _ => [] end.
Definition snapshot_edge_of (r : rel_key * props) : GraphEdge :=
  match r.1 with
  | EdgeKey ty s t id => snapshot_edge ty s t id r.2 (edge_refs r.2)
  | LinkKey s t id _ => snapshot_edge "" s t id ∅ []
  end.
Definition rel_payload_of (r : rel_key * props) : pdict :=
  match r.1 with EdgeKey ty s t id => edge_dict_payload ty s t id r.2 | LinkKey _ _ _ _ => [] end.

Lemma node_facts g ns : publishable g → ns ≡ₚ map_to_list (nodes g) → ∀ n, n ∈ ns →
  jsonable (node_entry n) = PDict (node_dict_of n) ∧ contract_node (node_dict_of n) = Ok (snapshot_node_of n) ∧
  validate_node (snapshot_node_of n) = Ok () ∧
  jsonable (PDict (node_payload (snapshot_node_of n))) = PDict (node_dict_of n).
Proof.
  intros Hg Hp [k p] Hin. rewrite Hp in Hin. apply elem_of_map_to_list in Hin.
  pose proof (pub_nodes g Hg k p Hin) as Hn. destruct (np_entity k p Hn) as (e & Hr & He).
  unfold node_dict_of, snapshot_node_of, entity_of. cbn [fst snd]. rewrite He. cbn [text_prop]. split_and!.
  - by apply jsonable_node.
  - by apply contract_node_of.
  - by apply validate_snapshot_node.
  - apply payload_node. destruct (pub_plain g Hg) as [Hpl _]. by eapply Hpl.
Qed.

Lemma rel_facts g rs : publishable g → rs ≡ₚ map_to_list (rels g) → ∀ r, r ∈ rs →
  jsonable (rel_entry g r) = PDict (rel_dict_of r) ∧ contract_edge (rel_dict_of r) = Ok (snapshot_edge_of r) ∧
  (let* _ := validate_edge (snapshot_edge_of r) in edge_payload (snapshot_edge_of r)) = Ok (rel_payload_of r) ∧
  edge_payload (snapshot_edge_of r) = Ok (rel_payload_of r) ∧
  jsonable (PDict (rel_payload_of r)) = PDict (rel_dict_of r) ∧
  ∃ s t, is_Some (nodes g !! s) ∧ is_Some (nodes g !! t) ∧ ge_source (snapshot_edge_of r) = s.2 ∧
    ge_target (snapshot_edge_of r) = t.2.
Proof.
  intros Hg Hp [k p] Hin. rewrite Hp in Hin. apply elem_of_map_to_list in Hin.
  pose proof (pub_edges g Hg k p Hin) as He. destruct k as [ty s t id|]; [|done].
  assert (props_plain p) as Hpl by (destruct (pub_plain g Hg) as [_ Hpl]; by eapply Hpl).
  destruct (contract_edge_of g ty s t id p Hg He Hpl) as (H1 & H2 & H3 & H4).
  unfold rel_dict_of, snapshot_edge_of, rel_payload_of. cbn [fst snd]. rewrite H2. split_and!; try done.
  - by apply (jsonable_rel g).
  - destruct (ep_ends _ _ _ _ _ _ He). by exists s, t.
Qed.

Lemma rmap_map {E A B C} (f : B → result E C) (g : A → B) (h : A → C) l :
  (∀ x, x ∈ l → f (g x) = Ok (h x)) → rmap_list f (map g l) = Ok (map h l).
Proof.
  induction l as [|x l IH]; intros Hf; simpl; [done|]. rewrite Hf by left. simpl.
  by rewrite IH by (intros y Hy; apply Hf; by right).
Qed.

Lemma map_PDict_map {A} (f : A → pyval) (h : A → pdict) l :
  (∀ x, x ∈ l → f x = PDict (h x)) → map f l = map PDict (map h l).
Proof.
  intros Hf. rewrite map_map. apply map_ext_in. intros x Hx%list_elem_of_In. by apply Hf.
Qed.

Lemma snapshot_labels_of ns :
  (∀ l, fold_left count_node (map snapshot_node_of ns) ∅ !! l =
     let c := length (List.filter (String.eqb l) (labels_of ns)) in
     if decide (0 < c)%nat then Some (Z.of_nat c) else None).
Proof.
  assert (∀ acc l, fold_left count_node (map snapshot_node_of ns) acc !! l =
    let c := length (List.filter (String.eqb l) (labels_of ns)) in
    if decide (0 < c)%nat then Some (default 0 (acc !! l) + Z.of_nat c) else acc !! l) as H'.
  { unfold labels_of. induction ns as [|[k p] ns IH]; intros acc l; [done|]. cbn [map fold_left].
    assert (count_node acc (snapshot_node_of (k, p)) = count_label acc k.1) as -> by done.
    rewrite IH. unfold count_label. cbn [List.filter fst].
    set (ls := List.filter _ _). destruct (String.eqb_spec l k.1) as [->|Hne].
    - rewrite lookup_insert_eq. cbn [length]. rewrite (decide_True (P := (0 < Datatypes.S (length ls))%nat)) by lia.
      cbn [default from_option id]. case_decide; f_equal; lia.
    - rewrite lookup_insert_ne by congruence. done. }
  intros l. rewrite H'. by rewrite lookup_empty.
Qed.

Lemma nonempty_prefix c s : py_space c = false → ∃ s', nonempty (String c s) = Ok s'.
Proof.
  intros Hc. unfold nonempty. cbn [text]. unfold strip. cbn [rstrip].
  destruct (rstrip s) as [|c' s']; rewrite ?Hc; cbn [lstrip]; rewrite Hc; simpl; eauto.
Qed.

Lemma counts_match ns es (gns : list GraphNode) (ges : list GraphEdge) id cycle version now :
  length gns = ns → length ges = es →
  (∀ e, e ∈ ges → ge_source e ∈ map gn_id gns ∧ ge_target e ∈ map gn_id gns) →
  let s := mkGraphSnapshot id cycle version now (Z.of_nat ns) (Z.of_nat es) gns ges in
  counts_must_match_payloads s = Ok s.
Proof.
  intros <- <- He. unfold counts_must_match_payloads. cbn [gs_node_count gs_nodes gs_edge_count gs_edges].
  rewrite !Z.eqb_refl. cbn [negb guard_err rbind].
  assert (∀ ends, ends ⊆ map gn_id gns → endpoints_missing gns ends = []) as Hm.
  { intros ends Hs. unfold endpoints_missing. apply sorted_set_nil. apply set_eq. intros x.
    rewrite elem_of_difference, !elem_of_list_to_set. split; [intros [Hx Hn]; by destruct (Hn (Hs x Hx))|].
    intros Hx. by apply elem_of_empty in Hx. }
  rewrite !Hm; [done| |]; intros x (e & -> & Hin)%list_elem_of_fmap; by apply He.
Qed.

(** The snapshot made of a reading of a publishable graph. *)
Lemma snapshot_of_reading g ns rs cycle_id generation now m :
  publishable g → ref_ok cycle_id → ns ≡ₚ map_to_list (nodes g) → rs ≡ₚ map_to_list (rels g) →
  read_live_graph_metric_payload (metrics_rows g ns rs) = Ok m →
  lm_nodes m = map node_dict_of ns ∧ lm_relationships m = map rel_dict_of rs ∧
  ∃ id, graph_snapshot_from_metrics cycle_id generation m now =
    Ok (mkGraphSnapshot id cycle_id contract_version now (lm_node_count m) (lm_edge_count m)
      (map snapshot_node_of ns) (map snapshot_edge_of rs)).
Proof.
  intros Hg Hc Hns Hrs Hm. pose proof (node_facts g ns Hg Hns) as Hnf. pose proof (rel_facts g rs Hg Hrs) as Hrf.
  destruct (read_rows g ns rs (pub_plain g Hg) Hns Hrs) as (m' & Hm' & Hr & _ & _ & En & Er & _).
  rewrite Hm in Hm'. injection Hm' as <-. rewrite map_map in En, Er.
  rewrite (map_PDict_map _ node_dict_of) in En by (intros; by apply Hnf).
  rewrite (map_PDict_map _ rel_dict_of) in Er by (intros; by apply Hrf).
  assert (∀ l l' : list pdict, map PDict l = map PDict l' → l = l') as Hinj.
  { induction l as [|x l IH]; intros [|y l']; try done. intros [= -> ?]. f_equal. by apply IH. }
  apply Hinj in En, Er. split; [done|]. split; [done|]. unfold graph_snapshot_from_metrics. rewrite En, Er.
  rewrite (rmap_map _ _ snapshot_node_of) by (intros; by apply Hnf).
  rewrite (rmap_map _ _ snapshot_edge_of) by (intros; by apply Hrf). cbn [rbind]. rewrite (nonempty_ok _ Hc). cbn [rbind].
  match goal with |- context [nonempty (String.append ?a ?b)] =>
    destruct (nonempty_prefix "g" (String.append "raph-snapshot-" b) eq_refl) as [id Hid] end.
  exists id. etransitivity; [apply (f_equal (λ r, rbind r _) Hid)|]. cbn [rbind].
  rewrite (reading_nodes g m Hr), (reading_edges g m Hr). apply counts_match.
  - rewrite length_map, (Permutation_length Hns). apply length_map_to_list.
  - rewrite length_map, (Permutation_length Hrs). apply length_map_to_list.
  - intros e (r & -> & Hin)%list_elem_of_fmap. destruct (Hrf r Hin) as (_ & _ & _ & _ & _ & s & t & Hs & Ht & -> & ->).
    rewrite map_map. assert (∀ k, is_Some (nodes g !! k) → k.2 ∈ map (λ n, gn_id (snapshot_node_of n)) ns) as Hk.
    { intros k [p Hp]. apply (list_elem_of_fmap_2 (λ n, gn_id (snapshot_node_of n)) ns (k, p)).
      rewrite Hns. by apply elem_of_map_to_list. }
    split; by apply Hk.
Qed.

(** The checksum of the payloads of such a snapshot is that of the reading. *)
Lemma snapshot_checksum g ns rs m : publishable g →
  ns ≡ₚ map_to_list (nodes g) → rs ≡ₚ map_to_list (rels g) →
  read_live_graph_metric_payload (metrics_rows g ns rs) = Ok m →
  lm_nodes m = map node_dict_of ns → lm_relationships m = map rel_dict_of rs →
  checksum_payload (structural_payload (lm_node_count m) (lm_edge_count m)
    (map node_payload (map snapshot_node_of ns)) (map rel_payload_of rs)) = lm_checksum m.
Proof.
  intros Hg Hns Hrs Hm En Er. destruct (read_rows g ns rs (pub_plain g Hg) Hns Hrs) as (m' & Hm' & Hr & Hn & Hnr & _ & _ & Hc).
  rewrite Hm in Hm'. injection Hm' as <-. rewrite Hc, <- (reading_nodes g m Hr), <- (reading_edges g m Hr).
  assert (∀ ds, Forall normal ds → map jsonable (map PDict ds) = map PDict ds) as Hid.
  { induction 1 as [|d ds Hd _ IH]; cbn [map]; [done|]. unfold normal in Hd. by rewrite IH, Hd. }
  f_equal. unfold structural_payload, sorted_payload_list. rewrite (Hid _ Hn), (Hid _ Hnr).
  assert (map jsonable (map PDict (map node_payload (map snapshot_node_of ns))) = map PDict (lm_nodes m)) as ->.
  { rewrite En, !map_map. apply map_ext_in. intros n Hin%list_elem_of_In. by apply (node_facts g ns Hg Hns n). }
  assert (map jsonable (map PDict (map rel_payload_of rs)) = map PDict (lm_relationships m)) as ->; [|done].
  rewrite Er, !map_map. apply map_ext_in. intros r Hin%list_elem_of_In. by apply (rel_facts g rs Hg Hrs r).
Qed.

(** C26: a reading of the live graph is what the graph holds, whatever order
    the database returns its rows in: it succeeds, with the number of nodes, of
    relationships and of nodes per label, and any two readings of a graph have
    the same label counts and checksum. *)
Theorem metrics_are_canonical g ns rs : graph_plain g →
  ns ≡ₚ map_to_list (nodes g) → rs ≡ₚ map_to_list (rels g) →
  ∃ m m0, read_live_graph_metric_payload (metrics_rows g ns rs) = Ok m ∧ live_metrics g = Ok m0 ∧
    reading g m ∧ lm_label_counts m = lm_label_counts m0 ∧ lm_checksum m = lm_checksum m0.
Proof.
  intros Hg Hns Hrs.
  destruct (readings_agree g ns rs _ _ Hg Hns Hrs (reflexivity _) (reflexivity _)) as (m & m0 & ? & ? & ? & _ & ? & ?).
  by exists m, m0.
Qed.

(** A published snapshot stands for the live graph it was taken from: for
    a graph without assertions whose reserved properties agree with its keys,
    taking the snapshot succeeds, the reload bridge accepts it, and both the
    metrics the bridge derives and the snapshot itself are consistent with the
    graph, in whatever order the graph is read each time. *)
Theorem snapshot_is_consistent {S} `{StatusStore.StatusStoreOps S} (s : S) st g ns rs ns' rs' cycle_id now :
  publishable g → ref_ok cycle_id → require_ready s = Ok st → 0 ≤ graph_generation_id st →
  ns ≡ₚ map_to_list (nodes g) → rs ≡ₚ map_to_list (rels g) →
  ns' ≡ₚ map_to_list (nodes g) → rs' ≡ₚ map_to_list (rels g) →
  ∃ snapshot m, build_graph_snapshot s (metrics_rows g ns rs) cycle_id (graph_generation_id st) now = Ok snapshot ∧
    metrics_snapshot_from_graph_snapshot snapshot (graph_generation_id st) = Ok m ∧
    snap_node_count m = Z.of_nat (size (nodes g)) ∧ snap_edge_count m = Z.of_nat (size (rels g)) ∧
    check_live_graph_consistency (E := ()) true (Some s) (Ok (MetricsSnapshot m)) (metrics_rows g ns' rs') = Ok true ∧
    check_live_graph_consistency (S := S) (E := ()) false None (Ok (FullSnapshot snapshot)) (metrics_rows g ns' rs')
      = Ok true.
Proof.
  intros Hg Hc Hready Hgen Hns Hrs Hns' Hrs'. set (gen := graph_generation_id st) in *.
  destruct (readings_agree g ns rs ns' rs' (pub_plain g Hg) Hns Hrs Hns' Hrs')
    as (m & m' & Hm & Hm' & Hr & Hr' & Hl & Hsum).
  destruct (snapshot_of_reading g ns rs cycle_id gen now m Hg Hc Hns Hrs Hm) as (En & Er & id & Hsnap).
  pose proof (snapshot_checksum g ns rs m Hg Hns Hrs Hm En Er) as Hck.
  set (snap := mkGraphSnapshot _ _ _ _ _ _ _ _) in Hsnap.
  pose proof (node_facts g ns Hg Hns) as Hnf. pose proof (rel_facts g rs Hg Hrs) as Hrf.
  assert (snapshot_labels snap = lm_label_counts m) as Hlab.
  { unfold snapshot_labels, snap. cbn [gs_nodes]. apply map_eq. intros l. rewrite snapshot_labels_of, (reading_labels g m Hr).
    by rewrite (label_entries_count g ns l Hns). }
  assert (riter validate_node (gs_nodes snap) = Ok ()) as Hvn.
  { apply riter_ok, list.Forall_forall. intros n (x & -> & Hx)%list_elem_of_fmap. by apply (Hnf x Hx). }
  assert (rmap_list edge_payload (gs_edges snap) = Ok (map rel_payload_of rs)) as He1
    by (apply rmap_map; intros r Hr0; by apply (Hrf r Hr0)).
  assert (rmap_list (λ e, let* _ := validate_edge e in edge_payload e) (gs_edges snap) = Ok (map rel_payload_of rs)) as He2
    by (apply rmap_map; intros r Hr0; by apply (Hrf r Hr0)).
  exists snap, (mkSnapshot gen (lm_node_count m) (lm_edge_count m) (lm_label_counts m) (lm_checksum m)). split_and!.
  - unfold build_graph_snapshot. rewrite Hready. cbn [map_err rbind]. rewrite Z.eqb_refl. cbn [negb guard_err rbind].
    rewrite Hm. exact Hsnap.
  - unfold metrics_snapshot_from_graph_snapshot. rewrite Hvn, He2. cbn [rbind]. rewrite (proj2 (Z.ltb_ge _ _) Hgen).
    cbn [guard_err rbind]. change (gs_node_count snap) with (lm_node_count m).
    change (gs_edge_count snap) with (lm_edge_count m). change (gs_nodes snap) with (map snapshot_node_of ns).
    by rewrite Hlab, Hck.
  - apply Hr.
  - apply Hr.
  - unfold check_live_graph_consistency. rewrite Hready. cbn [map_err rbind]. f_equal. unfold check_after_status.
    cbn [snapshot_metric_values mv_generation snap_generation_id]. rewrite Hm'. fold gen.
    rewrite bool_decide_eq_true_2 by done. cbn [negb mv_node_count mv_edge_count mv_label_counts mv_checksum
      snap_node_count snap_edge_count snap_label_counts snap_checksum].
    rewrite (reading_nodes g m Hr), (reading_nodes g m' Hr'), (reading_edges g m Hr), (reading_edges g m' Hr'), Hl, Hsum.
    by rewrite !Z.eqb_refl, String.eqb_refl, bool_decide_eq_true_2.
  - unfold check_live_graph_consistency, check_after_status. cbn [snapshot_metric_values]. rewrite He1. cbn [rbind].
    rewrite Hlab, Hm'. cbn [mv_node_count mv_edge_count mv_label_counts mv_checksum gs_node_count gs_edge_count gs_nodes snap].
    rewrite Hck, (reading_nodes g m Hr), (reading_nodes g m' Hr'), (reading_edges g m Hr), (reading_edges g m' Hr'), Hl, Hsum.
    by rewrite !Z.eqb_refl, String.eqb_refl, bool_decide_eq_true_2.
Qed.
End normal.
End MetricsTheorems.

(** ** Examples *)
Module MetricsExamples.
Import Metrics Snapshots Consistency MetricsTheorems StatusModel StatusStore StatusManager.

#[local] Instance plain_text : PyText.
Proof.
  refine {| py_str v := match v with PStr s => s | PInt z => pretty z | _ => "object" end;
            json_quote s := "'" ++ s ++ "'"; json_float f := "0.0"; isoformat t := pretty t ++ "Z";
            sha256 s := (Z.of_nat (String.length s) * (2 ^ 256 / 3)) mod 2 ^ 256 |}.
  done.
Defined.

Definition node_props (id : string) : props := list_to_map
  [("node_id", text_prop id); ("label", text_prop "Entity"); ("canonical_entity_id", text_prop ("ENT_" ++ id));
   ("properties_json", text_prop "{}"); ("created_at", PvTime 10); ("updated_at", PvTime 20);
   ("sector", text_prop "power")].
Definition edge_props : props := list_to_map
  [("edge_id", text_prop "D2"); ("source_node_id", text_prop "N1"); ("target_node_id", text_prop "N2");
   ("relationship_type", text_prop "SUPPLY_CHAIN"); ("weight", PvVal (PInt 2)); ("properties_json", text_prop "{}");
   ("created_at", PvTime 10); ("updated_at", PvTime 20); ("evidence_refs", PvVal (PList [PStr "E1"; PStr "E9"]))].
Definition n1 : node_key := ("Entity", "N1").
Definition n2 : node_key := ("Entity", "N2").
Definition supply_edge : rel_key := EdgeKey "SUPPLY_CHAIN" n1 n2 "D2".
Definition small_graph : graph :=
  mkGraph (<[n1 := node_props "N1"]> {[n2 := node_props "N2"]}) {[supply_edge := edge_props]}.

Lemma node_props_publishable k id : k = ("Entity", id) → id = "N1" ∨ id = "N2" → node_publishable k (node_props id).
Proof.
  intros -> Hid. split.
  - by split.
  - by destruct Hid as [-> | ->].
  - exists ("ENT_" ++ id). split; [|reflexivity]. by destruct Hid as [-> | ->].
  - reflexivity.
  - repeat constructor; eexists; reflexivity.
  - intros k [v Hv]. revert k v Hv. apply (bool_decide_unpack (map_Forall (λ k _, strip k = k) _)).
    destruct Hid as [-> | ->]; vm_compute; exact I.
Qed.

#[local] Instance prop_plain_dec v : Decision (prop_plain v).
Proof. destruct v; apply _. Defined.

Lemma small_graph_publishable : publishable small_graph.
Proof.
  split.
  - split; apply (bool_decide_unpack (map_Forall (λ _ p, map_Forall (λ _ v, prop_plain v) p) _)); vm_compute; exact I.
  - intros k p. cbn [nodes small_graph]. intros [[<- <-]|[_ [<- <-]%lookup_singleton_Some]]%lookup_insert_Some; apply node_props_publishable; auto.
  - intros k p. cbn [rels small_graph]. intros [<- <-]%lookup_singleton_Some. unfold supply_edge. split; [split; eexists; reflexivity|by split|by split|reflexivity|reflexivity|..].
    + repeat constructor; eexists; reflexivity.
    + intros k [v Hv]. revert k v Hv. apply (bool_decide_unpack (map_Forall (λ k _, strip k = k) _)). vm_compute. exact I.
    + split; [reflexivity|]. intros v [= <-]. exists ["E1"; "E9"]. split; [|reflexivity].
      split_and!; [repeat constructor|apply (bool_decide_unpack _); vm_compute; exact I|repeat constructor].
Qed.

Lemma metrics_are_canonical_witness :
  ∃ m, live_metrics small_graph = Ok m ∧ lm_node_count m = 2 ∧ lm_label_counts m !! "Entity" = Some 2.
Proof.
  destruct (metrics_are_canonical small_graph (map_to_list (nodes small_graph)) (map_to_list (rels small_graph))
    (pub_plain _ small_graph_publishable)) as (m & m0 & _ & Hm & Hr & Hl & _); [reflexivity|reflexivity|].
  exists m0. split; [exact Hm|]. rewrite <- Hl, (reading_labels _ _ Hr).
  split; [|vm_compute; reflexivity].
  assert (match live_metrics small_graph with Ok m => lm_node_count m = 2 | Err _ => False end) as Hc by (vm_compute; reflexivity).
  rewrite Hm in Hc. exact Hc.
Defined.

Lemma snapshot_is_consistent_witness :
  let row := StatusExamples.row_of StatusExamples.ex_ready in
  let ns := map_to_list (nodes small_graph) in
  let rs := map_to_list (rels small_graph) in
  ∃ snapshot m, build_graph_snapshot row (metrics_rows small_graph ns rs) "CYCLE_1" 1 99 = Ok snapshot ∧
    metrics_snapshot_from_graph_snapshot snapshot 1 = Ok m ∧ snap_node_count m = 2 ∧
    check_live_graph_consistency (E := ()) true (Some row) (Ok (MetricsSnapshot m))
      (metrics_rows small_graph (reverse ns) rs) = Ok true.
Proof.
  intros row ns rs.
  destruct (snapshot_is_consistent row StatusExamples.ex_ready small_graph ns rs (reverse ns) rs "CYCLE_1" 99
    small_graph_publishable) as (snapshot & m & H1 & H2 & H3 & _ & H4 & _);
    [split; reflexivity|reflexivity|discriminate|reflexivity|reflexivity|apply reverse_Permutation|reflexivity|].
  exists snapshot, m. split; [exact H1|]. split; [exact H2|]. split; [exact H3|exact H4].
Defined.

(** The links of assertions carry no edge id, so that no snapshot can be taken
    of a graph that has one, although it can be measured. *)
Definition asserted : graph := (SyncExamples.sync SyncExamples.first_plan 500 empty_graph).2.
Example assertions_cannot_be_published :
  build_graph_snapshot (StatusExamples.row_of StatusExamples.ex_ready)
    (metrics_rows asserted (map_to_list (nodes asserted)) (map_to_list (rels asserted))) "CYCLE_1" 1 99
    = Err SnapshotInvalid ∧
  match live_metrics asserted with Ok m => lm_edge_count m | Err _ => 0 end = 3.
Proof. split; vm_compute; reflexivity. Qed.
(** A reload cannot use one either: assertion nodes lack the metric properties. *)
Example assertion_nodes_refused :
  validate_node (mkGraphNode "A1" ["Assertion"]
    (normal_properties (default ∅ (nodes asserted !! ("Assertion", "A1")))) None) =
  Err (MissingProperties "A1" ["label"; "properties_json"; "updated_at"]).
Proof. vm_compute. reflexivity. Qed.
(** A snapshot without its generation never counts as consistent with a status row. *)
Example full_snapshot_needs_no_status :
  check_after_status (E := ()) (Ok (FullSnapshot (mkGraphSnapshot "s" "c" "0.1.3" 0 0 0 [] [])))
    (metrics_rows empty_graph [] []) (Some StatusExamples.ex_ready) = false.
Proof. vm_compute. reflexivity. Qed.
End MetricsExamples.
