(* ===== verification/Promote.v ===== *)
(** * Promote: deltas into the canonical store and the live graph

    [promotion/service.py]: [promote_graph_deltas] with its status barrier. It
    brings together the planner (Promotion.v), the status row (GraphStatus.v),
    the synchronisation (LiveSync.v) and the metrics (LiveMetrics.v). The
    canonical writer is an argument; other processes may call the status
    manager before every access this one makes, and the database may fail. *)
From Stdlib Require Import String Ascii ZArith List SpecFloat.
From stdpp Require Import base gmap strings list.
From S2P Require Import Prelude PyLib GraphStatus Promotion LiveSync LiveMetrics.
Import PromotionModel LiveGraph StatusModel StatusStore StatusManager.
Local Open Scope string_scope.
Local Open Scope Z_scope.

Inductive promote_error :=
| ClientRequired
| ManagerRequired
| PlanError (e : promotion_error)
| StatusFailure (e : status_error)
| CanonicalFailure (message : string)
| TokenChanged (after_sync : bool)
| SyncFailure (e : sync_error)
| MetricsFailure (e : metrics_error)
| DatabaseFailure.

Module Promote.

Section promote.
Context {S C : Type} `{StatusStoreOps S} `{Pydantic} `{PyText}.
(** [canonical_writer.write_canonical_records]: its outcome and what it leaves. *)
Context (write_canonical_records : PromotionPlan → C → result string () * C).
Context (payload_json : pdict → string) (parse_float : string → option spec_float).
Context (canonical_entity_ids_for_node_ids : gset string → gmap string string)
  (existing_entity_ids : gset string → gset string).

(** What the process shares with others. *)
Record world := mkWorld { store : S; canonical : C; live : graph }.

(** What the others do: the calls to the status manager before the [n]-th
    access, whether the write of the synchronisation is lost, and if so after
    it was committed, whether the metrics query is, and the clock. *)
Record surroundings := mkSurroundings {
  others : nat → list status_call;
  write_fault : option bool;
  read_fault : bool;
  clock : Z;
}.
Context (env : surroundings).

(** Programs: they end in an outcome and a world. *)
Definition prog (A : Type) : Type := world → result promote_error A * world.
Definition ret {A} (a : A) : prog A := λ w, (Ok a, w).
Definition lift {E A} (f : E → promote_error) (r : result E A) : prog A := λ w, (map_err f r, w).
Definition bind {A B} (m : prog A) (k : A → prog B) : prog B :=
  λ w, match m w with (Ok a, w') => k a w' | (Err e, w') => (Err e, w') end.
(** [try: m except Exception: handler; raise] *)
Definition on_error {A} (m : prog A) (handler : prog ()) : prog A :=
  λ w, match m w with
       | (Ok a, w') => (Ok a, w')
       | (Err e, w') => (Err e, (handler w').2)
       end.
Local Notation "'do' x <- m ; k" := (bind m (λ x, k)) (at level 10, x binder, m at level 100, k at level 200).

(** The [n]-th access to the status store, after the others' calls. *)
Definition access {A} (n : nat) (f : S → result status_error (A * S)) : prog A :=
  λ w, let s := run_calls (others env n) (store w) in
       match f s with
       | Ok (a, s') => (Ok a, mkWorld s' (canonical w) (live w))
       | Err e => (Err (StatusFailure e), mkWorld s (canonical w) (live w))
       end.
Definition read_status {A} (n : nat) (f : S → result status_error A) : prog A :=
  access n (λ s, let* a := f s in Ok (a, s)).

(** [begin_sync]: the ready row it read and the locked one it wrote. *)
Definition begin_sync (s : S) : result status_error (Neo4jGraphStatus * Neo4jGraphStatus * S) :=
  let* current := read_current_status s in
  let* t := begin_sync_transition current in
  let* '(locked, s') := commit_transition s t in
  let* ready := get_status_of t.1 in
  Ok (ready, locked, s').

Definition require_status_token_unchanged (n : nat) (after : bool) (expected : Neo4jGraphStatus) : prog () :=
  do current <- read_status n get_status;
  lift id (raise_if negb (bool_decide (current = expected)) with TokenChanged after; Ok ()).

(** [sync_live_graph(plan, client)] with its default batch size *)
Definition default_batch_size : nat := 1000.
(** Nothing is sent for a plan that is refused or empty. *)
Definition reaches_database (p : PromotionPlan) : bool :=
  is_ok (Sync.validate_dynamic_identifiers p) &&
  match Sync.sync_clauses payload_json p default_batch_size with [] => false | _ => true end.
Definition sync_plan (p : PromotionPlan) : prog () := λ w,
  let '(res, g) := Sync.sync_live_graph payload_json p default_batch_size (live w) in
  match (if reaches_database p then write_fault env else None) with
  | None => (map_err SyncFailure res, mkWorld (store w) (canonical w) g)
  | Some committed => (Err DatabaseFailure, mkWorld (store w) (canonical w) (if committed then g else live w))
  end.

Definition ready_status_from_live_graph (previous : Neo4jGraphStatus) : prog Neo4jGraphStatus := λ w,
  if read_fault env then (Err DatabaseFailure, w)
  else
    (let* m := map_err MetricsFailure (Metrics.live_metrics (live w)) in
     map_err StatusFailure
       (make_status Ready (graph_generation_id previous + 1) (Metrics.lm_node_count m) (Metrics.lm_edge_count m)
          (Metrics.lm_label_counts m) (Metrics.lm_checksum m) (Some (clock env)) (last_reload_at previous) None),
     w).

(** [_mark_sync_failed_safely] *)
Definition mark_sync_failed_safely (locked : Neo4jGraphStatus) : prog () := λ w,
  (Ok (), (access 5 (run_call (MarkSyncFailed locked 0 0 ∅ "failed")) w).2).

Definition sync_live_graph_with_status_barrier (p : PromotionPlan) : prog () :=
  do '(ready, locked) <- access 1 begin_sync;
  on_error
    (do _ <- require_status_token_unchanged 2 false locked;
     do _ <- sync_plan p;
     do _ <- require_status_token_unchanged 3 true locked;
     do next <- ready_status_from_live_graph ready;
     do _ <- access 4 (run_call (FinishSync locked next));
     ret ())
    (mark_sync_failed_safely locked).

Definition write_canonical (p : PromotionPlan) : prog () := λ w,
  let '(res, c) := write_canonical_records p (canonical w) in
  (map_err CanonicalFailure res, mkWorld (store w) c (live w)).

(** [promote_graph_deltas], from the deltas the reader returned. *)
Definition promote_graph_deltas (cycle_id selection : string) (deltas : list CandidateGraphDelta)
    (has_client has_manager sync_to_live_graph : bool) (allowed : option (gset string)) : prog PromotionPlan :=
  do _ <- lift id (raise_if sync_to_live_graph && negb has_client with ClientRequired; Ok ());
  do _ <- lift id (raise_if sync_to_live_graph && negb has_manager with ManagerRequired; Ok ());
  do p <- lift PlanError (Planner.promotion_plan sha256 parse_float canonical_entity_ids_for_node_ids
    existing_entity_ids cycle_id selection deltas allowed (clock env));
  do _ <- (if sync_to_live_graph then do _ <- read_status 0 require_ready; ret () else ret ());
  do _ <- write_canonical p;
  do _ <- (if sync_to_live_graph then sync_live_graph_with_status_barrier p else ret ());
  ret p.
End promote.
#[global] Arguments world S C : clear implicits.
End Promote.

Module PromoteTheorems.
Import Promote StatusLifecycle StatusSystem StatusSequential.

(** The store after the lock is given up, if that was possible. *)
Definition given_up {S} `{StatusStoreOps S} (locked : Neo4jGraphStatus) (s : S) : S :=
  match run_call (MarkSyncFailed locked 0 0 ∅ "failed") s with Ok (_, s') => s' | Err _ => s end.

Section promote.
Context {S C : Type} `{StatusStoreSpec S store_ok} `{Pydantic} `{PyText}.
Implicit Types (w : world S C) (p : PromotionPlan).
Context (payload_json : pdict → string) (env : surroundings).

(** The other processes use the manager, but never give up a lock that is not
    theirs: [finish_sync] and [mark_sync_failed] are for the holder. *)
Definition respectful (e : surroundings) : Prop :=
  ∀ n, Forall (λ c, call_valid c ∧ releases_lock c = false) (others e n).

(** A call that does not release the lock fails on a locked row. *)
Lemma run_call_locked c (s : S) st : store_ok s → call_valid c → releases_lock c = false →
  read_current_status s = Ok (Some st) → is_locked (Some st) = true → ∃ e, run_call c s = Err e.
Proof using Type*.
  intros Hs Hc Hr Hread Hl. destruct (run_call c s) as [[st' s']|e] eqn:E; [|eauto]. exfalso.
  unfold run_call in E. rinv. assert (a = Some st) as ->.
  { destruct c; simpl in *; try done; rewrite Hread in Ha; by injection Ha as <-. }
  eapply plan_refused_when_locked; [|exact Hl|exact Ha0|exact Hr]. eapply (read_valid store_ok); eauto.
Qed.

Lemma others_locked n (s : S) st : store_ok s → respectful env →
  read_current_status s = Ok (Some st) → is_locked (Some st) = true → run_calls (others env n) s = s.
Proof using Type*.
  intros Hs Hq Hread Hl. specialize (Hq n). induction Hq as [|c cs [Hc Hr] _ IH]; [done|].
  destruct (run_call_locked c s st Hs Hc Hr Hread Hl) as [e He]. by rewrite (run_calls_skip _ _ _ e He).
Qed.

Lemma others_ok n (s : S) : store_ok s → respectful env → store_ok (run_calls (others env n) s).
Proof using Type*.
  intros Hs Hq. destruct (read_total s Hs) as (o & Ho & _). eapply (run_calls_ok (others env n) s o Hs); [|exact Ho].
  eapply Forall_impl; [apply Hq|]. by intros c [? _].
Qed.

Lemma begin_sync_ok (s s' : S) ready locked : store_ok s → begin_sync s = Ok (ready, locked, s') →
  store_ok s' ∧ read_current_status s = Ok (Some ready) ∧ require_ready_status ready = Ok ready ∧
  read_current_status s' = Ok (Some locked) ∧ status_valid locked ∧ is_locked (Some locked) = true ∧
  graph_generation_id locked = graph_generation_id ready ∧ last_reload_at locked = last_reload_at ready.
Proof using Type*.
  intros Hs Hb. unfold begin_sync in Hb. rinv. destruct a1 as [st s1]. rinv.
  pose proof (plan_sound store_ok s BeginSync a a0 Hs I Ha Ha0) as Hps.
  destruct (commit_ok store_ok _ _ _ _ _ Hs Hps Ha1) as (Hr & -> & Hok & Hr').
  unfold begin_sync_transition in Ha0. rinv.
  destruct a as [c|]; [|done]. simpl in Ha3, Ha2. injection Ha3 as <-. injection Ha2 as <-.
  assert (c = a2) as <- by (unfold require_ready_status in Ha4; by rinv).
  unfold copy_status_with_writer_lock in Ha6.
  apply make_status_ok in Ha6 as (Hv & Hg & Hgen & _ & _ & _ & _ & Hrel & Htok & _). simpl in *.
  split_and!; try done. by rewrite Htok.
Qed.

(** Programs step by step. *)
Lemma bind_cases {A B} (m : prog (S := S) (C := C) A) (k : A → prog B) w res w' : bind m k w = (res, w') →
  (∃ a w1, m w = (Ok a, w1) ∧ k a w1 = (res, w')) ∨ ∃ e, m w = (Err e, w') ∧ res = Err e.
Proof using Type.
  unfold bind. destruct (m w) as [[a|e] w1] eqn:E; [intros; left; eauto|]. intros [= <- <-]. right. eauto.
Qed.

(** An access to a locked row finds it as this process left it. *)
Lemma access_locked {A} n (f : S → result status_error (A * S)) w st res w' :
  store_ok (store w) → respectful env → read_current_status (store w) = Ok (Some st) → is_locked (Some st) = true →
  access env n f w = (res, w') →
  (∃ a s', res = Ok a ∧ f (store w) = Ok (a, s') ∧ w' = mkWorld s' (canonical w) (live w)) ∨
  (∃ e, res = Err (StatusFailure e) ∧ w' = w).
Proof using Type*.
  intros Hs Hq Hread Hl. unfold access. rewrite (others_locked n _ st) by done.
  destruct (f (store w)) as [[a s']|e] eqn:E; intros [= <- <-]; [left; eauto|right]. exists e. split; [done|by destruct w].
Qed.

Lemma token_locked n b w st res w' :
  store_ok (store w) → respectful env → read_current_status (store w) = Ok (Some st) → is_locked (Some st) = true →
  require_status_token_unchanged env n b st w = (res, w') → res = Ok () ∧ w' = w.
Proof using Type*.
  intros Hs Hq Hread Hl Ht. unfold require_status_token_unchanged, read_status, bind in Ht. unfold access in Ht.
  rewrite (others_locked n _ st) in Ht by done. unfold get_status in Ht. rewrite Hread in Ht. simpl in Ht.
  rewrite bool_decide_eq_true_2 in Ht by done. simpl in Ht. injection Ht as <- <-. split; [done|by destruct w].
Qed.

Lemma sync_plan_cases p w res w' : sync_plan payload_json env p w = (res, w') →
  let out := Sync.sync_live_graph payload_json p default_batch_size (live w) in
  store w' = store w ∧ canonical w' = canonical w ∧ (live w' = live w ∨ live w' = out.2) ∧
  match res with Ok _ => out = (Ok (), live w') | Err e => ∀ b, e ≠ TokenChanged b end.
Proof using Type.
  unfold sync_plan. destruct (Sync.sync_live_graph _ _ _ _) as [r g]. intros Hs.
  destruct (if reaches_database _ _ then _ else _) as [[]|]; injection Hs as <- <-; simpl.
  1, 2: split_and!; auto; intros b; discriminate.
  split_and!; auto. destruct r as [[]|e]; simpl; [done|]. intros b; discriminate.
Qed.

Abbreviation barrier := (sync_live_graph_with_status_barrier payload_json env).

(** What the barrier does, once it has the lock. *)
Record synchronised (p : PromotionPlan) (ready locked : Neo4jGraphStatus) (s1 : S) (w w' : world S C)
    (res : result promote_error ()) : Prop := {
  sy_canonical : canonical w' = canonical w;
  sy_live : live w' = live w ∨ live w' = (Sync.sync_live_graph payload_json p default_batch_size (live w)).2;
  sy_result : match res with
    | Ok _ => ∃ next m st,
        Sync.sync_live_graph payload_json p default_batch_size (live w) = (Ok (), live w') ∧
        Metrics.live_metrics (live w') = Ok m ∧
        make_status Ready (graph_generation_id ready + 1) (Metrics.lm_node_count m) (Metrics.lm_edge_count m)
          (Metrics.lm_label_counts m) (Metrics.lm_checksum m) (Some (clock env)) (last_reload_at ready) None = Ok next ∧
        run_call (FinishSync locked next) s1 = Ok (st, store w')
    | Err e => (∀ b, e ≠ TokenChanged b) ∧ store w' = given_up locked s1
    end;
}.

Lemma ready_status_cases ready w res w' : ready_status_from_live_graph env ready w = (res, w') →
  w' = w ∧ match res with
  | Ok next => ∃ m, Metrics.live_metrics (live w) = Ok m ∧
      make_status Ready (graph_generation_id ready + 1) (Metrics.lm_node_count m) (Metrics.lm_edge_count m)
        (Metrics.lm_label_counts m) (Metrics.lm_checksum m) (Some (clock env)) (last_reload_at ready) None = Ok next
  | Err e => ∀ b, e ≠ TokenChanged b
  end.
Proof using Type.
  unfold ready_status_from_live_graph. destruct (read_fault env); [by intros [= <- <-]|].
  intros Hr. injection Hr as <- <-. split; [done|]. destruct (Metrics.live_metrics (live w)) as [m|e]; [|done]. simpl.
  destruct (make_status _ _ _ _ _ _ _ _ _) eqn:E; simpl; [eauto|done].
Qed.

Lemma handler_outcome w1 st w : store_ok (store w1) → respectful env →
  read_current_status (store w1) = Ok (Some st) → is_locked (Some st) = true →
  (mark_sync_failed_safely env st w1).2 = w → store w = given_up st (store w1) ∧ canonical w = canonical w1 ∧ live w = live w1.
Proof using Type*.
  intros Hs Hq Hread Hl. unfold mark_sync_failed_safely, access. rewrite (others_locked 5 _ st) by done.
  unfold given_up. destruct (run_call _ _) as [[a s']|e]; by intros <-.
Qed.

Lemma barrier_cases p w res w' :
  store_ok (store w) → respectful env → barrier p w = (res, w') →
  match begin_sync (run_calls (others env 1) (store w)) with
  | Err e => res = Err (StatusFailure e) ∧ w' = mkWorld (run_calls (others env 1) (store w)) (canonical w) (live w)
  | Ok (ready, locked, s1) => synchronised p ready locked s1 w w' res
  end.
Proof using Type*.
  intros Hs Hq Hb. pose proof (others_ok 1 _ Hs Hq) as Hs'. unfold sync_live_graph_with_status_barrier in Hb.
  unfold bind at 1, access at 1 in Hb. destruct (begin_sync _) as [[[ready locked] s1]|e] eqn:E;
    [|by injection Hb as <- <-].
  destruct (begin_sync_ok _ _ _ _ Hs' E) as (Hok & _ & _ & Hread & _ & Hlock & _).
  unfold on_error in Hb. set (w1 := mkWorld s1 (canonical w) (live w)) in Hb.
  match type of Hb with context [match ?m w1 with _ => _ end] => destruct (m w1) as [r w2] eqn:Em end.
  assert (match r with
    | Ok _ => synchronised p ready locked s1 w w2 (Ok ())
    | Err e => (∀ b, e ≠ TokenChanged b) ∧ store w2 = s1 ∧ canonical w2 = canonical w ∧
        (live w2 = live w ∨ live w2 = (Sync.sync_live_graph payload_json p default_batch_size (live w)).2)
    end) as Hbody.
  { clear Hb. apply bind_cases in Em as [(u1 & w3 & H3 & Em)|(e & H3 & ->)];
      apply (token_locked 2 false w1 locked) in H3 as [Hok1 ->]; try done.
    apply bind_cases in Em as [(u2 & w4 & H4 & Em)|(e & H4 & ->)]; apply sync_plan_cases in H4 as (E1 & E2 & E3 & E4); simpl in *;
      [|by split_and!].
    apply bind_cases in Em as [(u3 & w5 & H5 & Em)|(e & H5 & ->)];
      apply (token_locked 3 true w4 locked) in H5 as [Hok2 ->]; rewrite ?E1; try done.
    apply bind_cases in Em as [(next & w6 & H6 & Em)|(e & H6 & ->)]; apply ready_status_cases in H6 as [-> H6];
      [|by split_and!].
    apply bind_cases in Em as [(st & w7 & H7 & Em)|(e & H7 & ->)];
      apply (access_locked 4 _ w4 locked) in H7; rewrite ?E1; try done.
    - unfold ret in Em. injection Em as <- <-. destruct H6 as (m & Hm & Hnext).
      destruct H7 as [(a & s' & [= <-] & Hf & ->)|(e & [=] & _)].
      split; [done|exact E3|]. simpl. exists next, m, st. rewrite E1 in Hf. done.
    - destruct H7 as [(a & s' & [=] & _)|(e' & [= ->] & ->)]. by split_and!. }
  destruct r as [u|e]; injection Hb as <- <-; [by destruct u|].
  destruct Hbody as (H1' & H2' & H3' & H4').
  destruct (handler_outcome w2 locked (access env 5 (run_call (MarkSyncFailed locked 0 0 ∅ "failed")) w2).2 ltac:(by rewrite H2') Hq ltac:(by rewrite H2') Hlock eq_refl) as (G1 & G2 & G3).
  split; [by rewrite G2|by rewrite G3|]. split; [done|]. by rewrite G1, H2'.
Qed.

Context (write_canonical_records : PromotionPlan → C → result string () * C).
Context (parse_float : string → option spec_float).
Context (canonical_entity_ids_for_node_ids : gset string → gmap string string)
  (existing_entity_ids : gset string → gset string).

(** The whole operation, once it is known how far it went. *)
Abbreviation planned cycle_id selection deltas allowed :=
  (Planner.promotion_plan sha256 parse_float canonical_entity_ids_for_node_ids existing_entity_ids cycle_id selection
    deltas allowed (clock env)).
Abbreviation promoted cycle_id selection deltas allowed :=
  (promote_graph_deltas write_canonical_records payload_json parse_float canonical_entity_ids_for_node_ids
    existing_entity_ids env cycle_id selection deltas true true true allowed).

Lemma promote_cases cycle_id selection deltas allowed w res w' :
  store_ok (store w) → respectful env → promoted cycle_id selection deltas allowed w = (res, w') →
  (∃ e, res = Err e ∧ (∀ b, e ≠ TokenChanged b) ∧ canonical w' = canonical w ∧ live w' = live w) ∨
  ∃ p st s0, planned cycle_id selection deltas allowed = Ok p ∧ s0 = run_calls (others env 0) (store w) ∧ store_ok s0 ∧
    require_ready s0 = Ok st ∧
    ((∃ m, res = Err (CanonicalFailure m) ∧ canonical w' = (write_canonical_records p (canonical w)).2 ∧ live w' = live w) ∨
     (∃ r, write_canonical_records p (canonical w) = (Ok (), canonical w') ∧
        (res = match r with Ok _ => Ok p | Err e => Err e end) ∧
        barrier p (mkWorld s0 (canonical w') (live w)) = (r, w'))).
Proof using Type*.
  intros Hs Hq Hp. pose proof (others_ok 0 _ Hs Hq) as Hs0. unfold promote_graph_deltas in Hp.
  unfold bind at 1 in Hp. cbn [lift map_err andb negb guard_err rbind] in Hp. unfold bind at 1 in Hp.
  cbn [lift map_err andb negb guard_err rbind] in Hp. unfold bind at 1, lift at 1 in Hp.
  destruct (planned cycle_id selection deltas allowed) as [p|e] eqn:E; cbn [map_err] in Hp;
    [|injection Hp as <- <-; left; by exists (PlanError e)].
  unfold bind at 1, read_status, access at 1 in Hp. unfold bind at 1 in Hp.
  destruct (require_ready (run_calls (others env 0) (store w))) as [st|e] eqn:Er; cbn [rbind ret] in Hp;
    [|injection Hp as <- <-; left; by exists (StatusFailure e)].
  right. exists p, st, (run_calls (others env 0) (store w)). split_and!; [done..|].
  unfold bind at 1, write_canonical at 1 in Hp. cbn [canonical store live] in Hp.
  destruct (write_canonical_records p (canonical w)) as [[[]|m] c] eqn:Ew; cbn [map_err] in Hp;
    [right|injection Hp as <- <-; left; by exists m].
  unfold bind at 1 in Hp. destruct (barrier p _) as [[u|e] w1] eqn:Eb; [unfold ret in Hp|]; injection Hp as <- <-.
  - exists (Ok u). pose proof Eb as Eb'. apply barrier_cases in Eb; [|done|done]. cbn [store] in Eb.
    destruct (begin_sync _) as [[[r l] s1]|]; [|by destruct Eb]. destruct Eb as [Ec _ _]. simpl in Ec. by rewrite Ec.
  - exists (Err e). pose proof Eb as Eb'. apply barrier_cases in Eb; [|done|done]. cbn [store] in Eb.
    destruct (begin_sync _) as [[[r l] s1]|]; [destruct Eb as [Ec _ _]; simpl in Ec; by rewrite Ec|].
    destruct Eb as [_ ->]. done.
Qed.

Lemma finish_outcome (s : S) locked next st s' : store_ok s → status_valid locked → status_valid next →
  run_call (FinishSync locked next) s = Ok (st, s') →
  read_current_status s' = Ok (Some next) ∧ graph_status next = Ready ∧ writer_lock_token next = None.
Proof using Type*.
  intros Hs Hl Hn Hf. unfold run_call in Hf. rinv.
  pose proof (read_for_sound s (FinishSync locked next) _ _ Hs (conj Hl Hn) Ha Ha0) as Hps.
  destruct (commit_ok store_ok _ _ _ _ _ Hs Hps Hf) as (_ & _ & _ & Hread).
  simpl in Ha0. unfold finish_sync_transition in Ha0. rinv. simpl in Hread. to_prop.
  split_and!; [done|done|by apply dec_stable].
Qed.

(** C12: a promotion that returns has published its plan: the canonical store
    took it, the live graph is the plan's synchronisation of what it was, and
    the status row is ready and unlocked, one generation on, with the counts of
    the graph as it is now; the other processes cannot have come in between. *)
Theorem promotion_publishes cycle_id selection deltas allowed w p w' :
  store_ok (store w) → respectful env → promoted cycle_id selection deltas allowed w = (Ok p, w') →
  planned cycle_id selection deltas allowed = Ok p ∧
  write_canonical_records p (canonical w) = (Ok (), canonical w') ∧
  Sync.sync_live_graph payload_json p default_batch_size (live w) = (Ok (), live w') ∧
  ∃ ready row, graph_status ready = Ready ∧ writer_lock_token ready = None ∧
    read_current_status (store w') = Ok (Some row) ∧ graph_status row = Ready ∧ writer_lock_token row = None ∧
    graph_generation_id row = graph_generation_id ready + 1 ∧
    node_count row = Z.of_nat (size (nodes (live w'))) ∧ edge_count row = Z.of_nat (size (rels (live w'))) ∧
    last_verified_at row = Some (clock env) ∧ last_reload_at row = last_reload_at ready.
Proof using Type*.
  intros Hs Hq Hp. destruct (promote_cases _ _ _ _ _ _ _ Hs Hq Hp) as [(e & [=] & _)|H'].
  destruct H' as (p' & st & s0 & Hplan & -> & Hs0 & Hready & [(m & [=] & _)|(r & Hw & Hr & Hb)]).
  destruct r as [u|e]; [|done]. injection Hr as <-. apply barrier_cases in Hb; [|done|done]. cbn [store] in Hb.
  pose proof (others_ok 1 _ Hs0 Hq) as Hs1. destruct (begin_sync _) as [[[ready locked] s1]|e] eqn:E; [|by destruct Hb].
  destruct (begin_sync_ok _ _ _ _ Hs1 E) as (Hok & _ & Hrr & _ & Hv & _).
  destruct Hb as [_ _ (next & m & st' & Hsync & Hm & Hnext & Hf)]. cbn [live] in Hsync.
  destruct (make_status_ok _ _ _ _ _ _ _ _ _ _ Hnext) as (Hn & Hg & Hgen & Hnc & Hec & _ & Hver & Hrel & _).
  destruct (finish_outcome _ _ _ _ _ Hok Hv Hn Hf) as (Hread & _ & Htok). destruct (MetricsTheorems.live_counts _ _ Hm) as [C1 C2].
  split_and!; [done..|]. exists ready, next. unfold require_ready_status in Hrr. rinv. to_prop.
  split_and!; try done; [by apply dec_stable|congruence|congruence].
Qed.
End promote.

(** ** On the PostgreSQL store *)

(** Rows as the table holds them: written by the store, within its columns. *)
Definition pg_checked (t : PgTable) : Prop := pg_ok t ∧ ∀ r, t = Some r → row_checks r = true.

#[export] Instance pg_checked_spec : StatusStoreSpec PgTable pg_checked.
Proof.
  split.
  - intros t [Ht _]. exact (read_total t Ht).
  - intros t o next [Ht _] Hn Hst Hr. destruct (cas_match t o next Ht Hn Hst Hr) as (t' & Hc & Hok & Hread).
    exists t'. split_and!; [done| |done]. split; [done|]. intros r ->.
    apply (pg_read_ok _ _ Hok) in Hread. simpl in Hread. injection Hread as ->. exact Hst.
  - intros t o expected next [Ht _]. exact (cas_refused t o expected next Ht).
Qed.

(** Giving the lock up exposes the graph as failed. *)
Lemma given_up_reads (t : PgTable) locked : pg_checked t → pg_read t = Ok (Some locked) → status_valid locked →
  is_locked (Some locked) = true →
  pg_read (given_up locked t) =
    Ok (Some (mkStatus Failed (graph_generation_id locked) 0 0 ∅ "failed" None (last_reload_at locked) None)).
Proof.
  intros [Ht Hc] Hr Hv Hl. pose proof (valid_generation _ Hv) as Hg0.
  assert (graph_generation_id locked < 2 ^ 63) as Hg.
  { apply (pg_read_ok _ _ Ht) in Hr. simpl in Hr. specialize (Hc _ Hr). unfold row_checks, fits_bigint in Hc. simpl in Hc.
    to_prop. lia. }
  destruct (fresh_storable Failed (graph_generation_id locked) 0 0 ∅ "failed" None (last_reload_at locked)) as [Hval Hsto];
    [lia..|done|]. change (strip "failed") with "failed" in *.
  assert (plan_call (MarkSyncFailed locked 0 0 ∅ "failed") (Some locked) = Ok (Some locked, mkStatus Failed
    (graph_generation_id locked) 0 0 ∅ "failed" None (last_reload_at locked) None)) as Hp.
  { simpl. unfold sync_failed_transition.
    rewrite (proj2 (holds_sync_lock_true locked)) by (split; [by apply ready_if_locked|done]).
    simpl. by rewrite make_status_succeeds by (done || lia). }
  destruct (pg_run_call_succeeds t (MarkSyncFailed locked 0 0 ∅ "failed") (Some locked) _ Ht Hv Hr Hp eq_refl Hsto)
    as (t' & Hrun & _ & Hread). unfold given_up. by rewrite Hrun.
Qed.

(** C8: a promotion that fails hides nothing: the canonical store is as it was
    or as its writer left it; and unless the live graph is as it was, the
    status row says failed, so that no reader takes the graph for ready. The
    token checks never fail, since the lock keeps the row. *)
Theorem failed_promotion_is_exposed {C} `{Pydantic} `{PyText} write payload_json parse_float nodes_to_entities known env
    cycle_id selection deltas allowed (w w' : world PgTable C) e :
  pg_checked (store w) → respectful env →
  promote_graph_deltas write payload_json parse_float nodes_to_entities known env cycle_id selection deltas
    true true true allowed w = (Err e, w') →
  (∀ b, e ≠ TokenChanged b) ∧
  ((canonical w' = canonical w ∧ live w' = live w) ∨
   ∃ p, Planner.promotion_plan sha256 parse_float nodes_to_entities known cycle_id selection deltas allowed
       (clock env) = Ok p ∧
     canonical w' = (write p (canonical w)).2 ∧
     (live w' = live w ∨
      ∃ row, live w' = (Sync.sync_live_graph payload_json p default_batch_size (live w)).2 ∧
        pg_read (store w') = Ok (Some row) ∧ graph_status row = Failed ∧ writer_lock_token row = None)).
Proof.
  intros Hs Hq Hp. apply (promote_cases (store_ok := pg_checked)) in Hp; [|done|done].
  destruct Hp as [(e' & [= <-] & Ht & -> & ->)|(p & st & s0 & Hplan & -> & Hs0 & _ & Hcase)]; [auto|].
  destruct Hcase as [(m & [= ->] & Hc & Hl)|(r & Hw & Hr & Hb)].
  { split; [by intros b [=]|right]. exists p. auto. }
  destruct r as [u|e']; [done|]. injection Hr as <-. assert (canonical w' = (write p (canonical w)).2) as Hc by (by rewrite Hw).
  apply (barrier_cases (store_ok := pg_checked)) in Hb; [|done|done]. cbn [store] in Hb.
  pose proof (others_ok (store_ok := pg_checked) env 1 _ Hs0 Hq) as Hs1.
  destruct (begin_sync _) as [[[ready locked] s1]|e'] eqn:E.
  2: { destruct Hb as [[= ->] Hw']. split; [by intros b [=]|right]. exists p. split; [done|]. split; [done|left]. by rewrite Hw'. }
  destruct (begin_sync_ok (store_ok := pg_checked) _ _ _ _ Hs1 E) as (Hok & _ & _ & Hread & Hv & Hl & _).
  destruct Hb as [_ Hlive [Ht Hst]]. cbn [live] in Hlive. split; [done|right]. exists p. split; [done|]. split; [done|].
  destruct Hlive as [->|Hlive]; [by left|right]. eexists. split; [exact Hlive|]. rewrite Hst.
  split; [by apply given_up_reads|done].
Qed.
End PromoteTheorems.

(** ** Examples *)
Module PromoteExamples.
Import Promote PromoteTheorems PromotionExamples SyncExamples MetricsExamples.
#[local] Existing Instances PromotionExamples.strict_pydantic MetricsExamples.plain_text.

(** A canonical store that keeps the plans it is given. *)
Definition keep (p : PromotionPlan) (c : list PromotionPlan) : result string () * list PromotionPlan := (Ok (), p :: c).
Definition start : world PgTable (list PromotionPlan) := mkWorld (StatusExamples.row_of StatusExamples.ex_ready) [] first_graph.
(** Another process verifies before the lock is taken and tries to rebuild under it. *)
Definition meddling (n : nat) : list status_call :=
  match n with
  | 1%nat => [MarkVerified (mkSnapshot 1 7 7 ∅ "abc") 50]
  | 2%nat | 3%nat => [MarkRebuilding; MarkFailed 0 0 ∅ "x"]
  | _ => []
  end.
Definition busy (fault : option bool) : surroundings := mkSurroundings meddling fault false 60.
Definition run (fault : option bool) : result promote_error PromotionPlan * world PgTable (list PromotionPlan) :=
  promote_graph_deltas keep size_json no_float known_nodes known_entities (busy fault) "CYCLE_1" "SEL_1" contracts
    true true true None start.

Lemma start_ok : pg_checked (store start).
Proof.
  split; [apply StatusExamples.row_ok, StatusExamples.ex_valid_ready|]. intros r [= <-]. reflexivity.
Qed.
Lemma busy_respectful fault : respectful (busy fault).
Proof. intros [|[|[|[|n]]]]; repeat constructor. Qed.

Definition row_of_world (w : world PgTable (list PromotionPlan)) : option (GraphState * Z * Z * Z * option string) :=
  match pg_read (store w) with
  | Ok (Some st) => Some (graph_status st, graph_generation_id st, node_count st, edge_count st, writer_lock_token st)
  | _ => None
  end.
(** The new company, its holding, and the supply edge that was there already. *)
Example promoted_row :
  (is_ok (run None).1, length (canonical (run None).2), row_of_world (run None).2) =
  (true, 1%nat, Some (Ready, 2, 5, 4, None)).
Proof. vm_compute. reflexivity. Qed.
(** The write is committed, but its answer is lost. *)
Example lost_answer :
  (match (run (Some true)).1 with Err e => Some e | Ok _ => None end, size (nodes (live (run (Some true)).2)),
   row_of_world (run (Some true)).2) = (Some DatabaseFailure, 5%nat, Some (Failed, 1, 0, 0, None)).
Proof. vm_compute. reflexivity. Qed.

Lemma promotion_publishes_witness :
  ∃ p w row, run None = (Ok p, w) ∧ pg_read (store w) = Ok (Some row) ∧ graph_status row = Ready ∧
    edge_count row = Z.of_nat (size (rels (live w))).
Proof.
  assert (is_ok (run None).1 = true) as Hok by (vm_compute; reflexivity).
  destruct (run None) as [[p|e] w] eqn:E; [|discriminate Hok].
  destruct (promotion_publishes (store_ok := pg_checked) size_json (busy None) keep no_float known_nodes known_entities
    "CYCLE_1" "SEL_1" contracts None start p w start_ok (busy_respectful None) E)
    as (_ & _ & _ & ready & row & _ & _ & Hrow & Hst & _ & _ & _ & He & _).
  exists p, w, row. split; [reflexivity|]. split; [exact Hrow|]. split; [exact Hst|exact He].
Defined.

Lemma failed_promotion_is_exposed_witness :
  ∃ e w row, run (Some true) = (Err e, w) ∧ live w ≠ live start ∧ pg_read (store w) = Ok (Some row) ∧
    graph_status row = Failed.
Proof.
  assert (is_ok (run (Some true)).1 = false) as Hok by (vm_compute; reflexivity).
  assert (size (nodes (live (run (Some true)).2)) = 5%nat) as Hsize by (vm_compute; reflexivity).
  destruct (run (Some true)) as [[p|e] w] eqn:E; [discriminate Hok|]. cbn [snd] in Hsize.
  assert (live w ≠ live start) as Hne.
  { intros Hl. rewrite Hl in Hsize. vm_compute in Hsize. discriminate Hsize. }
  destruct (failed_promotion_is_exposed keep size_json no_float known_nodes known_entities (busy (Some true))
    "CYCLE_1" "SEL_1" contracts None start w e start_ok (busy_respectful _) E)
    as [_ [[_ Hl]|(p & _ & _ & [Hl|(row & _ & Hrow & Hst & _)])]].
  - destruct (Hne Hl).
  - destruct (Hne Hl).
  - exists e, w, row. split; [reflexivity|]. split; [exact Hne|]. split; [exact Hrow|exact Hst].
Defined.
End PromoteExamples.
