(* ===== verification/Reload.v ===== *)
(** * Reload: rebuilding the live graph from canonical truth

    [reload/service.py] with [schema/manager.py], [schema/indexes.py] and
    [reload/projection.py]. [ReloadSchema] is the database the reload rebuilds
    and the statements it sends; [Reload] the stages of [cold_reload] and the
    interleavings of the calling thread, which waits for each stage until a
    deadline, with the worker thread, which goes on when the wait is given up. *)
From Stdlib Require Import String Ascii ZArith List SpecFloat Relation_Operators Lexicographic_Product.
From stdpp Require Import base gmap strings list.
From S2P Require Import Prelude PyLib GraphStatus Promotion LiveSync LiveMetrics Promote.
Import PromotionModel LiveGraph StatusModel StatusStore StatusManager.
Local Open Scope string_scope.
Local Open Scope Z_scope.

Module ReloadSchema.

Inductive schema_type := Uniqueness | RangeIndex | LookupIndex.
Inductive entity_type := NodeEntity | RelationshipEntity.
#[export] Instance schema_type_dec : EqDecision schema_type.
Proof. solve_decision. Defined.
#[export] Instance entity_type_dec : EqDecision entity_type.
Proof. solve_decision. Defined.

(** A constraint or index, by its name. *)
Record schema_object := mkObject {
  so_type : schema_type;
  so_entity : entity_type;
  so_label : string;
  so_property : string;
}.
#[export] Instance schema_object_dec : EqDecision schema_object.
Proof. solve_decision. Defined.

(** [get_constraint_statements] and [get_index_statements], as the metadata
    [_parse_constraint_statement] and [_parse_index_statement] read off them. *)
Definition constraint_statements : list (string * schema_object) :=
  map (λ l, ("graph_" ++ lower l.1 ++ "_node_id_unique", mkObject Uniqueness NodeEntity l.1 "node_id")) node_labels.
Definition index_statements : list (string * schema_object) :=
  [("graph_entity_canonical_entity_id_index", mkObject RangeIndex NodeEntity "Entity" "canonical_entity_id");
   ("graph_entity_label_index", mkObject RangeIndex NodeEntity "Entity" "label");
   ("graph_event_cycle_id_index", mkObject RangeIndex NodeEntity "Event" "cycle_id");
   ("graph_assertion_type_index", mkObject RangeIndex NodeEntity "Assertion" "assertion_type");
   ("graph_supply_chain_weight_index", mkObject RangeIndex RelationshipEntity "SUPPLY_CHAIN" "weight");
   ("graph_event_impact_confidence_index", mkObject RangeIndex RelationshipEntity "EVENT_IMPACT" "confidence")].

(** The database: its graph, its constraints and indexes, and the names of the
    projections of its GDS catalog. *)
Record database := mkDatabase {
  db_graph : graph;
  db_schema : gmap string schema_object;
  db_projections : gset string;
}.

(** A statement sent with [execute_write]; [None] when it raises. *)
Inductive write :=
| DeleteLabel (label : string)
| DropObject (name : string)
| SyncPlan (p : PromotionPlan) (batch_size : nat)
| CreateObject (name : string) (o : schema_object)
| DropProjection (name : string)
| Project (name : string).

(** [MATCH (n:label) DETACH DELETE n] *)
Definition delete_label (l : string) (g : graph) : graph :=
  mkGraph (filter (λ kv, kv.1.1 ≠ l) (nodes g))
    (filter (λ kv, (Metrics.rel_ends kv.1).1.1 ≠ l ∧ (Metrics.rel_ends kv.1).2.1 ≠ l) (rels g)).

Definition with_graph (g : graph) (d : database) : database := mkDatabase g (db_schema d) (db_projections d).
Definition with_schema (s : gmap string schema_object) (d : database) : database :=
  mkDatabase (db_graph d) s (db_projections d).
Definition with_projections (ps : gset string) (d : database) : database :=
  mkDatabase (db_graph d) (db_schema d) ps.

Definition apply_write (payload_json : pdict → string) (w : write) (d : database) : option database :=
  match w with
  | DeleteLabel l => Some (with_graph (delete_label l (db_graph d)) d)
  | DropObject n => Some (with_schema (delete n (db_schema d)) d)
  | SyncPlan p size =>
      match Sync.sync_live_graph payload_json p size (db_graph d) with
      | (Ok _, g) => Some (with_graph g d)
      | (Err _, _) => None
      end
  | CreateObject n o =>
      Some (match db_schema d !! n with Some _ => d | None => with_schema (<[n := o]> (db_schema d)) d end)
  | DropProjection n => Some (with_projections (db_projections d ∖ {[n]}) d)
  | Project n => if bool_decide (n ∈ db_projections d) then None else Some (with_projections ({[n]} ∪ db_projections d) d)
  end.

(** [verify_schema] *)
Definition verify_schema (d : database) : bool :=
  forallb (λ no, bool_decide (db_schema d !! no.1 = Some no.2)) (constraint_statements ++ index_statements).

(** [drop_all]'s guard: [test_mode] and the environment variable are off. *)
Definition drop_all_confirmation_token : string := "DROP_GRAPH_ENGINE_LIVE_GRAPH".
Definition drop_all_allowed (token : option string) (state : GraphState) : bool :=
  bool_decide (token = Some drop_all_confirmation_token) && bool_decide (state = Rebuilding).

Definition is_constraint (o : schema_object) : bool := bool_decide (so_type o = Uniqueness).
Definition droppable (constraints : bool) (n : string) (o : schema_object) : bool :=
  startswith "graph_" n && Bool.eqb (is_constraint o) constraints && negb (bool_decide (so_type o = LookupIndex)).
Definition droppable_names (constraints : bool) (d : database) : list string :=
  map fst (filter (λ no, droppable constraints no.1 no.2 = true) (map_to_list (db_schema d))).

(** [_existing_graph_engine_relationship_types] raises on any other type. *)
Definition relationship_types_supported (d : database) : bool :=
  forallb (λ k, valid_relationship_type (Metrics.rel_type k)) (elements (dom (rels (db_graph d)))).
End ReloadSchema.

Module Reload.
Import ReloadSchema.

Record ColdReloadPlan := mkReloadPlan {
  rp_cycle_id : string;
  expected_snapshot : GraphMetricsSnapshot;
  rp_node_records : list GraphNodeRecord;
  rp_edge_records : list GraphEdgeRecord;
  rp_assertion_records : list GraphAssertionRecord;
  projection_name : string;
  rp_created_at : Z;
}.
Definition build_reload_promotion_plan (snapshot_ref : string) (p : ColdReloadPlan) : PromotionPlan :=
  mkPlan (rp_cycle_id p) ("cold-reload:" ++ snapshot_ref) [] (rp_node_records p) (rp_edge_records p)
    (rp_assertion_records p) (rp_created_at p).

(** What a worker does, action by action: [AssertOpen] is the barrier's
    [assert_open], which raises once the barrier has expired; [Send] a write;
    [Plan] the reading half of a status transition and [Commit] its
    compare-and-set; [Require] raises unless what it reads is so; the others
    read and go on with the statements their findings call for. *)
Inductive action :=
| AssertOpen
| Send (w : write)
| Plan (c : status_call)
| Commit (t : transition)
| Require (ok : database → bool)
| DropNames (constraints : bool)
| DropProjectionIfExists (name : string).

Inductive reload_error := NonPositiveBatchSize | NonPositiveTimeout.
Inductive worker_state := Running (program : list action) | Finished | Crashed.
(** The calling thread: it waits for the current stage, handles an exception,
    is about to write the failure it planned, or is done. *)
Inductive caller_state := Waiting | Handling | MarkingFailed (t : transition) | Returned | Raised.

Section reload.
Context `{PyText} (payload_json : pdict → string).
(** The arguments of the call, what the canonical reader returns, and the clock. *)
Context (snapshot_ref : string) (batch_size : nat) (reload_plan : option ColdReloadPlan) (now : Z).

Definition guarded (w : write) : list action := [AssertOpen; Send w].
Definition no_plan : ColdReloadPlan := mkReloadPlan "" (mkSnapshot 0 0 0 ∅ "") [] [] [] "" 0.
Definition the_plan : ColdReloadPlan := default no_plan reload_plan.
Definition the_batch : PromotionPlan := build_reload_promotion_plan snapshot_ref the_plan.

Definition drop_all : list action :=
  Require (λ _, drop_all_allowed (Some drop_all_confirmation_token) Rebuilding) ::
  concat (map (λ l, guarded (DeleteLabel l.1)) node_labels) ++ [DropNames true; DropNames false].
Definition sync_stage : list action :=
  Require (λ _, is_ok (Sync.validate_dynamic_identifiers the_batch)) ::
  match Sync.sync_clauses payload_json the_batch batch_size with
  | [] => []
  | _ => guarded (SyncPlan the_batch batch_size)
  end.
Definition apply_schema : list action :=
  concat (map (λ no, guarded (CreateObject no.1 no.2)) (constraint_statements ++ index_statements)).
Definition rebuild_gds_projection : list action :=
  DropProjectionIfExists (projection_name the_plan) :: Require relationship_types_supported ::
  guarded (Project (projection_name the_plan)).
Definition is_consistent (d : database) : bool :=
  Consistency.check_after_status (E := ()) (Ok (Consistency.MetricsSnapshot (expected_snapshot the_plan)))
    (Metrics.metrics_rows (db_graph d) (map_to_list (nodes (db_graph d))) (map_to_list (rels (db_graph d)))) None.
Definition publish_call : status_call :=
  let m := expected_snapshot the_plan in
  MarkReady (snap_node_count m) (snap_edge_count m) (snap_label_counts m) (snap_checksum m)
    (Some (snap_generation_id m)) true now.

(** The stages in order. *)
Definition stage_program (k : nat) : list action :=
  match k with
  | 0%nat => [AssertOpen; Plan MarkRebuilding]
  | 1%nat => [Require (λ _, match reload_plan with Some _ => true | None => false end)]
  | 2%nat => drop_all
  | 3%nat => sync_stage
  | 4%nat => apply_schema
  | 5%nat => [Require verify_schema]
  | 6%nat => rebuild_gds_projection
  | 7%nat => [Require is_consistent]
  | _ => [AssertOpen; Plan publish_call]
  end.
Definition last_stage : nat := 8.

Record config := mkConfig {
  store : PgTable;
  db : database;
  expired : bool;
  stage : nat;
  worker : worker_state;
  caller : caller_state;
}.
Definition initial (t : PgTable) (d : database) : config := mkConfig t d false 0 (Running (stage_program 0)) Waiting.
(** [entered_rebuilding] *)
Definition entered_rebuilding (c : config) : bool := (1 <=? stage c)%nat.

(** One action of the worker: its rest, and the store and database after it. *)
Definition act (a : action) (expired : bool) (t : PgTable) (d : database)
    : option (list action * PgTable * database) :=
  match a with
  | AssertOpen => if expired then None else Some ([], t, d)
  | Send w => match apply_write payload_json w d with Some d' => Some ([], t, d') | None => None end
  | Plan c =>
      match read_current_status t with
      | Err _ => None
      | Ok o => match plan_call c o with Ok tr => Some ([Commit tr], t, d) | Err _ => None end
      end
  | Commit tr => match commit_transition t tr with Ok (_, t') => Some ([], t', d) | Err _ => None end
  | Require ok => if ok d then Some ([], t, d) else None
  | DropNames constraints =>
      Some (concat (map (λ n, guarded (DropObject n)) (droppable_names constraints d)), t, d)
  | DropProjectionIfExists n =>
      Some (if bool_decide (n ∈ db_projections d) then guarded (DropProjection n) else [], t, d)
  end.

(** What can happen next: the worker acts; an action of its raises, after or
    before its effect; the caller goes on with a stage that is done, in time or
    too late to start the next; its wait times out; its handler acts; an access
    of the handler to the row fails, before its effect or after. *)
Inductive event :=
| EvWorker | EvCrash (after : bool) | EvJoin (late : bool) | EvTimeout | EvHandler | EvHandlerFails (after : bool).

Definition set_worker (w : worker_state) (c : config) : config :=
  mkConfig (store c) (db c) (expired c) (stage c) w (caller c).
Definition set_caller (s : caller_state) (c : config) : config :=
  mkConfig (store c) (db c) (expired c) (stage c) (worker c) s.

Definition worker_step (c : config) : option config :=
  match worker c with
  | Running [] => Some (set_worker Finished c)
  | Running (a :: rest) =>
      match act a (expired c) (store c) (db c) with
      | Some (more, t, d) => Some (mkConfig t d (expired c) (stage c) (Running (more ++ rest)) (caller c))
      | None => Some (set_worker Crashed c)
      end
  | _ => None
  end.

(** [_mark_failed_safely]: the handler reads the row and plans the failure, then
    writes it; what raises there is logged, before the access has its effect or
    after ([Some after]), and the call raises what made it fail. *)
Definition mark_failed_safely (fails : option bool) (c : config) : option config :=
  match caller c, fails with
  | Handling, None =>
      if entered_rebuilding c then
        match read_current_status (store c) with
        | Err _ => Some (set_caller Raised c)
        | Ok o =>
            match plan_call (MarkFailed 0 0 ∅ "failed") o with
            | Ok t => Some (set_caller (MarkingFailed t) c)
            | Err _ => Some (set_caller Raised c)
            end
        end
      else Some (set_caller Raised c)
  | Handling, Some _ => if entered_rebuilding c then Some (set_caller Raised c) else None
  | MarkingFailed _, Some false => Some (set_caller Raised c)
  | MarkingFailed t, _ =>
      match commit_transition (store c) t, fails with
      | Ok (_, s), _ => Some (mkConfig s (db c) (expired c) (stage c) (worker c) Raised)
      | Err _, None => Some (set_caller Raised c)
      | Err _, Some _ => None
      end
  | _, _ => None
  end.

Definition step (e : event) (c : config) : option config :=
  match e with
  | EvWorker => worker_step c
  | EvCrash after =>
      match worker c with
      | Running (a :: _) =>
          if after then
            match act a (expired c) (store c) (db c) with
            | Some (_, t, d) => Some (mkConfig t d (expired c) (stage c) Crashed (caller c))
            | None => None
            end
          else Some (set_worker Crashed c)
      | _ => None
      end
  | EvJoin late =>
      match caller c, worker c with
      | Waiting, Finished =>
          if (stage c =? last_stage)%nat then Some (set_caller Returned c)
          else if late then
            Some (mkConfig (store c) (db c) (expired c) (Datatypes.S (stage c)) Crashed Handling)
          else
            Some (mkConfig (store c) (db c) (expired c) (Datatypes.S (stage c))
              (Running (stage_program (Datatypes.S (stage c)))) Waiting)
      | Waiting, Crashed => Some (set_caller Handling c)
      | _, _ => None
      end
  | EvTimeout =>
      match caller c, worker c with
      | Waiting, Running _ => Some (mkConfig (store c) (db c) true (stage c) (worker c) Handling)
      | _, _ => None
      end
  | EvHandler => mark_failed_safely None c
  | EvHandlerFails after => mark_failed_safely (Some after) c
  end.

Fixpoint run (es : list event) (c : config) : option config :=
  match es with
  | [] => Some c
  | e :: rest => match step e c with Some c' => run rest c' | None => None end
  end.

(** [cold_reload]: the checks of its arguments, then the interleavings. *)
Definition cold_reload (timeout_seconds : spec_float) (t : PgTable) (d : database) (es : list event)
    : result reload_error (option config) :=
  raise_if (batch_size <? 1)%nat with NonPositiveBatchSize;
  raise_if SFleb timeout_seconds (S754_zero false) with NonPositiveTimeout;
  Ok (run es (initial t d)).
End reload.
End Reload.

Module ReloadTheorems.
Import StatusLifecycle StatusSystem StatusSequential PromoteTheorems ReloadSchema Reload.

Section handler.
Context `{PyText} (payload_json : pdict → string).
Context (snapshot_ref : string) (batch_size : nat) (reload_plan : option ColdReloadPlan) (now : Z).

(** The handler only writes the row and moves on. *)
Definition waiting_for (s : caller_state) : nat :=
  match s with Waiting => 3%nat | Handling => 2%nat | MarkingFailed _ => 1%nat | _ => 0%nat end.
Definition is_lost (e : event) : bool := match e with EvHandlerFails _ => true | _ => false end.
Definition of_handler (e : event) : bool := match e with EvHandler | EvHandlerFails _ => true | _ => false end.
Lemma handler_step e c c' : of_handler e = true → step payload_json snapshot_ref batch_size reload_plan now e c = Some c' →
  ∃ t s, c' = mkConfig t (db c) (expired c) (stage c) (worker c) s ∧ s ≠ Waiting ∧ s ≠ Returned ∧
    (waiting_for s < waiting_for (caller c))%nat.
Proof using Type.
  intros He Hs. destruct e; try done; cbn [step] in Hs; unfold mark_failed_safely in Hs; destruct (caller c) eqn:Ec; try done; unfold set_caller in Hs;
    repeat case_match; simplify_eq; (eexists _, _; split; [reflexivity|]); split_and!; try done; simpl; lia.
Qed.
End handler.
Arguments handler_step {_ _ _ _ _ _} e c c' _ _.

Section reload.
Context `{PyText} (payload_json : pdict → string).
Context (snapshot_ref : string) (batch_size : nat) (reload_plan : option ColdReloadPlan) (now : Z).
(** Whether an access of the handler has failed, and the table at the start. *)
Context (lost : Prop) (t0 : PgTable).
Abbreviation batch := (the_batch snapshot_ref reload_plan).
Abbreviation program := (stage_program payload_json snapshot_ref batch_size reload_plan now).

(** ** What a program does to the database *)

(** The database part of an action; the barrier may let it pass. *)
Definition db_act (a : action) (d : database) : option (list action * database) :=
  match a with
  | Send w => match apply_write payload_json w d with Some d' => Some ([], d') | None => None end
  | Require ok => if ok d then Some ([], d) else None
  | DropNames constraints => Some (concat (map (λ n, guarded (DropObject n)) (droppable_names constraints d)), d)
  | DropProjectionIfExists n =>
      Some (if bool_decide (n ∈ db_projections d) then guarded (DropProjection n) else [], d)
  | AssertOpen | Plan _ | Commit _ => Some ([], d)
  end.
Inductive db_step : list action * database → list action * database → Prop :=
| db_step_act a rest d more d' : db_act a d = Some (more, d') → db_step (a :: rest, d) ((more ++ rest)%list, d')
| db_step_plan c tr rest d : db_step (Plan c :: rest, d) (Commit tr :: rest, d).

(** [Q] holds of the database whenever the program has run to its end. *)
Definition wp (l : list action) (d : database) (Q : database → Prop) : Prop :=
  ∀ d', rtc db_step (l, d) ([], d') → Q d'.

Lemma wp_nil d Q : wp [] d Q ↔ Q d.
Proof.
  split; [intros H'; apply H', rtc_refl|]. intros HQ d' Hr. inversion Hr as [|? y ? Hs]; subst; [done|]. inversion Hs.
Qed.

Lemma wp_act a rest d Q : (∀ more d', db_act a d = Some (more, d') → wp (more ++ rest) d' Q) →
  (∀ c, a ≠ Plan c) → wp (a :: rest) d Q.
Proof.
  intros H' Hp d' Hr. inversion Hr as [|? y ? Hs Hr']; subst. inversion Hs; subst; [|by destruct (Hp c)]. by eapply H'.
Qed.

Lemma wp_next a rest d more d' Q : db_act a d = Some (more, d') → wp (a :: rest) d Q → wp (more ++ rest) d' Q.
Proof. intros Ha Hw d2 Hr. apply Hw. eapply rtc_l; [by apply db_step_act|done]. Qed.

(** Actions that leave a part of the database alone. *)
Definition action_keeps {X} (f : database → X) (a : action) : Prop :=
  match a with
  | Send w => ∀ d d', apply_write payload_json w d = Some d' → f d' = f d
  | DropNames _ => ∀ n d d', apply_write payload_json (DropObject n) d = Some d' → f d' = f d
  | DropProjectionIfExists n => ∀ d d', apply_write payload_json (DropProjection n) d = Some d' → f d' = f d
  | _ => True
  end.

Lemma guarded_keeps {X} (f : database → X) w : action_keeps f (Send w) → Forall (action_keeps f) (guarded w).
Proof. intros Hw. repeat constructor. exact Hw. Qed.

Lemma concat_guarded {X A} (f : database → X) (w : A → write) l :
  (∀ x, x ∈ l → action_keeps f (Send (w x))) → Forall (action_keeps f) (concat (map (λ x, guarded (w x)) l)).
Proof.
  induction l as [|x l IH]; intros Hw; cbn [map concat]; [constructor|]. apply Forall_app. split.
  - apply guarded_keeps, Hw. left.
  - apply IH. intros y Hy. apply Hw. by right.
Qed.

Lemma db_act_keeps {X} (f : database → X) a d more d' : action_keeps f a → db_act a d = Some (more, d') →
  f d' = f d ∧ Forall (action_keeps f) more.
Proof.
  destruct a; simpl; intros Hk Ha.
  - by injection Ha as <- <-.
  - destruct (apply_write _ _ _) as [d1|] eqn:E; [|done]. injection Ha as <- <-. split; [by eapply Hk|constructor].
  - by injection Ha as <- <-.
  - by injection Ha as <- <-.
  - destruct (ok d); [|done]. by injection Ha as <- <-.
  - injection Ha as <- <-. split; [done|]. apply concat_guarded. intros n _. exact (Hk n).
  - injection Ha as <- <-. split; [done|]. destruct (bool_decide _); [apply guarded_keeps; exact Hk|constructor].
Qed.

Lemma wp_keeps {X} (f : database → X) l d Q :
  Forall (action_keeps f) l → (∀ d', f d' = f d → Q d') → wp l d Q.
Proof.
  intros Hl HQ d' Hr. apply HQ. clear HQ Q. assert (∀ x y, rtc db_step x y → Forall (action_keeps f) x.1 → f y.2 = f x.2) as H'.
  { induction 1 as [|x y z Hs _ IH]; intros Hx; [done|]. destruct Hs as [a rest d0 more d1 Ha|c tr rest d0]; simpl in *.
    - apply Forall_cons in Hx as [Ha' Hrest]. destruct (db_act_keeps f a d0 more d1 Ha' Ha) as [E Hm].
      rewrite IH; [done|]. by apply Forall_app.
    - apply Forall_cons in Hx as [_ Hrest]. apply IH. by constructor. }
  exact (H' _ _ Hr Hl).
Qed.

(** ** What each stage leaves *)

(** Every node, and the start of every relationship, has one of these labels. *)
Definition within (ls : list string) (g : graph) : Prop :=
  (∀ k p, nodes g !! k = Some p → k.1 ∈ ls) ∧
  (∀ r p, rels g !! r = Some p → (Metrics.rel_ends r).1.1 ∈ ls).
Definition known_labels (g : graph) : Prop := within (map fst node_labels) g.

Lemma within_nil g : within [] g → g = empty_graph.
Proof.
  intros [Hn Hr]. destruct g as [ns rs]. unfold empty_graph. simpl in *. f_equal; apply map_empty; intros k.
  - destruct (ns !! k) as [p|] eqn:E; [|done]. specialize (Hn _ _ E). by apply elem_of_nil in Hn.
  - destruct (rs !! k) as [p|] eqn:E; [|done]. specialize (Hr _ _ E). by apply elem_of_nil in Hr.
Qed.

Lemma within_delete l ls g : within (l :: ls) g → within ls (delete_label l g).
Proof.
  intros [Hn Hr]. split; simpl.
  - intros k p [Hk Hne]%map_lookup_filter_Some. simpl in Hne. specialize (Hn _ _ Hk). set_solver.
  - intros r p [Hk [Hne _]]%map_lookup_filter_Some. simpl in Hne. specialize (Hr _ _ Hk). set_solver.
Qed.

(** The graph the reload is for. *)
Definition rebuilt (g : graph) : Prop := Sync.sync_live_graph payload_json batch batch_size empty_graph = (Ok (), g).
Record stage_ready (k : nat) (d : database) : Prop := {
  sr_known : (k ≤ 2)%nat → known_labels (db_graph d);
  sr_empty : k = 3%nat → db_graph d = empty_graph;
  sr_rebuilt : (4 ≤ k)%nat → rebuilt (db_graph d);
  sr_schema : (6 ≤ k)%nat → verify_schema d = true;
  sr_consistent : (8 ≤ k)%nat → is_consistent reload_plan d = true;
}.

Lemma drop_all_empties d : known_labels (db_graph d) → wp drop_all d (λ d', db_graph d' = empty_graph).
Proof.
  intros Hk. unfold drop_all. cbn [app]. apply wp_act; [|done]. intros more d' [= <- <-]. cbn [app]. revert Hk. unfold known_labels.
  generalize node_labels as ls. intros ls. revert d. induction ls as [|l ls IH]; intros d Hk.
  - apply (wp_keeps db_graph).
    + repeat constructor; intros n d1 d2 E; by injection E as <-.
    + intros d' ->. by apply within_nil.
  - cbn [map concat guarded app]. apply wp_act; [|done]. intros more d1 [= <- <-]. cbn [app].
    apply wp_act; [|done]. intros more d1 E. cbn in E. injection E as <- <-. cbn [app]. apply IH. by apply within_delete.
Qed.

Context (Hsize : (1 ≤ batch_size)%nat).

Lemma sync_stage_rebuilds d : db_graph d = empty_graph →
  wp (sync_stage payload_json snapshot_ref batch_size reload_plan) d (λ d', rebuilt (db_graph d')).
Proof using Type*.
  intros Hd. unfold sync_stage. apply wp_act; [|done]. intros more d1. unfold db_act.
  destruct (is_ok _) eqn:Hv; [|done]. intros [= <- <-]. cbn [app]. destruct (Sync.sync_clauses _ _ _) as [|c cs] eqn:Ec.
  - apply wp_nil. rewrite Hd. unfold rebuilt, Sync.sync_live_graph. rewrite (proj2 (Nat.ltb_ge _ _) Hsize). cbn [guard_err rbind].
    destruct (Sync.validate_dynamic_identifiers batch) as [[]|e]; [|done]. by rewrite Ec.
  - cbn [guarded]. apply wp_act; [|done]. intros more d1 [= <- <-]. cbn [app]. apply wp_act; [|done].
    intros more d1 E. unfold db_act, apply_write in E. rewrite Hd in E.
    destruct (Sync.sync_live_graph payload_json batch batch_size empty_graph) as [[[]|e] g] eqn:Es; [|done].
    injection E as <- <-. by apply wp_nil.
Qed.

Lemma wp_require ok d (Q : database → Prop) : (ok d = true → Q d) → wp [Require ok] d Q.
Proof using Type.
  intros HQ. apply wp_act; [|done]. intros more d' E. simpl in E. destruct (ok d); [|done]. injection E as <- <-.
  apply wp_nil. auto.
Qed.

Lemma apply_schema_keeps : Forall (action_keeps db_graph) apply_schema.
Proof using Type.
  unfold apply_schema. apply (concat_guarded db_graph (λ no : string * schema_object, CreateObject no.1 no.2)).
  intros [n o] _ d d' E. injection E as <-. simpl. by destruct (db_schema d !! n).
Qed.

Lemma projection_keeps : Forall (action_keeps (λ d, (db_graph d, db_schema d))) (rebuild_gds_projection reload_plan).
Proof using Type.
  unfold rebuild_gds_projection. repeat constructor; intros d d' E; simpl in E.
  - by injection E as <-.
  - destruct (bool_decide _); [done|]. by injection E as <-.
Qed.

(** Each stage makes the database ready for the next. *)
Lemma stage_wp k d : (k ≤ 8)%nat → stage_ready k d → wp (program k) d (stage_ready (Datatypes.S k)).
Proof using Type*.
  intros Hk [H1 H2 H3 H4 H5].
  destruct k as [|[|[|[|[|[|[|[|[|k]]]]]]]]]; [..|lia]; unfold stage_program.
  - apply (wp_keeps id); [by repeat constructor|]. unfold id. intros d' ->. split; try lia. auto.
  - apply wp_require. intros _. split; try lia. auto.
  - assert (wp drop_all d (λ d', db_graph d' = empty_graph)) as Hw by (by apply drop_all_empties, H1; lia).
    intros d' Hr. split; try lia. intros _. by apply Hw.
  - assert (wp (sync_stage payload_json snapshot_ref batch_size reload_plan) d (λ d', rebuilt (db_graph d'))) as Hw
      by (by apply sync_stage_rebuilds, H2).
    intros d' Hr. split; try lia. intros _. by apply Hw.
  - apply (wp_keeps db_graph); [apply apply_schema_keeps|]. intros d' E. split; try lia. intros _. rewrite E. apply H3. lia.
  - apply wp_require. intros Hs. split; try lia; auto.
  - apply (wp_keeps (λ d, (db_graph d, db_schema d))); [apply projection_keeps|]. intros d' [= E1 E2]. split; try lia.
    + intros _. rewrite E1. apply H3. lia.
    + intros _. unfold verify_schema. rewrite E2. apply H4. lia.
  - apply wp_require. intros Hs. split; try lia; auto.
  - apply (wp_keeps id); [by repeat constructor|]. unfold id. intros d' ->. split; try lia; intros _; [apply H3|apply H4|apply H5]; lia.
Qed.

(** From the sync on, no stage touches the graph. *)
Lemma late_stage_keeps k : (4 ≤ k)%nat → Forall (action_keeps db_graph) (program k).
Proof using Type*.
  intros Hk. destruct k as [|[|[|[|[|[|[|[|k]]]]]]]]; try lia; unfold stage_program.
  - apply apply_schema_keeps.
  - by repeat constructor.
  - eapply Forall_impl; [apply projection_keeps|]. intros a Ha. destruct a; try done; simpl in *.
    + intros d d' E. apply Ha in E. by injection E.
    + intros n d d' E. specialize (Ha n d d' E). by injection Ha.
    + intros d d' E. specialize (Ha d d' E). by injection Ha.
  - by repeat constructor.
  - by repeat constructor.
Qed.

(** ** The interleavings *)

Abbreviation step_ := (step payload_json snapshot_ref batch_size reload_plan now).
Abbreviation run_ := (run payload_json snapshot_ref batch_size reload_plan now).
Abbreviation publish := (publish_call reload_plan now).

(** The row the reload publishes. *)
Definition published (st : Neo4jGraphStatus) : Prop :=
  let m := expected_snapshot (the_plan reload_plan) in
  graph_status st = Ready ∧ writer_lock_token st = None ∧ graph_generation_id st = snap_generation_id m ∧
  node_count st = snap_node_count m ∧ edge_count st = snap_edge_count m ∧ key_label_counts st = snap_label_counts m ∧
  last_verified_at st = Some now ∧ last_reload_at st = Some now.

(** The remaining program of a stage that makes the status transition [c]. *)
Definition status_program (c : status_call) (l : list action) : Prop :=
  l = [AssertOpen; Plan c] ∨ l = [Plan c] ∨ (∃ t, l = [Commit t] ∧ plan_call c t.1 = Ok t ∧ opt_valid t.1) ∨ l = [].
Definition status_free (a : action) : Prop := match a with Plan _ | Commit _ => False | _ => True end.

Definition done (w : worker_state) : Prop := w = Finished ∨ w = Running [].
Definition idle (w : worker_state) : Prop := match w with Running (_ :: _) => False | _ => True end.

Definition program_shape (k : nat) (w : worker_state) : Prop :=
  match w with
  | Running l =>
      match k with
      | 0%nat => status_program MarkRebuilding l
      | 8%nat => status_program publish l
      | _ => Forall status_free l
      end
  | _ => True
  end.

(** The row while the reload goes on. *)
Definition row_case (c : config) (st : Neo4jGraphStatus) : Prop :=
  match graph_status st with
  | Rebuilding => caller c ≠ Returned ∧ (caller c = Raised → lost) ∧ ¬ (stage c = 8%nat ∧ done (worker c)) ∧
      (∀ t, caller c = MarkingFailed t → t.1 = Some st)
  | Ready => stage c = 8%nat ∧ idle (worker c) ∧ published st
  | Failed => caller c = Raised
  end.

Record row_inv (c : config) : Prop := {
  ri_ok : pg_checked (store c);
  ri_shape : program_shape (stage c) (worker c);
  ri_stage : (stage c ≤ 8)%nat;
  ri_start : stage c = 0%nat → done (worker c) →
    ∃ st, pg_read (store c) = Ok (Some st) ∧ graph_status st = Rebuilding;
  ri_caller : stage c = 0%nat → caller c = Waiting ∨ caller c = Handling ∨ caller c = Raised;
  ri_row : (1 ≤ stage c)%nat → ∃ st, pg_read (store c) = Ok (Some st) ∧ row_case c st;
  ri_failing t : caller c = MarkingFailed t → plan_call (MarkFailed 0 0 ∅ "failed") t.1 = Ok t ∧ opt_valid t.1;
  ri_waiting : caller c = Waiting → expired c = false;
  ri_returned : caller c = Returned → stage c = 8%nat;
  ri_before : stage c = 0%nat → store c = t0 ∨
    ∃ st, pg_read (store c) = Ok (Some st) ∧ graph_status st = Rebuilding ∧ idle (worker c);
}.
Record db_inv (c : config) : Prop := {
  di_program : match worker c with
    | Running l => wp l (db c) (stage_ready (Datatypes.S (stage c)))
    | Finished => stage_ready (Datatypes.S (stage c)) (db c)
    | Crashed => True
    end;
  di_rebuilt : (4 ≤ stage c)%nat → rebuilt (db_graph (db c)) ∧
    match worker c with Running l => Forall (action_keeps db_graph) l | _ => True end;
  di_last : stage c = 8%nat → stage_ready 8 (db c);
}.

Lemma pg_plan_expected t o c tr : pg_checked t → pg_read t = Ok o → plan_call c o = Ok tr →
  releases_lock c = false → tr.1 = o.
Proof using Type. intros _ _ Hp Hc. rewrite (plan_expected _ _ _ Hp). by destruct c. Qed.

(** A status commit of this reload that goes through. *)
Lemma commit_outcome c t tr st t' : pg_checked t → call_valid c → opt_valid tr.1 → plan_call c tr.1 = Ok tr →
  commit_transition t tr = Ok (st, t') →
  pg_checked t' ∧ pg_read t = Ok tr.1 ∧ pg_read t' = Ok (Some tr.2) ∧ status_valid tr.2.
Proof using Type.
  intros Ht Hc Ho Hp Hcm. destruct (commit_ok pg_checked t c tr st t' Ht) as (H1 & _ & H2 & H3); [by split_and!|done|].
  split_and!; [done..|]. by eapply plan_next_valid.
Qed.

Lemma act_db a ex t d more t' d' : act payload_json a ex t d = Some (more, t', d') →
  db_act a d = Some (more, d') ∨ ∃ c tr, a = Plan c ∧ more = [Commit tr] ∧ d' = d.
Proof using Type.
  destruct a; simpl; intros E.
  - left. destruct ex; [done|]. by injection E as <- <- <-.
  - left. destruct (apply_write _ _ _); [|done]. by injection E as <- <- <-.
  - right. destruct (pg_read t) as [o|]; [|done]. destruct (plan_call c o) as [tr|]; [|done]. injection E as <- <- <-. eauto.
  - left. destruct (commit_transition _ _) as [[st s]|]; [|done]. by injection E as <- <- <-.
  - left. destruct (ok d); [|done]. by injection E as <- <- <-.
  - left. by injection E as <- <- <-.
  - left. by injection E as <- <- <-.
Qed.

Lemma act_rebuilt a ex t d more t' d' : act payload_json a ex t d = Some (more, t', d') → action_keeps db_graph a →
  rebuilt (db_graph d) → rebuilt (db_graph d') ∧ Forall (action_keeps db_graph) more.
Proof using Type.
  intros [Ha|(c & tr & -> & -> & ->)]%act_db Hk Hr.
  - destruct (db_act_keeps db_graph a d more d' Hk Ha) as [-> Hm]. done.
  - split; [done|]. by repeat constructor.
Qed.

(** The last stage only makes a status transition. *)
Lemma last_stage_db c a rest more t' d' : row_inv c → stage c = 8%nat → worker c = Running (a :: rest) →
  act payload_json a (expired c) (store c) (db c) = Some (more, t', d') → d' = db c.
Proof using Type.
  intros Hi H8 Hw Ha. pose proof (ri_shape c Hi) as Hs. rewrite Hw, H8 in Hs.
  assert (match a with AssertOpen | Plan _ | Commit _ => True | _ => False end) as Hk.
  { destruct Hs as [[= -> _]|[[= -> _]|[(tr & [= -> _] & _)|[=]]]]; done. }
  destruct a; try done; simpl in Ha; repeat case_match; by simplify_eq.
Qed.

Lemma db_inv_step e c c' : row_inv c → db_inv c → step_ e c = Some c' → db_inv c'.
Proof using Type*.
  intros Hi [Hp Hr Hl] Hs. pose proof (ri_stage c Hi) as Hst. destruct (of_handler e) eqn:Eh.
  { destruct (handler_step e c c' Eh Hs) as (t & s & -> & _). by split. }
  destruct e; try done; cbn [step] in Hs.
  - unfold worker_step in Hs. destruct (worker c) as [[|a rest]| |] eqn:Ew; try done.
    { injection Hs as <-. split; simpl; [by apply wp_nil| |done]. intros Hk. by destruct (Hr Hk). }
    destruct (act _ a _ _ _) as [[[more t] d]|] eqn:Ea; injection Hs as <-; split; simpl; try done.
    + apply act_db in Ea as [Ea|(cl & tr & -> & -> & ->)]; [by eapply wp_next|].
      intros d' Hd. apply Hp. eapply rtc_l; [apply db_step_plan|exact Hd].
    + intros Hk. destruct (Hr Hk) as [Hg Hkeep]. apply Forall_cons in Hkeep as [Hka Hkr].
      destruct (act_rebuilt _ _ _ _ _ _ _ Ea Hka Hg) as [Hg' Hm]. split; [done|]. by apply Forall_app.
    + intros H8. rewrite (last_stage_db c a rest more t d Hi H8 Ew Ea). auto.
    + intros Hk. by destruct (Hr Hk).
  - destruct (worker c) as [[|a rest]| |] eqn:Ew; try done. destruct after.
    + destruct (act _ a _ _ _) as [[[more t] d]|] eqn:Ea; [|done]. injection Hs as <-. split; [done| |]; simpl.
      * intros Hk. destruct (Hr Hk) as [Hg Hkeep]. apply Forall_cons in Hkeep as [Hka Hkr].
        by destruct (act_rebuilt _ _ _ _ _ _ _ Ea Hka Hg).
      * intros H8. rewrite (last_stage_db c a rest more t d Hi H8 Ew Ea). auto.
    + injection Hs as <-. split; [done| |done]. simpl. intros Hk. by destruct (Hr Hk).
  - destruct (caller c), (worker c) eqn:Ew; try done.
    + destruct (Nat.eqb_spec (stage c) last_stage) as [E|Hne].
      { injection Hs as <-. split; simpl; by rewrite ?Ew. }
      assert (Datatypes.S (stage c) ≤ 8)%nat as Hst' by (unfold last_stage in *; lia).
      destruct late; injection Hs as <-; split; try done; cbn [stage db worker].
      * intros Hk. split; [|done]. by apply (sr_rebuilt _ _ Hp).
      * by intros <-.
      * exact (stage_wp _ _ Hst' Hp).
      * intros Hk. split; [by apply (sr_rebuilt _ _ Hp)|]. exact (late_stage_keeps _ Hk).
      * by intros <-.
    + injection Hs as <-. split; simpl; by rewrite ?Ew.
  - destruct (caller c), (worker c) eqn:Ew; try done. injection Hs as <-. split; simpl; by rewrite ?Ew.
Qed.

(** The transitions this reload plans. *)
Lemma rebuilding_next o t : plan_call MarkRebuilding o = Ok t → graph_status t.2 = Rebuilding.
Proof using Type.
  cbn [plan_call]. unfold rebuilding_transition. intros Hp. rinv. simpl.
  match goal with E : make_status _ _ _ _ _ _ _ _ _ = Ok _ |- _ => by apply make_status_ok in E as (_ & ? & _) end.
Qed.

Lemma publish_next o t : plan_call publish o = Ok t →
  published t.2 ∧ ∃ st, o = Some st ∧ t.1 = Some st ∧ graph_status st = Rebuilding.
Proof using Type.
  unfold publish_call. cbn [plan_call]. unfold ready_transition. intros Hp. rinv. to_prop.
  destruct o as [st|]; [|done]. rinv.
  match goal with E : make_status _ _ _ _ _ _ _ _ _ = Ok _ |- _ =>
    apply make_status_ok in E as (_ & H1 & H2 & H3 & H4 & H5 & H6 & H7 & H8 & _) end.
  simpl in *. unfold published. rewrite H1, H2, H3, H4, H5, H6, H7, H8. split; [by split_and!|].
  exists st. split_and!; [done|done|]. unfold state_of in Ha. by injection Ha.
Qed.

Lemma failing_next o t : plan_call (MarkFailed 0 0 ∅ "failed") o = Ok t →
  graph_status t.2 = Failed ∧ ∃ st, o = Some st ∧ t.1 = Some st ∧ graph_generation_id t.2 = graph_generation_id st ∧
    node_count t.2 = 0 ∧ edge_count t.2 = 0.
Proof using Type.
  cbn [plan_call]. unfold failed_transition. intros Hp. rinv. destruct o as [st|]; [|done]. rinv.
  match goal with E : make_status _ _ _ _ _ _ _ _ _ = Ok _ |- _ => apply make_status_ok in E as (_ & H1 & H2 & H3 & H4 & _) end. simpl. split; [done|]. by exists st.
Qed.

Lemma names_status_free ns (w : string → write) : Forall status_free (concat (map (λ n, guarded (w n)) ns)).
Proof using Type. induction ns as [|n ns IH]; simpl; [constructor|]. by repeat constructor. Qed.

Lemma act_status_free a ex t d more t' d' : act payload_json a ex t d = Some (more, t', d') → status_free a →
  t' = t ∧ Forall status_free more.
Proof using Type.
  destruct a; simpl; intros E Hf; try done.
  - destruct ex; [done|]. by injection E as <- <- <-.
  - destruct (apply_write _ _ _); [|done]. by injection E as <- <- <-.
  - destruct (ok d); [|done]. by injection E as <- <- <-.
  - injection E as <- <- <-. split; [done|]. apply names_status_free.
  - injection E as <- <- <-. split; [done|]. destruct (bool_decide _); by repeat constructor.
Qed.

Lemma act_status c t ex d a rest more t' d' : pg_checked t → call_valid c → releases_lock c = false →
  status_program c (a :: rest) → act payload_json a ex t d = Some (more, t', d') →
  pg_checked t' ∧ status_program c (more ++ rest) ∧
  ((t' = t ∧ (more ++ rest)%list ≠ []) ∨
   ((more ++ rest)%list = [] ∧ ∃ tr, plan_call c tr.1 = Ok tr ∧ pg_read t = Ok tr.1 ∧ pg_read t' = Ok (Some tr.2))).
Proof using Type.
  intros Ht Hc Hrel Hp Ha. destruct Hp as [[= -> ->]|[[= -> ->]|[(tr & [= -> ->] & Hplan & Hv)|[=]]]]; simpl in Ha.
  - destruct ex; [done|]. injection Ha as <- <- <-. split_and!; [done|by right; left|by left].
  - destruct (pg_read t) as [o|] eqn:Er; [|done]. destruct (plan_call c o) as [tr|] eqn:Ep; [|done].
    injection Ha as <- <- <-. split_and!; [done| |by left]. right; right; left. exists tr.
    split_and!; [done|by eapply plan_replay|]. rewrite (pg_plan_expected t o c tr Ht Er Ep Hrel).
    by apply (read_valid pg_checked t).
  - destruct (commit_transition t tr) as [[st s]|] eqn:Ecm; [|done]. injection Ha as <- <- <-.
    destruct (commit_outcome c t tr st s Ht Hc Hv Hplan Ecm) as (H1 & H2 & H3 & _).
    split_and!; [done|by right; right; right|]. right. split; [done|]. by exists tr.
Qed.

(** What an action of the worker does to the row. *)
Lemma act_row c a rest more t' d' : row_inv c → worker c = Running (a :: rest) →
  act payload_json a (expired c) (store c) (db c) = Some (more, t', d') →
  pg_checked t' ∧ program_shape (stage c) (Running (more ++ rest)) ∧
  ((t' = store c ∧ (stage c = 0%nat ∨ stage c = 8%nat → (more ++ rest)%list ≠ [])) ∨
   ((more ++ rest)%list = [] ∧ ∃ st, pg_read t' = Ok (Some st) ∧
      ((stage c = 0%nat ∧ graph_status st = Rebuilding) ∨
       (stage c = 8%nat ∧ published st ∧ ∃ old, pg_read (store c) = Ok (Some old) ∧ graph_status old = Rebuilding)))).
Proof using All.
  intros Hi Hw Ha. pose proof (ri_ok c Hi) as Ht. pose proof (ri_shape c Hi) as Hshape. rewrite Hw in Hshape.
  pose proof (ri_stage c Hi) as Hst. unfold program_shape in *.
  destruct (stage c) as [|[|[|[|[|[|[|[|[|k]]]]]]]]]; [| | | | | | | | |lia].
  2-8: apply Forall_cons in Hshape as [Hf Hrest]; destruct (act_status_free _ _ _ _ _ _ _ Ha Hf) as [-> Hm];
    split; [done|]; split; [by apply Forall_app|]; left; split; [done|]; by intros [|].
  - destruct (act_status MarkRebuilding _ _ _ _ _ _ _ _ Ht I eq_refl Hshape Ha) as (H1 & H2 & [[H3 H4]|(H3 & tr & H4 & H5 & H6)]).
    + split; [done|]. split; [done|left; by split].
    + split; [done|]. split; [done|right]. split; [done|]. exists tr.2. split; [done|left]. split; [done|]. by eapply rebuilding_next.
  - destruct (act_status publish _ _ _ _ _ _ _ _ Ht I eq_refl Hshape Ha) as (H1 & H2 & [[H3 H4]|(H3 & tr & H4 & H5 & H6)]).
    + split; [done|]. split; [done|left; by split].
    + split; [done|]. split; [done|right]. split; [done|]. exists tr.2. split; [done|right]. split; [done|].
      apply publish_next in H4 as (Hpub & old & E & _ & Hold). split; [done|]. exists old. by rewrite <- E.
Qed.

Lemma row_case_worker c w st :
  (idle (worker c) → idle w) → (stage c = 8%nat → done w → done (worker c)) →
  row_case c st → row_case (mkConfig (store c) (db c) (expired c) (stage c) w (caller c)) st.
Proof using Type.
  intros Hi Hd. unfold row_case. destruct (graph_status st); cbn [stage worker caller]; [|intros (? & ? & Hn & ?)|done].
  - intros (? & ? & ?). auto.
  - split_and!; [done|done| |done]. intros [H8 Hw]. apply Hn. auto.
Qed.

(** The worker replaced by another that did not touch the store. *)
Lemma row_inv_worker c w d : row_inv c → program_shape (stage c) w → (idle (worker c) → idle w) →
  (stage c = 0%nat ∨ stage c = 8%nat → done w → done (worker c)) →
  row_inv (mkConfig (store c) d (expired c) (stage c) w (caller c)).
Proof using Type.
  intros [H1 H2 H3 H4 H5 H6 H7 H8 H9 H10] Hs Hi Hd. split; cbn [store stage worker caller expired]; try done.
  - intros E Hw. apply H4; auto.
  - intros Hk. destruct (H6 Hk) as (st & Hr & Hc). exists st. split; [done|].
    apply (row_case_worker c w st) in Hc; auto.
  - intros E. destruct (H10 E) as [?|(st & ? & ? & ?)]; [by left|right; exists st; auto].
Qed.

Lemma worker_acts c a rest more t' d' w : row_inv c → worker c = Running (a :: rest) →
  act payload_json a (expired c) (store c) (db c) = Some (more, t', d') →
  w = Running (more ++ rest) ∨ w = Crashed →
  row_inv (mkConfig t' d' (expired c) (stage c) w (caller c)).
Proof using All.
  intros Hi Hw Ha Hcase. destruct (act_row c a rest more t' d' Hi Hw Ha) as (Ht & Hshape & Hrow).
  assert (program_shape (stage c) w) as Hs by (by destruct Hcase as [->| ->]).
  destruct Hrow as [[-> Hne]|(Hnil & st & Hread & Hst)].
  - apply row_inv_worker; [done|done|by rewrite Hw|]. intros Hk [E|E]; destruct Hcase as [->| ->]; try done.
    injection E as E. by destruct (Hne Hk).
  - assert (idle w) as Hidle by (destruct Hcase as [->| ->]; [by rewrite Hnil|done]).
    pose proof (ri_row c Hi) as Hr. destruct Hi as [H1 H2 H3 H4 H5 H6 H7 H8 H9 H10].
    split; cbn [store stage worker caller expired]; try done.
    + intros E Hd. exists st. split; [done|]. by destruct Hst as [[_ ?]|[E' _]]; [|rewrite E in E'].
    + intros Hk. exists st. split; [done|]. destruct Hst as [[E _]|(E & Hpub & old & Hold & Hreb)]; [lia|].
      unfold row_case. pose proof Hpub as (-> & _). cbn [stage worker]. done.
    + intros E. right. exists st. split; [done|]. destruct Hst as [[_ ?]|[E' _]]; [done|]. by rewrite E in E'.
Qed.

Lemma row_inv_join c (late : bool) : row_inv c → caller c = Waiting → worker c = Finished → stage c ≠ last_stage →
  row_inv (mkConfig (store c) (db c) (expired c) (Datatypes.S (stage c))
    (if late then Crashed else Running (program (Datatypes.S (stage c)))) (if late then Handling else Waiting)).
Proof using All.
  intros Hi Hc Hw Hne. pose proof (ri_stage c Hi) as Hst. unfold last_stage in Hne.
  assert (∃ st, pg_read (store c) = Ok (Some st) ∧ graph_status st = Rebuilding) as (st & Hread & Hreb).
  { destruct (stage c) as [|k] eqn:Ek; [apply (ri_start c Hi); [done|by left]|].
    destruct (ri_row c Hi) as (st & Hr & Hcase); [lia|]. exists st. split; [done|]. unfold row_case in Hcase.
    rewrite Hc, Ek in Hcase. destruct (graph_status st); [|done|done]. destruct Hcase as (? & _). lia. }
  destruct Hi as [H1 H2 H3 H4 H5 H6 H7 H8 H9 H10]. split; cbn [store stage worker caller expired]; try done.
  - destruct late; [done|]. cbn [program_shape].
    destruct (stage c) as [|[|[|[|[|[|[|[|k]]]]]]]]; try lia; try (repeat constructor; fail).
    unfold stage_program, sync_stage. constructor; [done|]. destruct (Sync.sync_clauses _ _ _); by repeat constructor.
  - lia.
  - intros _. exists st. split; [done|]. unfold row_case. rewrite Hreb. cbn [caller stage worker].
    split_and!; try (by destruct late). intros [_ [E|E]]; destruct late; try done.
    injection E as E. revert E. clear. destruct (stage c) as [|[|[|[|[|[|[|[|k]]]]]]]]; done.
  - by destruct late.
  - destruct late; [done|]. intros _. by apply H8.
  - by destruct late.
Qed.

(** The handler can always plan and write the failure of a rebuilding row. *)
Lemma failing_plans st : status_valid st → graph_status st = Rebuilding →
  ∃ t, plan_call (MarkFailed 0 0 ∅ "failed") (Some st) = Ok t.
Proof using Type.
  intros Hv Hst. cbn [plan_call]. unfold failed_transition.
  assert (is_locked (Some st) = false) as ->.
  { destruct (is_locked (Some st)) eqn:E; [|done]. apply (ready_if_locked st Hv) in E. congruence. }
  cbn [guard_err rbind]. rewrite bool_decide_eq_true_2 by (unfold state_of; simpl; rewrite Hst; left).
  cbn [negb guard_err rbind]. rewrite make_status_succeeds by (by try apply (valid_generation _ Hv)). eauto.
Qed.

Lemma failing_commits t st tr : pg_checked t → pg_read t = Ok (Some st) →
  plan_call (MarkFailed 0 0 ∅ "failed") (Some st) = Ok tr →
  ∃ t', commit_transition t tr = Ok (tr.2, t').
Proof using All.
  intros [Ht Hc] Hr Hp. destruct (failing_next _ _ Hp) as (_ & st' & [= <-] & E & Hg & Hn & He).
  pose proof (plan_next_valid (MarkFailed 0 0 ∅ "failed") _ tr I Hp) as Hv.
  assert (graph_generation_id st < 2 ^ 63) as Hgen.
  { pose proof Hr as Hr'. apply (pg_read_ok _ _ Ht) in Hr'. simpl in Hr'. specialize (Hc _ Hr').
    unfold row_checks, fits_bigint in Hc. simpl in Hc. to_prop. lia. }
  assert (row_checks (status_write_values tr.2) = true) as Hs by (apply row_checks_valid; [done|lia..]).
  destruct (@cas_match PgTable pg_store_ops pg_ok pg_store_spec t (Some st) tr.2 Ht Hv Hs Hr) as (t' & Hcas & _).
  exists t'. unfold commit_transition. rewrite E, Hcas. done.
Qed.

Lemma row_inv_caller c s : row_inv c → s ≠ Waiting → s ≠ Returned →
  (s = Raised → ∀ st, (1 ≤ stage c)%nat → pg_read (store c) = Ok (Some st) → graph_status st = Rebuilding → lost) →
  (∀ t, s = MarkingFailed t → (1 ≤ stage c)%nat ∧ plan_call (MarkFailed 0 0 ∅ "failed") t.1 = Ok t ∧ opt_valid t.1 ∧
     pg_read (store c) = Ok t.1) →
  (caller c = Raised → s = Raised) →
  row_inv (mkConfig (store c) (db c) (expired c) (stage c) (worker c) s).
Proof using All.
  intros [H1 H2 H3 H4 H5 H6 H7 H8 H9 H10] Hw Hr Hraised Hfail Hkeep. split; cbn [store stage worker caller expired]; try done.
  - intros E. destruct s; auto; try done. destruct (Hfail t eq_refl) as [? _]. lia.
  - intros Hk. destruct (H6 Hk) as (st & Hread & Hc). exists st. split; [done|]. unfold row_case in *.
    destruct (graph_status st) eqn:E; cbn [caller stage worker]; [done| |by apply Hkeep].
    destruct Hc as (_ & _ & Hd & _). split_and!; [done| |done|].
    + intros ->. by apply (Hraised eq_refl st Hk Hread).
    + intros t ->. destruct (Hfail t eq_refl) as (_ & _ & _ & Hread'). rewrite Hread in Hread'. by injection Hread'.
  - intros t ->. destruct (Hfail t eq_refl) as (_ & ? & ? & _). done.
Qed.

(** The failure that the handler planned, written. *)
Lemma row_inv_marked c t st s : row_inv c → caller c = MarkingFailed t → commit_transition (store c) t = Ok (st, s) →
  row_inv (mkConfig s (db c) (expired c) (stage c) (worker c) Raised).
Proof using All.
  intros Hi Ec Ecm. pose proof (ri_ok c Hi) as Ht. destruct (ri_failing c Hi t Ec) as [Hp Hv].
  assert (1 ≤ stage c)%nat as Hk.
  { destruct (stage c) eqn:E; [|lia]. destruct (ri_caller c Hi E) as [?|[?|?]]; congruence. }
  destruct (commit_outcome (MarkFailed 0 0 ∅ "failed") _ t st s Ht I Hv Hp Ecm) as (Hs' & _ & Hread' & _).
  destruct (failing_next _ _ Hp) as [Hf _]. destruct Hi as [H1 H2 H3 H4 H5 H6 H7 H8 H9 H10].
  split; cbn [store stage worker caller expired]; try done; try (intros E; lia).
  intros _. exists t.2. split; [done|]. unfold row_case. by rewrite Hf.
Qed.

(** An access of the handler to the row that fails. *)
Lemma row_inv_lost after c c' : lost → row_inv c → step_ (EvHandlerFails after) c = Some c' → row_inv c'.
Proof using All.
  intros Hlost Hi Hs. pose proof (ri_ok c Hi) as Ht. cbn [step] in Hs. unfold mark_failed_safely in Hs. destruct (caller c) as [| |t| |] eqn:Ec; try done.
  - destruct (entered_rebuilding c); [|done]. injection Hs as <-. unfold set_caller.
    apply row_inv_caller; try done; by rewrite Ec.
  - destruct after; [|injection Hs as <-; unfold set_caller; apply row_inv_caller; try done; by rewrite Ec].
    destruct (commit_transition (store c) t) as [[st' s]|e] eqn:Ecm; [|done]. injection Hs as <-. by eapply row_inv_marked.
Qed.

Lemma row_inv_handler c c' : row_inv c → step_ EvHandler c = Some c' → row_inv c'.
Proof using All.
  intros Hi Hs. pose proof (ri_ok c Hi) as Ht. cbn [step] in Hs. unfold mark_failed_safely in Hs. destruct (caller c) as [| |t| |] eqn:Ec; try done.
  - unfold entered_rebuilding in Hs. destruct (Nat.leb_spec 1 (stage c)) as [Hk|Hk].
    2: { injection Hs as <-. unfold set_caller. apply row_inv_caller; try done; try (by rewrite Ec). intros _ st Hk'. lia. }
    destruct (ri_row c Hi Hk) as (st & Hread & Hcase). cbn [negb] in Hs.
    change (read_current_status (store c)) with (pg_read (store c)) in Hs. rewrite Hread in Hs.
    assert (status_valid st) as Hv by (by apply (@read_valid PgTable pg_store_ops pg_checked pg_checked_spec (store c) (Some st) Ht Hread)).
    destruct (plan_call (MarkFailed 0 0 ∅ "failed") (Some st)) as [t|e] eqn:Ep; injection Hs as <-; unfold set_caller.
    + apply row_inv_caller; try done; try (by rewrite Ec). intros t' [= <-]. destruct (failing_next _ _ Ep) as (_ & st' & [= <-] & E & _).
      split; [done|]. rewrite E. split; [done|]. split; [by intros ? [= <-]|done].
    + apply row_inv_caller; try done; try (by rewrite Ec). intros _ st' _ Hread' Hst. rewrite Hread in Hread'. injection Hread' as <-.
      destruct (failing_plans st Hv Hst) as [t Ht']. congruence.
  - destruct (ri_failing c Hi t Ec) as [Hp Hv].
    assert (1 ≤ stage c)%nat as Hk.
    { destruct (stage c) eqn:E; [|lia]. destruct (ri_caller c Hi E) as [?|[?|?]]; congruence. }
    destruct (ri_row c Hi Hk) as (st & Hread & Hcase).
    destruct (commit_transition (store c) t) as [[st' s]|e] eqn:Ecm; injection Hs as <-.
    + by eapply row_inv_marked.
    + unfold set_caller. apply row_inv_caller; try done; try (by rewrite Ec). intros _ st2 _ Hread2 Hst. rewrite Hread in Hread2.
      injection Hread2 as <-. unfold row_case in Hcase. rewrite Hst in Hcase. destruct Hcase as (_ & _ & _ & Ht1).
      rewrite (Ht1 t Ec) in Hp. destruct (failing_commits _ _ _ Ht Hread Hp) as [t' Ht']. congruence.
Qed.

Lemma row_inv_step e c c' : (is_lost e = true → lost) → row_inv c → step_ e c = Some c' → row_inv c'.
Proof using All.
  intros Hlost Hi Hs. destruct e; [| | | |by apply (row_inv_handler c)|by eapply row_inv_lost; eauto]; cbn [step] in Hs.
  - unfold worker_step in Hs. destruct (worker c) as [[|a rest]| |] eqn:Ew; try done.
    { injection Hs as <-. unfold set_worker. apply row_inv_worker; try done. intros _ _. right. by rewrite Ew. }
    destruct (act _ a _ _ _) as [[[more t] d]|] eqn:Ea; injection Hs as <-.
    + eapply worker_acts; eauto.
    + unfold set_worker. apply row_inv_worker; try done. by intros _ [|].
  - destruct (worker c) as [[|a rest]| |] eqn:Ew; try done. destruct after.
    + destruct (act _ a _ _ _) as [[[more t] d]|] eqn:Ea; [|done]. injection Hs as <-. eapply worker_acts; eauto.
    + injection Hs as <-. unfold set_worker. apply row_inv_worker; try done. by intros _ [|].
  - destruct (caller c) eqn:Ec, (worker c) eqn:Ew; try done.
    + destruct (Nat.eqb_spec (stage c) last_stage) as [E|Hne].
      * injection Hs as <-. destruct Hi as [H1 H2 H3 H4 H5 H6 H7 H8 H9 H10]. unfold set_caller.
        split; cbn [store stage worker caller expired]; try done.
        -- intros E'. by rewrite E' in E.
        -- intros Hk. destruct (H6 Hk) as (st & Hread & Hc). exists st. split; [done|]. unfold row_case in *.
           destruct (graph_status st); cbn [caller stage worker]; [done| |congruence].
           destruct Hc as (_ & _ & Hd & _). exfalso. apply Hd. split; [done|by left].
      * pose proof (row_inv_join c late Hi Ec Ew Hne) as Hj. destruct late; by injection Hs as <-.
    + injection Hs as <-. unfold set_caller. apply row_inv_caller; try done; by rewrite Ec.
  - destruct (caller c) eqn:Ec, (worker c) eqn:Ew; try done. injection Hs as <-.
    assert (row_inv (mkConfig (store c) (db c) (expired c) (stage c) (worker c) Handling)) as [H1 H2 H3 H4 H5 H6 H7 H8 H9 H10]
      by (apply row_inv_caller; try done; try (by rewrite Ec)).
    rewrite Ew in *. by split.
Qed.

Lemma initial_inv d : pg_checked t0 → known_labels (db_graph d) →
  let c := initial payload_json snapshot_ref batch_size reload_plan now t0 d in row_inv c ∧ db_inv c.
Proof using All.
  intros Ht Hd. split.
  - split; simpl; try done; try lia; [by left|intros _ [|]; done|auto|by left].
  - split; simpl; [|lia|lia]. apply (stage_wp 0%nat); [lia|]. split; simpl; try lia. done.
Qed.

Lemma run_inv es c c' : (existsb is_lost es = true → lost) → row_inv c → db_inv c → run_ es c = Some c' → row_inv c' ∧ db_inv c'.
Proof using All.
  revert c. induction es as [|e es IH]; intros c Hlost Hr Hd; simpl; [by intros [= <-]|].
  destruct (step_ e c) as [c1|] eqn:E; [|done]. simpl in Hlost.
  apply IH; [intros E'; apply Hlost; by rewrite E', orb_true_r| |by eapply db_inv_step].
  eapply row_inv_step; [|done|done]. intros E'. apply Hlost. by rewrite E'.
Qed.

Lemma run_app es es' c c' c'' : run_ es c = Some c' → run_ es' c' = Some c'' → run_ (es ++ es') c = Some c''.
Proof using Type.
  revert c. induction es as [|e es IH]; intros c; simpl; [by intros [= ->]|]. destruct (step_ e c); [|done]. apply IH.
Qed.


Lemma cold_reload_runs timeout t d es c :
  cold_reload payload_json snapshot_ref batch_size reload_plan now timeout t d es = Ok (Some c) →
  run_ es (initial payload_json snapshot_ref batch_size reload_plan now t d) = Some c.
Proof using Type. unfold cold_reload. intros Hc. rinv. done. Qed.
End reload.

Section outcomes.
Context `{PyText} (payload_json : pdict → string).
Context (snapshot_ref : string) (batch_size : nat) (reload_plan : option ColdReloadPlan) (now : Z).
(** A run of the reload so far, from a status row and a database. *)
Context (timeout : spec_float) (t : PgTable) (d : database) (es : list event) (c : config).
Context (Ht : pg_checked t) (Hd : known_labels (db_graph d)).
Context (Hrun : cold_reload payload_json snapshot_ref batch_size reload_plan now timeout t d es = Ok (Some c)).

(** An access of the failure handler to the row has failed, and was logged. *)
Abbreviation handler_failed := (existsb is_lost es = true).

Lemma reached : row_inv reload_plan now handler_failed t c ∧
  db_inv payload_json snapshot_ref batch_size reload_plan c ∧ (1 ≤ batch_size)%nat.
Proof using All.
  assert (1 ≤ batch_size)%nat as Hsize.
  { unfold cold_reload in Hrun. destruct (Nat.ltb_spec batch_size 1); [discriminate Hrun|done]. }
  destruct (initial_inv payload_json snapshot_ref batch_size reload_plan now handler_failed t Hsize d Ht Hd) as [H1 H2].
  apply cold_reload_runs in Hrun.
  destruct (run_inv payload_json snapshot_ref batch_size reload_plan now handler_failed t Hsize es _ c id H1 H2 Hrun). done.
Qed.

(** C2: Whatever the worker and the calling thread do in between, timeouts and
    crashes included, once a cold reload has entered the rebuilding state its
    row says ready only when the database holds exactly the graph that syncing
    the canonical plan into an empty database gives, its schema is verified and
    its metrics are those the plan expects; and the row then carries those
    metrics, unlocked. *)
Theorem ready_means_rebuilt st : entered_rebuilding c = true → pg_read (store c) = Ok (Some st) →
  graph_status st = Ready →
  published reload_plan now st ∧ rebuilt payload_json snapshot_ref batch_size reload_plan (db_graph (db c)) ∧
  verify_schema (db c) = true ∧ is_consistent reload_plan (db c) = true.
Proof using All.
  destruct reached as (Hi & Hd' & Hsize). intros Hk%Nat.leb_le Hread Hst.
  destruct (ri_row _ _ _ _ c Hi Hk) as (st' & Hread' & Hcase). rewrite Hread in Hread'. injection Hread' as <-.
  unfold row_case in Hcase. rewrite Hst in Hcase. destruct Hcase as (H8 & _ & Hpub).
  destruct (di_last _ _ _ _ c Hd' H8) as [_ _ H3 H4 H5]. split; [done|]. auto with lia.
Qed.

(** C5: How a cold reload ends. When it returns, the row is the published one
    and the database is rebuilt as it says. When it raises after its first stage,
    the one that marks the row rebuilding, has ended, the row is failed, or ready
    with the rebuilt graph (the answer to the last write was lost), or it is
    still rebuilding, and then an access of the failure handler to the row has
    itself failed and was only logged. When it raises in its first stage, it has
    not marked the row failed: the row is as it was, or says rebuilding because
    the transition went through after all. *)
Theorem reload_ends_truthfully :
  (caller c = Returned → ∃ st, pg_read (store c) = Ok (Some st) ∧ published reload_plan now st ∧
    rebuilt payload_json snapshot_ref batch_size reload_plan (db_graph (db c)) ∧
    verify_schema (db c) = true ∧ is_consistent reload_plan (db c) = true) ∧
  (caller c = Raised → (1 ≤ stage c)%nat → ∃ st, pg_read (store c) = Ok (Some st) ∧
    (graph_status st = Failed ∨
     (published reload_plan now st ∧ rebuilt payload_json snapshot_ref batch_size reload_plan (db_graph (db c))) ∨
     (graph_status st = Rebuilding ∧ ∃ after, EvHandlerFails after ∈ es))) ∧
  (caller c = Raised → stage c = 0%nat →
    store c = t ∨ ∃ st, pg_read (store c) = Ok (Some st) ∧ graph_status st = Rebuilding).
Proof using All.
  destruct reached as (Hi & Hd' & Hsize). split; [|split].
  - intros Hc. pose proof (ri_returned _ _ _ _ c Hi Hc) as H8.
    destruct (ri_row _ _ _ _ c Hi) as (st & Hread & Hcase); [lia|]. exists st. split; [done|].
    destruct (di_last _ _ _ _ c Hd' H8) as [_ _ H3 H4 H5]. unfold row_case in Hcase. rewrite Hc in Hcase.
    destruct (graph_status st); [|by destruct Hcase|done]. destruct Hcase as (_ & _ & Hpub). auto with lia.
  - intros Hc Hk. destruct (ri_row _ _ _ _ c Hi Hk) as (st & Hread & Hcase). exists st. split; [done|].
    unfold row_case in Hcase. rewrite Hc in Hcase. destruct (graph_status st) eqn:E; [| |by left].
    + destruct Hcase as (H8 & _ & Hpub). right; left. split; [done|]. apply (di_last _ _ _ _ c Hd' H8). lia.
    + destruct Hcase as (_ & Hl & _). right; right. split; [done|].
      destruct (proj1 (existsb_exists _ _) (Hl eq_refl)) as (e & He%list_elem_of_In & Hl'). destruct e; try done. by exists after.
  - intros _ Hk. destruct (ri_before _ _ _ _ c Hi Hk) as [?|(st & ? & ? & _)]; [by left|right; by exists st].
Qed.
End outcomes.

Section barrier.
Context `{PyText} (payload_json : pdict → string).
Context (snapshot_ref : string) (batch_size : nat) (reload_plan : option ColdReloadPlan) (now : Z).
Abbreviation program := (stage_program payload_json snapshot_ref batch_size reload_plan now).
Abbreviation step_ := (step payload_json snapshot_ref batch_size reload_plan now).
Abbreviation run_ := (run payload_json snapshot_ref batch_size reload_plan now).

(** ** The barrier *)

(** Every write but one that is about to be sent is behind its own check. *)
Fixpoint checked (l : list action) : Prop :=
  match l with
  | a :: ((Send _ :: _) as rest) => a = AssertOpen ∧ checked rest
  | _ :: rest => checked rest
  | [] => True
  end.
Definition starts_with_send (l : list action) : Prop := match l with Send _ :: _ => True | _ => False end.

Lemma checked_cons a l : checked l → ¬ starts_with_send l → checked (a :: l).
Proof using Type. by destruct l as [|[] l]. Qed.

Lemma checked_app l l' : checked l → checked l' → ¬ starts_with_send l' → checked (l ++ l').
Proof using Type.
  induction l as [|a l IH]; intros Hl Hl' Hs; [done|]. destruct l as [|b l]; cbn [app].
  - by destruct l' as [|[] l'].
  - destruct b; cbn [app] in *; try (cbn in Hl |- *; by apply IH). cbn in Hl. destruct Hl as [-> Hl]. split; [done|]. by apply IH.
Qed.

Lemma checked_guarded {A} (w : A → write) ns l : checked l → ¬ starts_with_send l →
  checked (concat (map (λ n, guarded (w n)) ns) ++ l) ∧ ¬ starts_with_send (concat (map (λ n, guarded (w n)) ns) ++ l).
Proof using Type.
  intros Hl Hs. induction ns as [|n ns [IH1 IH2]]; [done|]. cbn [map concat guarded app]. split; [|by intros []].
  split; [done|]. by apply checked_cons.
Qed.

Lemma checked_program k : checked (program k) ∧ ¬ starts_with_send (program k).
Proof using Type.
  destruct k as [|[|[|[|[|[|[|[|k]]]]]]]]; unfold stage_program; try (cbn; tauto).
  unfold sync_stage. destruct (Sync.sync_clauses _ _ _); cbn; tauto.
Qed.

Lemma act_checked a ex t d more t' d' rest : act payload_json a ex t d = Some (more, t', d') →
  checked (a :: rest) → checked (more ++ rest) ∧ (a ≠ AssertOpen → ¬ starts_with_send (more ++ rest)).
Proof using Type.
  intros Ha Hc. assert (checked rest ∧ (a ≠ AssertOpen → ¬ starts_with_send rest)) as [Hr Hs].
  { destruct rest as [|b rest]; [split; [done|by intros _ []]|].
    destruct b; try (split; [exact Hc|by intros _ []]). destruct Hc as [-> Hc]. done. }
  destruct a; simpl in Ha.
  - destruct ex; [done|]. by injection Ha as <- <- <-.
  - destruct (apply_write _ _ _); [|done]. injection Ha as <- <- <-. auto.
  - destruct (pg_read t) as [o|]; [|done]. destruct (plan_call c o); [|done]. injection Ha as <- <- <-.
    split; [by apply checked_cons; [|apply Hs]|by intros _ []].
  - destruct (commit_transition _ _) as [[]|]; [|done]. injection Ha as <- <- <-. auto.
  - destruct (ok d); [|done]. injection Ha as <- <- <-. auto.
  - injection Ha as <- <- <-. destruct (checked_guarded DropObject (droppable_names constraints d) rest Hr) as [H1 H2]; [by apply Hs|].
    done.
  - injection Ha as <- <- <-. destruct (bool_decide _); [|auto].
    destruct (checked_guarded DropProjection [name] rest Hr) as [H1 H2]; [by apply Hs|]. done.
Qed.

Definition checked_worker (c : config) : Prop := match worker c with Running l => checked l | _ => True end.

Lemma checked_step e c c' : checked_worker c → step_ e c = Some c' → checked_worker c'.
Proof using Type.
  unfold checked_worker. intros Hc Hs. destruct (of_handler e) eqn:Eh.
  { by destruct (handler_step e c c' Eh Hs) as (t & s & -> & _). }
  destruct e; try done; cbn [step] in Hs.
  - unfold worker_step in Hs. destruct (worker c) as [[|a rest]| |]; try done; [by injection Hs as <-|].
    destruct (act _ a _ _ _) as [[[more t] d]|] eqn:Ea; injection Hs as <-; [|done].
    by destruct (act_checked _ _ _ _ _ _ _ _ Ea Hc).
  - destruct (worker c) as [[|a rest]| |]; try done. destruct after; [|by injection Hs as <-].
    destruct (act _ a _ _ _) as [[[more t] d]|]; [|done]. by injection Hs as <-.
  - destruct (caller c), (worker c) eqn:Ew; try done; [|injection Hs as <-; simpl; by rewrite Ew].
    destruct (stage c =? last_stage)%nat; [injection Hs as <-; simpl; by rewrite Ew|].
    destruct late; injection Hs as <-; [done|]. exact (proj1 (checked_program (Datatypes.S (stage c)))).
  - destruct (caller c), (worker c) eqn:Ew; try done. injection Hs as <-. exact Hc.
Qed.

Lemma act_same_db a ex t d more t' d' : act payload_json a ex t d = Some (more, t', d') →
  d' = d ∨ ∃ w, a = Send w ∧ more = [] ∧ apply_write payload_json w d = Some d'.
Proof using Type.
  intros Ha. destruct a; simpl in Ha;
    try (left; repeat case_match; by simplify_eq).
  right. exists w. destruct (apply_write payload_json w d); [|done]. by injection Ha as <- <- <-.
Qed.

Definition quiet (c : config) : Prop := match worker c with Running l => ¬ starts_with_send l | _ => True end.

(** After the deadline a step changes the database only by a write that was
    already let through, and lets no other through. *)
Lemma expired_step e c c' : expired c = true → caller c ≠ Waiting → checked_worker c → step_ e c = Some c' →
  expired c' = true ∧ caller c' ≠ Waiting ∧
  ((db c' = db c ∧ (worker c' = worker c ∨ quiet c')) ∨
   ∃ w rest, worker c = Running (Send w :: rest) ∧ apply_write payload_json w (db c) = Some (db c') ∧ quiet c').
Proof using Type.
  unfold checked_worker, quiet. intros Hx Hw Hc Hs.
  assert (∀ w, match w with Running l => ¬ starts_with_send l | _ => True end → c' = set_worker w c →
    expired c' = true ∧ caller c' ≠ Waiting ∧ db c' = db c ∧ match worker c' with Running l => ¬ starts_with_send l | _ => True end)
    as Hset by (intros w Hq ->; done).
  destruct (of_handler e) eqn:Eh.
  { destruct (handler_step e c c' Eh Hs) as (t & s & -> & Hne & _). cbn [expired caller db worker]. auto 6. }
  destruct e; try done; cbn [step] in Hs.
  - unfold worker_step in Hs. destruct (worker c) as [[|a rest]| |] eqn:Ew; try done.
    { injection Hs as <-. destruct (Hset Finished I eq_refl) as (? & ? & ? & ?). auto 6. }
    destruct (act _ a _ _ _) as [[[more t] d]|] eqn:Ea; injection Hs as <-;
      [|destruct (Hset Crashed I eq_refl) as (? & ? & ? & ?); auto 6].
    destruct (act_checked _ _ _ _ _ _ _ _ Ea Hc) as [_ Hq]. cbn [worker expired caller db].
    assert (a ≠ AssertOpen) as Hne by (intros ->; simpl in Ea; by rewrite Hx in Ea).
    split; [done|]. split; [done|].
    destruct (act_same_db _ _ _ _ _ _ _ Ea) as [->|(w & -> & -> & E)]; [left; auto|right]. exists w, rest. auto.
  - destruct (worker c) as [[|a rest]| |] eqn:Ew; try done. destruct after.
    2: { injection Hs as <-. destruct (Hset Crashed I eq_refl) as (? & ? & ? & ?). auto 6. }
    destruct (act _ a _ _ _) as [[[more t] d]|] eqn:Ea; [|done]. injection Hs as <-. cbn [worker expired caller db].
    split; [done|]. split; [done|].
    destruct (act_same_db _ _ _ _ _ _ _ Ea) as [->|(w & -> & -> & E)]; [left; auto|right]. by exists w, rest.
  - by destruct (caller c).
  - by destruct (caller c).
Qed.

Lemma expired_run es c c' : expired c = true → caller c ≠ Waiting → checked_worker c → run_ es c = Some c' →
  (quiet c → db c' = db c) ∧
  (db c' = db c ∨ ∃ w rest, worker c = Running (Send w :: rest) ∧ apply_write payload_json w (db c) = Some (db c')).
Proof using Type.
  revert c. induction es as [|e es IH]; intros c Hx Hw Hc Hr; simpl in Hr; [injection Hr as <-; auto|].
  destruct (step_ e c) as [c1|] eqn:E; [|done]. pose proof (checked_step e c c1 Hc E) as Hc1.
  destruct (expired_step e c c1 Hx Hw Hc E) as (Hx1 & Hw1 & Hdb). destruct (IH c1 Hx1 Hw1 Hc1 Hr) as [H1 H2].
  destruct Hdb as [[Hdb Hwk]|(w & rest & Hwk & Happ & Hq)].
  - rewrite Hdb in H1, H2. destruct Hwk as [Hwk|Hq]; [|by split; auto].
    unfold quiet in *. rewrite Hwk in H1, H2. auto.
  - split; [|right; exists w, rest; by rewrite (H1 Hq)]. unfold quiet. rewrite Hwk. by intros [].
Qed.

Lemma checked_run es c c' : checked_worker c → run_ es c = Some c' → checked_worker c'.
Proof using Type.
  revert c. induction es as [|e es IH]; intros c Hc; simpl; [by intros [= <-]|].
  destruct (step_ e c) as [c1|] eqn:E; [|done]. apply IH. by eapply checked_step.
Qed.

(** ** Termination *)

(** The actions that still have to find out what to do. *)
Definition discovers (a : action) : nat :=
  match a with DropNames _ | DropProjectionIfExists _ | Plan _ => 1%nat | _ => 0%nat end.
Definition discoveries (l : list action) : nat := sum_list (map discovers l).

Lemma discoveries_app l l' : discoveries (l ++ l') = (discoveries l + discoveries l')%nat.
Proof using All. unfold discoveries. rewrite map_app. induction (map discovers l); simpl; lia. Qed.

Lemma act_discovers a ex t d more t' d' : act payload_json a ex t d = Some (more, t', d') →
  discoveries more = 0%nat ∧ (discovers a = 0%nat → more = []).
Proof using All.
  assert (∀ A (w : A → write) ns, discoveries (concat (map (λ n, guarded (w n)) ns)) = 0%nat) as H'.
  { intros A w ns. induction ns as [|n ns IH]; [done|]. cbn [map concat]. rewrite discoveries_app, IH. done. }
  destruct a; simpl; intros E; repeat case_match; simplify_eq; try done.
Qed.

(** What is left of the worker's program: discoveries first. *)
Definition work (w : worker_state) : nat * nat :=
  match w with Running l => (discoveries l, Datatypes.S (length l)) | _ => (0%nat, 0%nat) end.
Definition measure (c : config) : nat * (nat * (nat * nat)) :=
  ((8 - stage c)%nat, (waiting_for (caller c), work (worker c))).
Abbreviation lex2 := (slexprod nat nat lt lt).
Abbreviation lex3 := (slexprod nat (nat * nat) lt lex2).
Abbreviation lex4 := (slexprod nat (nat * (nat * nat)) lt lex3).

Lemma lex4_wf : well_founded lex4.
Proof using Type. repeat (apply wf_slexprod; [apply lt_wf|]). apply lt_wf. Qed.

Lemma work_step a rest ex t d more t' d' : act payload_json a ex t d = Some (more, t', d') →
  lex2 (work (Running (more ++ rest))) (work (Running (a :: rest))).
Proof using All.
  intros Ha. destruct (act_discovers _ _ _ _ _ _ _ Ha) as [Hm Hz]. unfold work.
  replace (discoveries (a :: rest)) with (discovers a + discoveries rest)%nat by done. rewrite discoveries_app, Hm.
  destruct (discovers a) as [|n]; [rewrite (Hz eq_refl); right; simpl; lia|left; lia].
Qed.

Lemma work_ends w l : w = Finished ∨ w = Crashed → lex2 (work w) (work (Running l)).
Proof using Type. intros Hw. assert (work w = (0%nat, 0%nat)) as -> by (by destruct Hw as [->| ->]). unfold work.
  destruct (discoveries l); [right|left]; lia.
Qed.

(** What holds of the calling thread whatever the store does. *)
Record caller_inv (c : config) : Prop := {
  ci_stage : (stage c ≤ 8)%nat;
  ci_open : caller c = Waiting → expired c = false;
  ci_done : caller c = Returned → worker c = Finished ∧ stage c = 8%nat;
}.

Lemma caller_inv_step e c c' : caller_inv c → step_ e c = Some c' → caller_inv c' ∧ lex4 (measure c') (measure c).
Proof using All.
  intros [H1 H2 H3] Hs. unfold measure.
  assert (∀ t d w l, worker c = Running l → lex2 (work w) (work (Running l)) →
    caller_inv (mkConfig t d (expired c) (stage c) w (caller c)) ∧
    lex4 ((8 - stage c)%nat, (waiting_for (caller c), work w))
      ((8 - stage c)%nat, (waiting_for (caller c), work (worker c)))) as Hworker.
  { intros t d w l Hw Hl. split.
    - split; cbn [stage caller expired worker]; [done|done|]. intros Hc. destruct (H3 Hc). congruence.
    - right. right. by rewrite Hw. }
  assert (∀ t ex s, (waiting_for s < waiting_for (caller c))%nat → (s = Returned → worker c = Finished ∧ stage c = 8%nat) →
    caller_inv (mkConfig t (db c) ex (stage c) (worker c) s) ∧
    lex4 ((8 - stage c)%nat, (waiting_for s, work (worker c)))
      ((8 - stage c)%nat, (waiting_for (caller c), work (worker c)))) as Hcaller.
  { intros t ex s Hlt Hr. split; [|right; left; done]. split; cbn [stage caller expired worker]; [done| |done].
    intros ->. destruct (caller c); simpl in Hlt; lia. }
  destruct (of_handler e) eqn:Eh.
  { destruct (handler_step e c c' Eh Hs) as (t & s & -> & _ & Hr & Hlt). by apply (Hcaller t (expired c) s). }
  destruct e; try done; cbn [step] in Hs.
  - unfold worker_step in Hs. destruct (worker c) as [[|a rest]| |] eqn:Ew; try done.
    { injection Hs as <-. apply (Hworker (store c) (db c) Finished []); [done|]. apply work_ends. by left. }
    destruct (act _ a _ _ _) as [[[more t] d]|] eqn:Ea; injection Hs as <-;
      [apply (Hworker t d (Running (more ++ rest)) (a :: rest)); [done|]; by eapply work_step|].
    apply (Hworker (store c) (db c) Crashed (a :: rest)); [done|]. apply work_ends. by right.
  - destruct (worker c) as [[|a rest]| |] eqn:Ew; try done.
    assert (∃ t d, c' = mkConfig t d (expired c) (stage c) Crashed (caller c)) as (t & d & ->).
    { destruct after; [destruct (act _ a _ _ _) as [[[more t] d]|]; [|done]|]; injection Hs as <-; by eexists _, _. }
    apply (Hworker t d Crashed (a :: rest)); [done|]. apply work_ends. by right.
  - destruct (caller c) eqn:Ec, (worker c) eqn:Ew; try done.
    + destruct (Nat.eqb_spec (stage c) last_stage) as [E|Hne].
      * injection Hs as <-. unfold set_caller. rewrite Ew. apply (Hcaller (store c) (expired c) Returned); [simpl; lia|done].
      * unfold last_stage in Hne. destruct late; injection Hs as <-; (split; [|left; cbn [stage]; lia]);
          split; cbn [stage caller expired worker]; try done; try lia; auto.
    + injection Hs as <-. unfold set_caller. rewrite Ew. apply (Hcaller (store c) (expired c) Handling); [simpl; lia|done].
  - destruct (caller c) eqn:Ec, (worker c) eqn:Ew; try done. injection Hs as <-.
    apply (Hcaller (store c) true Handling); [simpl; lia|done].
Qed.

Lemma initial_caller_inv t d : caller_inv (initial payload_json snapshot_ref batch_size reload_plan now t d).
Proof using Type. split; simpl; [lia|done|done]. Qed.

Lemma caller_inv_run es c c' : caller_inv c → run_ es c = Some c' → caller_inv c'.
Proof using All.
  revert c. induction es as [|e es IH]; intros c Hc; simpl; [by intros [= <-]|].
  destruct (step_ e c) as [c1|] eqn:E; [|done]. apply IH. by apply (caller_inv_step e c).
Qed.

Lemma next_event c : caller c = Returned ∨ caller c = Raised ∨ ∃ e c', step_ e c = Some c'.
Proof using Type.
  destruct (caller c) eqn:Ec; [right; right|right; right; exists EvHandler|right; right; exists EvHandler|auto|auto];
    cbn [step]; unfold mark_failed_safely; rewrite ?Ec.
  - destruct (worker c) as [[|a rest]| |] eqn:Ew.
    + exists EvWorker. cbn [step]. unfold worker_step. rewrite Ew. eauto.
    + exists EvWorker. cbn [step]. unfold worker_step. rewrite Ew. destruct (act _ a _ _ _) as [[[? ?] ?]|]; eauto.
    + exists (EvJoin false). cbn [step]. rewrite Ec, Ew. destruct (_ =? _)%nat; eauto.
    + exists (EvJoin false). cbn [step]. rewrite Ec, Ew. eauto.
  - repeat case_match; eauto.
  - destruct (commit_transition _ _) as [[? ?]|]; eauto.
Qed.

Lemma caller_inv_acc c : caller_inv c → Acc (λ c2 c1, ∃ e, step_ e c1 = Some c2) c.
Proof using All.
  remember (measure c) as m eqn:Hm. revert c Hm. induction (lex4_wf m) as [m _ IH]. intros c -> Hc.
  constructor. intros c' [e He]. destruct (caller_inv_step e c c' Hc He) as [Hc' Hlt]. by apply (IH _ Hlt).
Qed.


(** C22: After the deadline has passed no further write reaches the database:
    whatever happens next, the database stays as it is, but for one write that
    the barrier had already let through when it expired. *)
Theorem barrier_stops_worker timeout t d es c es' c' :
  cold_reload payload_json snapshot_ref batch_size reload_plan now timeout t d es = Ok (Some c) →
  expired c = true → run_ es' c = Some c' →
  db c' = db c ∨ ∃ w rest, worker c = Running (Send w :: rest) ∧ apply_write payload_json w (db c) = Some (db c').
Proof using Type.
  intros Hr%cold_reload_runs Hx Hr'.
  pose proof (caller_inv_run _ _ _ (initial_caller_inv t d) Hr) as [_ Hopen _].
  assert (checked_worker c) as Hc by (eapply checked_run; [|exact Hr]; exact (proj1 (checked_program 0))).
  apply (expired_run es' c c' Hx); [|done|done]. intros Hw. apply Hopen in Hw. congruence.
Qed.

(** C31: A cold reload ends: from no point of it can events go on for ever, and
    until the call has returned or raised there is a next one. *)
Theorem reload_terminates timeout t d es c :
  cold_reload payload_json snapshot_ref batch_size reload_plan now timeout t d es = Ok (Some c) →
  Acc (λ c2 c1, ∃ e, step_ e c1 = Some c2) c ∧
  (caller c = Returned ∨ caller c = Raised ∨ ∃ e c', step_ e c = Some c').
Proof using Type.
  intros Hr%cold_reload_runs. split; [apply caller_inv_acc, (caller_inv_run _ _ _ (initial_caller_inv t d) Hr)|].
  apply next_event.
Qed.
End barrier.
End ReloadTheorems.

Module ReloadExamples.
Import StatusSystem PromoteTheorems SyncExamples MetricsExamples ReloadSchema Reload ReloadTheorems.
#[local] Existing Instance MetricsExamples.plain_text.

Definition canonical_batch : PromotionPlan :=
  mkPlan "CYCLE_1" "cold-reload:SNAP_1" [] [company "N1"; company "N2"] [supplies "N1" "N2"] [announced] 99.
Definition canonical_graph : graph := (sync canonical_batch 500 empty_graph).2.
Definition canonical_metrics : GraphMetricsSnapshot :=
  match Metrics.live_metrics canonical_graph with
  | Ok m => mkSnapshot 7 (Metrics.lm_node_count m) (Metrics.lm_edge_count m) (Metrics.lm_label_counts m) (Metrics.lm_checksum m)
  | Err _ => mkSnapshot 0 0 0 ∅ ""
  end.
Definition canonical : ColdReloadPlan :=
  mkReloadPlan "CYCLE_1" canonical_metrics (node_records canonical_batch) (edge_records canonical_batch)
    (assertion_records canonical_batch) "main" 99.
(** A live graph that has drifted, with a constraint of the schema, an index
    that is none and a projection of the same name. *)
Definition drifted : database :=
  mkDatabase first_graph
    (list_to_map [("graph_entity_node_id_unique", mkObject Uniqueness NodeEntity "Entity" "node_id");
                  ("graph_old_index", mkObject RangeIndex NodeEntity "Entity" "sector")]) {["main"; "other"]}.
Definition ready_row : PgTable := StatusExamples.row_of StatusExamples.ex_ready.
Definition reload (es : list event) : result reload_error (option config) :=
  cold_reload size_json "SNAP_1" 500 (Some canonical) 60 (float_of_Z 300) ready_row drifted es.
Definition continue : list event → config → option config := run size_json "SNAP_1" 500 (Some canonical) 60.

(** The undisturbed run, as long as it lasts. *)
Definition next (c : config) : option event :=
  match caller c, worker c with
  | Waiting, Running _ => Some EvWorker
  | Waiting, _ => Some (EvJoin false)
  | Handling, _ | MarkingFailed _, _ => Some EvHandler
  | _, _ => None
  end.
Fixpoint undisturbed (n : nat) (c : config) : list event :=
  match n, next c with
  | Datatypes.S n, Some e =>
      match step size_json "SNAP_1" 500 (Some canonical) 60 e c with Some c' => e :: undisturbed n c' | None => [e] end
  | _, _ => []
  end.
Definition start : config := initial size_json "SNAP_1" 500 (Some canonical) 60 ready_row drifted.
Definition whole_run : list event := undisturbed 200 start.

Definition summary (r : result reload_error (option config)) : option (nat * option bool * bool * option (GraphState * Z * Z)) :=
  match r with
  | Ok (Some c) =>
      Some (stage c, match caller c with Returned => Some true | Raised => Some false | _ => None end, expired c,
        match pg_read (store c) with
        | Ok (Some st) => Some (graph_status st, graph_generation_id st, node_count st)
        | _ => None
        end)
  | _ => None
  end.
Example reload_returns : summary (reload whole_run) = Some (8%nat, Some true, false, Some (Ready, 7, 3)).
Proof. vm_compute. reflexivity. Qed.
(** The deadline passes while a write is under way: the row is failed. *)
Definition timed_out : list event := firstn 14 whole_run ++ [EvTimeout; EvHandler; EvHandler].
Example reload_times_out : summary (reload timed_out) = Some (2%nat, Some false, true, Some (Failed, 1, 0)).
Proof. vm_compute. reflexivity. Qed.
(** The deadline passes while the first stage is about to commit: the call
    raises without marking the row, as it has not entered the rebuilding state
    yet, and the commit that follows leaves the row rebuilding with no one
    working on it. *)
Example late_rebuilding_sticks :
  summary (reload [EvWorker; EvWorker; EvTimeout; EvHandler; EvWorker; EvWorker]) =
  Some (0%nat, Some false, true, Some (Rebuilding, 1, 0)).
Proof. vm_compute. reflexivity. Qed.
(** The same, but the status store is gone when the handler reads the row, or
    when it writes the failure: the call raises and the row stays rebuilding;
    or only the answer to that write is lost. *)
Definition handler_lost : list event := firstn 14 whole_run ++ [EvTimeout; EvHandlerFails false].
Example failed_handler_sticks :
  let r := Some (2%nat, Some false, true, Some (Rebuilding, 1, 0)) in
  summary (reload handler_lost) = r ∧
  summary (reload (firstn 14 whole_run ++ [EvTimeout; EvHandler; EvHandlerFails false])) = r ∧
  summary (reload (firstn 14 whole_run ++ [EvTimeout; EvHandler; EvHandlerFails true])) =
    Some (2%nat, Some false, true, Some (Failed, 1, 0)).
Proof. vm_compute. split; [|split]; reflexivity. Qed.
(** The answer to the last commit is lost, and the failure is planned but loses
    the race: the call raises and the row stays ready. *)
Example lost_publication :
  summary (reload (firstn 76 whole_run ++ [EvTimeout; EvHandler; EvWorker; EvHandler])) =
  Some (8%nat, Some false, true, Some (Ready, 7, 3)).
Proof. vm_compute. reflexivity. Qed.
Example arguments_are_checked :
  cold_reload size_json "SNAP_1" 0 (Some canonical) 60 (float_of_Z 300) ready_row drifted [] = Err NonPositiveBatchSize ∧
  cold_reload size_json "SNAP_1" 1 (Some canonical) 60 (S754_zero true) ready_row drifted [] = Err NonPositiveTimeout.
Proof. split; reflexivity. Qed.

Lemma ready_row_ok : pg_checked ready_row.
Proof.
  split; [apply StatusExamples.row_ok, StatusExamples.ex_valid_ready|]. intros r [= <-]. reflexivity.
Qed.
Lemma drifted_known : known_labels (db_graph drifted).
Proof.
  split.
  - apply (bool_decide_unpack (map_Forall (λ k _, k.1 ∈ map fst node_labels) _)). vm_compute. exact I.
  - apply (bool_decide_unpack (map_Forall (λ r _, (Metrics.rel_ends r).1.1 ∈ map fst node_labels) _)). vm_compute. exact I.
Qed.

Lemma ready_means_rebuilt_witness :
  ∃ c st, reload whole_run = Ok (Some c) ∧ pg_read (store c) = Ok (Some st) ∧ graph_generation_id st = 7 ∧
    db_graph (db c) = canonical_graph.
Proof.
  assert (match reload whole_run with
    | Ok (Some c) => match pg_read (store c) with Ok (Some st) => graph_status st = Ready ∧ entered_rebuilding c = true | _ => False end
    | _ => False end) as Hc by (vm_compute; split; reflexivity).
  destruct (reload whole_run) as [[c|]|] eqn:E; [|destruct Hc..].
  destruct (pg_read (store c)) as [[st|]|] eqn:Er; [|destruct Hc..]. destruct Hc as [Hst Hk].
  destruct (ready_means_rebuilt size_json "SNAP_1" 500 (Some canonical) 60 (float_of_Z 300) ready_row drifted whole_run c
    ready_row_ok drifted_known E st Hk Er Hst) as (Hpub & Hg & _).
  exists c, st. split; [reflexivity|]. split; [exact Er|]. split; [exact (proj1 (proj2 (proj2 Hpub)))|].
  unfold rebuilt in Hg. unfold canonical_graph, sync.
  change canonical_batch with (the_batch "SNAP_1" (Some canonical)). rewrite Hg. reflexivity.
Defined.

(** A reload that returns, one whose failed handler is behind its row, and one
    that raises before it has touched the row. *)
Lemma reload_ends_truthfully_witness :
  ∃ c c' c'', reload whole_run = Ok (Some c) ∧ verify_schema (db c) = true ∧ is_consistent (Some canonical) (db c) = true ∧
    reload handler_lost = Ok (Some c') ∧ (∃ st, pg_read (store c') = Ok (Some st) ∧
      (graph_status st = Failed ∨ db_graph (db c') = canonical_graph ∨ ∃ after, EvHandlerFails after ∈ handler_lost)) ∧
    reload [EvTimeout; EvHandler] = Ok (Some c'') ∧
    (store c'' = ready_row ∨ ∃ st, pg_read (store c'') = Ok (Some st) ∧ graph_status st = Rebuilding).
Proof.
  assert (match reload whole_run with Ok (Some c) => caller c = Returned | _ => False end) as Hc by (vm_compute; reflexivity).
  assert (match reload handler_lost with Ok (Some c) => caller c = Raised ∧ (1 ≤ stage c)%nat | _ => False end) as Hc'
    by (vm_compute; split; [reflexivity|repeat constructor]).
  assert (match reload [EvTimeout; EvHandler] with Ok (Some c) => caller c = Raised ∧ stage c = 0%nat | _ => False end)
    as Hc'' by (vm_compute; split; reflexivity).
  destruct (reload whole_run) as [[c|]|] eqn:E; [|destruct Hc..]. destruct (reload handler_lost) as [[c'|]|] eqn:E'; [|destruct Hc'..].
  destruct (reload [EvTimeout; EvHandler]) as [[c''|]|] eqn:E''; [|destruct Hc''..].
  destruct (reload_ends_truthfully size_json "SNAP_1" 500 (Some canonical) 60 (float_of_Z 300) ready_row drifted whole_run c
    ready_row_ok drifted_known E) as [H _]. destruct (H Hc) as (_ & _ & _ & _ & H4 & H5).
  destruct (reload_ends_truthfully size_json "SNAP_1" 500 (Some canonical) 60 (float_of_Z 300) ready_row drifted handler_lost c'
    ready_row_ok drifted_known E') as (_ & H' & _). destruct (H' (proj1 Hc') (proj2 Hc')) as (st & Hr & Hst).
  exists c, c', c''. split; [reflexivity|]. split; [exact H4|]. split; [exact H5|]. split; [reflexivity|]. split; [|split; [reflexivity|]].
  - exists st. split; [exact Hr|]. destruct Hst as [Hst|[[_ Hg]|[_ Ha]]]; [left; exact Hst|right; left|right; right; exact Ha].
    unfold rebuilt in Hg. unfold canonical_graph, sync.
    change canonical_batch with (the_batch "SNAP_1" (Some canonical)). rewrite Hg. reflexivity.
  - exact (proj2 (proj2 (reload_ends_truthfully size_json "SNAP_1" 500 (Some canonical) 60 (float_of_Z 300) ready_row drifted
      [EvTimeout; EvHandler] c'' ready_row_ok drifted_known E'')) (proj1 Hc'') (proj2 Hc'')).
Defined.

(** The deadline passes between the check of a deletion and the deletion. *)
Lemma barrier_stops_worker_witness :
  ∃ c c', reload (firstn 10 whole_run ++ [EvTimeout]) = Ok (Some c) ∧
    continue [EvWorker; EvHandler; EvWorker; EvHandler] c = Some c' ∧ caller c' = Raised ∧
    (db c' = db c ∨ ∃ w rest, worker c = Running (Send w :: rest) ∧ apply_write size_json w (db c) = Some (db c')).
Proof.
  assert (match reload (firstn 10 whole_run ++ [EvTimeout]) with
    | Ok (Some c) => expired c = true ∧ match continue [EvWorker; EvHandler; EvWorker; EvHandler] c with
        | Some c' => caller c' = Raised | None => False end
    | _ => False end) as Hc by (vm_compute; split; reflexivity).
  destruct (reload _) as [[c|]|] eqn:E; [|destruct Hc..]. destruct Hc as [Hx Hc].
  destruct (continue _ c) as [c'|] eqn:E'; [|destruct Hc].
  exists c, c'. split; [reflexivity|]. split; [exact E'|]. split; [exact Hc|].
  apply (barrier_stops_worker size_json "SNAP_1" 500 (Some canonical) 60 (float_of_Z 300) ready_row drifted
    (firstn 10 whole_run ++ [EvTimeout]) c [EvWorker; EvHandler; EvWorker; EvHandler] c' E Hx E').
Defined.

Lemma reload_terminates_witness :
  ∃ c, reload (firstn 30 whole_run) = Ok (Some c) ∧
    Acc (λ c2 c1, ∃ e, step size_json "SNAP_1" 500 (Some canonical) 60 e c1 = Some c2) c.
Proof.
  assert (match reload (firstn 30 whole_run) with Ok (Some c) => True | _ => False end) as Hc by (vm_compute; exact I).
  destruct (reload (firstn 30 whole_run)) as [[c|]|] eqn:E; [|destruct Hc..].
  exists c. split; [reflexivity|].
  apply (reload_terminates size_json "SNAP_1" 500 (Some canonical) 60 (float_of_Z 300) ready_row drifted _ c E).
Defined.
End ReloadExamples.
