(* ===== verification/Fingerprint.v ===== *)
(** * Fingerprint: when a filled slot is due for a refresh

    [mvp20/fingerprint.py]: the fingerprint of the sources a generated value
    was derived from, over the rows of [Storage], and the decision that
    compares it with the one stored when the value was filled in. *)
From Stdlib Require Import String Ascii ZArith List SpecFloat.
From stdpp Require Import base gmap strings list sorting pretty.
From S2P Require Import Prelude PyLib Storage.
Import StorageModel StorageRead.
Local Open Scope string_scope.
Local Open Scope Z_scope.

Module Fingerprint.

Definition filing_source_dp_ids : list string :=
  ["L5.is.revenue"; "L5.is.gross_profit"; "L5.is.net_profit"; "L5.is.operating_profit"; "L5.is.eps"; "L5.is.margins";
   "L5.is.revenue_growth"; "L5.is.gross_margin"; "L5.is.sga_rd";
   "L5.bs.cash_debt"; "L5.bs.inventory"; "L5.bs.ar_ap"; "L5.bs.goodwill_ppe"; "L5.bs.leverage";
   "L5.cf.ocf"; "L5.cf.fcf"; "L5.cf.capex"; "L5.cf.icf_fcf";
   "L5.fina.eps"; "L5.fina.roe"; "L5.fina.roa";
   "L1.company.main_business"; "L9.disclosure.qa_recent"; "L8.gov.management_table"].
Definition filing_fields : list string := ["period"; "end_date"; "ann_date"; "latest_period"].

(** What the decision reads of an entry of the governance file, which its own
    validator checks: the trigger, and the dependencies, none when missing. *)
Record governance_entry := mkGovernance {
  refresh_trigger : option string;
  source_dependencies : list string;
}.

Section fingerprint.
Context {J : JsonText} {T : PyText}.
(** The quoting of [json.dumps] with [ensure_ascii=False]. *)
Context (json_quote_raw : string → string).

Definition unescaped : PyText :=
  {| py_str := py_str; py_str_text := py_str_text; json_quote := json_quote_raw; json_float := json_float;
     isoformat := isoformat; sha256 := sha256 |}.

Definition normalize_value (value_json : string) : string :=
  if is_empty value_json then ""
  else match json_loads value_json with
       | None => value_json
       | Some v => @stable_json unescaped v
       end.

(** [str(v.get(k, ""))] *)
Definition field_text (k : string) (d : pdict) : string :=
  match pget k d with Some v => py_str v | None => "" end.
Definition filing_extras (value_json : string) : option string :=
  match json_loads (if is_empty value_json then "{}" else value_json) with
  | Some (PDict d) => Some (join "|" (map (λ k, field_text k d) filing_fields))
  | _ => None
  end.

(** What [_row_fingerprint] hashes. *)
Definition row_payload (dp_id : string) (r : RealtimeRow) : string :=
  let payload := join "|" [dp_id; rt_source r; pretty (rt_updated_at r); normalize_value (rt_value_json r)] in
  if bool_decide (dp_id ∈ filing_source_dp_ids) then
    match filing_extras (rt_value_json r) with
    | Some extras => payload ++ "|filing:" ++ extras
    | None => payload
    end
  else payload.
Definition row_fingerprint (dp_id : string) (r : RealtimeRow) : string :=
  hexdigest_prefix sha256 16 (row_payload dp_id r).

Definition candidate_ts_codes (ts_code : string) : list string :=
  ts_code :: match ts_code_to_market ts_code with Some m => [String.append "MARKET:" m] | None => [] end.

(** The rows of the SELECT, in an order the statement leaves open. *)
Definition select_dependencies (codes deps : list string) (db : hot_db) : list realtime_row :=
  filter (λ kv, bool_decide (kv.1.1 ∈ codes) && bool_decide (kv.1.2 ∈ deps)) (map_to_list (realtime_current db)).

(** The loop over them: the row of least priority index per data point. *)
Definition keep_best (codes : list string) (best : gmap string (nat * RealtimeRow)) (row : realtime_row)
    : gmap string (nat * RealtimeRow) :=
  let '((ts, dp), r) := row in
  let p := priority_of codes ts in
  match best !! dp with
  | Some (p', _) => if (p <? p')%nat then <[dp := (p, r)]> best else best
  | None => <[dp := (p, r)]> best
  end.
Definition best_per_dp (codes : list string) (rows : list realtime_row) : gmap string (nat * RealtimeRow) :=
  fold_left (keep_best codes) rows ∅.

Definition combine (payloads : list string) : string :=
  hexdigest_prefix sha256 16 (join "|" (map (hexdigest_prefix sha256 16) payloads)).
Definition combined_fingerprint (best : gmap string (nat * RealtimeRow)) : string :=
  hexdigest_prefix sha256 16
    (join "|" (map (λ kv, row_fingerprint kv.1 kv.2.2) (sort_on fst (map_to_list best)))).
Definition fingerprint_of_rows (codes : list string) (rows : list realtime_row) : option string :=
  match rows with [] => None | _ => Some (combined_fingerprint (best_per_dp codes rows)) end.

Definition compute_dependency_fingerprint (ts_code : string) (deps : list string) (f : option hot_db) : option string :=
  match deps, f with
  | [], _ | _, None => None
  | _, Some db =>
      let codes := candidate_ts_codes ts_code in fingerprint_of_rows codes (select_dependencies codes deps db)
  end.

(** Whether to refresh, and the reason given. *)
Definition is_refresh_triggered (node : pdict) (entry : governance_entry) (f : option hot_db) (ts_code : string)
    : bool * string :=
  let trigger := default "static_picture" (refresh_trigger entry) in
  if String.eqb trigger "static_picture" then (false, "static_picture")
  else if String.eqb trigger "explicit_refresh" then (false, "explicit_refresh_only")
  else
    match source_dependencies entry with
    | [] => (false, "no_source_dependencies")
    | deps =>
        match compute_dependency_fingerprint ts_code deps f with
        | None => (false, "no_source_data")
        | Some current =>
            match pget "source_fingerprint_at_fill" node with
            | None | Some PNone => (true, "fingerprint_baseline_missing")
            | Some stored =>
                if is_key current stored then (false, "fingerprint_unchanged")
                else (true, "source_changed_" ++ trigger)
            end
        end
    end.
End fingerprint.
End Fingerprint.

Module FingerprintTheorems.
Import StorageTheorems Fingerprint.

(** ** The rows the fingerprint covers *)

Section best.
Context (codes : list string).

(** What the loop knows after the rows [seen]. *)
Definition best_inv (seen : list realtime_row) (best : gmap string (nat * RealtimeRow)) : Prop :=
  ∀ dp, match best !! dp with
        | None => ∀ c r, (c, dp, r) ∉ seen
        | Some (p, r) => ∃ c, (c, dp, r) ∈ seen ∧ p = priority_of codes c ∧
            ∀ c' r', (c', dp, r') ∈ seen → (p ≤ priority_of codes c')%nat
        end.

Lemma best_inv_step seen best row : best_inv seen best → best_inv (seen ++ [row]) (keep_best codes best row).
Proof.
  destruct row as [[ts dp] r]. intros Hinv dp'. unfold keep_best.
  assert (∀ c d r', (c, d, r') ∈ (seen ++ [(ts, dp, r)])%list ↔ (c, d, r') ∈ seen ∨ (c = ts ∧ d = dp ∧ r' = r)) as Hin.
  { intros c d r'. rewrite elem_of_app, list_elem_of_singleton. naive_solver. }
  destruct (decide (dp' = dp)) as [->|Hne].
  - pose proof (Hinv dp) as Hdp. destruct (best !! dp) as [[p0 r0]|] eqn:E.
    + destruct Hdp as (c & Hc & -> & Hmin). destruct (Nat.ltb_spec (priority_of codes ts) (priority_of codes c)).
      * rewrite lookup_insert_eq. exists ts. rewrite Hin. split; [auto|]. split; [done|]. intros c' r'.
        rewrite Hin. intros [Hs|(-> & _ & _)]; [apply Hmin in Hs; lia|done].
      * rewrite E. exists c. rewrite Hin. split; [auto|]. split; [done|]. intros c' r'.
        rewrite Hin. intros [Hs|(-> & _ & _)]; [by apply Hmin in Hs|lia].
    + rewrite lookup_insert_eq. exists ts. rewrite Hin. split; [auto|]. split; [done|]. intros c' r'.
      rewrite Hin. intros [Hs|(-> & _ & _)]; [by apply Hdp in Hs|done].
  - assert ((match best !! dp with
      | Some (p', _) => if (priority_of codes ts <? p')%nat then <[dp:=(priority_of codes ts, r)]> best else best
      | None => <[dp:=(priority_of codes ts, r)]> best end) !! dp' = best !! dp') as ->.
    { destruct (best !! dp) as [[p' r']|]; [destruct (_ <? _)%nat|]; by rewrite ?lookup_insert_ne. }
    specialize (Hinv dp'). destruct (best !! dp') as [[p0 r0]|].
    + destruct Hinv as (c & Hc & Hp & Hmin). exists c. rewrite Hin. split; [auto|]. split; [done|].
      intros c' r'. rewrite Hin. intros [Hs|(_ & ? & _)]; [eauto|done].
    + intros c r'. rewrite Hin. intros [Hs|(_ & ? & _)]; [by apply Hinv in Hs|done].
Qed.

Lemma best_inv_rows rows seen best : best_inv seen best → best_inv (seen ++ rows) (fold_left (keep_best codes) rows best).
Proof.
  revert seen best. induction rows as [|row rows IH]; intros seen best Hinv; simpl; [by rewrite app_nil_r|].
  rewrite (cons_middle row), app_assoc. apply IH. by apply best_inv_step.
Qed.

Lemma best_per_dp_lookup db (deps : list string) rows dp : NoDup codes →
  (∀ c d r, (c, d, r) ∈ rows ↔ c ∈ codes ∧ d ∈ deps ∧ realtime_current db !! (c, d) = Some r) →
  best_per_dp codes rows !! dp =
    if bool_decide (dp ∈ deps) then (λ s, (priority_of codes s.1, s.2)) <$> best_source db codes dp else None.
Proof.
  intros Hnd Hrows. assert (best_inv rows (best_per_dp codes rows)) as Hinv.
  { apply (best_inv_rows rows [] ∅). intros d. rewrite lookup_empty. intros c r. apply not_elem_of_nil. }
  specialize (Hinv dp). destruct (best_per_dp codes rows !! dp) as [[p r]|].
  - destruct Hinv as (c & (Hc & Hd & Hr)%Hrows & -> & Hmin). rewrite bool_decide_eq_true_2 by done. unfold best_source.
    rewrite (least_priority_first (λ c, realtime_current db !! (c, dp)) codes 0 c r Hnd Hc Hr); [done|].
    intros c' r' Hc' Hr'. apply (Hmin c' r'). by apply Hrows.
  - case_bool_decide as Hd; [|done]. unfold best_source. destruct (omap _ codes) as [|[c r] l] eqn:E; [done|exfalso].
    assert ((c, r) ∈ omap (λ c, (λ r, (c, r)) <$> realtime_current db !! (c, dp)) codes) as Hin
      by (rewrite E; apply list_elem_of_here).
    apply list_elem_of_omap in Hin as (c' & Hc' & Hr').
    destruct (realtime_current db !! (c', dp)) as [r'|] eqn:Hl; simplify_eq/=. apply (Hinv c r), Hrows. done.
Qed.
End best.

Lemma candidates_distinct ts : NoDup (candidate_ts_codes ts).
Proof.
  unfold candidate_ts_codes. apply NoDup_cons. split.
  - destruct (ts_code_to_market ts) as [m|] eqn:E; [|apply not_elem_of_nil]. intros ->%list_elem_of_singleton.
    assert (m = "CN" ∨ m = "HK" ∨ m = "US") as [->|[->| ->]]; [|by vm_compute in E..].
    unfold ts_code_to_market in E. repeat case_match; naive_solver.
  - destruct (ts_code_to_market ts); [apply NoDup_singleton|constructor].
Qed.

Lemma StronglySorted_omap {A} (g : string → option A) l :
  StronglySorted String.leb l →
  StronglySorted (λ x y, String.leb x.1 y.1) (omap (λ k, (λ a, (k, a)) <$> g k) l).
Proof.
  induction 1 as [|k l Hl IH Hk]; simpl; [constructor|]. destruct (g k) as [a|]; simpl; [|done].
  constructor; [done|]. apply list.Forall_forall. intros [k' a'] (k2 & Hk2 & E)%list_elem_of_omap.
  destruct (g k2); simplify_eq/=. by apply (proj1 (list.Forall_forall _ _) Hk).
Qed.

(** ** Hexadecimal prefixes *)

Lemma hex_char_plain n : 0 ≤ n < 16 → negb (Ascii.eqb (hex_char n) "|") = true.
Proof.
  intros Hn. assert (Forall (λ n, negb (Ascii.eqb (hex_char n) "|") = true) (map Z.of_nat (seq 0 16))) as Hall
    by (repeat constructor).
  rewrite list.Forall_forall in Hall. apply Hall. apply list_elem_of_fmap. exists (Z.to_nat n).
  split; [lia|]. apply elem_of_seq. lia.
Qed.

Lemma hex_digits_plain n v acc : pipe_free acc = true →
  pipe_free (hex_digits n v acc) = true ∧ String.length (hex_digits n v acc) = (n + String.length acc)%nat.
Proof.
  revert v acc. induction n as [|n IH]; intros v acc Hacc; [done|]. simpl.
  destruct (IH (v / 16) (String (hex_char (v mod 16)) acc)) as [H1 H2].
  - unfold pipe_free in *. simpl. rewrite hex_char_plain by (apply Z.mod_pos_bound; lia). done.
  - split; [done|]. rewrite H2. simpl. lia.
Qed.

Lemma hexdigest_plain f n s : pipe_free (hexdigest_prefix f n s) = true ∧ String.length (hexdigest_prefix f n s) = n.
Proof. destruct (hex_digits_plain n (f s / 2 ^ (256 - 4 * Z.of_nat n)) "" eq_refl) as [H1 H2]. split; [done|]. unfold hexdigest_prefix. rewrite H2. simpl. lia. Qed.

(** Separated texts can be read off again. *)
Lemma join_inj l l' :
  Forall (λ s, pipe_free s = true ∧ s ≠ "") l → Forall (λ s, pipe_free s = true ∧ s ≠ "") l' →
  join "|" l = join "|" l' → l = l'.
Proof.
  assert (∀ s a b, pipe_free s = true → s ≠ a ++ "|" ++ b) as Hno.
  { intros s a b Hs ->. revert Hs. unfold pipe_free. induction a as [|c a IH]; simpl; [done|].
    intros [_ Ha]%andb_true_iff. done. }
  intros Hl. revert l'. induction Hl as [|s l [Hp Hs] Hl IH]; intros l' Hl' E.
  - destruct l' as [|s' [|s2 l']]; [done|..]; apply Forall_cons in Hl' as [[_ Hs'] _]; simpl in E; [done|].
    by destruct s'.
  - destruct l' as [|s' l']; [destruct l; [done|by destruct s]|]. apply Forall_cons in Hl' as [[Hp' Hs'] Hl'].
    destruct l as [|s2 l], l' as [|s2' l'].
    + simpl in E. by subst.
    + exfalso. apply (Hno s s' (join "|" (s2' :: l')) Hp). exact E.
    + exfalso. apply (Hno s' s (join "|" (s2 :: l)) Hp'). symmetry. exact E.
    + apply (join_first_inj s (join "|" (s2 :: l)) s' (join "|" (s2' :: l')) Hp Hp') in E as [-> E].
      f_equal. by apply IH.
Qed.

Lemma pretty_N_go_plain n : ∀ acc, pipe_free acc = true → pipe_free (pretty_N_go n acc) = true.
Proof.
  induction (N.lt_wf_0 n) as [n _ IH]. intros acc Hacc. destruct (decide (n = 0%N)) as [->|Hn]; [done|].
  rewrite pretty_N_go_step by lia. apply IH; [apply N.div_lt; lia|].
  unfold pipe_free in *. simpl. rewrite Hacc, andb_true_r. by destruct (n `mod` 10)%N as [|[[[|[]|]|[|[]|]|]|[[[]|[]|]|[|[]|]|]|]].
Qed.

Lemma pretty_Z_plain (z : Z) : pipe_free (pretty z) = true.
Proof.
  assert (∀ n : N, pipe_free (pretty n) = true) as HN.
  { intros n. unfold pretty, pretty_N. destruct (decide _); [done|]. by apply pretty_N_go_plain. }
  destruct z as [|p|p]; [done|exact (HN (Npos p))|exact (HN (Npos p))].
Qed.

Section fingerprint.
Context {J : JsonText} {T : PyText} (json_quote_raw : string → string).

(** The dependencies that have a row for the stock or its market, by name, and
    the texts hashed for them. *)
Definition sources (db : hot_db) (ts_code : string) (deps : list string) : list (string * RealtimeRow) :=
  omap (λ dp, (λ s, (dp, s.2)) <$> best_source db (candidate_ts_codes ts_code) dp) (sorted_set (list_to_set deps)).
Definition payloads (db : hot_db) (ts_code : string) (deps : list string) : list string :=
  map (λ s, row_payload json_quote_raw s.1 s.2) (sources db ts_code deps).

Lemma select_dependencies_elem codes deps db c dp r :
  (c, dp, r) ∈ select_dependencies codes deps db ↔ c ∈ codes ∧ dp ∈ deps ∧ realtime_current db !! (c, dp) = Some r.
Proof.
  unfold select_dependencies. rewrite list_elem_of_filter, elem_of_map_to_list, Is_true_true, andb_true_iff.
  simpl. rewrite !bool_decide_eq_true. tauto.
Qed.

Lemma best_source_row db codes dp s : best_source db codes dp = Some s →
  s.1 ∈ codes ∧ realtime_current db !! (s.1, dp) = Some s.2.
Proof.
  unfold best_source. intros Hs. assert (s ∈ omap (λ c, (λ r, (c, r)) <$> realtime_current db !! (c, dp)) codes) as Hin.
  { destruct (omap _ codes); [done|]. injection Hs as ->. apply list_elem_of_here. }
  apply list_elem_of_omap in Hin as (c & Hc & E). destruct (realtime_current db !! (c, dp)) eqn:El; simplify_eq/=. done.
Qed.

Lemma sorted_best db ts deps rows : rows ≡ₚ select_dependencies (candidate_ts_codes ts) deps db →
  map (λ kv, (kv.1, kv.2.2)) (sort_on fst (map_to_list (best_per_dp (candidate_ts_codes ts) rows))) = sources db ts deps.
Proof.
  intros Hrows. set (codes := candidate_ts_codes ts).
  set (g := λ dp, (λ s, (priority_of codes s.1, s.2)) <$> best_source db codes dp).
  assert (∀ dp, best_per_dp codes rows !! dp = if bool_decide (dp ∈ deps) then g dp else None) as Hbest.
  { intros dp. apply best_per_dp_lookup; [apply candidates_distinct|]. intros c d r. rewrite Hrows.
    apply select_dependencies_elem. }
  set (l := omap (λ dp, (λ a, (dp, a)) <$> g dp) (sorted_set (list_to_set deps))).
  assert (StronglySorted (λ x y, String.leb x.1 y.1) l) as Hsorted
    by (apply StronglySorted_omap, sorted_strings_sorted).
  assert (NoDup l) as Hnd.
  { clear Hsorted. unfold l. generalize (NoDup_sorted_set (list_to_set deps)). clear l. induction 1 as [|dp ds Hdp Hds IH]; simpl; [constructor|].
    destruct (g dp) as [a|]; simpl; [|done]. apply NoDup_cons. split; [|done].
    intros (d & Hd & E)%list_elem_of_omap. destruct (g d); simplify_eq/=; done. }
  assert (map_to_list (best_per_dp codes rows) ≡ₚ l) as Hperm.
  { apply NoDup_Permutation; [apply NoDup_map_to_list|done|]. intros [dp a]. rewrite elem_of_map_to_list, Hbest.
    unfold l. rewrite list_elem_of_omap. split.
    - case_bool_decide as Hd; [|done]. intros Ha. exists dp. rewrite elem_of_sorted_set, elem_of_list_to_set, Ha. done.
    - intros (d & Hd & E). rewrite elem_of_sorted_set, elem_of_list_to_set in Hd. destruct (g d) as [a'|] eqn:Eg; [|done].
      simpl in E. injection E as -> ->. by rewrite bool_decide_eq_true_2. }
  rewrite (sort_on_perm_eq fst (map_to_list _) l) by (done || apply NoDup_fst_map_to_list).
  rewrite sort_on_id by done. unfold l, sources. generalize (sorted_set (list_to_set deps)) as ds. intros ds.
  induction ds as [|dp ds IH]; [done|]. simpl. unfold g at 1.
  change (best_source db (candidate_ts_codes ts) dp) with (best_source db codes dp).
  destruct (best_source db codes dp) as [[c r]|]; simpl; [|done]. by f_equal.
Qed.

Lemma fingerprint_of_payloads db ts deps rows : rows ≡ₚ select_dependencies (candidate_ts_codes ts) deps db →
  fingerprint_of_rows json_quote_raw (candidate_ts_codes ts) rows =
    match payloads db ts deps with [] => None | ps => Some (combine ps) end.
Proof.
  intros Hrows. pose proof (sorted_best db ts deps rows Hrows) as Hs.
  assert (∀ dp r c, (c, dp, r) ∈ rows → sources db ts deps ≠ []) as Hsome.
  { intros dp r c Hin Hnil. rewrite Hrows in Hin. apply select_dependencies_elem in Hin as (Hc & Hd & Hr).
    assert (is_Some (best_source db (candidate_ts_codes ts) dp)) as [s Hbest].
    { unfold best_source. destruct (omap _ (candidate_ts_codes ts)) as [|s l] eqn:E; [exfalso|simpl; eauto].
      assert ((c, r) ∈ omap (λ c, (λ r, (c, r)) <$> realtime_current db !! (c, dp)) (candidate_ts_codes ts)) as Hin'.
      { apply list_elem_of_omap. exists c. split; [done|]. by rewrite Hr. }
      rewrite E in Hin'. by apply elem_of_nil in Hin'. }
    assert ((dp, s.2) ∈ sources db ts deps) as Hin.
    { unfold sources. apply list_elem_of_omap. exists dp. rewrite elem_of_sorted_set, elem_of_list_to_set, Hbest. done. }
    rewrite Hnil in Hin. by apply elem_of_nil in Hin. }
  unfold fingerprint_of_rows, payloads. destruct rows as [|[[c dp] r] rows'].
  { simpl in Hs. by rewrite <- Hs. }
  assert (sources db ts deps ≠ []) as Hne by (eapply Hsome, list_elem_of_here).
  unfold combined_fingerprint, combine.
  assert (map (λ kv : string * (nat * RealtimeRow), row_fingerprint json_quote_raw kv.1 kv.2.2)
      (sort_on fst (map_to_list (best_per_dp (candidate_ts_codes ts) ((c, dp, r) :: rows')))) =
    map (hexdigest_prefix sha256 16) (map (λ s, row_payload json_quote_raw s.1 s.2) (sources db ts deps))) as ->.
  { rewrite <- Hs, !map_map. done. }
  by destruct (sources db ts deps).
Qed.

Lemma compute_of_payloads db ts deps :
  compute_dependency_fingerprint json_quote_raw ts deps (Some db) =
    match payloads db ts deps with [] => None | ps => Some (combine ps) end.
Proof. destruct deps as [|d deps]; [done|]. unfold compute_dependency_fingerprint. by apply fingerprint_of_payloads. Qed.

(** The fingerprint covers exactly the rows a refresh should depend on:
    whatever order the database returns its rows in, it is made of one row per
    declared dependency, the stock's own or else its market's, in the order of
    their names, and there is none when no dependency has a row. *)
Theorem fingerprint_covers_sources db ts deps rows :
  rows ≡ₚ select_dependencies (candidate_ts_codes ts) deps db →
  fingerprint_of_rows json_quote_raw (candidate_ts_codes ts) rows =
    (match payloads db ts deps with [] => None | ps => Some (combine ps) end) ∧
  compute_dependency_fingerprint json_quote_raw ts deps (Some db) =
    fingerprint_of_rows json_quote_raw (candidate_ts_codes ts) rows ∧
  ∀ dp r, (dp, r) ∈ sources db ts deps ↔
    dp ∈ deps ∧ ∃ c, best_source db (candidate_ts_codes ts) dp = Some (c, r).
Proof.
  intros Hrows. split; [by apply fingerprint_of_payloads|]. split.
  - by rewrite compute_of_payloads, (fingerprint_of_payloads db ts deps rows Hrows).
  - intros dp r. unfold sources. rewrite list_elem_of_omap. split.
    + intros (d & Hd & E). rewrite elem_of_sorted_set, elem_of_list_to_set in Hd.
      destruct (best_source db (candidate_ts_codes ts) d) as [[c r']|] eqn:Eb; simplify_eq/=. eauto.
    + intros (Hd & c & Hb). exists dp. rewrite elem_of_sorted_set, elem_of_list_to_set, Hb. done.
Qed.

(** ** The decision *)

(** No two of the texts hashed share the first sixteen digits of their digest. *)
Definition collision_free (ps ps' : list string) : Prop :=
  (∀ p p', p ∈ ps → p' ∈ ps' → hexdigest_prefix sha256 16 p = hexdigest_prefix sha256 16 p' → p = p') ∧
  (combine ps = combine ps' →
     join "|" (map (hexdigest_prefix sha256 16) ps) = join "|" (map (hexdigest_prefix sha256 16) ps')).

Lemma combine_inj ps ps' : collision_free ps ps' → combine ps = combine ps' → ps = ps'.
Proof.
  intros [Hp Hc] E%Hc. apply join_inj in E.
  2, 3: apply list.Forall_fmap, list.Forall_forall; intros p _; destruct (hexdigest_plain sha256 16 p) as [H1 H2];
    split; [exact H1|]; simpl; intros E0; by rewrite E0 in H2.
  clear Hc. revert Hp E. generalize (hexdigest_prefix sha256 16) as h. intros h. revert ps'. induction ps as [|p ps IH]; intros [|p' ps'] Hp E; try done.
  cbn [map] in E. injection E as E1 E2. f_equal.
  - apply Hp; [left|left|done].
  - apply IH; [|done]. intros x y Hx Hy. apply Hp; by right.
Qed.

(** ** What a refresh should depend on *)

(** The row that counts for a data point: the stock's own, or, when it has
    none, the sentinel row of the market it trades on. *)
Inductive source_row (db : hot_db) (ts dp : string) (r : RealtimeRow) : Prop :=
| own_row : realtime_current db !! (ts, dp) = Some r → source_row db ts dp r
| market_row m : realtime_current db !! (ts, dp) = None → trades_on ts m →
    realtime_current db !! (String.append "MARKET:" m, dp) = Some r → source_row db ts dp r.

(** What is compared of a row: where the value came from, when it was
    written, and what it says: its JSON with sorted keys, or the raw text when
    it is not JSON; for the data points of a filing the fields that tell one
    filing from another as well. *)
Record source_state := mkSourceState {
  written_by : string;
  written_at : Z;
  says : string;
}.
Definition content (dp text : string) : string :=
  (if String.eqb text "" then ""
   else match json_loads text with Some v => @stable_json (unescaped json_quote_raw) v | None => text end) ++
  (if decide (dp ∈ filing_source_dp_ids) then
     match json_loads (if String.eqb text "" then "{}" else text) with
     | Some (PDict d) => "|filing:" ++ field_text "period" d ++ "|" ++ field_text "end_date" d ++ "|" ++
         field_text "ann_date" d ++ "|" ++ field_text "latest_period" d
     | _ => ""
     end
   else "").
Definition state_of (dp : string) (r : RealtimeRow) : source_state :=
  mkSourceState (rt_source r) (rt_updated_at r) (content dp (rt_value_json r)).
Definition has_state (db : hot_db) (ts dp : string) (st : source_state) : Prop :=
  ∃ r, source_row db ts dp r ∧ st = state_of dp r.

Definition has_sources (db : hot_db) (ts : string) (deps : list string) : Prop :=
  ∃ dp st, dp ∈ deps ∧ has_state db ts dp st.
Definition same_sources (db db' : hot_db) (ts : string) (deps : list string) : Prop :=
  ∀ dp st, dp ∈ deps → (has_state db ts dp st ↔ has_state db' ts dp st).

(** Names written without the separator of the hashed text. *)
Definition plain_names (db : hot_db) (deps : list string) : Prop :=
  (∀ dp, dp ∈ deps → pipe_free dp = true) ∧
  ∀ key r, realtime_current db !! key = Some r → pipe_free (rt_source r) = true.

Lemma best_is_source_row db ts dp r :
  (∃ c, best_source db (candidate_ts_codes ts) dp = Some (c, r)) ↔ source_row db ts dp r.
Proof.
  unfold best_source, candidate_ts_codes. cbn [omap list_omap].
  destruct (realtime_current db !! (ts, dp)) as [r0|] eqn:E0; cbn [fmap option_fmap option_map head].
  - split; [intros (c & [= _ <-]); by apply own_row|]. intros [Hr|m Hn _ _]; [|congruence].
    exists ts. congruence.
  - split.
    + intros (c & Hc). destruct (ts_code_to_market ts) as [m|] eqn:Em; [|done]. cbn [omap list_omap] in Hc.
      destruct (realtime_current db !! (String.append "MARKET:" m, dp)) as [r1|] eqn:E1; [|done].
      injection Hc as _ <-. by eapply market_row; [|apply trades_on_market|].
    + intros [Hr|m _ ->%trades_on_market Hr]; [congruence|]. cbn [omap list_omap]. rewrite Hr. by eexists.
Qed.

Definition dep_state (db : hot_db) (ts dp : string) : option source_state :=
  (λ s, state_of dp s.2) <$> best_source db (candidate_ts_codes ts) dp.

Lemma dep_state_has db ts dp st : dep_state db ts dp = Some st ↔ has_state db ts dp st.
Proof.
  unfold has_state. setoid_rewrite <- best_is_source_row. unfold dep_state. rewrite fmap_Some. split.
  - intros ([c r] & Hb & ->). eauto.
  - intros (r & (c & Hb) & ->). by exists (c, r).
Qed.

(** The text hashed for a state. *)
Definition text_of (dp : string) (st : source_state) : string :=
  dp ++ "|" ++ written_by st ++ "|" ++ pretty (written_at st) ++ "|" ++ says st.

Lemma string_app_assoc (a b c : string) : (a ++ b) ++ c = a ++ b ++ c.
Proof. induction a as [|x a IH]; [done|]. exact (f_equal (String x) IH). Qed.

Lemma string_app_nil (a : string) : a ++ "" = a.
Proof. induction a as [|x a IH]; [done|]. exact (f_equal (String x) IH). Qed.

Lemma row_payload_text dp r : row_payload json_quote_raw dp r = text_of dp (state_of dp r).
Proof.
  unfold row_payload, text_of, state_of, content, normalize_value, filing_extras, is_empty.
  set (v := rt_value_json r). cbn [written_by written_at says join String.concat map filing_fields].
  assert ((match v with "" => true | String _ _ => false end) = String.eqb v "") as -> by by destruct v.
  destruct (decide (dp ∈ filing_source_dp_ids)) as [Hd|Hd];
    [rewrite bool_decide_eq_true_2 by done|rewrite bool_decide_eq_false_2 by done].
  - destruct (json_loads (if String.eqb v "" then "{}" else v)) as [[]|]; cbn [map filing_fields];
      unfold join; cbn [String.concat]; by rewrite ?string_app_assoc, ?string_app_nil.
  - unfold join. cbn [String.concat]. by rewrite string_app_nil.
Qed.

Lemma text_of_inj dp dp' st st' :
  pipe_free dp = true → pipe_free dp' = true →
  pipe_free (written_by st) = true → pipe_free (written_by st') = true →
  text_of dp st = text_of dp' st' → dp = dp' ∧ st = st'.
Proof.
  destruct st as [by_ at_ c], st' as [by' at' c']. unfold text_of. cbn. intros Hd Hd' Hb Hb'.
  intros [-> E]%join_first_inj; [|done..]. apply join_first_inj in E as [-> E]; [|done..].
  apply join_first_inj in E as [E ->]; [|apply pretty_Z_plain..]. apply (inj pretty) in E as ->. done.
Qed.

(** A list that tags every name with what is found for it, when it is found. *)
Lemma tagged_eq {A} (f g : string → option A) ds : NoDup ds →
  omap (λ d, (λ a, (d, a)) <$> f d) ds = omap (λ d, (λ a, (d, a)) <$> g d) ds ↔ ∀ d, d ∈ ds → f d = g d.
Proof.
  assert (∀ (h : string → option A) (l : list string) (d : string) (a : A),
    (d, a) ∈ omap (λ d, (λ a, (d, a)) <$> h d) l → d ∈ l) as Hin.
  { intros h l d a (d' & Hd & E)%list_elem_of_omap. by destruct (h d'); simplify_eq/=. }
  induction 1 as [|d ds Hd Hnd IH]; cbn [omap list_omap].
  { split; [|done]. intros _ d Hd. by apply elem_of_nil in Hd. }
  assert (∀ d', d' ∈ d :: ds ↔ d' = d ∨ d' ∈ ds) as Hcons by (intros; apply elem_of_cons).
  destruct (f d) as [a|] eqn:Ef, (g d) as [b|] eqn:Eg; cbn [fmap option_fmap option_map].
  - split.
    + intros [= -> E] d' [->|Hd']%Hcons; [congruence|]. by apply IH.
    + intros H. assert (Some a = Some b) as [= ->] by (rewrite <- Ef, <- Eg; apply H, Hcons; by left).
      f_equal. apply IH. intros d' Hd'. apply H, Hcons. by right.
  - split; [|intros H; assert (f d = g d) by (apply H, Hcons; by left); congruence].
    intros E. destruct Hd. apply (Hin g ds d a). rewrite <- E. apply list_elem_of_here.
  - split; [|intros H; assert (f d = g d) by (apply H, Hcons; by left); congruence].
    intros E. destruct Hd. apply (Hin f ds d b). rewrite E. apply list_elem_of_here.
  - rewrite IH. split.
    + intros H d' [->|Hd']%Hcons; [congruence|]. by apply H.
    + intros H d' Hd'. apply H, Hcons. by right.
Qed.

(** The dependencies' states, by name, and the texts hashed for them. *)
Definition states (db : hot_db) (ts : string) (deps : list string) : list (string * source_state) :=
  omap (λ d, (λ st, (d, st)) <$> dep_state db ts d) (sorted_set (list_to_set deps)).

Lemma payloads_states db ts deps :
  payloads db ts deps = map (λ s, text_of s.1 s.2) (states db ts deps).
Proof.
  unfold payloads, sources, states, dep_state. generalize (sorted_set (list_to_set deps)) as ds. intros ds.
  induction ds as [|d ds IH]; [done|]. cbn [omap list_omap].
  destruct (best_source db (candidate_ts_codes ts) d) as [[c r]|]; cbn [fmap option_fmap option_map map]; [|done].
  rewrite IH. cbn [fst snd]. by rewrite row_payload_text.
Qed.

Lemma states_same db db' ts deps : states db ts deps = states db' ts deps ↔ same_sources db db' ts deps.
Proof.
  unfold states. rewrite tagged_eq by apply NoDup_sorted_set. unfold same_sources.
  setoid_rewrite elem_of_sorted_set. setoid_rewrite elem_of_list_to_set. setoid_rewrite <- dep_state_has. split.
  - intros H dp st Hdp. by rewrite (H dp Hdp).
  - intros H dp Hdp. apply option_eq. intros st. by apply H.
Qed.

Lemma states_empty db ts deps : states db ts deps = [] ↔ ¬ has_sources db ts deps.
Proof.
  unfold has_sources. split.
  - intros E (dp & st & Hdp & Hst%dep_state_has). apply (not_elem_of_nil (dp, st)). rewrite <- E.
    unfold states. apply list_elem_of_omap. exists dp. rewrite elem_of_sorted_set, elem_of_list_to_set, Hst. done.
  - intros H. destruct (states db ts deps) as [|[dp st] l] eqn:E; [done|]. destruct H. exists dp, st.
    assert ((dp, st) ∈ states db ts deps) as Hin by (rewrite E; apply list_elem_of_here).
    unfold states in Hin. apply list_elem_of_omap in Hin as (d & Hd & Hf).
    rewrite elem_of_sorted_set, elem_of_list_to_set in Hd.
    destruct (dep_state db ts d) eqn:Ed; simplify_eq/=. by rewrite <- dep_state_has.
Qed.

Lemma states_plain db ts deps s : plain_names db deps → s ∈ states db ts deps →
  pipe_free s.1 = true ∧ pipe_free (written_by s.2) = true.
Proof.
  intros [Hdeps Hrows] (d & Hd & Hf)%list_elem_of_omap. rewrite elem_of_sorted_set, elem_of_list_to_set in Hd.
  unfold dep_state in Hf. destruct (best_source db (candidate_ts_codes ts) d) as [[c r]|] eqn:Eb; simplify_eq/=.
  apply best_source_row in Eb as [_ Hr]. split; [by apply Hdeps|by eapply Hrows].
Qed.

(** Equal texts come from equal sources. *)
Lemma payloads_same db db' ts deps : plain_names db deps → plain_names db' deps →
  payloads db ts deps = payloads db' ts deps ↔ same_sources db db' ts deps.
Proof.
  intros Hp Hp'. rewrite <- states_same, !payloads_states. split; [|by intros ->].
  assert (∀ s, s ∈ states db ts deps → pipe_free s.1 = true ∧ pipe_free (written_by s.2) = true) as H
    by (intros s; by apply states_plain).
  assert (∀ s, s ∈ states db' ts deps → pipe_free s.1 = true ∧ pipe_free (written_by s.2) = true) as H'
    by (intros s; by apply states_plain).
  revert H H'. generalize (states db ts deps) (states db' ts deps). clear.
  induction l as [|[d st] l IH]; intros [|[d' st'] l'] H H' E; try done. cbn [map fst snd] in E. injection E as E1 E2.
  destruct (H (d, st) (list_elem_of_here _ _)), (H' (d', st') (list_elem_of_here _ _)).
  apply text_of_inj in E1 as [-> ->]; [|done..]. f_equal. apply IH; [..|done]; intros s Hs;
    [apply H|apply H']; by right.
Qed.


(** ** Formatting *)

(** The same JSON up to the order of keys. *)
Inductive same_json : pyval → pyval → Prop :=
| same_refl v : same_json v v
| same_list l l' : Forall2 same_json l l' → same_json (PList l) (PList l')
| same_dict d d1 d' : NoDup (map (λ kv, py_str kv.1) d) →
    Forall2 (λ a b, a.1 = b.1 ∧ same_json a.2 b.2) d d1 → d1 ≡ₚ d' → same_json (PDict d) (PDict d').

Lemma stable_json_same v v' : same_json v v' → @stable_json (unescaped json_quote_raw) v = @stable_json (unescaped json_quote_raw) v'.
Proof.
  revert v'. induction v as [| | | | | |l IH|l IH|d IH] using pyval_rect_nested; intros v' Hs;
    inversion Hs as [|? l' Hl|? d1 d' Hnd Hd Hp]; subst; try done; cbn [stable_json].
  - do 2 f_equal. f_equal. clear Hs. induction Hl as [|x y l l' Hxy Hl IHl]; [done|].
    apply Forall_cons in IH as [Hx Hr]. simpl. f_equal; [by apply Hx|by apply IHl].
  - match goal with |- context [sort_on fst (map ?f d)] => set (g := f) end.
    assert (map g d = map g d1) as E.
    { clear Hs Hp Hnd. induction Hd as [|[k x] [k' y] d d1 [Hk Hxy] Hd IHd]; [done|].
      apply Forall_cons in IH as [Hx Hr]. cbn [map]. cbn [fst snd] in *. subst k'. f_equal; [|by apply IHd].
      unfold g. by rewrite (Hx y Hxy). }
    assert (sort_on fst (map g d) = sort_on fst (map g d')) as ->; [|done].
    rewrite E. apply sort_on_perm_eq; [|by apply fmap_Permutation].
    rewrite <- E, map_map. erewrite map_ext; [exact Hnd|]. by intros [].
Qed.

Definition scalar (v : pyval) : bool := match v with PList _ | PTuple _ | PDict _ => false | _ => true end.

Lemma pget_elem k d v : NoDup (map (λ kv : pyval * pyval, py_str kv.1) d) → pget k d = Some v ↔ (PStr k, v) ∈ d.
Proof.
  induction d as [|[k' v'] d IH]; intros Hn; simpl in *; [split; [done|intros ?%elem_of_nil; done]|].
  apply NoDup_cons in Hn as [Hk Hn]. rewrite elem_of_cons. destruct (is_key k k') eqn:E.
  - destruct k'; try done. apply String.eqb_eq in E as <-. split; [intros [= ->]; by left|]. intros [[= ->]|Hin]; [done|].
    exfalso. apply Hk, list_elem_of_fmap. by exists (PStr k, v).
  - rewrite IH by done. split; [auto|]. intros [[= <- _]|?]; [|done]. simpl in E. by rewrite String.eqb_refl in E.
Qed.

Lemma field_text_same k d d' : same_json (PDict d) (PDict d') →
  (∀ x, pget k d = Some x → scalar x = true) → field_text k d = field_text k d'.
Proof.
  intros Hs Hk. inversion Hs as [| |? d1 ? Hnd Hd Hp]; subst; [done|].
  assert (NoDup (map (λ kv : pyval * pyval, py_str kv.1) d1) ∧
    ∀ x, pget k d1 = Some x ↔ pget k d = Some x) as [Hnd1 Hget].
  { clear Hs Hp. induction Hd as [|[k0 x] [k1 y] d d1 [E Hxy] Hd IH]; [done|]. simpl in *. subst k1.
    apply NoDup_cons in Hnd as [Hn Hnd]. destruct IH as [H1 H2]; [|done|].
    { intros z Hz. apply Hk. destruct (is_key k k0) eqn:E; [|done]. exfalso. apply Hn.
      destruct k0; try done. apply String.eqb_eq in E as <-. apply list_elem_of_fmap. exists (PStr k, z).
      split; [done|]. by apply pget_elem. }
    assert (map (λ kv : pyval * pyval, py_str kv.1) d1 = map (λ kv : pyval * pyval, py_str kv.1) d) as Hkeys.
    { clear -Hd. induction Hd as [|[a b] [a' b'] d d1 [E _] Hd IH]; [done|]. simpl in *. subst a'. by f_equal. }
    split; [apply NoDup_cons; by rewrite Hkeys|]. intros z. destruct (is_key k k0); [|done].
    specialize (Hk x eq_refl). by inversion Hxy; subst. }
  unfold field_text. assert (pget k d' = pget k d) as ->; [|done].
  assert (NoDup (map (λ kv : pyval * pyval, py_str kv.1) d')) as Hnd' by (by rewrite <- Hp).
  apply option_eq. intros x. rewrite <- Hget, !pget_elem by done. by rewrite Hp.
Qed.

(** Rows that differ in the layout of their JSON at most. *)
Definition row_alike (r r' : RealtimeRow) : Prop :=
  rt_source r = rt_source r' ∧ rt_updated_at r = rt_updated_at r' ∧
  (rt_value_json r = rt_value_json r' ∨
   is_empty (rt_value_json r) = false ∧ is_empty (rt_value_json r') = false ∧
   ∃ v v', json_loads (rt_value_json r) = Some v ∧ json_loads (rt_value_json r') = Some v' ∧ same_json v v' ∧
     ∀ d k x, v = PDict d → k ∈ filing_fields → pget k d = Some x → scalar x = true).

Lemma row_payload_alike dp r r' : row_alike r r' → row_payload json_quote_raw dp r = row_payload json_quote_raw dp r'.
Proof.
  intros (Hs & Hu & Hv). unfold row_payload. rewrite Hs, Hu.
  destruct Hv as [->|(He & He' & v & v' & Hl & Hl' & Hsame & Hscalar)]; [done|].
  assert (normalize_value json_quote_raw (rt_value_json r) = normalize_value json_quote_raw (rt_value_json r')) as ->.
  { unfold normalize_value. rewrite He, He', Hl, Hl'. by apply stable_json_same. }
  assert (filing_extras (rt_value_json r) = filing_extras (rt_value_json r')) as ->; [|done].
  unfold filing_extras. rewrite He, He', Hl, Hl'. pose proof Hsame as Hinv. inversion Hinv; subst; try done.
  do 2 f_equal. apply map_ext_in. intros k Hk%list_elem_of_In. apply field_text_same; [done|]. eauto.
Qed.

Lemma best_source_alike db db' codes dp :
  (∀ key, option_Forall2 row_alike (realtime_current db !! key) (realtime_current db' !! key)) →
  option_Forall2 (λ s s', row_alike s.2 s'.2) (best_source db codes dp) (best_source db' codes dp).
Proof.
  intros Halike. unfold best_source. induction codes as [|c cs IH]; simpl; [constructor|].
  by destruct (Halike (c, dp)); simpl; [constructor|].
Qed.

(** The layout of stored JSON does not matter: two databases whose rows
    agree but for the order of the keys and the spacing of their values have
    the same fingerprint over every list of dependencies, provided the fields
    that tell one filing from another hold no lists or objects. *)
Theorem formatting_never_refreshes db db' ts deps :
  (∀ key, option_Forall2 row_alike (realtime_current db !! key) (realtime_current db' !! key)) →
  compute_dependency_fingerprint json_quote_raw ts deps (Some db) =
  compute_dependency_fingerprint json_quote_raw ts deps (Some db').
Proof.
  intros Halike. rewrite !compute_of_payloads. assert (payloads db ts deps = payloads db' ts deps) as ->; [|done].
  unfold payloads, sources. generalize (sorted_set (list_to_set deps)) as ds. intros ds. induction ds as [|dp ds IH]; [done|].
  simpl. pose proof (best_source_alike db db' (candidate_ts_codes ts) dp Halike) as Hb.
  destruct Hb as [s s' Hs|]; simpl; [|done]. rewrite (row_payload_alike dp s.2 s'.2 Hs). by f_equal.
Qed.
End fingerprint.
End FingerprintTheorems.

Module FingerprintExamples.
Import StorageTheorems Fingerprint FingerprintTheorems.

(** A few texts, and a digest that is injective on them. *)
#[local] Instance few_texts : JsonText.
Proof.
  refine {| json_dumps v := match v with PNone => Some "null" | _ => None end;
            json_loads s :=
              if String.eqb s "null" then Some PNone
              else if String.eqb s "{a: 1, b: 2}" then Some (PDict [(PStr "a", PInt 1); (PStr "b", PInt 2)])
              else if String.eqb s "{b:2,a:1}" then Some (PDict [(PStr "b", PInt 2); (PStr "a", PInt 1)])
              else None |}.
  intros v s _. by destruct v; intros [= <-].
Defined.
#[local] Instance few_digests : PyText.
Proof.
  refine {| py_str v := match v with PStr s => s | PInt z => pretty z | _ => "object" end;
            json_quote s := "'" ++ s ++ "'"; json_float f := "0.0"; isoformat t := pretty t ++ "Z";
            sha256 s := (fold_left (λ a c, 257 * a + Z.of_nat (nat_of_ascii c) + 1) (list_ascii_of_string s) 7 * 2 ^ 131)
                          mod (2 ^ 256 - 189) |}.
  done.
Defined.
Definition quote (s : string) : string := "'" ++ s ++ "'".

Definition row (value : string) (at_ : Z) : RealtimeRow := mkRealtime value "Known" None "feed" at_.
Definition db_of (rows : list (string * string * RealtimeRow)) : hot_db := mkHotDb (list_to_map rows) ∅ None.
Definition before : hot_db := db_of
  [(("300750.SZ", "L9.media.news"), row "{a: 1, b: 2}" 100); (("MARKET:CN", "L9.media.news"), row "null" 90);
   (("MARKET:CN", "L9.macro.rate"), row "null" 90)].
Definition after : hot_db := db_of
  [(("300750.SZ", "L9.media.news"), row "null" 120); (("MARKET:CN", "L9.macro.rate"), row "null" 90)].
Definition reformatted : hot_db := db_of
  [(("300750.SZ", "L9.media.news"), row "{b:2,a:1}" 100); (("MARKET:CN", "L9.media.news"), row "null" 90);
   (("MARKET:CN", "L9.macro.rate"), row "null" 90)].
Definition entry : governance_entry := mkGovernance (Some "event_driven") ["L9.media.news"; "L9.macro.rate"; "L9.none"].
Definition fingerprint (db : hot_db) : option string :=
  compute_dependency_fingerprint quote "300750.SZ" (source_dependencies entry) (Some db).
Definition filled_node : pdict := [(PStr "source_fingerprint_at_fill", PStr (default "" (fingerprint before)))].
Definition decision (db : hot_db) : bool * string := is_refresh_triggered quote filled_node entry (Some db) "300750.SZ".

Example decisions :
  (decision before, decision after, decision reformatted, decision (db_of []),
   is_refresh_triggered quote [] entry (Some after) "300750.SZ",
   is_refresh_triggered quote filled_node (mkGovernance None ["L9.media.news"]) (Some after) "300750.SZ") =
  ((false, "fingerprint_unchanged"), (true, "source_changed_event_driven"), (false, "fingerprint_unchanged"),
   (false, "no_source_data"), (true, "fingerprint_baseline_missing"), (false, "static_picture")).
Proof. vm_compute. reflexivity. Qed.
(** A collector that rewrites the timestamp of an unchanged value triggers a refresh. *)
Example rewritten_timestamp_refreshes :
  decision (db_of [(("300750.SZ", "L9.media.news"), row "{a: 1, b: 2}" 101); (("MARKET:CN", "L9.macro.rate"), row "null" 90)])
  = (true, "source_changed_event_driven").
Proof. vm_compute. reflexivity. Qed.
(** The trigger does not restrict the class of data that counts: a new filing
    refreshes an [event_driven] value that depends on it, and news one under
    [quarterly_filing]. *)
Example any_class_of_dependency_refreshes :
  let decide_for trigger dp :=
    let deps := [dp] in
    let at_ v := Some (db_of [(("300750.SZ", dp), row v 100)]) in
    let fp := default "" (compute_dependency_fingerprint quote "300750.SZ" deps (at_ "null")) in
    is_refresh_triggered quote [(PStr "source_fingerprint_at_fill", PStr fp)] (mkGovernance (Some trigger) deps)
      (at_ "{a: 1, b: 2}") "300750.SZ" in
  (decide_for "event_driven" "L5.is.revenue", decide_for "quarterly_filing" "L9.media.news") =
  ((true, "source_changed_event_driven"), (true, "source_changed_quarterly_filing")).
Proof. vm_compute. reflexivity. Qed.
(** The row of an industry, which the snapshot prefers to the market's, does
    not count. *)
Example industry_rows_are_ignored :
  let o := mkOverlay {[("300750.SZ", "STORAGE") :=
    mkOverlayManifest "300750.SZ" "STORAGE" "p.yaml" None 1 "complete" 10]} ∅ ∅ ∅ ∅ in
  let db v := mkHotDb (list_to_map [(("INDUSTRY:STORAGE", "L9.macro.rate"), row v 95);
    (("MARKET:CN", "L9.macro.rate"), row "null" 90)]) ∅ (Some o) in
  let served v := match read_hot_snapshot (Some (db v)) "300750.SZ" true 100 with
    | Ok m => se_value <$> m !! "L9.macro.rate" | Err _ => None end in
  fingerprint (db "{a: 1, b: 2}") = fingerprint (db "null") ∧ served "{a: 1, b: 2}" ≠ served "null".
Proof. split; [vm_compute; reflexivity|vm_compute; discriminate]. Qed.

Lemma fingerprint_covers_sources_witness :
  fingerprint before =
    fingerprint_of_rows quote (candidate_ts_codes "300750.SZ")
      (reverse (select_dependencies (candidate_ts_codes "300750.SZ") (source_dependencies entry) before)).
Proof.
  destruct (fingerprint_covers_sources quote before "300750.SZ" (source_dependencies entry)
    (reverse (select_dependencies (candidate_ts_codes "300750.SZ") (source_dependencies entry) before))) as (_ & H & _);
    [apply reverse_Permutation|exact H].
Defined.

Lemma names_plain rows : forallb (λ kv : string * string * RealtimeRow, pipe_free (rt_source kv.2)) rows = true →
  plain_names (db_of rows) (source_dependencies entry).
Proof.
  intros H. split.
  - intros dp Hdp. cbn in Hdp. set_unfold. destruct Hdp as [->|[->|[->|[]]]]; reflexivity.
  - intros key r Hr. cbn in Hr. apply elem_of_list_to_map_2 in Hr. rewrite forallb_forall in H.
    apply list_elem_of_In in Hr. exact (H _ Hr).
Qed.

Lemma news_changed : ¬ same_sources quote before after "300750.SZ" (source_dependencies entry).
Proof.
  intros H. specialize (H "L9.media.news" (state_of quote "L9.media.news" (row "null" 120)) (list_elem_of_here _ _)).
  destruct H as [_ H]. destruct H as (r & Hr & E); [exists (row "null" 120); split; [by apply own_row|done]|].
  destruct Hr as [Hr|m Hr]; [|discriminate Hr]. vm_compute in Hr. injection Hr as <-. discriminate E.
Qed.


Lemma formatting_never_refreshes_witness : fingerprint before = fingerprint reformatted.
Proof.
  apply (formatting_never_refreshes quote before reformatted "300750.SZ" (source_dependencies entry)).
  intros key. destruct (decide (key = ("300750.SZ", "L9.media.news"))) as [->|Hne].
  - change (option_Forall2 row_alike (Some (row "{a: 1, b: 2}" 100)) (Some (row "{b:2,a:1}" 100))).
    constructor. split; [reflexivity|]. split; [reflexivity|]. right. split; [reflexivity|]. split; [reflexivity|].
    do 2 eexists. split; [reflexivity|]. split; [reflexivity|]. split.
    + apply (same_dict _ [(PStr "a", PInt 1); (PStr "b", PInt 2)]).
      * apply (bool_decide_unpack _). vm_compute. exact I.
      * constructor; [split; [reflexivity|apply same_refl]|].
        constructor; [split; [reflexivity|apply same_refl]|constructor].
      * apply Permutation_swap.
    + intros d k x [= <-] Hk Hx. unfold filing_fields in Hk. set_unfold.
      destruct Hk as [->|[->|[->|[->|[]]]]]; discriminate Hx.
  - cbn [realtime_current before reformatted db_of list_to_map foldr]. rewrite !(lookup_insert_ne _ ("300750.SZ", "L9.media.news")) by congruence.
    destruct (_ !! key); constructor. split; [reflexivity|]. split; [reflexivity|]. left. reflexivity.
Defined.
End FingerprintExamples.
