(* ===== verification/Manifest.v ===== *)
(** * Manifest: validation of the universe manifest and the module lock

    [mvp20/manifest.py] and [mvp20/lock.py]: the manifest of the stocks the
    system covers, its industry set, and the lock of the upstream modules.
    Each validator collects errors; [ManifestTheorems] shows which documents
    have none. A document is what [yaml.safe_load] returns. *)
From Stdlib Require Import String Ascii ZArith List SpecFloat.
From stdpp Require Import base gmap strings list sorting pretty.
From S2P Require Import Prelude PyLib.
Local Open Scope string_scope.
Local Open Scope Z_scope.

(** The errors, with the index or name they report. *)
Inductive manifest_error :=
| UniverseIdRequired | WrongWindow | WrongDepth | WrongPolicy | SetRefRequired
| IndustriesMissing
| InIndustries (e : manifest_error)
| SetRefMismatch (manifest_ref set_id : string)
| ConstituentsNotList | ConstituentsEmpty
| ConstituentNotObject (index : nat)
| BadTsCode (index : nat) (ts_code : string)
| DuplicateTsCode (ts_code : string)
| BadRole (index : nat) (role : string)
| BadPool (index : nat) (pool : string)
| NoIndustryIds (index : nat)
| TooManyIndustryIds (index : nat)
| EmptyIndustryId (index : nat)
| DuplicateIndustryId (index : nat) (slug : string)
| UnknownIndustry (index : nat) (slug : string)
| IndustriesUncovered (slugs : list string)
| SlotsNeedBlock
| SetIdRequired | IndustriesNotList
| IndustryNotObject (index : nat)
| IndustryIdRequired (index : nat)
| IndustryIdMalformed (index : nat)
| IndustryIdRepeated (slug : string)
| DisplayNameRequired (index : nat)
| BadGraphStatus (index : nat) (status : string)
| WrongIndustryCount (got : nat).

Module Manifest.

Definition industry_count : nat := 13.
Definition max_industry_ids_per_constituent : nat := 3.
Definition valid_roles : list string := ["target"; "customer"; "both"].
Definition valid_pools : list string := ["regular"; "core"].
Definition valid_graph_statuses : list string := ["present"; "pending"].

(** *** The patterns *)

(** [[A-Z][A-Z0-9_]*] *)
Definition slug_ok (s : string) : bool :=
  match s with
  | EmptyString => false
  | String c rest =>
      is_upper_az c && all_chars (λ x, is_upper_az x || is_digit x || Ascii.eqb x "_") rest
  end.
Definition digits (low high : nat) (s : string) : bool :=
  all_chars is_digit s && (low <=? String.length s)%nat && (String.length s <=? high)%nat.
Definition upper (low high : nat) (s : string) : bool :=
  all_chars is_upper_az s && (low <=? String.length s)%nat && (String.length s <=? high)%nat.
(** [TS_CODE_RE], of a text of ASCII characters ([\d] also takes the digits of
    other scripts) *)
Definition ts_code_ok (s : string) : bool :=
  match split_char "." s with
  | [a; b] =>
      digits 6 6 a && bool_decide (b ∈ ["SH"; "SZ"; "BJ"]) || digits 4 5 a && String.eqb b "HK" ||
      upper 1 5 a && String.eqb b "US"
  | [a; b; c] => upper 1 5 a && upper 1 1 b && String.eqb c "US"
  | _ => false
  end.

Section manifest.
Context {T : PyText}.

(** [_string(d.get(k))] *)
Definition text_of (v : option pyval) : string :=
  match v with None | Some PNone => "" | Some x => strip (py_str x) end.
Definition text_or (v : option pyval) (other : string) : string :=
  if is_empty (text_of v) then other else text_of v.
(** [d.get(k) == n] *)
Definition equals_int (v : option pyval) (n : Z) : bool :=
  match v with
  | Some (PInt z) => z =? n
  | Some (PBool b) => (if b then 1 else 0) =? n
  | Some (PFloat f) => SFeqb f (float_of_Z n)
  | _ => false
  end.
Definition equals_text (v : option pyval) (s : string) : bool :=
  match v with Some (PStr x) => String.eqb x s | _ => false end.

(** *** The industry set *)

Record IndustrySet := mkIndustrySet {
  is_errors : list manifest_error;
  is_set_id : string;
  is_ids : list string;
  is_graph_status : gmap string string;
}.

(** The errors of one entry, and the ids and statuses after it. *)
Definition check_industry (index : nat) (entry : pyval) (s : list manifest_error * list string * gmap string string)
    : list manifest_error * list string * gmap string string :=
  let '(errors, seen, statuses) := s in
  match entry with
  | PDict d =>
      let slug := text_of (pget "id" d) in
      if is_empty slug then ((errors ++ [IndustryIdRequired index])%list, seen, statuses)
      else
        let e1 := if slug_ok slug then [] else [IndustryIdMalformed index] in
        let repeated := bool_decide (slug ∈ seen) in
        let e2 := if repeated then [IndustryIdRepeated slug] else [] in
        let e3 := if is_empty (text_of (pget "display_name" d)) then [DisplayNameRequired index] else [] in
        let status := text_or (pget "graph_status" d) "present" in
        let known := bool_decide (status ∈ valid_graph_statuses) in
        let e4 := if known then [] else [BadGraphStatus index status] in
        ((errors ++ e1 ++ e2 ++ e3 ++ e4)%list, if repeated then seen else (seen ++ [slug])%list,
         if known then <[slug := status]> statuses else statuses)
  | _ => ((errors ++ [IndustryNotObject index])%list, seen, statuses)
  end.
Fixpoint check_industries (index : nat) (entries : list pyval) (s : list manifest_error * list string * gmap string string)
    : list manifest_error * list string * gmap string string :=
  match entries with
  | [] => s
  | e :: rest => check_industries (S index) rest (check_industry index e s)
  end.

(** [validate_industry_set], of a document that is a mapping *)
Definition validate_industry_set (payload : pdict) : IndustrySet :=
  let set_id := text_of (pget "industry_set_id" payload) in
  let e0 := if is_empty set_id then [SetIdRequired] else [] in
  let '(e1, industries) := match pget "industries" payload with
    | Some (PList l) => ([], l) | _ => ([IndustriesNotList], []) end in
  let '(errors, seen, statuses) := check_industries 1 industries ((e0 ++ e1)%list, [], ∅) in
  let e2 := match industries with
    | [] => []
    | _ => if (length seen =? industry_count)%nat then [] else [WrongIndustryCount (length seen)]
    end in
  mkIndustrySet (errors ++ e2)%list set_id seen statuses.

(** *** The manifest *)

(** What the loop over the constituents has found. *)
Record scan := mkScan {
  sc_errors : list manifest_error;
  sc_seen : gset string;
  sc_slots : nat;
  sc_covered : gset string;
  sc_pools : gmap string nat;
}.
Definition start_scan : scan := mkScan [] ∅ 0 ∅ (list_to_map (map (λ p, (p, 0%nat)) valid_pools)).
Definition add_errors (es : list manifest_error) (s : scan) : scan :=
  mkScan (sc_errors s ++ es)%list (sc_seen s) (sc_slots s) (sc_covered s) (sc_pools s).

Definition check_slug (valid : gset string) (index : nat) (s : list manifest_error * list string * gset string) (v : pyval)
    : list manifest_error * list string * gset string :=
  let '(errors, unique, covered) := s in
  let slug := text_of (Some v) in
  if is_empty slug then ((errors ++ [EmptyIndustryId index])%list, unique, covered)
  else if bool_decide (slug ∈ unique) then ((errors ++ [DuplicateIndustryId index slug])%list, unique, covered)
  else if negb (bool_decide (valid = ∅)) && negb (bool_decide (slug ∈ valid)) then
    ((errors ++ [UnknownIndustry index slug])%list, (unique ++ [slug])%list, covered)
  else (errors, (unique ++ [slug])%list, {[slug]} ∪ covered).

Definition check_constituent (valid : gset string) (index : nat) (target : pyval) (s : scan) : scan :=
  match target with
  | PDict d =>
      let ts_code := text_of (pget "ts_code" d) in
      let e1 := if ts_code_ok ts_code then [] else [BadTsCode index ts_code] in
      let e2 := if bool_decide (ts_code ∈ sc_seen s) then [DuplicateTsCode ts_code] else [] in
      let slots := match pget "slot" d with Some (PBool true) => S (sc_slots s) | _ => sc_slots s end in
      let role := text_or (pget "role" d) "target" in
      let e3 := if bool_decide (role ∈ valid_roles) then [] else [BadRole index role] in
      let pool := text_or (pget "pool" d) "regular" in
      let pool_known := bool_decide (pool ∈ valid_pools) in
      let e4 := if pool_known then [] else [BadPool index pool] in
      let pools := if pool_known then <[pool := S (default 0%nat (sc_pools s !! pool))]> (sc_pools s) else sc_pools s in
      let checked := mkScan (sc_errors s ++ e1 ++ e2 ++ e3 ++ e4)%list ({[ts_code]} ∪ sc_seen s) slots (sc_covered s) pools in
      match pget "industry_ids" d with
      | Some (PList (x :: rest)) =>
          let e5 := if (max_industry_ids_per_constituent <? length (x :: rest))%nat then [TooManyIndustryIds index] else [] in
          let '(es, _, covered) := fold_left (check_slug valid index) (x :: rest) (e5, [], sc_covered checked) in
          mkScan (sc_errors checked ++ es)%list (sc_seen checked) (sc_slots checked) covered (sc_pools checked)
      | _ => add_errors [NoIndustryIds index] checked
      end
  | _ => add_errors [ConstituentNotObject index] s
  end.
Fixpoint check_constituents (valid : gset string) (index : nat) (targets : list pyval) (s : scan) : scan :=
  match targets with
  | [] => s
  | t :: rest => check_constituents valid (S index) rest (check_constituent valid index t s)
  end.

Record ManifestValidation := mkManifest {
  mv_errors : list manifest_error;
  mv_universe_id : string;
  mv_industry_count : nat;
  mv_constituent_count : nat;
  mv_live_evidence_blocked : bool;
  mv_covered : list string;
  mv_missing : list string;
  mv_soft_missing : list string;
  mv_pools : gmap string nat;
}.
Definition mv_ok (r : ManifestValidation) : bool := match mv_errors r with [] => true | _ => false end.

Definition pending (statuses : gmap string string) (slug : string) : bool :=
  String.eqb (default "present" (statuses !! slug)) "pending".

(** [validate_manifest], of a manifest that is a mapping; [industries] is the
    industry set next to it, if there is one. *)
Definition validate_manifest (manifest : pdict) (industries : option pdict) : ManifestValidation :=
  let universe_id := text_of (pget "universe_id" manifest) in
  let set_ref := text_of (pget "industry_set_ref" manifest) in
  let e0 := ((if is_empty universe_id then [UniverseIdRequired] else []) ++
    (if equals_int (pget "history_window_months" manifest) 120 then [] else [WrongWindow]) ++
    (if equals_int (pget "graph_depth" manifest) 2 then [] else [WrongDepth]) ++
    (if equals_text (pget "related_entity_policy" manifest) "graph_and_risk_summary_only" then [] else [WrongPolicy]) ++
    (if is_empty set_ref then [SetRefRequired] else []))%list in
  let set := validate_industry_set <$> industries in
  let e1 := match set with
    | None => [IndustriesMissing]
    | Some i =>
        (map InIndustries (is_errors i) ++
         if negb (is_empty set_ref) && negb (is_empty (is_set_id i)) && negb (String.eqb set_ref (is_set_id i))
         then [SetRefMismatch set_ref (is_set_id i)] else [])%list
    end in
  let valid : gset string := match set with Some i => list_to_set (is_ids i) | None => ∅ end in
  let statuses := match set with Some i => is_graph_status i | None => ∅ end in
  let '(e2, constituents) := match pget "constituents" manifest with
    | Some (PList l) => ([], l) | _ => ([ConstituentsNotList], []) end in
  let e3 := match constituents with [] => [ConstituentsEmpty] | _ => [] end in
  let s := check_constituents valid 1 constituents start_scan in
  let missing := sorted_set (valid ∖ sc_covered s) in
  let hard := List.filter (λ slug, negb (pending statuses slug)) missing in
  let e4 := match hard with [] => [] | _ => [IndustriesUncovered hard] end in
  let blocked := match pget "live_evidence_blocked" manifest with Some v => truthy v | None => false end in
  let e5 := if negb (sc_slots s =? 0)%nat && negb blocked then [SlotsNeedBlock] else [] in
  mkManifest (e0 ++ e1 ++ e2 ++ e3 ++ sc_errors s ++ e4 ++ e5)%list universe_id (size valid) (length constituents)
    blocked (sorted_set (sc_covered s)) missing (List.filter (pending statuses) missing) (sc_pools s).
End manifest.
End Manifest.

Inductive lock_error :=
| ModulesNotMapping
| MissingModules (names : list string)
| UnexpectedModules (names : list string)
| SpecNotObject (module_name : string)
| BadRepo (module_name : string)
| BadCommit (module_name : string)
| MainBranch (module_name : string).

Module Lock.

Definition expected_modules : list string :=
  ["contracts"; "data-platform"; "entity-registry"; "reasoner-runtime"; "graph-engine"; "main-core"; "audit-eval";
   "subsystem-sdk"; "orchestrator"; "assembly"; "frontend-api"; "subsystem-announcement"; "subsystem-news";
   "subsystem-holdings"].
Definition repo_prefix : string := "https://github.com/shenfanjie5-bit/project-ult-".
(** [SHA_RE] *)
Definition is_hex (c : ascii) : bool :=
  is_digit c || (let n := nat_of_ascii c in ((97 <=? n) && (n <=? 102))%bool%nat).
Definition sha_ok (s : string) : bool := all_chars is_hex s && (String.length s =? 40)%nat.

Section lock.
Context {T : PyText}.

(** [str(spec.get(k, "")).strip()] *)
Definition spec_text (k : string) (d : pdict) : string :=
  strip (match pget k d with Some v => py_str v | None => "" end).
Definition check_module (name : string) (spec : pyval) : list lock_error :=
  match spec with
  | PDict d =>
      let repo := spec_text "repo" d in
      let commit := spec_text "commit" d in
      ((if startswith repo_prefix repo then [] else [BadRepo name]) ++
       (if sha_ok commit then [] else [BadCommit name]) ++
       (if endswith "@main" repo || String.eqb commit "main" then [MainBranch name] else []))%list
  | _ => [SpecNotObject name]
  end.

(** The names of the modules; a key that is no string makes [sorted] or [join]
    raise a [TypeError]. *)
Definition named_modules (modules : pdict) : option (list (string * pyval)) :=
  mapM (λ kv, match kv.1 with PStr k => Some (k, kv.2) | _ => None end) modules.

(** [validate_lock], of a lock that is a mapping: the number of modules and the
    errors, or [None] when it raises. *)
Definition validate_lock (payload : pdict) : option (nat * list lock_error) :=
  match pget "modules" payload with
  | Some (PDict modules) =>
      match named_modules modules with
      | None => None
      | Some named =>
          let names : gset string := list_to_set (map fst named) in
          let missing := sorted_set (list_to_set expected_modules ∖ names) in
          let extra := sorted_set (names ∖ list_to_set expected_modules) in
          Some (length modules,
            ((match missing with [] => [] | _ => [MissingModules missing] end) ++
             (match extra with [] => [] | _ => [UnexpectedModules extra] end) ++
             concat (map (λ ns, check_module ns.1 ns.2) (sort_on fst named)))%list)
      end
  | _ => Some (0%nat, [ModulesNotMapping])
  end.
End lock.
End Lock.

Module ManifestTheorems.
Import Manifest Lock.

Section manifest.
Context {T : PyText}.

(** ** What a valid industry set is *)

(** The entries of a document and what they say. *)
Definition entry_ok (e : pyval) : Prop :=
  ∃ d, e = PDict d ∧ slug_ok (text_of (pget "id" d)) = true ∧ is_empty (text_of (pget "display_name" d)) = false ∧
    text_or (pget "graph_status" d) "present" ∈ valid_graph_statuses.
Definition entry_id (e : pyval) : string := match e with PDict d => text_of (pget "id" d) | _ => "" end.
Definition entry_status (e : pyval) : string :=
  match e with PDict d => text_or (pget "graph_status" d) "present" | _ => "" end.

Lemma if_nil (b : bool) (e : manifest_error) : (if b then [] else [e]) = [] ↔ b = true.
Proof. by destruct b. Qed.
Lemma if_nil' (b : bool) (e : manifest_error) : (if b then [e] else []) = [] ↔ b = false.
Proof. by destruct b. Qed.

Lemma slug_not_empty s : slug_ok s = true → is_empty s = false.
Proof. by destruct s. Qed.

Lemma check_industry_errors i e errors seen statuses errors' seen' statuses' :
  check_industry i e (errors, seen, statuses) = (errors', seen', statuses') →
  (∃ es, errors' = (errors ++ es)%list ∧ (es = [] ↔ entry_ok e ∧ entry_id e ∉ seen)) ∧
  (entry_ok e → entry_id e ∉ seen → seen' = (seen ++ [entry_id e])%list ∧ statuses' = <[entry_id e := entry_status e]> statuses).
Proof.
  destruct e as [| | | | | | |d|]; simpl;
    try (intros [= <- <- <-]; split; [eexists; split; [reflexivity|]; split; [done|by intros [(? & ? & _) _]]|by intros (? & ? & _)]).
  destruct (is_empty (text_of (pget "id" d))) eqn:Eid.
  { assert (¬ entry_ok (PDict d)) as Hno.
    { intros (d' & [= <-] & Hs & _). apply slug_not_empty in Hs. congruence. }
    intros [= <- <- <-]. split; [|done]. eexists. split; [reflexivity|]. split; [done|by intros [? _]]. }
  intros E. injection E as <- <- <-. split.
  - eexists. split; [reflexivity|].
    rewrite !app_nil, !if_nil, !if_nil', bool_decide_eq_true, bool_decide_eq_false. split.
    + intros (H1 & H2 & H3 & H4). split; [|done]. exists d. auto.
    + intros [(d' & [= <-] & H1 & H2 & H3) H4]. auto.
  - intros (d' & [= <-] & H1 & H2 & H3) H4. rewrite bool_decide_eq_false_2, bool_decide_eq_true_2 by done. done.
Qed.

Lemma check_industries_errors entries i errors seen statuses errors' seen' statuses' :
  check_industries i entries (errors, seen, statuses) = (errors', seen', statuses') → NoDup seen →
  (∃ es, errors' = (errors ++ es)%list ∧ (es = [] ↔ Forall entry_ok entries ∧ NoDup (seen ++ map entry_id entries))) ∧
  (Forall entry_ok entries → NoDup (seen ++ map entry_id entries) →
     seen' = (seen ++ map entry_id entries)%list ∧
     statuses' = fold_left (λ m e, <[entry_id e := entry_status e]> m) entries statuses).
Proof.
  revert i errors seen statuses. induction entries as [|e rest IH]; intros i errors seen statuses; cbn [check_industries map fold_left].
  { intros [= <- <- <-] Hn. rewrite app_nil_r. split; [|auto].
    exists []. rewrite app_nil_r. split; [done|]. split; [auto|done]. }
  destruct (check_industry i e (errors, seen, statuses)) as [[errors1 seen1] statuses1] eqn:E. intros Hr Hn.
  destruct (check_industry_errors _ _ _ _ _ _ _ _ E) as [(es & -> & Hes) Hok].
  assert (NoDup seen1 ∧ (∀ x, x ∈ seen → x ∈ seen1)) as [Hn1 Hsub].
  { destruct e as [| | | | | | |d|]; simpl in E; try (injection E as _ <- _; auto).
    destruct (is_empty _); [by injection E as _ <- _|]. injection E as _ <- _. case_bool_decide as Hin; [auto|].
    split; [apply NoDup_app; split_and!; [done| |apply NoDup_singleton]|intros x Hx; apply elem_of_app; auto].
    intros x Hx ->%list_elem_of_singleton. done. }
  destruct (IH _ _ _ _ Hr Hn1) as [(es' & -> & Hes') Hok']. split.
  - exists (es ++ es')%list. rewrite app_assoc. split; [done|]. rewrite app_nil, Hes, Hes', Forall_cons. split.
    + intros [[Ho Hi] [Hos Hns]]. destruct (Hok Ho Hi) as [-> _]. by rewrite <- app_assoc in Hns.
    + intros [[Ho Hos] Hns].
      assert (entry_id e ∉ seen) as Hi.
      { intros Hin. apply NoDup_app in Hns as (_ & Hd & _). apply (Hd _ Hin). left. }
      destruct (Hok Ho Hi) as [-> _]. rewrite <- app_assoc. auto.
  - intros [Ho Hos]%Forall_cons Hns.
    assert (entry_id e ∉ seen) as Hi.
    { intros Hin. apply NoDup_app in Hns as (_ & Hd & _). apply (Hd _ Hin). left. }
    destruct (Hok Ho Hi) as [-> ->]. rewrite <- app_assoc in Hok'. by apply Hok'.
Qed.

Lemma statuses_lookup entries (m : gmap string string) e :
  NoDup (map entry_id entries) → e ∈ entries →
  fold_left (λ m e, <[entry_id e := entry_status e]> m) entries m !! entry_id e = Some (entry_status e).
Proof.
  revert m. induction entries as [|e' rest IH]; intros m; cbn [map fold_left]; [by intros _ ?%not_elem_of_nil|].
  intros [Hni Hn]%NoDup_cons [->|He]%elem_of_cons; [|by apply IH].
  clear Hn IH. assert (∀ m : gmap string string, m !! entry_id e' = Some (entry_status e') →
    fold_left (λ m e, <[entry_id e := entry_status e]> m) rest m !! entry_id e' = Some (entry_status e')) as H.
  { induction rest as [|x rest IH]; intros m' Hm; [done|]. cbn [fold_left map] in *.
    apply not_elem_of_cons in Hni as [Hx Hni]. apply IH; [done|]. by rewrite lookup_insert_ne. }
  apply H, lookup_insert_eq.
Qed.

(** A valid industry set: an id, and entries of distinct well-formed slugs, either
    thirteen of them or none. *)
Definition set_ok (payload : pdict) (entries : list pyval) : Prop :=
  is_empty (text_of (pget "industry_set_id" payload)) = false ∧ pget "industries" payload = Some (PList entries) ∧
  Forall entry_ok entries ∧ NoDup (map entry_id entries) ∧ (entries = [] ∨ length entries = 13%nat).

Lemma industry_set_errors payload :
  (is_errors (validate_industry_set payload) = [] ↔ ∃ entries, set_ok payload entries) ∧
  (∀ entries, set_ok payload entries →
     is_ids (validate_industry_set payload) = map entry_id entries ∧
     is_graph_status (validate_industry_set payload) =
       fold_left (λ m e, <[entry_id e := entry_status e]> m) entries ∅).
Proof.
  unfold validate_industry_set, set_ok.
  destruct (match pget "industries" payload with Some (PList l) => _ | _ => _ end) as [e1 industries] eqn:E1.
  assert (e1 = [] ↔ pget "industries" payload = Some (PList industries)) as H1.
  { destruct (pget "industries" payload) as [[]|]; by inversion_clear E1. }
  assert (∀ l, pget "industries" payload = Some (PList l) → l = industries) as H2.
  { intros l Hl. rewrite Hl in E1. by injection E1. }
  destruct (check_industries _ _ _) as [[errors seen] statuses] eqn:E.
  destruct (check_industries_errors _ _ _ _ _ _ _ _ E (NoDup_nil_2)) as [(es & -> & Hes) Hok]. cbn in Hes, Hok. simpl. split.
  - rewrite !app_nil, if_nil', H1, Hes. split.
    + intros [[[Ha Hb] [Hc Hd]] He]. exists industries. split_and!; [done..|]. destruct (Hok Hc Hd) as [-> _].
      destruct industries; [by left|right]. rewrite if_nil, length_map in He. by apply Nat.eqb_eq.
    + intros (l & Ha & Hb & Hc & Hd & He). pose proof (H2 _ Hb); subst l. split_and!; [done..|]. destruct (Hok Hc Hd) as [-> _].
      destruct industries; [done|]. rewrite if_nil, length_map. destruct He; [done|by apply Nat.eqb_eq].
  - intros l (Ha & Hb & Hc & Hd & He). pose proof (H2 _ Hb); subst l. by apply Hok.
Qed.

(** ** What a valid constituent is *)

Definition slugs_of (d : pdict) : list string :=
  match pget "industry_ids" d with Some (PList l) => map (λ v, text_of (Some v)) l | _ => [] end.
Definition constituent_ok (valid : gset string) (t : pyval) : Prop :=
  ∃ d, t = PDict d ∧ ts_code_ok (text_of (pget "ts_code" d)) = true ∧ text_or (pget "role" d) "target" ∈ valid_roles ∧
    text_or (pget "pool" d) "regular" ∈ valid_pools ∧ (1 <= length (slugs_of d) <= 3)%nat ∧
    NoDup (slugs_of d) ∧ ∀ s, s ∈ slugs_of d → is_empty s = false ∧ (valid = ∅ ∨ s ∈ valid).
Definition code_of (t : pyval) : string := match t with PDict d => text_of (pget "ts_code" d) | _ => "" end.
Definition ids_of (t : pyval) : list string := match t with PDict d => slugs_of d | _ => [] end.
Definition is_slot (t : pyval) : bool :=
  match t with PDict d => match pget "slot" d with Some (PBool true) => true | _ => false end | _ => false end.

Lemma check_slugs_errors valid i l es unique covered es' unique' covered' :
  fold_left (check_slug valid i) l (es, unique, covered) = (es', unique', covered') →
  let slugs := map (λ v, text_of (Some v)) l in
  ∃ es1, es' = (es ++ es1)%list ∧
    (es1 = [] ↔ NoDup slugs ∧ (∀ s, s ∈ slugs → s ∉ unique) ∧
       ∀ s, s ∈ slugs → is_empty s = false ∧ (valid = ∅ ∨ s ∈ valid)) ∧
    (es1 = [] → covered' = list_to_set slugs ∪ covered).
Proof.
  cbn zeta. revert es unique covered. induction l as [|v l IH]; intros es unique covered; cbn [map fold_left].
  { intros [= <- <- <-]. exists []. rewrite app_nil_r. split; [done|]. split; [|intros _; cbn; by rewrite (left_id_L ∅ (∪))].
    split; [|done]. split; [constructor|]. split; by intros ? ?%not_elem_of_nil. }
  set (slug := text_of (Some v)).
  destruct (check_slug valid i (es, unique, covered) v) as [[es0 unique0] covered0] eqn:E. intros Hr.
  destruct (IH _ _ _ Hr) as (es1 & -> & Hes1 & Hcov). unfold check_slug in E. fold slug in E.
  destruct (is_empty slug) eqn:Eempty.
  { injection E as <- <- <-. eexists. rewrite <- app_assoc. split; [done|]. split; [|done]. split; [done|].
    intros (_ & _ & H). destruct (H slug) as [? _]; [left|]. congruence. }
  case_bool_decide as Hu.
  { injection E as <- <- <-. eexists. rewrite <- app_assoc. split; [done|]. split; [|done]. split; [done|].
    intros (_ & H & _). destruct (H slug); [left|done]. }
  destruct (negb _ && negb _) eqn:Ek.
  { injection E as <- <- <-. eexists. rewrite <- app_assoc. split; [done|]. split; [|done]. split; [done|].
    intros (_ & _ & H). destruct (H slug) as [_ Hv]; [left|]. apply andb_true_iff in Ek as [Ek1 Ek2].
    rewrite negb_true_iff, bool_decide_eq_false in Ek1, Ek2. by destruct Hv. }
  injection E as <- <- <-. exists es1. split; [done|]. split; [|intros ->; rewrite Hcov by done; set_solver].
  assert (valid = ∅ ∨ slug ∈ valid) as Hk.
  { apply andb_false_iff in Ek. rewrite !negb_false_iff, !bool_decide_eq_true in Ek. done. }
  rewrite Hes1, NoDup_cons. clear -Hk Hu Eempty. split.
  - intros (Hn & Hq & Hs). split_and!; [|done|..].
    + intros Hin. apply (Hq _ Hin). set_solver.
    + set_solver.
    + intros s Hin. apply elem_of_cons in Hin as [->|Hin]; auto.
  - intros ((Hni & Hn) & Hq & Hs). split_and!; [done| |].
    + intros s Hin Hun. apply elem_of_app in Hun as [Hun|Hun]; [apply (Hq s); [by right|done]|].
      apply list_elem_of_singleton in Hun as ->. done.
    + intros s Hin. apply Hs. by right.
Qed.

Lemma check_constituent_errors valid i t s :
  ∃ es, sc_errors (check_constituent valid i t s) = (sc_errors s ++ es)%list ∧
    (es = [] ↔ constituent_ok valid t ∧ code_of t ∉ sc_seen s) ∧
    (es = [] → sc_seen (check_constituent valid i t s) = {[code_of t]} ∪ sc_seen s ∧
       sc_covered (check_constituent valid i t s) = list_to_set (ids_of t) ∪ sc_covered s ∧
       sc_slots (check_constituent valid i t s) = ((if is_slot t then 1 else 0) + sc_slots s)%nat).
Proof.
  destruct t as [| | | | | | |d|];
    try (exists [ConstituentNotObject i]; split; [done|]; split; [|done]; split; [done|by intros [(? & ? & _) _]]).
  unfold constituent_ok, slugs_of. cbn [check_constituent code_of ids_of is_slot]. unfold slugs_of.
  set (e1 := if ts_code_ok _ then _ else _). set (e2 := if bool_decide (_ ∈ sc_seen s) then _ else _).
  set (e3 := if bool_decide (_ ∈ valid_roles) then _ else _). set (e4 := if bool_decide (_ ∈ valid_pools) then _ else _).
  assert (((e1 ++ e2 ++ e3 ++ e4)%list = []) ↔
    ts_code_ok (text_of (pget "ts_code" d)) = true ∧ (text_of (pget "ts_code" d) ∉ sc_seen s) ∧
    text_or (pget "role" d) "target" ∈ valid_roles ∧ text_or (pget "pool" d) "regular" ∈ valid_pools) as He.
  { unfold e1, e2, e3, e4. by rewrite !app_nil, !if_nil, if_nil', !bool_decide_eq_true, bool_decide_eq_false. }
  set (es0 := (e1 ++ e2 ++ e3 ++ e4)%list) in *. clearbody es0. clear e1 e2 e3 e4.
  destruct (pget "industry_ids" d) as [[| | | | |l| | |]|] eqn:Ei;
    try (exists (es0 ++ [NoIndustryIds i])%list; cbn; rewrite <- app_assoc; split; [done|]; split;
      [|by intros [_ ?]%app_nil]; split; [by intros [_ ?]%app_nil|];
      intros [(d' & [= <-] & H) _]; destruct H as (_ & _ & _ & H & _); rewrite Ei in H; cbn in H; lia).
  destruct l as [|x rest].
  { exists (es0 ++ [NoIndustryIds i])%list; cbn. rewrite <- app_assoc. split; [done|]. split; [|by intros [_ ?]%app_nil].
    split; [by intros [_ ?]%app_nil|]. intros [(d' & [= <-] & H) _]. destruct H as (_ & _ & _ & H & _). rewrite Ei in H. cbn in H. lia. }
  set (l := x :: rest). assert (0 < length l)%nat as Hl by (cbn; lia).
  change (x :: rest) with l in Ei. clearbody l. clear x rest.
  destruct (fold_left _ l _) as [[es u] covered] eqn:E. destruct (check_slugs_errors _ _ _ _ _ _ _ _ _ E) as (es1 & -> & Hes1 & Hcov).
  cbn [sc_errors sc_seen sc_covered sc_slots]. eexists. rewrite <- app_assoc. split; [done|]. split.
  - rewrite !app_nil, He, if_nil', Nat.ltb_ge, Hes1. split.
    + intros ((H1 & H2 & H3 & H4) & H5 & H6 & _ & H7). split; [|done]. exists d. rewrite Ei, length_map. auto 10.
    + intros [(d' & [= <-] & H1 & H2 & H3 & [_ H4] & H5 & H6) H7]. rewrite Ei in *. rewrite length_map in H4. split_and!; try done.
      by intros ? _ ?%not_elem_of_nil.
  - rewrite !app_nil. intros (_ & _ & Hnil). rewrite Hcov by done. split_and!; [done..|].
    by destruct (pget "slot" d) as [[|[]| | | | | | |]|].
Qed.

Lemma check_constituents_errors valid i ts s :
  ∃ es, sc_errors (check_constituents valid i ts s) = (sc_errors s ++ es)%list ∧
    (es = [] ↔ Forall (constituent_ok valid) ts ∧ NoDup (map code_of ts) ∧ ∀ t, t ∈ ts → code_of t ∉ sc_seen s) ∧
    (es = [] → (∀ x, x ∈ sc_covered (check_constituents valid i ts s) ↔ x ∈ sc_covered s ∨ ∃ t, t ∈ ts ∧ x ∈ ids_of t) ∧
       (sc_slots (check_constituents valid i ts s) = 0%nat ↔ sc_slots s = 0%nat ∧ Forall (λ t, is_slot t = false) ts)).
Proof.
  revert i s. induction ts as [|t ts IH]; intros i s; cbn [check_constituents map].
  { exists []. rewrite app_nil_r. split; [done|]. split; [|intros _; split; [set_solver|by split; [|intros [??]]]].
    split; [|done]. split; [done|]. split; [constructor|by intros ? ?%not_elem_of_nil]. }
  destruct (check_constituent_errors valid i t s) as (es & He & Hes & Hok).
  destruct (IH (S i) (check_constituent valid i t s)) as (es' & He' & Hes' & Hok').
  exists (es ++ es')%list. rewrite He', He, app_assoc. split; [done|]. rewrite app_nil. split.
  - rewrite Forall_cons, NoDup_cons. split.
    + intros [Hn Hn']. destruct (Hok Hn) as [Hseen _]. apply Hes in Hn as [Ht Hc]. apply Hes' in Hn' as (Hts & Hnd & Hf).
      rewrite Hseen in Hf. split; [done|]. split; [|set_solver]. split; [|done].
      intros (t' & Ht' & Hin)%list_elem_of_fmap. specialize (Hf _ Hin). set_solver.
    + intros ([Ht Hts] & [Hni Hnd] & Hf). assert (es = []) as Hn by (apply Hes; split; [done|apply Hf; left]).
      split; [done|]. destruct (Hok Hn) as [Hseen _]. apply Hes'. rewrite Hseen. split_and!; [done..|].
      intros t' Hin. rewrite not_elem_of_union, not_elem_of_singleton. split; [|apply Hf; by right].
      intros Hc. apply Hni. rewrite <- Hc. apply list_elem_of_fmap. eauto.
  - intros [Hn Hn']. destruct (Hok Hn) as (_ & Hcov & Hslots). destruct (Hok' Hn') as [Hc' Hs']. split.
    + intros x. rewrite Hc', Hcov. set_solver.
    + rewrite Hs', Hslots, Forall_cons. destruct (is_slot t); split; intros; split_and!; try naive_solver lia.
Qed.

(** ** What a valid manifest is *)

Definition manifest_fields_ok (m : pdict) : Prop :=
  is_empty (text_of (pget "universe_id" m)) = false ∧ equals_int (pget "history_window_months" m) 120 = true ∧
  equals_int (pget "graph_depth" m) 2 = true ∧
  equals_text (pget "related_entity_policy" m) "graph_and_risk_summary_only" = true.

(** The set of industries is valid and the one the manifest names, the
    constituents are valid and distinct, each industry whose graph is present has
    a constituent, and a manifest with slots is blocked. *)
Definition manifest_ok (m i : pdict) : Prop :=
  ∃ entries ts, set_ok i entries ∧ pget "constituents" m = Some (PList ts) ∧ ts ≠ [] ∧ manifest_fields_ok m ∧
    text_of (pget "industry_set_ref" m) = text_of (pget "industry_set_id" i) ∧
    Forall (constituent_ok (list_to_set (map entry_id entries))) ts ∧ NoDup (map code_of ts) ∧
    (∀ e, e ∈ entries → (∃ t, t ∈ ts ∧ entry_id e ∈ ids_of t) ∨ entry_status e = "pending") ∧
    ((∃ t, t ∈ ts ∧ is_slot t = true) → ∃ v, pget "live_evidence_blocked" m = Some v ∧ truthy v = true).

Lemma fields_errors m :
  ((if is_empty (text_of (pget "universe_id" m)) then [UniverseIdRequired] else []) ++
   (if equals_int (pget "history_window_months" m) 120 then [] else [WrongWindow]) ++
   (if equals_int (pget "graph_depth" m) 2 then [] else [WrongDepth]) ++
   (if equals_text (pget "related_entity_policy" m) "graph_and_risk_summary_only" then [] else [WrongPolicy]) ++
   (if is_empty (text_of (pget "industry_set_ref" m)) then [SetRefRequired] else []))%list = [] ↔
  manifest_fields_ok m ∧ is_empty (text_of (pget "industry_set_ref" m)) = false.
Proof. unfold manifest_fields_ok. rewrite !app_nil, !if_nil, !if_nil'. tauto. Qed.

Lemma set_errors (i : IndustrySet) set_ref :
  is_empty set_ref = false →
  (map InIndustries (is_errors i) ++
   if negb (is_empty set_ref) && negb (is_empty (is_set_id i)) && negb (String.eqb set_ref (is_set_id i))
   then [SetRefMismatch set_ref (is_set_id i)] else [])%list = [] ↔
  is_errors i = [] ∧ (is_empty (is_set_id i) = true ∨ set_ref = is_set_id i).
Proof.
  intros Hr. rewrite app_nil, if_nil', Hr. cbn [negb andb].
  rewrite andb_false_iff, !negb_false_iff, String.eqb_eq. destruct (is_errors i); [done|]. split; by intros [? _].
Qed.

Lemma hard_nil hard : match hard with [] => [] | _ => [IndustriesUncovered hard] end = [] ↔ hard = [].
Proof. by destruct hard. Qed.

Lemma uncovered_errors entries (covered : gset string) :
  NoDup (map entry_id entries) →
  List.filter (λ slug, negb (pending (fold_left (λ m e, <[entry_id e := entry_status e]> m) entries ∅) slug))
    (sorted_set (list_to_set (map entry_id entries) ∖ covered)) = [] ↔
  ∀ e, e ∈ entries → entry_id e ∈ covered ∨ entry_status e = "pending".
Proof.
  intros Hn. set (statuses := fold_left _ entries ∅).
  assert (∀ e, e ∈ entries → (pending statuses (entry_id e) = true ↔ entry_status e = "pending")) as Hp.
  { intros e He. unfold pending, statuses. rewrite statuses_lookup by done. cbn. apply String.eqb_eq. }
  set (missing := sorted_set _).
  assert (∀ x, x ∈ missing ↔ (∃ e, e ∈ entries ∧ entry_id e = x) ∧ x ∉ covered) as Hm.
  { intros x. unfold missing. rewrite elem_of_sorted_set, elem_of_difference, elem_of_list_to_set, list_elem_of_fmap.
    naive_solver. }
  split.
  - intros Hf e He. destruct (decide (entry_id e ∈ covered)) as [|Hc]; [by left|right]. apply (Hp _ He).
    destruct (pending statuses (entry_id e)) eqn:Hpe; [done|exfalso].
    assert (In (entry_id e) (List.filter (λ slug, negb (pending statuses slug)) missing)) as Hin.
    { apply List.filter_In. split; [|by rewrite Hpe]. apply list_elem_of_In, Hm. eauto. }
    by rewrite Hf in Hin.
  - intros Hall. destruct (List.filter _ missing) as [|x l] eqn:Ef; [done|].
    assert (In x (List.filter (λ slug, negb (pending statuses slug)) missing)) as Hin by (rewrite Ef; by left).
    apply List.filter_In in Hin as [Hin Hx]. apply list_elem_of_In, Hm in Hin as [(e & He & <-) Hc].
    destruct (Hall e He) as [|Hs]; [done|]. apply Hp in Hs; [|done]. by rewrite Hs in Hx.
Qed.

Lemma industry_set_id i : is_set_id (validate_industry_set i) = text_of (pget "industry_set_id" i).
Proof. unfold validate_industry_set. destruct (match pget "industries" i with Some (PList l) => _ | _ => _ end). by destruct (check_industries _ _ _) as [[??]?]. Qed.

Lemma constituents_list (v : option pyval) :
  ∃ l e, match v with Some (PList l) => ([], l) | _ => ([ConstituentsNotList], []) end = (e, l) ∧
    (e = [] ↔ v = Some (PList l)) ∧ ∀ l', v = Some (PList l') → l' = l.
Proof. destruct v as [[| | | | |l| | |]|]; eexists _, _; (split; [reflexivity|]); split; (done || by intros ? [= ->]). Qed.

Lemma no_slot_spec ts : Forall (λ t, is_slot t = false) ts ↔ ¬ ∃ t, t ∈ ts ∧ is_slot t = true.
Proof.
  rewrite list.Forall_forall. split.
  - intros H (t & Ht & Hs). rewrite (H t Ht) in Hs. done.
  - intros H t Ht. destruct (is_slot t) eqn:E; [|done]. destruct H. eauto.
Qed.

(** C37: [validate_manifest] accepts a manifest, with the industry set next to it,
    exactly when both are valid by the declarative conditions: the fixed fields, a
    valid industry set (thirteen distinct industries, or none) that is the one
    named, at least one constituent, their codes distinct, each constituent
    with a well-formed code, a role, a pool and one to three distinct non-empty
    industries, which have to be industries of the set unless the set is empty,
    a constituent for each industry whose graph is present, and the block on live
    evidence as long as there are slots. *)
Theorem manifest_ok_iff m i : mv_ok (validate_manifest m (Some i)) = true ↔ manifest_ok m i.
Proof.
  assert (∀ r, mv_ok r = true ↔ mv_errors r = []) as Hok by (intros r; unfold mv_ok; by destruct (mv_errors r)).
  rewrite Hok. clear Hok. unfold validate_manifest. cbn [fmap option_fmap option_map].
  destruct (constituents_list (pget "constituents" m)) as (ts & ec & -> & Hec & Hts').
  set (v := validate_industry_set i).
  destruct (check_constituents_errors (list_to_set (is_ids v)) 1 ts start_scan) as (es & He & Hes & Hscan).
  cbn [mv_errors]. rewrite He. cbn [sc_errors start_scan]. rewrite (app_nil_l es).
  destruct (industry_set_errors i) as [Hset Hids]. fold v in Hset, Hids.
  rewrite app_nil, fields_errors. split.
  - intros [[Hf Hr] H]. rewrite app_nil, set_errors in H by done. destruct H as [[Hv Href] H].
    rewrite !app_nil, hard_nil in H. destruct H as (Hcs & Hne & Hn & Hunc & Hsl).
    apply Hset in Hv as [entries Hv]. destruct (Hids _ Hv) as [Hi Hg]. apply Hec in Hcs. pose proof Hv as (Hid & _ & _ & Hnd' & _).
    destruct (Hscan Hn) as [Hcov Hslots]. apply Hes in Hn as (Hts & Hnd & _). rewrite ?Hi, ?Hg in *.
    exists entries, ts. split_and!; try done.
    + by destruct ts.
    + unfold v in Href. rewrite industry_set_id, Hid in Href. by destruct Href.
    + intros e He'. destruct (proj1 (uncovered_errors entries _ Hnd') Hunc e He') as [Hc|]; [left|by right].
      apply Hcov in Hc as [Hc|]; [|done]. set_solver.
    + intros Hs. rewrite if_nil', andb_false_iff, !negb_false_iff, Nat.eqb_eq, Hslots in Hsl.
      destruct Hsl as [[_ Hno%no_slot_spec]|Hb]; [done|]. destruct (pget "live_evidence_blocked" m); [eauto|done].
  - intros (entries & ts' & Hv & Hcs & Hne & Hf & Href & Hts & Hnd & Hcover & Hblock).
    pose proof (Hts' _ Hcs); subst ts'.
    assert (ec = []) as -> by by apply Hec.
    pose proof Hv as (Hid & _ & _ & Hnd' & _). destruct (Hids _ Hv) as [Hi Hg]. rewrite Hi, Hg in *.
    assert (es = []) as -> by (apply Hes; set_solver). destruct Hscan as [Hcov Hslots]; [done|].
    assert (is_empty (text_of (pget "industry_set_ref" m)) = false) as Hr by congruence. split; [done|].
    rewrite app_nil, set_errors by done. unfold v. rewrite industry_set_id. split; [split; [apply Hset; eauto|by right]|].
    rewrite !app_nil, hard_nil. split_and!; [done|by destruct ts|done|..].
    + apply (uncovered_errors entries _ Hnd'). intros e He'. destruct (Hcover e He') as [Hc|]; [left|by right]. apply Hcov. by right.
    + rewrite if_nil', andb_false_iff, !negb_false_iff, Nat.eqb_eq, Hslots, no_slot_spec.
      destruct (match pget "live_evidence_blocked" m with Some _ => _ | _ => _ end) eqn:Eb; [by right|left].
      split; [done|]. intros Hs. destruct (Hblock Hs) as (v' & Hb1 & Hb2). by rewrite Hb1, Hb2 in Eb.
Qed.

(** ** What a valid lock is *)

Definition module_ok (spec : pyval) : Prop :=
  ∃ d, spec = PDict d ∧ startswith repo_prefix (spec_text "repo" d) = true ∧ endswith "@main" (spec_text "repo" d) = false ∧
    sha_ok (spec_text "commit" d) = true.

Lemma check_module_nil name spec : check_module name spec = [] ↔ module_ok spec.
Proof.
  destruct spec as [| | | | | | |d|]; try (split; [done|by intros (? & ? & _)]). cbn [check_module].
  assert (sha_ok (spec_text "commit" d) = true → String.eqb (spec_text "commit" d) "main" = false) as Hmain.
  { intros H. apply String.eqb_neq. by intros E; rewrite E in H. }
  rewrite !app_nil. unfold module_ok.
  destruct (startswith _ _) eqn:E1, (sha_ok _) eqn:E2, (endswith _ _) eqn:E3; cbn;
    (split; [intros (?&?&?)|intros (d' & [= <-] & ? & ? & ?)]); try done; try congruence.
  - exists d. done.
  - by rewrite Hmain.
Qed.

Lemma difference_nil (a b : list string) :
  list_to_set a ∖ list_to_set b = (∅ : gset string) ↔ ∀ x, x ∈ a → x ∈ b.
Proof.
  split.
  - intros H x Hx. destruct (decide (x ∈ b)) as [|Hb]; [done|].
    assert (x ∈ (∅ : gset string)) as []%not_elem_of_empty.
    rewrite <- H. by rewrite elem_of_difference, !elem_of_list_to_set.
  - intros H. apply set_eq. intros x. rewrite elem_of_difference, !elem_of_list_to_set.
    split; [intros [? []]; auto|by intros ?%not_elem_of_empty].
Qed.

Lemma named_modules_spec modules named :
  named_modules modules = Some named ↔ modules = map (λ ns, (PStr ns.1, ns.2)) named.
Proof.
  unfold named_modules. revert named. induction modules as [|[k v] rest IH]; intros named; cbn [mapM].
  { split; [by intros [= <-]|by destruct named]. }
  rewrite bind_Some. split.
  - intros (ns & Hns & H). destruct k; try done. injection Hns as <-. apply bind_Some in H as (l & Hl%IH & [= <-]).
    by rewrite Hl.
  - destruct named as [|[n w] named]; [done|]. intros [= -> -> Hrest]. eexists. split; [done|].
    apply bind_Some. exists named. by rewrite IH.
Qed.

(** A lock is accepted exactly when it maps the names of the expected
    modules, and no other, each to a repository of the project that is not taken
    from its main branch and to a full commit hash. *)
Theorem lock_ok_iff payload :
  (∃ n, validate_lock payload = Some (n, [])) ↔
  ∃ named, pget "modules" payload = Some (PDict (map (λ ns, (PStr ns.1, ns.2)) named)) ∧
    (∀ name, name ∈ map fst named ↔ name ∈ expected_modules) ∧
    ∀ name spec, (name, spec) ∈ named → module_ok spec.
Proof.
  assert (∀ named : list (string * pyval),
    concat (map (λ ns, check_module ns.1 ns.2) (sort_on fst named)) = [] ↔ ∀ name spec, (name, spec) ∈ named → module_ok spec) as Hc.
  { intros named. transitivity (Forall (λ ns, check_module ns.1 ns.2 = []) (sort_on fst named)).
    - induction (sort_on fst named) as [|x l IH]; [done|]. cbn [map concat]. by rewrite app_nil, Forall_cons, IH.
    - rewrite list.Forall_forall. split.
      + intros H name spec Hin. apply check_module_nil with name, (H (name, spec)), elem_of_py_sort, Hin.
      + intros H [name spec] Hin. apply check_module_nil, (H name). by apply elem_of_py_sort in Hin. }
  assert (∀ A (l : list A) (f : list A → lock_error), match l with [] => [] | _ => [f l] end = [] ↔ l = []) as Hnil
    by (intros ? [] ?; done).
  unfold validate_lock. destruct (pget "modules" payload) as [[| | | | | | |modules|]|];
    try (split; [by intros [? ?]|by intros (? & ? & _)]).
  split.
  - intros [n H]. destruct (named_modules modules) as [named|] eqn:En; [|done]. apply named_modules_spec in En as ->.
    apply (inj Some), (f_equal snd) in H. cbn [snd] in H. rewrite !app_nil, !Hnil, !sorted_set_nil, !difference_nil, Hc in H. destruct H as (Hm & Hx & Hall).
    exists named. split_and!; [done| |done]. intros name. split; auto.
  - intros (named & [= ->] & Hnames & Hall). rewrite (proj2 (named_modules_spec _ named)) by done. eexists. f_equal. f_equal.
    rewrite !app_nil, !Hnil, !sorted_set_nil, !difference_nil, Hc. split_and!; [intros ?; apply Hnames|intros ?; apply Hnames|done].
Qed.
End manifest.
End ManifestTheorems.

(** ** Concrete documents *)
Module ManifestExamples.
Import Manifest Lock ManifestTheorems.

#[local] Instance texts : PyText.
Proof.
  refine {| py_str v := match v with PStr s => s | PInt z => pretty z | _ => "object" end;
            json_quote s := s; json_float f := "0.0"; isoformat t := pretty t; sha256 s := 0 |}.
  done.
Defined.

Definition industry (slug status : string) : pyval :=
  PDict [(PStr "id", PStr slug); (PStr "display_name", PStr slug); (PStr "graph_status", PStr status)].
Definition slugs : list string := ["A"; "B"; "C"; "D"; "E"; "F"; "G"; "H"; "I"; "J"; "K"; "L"].
Definition industry_set (entries : list pyval) : pdict :=
  [(PStr "industry_set_id", PStr "set-v1"); (PStr "industries", PList entries)].
Definition thirteen : pdict := industry_set (map (λ s, industry s "pending") slugs ++ [industry "STORAGE" "present"])%list.
Definition constituent (ts_code : string) (ids : list string) : pyval :=
  PDict [(PStr "ts_code", PStr ts_code); (PStr "industry_ids", PList (map PStr ids))].
Definition universe (targets : list pyval) : pdict :=
  [(PStr "universe_id", PStr "u"); (PStr "history_window_months", PInt 120); (PStr "graph_depth", PInt 2);
   (PStr "related_entity_policy", PStr "graph_and_risk_summary_only"); (PStr "industry_set_ref", PStr "set-v1");
   (PStr "constituents", PList targets)].

Example accepted :
  mv_ok (validate_manifest (universe [constituent "300750.SZ" ["STORAGE"]; constituent "BRK.B.US" ["A"; "STORAGE"]]) (Some thirteen))
  = true.
Proof. vm_compute. reflexivity. Qed.
Example rejected :
  mv_errors (validate_manifest (universe [constituent "300750.SZ" ["A"; "X"]; constituent "300750.SZ" []; PNone]) (Some thirteen)) =
  [UnknownIndustry 1 "X"; DuplicateTsCode "300750.SZ"; NoIndustryIds 2; ConstituentNotObject 3;
   IndustriesUncovered ["STORAGE"]].
Proof. vm_compute. reflexivity. Qed.
(** A third industry is accepted, a fourth is not. *)
Example three_industries_accepted :
  mv_errors (validate_manifest (universe [constituent "300750.SZ" ["STORAGE"; "A"; "B"]]) (Some thirteen)) = [] ∧
  mv_ok (validate_manifest (universe [constituent "300750.SZ" ["STORAGE"; "A"; "B"; "C"]]) (Some thirteen)) = false.
Proof. vm_compute. split; reflexivity. Qed.
(** The count of thirteen is not required of an empty list, and with no known
    industry any text is one. *)
Example empty_industries_accepted :
  mv_ok (validate_manifest (universe [constituent "300750.SZ" ["no such industry"]]) (Some (industry_set []))) = true.
Proof. vm_compute. reflexivity. Qed.

Definition module_spec (name : string) : pyval * pyval :=
  (PStr name, PDict [(PStr "repo", PStr (repo_prefix ++ name));
                     (PStr "commit", PStr "0123456789abcdef0123456789abcdef01234567")]).
Example lock_accepted :
  validate_lock [(PStr "modules", PDict (map module_spec expected_modules))] = Some (14%nat, []).
Proof. vm_compute. reflexivity. Qed.
Example lock_rejected :
  validate_lock [(PStr "modules", PDict ((PStr "extra", PNone) :: map module_spec (tail expected_modules)))] =
  Some (14%nat, [MissingModules ["contracts"]; UnexpectedModules ["extra"]; SpecNotObject "extra"]).
Proof. vm_compute. reflexivity. Qed.
End ManifestExamples.
