(* ===== verification/Resolution.v ===== *)
(** * Resolution: from a mention to a canonical entity

    In [entity_registry]: [ResolutionModel] holds the records of [core.py],
    [fuzzy.py], [llm_client.py] and [resolution_types.py] with their validators;
    [Matcher] the candidates of [resolution.py] ([DeterministicMatcher] and the
    fuzzy ones); [Resolve] the decision, the reasoner's part in it and
    [resolve_mention_with_repositories]; [SimpleFuzzy] the matcher over the
    alias table; [Stocks] the initialization of [init.py]; [Batch] the jobs of
    [batch.py], which hand what stays open to the review queue of [Review].
    Entities and aliases are in memory; the audit boundary is any [AuditWriter],
    the review queue any [ReviewRepository]. *)
From Stdlib Require Import String Ascii ZArith List SpecFloat.
From stdpp Require Import base gmap strings list pretty.
From S2P Require Import Prelude PyLib Programs Review.
Local Open Scope string_scope.
Local Open Scope Z_scope.

Module ResolutionModel.
Import ReviewModel.

Inductive EntityType := STOCK | CORP | PERSON | ORG | INDEX | EVENT.
#[export] Instance entity_type_dec : EqDecision EntityType.
Proof. solve_decision. Defined.
Inductive EntityStatus := ACTIVE | INACTIVE | MERGED.
Inductive FinalStatus := FinalResolved | FinalUnresolved | FinalManualReview.
#[export] Instance final_status_dec : EqDecision FinalStatus.
Proof. solve_decision. Defined.

Inductive resolution_error :=
| ExistingIdBlank
| AuditRepositoryRequired
| ExistingIdNotFound (reference_id : string)
| ExistingIdResolved
| ExistingMentionMismatch
| BadAutoResolveScore
| RequestInvalid
| RecordInvalid (e : review_error)
| AuditWriteFailed (e : review_error).

(** ** Identifiers *)

Definition alnum (c : ascii) : bool := is_upper_az c || is_lower_az c || is_digit c.
Definition code_char (c : ascii) : bool := alnum c || Ascii.eqb c "." || Ascii.eqb c "_" || Ascii.eqb c "-".
(** [[A-Za-z0-9][A-Za-z0-9._-]*], which is [_TS_CODE_PATTERN] *)
Definition code_text (s : string) : bool :=
  match s with EmptyString => false | String c rest => alnum c && all_chars code_char rest end.
(** What follows [[A-Z0-9]*_]; the class has no underscore, so the first one ends it. *)
Fixpoint after_namespace (s : string) : option string :=
  match s with
  | EmptyString => None
  | String c rest =>
      if Ascii.eqb c "_" then Some rest else if is_upper_az c || is_digit c then after_namespace rest else None
  end.
(** [_ENTITY_ID_PATTERN] *)
Definition entity_id_pattern (s : string) : bool :=
  match s with
  | String "E" (String "N" (String "T" (String "_" (String c rest)))) =>
      is_upper_az c && match after_namespace rest with Some key => code_text key | None => false end
  | _ => false
  end.
Definition validate_entity_id (s : string) : bool := String.eqb (strip s) s && entity_id_pattern s.
(** [None] stands for [ValueError]. *)
Definition generate_stock_entity_id (ts_code : string) : option string :=
  let code := strip ts_code in
  if is_empty code then None else if code_text code then Some ("ENT_STOCK_" ++ code) else None.

(** ** Entities and candidates *)

Record CanonicalEntity := mkEntity {
  ce_id : string;
  ce_entity_type : EntityType;
  ce_display_name : string;
  ce_status : EntityStatus;
  ce_anchor_code : option string;
  ce_cross_listing_group : option string;
  ce_created_at : Z;
  ce_updated_at : Z;
}.
(** [validate_canonical_entity] *)
Definition make_entity (e : CanonicalEntity) : option CanonicalEntity :=
  let unanchored := bool_decide (ce_anchor_code e = None) in
  if negb (validate_entity_id (ce_id e))
     || bool_decide (ce_entity_type e = STOCK) && unanchored || startswith "ENT_STOCK_" (ce_id e) && unanchored
     || bool_decide (ce_entity_type e = EVENT) && unanchored || startswith "ENT_EVENT_" (ce_id e) && unanchored
  then None else Some e.

Record FuzzyCandidate := mkFuzzy {
  fc_id : string;
  fc_alias_text : string;
  fc_alias_type : AliasType;
  fc_score : spec_float;
  fc_source : string;
  fc_blocking_key : option string;
}.
Definition make_fuzzy (c : FuzzyCandidate) : option FuzzyCandidate :=
  if validate_entity_id (fc_id c) && negb (blank (fc_alias_text c)) && negb (blank (fc_source c))
     && negb (outside_unit (fc_score c))
  then Some (mkFuzzy (fc_id c) (strip (fc_alias_text c)) (fc_alias_type c) (fc_score c) (strip (fc_source c))
               (fc_blocking_key c))
  else None.

Record MentionCandidateSet := mkCandidates {
  cs_raw_mention_text : string;
  cs_deterministic_hits : list string;
  cs_fuzzy_hits : list string;
  cs_fuzzy_scores : gmap string spec_float;
  cs_fuzzy_candidates : list FuzzyCandidate;
  cs_llm_required : bool;
  cs_final_status : FinalStatus;
  cs_failure_rationale : option string;
}.
Record ResolutionDecision := mkResolution {
  rd_selected : option string;
  rd_method : ResolutionMethod;
  rd_confidence : option spec_float;
  rd_rationale : string;
}.
Definition undecided (rationale : string) : ResolutionDecision := mkResolution None UNRESOLVED None rationale.

Record MentionResolutionResult := mkResult {
  mr_raw_mention_text : string;
  mr_resolved_entity_id : option string;
  mr_method : ResolutionMethod;
  mr_confidence : option spec_float;
}.
(** [validate_unresolved_result] *)
Definition make_result (r : MentionResolutionResult) : option MentionResolutionResult :=
  match mr_resolved_entity_id r, mr_method r with
  | None, UNRESOLVED => if bool_decide (mr_confidence r = None) then Some r else None
  | None, _ | Some _, UNRESOLVED => None
  | Some _, _ => Some r
  end.

(** ** The reasoner's request and response *)

Record LLMCandidate := mkLLMCandidate {
  lc_id : string;
  lc_display_name : option string;
  lc_alias_text : option string;
  lc_alias_type : option string;
  lc_score : option spec_float;
  lc_source : string;
}.
(** [cleaned or None] *)
Definition optional_text (s : option string) : option string :=
  match s with Some t => if blank t then None else Some (strip t) | None => None end.
(** [not math.isfinite(value) or value < 0.0 or value > 1.0] *)
Definition bad_confidence (f : option spec_float) : bool :=
  match f with Some x => negb (finite_float x) || outside_unit x | None => false end.
Definition make_llm_candidate (c : LLMCandidate) : result resolution_error LLMCandidate :=
  if negb (validate_entity_id (lc_id c)) || blank (lc_source c) || bad_confidence (lc_score c) then Err RequestInvalid
  else Ok (mkLLMCandidate (lc_id c) (optional_text (lc_display_name c)) (optional_text (lc_alias_text c))
             (optional_text (lc_alias_type c)) (lc_score c) (strip (lc_source c))).

Record LLMRequest := mkRequest {
  lr_raw_mention_text : string;
  lr_source_context : pdict;
  lr_candidates : list LLMCandidate;
  lr_instructions : string;
}.
Definition disambiguation_instructions : string :=
  "Select one canonical entity only when the mention context clearly identifies " ++
  "a candidate. Return selected_entity_id as null when the evidence is ambiguous " ++ "or insufficient.".
(** [build_disambiguation_request] *)
Definition build_request (mention : string) (context : pdict) (candidates : list LLMCandidate)
    : result resolution_error LLMRequest :=
  raise_if blank mention with RequestInvalid;
  Ok (mkRequest (strip mention) context candidates disambiguation_instructions).

Record LLMResponse := mkResponse {
  lp_selected : option string;
  lp_confidence : option spec_float;
  lp_rationale : string;
}.
(** The messages of the field validators, and of the model validator when the
    fields are right; [ids] is the validation context. *)
Definition response_problems (ids : option (list string)) (r : LLMResponse) : list string :=
  let fields :=
    ((match lp_selected r with Some s => if validate_entity_id s then [] else
        ["selected_entity_id must use the ENT_* namespace"] | None => [] end) ++
     (if bad_confidence (lp_confidence r) then ["confidence must be finite and between 0.0 and 1.0"] else []) ++
     (if blank (lp_rationale r) then ["rationale must not be empty"] else []))%list in
  match fields, ids, lp_selected r with
  | [], Some known, Some s =>
      if bool_decide (s ∈ known) then [] else ["selected_entity_id must be one of the request candidates"]
  | _, _, _ => fields
  end.
End ResolutionModel.

(** What pydantic adds to the response's validators: it parses the fields of a
    dictionary, or raises with a text, and puts the messages of the validators
    into the text of its error. *)
Class ResponseParser := {
  parse_fields : pdict → result string ResolutionModel.LLMResponse;
  problems_text : list string → string;
}.

Module Matcher.
Import ReviewModel ReviewStores ResolutionModel.

(** A fuzzy matcher: its candidates, or the text of what it raised, and its
    [auto_resolve_score], 0.96 when it has none; [None] is one [float] rejects. *)
Record fuzzy_matcher := mkFuzzyMatcher {
  generate_candidates : string → option pdict → nat → result string (list FuzzyCandidate);
  auto_resolve_score : option spec_float;
}.
Definition default_auto_resolve_score : spec_float := float_ratio 96 100.
(** A NER extractor: the texts of the mentions it finds. *)
Definition ner_extractor : Type := string → option pdict → result string (list string).

Section matcher.
Context (entity_repo : gmap string CanonicalEntity) (alias_repo : alias_store).

(** [AliasManager.lookup] *)
Definition lookup_aliases (alias_text : string) : list EntityAlias := find_by_text alias_repo (strip alias_text).

Definition add_entity (m : gmap string CanonicalEntity) (a : EntityAlias) : gmap string CanonicalEntity :=
  match m !! al_canonical_entity_id a with
  | Some _ => m
  | None => match entity_repo !! al_canonical_entity_id a with
            | None => m
            | Some e => <[ce_id e := e]> m
            end
  end.
Definition entities_for_aliases (aliases : list EntityAlias) : list CanonicalEntity :=
  let by_id := fold_left add_entity aliases ∅ in
  omap (λ id, by_id !! id) (sorted_set (dom by_id)).

Definition exact_match (mention : string) : list CanonicalEntity := entities_for_aliases (lookup_aliases mention).
Definition is_code (a : EntityAlias) : bool := bool_decide (al_type a = CODE).
Definition code_match (mention : string) : list CanonicalEntity :=
  entities_for_aliases (List.filter is_code (lookup_aliases mention)).
Definition entity_list (id : string) : list CanonicalEntity :=
  match entity_repo !! id with None => [] | Some e => [e] end.
Definition rule_match (mention : string) : list CanonicalEntity :=
  let text := strip mention in
  if is_empty text then []
  else if validate_entity_id text then entity_list text
  else if negb (contains "." text) then []
  else match generate_stock_entity_id text with None => [] | Some id => entity_list id end.
(** [_collect_deterministic_candidates] *)
Definition deterministic_candidates (mention : string) : list CanonicalEntity :=
  match rule_match mention with
  | [] =>
      let aliases := lookup_aliases mention in
      match List.filter is_code aliases with
      | [] => entities_for_aliases aliases
      | codes => entities_for_aliases codes
      end
  | candidates => candidates
  end.

(** ** Fuzzy candidates *)

Definition fuzzy_query_text (mention : string) (context : option pdict) (ner : option ner_extractor)
    : result string string :=
  match ner with
  | None => Ok mention
  | Some extract =>
      let* found := extract mention context in
      Ok match found with [m] => m | _ => mention end
  end.
Definition generate_fuzzy_candidates (mention : string) (context : option pdict) (fuzzy : option fuzzy_matcher)
    (ner : option ner_extractor) (limit : nat) : result string (list FuzzyCandidate) :=
  match fuzzy with
  | None => Ok []
  | Some f => let* query := fuzzy_query_text mention context ner in generate_candidates f query context limit
  end.

Definition auto_resolve_threshold (fuzzy : option fuzzy_matcher) : result resolution_error spec_float :=
  match fuzzy with
  | None => Ok default_auto_resolve_score
  | Some f =>
      match auto_resolve_score f with
      | Some t => if finite_float t && SFleb float_zero t && SFleb t (float_of_Z 1) then Ok t else Err BadAutoResolveScore
      | None => Err BadAutoResolveScore
      end
  end.

(** [fuzzy_scores.get(id, 0.0) >= threshold] *)
Definition clears (scores : gmap string spec_float) (id : string) (threshold : spec_float) : bool :=
  SFleb threshold (default float_zero (scores !! id)).
Definition candidate_status (deterministic fuzzy_hits : list string) (scores : gmap string spec_float)
    (threshold : spec_float) : FinalStatus * bool :=
  match deterministic, fuzzy_hits with
  | [_], _ => (FinalResolved, false)
  | _ :: _, _ => (FinalManualReview, true)
  | [], [f] => if clears scores f threshold then (FinalResolved, false) else (FinalManualReview, true)
  | [], _ :: _ => (FinalManualReview, true)
  | [], [] => (FinalUnresolved, false)
  end.

Definition scores_of (candidates : list FuzzyCandidate) : gmap string spec_float :=
  fold_left (λ m c, <[fc_id c := fc_score c]> m) candidates ∅.

Definition collect_candidates_with_fuzzy (mention : string) (context : option pdict) (fuzzy : option fuzzy_matcher)
    (ner : option ner_extractor) (limit : nat) : result resolution_error MentionCandidateSet :=
  let hits := map ce_id (deterministic_candidates mention) in
  match hits with
  | [_] => Ok (mkCandidates mention hits [] ∅ [] false FinalResolved None)
  | _ =>
      match generate_fuzzy_candidates mention context fuzzy ner limit with
      | Err text =>
          let* threshold := auto_resolve_threshold fuzzy in
          let '(final, llm) := candidate_status hits [] ∅ threshold in
          Ok (mkCandidates mention hits [] ∅ [] llm final (Some ("fuzzy candidate generation failed: " ++ text)))
      | Ok candidates =>
          let fuzzy_hits := map fc_id candidates in
          let scores := scores_of candidates in
          let* threshold := auto_resolve_threshold fuzzy in
          let '(final, llm) := candidate_status hits fuzzy_hits scores threshold in
          Ok (mkCandidates mention hits fuzzy_hits scores candidates llm final None)
      end
  end.

(** [_decision_from_candidate_set] *)
Definition decision_from_candidate_set (c : MentionCandidateSet) (threshold : spec_float) : ResolutionDecision :=
  match cs_failure_rationale c with
  | Some why => undecided why
  | None =>
      match cs_deterministic_hits c, cs_fuzzy_hits c with
      | [id], _ => mkResolution (Some id) DETERMINISTIC (Some (float_of_Z 1)) "single deterministic candidate"
      | [], [id] =>
          if clears (cs_fuzzy_scores c) id threshold
          then mkResolution (Some id) FUZZY (cs_fuzzy_scores c !! id) "single high-confidence fuzzy candidate"
          else undecided "ambiguous or low-confidence fuzzy candidates"
      | _ :: _, _ => undecided "ambiguous deterministic candidates"
      | [], _ :: _ => undecided "ambiguous or low-confidence fuzzy candidates"
      | [], [] => undecided "no deterministic candidates"
      end
  end.

Fixpoint first_occurrences (seen : list string) (l : list string) : list string :=
  match l with
  | [] => []
  | x :: rest => if bool_decide (x ∈ seen) then first_occurrences seen rest
                 else x :: first_occurrences (x :: seen) rest
  end.
(** [_candidate_entity_ids] *)
Definition candidate_entity_ids (c : MentionCandidateSet) : list string :=
  first_occurrences [] (cs_deterministic_hits c ++ cs_fuzzy_hits c)%list.
End matcher.
End Matcher.

Module Resolve.
Import ReviewModel ReviewStores ResolutionModel Matcher.

(** What [disambiguate] returns or raises. *)
Inductive reasoner_reply :=
| Raised (text : string)
| ReplyModel (r : LLMResponse)
| ReplyDict (d : pdict)
| ReplyOther (class_name : string).

(** The audit boundary the caller passes: an [audit_repo], which may be unable to
    read, or a reference repository, alone or with a case repository; the flags
    say what the preflight of [_validate_repository_audit_cohesion] finds. *)
Inductive audit_boundary :=
| AuditRepo (readable : bool)
| ReferenceRepo (has_case_repo native_save native_owns owns : bool)
| NoRepository.
Definition can_read (b : audit_boundary) : bool :=
  match b with AuditRepo readable => readable | ReferenceRepo _ _ _ _ => true | NoRepository => false end.
Definition can_save (b : audit_boundary) : bool :=
  match b with
  | AuditRepo _ => true
  | ReferenceRepo has_case save has_owns owns => has_case && save && has_owns && owns
  | NoRepository => false
  end.

Section decision.
Context {P : ResponseParser}.

(** [LLMDisambiguationResponse.model_validate] *)
Definition model_validate (ids : option (list string)) (d : pdict) : result string LLMResponse :=
  let* r := parse_fields d in
  match response_problems ids r with
  | [] => Ok (mkResponse (lp_selected r) (lp_confidence r) (strip (lp_rationale r)))
  | problems => Err (problems_text problems)
  end.

(** [CallableReasonerRuntimeClient.disambiguate] *)
Definition callable_disambiguate (invoke : LLMRequest → reasoner_reply) (request : LLMRequest) : reasoner_reply :=
  let ids := map lc_id (lr_candidates request) in
  match invoke request with
  | Raised text => Raised text
  | ReplyModel r =>
      match lp_selected r with
      | Some s => if bool_decide (s ∈ ids) then ReplyModel r
                  else Raised "selected_entity_id must be one of the request candidates"
      | None => ReplyModel r
      end
  | ReplyDict d =>
      match model_validate (Some ids) (if phas "raw_response" d then d else pset "raw_response" (PDict d) d) with
      | Ok r => ReplyModel r
      | Err text => Raised text
      end
  | ReplyOther _ => Raised "reasoner-runtime callable must return a dict or response model"
  end.

Definition display_name_for (entity_repo : gmap string CanonicalEntity) (id : string) : option string :=
  ce_display_name <$> entity_repo !! id.
Definition alias_type_value (t : AliasType) : string :=
  match t with
  | FULL_NAME => "full_name" | SHORT_NAME => "short_name" | CODE => "code" | ENGLISH => "english"
  | FORMER_NAME => "former_name" | CNSPELL => "cnspell"
  end.
(** [fuzzy_candidates_by_id.get(id)]: the last candidate of an id. *)
Definition candidate_by_id (cs : list FuzzyCandidate) (id : string) : option FuzzyCandidate :=
  List.find (λ c, String.eqb (fc_id c) id) (rev cs).
Definition fuzzy_llm_candidate (entity_repo : gmap string CanonicalEntity) (c : MentionCandidateSet) (id : string)
    : LLMCandidate :=
  match candidate_by_id (cs_fuzzy_candidates c) id with
  | None => mkLLMCandidate id (display_name_for entity_repo id) None None (cs_fuzzy_scores c !! id) "fuzzy"
  | Some f => mkLLMCandidate (fc_id f) (display_name_for entity_repo (fc_id f)) (Some (fc_alias_text f))
                (Some (alias_type_value (fc_alias_type f))) (Some (fc_score f)) (fc_source f)
  end.
(** [_llm_candidates_from_candidate_set] *)
Definition llm_candidates (entity_repo : gmap string CanonicalEntity) (c : MentionCandidateSet)
    : result resolution_error (list LLMCandidate) :=
  let deterministic := first_occurrences [] (cs_deterministic_hits c) in
  let fuzzy := first_occurrences (rev deterministic) (cs_fuzzy_hits c) in
  rmap_list make_llm_candidate
    (map (λ id, mkLLMCandidate id (display_name_for entity_repo id) None None None "deterministic") deterministic ++
     map (fuzzy_llm_candidate entity_repo c) fuzzy)%list.

Definition llm_confidence_threshold : spec_float := float_ratio 4 5.
(** [_decision_from_llm_response] *)
Definition decision_from_llm_response (r : LLMResponse) (candidates : list LLMCandidate) : ResolutionDecision :=
  match lp_selected r with
  | None => undecided ("reasoner declined: " ++ lp_rationale r)
  | Some s =>
      if negb (bool_decide (s ∈ map lc_id candidates)) then
        undecided ("invalid reasoner selection outside candidate set: " ++ s)
      else
        match lp_confidence r with
        | None => undecided ("reasoner confidence missing: " ++ lp_rationale r)
        | Some x =>
            if negb (finite_float x) || SFltb x llm_confidence_threshold then
              undecided ("reasoner confidence below threshold 0.8: " ++ lp_rationale r)
            else mkResolution (Some s) LLM (Some x) (lp_rationale r)
        end
  end.
Definition failure_rationale_of (text : string) : string :=
  if contains "selected_entity_id" text && contains "candidate" text then "invalid reasoner selection: " ++ text
  else "reasoner disambiguation failed: " ++ text.

(** [_resolve_with_reasoner] *)
Definition resolve_with_reasoner (c : MentionCandidateSet) (context : option pdict)
    (entity_repo : gmap string CanonicalEntity) (reasoner : LLMRequest → reasoner_reply)
    : result resolution_error ResolutionDecision :=
  let* candidates := llm_candidates entity_repo c in
  let* request := build_request (cs_raw_mention_text c) (default [] context) candidates in
  Ok match reasoner request with
     | Raised text => undecided (failure_rationale_of text)
     | ReplyModel r => decision_from_llm_response r (lr_candidates request)
     | ReplyDict d =>
         match model_validate (Some (map lc_id (lr_candidates request))) d with
         | Ok r => decision_from_llm_response r (lr_candidates request)
         | Err text => undecided (failure_rationale_of text)
         end
     | ReplyOther k => undecided ("reasoner disambiguation failed: unsupported response type " ++ k)
     end.

(** [_attach_candidate_failure_rationale] *)
Definition attach_failure (d : ResolutionDecision) (failure : option string) : ResolutionDecision :=
  match failure with
  | None => d
  | Some why => if contains why (rd_rationale d) then d
                else mkResolution (rd_selected d) (rd_method d) (rd_confidence d) (rd_rationale d ++ "; " ++ why)
  end.

(** [_resolve_candidate_set_decision] *)
Definition resolve_candidate_set_decision (c : MentionCandidateSet) (context : option pdict)
    (entity_repo : gmap string CanonicalEntity) (reasoner : option (LLMRequest → reasoner_reply)) (threshold : spec_float)
    : result resolution_error (ResolutionDecision * DecisionType) :=
  let decision := decision_from_candidate_set c threshold in
  let ids := candidate_entity_ids c in
  match rd_selected decision with
  | Some _ => Ok (decision, AUTO)
  | None =>
      if cs_llm_required c && negb (bool_decide (ids = [])) then
        match reasoner with
        | None => Ok (attach_failure (undecided "reasoner client is not configured") (cs_failure_rationale c), MANUAL_REVIEW)
        | Some ask =>
            let* d := resolve_with_reasoner c context entity_repo ask in
            Ok (attach_failure d (cs_failure_rationale c), LLM_ASSISTED)
        end
      else Ok (attach_failure decision (cs_failure_rationale c), if bool_decide (ids = []) then AUTO else MANUAL_REVIEW)
  end.
End decision.

(** ** Resolving a mention *)

(** What a process is configured with. *)
Record resolver_config := mkConfig {
  rc_entities : gmap string CanonicalEntity;
  rc_fuzzy : option fuzzy_matcher;
  rc_ner : option ner_extractor;
  rc_reasoner : option (LLMRequest → reasoner_reply);
  rc_rule_version : string;
}.
(** The random ids and clock readings of a call. *)
Record draws := mkDraws {
  new_reference_id : string;
  new_case_id : string;
  reference_now : Z;
  case_now : Z;
}.

Section resolve.
Context {P : ResponseParser} {A : Type} `{AuditWriter A} (get_reference : A → string → option EntityReference).

(** [_validate_existing_reference_for_update] *)
Definition existing_reference_for_update (existing : option string) (mention : string) (b : audit_boundary) (audit : A)
    (allow_new : bool) : result resolution_error (option EntityReference) :=
  match existing with
  | None => Ok None
  | Some id =>
      raise_if negb (can_read b) with AuditRepositoryRequired;
      match get_reference audit id with
      | None => if allow_new then Ok None else Err (ExistingIdNotFound id)
      | Some r =>
          raise_if bool_decide (ref_resolved_entity_id r ≠ None) with ExistingIdResolved;
          raise_if negb (String.eqb (ref_raw_mention_text r) mention) with ExistingMentionMismatch;
          raise_if negb (bool_decide (ref_resolution_method r = UNRESOLVED)) with ExistingIdResolved;
          Ok (Some r)
      end
  end.

(** What is decided of a mention, before anything is written. *)
Definition decide_mention (cfg : resolver_config) (aliases : alias_store) (mention : string) (context : option pdict)
    : result resolution_error (MentionCandidateSet * ResolutionDecision * DecisionType) :=
  let* c := collect_candidates_with_fuzzy (rc_entities cfg) aliases mention context (rc_fuzzy cfg) (rc_ner cfg) 10 in
  let* threshold := auto_resolve_threshold (rc_fuzzy cfg) in
  let* '(d, kind) := resolve_candidate_set_decision c context (rc_entities cfg) (rc_reasoner cfg) threshold in
  Ok (c, d, kind).

(** The reference and the case that record it. *)
Definition audit_records (cfg : resolver_config) (dr : draws) (mention : string) (context : option pdict)
    (existing : option string) (old : option EntityReference) (c : MentionCandidateSet) (d : ResolutionDecision)
    (kind : DecisionType) : result resolution_error (EntityReference * ResolutionCase) :=
  let method := match rd_selected d with Some _ => rd_method d | None => UNRESOLVED end in
  let confidence := match rd_selected d with Some _ => rd_confidence d | None => None end in
  let* r := map_err RecordInvalid (make_reference (mkReference (default (new_reference_id dr) existing) mention
    (default [] context) (rd_selected d) method confidence
    match old with Some o => ref_created_at o | None => reference_now dr end (rc_rule_version cfg))) in
  Ok (r, mkCase (new_case_id dr) (ref_id r) (candidate_entity_ids c) (rd_selected d) kind (rd_rationale d)
           (case_now dr) (rc_rule_version cfg)).

(** [resolve_mention_with_repositories] *)
Definition resolve_mention_with_repositories (cfg : resolver_config) (aliases : alias_store) (b : audit_boundary)
    (dr : draws) (mention : string) (context : option pdict) (existing : option string) (allow_new : bool) (audit : A)
    : result resolution_error MentionResolutionResult * A :=
  let decided :=
    raise_if match existing with Some id => blank id | None => false end with ExistingIdBlank;
    let* old := existing_reference_for_update existing mention b audit allow_new in
    let* '(c, d, kind) := decide_mention cfg aliases mention context in
    let* records := audit_records cfg dr mention context existing old c d kind in
    raise_if negb (can_save b) with AuditRepositoryRequired;
    Ok records in
  match decided with
  | Err e => (Err e, audit)
  | Ok (r, c) =>
      match save_resolution audit r c with
      | (audit', Some e) => (Err (AuditWriteFailed e), audit')
      | (audit', None) =>
          (Ok (mkResult mention (ref_resolved_entity_id r) (ref_resolution_method r) (ref_resolution_confidence r)), audit')
      end
  end.
End resolve.
End Resolve.

(** What the similarity score takes from Python's text functions: NFKC
    normalisation with the deletions of [_normalize_for_similarity],
    [SequenceMatcher(a, b).ratio()], [round(x, 6)], and [casefold]. *)
Class SimilarityText := {
  normalize_for_similarity : string → string;
  sequence_ratio : string → string → spec_float;
  round6 : spec_float → spec_float;
  casefold : string → string;
  sha1_prefix : string → string;
}.

Module SimpleFuzzy.
Import ReviewModel ReviewStores ResolutionModel Matcher.

Section simple.
Context {T : SimilarityText}.

(** [text[:n]] *)
Definition prefix_of (n : nat) (s : string) : string := String.substring 0 n s.
Definition is_ascii (s : string) : bool := all_chars (λ c, (nat_of_ascii c <? 128)%nat) s.
Definition build_alias_blocking_key (alias_text : string) : string :=
  let normalized := normalize_for_similarity alias_text in
  if is_empty normalized then "" else prefix_of (if is_ascii normalized then 4 else 2) normalized.

(** [max(a, b)] *)
Definition float_max (a b : spec_float) : spec_float := if SFltb a b then b else a.
Definition length_float (s : string) : spec_float := float_of_Z (Z.of_nat (String.length s)).
Definition containment_score (raw alias : string) : spec_float :=
  if contains raw alias || contains alias raw then
    let '(short, long) := if (String.length raw <=? String.length alias)%nat then (raw, alias) else (alias, raw) in
    float_mul (float_div (length_float short) (length_float long)) (float_ratio 98 100)
  else float_zero.
Definition score_alias_similarity (raw_mention alias_text : string) : spec_float :=
  let raw := normalize_for_similarity raw_mention in
  let alias := normalize_for_similarity alias_text in
  if is_empty raw || is_empty alias then float_zero
  else if String.eqb raw alias then float_of_Z 1
  else round6 (float_max (sequence_ratio raw alias) (containment_score raw alias)).

(** [_candidate_sort_key(a) < _candidate_sort_key(b)] *)
Definition key_ltb (a b : FuzzyCandidate) : bool :=
  if SFeqb (fc_score a) (fc_score b) then
    if String.eqb (fc_id a) (fc_id b) then String.ltb (fc_alias_text a) (fc_alias_text b)
    else String.ltb (fc_id a) (fc_id b)
  else SFltb (fc_score b) (fc_score a).
(** One turn of either loop of the deduplication, on a dictionary in insertion
    order keyed by [key]. *)
Fixpoint keep_least {K} `{EqDecision K} (key : FuzzyCandidate → K) (best : list FuzzyCandidate) (c : FuzzyCandidate)
    : list FuzzyCandidate :=
  match best with
  | [] => [c]
  | b :: rest => if decide (key b = key c) then (if key_ltb c b then c else b) :: rest
                 else b :: keep_least key rest c
  end.
Definition semantic_key_of (c : FuzzyCandidate) : string * string * string := (fc_id c, fc_alias_text c, fc_source c).
Definition dedupe_sort_and_limit (candidates : list FuzzyCandidate) (limit : nat) : list FuzzyCandidate :=
  let semantic_best := fold_left (keep_least semantic_key_of) candidates [] in
  let entity_best := fold_left (keep_least fc_id) semantic_best [] in
  take limit (py_sort (λ a b, negb (key_ltb b a)) entity_best).

(** [list_all], grouped by entity; the order of the groups does not matter, as
    the candidates are sorted by a key that holds the entity. *)
Definition list_all_aliases (aliases : alias_store) : list EntityAlias := concat (map snd (map_to_list (by_entity aliases))).

Section matcher.
Context (entity_repo : gmap string CanonicalEntity) (alias_repo : alias_store) (min_score : spec_float).

Definition alias_candidate (raw_mention : string) (a : EntityAlias) : result string (option FuzzyCandidate) :=
  match entity_repo !! al_canonical_entity_id a with
  | None => Ok None
  | Some _ =>
      let raw_key := build_alias_blocking_key raw_mention in
      let key := build_alias_blocking_key (al_text a) in
      let score := score_alias_similarity raw_mention (al_text a) in
      if negb (is_empty raw_key) && negb (is_empty key) && negb (String.eqb raw_key key) && SFltb score (float_of_Z 1)
      then Ok None
      else if SFltb score min_score then Ok None
      else match make_fuzzy (mkFuzzy (al_canonical_entity_id a) (al_text a) (al_type a) score "simple"
                   (if is_empty key then None else Some key)) with
           | Some c => Ok (Some c)
           | None => Err "validation error for FuzzyCandidate"
           end
  end.
(** [SimpleFuzzyMatcher.generate_candidates] *)
Definition simple_candidates (raw_mention : string) (limit : nat) : result string (list FuzzyCandidate) :=
  match limit with
  | O => Ok []
  | _ => let* found := rmap_list (alias_candidate raw_mention) (list_all_aliases alias_repo) in
         Ok (dedupe_sort_and_limit (omap id found) limit)
  end.
Definition simple_matcher (auto : spec_float) : fuzzy_matcher :=
  mkFuzzyMatcher (λ mention _ limit, simple_candidates mention limit) (Some auto).
End matcher.
End simple.
End SimpleFuzzy.

Module Stocks.
Import ReviewModel ReviewStores ResolutionModel.

(** A row of [stock_basic] that passed the validators of [StockBasicRecord]. *)
Record StockBasicRecord := mkStock {
  sb_ts_code : string;
  sb_symbol : string;
  sb_name : string;
  sb_fullname : option string;
  sb_enname : option string;
  sb_cnspell : option string;
  sb_list_status : string;
}.
Definition upper_char (c : ascii) : ascii := if is_lower_az c then ascii_of_nat (nat_of_ascii c - 32) else c.
(** [list_status.upper() == "L"]; no other character has the upper case [L]. *)
Definition entity_status_from_list_status (s : string) : EntityStatus :=
  if String.eqb (smap upper_char s) "L" then ACTIVE else INACTIVE.

Section stocks.
(** [_build_cross_listing_group_id] of the groups found in the snapshot, the
    number of these groups, and the rule version and clock of the records. *)
Context (cross_listing_group : string → option string) (rule_version : string) (now : Z).

Definition alias_specs (r : StockBasicRecord) : list (option string * AliasType * bool) :=
  [(Some (sb_name r), SHORT_NAME, true); (sb_fullname r, FULL_NAME, false); (sb_enname r, ENGLISH, false);
   (sb_cnspell r, CNSPELL, false); (Some (sb_symbol r), CODE, false)].
(** [generate_aliases_from_stock_basic]; the types differ, so no pair repeats. *)
Definition aliases_from_stock_basic (r : StockBasicRecord) (entity_id : string) : list EntityAlias :=
  omap (λ s, let '(raw, kind, primary) := s in
             match optional_text raw with
             | Some text => Some (mkAlias entity_id text kind (float_of_Z 1) "stock_basic" primary now rule_version)
             | None => None
             end) (alias_specs r).
Definition entity_of_record (r : StockBasicRecord) : option CanonicalEntity :=
  id ← generate_stock_entity_id (sb_ts_code r);
  make_entity (mkEntity id STOCK (sb_name r) (entity_status_from_list_status (sb_list_status r)) (Some (sb_ts_code r))
    (cross_listing_group (sb_ts_code r)) now now).
(** [_prepare_initialization_records]: what each record gives, or the codes of
    the records that are wrong. *)
Definition prepare_record (r : StockBasicRecord) : result string (CanonicalEntity * list EntityAlias) :=
  match entity_of_record r with
  | Some e => Ok (e, aliases_from_stock_basic r (ce_id e))
  | None => Err (sb_ts_code r)
  end.
Fixpoint prepare_records (records : list StockBasicRecord) : list (CanonicalEntity * list EntityAlias) * list string :=
  match records with
  | [] => ([], [])
  | r :: rest =>
      let '(good, errors) := prepare_records rest in
      match prepare_record r with Ok x => (x :: good, errors) | Err code => (good, code :: errors) end
  end.

Definition save_entity_if_absent (s : nat * gmap string CanonicalEntity) (e : CanonicalEntity)
    : nat * gmap string CanonicalEntity :=
  match s.2 !! ce_id e with Some _ => s | None => (S s.1, <[ce_id e := e]> s.2) end.
Definition save_alias_if_absent (s : nat * alias_store) (a : EntityAlias) : nat * alias_store :=
  let '(created, al) := alias_save_if_absent s.2 a in ((if created then S s.1 else s.1), al).
(** [initialize_from_stock_basic_into]: the counters with the errors, and the
    repositories. *)
Definition initialize_from_stock_basic_into (records : list StockBasicRecord)
    (repos : gmap string CanonicalEntity * alias_store)
    : (nat * nat * list string) * (gmap string CanonicalEntity * alias_store) :=
  let '(prepared, errors) := prepare_records records in
  match errors with
  | _ :: _ => ((0%nat, 0%nat, errors), repos)
  | [] =>
      let '(n, entities) := fold_left save_entity_if_absent (map fst prepared) (0%nat, repos.1) in
      let '(m, aliases) := fold_left save_alias_if_absent (concat (map snd prepared)) (0%nat, repos.2) in
      ((n, m, []), (entities, aliases))
  end.
End stocks.
End Stocks.

Module Batch.
Import ReviewModel ReviewStores ReviewWorkflow ResolutionModel Matcher Resolve SimpleFuzzy.

Record BatchReferenceInput := mkInput {
  bi_raw_mention_text : string;
  bi_source_context : pdict;
  bi_source_reference_id : option string;
}.
Definition make_input (i : BatchReferenceInput) : result string BatchReferenceInput :=
  raise_if blank (bi_raw_mention_text i) with "raw_mention_text must be a non-empty string";
  raise_if match bi_source_reference_id i with Some id => blank id | None => false end
    with "source_reference_id must be a non-empty string";
  Ok i.

(** The forms a batch accepts. *)
Inductive batch_reference :=
| BReference (r : EntityReference)
| BInput (i : BatchReferenceInput)
| BDict (d : pdict)
| BText (s : string)
| BOther.
Definition coerce_reference_input (r : batch_reference) : result string BatchReferenceInput :=
  match r with
  | BInput i => Ok i
  | BReference r => make_input (mkInput (ref_raw_mention_text r) (ref_source_context r) (Some (ref_id r)))
  | BText s => make_input (mkInput s [] None)
  | BDict d =>
      let* context := match pget "source_context" d with
        | None | Some PNone => Ok []
        | Some (PDict c) => Ok c
        | Some _ => Err "source_context must be a dictionary"
        end in
      let given := match pget "source_reference_id" d with
        | None | Some PNone => pget "reference_id" d
        | v => v
        end in
      let* id := match given with
        | None | Some PNone => Ok None
        | Some (PStr s) => Ok (Some s)
        | Some _ => Err "source_reference_id must be a string when provided"
        end in
      let* mention := match pget "raw_mention_text" d with
        | Some (PStr s) => if blank s then Err "raw_mention_text must be a non-empty string" else Ok s
        | _ => Err "raw_mention_text must be a non-empty string"
        end in
      make_input (mkInput mention context id)
  | BOther => Err "batch references must be EntityReference, dict, or str"
  end.

Record BatchResolutionJob := mkJob {
  job_id : string;
  job_reference_ids : list string;
  job_status : string;
  job_created_at : Z;
  job_started_at : option Z;
  job_completed_at : option Z;
  job_error_summary : option string;
}.
Definition mark_running (ids : list string) (now : Z) (j : BatchResolutionJob) : BatchResolutionJob :=
  mkJob (job_id j) ids "running" (job_created_at j) (Some now) None None.
Definition mark_completed (now : Z) (j : BatchResolutionJob) : BatchResolutionJob :=
  mkJob (job_id j) (job_reference_ids j) "completed" (job_created_at j) (job_started_at j) (Some now) None.
Definition mark_failed (why : string) (now : Z) (j : BatchResolutionJob) : BatchResolutionJob :=
  mkJob (job_id j) (job_reference_ids j) "failed" (job_created_at j) (job_started_at j) (Some now)
    (Some (prefix_of 500 why)).

Record BatchResolutionOutcome := mkOutcome {
  oc_source_reference_id : option string;
  oc_result : MentionResolutionResult;
  oc_final_status : FinalStatus;
  oc_error : option string;
}.
Record BatchCandidateGroup := mkGroup {
  bg_group_id : string;
  bg_reference_ids : list string;
  bg_raw_mentions : list string;
  bg_candidate_entity_ids : list string;
  bg_max_score : option spec_float;
  bg_normalized_mention : string;
  bg_blocking_key : option string;
}.
Record BatchResolutionReport := mkReport {
  br_job : BatchResolutionJob;
  br_groups : list BatchCandidateGroup;
  br_outcomes : list BatchResolutionOutcome;
  br_resolved_reference_ids : list string;
  br_unresolved_reference_ids : list string;
  br_manual_review_reference_ids : list string;
  br_errors : list string;
}.

(** [_final_status_for] *)
Definition final_status_for (r : MentionResolutionResult) : FinalStatus :=
  match mr_resolved_entity_id r, mr_method r with
  | Some _, (DETERMINISTIC | FUZZY | LLM | MANUAL) => FinalResolved
  | _, _ => FinalUnresolved
  end.
Definition unresolved_result (mention : string) : MentionResolutionResult := mkResult mention None UNRESOLVED None.
Definition outcome_of (i : BatchReferenceInput) (r : result string MentionResolutionResult) : BatchResolutionOutcome :=
  match r with
  | Ok res => mkOutcome (bi_source_reference_id i) res (final_status_for res) None
  | Err text => mkOutcome (bi_source_reference_id i) (unresolved_result (bi_raw_mention_text i)) FinalUnresolved (Some text)
  end.
Definition routes_to_manual_review (o : BatchResolutionOutcome) : bool :=
  bool_decide (oc_final_status o = FinalManualReview) || bool_decide (mr_resolved_entity_id (oc_result o) = None)
  || bool_decide (oc_error o ≠ None).
(** The three lists of the report. *)
Definition ids_where (p : BatchResolutionOutcome → bool) (os : list BatchResolutionOutcome) : list string :=
  first_occurrences [] (omap oc_source_reference_id (List.filter p os)).
Definition resolved_reference_ids : list BatchResolutionOutcome → list string :=
  ids_where (λ o, bool_decide (oc_final_status o = FinalResolved)).
Definition unresolved_reference_ids : list BatchResolutionOutcome → list string :=
  ids_where (λ o, bool_decide (mr_resolved_entity_id (oc_result o) = None)).
Definition manual_review_reference_ids : list BatchResolutionOutcome → list string := ids_where routes_to_manual_review.
Definition outcome_error_message (o : BatchResolutionOutcome) : string :=
  match oc_source_reference_id o with
  | Some s => if is_empty s then mr_raw_mention_text (oc_result o) else s
  | None => mr_raw_mention_text (oc_result o)
  end ++ ": " ++ default "None" (oc_error o).

(** ** Resolving the items *)

Section loop.
Context {S : Type} (resolver : BatchReferenceInput → S → result string MentionResolutionResult * S).

Record progress := mkProgress {
  pr_outcomes : list BatchResolutionOutcome;
  pr_errors : list string;
  pr_by_reference : gmap string BatchResolutionOutcome;
  pr_state : S;
}.
(** One turn of the loop of [run_batch_resolution_job]. *)
Definition resolve_item (p : progress) (i : BatchReferenceInput) : progress :=
  match bi_source_reference_id i ≫= λ id, pr_by_reference p !! id with
  | Some cached => mkProgress (pr_outcomes p ++ [cached])%list (pr_errors p) (pr_by_reference p) (pr_state p)
  | None =>
      let '(r, s) := resolver i (pr_state p) in
      let o := outcome_of i r in
      mkProgress (pr_outcomes p ++ [o])%list
        (match oc_error o with Some _ => (pr_errors p ++ [outcome_error_message o])%list | None => pr_errors p end)
        (match bi_source_reference_id i with Some id => <[id := o]> (pr_by_reference p) | None => pr_by_reference p end) s
  end.
Definition resolve_items (items : list BatchReferenceInput) (s : S) : progress :=
  fold_left resolve_item items (mkProgress [] [] ∅ s).
End loop.
Arguments mkProgress {S}.
Arguments pr_outcomes {S}.
Arguments pr_errors {S}.
Arguments pr_by_reference {S}.
Arguments pr_state {S}.

(** ** Grouping what stays open *)

Section cluster.
Context {T : SimilarityText}.

Definition ranked_ids (cs : list FuzzyCandidate) : list string :=
  map fc_id (py_sort (λ a b, negb (key_ltb b a)) (fold_left (keep_least fc_id) cs [])).
Definition blocking_key_for (mention : string) (cs : list FuzzyCandidate) : option string :=
  match sorted_set (list_to_set (omap (λ c, match fc_blocking_key c with
    | Some k => if is_empty k then None else Some k | None => None end) cs)) with
  | [] => let fallback := prefix_of 4 (build_alias_blocking_key mention) in if is_empty fallback then None else Some fallback
  | keys => Some (join "|" keys)
  end.
Definition max_score (cs : list FuzzyCandidate) : option spec_float :=
  match cs with [] => None | c :: rest => Some (fold_left (λ m c, float_max m (fc_score c)) rest (fc_score c)) end.
Definition max_group_score (current incoming : option spec_float) : option spec_float :=
  match current, incoming with
  | None, s | s, None => s
  | Some a, Some b => Some (float_max a b)
  end.
Definition group_key : Type := string * option string * list string.
Definition group_id (k : group_key) : string :=
  "BCG_" ++ sha1_prefix (join "|" [k.1.1; default "" k.1.2; join "," k.2]).
Definition append_new (x : string) (l : list string) : list string := if bool_decide (x ∈ l) then l else (l ++ [x])%list.
Definition join_group (r : EntityReference) (score : option spec_float) (g : BatchCandidateGroup) : BatchCandidateGroup :=
  mkGroup (bg_group_id g) (append_new (ref_id r) (bg_reference_ids g)) (append_new (ref_raw_mention_text r) (bg_raw_mentions g))
    (bg_candidate_entity_ids g) (max_group_score (bg_max_score g) score) (bg_normalized_mention g) (bg_blocking_key g).
Fixpoint add_to_group (k : group_key) (fresh : BatchCandidateGroup) (f : BatchCandidateGroup → BatchCandidateGroup)
    (groups : list (group_key * BatchCandidateGroup)) : list (group_key * BatchCandidateGroup) :=
  match groups with
  | [] => [(k, f fresh)]
  | (k', g) :: rest => if decide (k' = k) then (k', f g) :: rest else (k', g) :: add_to_group k fresh f rest
  end.
Definition cluster_one (matcher : option fuzzy_matcher) (limit : nat) (groups : list (group_key * BatchCandidateGroup))
    (r : EntityReference) : result string (list (group_key * BatchCandidateGroup)) :=
  let* candidates := match matcher with
    | Some f => generate_candidates f (ref_raw_mention_text r) (Some (ref_source_context r)) limit
    | None => Ok [] end in
  let ids := ranked_ids candidates in
  let mention := casefold (strip (ref_raw_mention_text r)) in
  let blocking := blocking_key_for (ref_raw_mention_text r) candidates in
  let k := (mention, blocking, sorted_strings ids) in
  let score := max_score candidates in
  Ok (add_to_group k (mkGroup (group_id k) [] [] ids score mention blocking) (join_group r score) groups).
Definition group_leb (a b : BatchCandidateGroup) : bool :=
  let key g := (bg_normalized_mention g, default "" (bg_blocking_key g), bg_group_id g) in
  let '(a1, a2, a3) := key a in
  let '(b1, b2, b3) := key b in
  if String.eqb a1 b1 then if String.eqb a2 b2 then String.leb a3 b3 else String.leb a2 b2 else String.leb a1 b1.
Definition cluster_unresolved_references (references : list EntityReference) (matcher : option fuzzy_matcher) (limit : nat)
    : result string (list BatchCandidateGroup) :=
  let* groups := rfold (cluster_one matcher limit) [] references in
  Ok (py_sort group_leb (map snd groups)).

(** [_candidate_group_references]; [created_at] and the rule version are not
    read. Building a reference that is resolved but carries an error cannot
    happen. *)
Definition candidate_group_references (items : list BatchReferenceInput) (os : list BatchResolutionOutcome)
    : list EntityReference :=
  omap (λ x, let '(n, (i, o)) := x in
    if routes_to_manual_review o then
      Some (mkReference (default ("batch-input:" ++ pretty (N.of_nat n)) (bi_source_reference_id i)) (bi_raw_mention_text i)
        (bi_source_context i) (mr_resolved_entity_id (oc_result o)) (mr_method (oc_result o))
        (mr_confidence (oc_result o)) 0 "")
    else None) (combine (seq 0 (length items)) (combine items os)).

(** [run_batch_resolution_job]: the job as it is left, the report or what the
    grouping raised, and the resolver's state. *)
Definition run_batch_resolution_job {S} (resolver : BatchReferenceInput → S → result string MentionResolutionResult * S)
    (matcher : option fuzzy_matcher) (job : BatchResolutionJob) (started done_ : Z) (items : list BatchReferenceInput) (s : S)
    : BatchResolutionJob * result string BatchResolutionReport * S :=
  let running := mark_running (first_occurrences [] (omap bi_source_reference_id items)) started job in
  let p := resolve_items resolver items s in
  match cluster_unresolved_references (candidate_group_references items (pr_outcomes p)) matcher 10 with
  | Err text => (running, Err text, pr_state p)
  | Ok groups =>
      let final := match pr_errors p with [] => mark_completed done_ running | e :: _ => mark_failed e done_ running end in
      (final, Ok (mkReport final groups (pr_outcomes p) (resolved_reference_ids (pr_outcomes p))
        (unresolved_reference_ids (pr_outcomes p)) (manual_review_reference_ids (pr_outcomes p)) (pr_errors p)), pr_state p)
  end.
End cluster.

(** ** A batch against the repositories *)

(** [_ensure_source_reference_ids]; [fresh] are the ids drawn for the inputs
    that have none, in order. *)
Fixpoint assign_ids (items : list BatchReferenceInput) (given : list (option string)) (fresh : list string)
    : result string (list BatchReferenceInput) :=
  match items, given, fresh with
  | [], _, _ => Ok []
  | i :: items', g :: given', f :: fresh' =>
      raise_if match g with Some s => blank s | None => false end with "reference_ids must contain non-empty strings";
      let* i' := match bi_source_reference_id i, g with
        | Some s, Some s' => if String.eqb s' s then Ok i else Err "reference_ids cannot override an input source_reference_id"
        | Some _, None => Ok i
        | None, _ => Ok (mkInput (bi_raw_mention_text i) (bi_source_context i) (Some (default f g)))
        end in
      let* rest := assign_ids items' given' fresh' in
      Ok (i' :: rest)
  | _, _, _ => Err "reference_ids length must match references length"
  end.
Definition ensure_source_reference_ids (items : list BatchReferenceInput) (reference_ids : option (list (option string)))
    (fresh : list string) : result string (list BatchReferenceInput) :=
  raise_if match reference_ids with Some l => negb (length l =? length items)%nat | None => false end
    with "reference_ids length must match references length";
  let* assigned := assign_ids items (default (map (λ _, None) items) reference_ids) fresh in
  raise_if negb (bool_decide (NoDup (omap bi_source_reference_id assigned)))
    with "duplicate source_reference_id in batch inputs";
  Ok assigned.

Section batch.
Context {P : ResponseParser} {T : SimilarityText} {R : Type} `{ReviewRepository R} {reads : AuditReads}.
Context (new_queue_item_id : string → string).
Context (cfg : resolver_config) (draw : nat → draws) (error_text : resolution_error → string) (review_text : review_error → string).
(** The aliases, which a batch only reads. *)
Context (al : alias_store).

Definition audit_get (a : audit_store) (id : string) : option EntityReference := references a !! id.

(** [_resolve_mention_for_batch]; the state counts the calls. *)
Definition resolve_mention_for_batch (i : BatchReferenceInput) (s : nat * audit_store)
    : result string MentionResolutionResult * (nat * audit_store) :=
  let '(n, a) := s in
  let '(r, a') := resolve_mention_with_repositories audit_get cfg al (ReferenceRepo true true true true) (draw n)
    (bi_raw_mention_text i) (Some (bi_source_context i)) (bi_source_reference_id i) true a in
  (map_err error_text r, (S n, a')).

Definition report_errors (errors : list string) : string := "batch resolution failed: " ++ join "; " errors.
(** [batch_resolve], without report or review queue. *)
Definition batch_resolve (references : list batch_reference) (new_job_id : string) (clock : nat → Z) (a : audit_store)
    : result string (list MentionResolutionResult) * audit_store :=
  match rmap_list coerce_reference_input references with
  | Err e => (Err e, a)
  | Ok items =>
      let job := mkJob new_job_id (first_occurrences [] (omap bi_source_reference_id items)) "pending" (clock 0%nat) None None None in
      let '(_, report, (_, a')) := run_batch_resolution_job resolve_mention_for_batch None job (clock 1%nat) (clock 2%nat)
        items (0%nat, a) in
      (let* r := report in
       match br_errors r with [] => Ok (map oc_result (br_outcomes r)) | errors => Err (report_errors errors) end, a')
  end.

(** [_enqueue_manual_review_items]: what the repositories raise is recorded. *)
Definition enqueue_manual_review_items (r : BatchResolutionReport) (a : audit_store) (now done_ : Z) (s : R)
    : BatchResolutionReport * R :=
  match enqueue_batch_manual_review new_queue_item_id a (br_manual_review_reference_ids r) now s with
  | (Ok _, s') => (r, s')
  | (Err e, s') =>
      let why := "manual review enqueue failed: " ++ review_text e in
      (mkReport (mark_failed why done_ (br_job r)) (br_groups r) (br_outcomes r) (br_resolved_reference_ids r)
         (br_unresolved_reference_ids r) (br_manual_review_reference_ids r) (br_errors r ++ [why])%list, s')
  end.

(** [batch_resolve_with_report], with a review repository or none; [clock] is
    read when the job is made, started and finished, for the queue items, and on
    failure. *)
Definition batch_resolve_with_report (references : list batch_reference) (reference_ids : option (list (option string)))
    (fresh : list string) (new_job_id : string) (clock : nat → Z) (a : audit_store) (review_repo : option R)
    : result string BatchResolutionReport * (audit_store * option R) :=
  match (let* coerced := rmap_list coerce_reference_input references in
         ensure_source_reference_ids coerced reference_ids fresh) with
  | Err e => (Err e, (a, review_repo))
  | Ok items =>
      let job := mkJob new_job_id (first_occurrences [] (omap bi_source_reference_id items)) "pending" (clock 0%nat) None None None in
      let '(_, report, (_, a')) := run_batch_resolution_job resolve_mention_for_batch (rc_fuzzy cfg) job (clock 1%nat) (clock 2%nat)
        items (0%nat, a) in
      match report with
      | Err e => (Err e, (a', review_repo))
      | Ok r =>
          match br_errors r, review_repo with
          | [], None => (Ok r, (a', None))
          | [], Some s =>
              let '(r', s') := enqueue_manual_review_items r a' (clock 3%nat) (clock 4%nat) s in (Ok r', (a', Some s'))
          | errors, _ => (Err (report_errors errors), (a', review_repo))
          end
      end
  end.
End batch.
End Batch.
