(* ===== verification/ResolutionProofs.v ===== *)
(** * ResolutionProofs: what resolution promises

    [Candidates] holds the facts on candidate collection, [ResolutionTheorems]
    the properties of resolving a mention, [StockTheorems] those of the
    initialization, [BatchTheorems] the composition of batches with the review
    queue; [ResolutionExamples] runs them. *)
From Stdlib Require Import String Ascii ZArith List SpecFloat.
From stdpp Require Import base gmap strings list pretty.
From S2P Require Import Prelude PyLib Programs Review Resolution.
Local Open Scope string_scope.
Local Open Scope Z_scope.

Module Candidates.
Import ReviewModel ReviewStores ResolutionModel Matcher.

(** Each entity is stored under its id, which is well formed. *)
Definition entities_ok (m : gmap string CanonicalEntity) : Prop :=
  ∀ id e, m !! id = Some e → ce_id e = id ∧ validate_entity_id id = true.
(** What a matcher returns passed the validators of [FuzzyCandidate]. *)
Definition matcher_ok (f : fuzzy_matcher) : Prop :=
  ∀ q c n cs, generate_candidates f q c n = Ok cs → Forall (λ x, make_fuzzy x = Some x) cs.

Lemma make_fuzzy_valid x : make_fuzzy x = Some x → validate_entity_id (fc_id x) = true.
Proof. unfold make_fuzzy. by destruct (validate_entity_id (fc_id x)). Qed.

(** ** First occurrences *)

Lemma elem_of_first_occurrences x seen l : x ∈ first_occurrences seen l ↔ x ∈ l ∧ x ∉ seen.
Proof.
  revert seen. induction l as [|y l IH]; intros seen; cbn [first_occurrences]; [set_solver|].
  case_bool_decide as Hy; [rewrite IH; set_solver|]. rewrite elem_of_cons, IH. destruct (decide (x = y)); set_solver.
Qed.
Lemma NoDup_first_occurrences seen l : NoDup (first_occurrences seen l).
Proof.
  revert seen. induction l as [|y l IH]; intros seen; cbn [first_occurrences]; [constructor|].
  case_bool_decide; [done|]. constructor; [|done]. rewrite elem_of_first_occurrences. set_solver.
Qed.
Lemma first_occurrences_app seen l1 l2 :
  first_occurrences seen (l1 ++ l2) = (first_occurrences seen l1 ++ first_occurrences (rev (first_occurrences seen l1) ++ seen) l2)%list.
Proof.
  revert seen. induction l1 as [|y l IH]; intros seen; cbn [first_occurrences app]; [done|].
  case_bool_decide; [done|]. rewrite IH. cbn [app rev]. by rewrite <- app_assoc.
Qed.

(** ** Deterministic candidates *)

Section deterministic.
Context (entity_repo : gmap string CanonicalEntity) (alias_repo : alias_store) (Hok : entities_ok entity_repo).

Lemma add_entities_sub aliases m :
  (∀ id e, m !! id = Some e → entity_repo !! id = Some e) →
  ∀ id e, fold_left (add_entity entity_repo) aliases m !! id = Some e → entity_repo !! id = Some e.
Proof.
  revert m. induction aliases as [|a l IH]; intros m Hm; [done|]. cbn [fold_left]. apply IH. unfold add_entity.
  destruct (m !! al_canonical_entity_id a); [done|]. destruct (entity_repo !! al_canonical_entity_id a) as [x|] eqn:E; [|done].
  intros id e. destruct (Hok _ _ E) as [Hid _]. rewrite Hid, lookup_insert_Some. intros [[<- <-]|[_ H]]; auto.
Qed.

Lemma entities_for_aliases_elem aliases e :
  e ∈ entities_for_aliases entity_repo aliases → entity_repo !! ce_id e = Some e.
Proof.
  unfold entities_for_aliases. intros (id & _ & Hl)%list_elem_of_omap.
  pose proof (add_entities_sub _ ∅ ltac:(intros ??; by rewrite lookup_empty) _ _ Hl) as H.
  destruct (Hok _ _ H) as [<- _]. done.
Qed.

Lemma entities_for_aliases_ids aliases :
  map ce_id (entities_for_aliases entity_repo aliases) = sorted_set (dom (fold_left (add_entity entity_repo) aliases ∅)).
Proof.
  unfold entities_for_aliases. set (m := fold_left _ aliases ∅).
  assert (∀ id e, m !! id = Some e → ce_id e = id) as Hm.
  { intros id e H. apply (Hok id e). eapply add_entities_sub; [|exact H]. intros ??. by rewrite lookup_empty. }
  assert (∀ l, (∀ id, id ∈ l → is_Some (m !! id)) → map ce_id (omap (λ id, m !! id) l) = l) as H.
  { induction l as [|id l IH]; intros Hl; [done|]. cbn [omap list_omap].
    destruct (Hl id) as [e He]; [left|]. rewrite He. cbn [map]. rewrite (Hm _ _ He). f_equal. apply IH.
    intros id' H'. apply Hl. by right. }
  apply H. intros id Hid%elem_of_sorted_set. by apply elem_of_dom.
Qed.

Lemma entity_list_elem id e : e ∈ entity_list entity_repo id → entity_repo !! ce_id e = Some e.
Proof.
  unfold entity_list. destruct (entity_repo !! id) as [x|] eqn:E; [|by intros ?%not_elem_of_nil].
  intros ->%list_elem_of_singleton. by destruct (Hok _ _ E) as [-> _].
Qed.
Lemma rule_match_elem mention e : e ∈ rule_match entity_repo mention → entity_repo !! ce_id e = Some e.
Proof.
  unfold rule_match. repeat case_match; try (by intros ?%not_elem_of_nil); apply entity_list_elem.
Qed.

Lemma deterministic_elem mention e :
  e ∈ deterministic_candidates entity_repo alias_repo mention → entity_repo !! ce_id e = Some e.
Proof.
  unfold deterministic_candidates. destruct (rule_match _ _) eqn:E; [|rewrite <- E; apply rule_match_elem].
  destruct (List.filter _ _); apply entities_for_aliases_elem.
Qed.
Lemma deterministic_valid mention id :
  id ∈ map ce_id (deterministic_candidates entity_repo alias_repo mention) →
  validate_entity_id id = true ∧ is_Some (entity_repo !! id).
Proof.
  intros (e & -> & He%deterministic_elem)%list_elem_of_fmap. split; [by apply (Hok _ e)|by exists e].
Qed.
End deterministic.

Lemma valid_id_not_blank s : validate_entity_id s = true → blank s = false.
Proof.
  unfold validate_entity_id, blank. intros [H Hp]%andb_true_iff. apply String.eqb_eq in H as ->. by destruct s.
Qed.

Lemma scores_of_single c : scores_of [c] !! fc_id c = Some (fc_score c).
Proof. unfold scores_of. cbn. apply lookup_insert_eq. Qed.
End Candidates.

Module ResolutionTheorems.
Import ReviewModel ReviewStores ResolutionModel Matcher Resolve Candidates.

Section reasoner.
Context {P : ResponseParser} (entity_repo : gmap string CanonicalEntity) (c : MentionCandidateSet).

Lemma fuzzy_llm_candidate_id id : lc_id (fuzzy_llm_candidate entity_repo c id) = id.
Proof.
  unfold fuzzy_llm_candidate, candidate_by_id. destruct (List.find _ _) eqn:E; [|done].
  apply List.find_some in E as [_ E]. by apply String.eqb_eq in E.
Qed.
Lemma make_llm_candidates_ids l l' : rmap_list make_llm_candidate l = Ok l' → map lc_id l' = map lc_id l.
Proof.
  revert l'. induction l as [|x l IH]; intros l' H; cbn [rmap_list] in H; rinv; [done|]. cbn [map].
  erewrite IH by done. f_equal. unfold make_llm_candidate in *. by destruct (_ || _); simplify_eq/=.
Qed.
Lemma llm_candidates_ids l : llm_candidates entity_repo c = Ok l → map lc_id l = candidate_entity_ids c.
Proof.
  intros ->%make_llm_candidates_ids. unfold candidate_entity_ids. rewrite first_occurrences_app, app_nil_r, map_app, !map_map.
  f_equal; [apply map_id|]. erewrite map_ext; [apply map_id|]. intros id. apply fuzzy_llm_candidate_id.
Qed.

(** What the reasoner was asked and answered when its choice is taken. *)
Definition reasoner_chose (ask : LLMRequest → reasoner_reply) (mention e : string) (x : spec_float) : Prop :=
  ∃ req r, lr_raw_mention_text req = strip mention ∧ map lc_id (lr_candidates req) = candidate_entity_ids c ∧
    (ask req = ReplyModel r ∨ ∃ d, ask req = ReplyDict d ∧ model_validate (Some (candidate_entity_ids c)) d = Ok r) ∧
    lp_selected r = Some e ∧ lp_confidence r = Some x.

Lemma llm_decision r cands d :
  decision_from_llm_response r cands = d →
  (rd_selected d = None ∧ rd_method d = UNRESOLVED ∧ rd_confidence d = None) ∨
  ∃ e x, d = mkResolution (Some e) LLM (Some x) (lp_rationale r) ∧ lp_selected r = Some e ∧ lp_confidence r = Some x ∧
    e ∈ map lc_id cands ∧ finite_float x = true ∧ SFltb x llm_confidence_threshold = false.
Proof.
  intros <-. unfold decision_from_llm_response. destruct (lp_selected r) as [e|]; [|by left].
  case_bool_decide; [|by left]. cbn [negb]. destruct (lp_confidence r) as [x|]; [|by left].
  destruct (negb (finite_float x) || SFltb x llm_confidence_threshold) eqn:E; [by left|right].
  apply orb_false_iff in E as [E1%negb_false_iff E2]. eauto 10.
Qed.

Lemma reasoner_decision context ask d :
  resolve_with_reasoner c context entity_repo ask = Ok d →
  (rd_selected d = None ∧ rd_method d = UNRESOLVED ∧ rd_confidence d = None) ∨
  ∃ e x, rd_selected d = Some e ∧ rd_method d = LLM ∧ rd_confidence d = Some x ∧ e ∈ candidate_entity_ids c ∧
    finite_float x = true ∧ SFltb x llm_confidence_threshold = false ∧ reasoner_chose ask (cs_raw_mention_text c) e x.
Proof.
  unfold resolve_with_reasoner. intros H. rinv. rename a into cands. apply llm_candidates_ids in Ha as Hids.
  unfold build_request in Ha0. rinv. cbn [lr_candidates]. rewrite Hids.
  set (req := mkRequest _ _ _ _).
  destruct (ask req) as [t|r|dd|k] eqn:Ea; try (left; done).
  - destruct (llm_decision r cands _ eq_refl) as [H|(e & x & Hd & Hs & Hx & He & Hf & Ht)]; [by left|right].
    exists e, x. rewrite Hd, <- Hids. split_and!; try done. exists req, r. rewrite <- Hids. split_and!; auto.
  - destruct (model_validate _ _) as [r|t] eqn:Em; [|by left].
    destruct (llm_decision r cands _ eq_refl) as [H|(e & x & Hd & Hs & Hx & He & Hf & Ht)]; [by left|right].
    exists e, x. rewrite Hd, <- Hids. split_and!; try done. exists req, r. split_and!; eauto.
Qed.
End reasoner.

Section resolve.
Context {P : ResponseParser} (cfg : resolver_config) (al : alias_store) (mention : string) (context : option pdict).
Context (Hok : entities_ok (rc_entities cfg)).

Abbreviation hits := (map ce_id (deterministic_candidates (rc_entities cfg) al mention)).
Abbreviation fuzzy_result := (generate_fuzzy_candidates mention context (rc_fuzzy cfg) (rc_ner cfg) 10).

(** The candidate set: the deterministic hits, and the fuzzy ones unless there
    is exactly one hit or they could not be generated. *)
Lemma collect_cases c :
  collect_candidates_with_fuzzy (rc_entities cfg) al mention context (rc_fuzzy cfg) (rc_ner cfg) 10 = Ok c →
  cs_raw_mention_text c = mention ∧ cs_deterministic_hits c = hits ∧
  ((length hits = 1%nat ∧ cs_fuzzy_hits c = [] ∧ cs_failure_rationale c = None) ∨
   (length hits ≠ 1%nat ∧ ∃ cands, fuzzy_result = Ok cands ∧ cs_fuzzy_hits c = map fc_id cands ∧
      cs_fuzzy_scores c = scores_of cands ∧ cs_fuzzy_candidates c = cands ∧ cs_failure_rationale c = None) ∨
   (length hits ≠ 1%nat ∧ is_ok fuzzy_result = false ∧ cs_fuzzy_hits c = [] ∧ is_Some (cs_failure_rationale c))).
Proof.
  unfold collect_candidates_with_fuzzy. cbn zeta. destruct (decide (length hits = 1%nat)) as [Hl|Hl].
  { destruct hits as [|h [|]] eqn:Eh; try done. intros [= <-]. split_and!; auto. }
  intros H. assert (∀ X (a b : X), match hits with [_] => a | _ => b end = b) as Hm by (intros; by destruct hits as [|? [|]]).
  rewrite Hm in H. clear Hm. destruct fuzzy_result as [cands|text] eqn:Ef; rinv; destruct (candidate_status _ _ _ _); rinv;
    (split; [done|]; split; [done|]; right).
  - left. split; [done|]. exists cands. by split_and!.
  - right. split_and!; try done; by eexists.
Qed.

(** The grounds on which a decision names an entity: it is the only
    deterministic hit; or, without hits, the only fuzzy candidate, with a score
    that reaches the threshold; or the reasoner chose it among the candidates
    with a finite confidence that is not below 0.8. *)
Definition justified (c : MentionCandidateSet) (d : ResolutionDecision) (kind : DecisionType) : Prop :=
  match rd_selected d with
  | None => rd_method d = UNRESOLVED ∧ rd_confidence d = None
  | Some e => e ∈ candidate_entity_ids c ∧
    ((rd_method d = DETERMINISTIC ∧ kind = AUTO ∧ rd_confidence d = Some (float_of_Z 1) ∧ hits = [e] ∧
        is_Some (rc_entities cfg !! e)) ∨
     (rd_method d = FUZZY ∧ kind = AUTO ∧ hits = [] ∧ ∃ x t, fuzzy_result = Ok [x] ∧ fc_id x = e ∧
        rd_confidence d = Some (fc_score x) ∧ auto_resolve_threshold (rc_fuzzy cfg) = Ok t ∧ SFleb t (fc_score x) = true) ∨
     (rd_method d = LLM ∧ kind = LLM_ASSISTED ∧ length hits ≠ 1%nat ∧ ∃ ask x, rc_reasoner cfg = Some ask ∧
        rd_confidence d = Some x ∧ finite_float x = true ∧ SFltb x llm_confidence_threshold = false ∧
        reasoner_chose c ask mention e x))
  end.

Lemma attach_failure_fields d f :
  rd_selected (attach_failure d f) = rd_selected d ∧ rd_method (attach_failure d f) = rd_method d ∧
  rd_confidence (attach_failure d f) = rd_confidence d.
Proof. unfold attach_failure. destruct f; [|done]. by destruct (contains _ _). Qed.

Lemma candidate_set_decision c t :
  collect_candidates_with_fuzzy (rc_entities cfg) al mention context (rc_fuzzy cfg) (rc_ner cfg) 10 = Ok c →
  auto_resolve_threshold (rc_fuzzy cfg) = Ok t →
  justified c (decision_from_candidate_set c t) AUTO ∧
  (rd_selected (decision_from_candidate_set c t) = None → length hits ≠ 1%nat).
Proof.
  intros Hc Ht. destruct (collect_cases _ Hc) as (_ & Hd & Hcases). unfold decision_from_candidate_set. rewrite Hd.
  destruct Hcases as [(Hl & Hf & Hr)|[(Hl & cands & Hg & Hf & Hs & _ & Hr)|(Hl & _ & Hf & why & Hr)]]; rewrite Hr.
  - destruct hits as [|h [|]] eqn:Eh; try done. split; [|done]. cbn. split.
    + unfold candidate_entity_ids. rewrite Hd, Hf, ?Eh. by left.
    + left. split_and!; try done. assert (h ∈ hits) as Hin by (rewrite Eh; left).
      by apply (deterministic_valid _ _ Hok) in Hin as [_ ?].
  - split; [|done]. rewrite Hf, Hs. destruct hits as [|h [|]] eqn:Eh; try done.
    destruct cands as [|x [|]]; cbn [map]; try done. destruct (clears _ _ _) eqn:Ec; [|done].
    unfold clears in Ec. rewrite scores_of_single in *. cbn in Ec. split.
    + unfold candidate_entity_ids. rewrite Hd, Hf, ?Eh. cbn. by left.
    + right; left. cbn. eauto 10.
  - split; done.
Qed.

Lemma decide_mention_justified c d kind :
  decide_mention cfg al mention context = Ok (c, d, kind) →
  cs_raw_mention_text c = mention ∧ justified c d kind.
Proof.
  unfold decide_mention. intros H. rinv. rename a into c', a0 into t. destruct a1 as [d' k']. injection H as <- <- <-.
  destruct (collect_cases _ Ha) as (Hm & _ & _). split; [done|].
  destruct (candidate_set_decision _ _ Ha Ha0) as [Hj Hl]. unfold resolve_candidate_set_decision in Ha1.
  destruct (rd_selected (decision_from_candidate_set c' t)) as [e|] eqn:Es.
  { injection Ha1 as <- <-. done. }
  unfold justified in *. rewrite Es in Hj.
  destruct (cs_llm_required c' && _).
  - destruct (rc_reasoner cfg) as [ask|] eqn:Er.
    + apply rbind_ok in Ha1 as (d0 & Ha2 & [= <- <-]). destruct (attach_failure_fields d0 (cs_failure_rationale c')) as (-> & -> & ->).
      destruct (reasoner_decision _ _ _ _ _ Ha2) as [(-> & -> & ->)|(e & x & -> & -> & -> & He & Hf & Ht & Hc)]; [done|].
      rewrite Hm in Hc. split; [done|]. right; right. split_and!; auto. exists ask, x. auto.
    + injection Ha1 as <- <-. match goal with |- context [attach_failure ?d ?f] =>
        destruct (attach_failure_fields d f) as (-> & -> & ->) end. done.
  - injection Ha1 as <- <-. match goal with |- context [attach_failure ?d ?f] =>
      destruct (attach_failure_fields d f) as (-> & -> & ->) end. by rewrite Es.
Qed.
End resolve.

Section outcome.
Context {P : ResponseParser} {A : Type} `{AuditWriter A} (get_reference : A → string → option EntityReference).
Context (cfg : resolver_config) (al : alias_store) (b : audit_boundary) (dr : draws).

(** What a call that returns has decided, checked and written. *)
Lemma resolve_ok mention context existing allow audit res audit' :
  resolve_mention_with_repositories get_reference cfg al b dr mention context existing allow audit = (Ok res, audit') →
  ∃ c d kind old r case, decide_mention cfg al mention context = Ok (c, d, kind) ∧
    existing_reference_for_update get_reference existing mention b audit allow = Ok old ∧
    match existing with Some id => blank id = false | None => True end ∧
    audit_records cfg dr mention context existing old c d kind = Ok (r, case) ∧
    save_resolution audit r case = (audit', None) ∧
    res = mkResult mention (ref_resolved_entity_id r) (ref_resolution_method r) (ref_resolution_confidence r).
Proof.
  unfold resolve_mention_with_repositories. cbn zeta. intros Hr.
  match type of Hr with match ?x with _ => _ end = _ => destruct x as [[r case]|e] eqn:E end; [|done].
  rinv. destruct a1 as [[c d] kind]. rinv. destruct (save_resolution audit r case) as [a' [e|]] eqn:Es; [done|].
  injection Hr as <- <-. exists c, d, kind, a0, r, case. split_and!; try done. by destruct existing.
Qed.

Lemma make_reference_ok r r' : make_reference r = Ok r' → r = r'.
Proof. unfold make_reference. intros. by repeat case_match; simplify_eq. Qed.

Lemma audit_records_fields mention context existing old c d kind r case :
  audit_records cfg dr mention context existing old c d kind = Ok (r, case) →
  ref_id r = default (new_reference_id dr) existing ∧ ref_raw_mention_text r = mention ∧
  ref_resolved_entity_id r = rd_selected d ∧
  ref_resolution_method r = match rd_selected d with Some _ => rd_method d | None => UNRESOLVED end ∧
  ref_resolution_confidence r = match rd_selected d with Some _ => rd_confidence d | None => None end ∧
  case_id case = new_case_id dr ∧ case_reference_id case = ref_id r ∧ case_selected_entity_id case = rd_selected d ∧
  case_candidate_entity_ids case = candidate_entity_ids c ∧ case_decision_type case = kind ∧ make_reference r = Ok r.
Proof.
  unfold audit_records. intros Hr. rinv. apply make_reference_ok in Ha as Heq.
  split_and!; rewrite <- ?Heq; try done. by rewrite <- Heq in Ha.
Qed.

(** C9: a call of [resolve_mention_with_repositories] that returns an entity was
    entitled to it: the entity is the only deterministic hit and exists, or the
    only fuzzy candidate above the threshold when there is no deterministic
    one, or the reasoner's confident choice among the candidates that were put
    to it; and what it returned passes its validators and is what the audit
    writer stored, as a valid reference with a case for it that lists the
    candidates. A call that raises has left the audit store as it was, unless the
    writer itself raised. *)
Theorem resolution_is_justified mention context existing allow audit out audit' :
  entities_ok (rc_entities cfg) →
  resolve_mention_with_repositories get_reference cfg al b dr mention context existing allow audit = (out, audit') →
  match out with
  | Ok res => ∃ c d kind r case,
      justified cfg al mention context c d kind ∧ make_result res = Some res ∧
      mr_resolved_entity_id res = rd_selected d ∧ mr_method res = rd_method d ∧ mr_confidence res = rd_confidence d ∧
      save_resolution audit r case = (audit', None) ∧ make_reference r = Ok r ∧
      ref_id r = default (new_reference_id dr) existing ∧ ref_raw_mention_text r = mention ∧
      ref_resolved_entity_id r = mr_resolved_entity_id res ∧ ref_resolution_method r = mr_method res ∧
      case_reference_id case = ref_id r ∧ case_selected_entity_id case = rd_selected d ∧
      case_candidate_entity_ids case = candidate_entity_ids c ∧ case_decision_type case = kind
  | Err e => audit' = audit ∨ ∃ we, e = AuditWriteFailed we
  end.
Proof.
  intros Hok Hr. destruct out as [res|e].
  - destruct (resolve_ok _ _ _ _ _ _ _ Hr) as (c & d & kind & old & r & case & Hd & _ & _ & Hrec & Hs & Hres).
    destruct (decide_mention_justified cfg al mention context Hok _ _ _ Hd) as [_ Hj].
    destruct (audit_records_fields _ _ _ _ _ _ _ _ _ Hrec) as (Hid & Hmen & Hsel & Hmet & Hcon & _ & Hcr & Hcs & Hcc & Hck & Hv).
    assert (ref_resolution_method r = rd_method d ∧ ref_resolution_confidence r = rd_confidence d) as [Hm Hx].
    { unfold justified in Hj. rewrite Hmet, Hcon. destruct (rd_selected d); [done|]. by destruct Hj as [-> ->]. }
    exists c, d, kind, r, case. subst res. cbn. rewrite Hm, Hx. split_and!; try done.
    unfold make_result. cbn. rewrite Hsel. unfold justified in Hj. destruct (rd_selected d).
    + by destruct Hj as [_ [(-> & _)|[(-> & _)|(-> & _)]]].
    + destruct Hj as [-> ->]. done.
  - unfold resolve_mention_with_repositories in Hr. cbn zeta in Hr.
    match type of Hr with match ?x with _ => _ end = _ => destruct x as [[r case]|e'] eqn:E end.
    + destruct (save_resolution audit r case) as [a' [we|]]; [|done]. injection Hr as <- <-. eauto.
    + injection Hr as <- <-. by left.
Qed.
End outcome.

(** ** Against the in-memory audit store *)

Section stored.
Context {P : ResponseParser} (cfg : resolver_config) (al : alias_store) (b : audit_boundary) (dr : draws).
Abbreviation resolve := (resolve_mention_with_repositories (λ a id, references a !! id) cfg al b dr).

Lemma result_of_reference r mention :
  make_reference r = Ok r →
  let res := mkResult mention (ref_resolved_entity_id r) (ref_resolution_method r) (ref_resolution_confidence r) in
  make_result res = Some res.
Proof.
  unfold make_reference, make_result. cbn.
  destruct (ref_resolution_method r), (ref_resolved_entity_id r), (ref_resolution_confidence r); done.
Qed.

Lemma resolve_stored mention context existing allow (a : audit_store) res a' :
  resolve mention context existing allow a = (Ok res, a') →
  ∃ r c, a' = mkAudit (<[ref_id r := r]> (references a)) (<[case_id c := c]> (cases a)) ∧
    ref_id r = default (new_reference_id dr) existing ∧ case_id c = new_case_id dr ∧ case_reference_id c = ref_id r ∧
    ref_raw_mention_text r = mention ∧ ref_resolved_entity_id r = mr_resolved_entity_id res ∧
    ref_resolution_method r = mr_method res ∧ make_result res = Some res ∧
    ∃ cs d kind, decide_mention cfg al mention context = Ok (cs, d, kind) ∧
      case_candidate_entity_ids c = candidate_entity_ids cs ∧
      ∀ old, existing = Some (ref_id r) → references a !! ref_id r = Some old → ref_resolved_entity_id old = None.
Proof.
  intros Hr. destruct (resolve_ok _ _ _ _ _ _ _ _ _ _ _ _ Hr) as (c & d & kind & old & r & case & Hd & Hex & _ & Hrec & Hs & ->).
  destruct (audit_records_fields _ _ _ _ _ _ _ _ _ _ _ Hrec) as (Hid & Hmen & Hsel & Hmet & Hcon & Hci & Hcr & Hcs & Hcc & Hck & Hv).
  cbn in Hs. unfold audit_save in Hs. rewrite Hcr, String.eqb_refl in Hs. injection Hs as <-.
  exists r, case. split_and!; try done; [by apply result_of_reference|]. exists c, d, kind. split_and!; try done.
  intros old' He Ho. rewrite He in Hex. cbn in Hex. rinv. cbn beta in Ho. rewrite Ho in Hex. rinv. to_prop.
  by apply dec_stable.
Qed.

(** A resolved reference is final for the resolver: no later call, whether
    it names the reference or draws an id of its own, changes it. *)
Theorem resolved_reference_is_final mention context existing allow (a : audit_store) out a' id r :
  references a !! id = Some r → ref_resolved_entity_id r ≠ None → new_reference_id dr ≠ id →
  resolve mention context existing allow a = (out, a') →
  references a' !! id = Some r ∧ (existing = Some id → is_ok out = false).
Proof.
  intros Hl Hr Hne H. destruct out as [res|e].
  - destruct (resolve_stored _ _ _ _ _ _ _ H) as (r' & c & -> & Hid & _ & _ & _ & _ & _ & _ & cs & d & k & _ & _ & Hold).
    assert (existing ≠ Some id) as Hex.
    { intros ->. cbn in Hid. rewrite Hid in Hold. by specialize (Hold r eq_refl Hl). }
    split; [|done]. cbn. rewrite lookup_insert_ne; [done|]. rewrite Hid. destruct existing; cbn; congruence.
  - split; [|done]. unfold resolve_mention_with_repositories in H. cbn zeta in H.
    match type of H with match ?x with _ => _ end = _ => destruct x as [[r' c]|e'] eqn:E end.
    + cbn in H. unfold audit_save in H. destruct (negb (String.eqb (case_reference_id c) (ref_id r'))); [by injection H as <- <-|done].
    + by injection H as <- <-.
Qed.
End stored.
End ResolutionTheorems.

Module BatchTheorems.
Import ReviewModel ReviewStores ReviewWorkflow ResolutionModel Matcher Resolve SimpleFuzzy Batch Candidates ResolutionTheorems.

Section batch.
Context {P : ResponseParser} {T : SimilarityText} {R : Type} {repo : ReviewRepository R} {laws : ReviewRepositoryLaws R} {reads : AuditReads}.
Context (new_queue_item_id : string → string).
Context (cfg : resolver_config) (draw : nat → draws) (error_text : resolution_error → string) (review_text : review_error → string).
Context (al : alias_store).
Context (Hok : entities_ok (rc_entities cfg)) (Hmatch : ∀ f, rc_fuzzy cfg = Some f → matcher_ok f).
Context (new_id_inj : ∀ a b, new_queue_item_id a = new_queue_item_id b → a = b)
  (new_id_text : ∀ a, blank (new_queue_item_id a) = false)
  (case_id_inj : ∀ n m, new_case_id (draw n) = new_case_id (draw m) → n = m).
Abbreviation resolver := (resolve_mention_for_batch cfg draw error_text al).

(** Candidates that can be filed, and the ids the next calls will draw. *)
Definition cases_ok (a : audit_store) : Prop :=
  ∀ k c, cases a !! k = Some c → Forall (λ x, blank x = false) (case_candidate_entity_ids c).
Definition cases_fresh (n : nat) (a : audit_store) : Prop := ∀ k, (n <= k)%nat → cases a !! new_case_id (draw k) = None.
Definition has_case (a : audit_store) (id : string) : Prop := ∃ k c, cases a !! k = Some c ∧ case_reference_id c = id.

Lemma candidates_fileable mention context c d kind :
  decide_mention cfg al mention context = Ok (c, d, kind) → Forall (λ x, blank x = false) (candidate_entity_ids c).
Proof.
  unfold decide_mention. intros H. rinv. destruct a1 as [d' k']. injection H as <- <- <-.
  destruct (collect_cases cfg al mention context _ Ha) as (_ & Hd & Hcases).
  apply list.Forall_forall. intros x [Hx _]%elem_of_first_occurrences. rewrite Hd in Hx.
  apply valid_id_not_blank. apply elem_of_app in Hx as [Hx|Hx].
  { by apply (deterministic_valid _ _ Hok) in Hx as [? _]. }
  destruct Hcases as [(_ & Hf & _)|[(_ & cands & Hg & Hf & _)|(_ & _ & Hf & _)]]; rewrite Hf in Hx; try by apply not_elem_of_nil in Hx.
  apply list_elem_of_fmap in Hx as (y & -> & Hy). unfold generate_fuzzy_candidates in Hg.
  destruct (rc_fuzzy cfg) as [f|] eqn:Ef; [|injection Hg as <-; by apply not_elem_of_nil in Hy].
  apply rbind_ok in Hg as (q & _ & Hg). apply (Hmatch f eq_refl) in Hg. rewrite list.Forall_forall in Hg.
  by apply make_fuzzy_valid, Hg.
Qed.

(** ** One item *)

(** A reference that says what the outcome says, with a case. *)
Definition stored_as (a : audit_store) (id mention : string) (o : BatchResolutionOutcome) : Prop :=
  oc_source_reference_id o = Some id ∧ oc_error o = None ∧ oc_final_status o = final_status_for (oc_result o) ∧
  make_result (oc_result o) = Some (oc_result o) ∧ has_case a id ∧
  ∃ r, references a !! id = Some r ∧ ref_id r = id ∧ ref_raw_mention_text r = mention ∧
    ref_resolved_entity_id r = mr_resolved_entity_id (oc_result o) ∧ ref_resolution_method r = mr_method (oc_result o).

Lemma resolver_ok i id n a res s' :
  bi_source_reference_id i = Some id → cases_ok a → cases_fresh n a →
  resolver i (n, a) = (Ok res, s') →
  ∃ a', s' = (S n, a') ∧ cases_ok a' ∧ cases_fresh (S n) a' ∧
    stored_as a' id (bi_raw_mention_text i) (outcome_of i (Ok res)) ∧
    (∀ id', id' ≠ id → references a' !! id' = references a !! id') ∧
    (∀ id', has_case a id' → has_case a' id').
Proof.
  intros Hid Hc Hfresh. unfold resolve_mention_for_batch. rewrite Hid.
  destruct (resolve_mention_with_repositories _ _ _ _ _ _ _ _ _ _) as [r a'] eqn:E. intros [= Hr <-].
  apply map_err_ok in Hr as ->.
  destruct (resolve_stored _ _ _ _ _ _ _ _ _ _ _ E) as (rf & c & -> & Hrid & Hcid & Hcref & Hmen & Hent & Hmet & Hres & cs & d & kind & Hd & Hcand & _).
  cbn in Hrid. exists (mkAudit (<[ref_id rf := rf]> (references a)) (<[case_id c := c]> (cases a))).
  assert (has_case (mkAudit (<[ref_id rf := rf]> (references a)) (<[case_id c := c]> (cases a))) id) as Hhas.
  { exists (case_id c), c. cbn. by rewrite lookup_insert_eq, Hcref, Hrid. }
  split_and!; try done.
  - intros k c'. cbn. rewrite lookup_insert_Some. intros [[_ <-]|[_ Hl]]; [|by eapply Hc].
    rewrite Hcand. by eapply candidates_fileable.
  - intros k Hk. cbn. rewrite lookup_insert_ne, Hfresh; [done|lia|]. rewrite Hcid. intros ?%case_id_inj. lia.
  - unfold stored_as. cbn. split_and!; try done. exists rf. rewrite Hrid, lookup_insert_eq. by rewrite Hent, Hmet.
  - intros id' Hne. cbn. rewrite lookup_insert_ne; [done|congruence].
  - intros id' (k & c' & Hl & Hcr). exists k, c'. cbn. rewrite lookup_insert_ne; [done|].
    rewrite Hcid. intros <-. by rewrite Hfresh in Hl by lia.
Qed.

(** ** All items *)

Lemma item_errors_grow i p : pr_errors (resolve_item resolver p i) = [] → pr_errors p = [].
Proof.
  unfold resolve_item. destruct (_ ≫= _); [done|]. destruct (resolver i (pr_state p)) as [r s]. cbn.
  destruct (oc_error _); [by intros [_ ?]%app_nil|done].
Qed.
Lemma items_errors_grow items p : pr_errors (fold_left (resolve_item resolver) items p) = [] → pr_errors p = [].
Proof.
  revert p. induction items as [|i items IH]; intros p; [done|]. cbn [fold_left]. intros H%IH. by eapply item_errors_grow.
Qed.

Lemma resolve_item_fresh i id p :
  bi_source_reference_id i = Some id → pr_by_reference p !! id = None →
  cases_ok (pr_state p).2 → cases_fresh (pr_state p).1 (pr_state p).2 →
  pr_errors (resolve_item resolver p i) = [] →
  let p' := resolve_item resolver p i in
  ∃ o a', pr_outcomes p' = (pr_outcomes p ++ [o])%list ∧ pr_by_reference p' = <[id := o]> (pr_by_reference p) ∧
    pr_state p' = (S (pr_state p).1, a') ∧ cases_ok a' ∧ cases_fresh (S (pr_state p).1) a' ∧
    stored_as a' id (bi_raw_mention_text i) o ∧
    (∀ id', id' ≠ id → references a' !! id' = references (pr_state p).2 !! id') ∧
    (∀ id', has_case (pr_state p).2 id' → has_case a' id').
Proof.
  intros Hid Hnew Hc Hf He. cbn zeta. unfold resolve_item in *. rewrite Hid in *. cbn [mbind option_bind] in *. rewrite Hnew in *.
  destruct (pr_state p) as [n a]. destruct (resolver i (n, a)) as [[res|text] s'] eqn:E; cbn in He; [|by apply app_nil in He as [_ ?]].
  destruct (resolver_ok i id n a res s' Hid Hc Hf E) as (a' & -> & Hrest). exists (outcome_of i (Ok res)), a'. cbn.
  split_and!; try done; apply Hrest.
Qed.

(** Every item ends up stored, whatever is resolved after it. *)
Lemma items_stored items p :
  Forall (λ i, is_Some (bi_source_reference_id i)) items → NoDup (omap bi_source_reference_id items) →
  (∀ i id, i ∈ items → bi_source_reference_id i = Some id → pr_by_reference p !! id = None) →
  cases_ok (pr_state p).2 → cases_fresh (pr_state p).1 (pr_state p).2 →
  pr_errors (fold_left (resolve_item resolver) items p) = [] →
  let p' := fold_left (resolve_item resolver) items p in
  ∃ os, pr_outcomes p' = (pr_outcomes p ++ os)%list ∧ cases_ok (pr_state p').2 ∧
    Forall2 (λ i o, ∃ id, bi_source_reference_id i = Some id ∧ stored_as (pr_state p').2 id (bi_raw_mention_text i) o) items os ∧
    (∀ id', (∀ i, i ∈ items → bi_source_reference_id i ≠ Some id') →
       references (pr_state p').2 !! id' = references (pr_state p).2 !! id') ∧
    (∀ id', has_case (pr_state p).2 id' → has_case (pr_state p').2 id').
Proof.
  revert p. induction items as [|i items IH]; intros p Hids Hnd Hnew Hc Hf He; cbn zeta.
  { exists []. rewrite app_nil_r. by split_and!. }
  cbn [fold_left] in *. apply Forall_cons in Hids as [[id Hid] Hids].
  cbn [omap list_omap] in Hnd. rewrite Hid in Hnd. apply NoDup_cons in Hnd as [Hni Hnd].
  assert (∀ i', i' ∈ items → bi_source_reference_id i' ≠ Some id) as Hother.
  { intros i' Hin Heq. apply Hni, list_elem_of_omap. eauto. }
  destruct (resolve_item_fresh i id p Hid) as (o & a' & Ho & Hb & Hs & Hc' & Hf' & Hst & Hrefs & Hhas);
    [by eapply Hnew; [left|]|done|done|by eapply items_errors_grow|].
  destruct (IH (resolve_item resolver p i)) as (os & Hos & Hc'' & Hall & Hrefs' & Hhas').
  { done. }
  { done. }
  { intros i' id' Hin Heq. rewrite Hb, lookup_insert_ne; [eapply Hnew; [by right|done]|]. intros ->. by eapply Hother. }
  { by rewrite Hs. }
  { by rewrite Hs. }
  { done. }
  rewrite Hs in *. cbn [fst snd] in *. exists (o :: os). split_and!.
  - rewrite Hos, Ho, <- app_assoc. done.
  - done.
  - constructor; [|done]. exists id. split; [done|]. destruct Hst as (H1 & H2 & H3 & H4 & H5 & r & Hr & Hrest).
    split_and!; auto. exists r. rewrite Hrefs' by done. done.
  - intros id' Hn. rewrite Hrefs' by (intros; apply Hn; by right). apply Hrefs. intros ->. apply (Hn i); [left|done].
  - auto.
Qed.

(** ** Handing over to the review queue *)

Definition enqueuable (a : audit_store) (id : string) : Prop :=
  blank id = false ∧ has_case a id ∧
  ∃ r, references a !! id = Some r ∧ ref_id r = id ∧ blank (ref_raw_mention_text r) = false ∧
    ref_resolved_entity_id r = None ∧ ref_resolution_method r = UNRESOLVED.

Lemma max_case_from best l : max_case best l ∈ best :: l.
Proof.
  revert best. induction l as [|c l IH]; intros best; cbn [max_case]; [left|].
  specialize (IH (if case_ltb best c then c else best)). destruct (case_ltb best c); set_solver.
Qed.

(** The cases a reader answers, and the latest of them. *)
Lemma found_cases a id l : cases_ok a → has_case a id → find_cases a id = Ok l →
  ∃ c rest, l = c :: rest ∧ Forall (λ x, blank x = false) (case_candidate_entity_ids (max_case c rest)).
Proof.
  intros Hc (k & c & Hl & Href) Hfound. apply find_cases_stored in Hfound as Hp.
  assert (c ∈ l) as Hin.
  { rewrite Hp. unfold cases_of. apply list_elem_of_filter. split; [done|]. apply list_elem_of_fmap. exists (k, c).
    split; [done|by apply elem_of_map_to_list]. }
  destruct l as [|x rest]; [by apply not_elem_of_nil in Hin|]. exists x, rest. split; [done|].
  pose proof (max_case_from x rest) as Hm. rewrite Hp in Hm.
  unfold cases_of in Hm. apply list_elem_of_filter in Hm as [_ ((k' & x') & -> & Hm)%list_elem_of_fmap].
  apply elem_of_map_to_list in Hm. by eapply Hc.
Qed.

(** Each item is filed under its reference and the id made of it. *)
Definition ids_ok (s : R) : Prop :=
  ∀ ref j, queued s ref = Some j → reference_id j = ref ∧ queue_item_id j = new_queue_item_id ref.
(** One of the accesses of an enqueue raised [e]. *)
Definition raised (a : audit_store) (e : review_error) : Prop :=
  (∃ id, get_reference a id = Err e ∨ find_cases a id = Err e) ∨
  ∃ s s', (∃ ref, find_by_reference ref s = (Err e, s')) ∨ ∃ i, save_item i s = (Err e, s').
(** The queue after some accesses: nothing is lost. *)
Definition queue_grows (s s' : R) : Prop :=
  repository_ok s' ∧ ids_ok s' ∧ ∀ ref, is_Some (queued s ref) → is_Some (queued s' ref).

Lemma queue_grows_refl s : repository_ok s → ids_ok s → queue_grows s s.
Proof. unfold queue_grows. auto. Qed.
Lemma queue_grows_trans s1 s2 s3 : queue_grows s1 s2 → queue_grows s2 s3 → queue_grows s1 s3.
Proof. intros (_ & _ & H12) (? & ? & H23). unfold queue_grows. auto. Qed.

Lemma find_grows ref s res s' : repository_ok s → ids_ok s → find_by_reference ref s = (res, s') →
  queue_grows s s' ∧ ∀ o, res = Ok o → o = queued s' ref.
Proof.
  intros Hs Hids E. destruct (find_answers _ _ _ _ Hs E) as (Hs' & Heq & Ho). split.
  - unfold queue_grows. split_and!; [done| |]; intros x; rewrite Heq; [apply Hids|done].
  - intros o Hres. rewrite Heq. auto.
Qed.

Lemma save_and_find_outcome a ref i s res s' :
  repository_ok s → ids_ok s → reference_id i = ref → queue_item_id i = new_queue_item_id ref →
  save_and_find ref i s = (res, s') →
  queue_grows s s' ∧ match res with Ok _ => is_Some (queued s' ref) | Err e => raised a e end.
Proof.
  intros Hs Hids Href Hid. unfold save_and_find. rewrite pbind_cases.
  assert (∀ res1 s1, save_item i s = (res1, s1) → queue_grows s s1 ∧ (res1 = Ok () → is_Some (queued s1 ref))) as Hsave.
  { intros res1 s1 E. destruct (save_files i s res1 s1 Hs) as (Hs1 & Hother & Hthis & Hres); [|done|].
    { intros ref' j Hj Hjid. destruct (Hids _ _ Hj) as [_ Hj']. apply new_id_inj. congruence. }
    rewrite Href in *. split; [|done]. unfold queue_grows. split_and!; [done| |]; intros ref'; destruct (decide (ref' = ref)) as [->|Hne].
    - intros j Hj. destruct Hthis as [E'|E']; rewrite E' in Hj; [by apply Hids|]. injection Hj as <-. by rewrite Href.
    - rewrite Hother by done. apply Hids.
    - intros Hq. destruct Hthis as [->| ->]; eauto.
    - by rewrite Hother. }
  intros [([] & s1 & E & H2)|(e & E & ->)]; destruct (Hsave _ _ E) as [Hg Hres].
  2: { split; [done|]. right. eauto. }
  specialize (Hres eq_refl). pose proof Hg as (Hs1 & Hids1 & _). apply pbind_cases in H2 as [(o & s2 & E2 & H2)|(e & E2 & ->)];
    destruct (find_grows _ _ _ _ Hs1 Hids1 E2) as [Hg2 Ho].
  - injection H2 as <- <-. split; [by eapply queue_grows_trans|]. by apply Hg2.
  - split; [by eapply queue_grows_trans|]. right. eauto.
Qed.

Lemma enqueue_outcome a r now s res s' :
  repository_ok s → ids_ok s → cases_ok a → enqueuable a (ref_id r) → references a !! ref_id r = Some r →
  enqueue_reference new_queue_item_id a r now s = (res, s') →
  queue_grows s s' ∧ match res with Ok _ => is_Some (queued s' (ref_id r)) | Err e => raised a e end.
Proof.
  intros Hs Hids Hc (Hb & Hcase & r' & Hr' & _ & Hm & He & Hu) Hr. assert (r' = r) as -> by congruence.
  unfold enqueue_reference, require_explicit_unresolved. rewrite He, Hu. cbn [bool_decide orb negb]. unfold lift at 1.
  rewrite pbind_cases. intros [([] & s0 & [= <-] & H1)|(e & E & _)]; [|discriminate].
  apply pbind_cases in H1 as [(o & s1 & E1 & H2)|(e & E1 & ->)]; destruct (find_grows _ _ _ _ Hs Hids E1) as [Hg1 Ho].
  2: { split; [done|]. right. eauto. }
  specialize (Ho o eq_refl). pose proof Hg1 as (Hs1 & Hids1 & _).
  destruct o as [i|].
  - destruct (Hids1 _ _ (eq_sym Ho)) as [Hi1 Hi2]. destruct (reference_created_at i).
    + injection H2 as <- <-. split; [done|]. rewrite <- Ho. eauto.
    + apply (save_and_find_outcome a _ _ _ _ _ Hs1 Hids1) in H2 as [Hg2 Hres]; [|done|done]. split; [by eapply queue_grows_trans|done].
  - apply pbind_cases in H2 as [(l & s2 & [= E <-] & H2)|(e & [= E <-] & ->)]; [|split; [done|left; eauto]].
    destruct (found_cases _ _ _ Hc Hcase E) as (c & rest & -> & Hcand).
    apply pbind_cases in H2 as [(i & s2 & [= Ei <-] & H2)|(e & [= Ei <-] & ->)].
    + unfold make_item in Ei. destruct (_ || _) in Ei; [done|]. injection Ei as <-.
      apply (save_and_find_outcome a _ _ _ _ _ Hs1 Hids1) in H2 as [Hg2 Hres]; [|done|done]. split; [by eapply queue_grows_trans|done].
    + exfalso. unfold make_item in Ei. cbn in Ei. rewrite new_id_text, Hb, Hm in Ei. cbn in Ei.
      replace (existsb blank _) with false in Ei; [done|]. symmetry. apply not_true_is_false.
      intros (x & Hin & Hx)%existsb_exists. apply list_elem_of_In in Hin. rewrite list.Forall_forall in Hcand. by rewrite (Hcand x Hin) in Hx.
Qed.

Lemma enqueue_batch_outcome ids a now s res s' :
  repository_ok s → ids_ok s → cases_ok a → (∀ id, id ∈ ids → enqueuable a id) →
  enqueue_batch_manual_review new_queue_item_id a ids now s = (res, s') →
  queue_grows s s' ∧
  match res with
  | Ok _ => ∀ id, id ∈ ids → is_Some (queued s' id)
  | Err e => raised a e ∧ ∃ before id after, ids = (before ++ id :: after)%list ∧ ∀ x, x ∈ before → is_Some (queued s' x)
  end.
Proof.
  revert s res s'. induction ids as [|id ids IH]; intros s res s' Hs Hids Hc Hall; cbn [enqueue_batch_manual_review].
  { intros [= <- <-]. split; [by apply queue_grows_refl|]. by intros ? ?%not_elem_of_nil. }
  pose proof (Hall id ltac:(left)) as Hid. pose proof Hid as (_ & _ & r & Hr & Hrid & _).
  assert (∃ before id' after, id :: ids = (before ++ id' :: after)%list ∧ ∀ x, x ∈ before → is_Some (queued s' x)) as Hnone.
  { exists [], id, ids. split; [done|]. by intros ? ?%not_elem_of_nil. }
  rewrite pbind_cases. intros [(o & s1 & [= E <-] & H1)|(e & [= E <-] & ->)].
  2: { split; [by apply queue_grows_refl|]. split; [left; eauto|done]. }
  apply get_reference_stored in E as ->. rewrite Hr in H1.
  assert (∀ res1 s1, enqueue_reference new_queue_item_id a r now s = (res1, s1) →
    queue_grows s s1 ∧ match res1 with Ok _ => is_Some (queued s1 id) | Err e => raised a e end) as Hone.
  { intros res1 s1 E. rewrite <- Hrid. eapply enqueue_outcome; rewrite ?Hrid; eauto. }
  apply pbind_cases in H1 as [(i & s1 & E1 & H2)|(e & E1 & ->)]; destruct (Hone _ _ E1) as [Hg1 Hres1]; [|by split].
  pose proof Hg1 as (Hs1 & Hids1 & _).
  assert (∀ x, x ∈ ids → enqueuable a x) as Hall' by (intros; apply Hall; by right).
  apply pbind_cases in H2 as [(more & s2 & E2 & H3)|(e & E2 & ->)]; destruct (IH _ _ _ Hs1 Hids1 Hc Hall' E2) as [Hg2 Hres2].
  - injection H3 as <- <-. split; [by eapply queue_grows_trans|]. intros x [->|Hx]%elem_of_cons; [by apply Hg2|auto].
  - split; [by eapply queue_grows_trans|]. destruct Hres2 as [Hr2 (before & id' & after & -> & Hb)]. split; [done|].
    exists (id :: before), id', after. split; [done|]. intros x [->|Hx]%elem_of_cons; [by apply Hg2|auto].
Qed.

(** ** The batch *)

Lemma assign_ids_ok items given fresh items' :
  Forall (λ f, blank f = false) fresh → Forall (λ i, make_input i = Ok i) items → assign_ids items given fresh = Ok items' →
  Forall (λ i, make_input i = Ok i ∧ is_Some (bi_source_reference_id i)) items' ∧
  Forall2 (λ i i', bi_raw_mention_text i' = bi_raw_mention_text i) items items'.
Proof.
  intros Hfr. revert given fresh items' Hfr. induction items as [|i items IH]; intros given fresh items' Hfr Hin H; cbn in H.
  { injection H as <-. by split. }
  destruct given as [|gv given]; [done|]. destruct fresh as [|f fresh]; [done|]. apply Forall_cons in Hfr as [Hf Hfr].
  apply Forall_cons in Hin as [Hi Hin]. rinv. destruct (IH _ _ _ Hfr Hin Ha1) as [IH1 IH2]. split; constructor; try done.
  - destruct i as [m c [s|]]; cbn in *.
    + destruct gv as [s'|]; [destruct (String.eqb s' s)|]; simplify_eq/=; split; eauto.
    + simplify_eq/=. split; [|eauto]. clear IH Hin. unfold make_input in *. cbn in *. apply rbind_ok in Hi as (u & Hm%guard_err_ok & _). rewrite Hm. cbn.
      destruct gv as [s|]; cbn; by rewrite ?Ha, ?Hf.
  - destruct (bi_source_reference_id i); [destruct gv as [s'|]; [destruct (String.eqb s' _)|]|]; by simplify_eq/=.
Qed.

Lemma coerced_valid refs items : (∀ i, BInput i ∈ refs → make_input i = Ok i) →
  rmap_list coerce_reference_input refs = Ok items → Forall (λ i, make_input i = Ok i) items.
Proof.
  assert (∀ x y, make_input x = Ok y → make_input y = Ok y) as Hm.
  { intros x y Hxy. pose proof Hxy as Hy. unfold make_input in Hxy. apply rbind_ok in Hxy as (? & _ & Hxy).
    apply rbind_ok in Hxy as (? & _ & Hxy). by injection Hxy as ->. }
  intros Hin H%rmap_list_ok. induction H as [|r i refs items Hr _ IH]; [done|]. constructor; [|apply IH; intros; apply Hin; by right].
  destruct r; cbn in Hr; rinv; eauto. apply Hin. left.
Qed.

Lemma make_input_ok i id : make_input i = Ok i → bi_source_reference_id i = Some id →
  blank id = false ∧ blank (bi_raw_mention_text i) = false.
Proof.
  unfold make_input. intros H Hid. rewrite Hid in H. apply rbind_ok in H as (? & H1%guard_err_ok & H).
  by apply rbind_ok in H as (? & H2%guard_err_ok & _).
Qed.

Lemma NoDup_omap_eq {X} (f : X → option string) l x y a :
  NoDup (omap f l) → x ∈ l → y ∈ l → f x = Some a → f y = Some a → x = y.
Proof.
  induction l as [|z l IH]; [by intros _ ?%not_elem_of_nil|]. cbn [omap list_omap]. intros Hn Hx Hy Hfx Hfy.
  assert (∀ w, w ∈ l → f w = Some a → f z = Some a → False) as Hno.
  { intros w Hw Hfw Hfz. rewrite Hfz in Hn. apply NoDup_cons in Hn as [Hn _]. apply Hn, list_elem_of_omap. eauto. }
  apply elem_of_cons in Hx as [->|Hx], Hy as [->|Hy]; try done; [by destruct (Hno y)|by destruct (Hno x)|].
  apply IH; try done. destruct (f z); [by apply NoDup_cons in Hn as [_ ?]|done].
Qed.

Lemma elem_of_ids_where p os id :
  id ∈ ids_where p os ↔ ∃ o, o ∈ os ∧ p o = true ∧ oc_source_reference_id o = Some id.
Proof.
  unfold ids_where. rewrite elem_of_first_occurrences, list_elem_of_omap. split.
  - intros [(o & [Hin Hp]%list_elem_of_In%List.filter_In & Ho) _]. exists o. split; [by apply list_elem_of_In|done].
  - intros (o & Hin & Hp & Ho). split; [|by apply not_elem_of_nil]. exists o. split; [|done].
    apply list_elem_of_In, List.filter_In. by rewrite <- list_elem_of_In.
Qed.

(** The two lists of the report are the outcomes that named an entity and the
    ones that did not. *)
Lemma routes_of o : oc_error o = None → oc_final_status o = final_status_for (oc_result o) →
  make_result (oc_result o) = Some (oc_result o) →
  routes_to_manual_review o = bool_decide (mr_resolved_entity_id (oc_result o) = None) ∧
  bool_decide (oc_final_status o = FinalResolved) = negb (bool_decide (mr_resolved_entity_id (oc_result o) = None)).
Proof.
  intros He Hf Hv. unfold routes_to_manual_review. rewrite He, Hf. unfold final_status_for, make_result in *.
  destruct (mr_resolved_entity_id (oc_result o)), (mr_method (oc_result o)); try done.
Qed.

(** A job without errors: what its report says of the audit store. *)
Lemma job_handles_all matcher job started done_ items a j r n a' :
  run_batch_resolution_job resolver matcher job started done_ items (0%nat, a) = (j, Ok r, (n, a')) → br_errors r = [] →
  Forall (λ i, make_input i = Ok i ∧ is_Some (bi_source_reference_id i)) items → NoDup (omap bi_source_reference_id items) →
  cases_ok a → cases_fresh 0 a →
  job_status (br_job r) = "completed" ∧ length (br_outcomes r) = length items ∧ cases_ok a' ∧
  (∀ id, id ∈ br_manual_review_reference_ids r → enqueuable a' id) ∧
  ∀ o, o ∈ br_outcomes r → ∃ id x, oc_source_reference_id o = Some id ∧ references a' !! id = Some x ∧
    ref_resolved_entity_id x = mr_resolved_entity_id (oc_result o) ∧
    match mr_resolved_entity_id (oc_result o) with
    | Some _ => id ∈ br_resolved_reference_ids r ∧ id ∉ br_manual_review_reference_ids r
    | None => (id ∉ br_resolved_reference_ids r) ∧ id ∈ br_manual_review_reference_ids r
    end.
Proof.
  unfold run_batch_resolution_job, resolve_items. set (p := fold_left _ items _). set (p0 := mkProgress [] [] ∅ (0%nat, a)) in p.
  destruct (cluster_unresolved_references _ _ _) as [groups|text]; [|done]. intros [= _ Er Es] Herr Hvalid Hnd Hc Hf.
  subst r. cbn in Herr |- *. rewrite Herr.
  destruct (items_stored items p0) as (os & Hos & Hc1 & Hall & _ & _); [|done|intros; apply lookup_empty|done|done|done|].
  { eapply Forall_impl; [exact Hvalid|]. by intros i [_ ?]. }
  fold p in Hos, Hc1, Hall. rewrite Es in *. cbn in Hos, Hc1, Hall. rewrite Hos.
  assert (omap oc_source_reference_id os = omap bi_source_reference_id items) as Hids.
  { clear -Hall. induction Hall as [|i o items os (id & Hi & Ho & _) _ IH]; [done|]. cbn [omap list_omap]. by rewrite Hi, Ho, IH. }
  assert (∀ o, o ∈ os → ∃ id i, (make_input i = Ok i ∧ bi_source_reference_id i = Some id) ∧
    stored_as a' id (bi_raw_mention_text i) o) as Hst.
  { intros o [k Ho]%list_elem_of_lookup. destruct (Forall2_lookup_r _ _ _ _ _ Hall Ho) as (i & Hi & id & Hid & Hx).
    rewrite Forall_lookup in Hvalid. destruct (Hvalid _ _ Hi). eauto 10. }
  split_and!; [done|by apply Forall2_length in Hall|done| |].
  - intros id (o & Ho & Hrt & Hoid)%elem_of_ids_where. destruct (Hst o Ho) as (id' & i & [Hi Hbi] & H1 & H2 & H3 & H4 & H5 & x & Hx & Hxid & Hxm & Hxe & Hmet).
    assert (id' = id) as -> by congruence. destruct (routes_of o H2 H3 H4) as [Hro _]. rewrite Hro in Hrt. to_prop.
    destruct (make_input_ok i id Hi Hbi) as [Hb1 Hb2]. split; [done|]. split; [done|]. exists x. rewrite Hxm.
    split_and!; try done; [congruence|]. rewrite Hmet. unfold make_result in H4. rewrite Hrt in H4. by destruct (mr_method (oc_result o)).
  - intros o Ho. destruct (Hst o Ho) as (id & i & Hi & H1 & H2 & H3 & H4 & _ & x & Hx & _ & _ & Hxe & _).
    exists id, x. split_and!; try done. destruct (routes_of o H2 H3 H4) as [Hro Hrs].
    assert (∀ q, id ∈ ids_where q os ↔ q o = true) as Hwhere.
    { intros q. rewrite elem_of_ids_where. split; [|by exists o]. intros (o' & Ho' & Hq' & Hid').
      rewrite <- Hids in Hnd. by rewrite (NoDup_omap_eq _ _ o o' id Hnd Ho Ho' H1 Hid'). }
    unfold resolved_reference_ids, manual_review_reference_ids.
    destruct (mr_resolved_entity_id (oc_result o)); rewrite !Hwhere, Hro, Hrs; done.
Qed.

End batch.
End BatchTheorems.

Module StockTheorems.
Import ReviewModel ReviewStores ResolutionModel Matcher Stocks Candidates.

Section stocks.
Context (group : string → option string) (rule_version : string) (now : Z).

Lemma prepare_records_ok records prepared :
  prepare_records group rule_version now records = (prepared, []) →
  Forall2 (λ r x, entity_of_record group now r = Some x.1) records prepared.
Proof.
  revert prepared. induction records as [|r records IH]; intros prepared; cbn [prepare_records]; [by intros [= <-]|].
  destruct (prepare_records group rule_version now records) as [good errors]. unfold prepare_record.
  destruct (entity_of_record group now r) as [e|] eqn:E; [|done]. intros [= <- ->]. constructor; [done|by apply IH].
Qed.

Lemma entity_of_record_id r e : entity_of_record group now r = Some e →
  generate_stock_entity_id (sb_ts_code r) = Some (ce_id e) ∧ validate_entity_id (ce_id e) = true.
Proof.
  unfold entity_of_record. intros (id & Hid & He)%bind_Some. unfold make_entity in He. cbn [ce_id] in He.
  destruct (validate_entity_id id) eqn:Hv; [|done]. destruct (_ || _ : bool) in He; [done|]. injection He as <-. done.
Qed.

(** ** Saving what is absent *)

Lemma save_entities_spec es s :
  let s' := fold_left save_entity_if_absent es s in
  (∀ id e, s.2 !! id = Some e → s'.2 !! id = Some e) ∧ (∀ e, e ∈ es → is_Some (s'.2 !! ce_id e)) ∧
  (∀ id e, s'.2 !! id = Some e → s.2 !! id = Some e ∨ e ∈ es ∧ ce_id e = id).
Proof.
  revert s. induction es as [|x es IH]; intros s; cbn zeta; cbn [fold_left].
  { split_and!; [done|by intros ? ?%not_elem_of_nil|by left]. }
  destruct (IH (save_entity_if_absent s x)) as (H1 & H2 & H3). unfold save_entity_if_absent in *.
  destruct (s.2 !! ce_id x) as [y|] eqn:E.
  - split_and!; [done| |].
    + intros e [->|He]%elem_of_cons; [exists y; by apply H1|by apply H2].
    + intros id e He. destruct (H3 id e He) as [|[]]; [by left|right]. split; [by right|done].
  - cbn [snd] in *. split_and!.
    + intros id e He. apply H1. rewrite lookup_insert_ne; [done|]. intros <-. congruence.
    + intros e [->|He]%elem_of_cons; [exists x; apply H1, lookup_insert_eq|by apply H2].
    + intros id e [Hl|[? ?]]%H3; [|right; split; [by right|done]].
      apply lookup_insert_Some in Hl as [[<- <-]|[_ Hl]]; [right; split; [left|done]|by left].
Qed.
Lemma save_entities_present es n m :
  (∀ e, e ∈ es → is_Some (m !! ce_id e)) → fold_left save_entity_if_absent es (n, m) = (n, m).
Proof.
  induction es as [|x es IH]; intros H; [done|]. cbn [fold_left]. unfold save_entity_if_absent at 2. cbn [snd fst].
  destruct (H x ltac:(left)) as [y ->]. apply IH. intros e He. apply H. by right.
Qed.

Lemma save_aliases_keys als s :
  let s' := fold_left save_alias_if_absent als s in
  semantic_keys s.2 ⊆ semantic_keys s'.2 ∧ ∀ a, a ∈ als → semantic_key a ∈ semantic_keys s'.2.
Proof.
  revert s. induction als as [|x als IH]; intros s; cbn zeta; cbn [fold_left]; [split; [done|by intros ? ?%not_elem_of_nil]|].
  destruct (IH (save_alias_if_absent s x)) as [H1 H2].
  assert (semantic_keys s.2 ⊆ semantic_keys (save_alias_if_absent s x).2 ∧
    semantic_key x ∈ semantic_keys (save_alias_if_absent s x).2) as [H3 H4].
  { unfold save_alias_if_absent, alias_save_if_absent. case_bool_decide; cbn; set_solver. }
  split; [set_solver|]. intros a [->|Ha]%elem_of_cons; [by apply H1|by apply H2].
Qed.
Lemma save_aliases_present als n s :
  (∀ a, a ∈ als → semantic_key a ∈ semantic_keys s) → fold_left save_alias_if_absent als (n, s) = (n, s).
Proof.
  induction als as [|x als IH]; intros H; [done|]. cbn [fold_left]. unfold save_alias_if_absent at 2, alias_save_if_absent.
  cbn [snd fst]. rewrite bool_decide_eq_true_2 by (apply H; left). apply IH. intros a Ha. apply H. by right.
Qed.

(** Initialization from a snapshot of stocks is all or nothing, complete and
    repeatable: with a record that is wrong it changes neither repository;
    otherwise it keeps the entities there were, every record's code, written
    with its exchange, is from then on resolved to its own entity, and running
    it again on the same snapshot creates nothing and changes nothing. *)
Theorem stocks_initialize_once records repos counts repos' :
  entities_ok repos.1 →
  initialize_from_stock_basic_into group rule_version now records repos = (counts, repos') →
  match counts.2 with
  | _ :: _ => repos' = repos ∧ counts.1 = (0%nat, 0%nat)
  | [] => entities_ok repos'.1 ∧ (∀ id e, repos.1 !! id = Some e → repos'.1 !! id = Some e) ∧
      (∀ r, r ∈ records → contains "." (strip (sb_ts_code r)) = true → validate_entity_id (strip (sb_ts_code r)) = false →
         ∃ e, deterministic_candidates repos'.1 repos'.2 (sb_ts_code r) = [e] ∧
           generate_stock_entity_id (sb_ts_code r) = Some (ce_id e)) ∧
      initialize_from_stock_basic_into group rule_version now records repos' = ((0%nat, 0%nat, []), repos')
  end.
Proof.
  intros Hok. unfold initialize_from_stock_basic_into.
  destruct (prepare_records group rule_version now records) as [prepared errors] eqn:Hp.
  destruct errors as [|x l]; [|by intros [= <- <-]].
  destruct (fold_left save_entity_if_absent _ _) as [n es] eqn:Ee.
  destruct (fold_left save_alias_if_absent _ _) as [k als] eqn:Ea. intros [= <- <-]. cbn [fst snd].
  pose proof (save_entities_spec (map fst prepared) (0%nat, repos.1)) as Hes. rewrite Ee in Hes. cbn in Hes.
  pose proof (save_aliases_keys (concat (map snd prepared)) (0%nat, repos.2)) as Has. rewrite Ea in Has. cbn in Has.
  destruct Hes as (Hkeep & Hin & Hfrom). destruct Has as [_ Hkeys]. apply prepare_records_ok in Hp as Hall.
  assert (∀ e, e ∈ map fst prepared → validate_entity_id (ce_id e) = true) as Hvalid.
  { intros e ([e' a] & -> & H)%list_elem_of_fmap. apply list_elem_of_lookup in H as [j Hj].
    destruct (Forall2_lookup_r _ _ _ _ _ Hall Hj) as (r & _ & Hr). by apply entity_of_record_id in Hr as [_ ?]. }
  split_and!.
  - intros id e [He|[He <-]]%Hfrom; [by apply (Hok id e)|auto].
  - done.
  - intros r [j Hj]%list_elem_of_lookup Hdot Hnot. destruct (Forall2_lookup_l _ _ _ _ _ Hall Hj) as (x & Hx & He).
    apply entity_of_record_id in He as [Hgen _]. destruct (Hin x.1) as [e Hl].
    { apply list_elem_of_fmap. exists x. split; [done|by eapply list_elem_of_lookup_2]. }
    exists e. assert (ce_id e = ce_id x.1) as Hid.
    { destruct (Hfrom _ _ Hl) as [Ho|[_ ?]]; [by destruct (Hok _ _ Ho)|done]. }
    split; [|by rewrite Hid]. unfold deterministic_candidates, rule_match. rewrite Hnot, Hdot.
    replace (is_empty (strip (sb_ts_code r))) with false by (by destruct (strip (sb_ts_code r))).
    unfold generate_stock_entity_id in Hgen |- *. rewrite strip_idemp. cbn zeta in *. cbn [negb].
    destruct (is_empty _); [done|]. destruct (code_text _); [|done]. injection Hgen as ->. unfold entity_list. by rewrite Hl.
  - rewrite save_entities_present, save_aliases_present by auto. done.
Qed.
End stocks.
End StockTheorems.

Module FuzzyTheorems.
Import ReviewModel ReviewStores ResolutionModel Matcher SimpleFuzzy Candidates.

Lemma keep_least_elem {K} `{EqDecision K} (key : FuzzyCandidate → K) best c x :
  x ∈ keep_least key best c → x ∈ best ∨ x = c.
Proof.
  induction best as [|b best IH]; cbn [keep_least]; [intros ->%list_elem_of_singleton; by right|].
  destruct (decide (key b = key c)).
  - destruct (key_ltb c b); set_solver.
  - set_solver.
Qed.
Lemma keep_least_keys {K} `{EqDecision K} (key : FuzzyCandidate → K) best c :
  NoDup (map key best) → NoDup (map key (keep_least key best c)) ∧
  ∀ k, k ∈ map key (keep_least key best c) ↔ k ∈ map key best ∨ k = key c.
Proof.
  induction best as [|b best IH]; cbn [keep_least map]; intros Hn.
  { split; [apply NoDup_singleton|]. set_solver. }
  apply NoDup_cons in Hn as [Hni Hn]. destruct (decide (key b = key c)) as [Hk|Hk].
  - assert (∀ x : FuzzyCandidate, x = (if key_ltb c b then c else b) → key x = key c) as E by (intros x ->; by destruct (key_ltb c b)).
    cbn [map]. rewrite (E _ eq_refl). split; [constructor; [by rewrite <- Hk|done]|].
    clear -Hk. intros k. rewrite !elem_of_cons. split; [intros [->|?]; auto|]. intros [[->|?]| ->]; auto.
  - cbn [map]. destruct (IH Hn) as [H1 H2]. split; [|intros k; rewrite !elem_of_cons, H2; tauto].
    constructor; [|done]. rewrite H2. by intros [Hx|Hx].
Qed.
Lemma fold_keep_least {K} `{EqDecision K} (key : FuzzyCandidate → K) cs best :
  NoDup (map key best) → NoDup (map key (fold_left (keep_least key) cs best)) ∧
  (∀ x, x ∈ fold_left (keep_least key) cs best → x ∈ best ∨ x ∈ cs) ∧
  (∀ k, k ∈ map key (fold_left (keep_least key) cs best) ↔ k ∈ map key best ∨ k ∈ map key cs).
Proof.
  revert best. induction cs as [|c cs IH]; intros best Hn; cbn [fold_left map].
  { split_and!; [done|by left|]. intros k. split; [by left|]. intros [Hk|Hk]; [done|by apply not_elem_of_nil in Hk]. }
  destruct (keep_least_keys key best c Hn) as [H1 H2]. destruct (IH _ H1) as (H3 & H4 & H5). split_and!; [done| |].
  - intros x [Hx|Hx]%H4; [|right; by right]. apply keep_least_elem in Hx as [?| ->]; [by left|right; left].
  - intros k. rewrite H5, H2, elem_of_cons. tauto.
Qed.

Lemma make_fuzzy_idemp x y : make_fuzzy x = Some y → make_fuzzy y = Some y.
Proof.
  unfold make_fuzzy, blank. intros H. destruct (_ && _ : bool) eqn:E in H; [|done]. injection H as <-. cbn [fc_id fc_alias_text fc_alias_type fc_score fc_source fc_blocking_key].
  rewrite !strip_idemp. by rewrite E.
Qed.

Lemma dedupe_elem cs n x : x ∈ dedupe_sort_and_limit cs n → x ∈ cs.
Proof.
  unfold dedupe_sort_and_limit. intros (j & Hj & _)%elem_of_take. apply list_elem_of_lookup_2, elem_of_py_sort in Hj.
  apply (fold_keep_least fc_id _ [] NoDup_nil_2) in Hj as [Hj|Hj]; [by apply not_elem_of_nil in Hj|].
  apply (fold_keep_least semantic_key_of _ [] NoDup_nil_2) in Hj as [Hj|Hj]; [by apply not_elem_of_nil in Hj|done].
Qed.

Section simple.
Context {T : SimilarityText} (entity_repo : gmap string CanonicalEntity) (alias_repo : alias_store) (min_score : spec_float).

Lemma alias_candidate_ok mention a c :
  alias_candidate entity_repo min_score mention a = Ok (Some c) →
  make_fuzzy c = Some c ∧ is_Some (entity_repo !! fc_id c) ∧ SFltb (fc_score c) min_score = false.
Proof.
  unfold alias_candidate. intros H. destruct (entity_repo !! _) eqn:Eent; [|done].
  destruct (_ && _ && _ && _ : bool); [done|]. destruct (SFltb _ min_score) eqn:Emin; [done|].
  destruct (make_fuzzy _) eqn:Em; [|done]. injection H as ->. split; [by eapply make_fuzzy_idemp|].
  unfold make_fuzzy in Em. destruct (_ && _ : bool) in Em; [|done]. injection Em as <-. cbn. eauto.
Qed.

(** The matcher over the alias table returns, for each entity that has an
    alias close enough to the mention, one candidate and no other: the
    candidates have distinct entities, which exist; they passed their
    validators and reach the minimum score; and there are no more of them than
    asked for, nor fewer while an entity is left out. *)
Theorem simple_matcher_is_sound auto mention context limit cs :
  generate_candidates (simple_matcher entity_repo alias_repo min_score auto) mention context limit = Ok cs →
  NoDup (map fc_id cs) ∧ (length cs <= limit)%nat ∧
  Forall (λ c, make_fuzzy c = Some c ∧ is_Some (entity_repo !! fc_id c) ∧ SFltb (fc_score c) min_score = false ∧
    ∃ a, a ∈ list_all_aliases alias_repo ∧ alias_candidate entity_repo min_score mention a = Ok (Some c)) cs ∧
  ((length cs < limit)%nat → ∀ a c, a ∈ list_all_aliases alias_repo →
     alias_candidate entity_repo min_score mention a = Ok (Some c) → fc_id c ∈ map fc_id cs).
Proof.
  cbn [generate_candidates simple_matcher]. unfold simple_candidates. destruct limit as [|limit].
  { intros [= <-]. split_and!; [constructor|done|constructor|]. intros ?%Nat.nlt_0_r. done. }
  intros H. apply rbind_ok in H as (found & Hf & [= <-]). apply rmap_list_ok in Hf.
  unfold dedupe_sort_and_limit.
  set (sem := fold_left _ (omap id found) []). set (ent := fold_left _ sem []). set (n := S limit).
  destruct (fold_keep_least semantic_key_of (omap id found) [] (NoDup_nil_2)) as (_ & Hs1 & Hs2). fold sem in Hs1, Hs2.
  destruct (fold_keep_least fc_id sem [] (NoDup_nil_2)) as (He0 & He1 & He2). fold ent in He0, He1, He2.
  set (sorted := py_sort _ ent). assert (sorted ≡ₚ ent) as Hp by apply py_sort_perm.
  assert (NoDup (map fc_id sorted)) as Hn by (by rewrite Hp).
  split_and!.
  - rewrite <- firstn_map. rewrite <- (take_drop n (map fc_id sorted)) in Hn. by apply NoDup_app in Hn as [? _].
  - rewrite length_take. lia.
  - apply list.Forall_forall. intros x Hx%(dedupe_elem (omap id found) n).
    apply list_elem_of_omap in Hx as (y & [j Hj]%list_elem_of_lookup & Hyx). cbn in Hyx. subst y.
    destruct (Forall2_lookup_r _ _ _ _ _ Hf Hj) as (a & Ha & Hax).
    destruct (alias_candidate_ok _ _ _ Hax) as (H1 & H2 & H3). split_and!; try done. exists a.
    split; [by eapply list_elem_of_lookup_2|done].
  - rewrite length_take. intros Hlt a c Ha Hc. rewrite take_ge by lia.
    rewrite Hp, He2. right. apply list_elem_of_lookup in Ha as [j Hj].
    destruct (Forall2_lookup_l _ _ _ _ _ Hf Hj) as (y & Hy & Hay). assert (y = Some c) as -> by congruence.
    assert (semantic_key_of c ∈ map semantic_key_of sem) as Hk.
    { rewrite Hs2. right. apply list_elem_of_fmap. exists c. split; [done|]. apply list_elem_of_omap. exists (Some c).
      split; [by eapply list_elem_of_lookup_2|done]. }
    apply list_elem_of_fmap in Hk as (z & Hz & Hzin). apply list_elem_of_fmap. exists z. split; [|done].
    unfold semantic_key_of in Hz. by injection Hz.
Qed.
End simple.

(** So the interface that resolution needs of a matcher holds of it. *)
Lemma simple_matcher_ok `{SimilarityText} entity_repo alias_repo min_score auto :
  matcher_ok (simple_matcher entity_repo alias_repo min_score auto).
Proof.
  intros q ctx n cs Hg. cbn in Hg. unfold simple_candidates in Hg. destruct n as [|n]; [by injection Hg as <-|].
  apply rbind_ok in Hg as (found & Hf & [= <-]). apply rmap_list_ok in Hf.
  apply list.Forall_forall. intros x Hx%dedupe_elem.
  apply list_elem_of_omap in Hx as (y & [k Hk]%list_elem_of_lookup & Hyx). cbn in Hyx. subst y.
  destruct (Forall2_lookup_r _ _ _ _ _ Hf Hk) as (a & _ & Ha). by apply alias_candidate_ok in Ha as [? _].
Qed.
End FuzzyTheorems.

(** ** Concrete runs *)
Module ResolutionExamples.
Import ReviewModel ReviewStores ReviewWorkflow ResolutionModel Matcher Resolve SimpleFuzzy Stocks Batch.
Import Candidates ResolutionTheorems BatchTheorems StockTheorems FuzzyTheorems.

#[local] Instance fields_parser : ResponseParser.
Proof.
  refine {| parse_fields d := Ok (mkResponse (match pget "selected_entity_id" d with Some (PStr s) => Some s | _ => None end)
      (match pget "confidence" d with Some (PFloat f) => Some f | _ => None end)
      (match pget "rationale" d with Some (PStr s) => s | _ => "" end));
    problems_text := join "; " |}.
Defined.
(** Texts are similar when they have the same first letter. *)
#[local] Instance first_letter : SimilarityText.
Proof.
  refine {| normalize_for_similarity := lower; casefold := lower; round6 f := f; sha1_prefix s := s;
    sequence_ratio a b := if String.eqb (prefix_of 1 a) (prefix_of 1 b) then float_ratio 9 10 else float_ratio 1 10 |}.
Defined.

Definition no_group (ts_code : string) : option string := None.
Definition stock (code name : string) : StockBasicRecord := mkStock code (prefix_of 6 code) name None None None "L".
Definition snapshot : list StockBasicRecord := [stock "000001.SZ" "Ping An"; stock "601318.SH" "Ping An"; stock "600519.SH" "Moutai"].
Definition no_aliases : alias_store := mkAliases ∅ ∅ ∅.
Definition initialized := initialize_from_stock_basic_into no_group "v1" 1 snapshot (∅, no_aliases).
Definition bank : string := "ENT_STOCK_000001.SZ".
Definition insurer : string := "ENT_STOCK_601318.SH".

Example initialized_counts : initialized.1 = (3%nat, 6%nat, []).
Proof. vm_compute. reflexivity. Qed.

(** The reasoner chooses the bank, with the given confidence. *)
Definition chooses_bank (confidence : spec_float) (req : LLMRequest) : reasoner_reply :=
  ReplyDict [(PStr "selected_entity_id", PStr bank); (PStr "confidence", PFloat confidence); (PStr "rationale", PStr "lending")].
Definition matcher : fuzzy_matcher := simple_matcher initialized.2.1 initialized.2.2 (float_ratio 4 5) (float_ratio 96 100).
Definition config (reasoner : option (LLMRequest → reasoner_reply)) : resolver_config :=
  mkConfig initialized.2.1 (Some matcher) None reasoner "v1".
Definition draw (n : nat) : draws :=
  mkDraws ("REF_" ++ pretty (N.of_nat n)) ("CASE_" ++ pretty (N.of_nat n)) (Z.of_nat n) (Z.of_nat n).
Definition boundary : audit_boundary := ReferenceRepo true true true true.
Definition resolve_with (reasoner : option (LLMRequest → reasoner_reply)) (mention : string) (existing : option string)
    (a : audit_store) := resolve_mention_with_repositories (λ a id, references a !! id) (config reasoner) initialized.2.2 boundary
      (draw 0) mention None existing true a.
Definition summary {A} (x : result resolution_error MentionResolutionResult * A) : option (option string * ResolutionMethod) :=
  match x.1 with Ok r => Some (mr_resolved_entity_id r, mr_method r) | Err _ => None end.
Definition empty_audit : audit_store := mkAudit ∅ ∅.

Example resolutions :
  (map (λ m, summary (resolve_with (Some (chooses_bank (float_ratio 9 10))) m None empty_audit))
     ["000001.SZ"; " 600519 "; "Ping An"; "ping a"; "x"],
   summary (resolve_with (Some (chooses_bank (float_ratio 7 10))) "Ping An" None empty_audit),
   summary (resolve_with None "Ping An" None empty_audit)) =
  ([Some (Some bank, DETERMINISTIC); Some (Some "ENT_STOCK_600519.SH", DETERMINISTIC); Some (Some bank, LLM);
    Some (Some bank, LLM); Some (None, UNRESOLVED)],
   Some (None, UNRESOLVED), Some (None, UNRESOLVED)).
Proof. vm_compute. reflexivity. Qed.

(** A score that is not a number passes the candidate's validator and not the
    request's: the call raises and records nothing, where any other failure of
    the matcher or the reasoner is recorded for manual review. *)
Definition nan_matcher : fuzzy_matcher :=
  mkFuzzyMatcher (λ _ _ _, Ok match make_fuzzy (mkFuzzy bank "Ping An" SHORT_NAME S754_nan "other" None) with
                              | Some c => [c] | None => [] end) None.
Example nan_score_escapes :
  (resolve_mention_with_repositories (λ a id, references a !! id)
     (mkConfig initialized.2.1 (Some (mkFuzzyMatcher (generate_candidates nan_matcher) (Some (float_ratio 96 100)))) None
        (Some (chooses_bank (float_ratio 9 10))) "v1") initialized.2.2 boundary (draw 0) "bank" None None false empty_audit).1 =
  Err RequestInvalid.
Proof. vm_compute. reflexivity. Qed.

Definition with_audit (a : audit_store) (g : registry) : registry := mkRegistry (entities g) a (aliases g) (reviews g).
(** A reference that a later run resolved is set back by the decision on its
    queue item: the rejection leaves it unresolved. *)
Example rejection_unresolves :
  let open := mkRegistry (dom initialized.2.1) (resolve_with None "Ping An" (Some "R") empty_audit).2 initialized.2.2 empty_review in
  match references (audit open) !! "R" with
  | Some r =>
      let queued := run_review_op (String.append "RQ_") "v1" open (OpEnqueue r 5) in
      let resolved := with_audit (resolve_with (Some (chooses_bank (float_ratio 9 10))) "Ping An" (Some "R") (audit queued)).2 queued in
      let reject := mkDecision None None "not the bank" false None in
      let final := (submit_manual_review_decision "v1" resolved "RQ_R" reject "CASE_9" 6 7 8).2 in
      (ref_resolved_entity_id <$> references (audit resolved) !! "R", ref_resolved_entity_id <$> references (audit final) !! "R")
      = (Some (Some bank), Some None)
  | None => False
  end.
Proof. vm_compute. reflexivity. Qed.

Lemma initialized_ok : entities_ok initialized.2.1.
Proof.
  intros id e H. apply elem_of_map_to_list in H.
  assert (Forall (λ kv, ce_id kv.2 = kv.1 ∧ validate_entity_id kv.1 = true) (map_to_list initialized.2.1)) as Hall
    by (vm_compute; repeat constructor).
  rewrite list.Forall_forall in Hall. apply (Hall (id, e) H).
Qed.
Lemma config_ok r : entities_ok (rc_entities (config r)).
Proof. exact initialized_ok. Qed.
Lemma draws_differ n m : new_case_id (draw n) = new_case_id (draw m) → n = m.
Proof. cbn [new_case_id draw]. intros H%(inj (String.append "CASE_"))%(inj pretty). lia. Qed.
Lemma item_id_text a : blank ("RQ_" ++ a) = false.
Proof.
  unfold blank, strip. change ("RQ_" ++ a) with (String "R" ("Q_" ++ a)). cbn [rstrip].
  by destruct (rstrip ("Q_" ++ a)).
Qed.

Definition asked := resolve_with (Some (chooses_bank (float_ratio 9 10))) "Ping An" None empty_audit.
Lemma asked_bank : summary asked = Some (Some bank, LLM).
Proof. vm_compute. reflexivity. Qed.
Lemma resolution_is_justified_witness :
  match asked.1 with
  | Ok res => mr_resolved_entity_id res = Some bank ∧ make_result res = Some res
  | Err _ => False
  end.
Proof.
  pose proof asked_bank as Hb. unfold summary in Hb. destruct asked as [[res|e] a'] eqn:E; cbn [fst] in *; [|discriminate].
  unfold asked, resolve_with in E.
  destruct (resolution_is_justified _ _ _ _ _ _ _ _ _ _ _ _ (config_ok _) E) as (c & d & kind & r & case & _ & Hres & _).
  split; [injection Hb as Hb _; exact Hb|exact Hres].
Defined.

Definition resolved_audit : audit_store := (resolve_with None "000001.SZ" (Some "R") empty_audit).2.
Definition again := resolve_with (Some (chooses_bank (float_ratio 9 10))) "Ping An" (Some "R") resolved_audit.
Lemma resolved_reference_is_final_witness :
  ∃ r, references resolved_audit !! "R" = Some r ∧ references again.2 !! "R" = Some r ∧ is_ok again.1 = false.
Proof.
  assert (∃ r, references resolved_audit !! "R" = Some r ∧ ref_resolved_entity_id r = Some bank) as (r & Hr & Hres)
    by (eexists; split; vm_compute; reflexivity).
  exists r. split; [exact Hr|]. destruct again as [out a'] eqn:E. unfold again, resolve_with in E.
  assert (ref_resolved_entity_id r ≠ None) as Hne by (rewrite Hres; discriminate).
  assert (new_reference_id (draw 0) ≠ "R") as Hid by discriminate.
  destruct (resolved_reference_is_final _ _ _ (draw 0) _ _ _ _ _ _ _ _ _ Hr Hne Hid E) as [H1 H2].
  split; [exact H1|exact (H2 eq_refl)].
Defined.

Lemma stocks_initialize_once_witness :
  initialized.1.2 = [] ∧ initialize_from_stock_basic_into no_group "v1" 1 snapshot initialized.2 = ((0%nat, 0%nat, []), initialized.2).
Proof.
  split; [vm_compute; reflexivity|].
  pose proof (stocks_initialize_once no_group "v1" 1 snapshot (∅, no_aliases) initialized.1 initialized.2
    ltac:(intros ? ? H; cbn in H; by rewrite lookup_empty in H) ltac:(apply surjective_pairing)) as H.
  replace (initialized.1.2) with (@nil string) in H by (vm_compute; reflexivity). apply H.
Defined.

Lemma simple_matcher_is_sound_witness :
  match generate_candidates matcher "ping a" None 10 with
  | Ok cs => map fc_id cs = [bank; insurer] ∧ NoDup (map fc_id cs)
  | Err _ => False
  end.
Proof.
  destruct (generate_candidates matcher "ping a" None 10) as [cs|e] eqn:E.
  - destruct (simple_matcher_is_sound initialized.2.1 initialized.2.2 (float_ratio 4 5) (float_ratio 96 100) "ping a" None 10 cs E) as [H _].
    split; [|exact H].
    assert (match generate_candidates matcher "ping a" None 10 with Ok cs => map fc_id cs = [bank; insurer] | Err _ => False end) as Hb
      by (vm_compute; reflexivity).
    by rewrite E in Hb.
  - assert (is_ok (generate_candidates matcher "ping a" None 10) = true) as Hb by (vm_compute; reflexivity). by rewrite E in Hb.
Defined.

(** A review repository that fails from its [n]th save on, before it stores. *)
Definition failing_store : Type := review_store * nat.
#[local] Instance failing_reviews : ReviewRepository failing_store :=
  {| find_by_reference ref s := (Ok (review_find s.1 ref), s);
     save_item i s := match s.2 with
       | O => (Err (WriterError "review save failed"), s)
       | S n => (Ok (), (review_save s.1 i, n)) end |}.
#[local] Instance failing_laws : ReviewRepositoryLaws failing_store.
Proof.
  refine {| repository_ok s := review_ok s.1; queued s := review_find s.1 |}.
  - intros ref s res s' Hs [= <- <-]. split_and!; [done|done|by intros o [= <-]].
  - intros i [s [|n]] res s' Hs Hown Hsave; cbn in Hsave; injection Hsave as <- <-.
    + split_and!; [done|done|by left|done].
    + exact (save_files i s (Ok ()) (review_save s i) Hs Hown eq_refl).
Defined.

Definition batch {R} `{ReviewRepository R} (references : list batch_reference) (s : R) :=
  batch_resolve_with_report (String.append "RQ_") (config None) draw (λ _, "error")
    (λ e, match e with WriterError m => "RuntimeError: " ++ m | _ => "error" end) initialized.2.2 references
    None ["R1"; "R9"] "JOB" (λ n, Z.of_nat n) empty_audit (Some s).
Definition mentions : list batch_reference :=
  [BText "Ping An"; BDict [(PStr "raw_mention_text", PStr "600519.SH"); (PStr "reference_id", PStr "R2")]].
Definition open_mentions : list batch_reference := [BText "Ping An"; BText "x"].

Example batch_report :
  match batch mentions empty_review with
  | (Ok r, (_, Some s)) => (br_resolved_reference_ids r, br_manual_review_reference_ids r,
                  ReviewModel.candidate_entity_ids <$> review_find s "R1", length (br_groups r)) =
                 (["R2"], ["R1"], Some [bank; insurer], 1%nat)
  | _ => False
  end.
Proof. vm_compute. reflexivity. Qed.
(** The second save fails: the report comes back, its job failed, and the first
    reference is in the queue. *)
Example enqueue_failure_is_reported :
  match batch open_mentions (empty_review, 1%nat) with
  | (Ok r, (_, Some s)) => (job_status (br_job r), br_errors r, br_manual_review_reference_ids r,
                  match review_find s.1 "R1" with Some _ => true | None => false end, review_find s.1 "R9") =
                 ("failed", ["manual review enqueue failed: RuntimeError: review save failed"], ["R1"; "R9"], true, None)
  | _ => False
  end.
Proof. vm_compute. reflexivity. Qed.

End ResolutionExamples.
