(* ===== verification/Numbers.v ===== *)
(** * Numbers: comparison of floats, sorting by tuples, [sum] and [int]

    What the graph algorithms use of Python's numbers beyond the arithmetic of
    [PyLib]: the comparisons of binary64 numbers, the tuples a list is sorted
    by, the compensated [sum] of floats, and [int(v)]. *)
From Stdlib Require Import String Ascii ZArith List SpecFloat.
From stdpp Require Import base gmap strings list sorting.
From S2P Require Import Prelude PyLib.
Local Open Scope string_scope.
Local Open Scope Z_scope.

Definition is_nan (f : spec_float) : bool := match f with S754_nan => true | _ => false end.
Definition float_one : spec_float := float_of_Z 1.

(** [float(s)] and [int(s)] of a string, and the [OverflowError], [TypeError]
    and [ValueError] of [int(v)]. *)
Class PyNumbers := {
  parse_float : string → option spec_float;
  parse_int : string → option Z;
}.

Definition truncate (s : bool) (m : positive) (e : Z) : Z :=
  let v := if 0 <=? e then Zpos m * 2 ^ e else Zpos m / 2 ^ (- e) in if s then - v else v.
Definition as_int `{PyNumbers} (v : pyval) : result float_error Z :=
  match v with
  | PInt z => Ok z
  | PBool b => Ok (if b then 1 else 0)
  | PFloat (S754_zero _) => Ok 0
  | PFloat (S754_finite s m e) => Ok (truncate s m e)
  | PFloat (S754_infinity _) => Err FloatOverflowError
  | PFloat S754_nan => Err FloatValueError
  | PStr s => match parse_int s with Some z => Ok z | None => Err FloatValueError end
  | _ => Err FloatTypeError
  end.

(** ** [sum] of floats, starting from the integer 0

    Since CPython 3.12 the additions are compensated (Neumaier): the loop keeps
    the running sum and the rounding errors it made. *)
Definition sum_step (acc : spec_float * spec_float) (x : spec_float) : spec_float * spec_float :=
  let '(s, c) := acc in
  let t := float_add s x in
  (t, if SFleb (SFabs x) (SFabs s) then float_add c (float_add (float_sub s t) x)
      else float_add c (float_add (float_sub x t) s)).
Definition sum_close (acc : spec_float * spec_float) : spec_float :=
  let '(s, c) := acc in
  if finite_float c && negb (SFeqb c float_zero) then float_add s c else s.
Definition float_sum (l : list spec_float) : pyval :=
  match l with
  | [] => PInt 0
  | x :: rest => PFloat (sum_close (fold_left sum_step rest (float_add float_zero x, float_zero)))
  end.

(** ** Sorting by tuples

    The components of the tuples the code sorts by; a [bool] is compared as the
    integer it is. [sorted] only asks whether one key is less than another. *)
Inductive atom := KFloat (f : spec_float) | KInt (z : Z) | KStr (s : string).
Abbreviation sort_key := (list atom).

Definition atom_eqb (x y : atom) : bool :=
  match x, y with
  | KFloat a, KFloat b => SFeqb a b
  | KInt a, KInt b => a =? b
  | KStr a, KStr b => String.eqb a b
  | _, _ => false
  end.
Definition atom_ltb (x y : atom) : bool :=
  match x, y with
  | KFloat a, KFloat b => SFltb a b
  | KInt a, KInt b => a <? b
  | KStr a, KStr b => negb (String.leb b a)
  | KFloat _, _ => true
  | KInt _, KStr _ => true
  | _, _ => false
  end.
Fixpoint tuple_ltb (a b : sort_key) : bool :=
  match a, b with
  | [], [] => false
  | [], _ => true
  | _, [] => false
  | x :: a', y :: b' => if atom_eqb x y then tuple_ltb a' b' else atom_ltb x y
  end.
Definition key_leb (a b : sort_key) : bool := negb (tuple_ltb b a).

(** [sorted(l, key=...)], with a key that can raise. *)
Definition sort_by {A} (key : A → sort_key) : list A → list A := py_sort (λ x y, key_leb (key x) (key y)).
Definition sort_by_result {E A} (key : A → result E sort_key) (l : list A) : result E (list A) :=
  let* keyed := rmap_list (λ x, let* k := key x in Ok (k, x)) l in
  Ok (map snd (sort_by fst keyed)).

(** *** The order of numbers that are not NaN *)

Definition float_rank (f : spec_float) : Z * Z * Z :=
  match f with
  | S754_nan => (3, 0, 0)
  | S754_infinity s => ((if s then -2 else 2), 0, 0)
  | S754_zero _ => (0, 0, 0)
  | S754_finite false m e => (1, e, Zpos m)
  | S754_finite true m e => (-1, - e, - Zpos m)
  end.
Definition triple_ltb (a b : Z * Z * Z) : bool :=
  (a.1.1 <? b.1.1) || ((a.1.1 =? b.1.1) && ((a.1.2 <? b.1.2) || ((a.1.2 =? b.1.2) && (a.2 <? b.2)))).
Definition triple_eqb (a b : Z * Z * Z) : bool := (a.1.1 =? b.1.1) && (a.1.2 =? b.1.2) && (a.2 =? b.2).

Lemma float_compare_rank a b :
  is_nan a = false → is_nan b = false →
  SFltb a b = triple_ltb (float_rank a) (float_rank b) ∧ SFeqb a b = triple_eqb (float_rank a) (float_rank b).
Proof.
  unfold SFltb, SFeqb, triple_ltb, triple_eqb.
  destruct a as [[]|[]| |[] m e], b as [[]|[]| |[] m' e']; try (by intros ? ?); intros _ _; split; try reflexivity;
  simpl; change (Pos.compare_cont Eq m m') with (Pos.compare m m');
  destruct (Z.compare_spec e e'), (Pos.compare_spec m m'); simpl; try change (m =? m')%positive with (Zpos m =? Zpos m'); lia.
Qed.

Definition atom_proper (x : atom) : bool := match x with KFloat f => negb (is_nan f) | _ => true end.
Abbreviation key_proper := (forallb atom_proper).

(** The same order with NaN as the greatest number. *)
Definition atom_ltb_total (x y : atom) : bool :=
  match x, y with
  | KFloat a, KFloat b => triple_ltb (float_rank a) (float_rank b)
  | _, _ => atom_ltb x y
  end.
Definition atom_eqb_total (x y : atom) : bool :=
  match x, y with
  | KFloat a, KFloat b => triple_eqb (float_rank a) (float_rank b)
  | _, _ => atom_eqb x y
  end.
Fixpoint tuple_ltb_total (a b : sort_key) : bool :=
  match a, b with
  | [], [] => false
  | [], _ => true
  | _, [] => false
  | x :: a', y :: b' => if atom_eqb_total x y then tuple_ltb_total a' b' else atom_ltb_total x y
  end.

Lemma tuple_ltb_agree a b : key_proper a = true → key_proper b = true → tuple_ltb a b = tuple_ltb_total a b.
Proof.
  revert b. induction a as [|x a IH]; intros [|y b]; simpl; try done.
  intros [Hx Ha]%andb_true_iff [Hy Hb]%andb_true_iff.
  rewrite (IH b Ha Hb). destruct x, y; simpl; try done.
  simpl in Hx, Hy. apply negb_true_iff in Hx, Hy. by destruct (float_compare_rank _ _ Hx Hy) as [-> ->].
Qed.

(** Of two components exactly one is less, or they are equal; "not less" is transitive. *)
Lemma atom_eqb_ltb x y : atom_eqb_total x y = negb (atom_ltb_total x y) && negb (atom_ltb_total y x).
Proof.
  destruct x as [f|z|s], y as [g|z'|s']; simpl; try done.
  - unfold triple_eqb, triple_ltb. lia.
  - lia.
  - rewrite !negb_involutive. destruct (String.eqb_spec s s') as [->|Hne].
    + symmetry. destruct (String.leb_total s' s') as [->| ->]; done.
    + symmetry. apply andb_false_iff. destruct (String.leb s' s) eqn:E; [|by left]. right.
      destruct (String.leb s s') eqn:E'; [|done]. exfalso. apply Hne. by apply (anti_symm String.le); apply Is_true_true.
Qed.

Lemma atom_asym x y : atom_ltb_total x y = true → atom_ltb_total y x = false.
Proof.
  destruct x as [f|z|s], y as [g|z'|s']; simpl; try done.
  - unfold triple_ltb. lia.
  - lia.
  - rewrite negb_true_iff, negb_false_iff. destruct (String.leb_total s s'); congruence.
Qed.

Lemma atom_neg_trans x y z :
  atom_ltb_total y x = false → atom_ltb_total z y = false → atom_ltb_total z x = false.
Proof.
  destruct x as [f|a|s], y as [g|b|s'], z as [h|c|s'']; simpl; try done.
  - unfold triple_ltb. lia.
  - lia.
  - rewrite !negb_false_iff. apply string_leb_trans.
Qed.

Lemma key_asym a b : tuple_ltb_total a b = true → tuple_ltb_total b a = false.
Proof.
  revert b. induction a as [|x a IH]; intros [|y b]; simpl; try done.
  rewrite !atom_eqb_ltb. pose proof (atom_asym x y). pose proof (IH b).
  destruct (atom_ltb_total x y) eqn:E, (atom_ltb_total y x) eqn:E'; simpl; naive_solver.
Qed.

Lemma key_neg_trans a b c : tuple_ltb_total b a = false → tuple_ltb_total c b = false → tuple_ltb_total c a = false.
Proof.
  revert b c. induction a as [|x a IH]; intros [|y b] [|z c]; simpl; try done.
  rewrite !atom_eqb_ltb. pose proof (atom_neg_trans x y z). pose proof (atom_neg_trans z x y).
  pose proof (atom_neg_trans y z x). pose proof (IH b c).
  pose proof (atom_asym x y). pose proof (atom_asym y z). pose proof (atom_asym x z).
  destruct (atom_ltb_total x y) eqn:E, (atom_ltb_total y x) eqn:E', (atom_ltb_total y z) eqn:F,
    (atom_ltb_total z y) eqn:F', (atom_ltb_total x z) eqn:G, (atom_ltb_total z x) eqn:G'; simpl; naive_solver.
Qed.

Lemma py_sort_agree {A} (leb leb' : A → A → bool) l :
  (∀ x y, x ∈ l → y ∈ l → leb x y = leb' x y) → py_sort leb l = py_sort leb' l.
Proof.
  induction l as [|x l IH]; intros Hl; [done|]. cbn [py_sort foldr]. unfold py_sort in IH.
  rewrite IH by (intros; apply Hl; by right).
  assert (∀ y, y ∈ foldr (sort_insert leb') [] l → leb x y = leb' x y) as Hx.
  { intros y Hy%elem_of_py_sort. apply Hl; [left|by right]. }
  revert Hx. generalize (foldr (sort_insert leb') [] l) as r.
  induction r as [|y r IHr]; intros Hx; [done|]. simpl.
  rewrite (Hx y) by left. rewrite IHr by (intros; apply Hx; by right). done.
Qed.

Definition keys_proper {A} (key : A → sort_key) (l : list A) : Prop := Forall (λ x, key_proper (key x) = true) l.

Lemma sort_by_total {A} (key : A → sort_key) l :
  keys_proper key l → sort_by key l = py_sort (λ x y, negb (tuple_ltb_total (key y) (key x))) l.
Proof.
  intros Hp. apply py_sort_agree. intros x y Hx Hy. unfold keys_proper in Hp. rewrite list.Forall_forall in Hp.
  unfold key_leb. rewrite tuple_ltb_agree; auto.
Qed.

Lemma sort_by_perm {A} (key : A → sort_key) l : sort_by key l ≡ₚ l.
Proof. apply py_sort_perm. Qed.

(** Without NaN among the keys the result is in order. *)
Lemma sort_by_sorted {A} (key : A → sort_key) l :
  keys_proper key l → StronglySorted (λ x y, key_leb (key x) (key y)) (sort_by key l).
Proof.
  intros Hp. pose proof (sort_by_perm key l) as Hperm.
  assert (keys_proper key (sort_by key l)) as Hp' by (unfold keys_proper in *; by rewrite Hperm).
  rewrite sort_by_total in Hp' |- * by done. revert Hp'.
  assert (StronglySorted (λ x y, negb (tuple_ltb_total (key y) (key x)))
    (py_sort (λ x y, negb (tuple_ltb_total (key y) (key x))) l)) as Hs.
  { apply (py_sort_sorted (λ x y, negb (tuple_ltb_total (key y) (key x)))).
    - intros x y. destruct (tuple_ltb_total (key y) (key x)) eqn:E; [|by left]. right. by rewrite key_asym.
    - intros x y z. rewrite !negb_true_iff. eauto using key_neg_trans. }
  induction Hs as [|x r Hr IH Hx]; intros Hp'; constructor.
  - apply IH. by inversion Hp'.
  - unfold keys_proper in Hp'. apply Forall_cons in Hp' as [Hpx Hpr]. rewrite list.Forall_forall in Hx, Hpr |- *.
    intros y Hy. unfold key_leb. rewrite tuple_ltb_agree by auto. by apply Hx.
Qed.

(** Two lists of the same elements whose keys all differ sort alike. *)
Lemma sort_by_perm_eq {A} (key : A → sort_key) l l' :
  keys_proper key l → (∀ x y, x ∈ l → y ∈ l → key_leb (key x) (key y) = true → key_leb (key y) (key x) = true → x = y) →
  l ≡ₚ l' → sort_by key l = sort_by key l'.
Proof.
  intros Hp Hinj Hperm. apply (StronglySorted_unique_strong (λ x y, key_leb (key x) (key y))).
  - intros x y Hx Hy Hxy Hyx. unfold sort_by in Hx, Hy. apply elem_of_py_sort in Hx, Hy.
    rewrite <- Hperm in Hy. apply Hinj; auto; by apply Is_true_true.
  - by apply sort_by_sorted.
  - apply sort_by_sorted. unfold keys_proper. by rewrite <- Hperm.
  - by rewrite !sort_by_perm.
Qed.

(** A fallible key, where it is defined. *)
Definition key_or_empty {E} (r : result E sort_key) : sort_key := match r with Ok k => k | Err _ => [] end.

Lemma sort_keyed {A} (key : A → sort_key) l :
  map snd (sort_by fst (map (λ x, (key x, x)) l)) = sort_by key l.
Proof.
  unfold sort_by. induction l as [|x l IH]; [done|]. cbn [map py_sort foldr]. unfold py_sort in IH. rewrite <- IH.
  assert (∀ y, y ∈ foldr (sort_insert (λ a b : sort_key * A, key_leb a.1 b.1)) [] (map (λ x, (key x, x)) l) →
    y.1 = key y.2) as Hk.
  { intros y Hy%elem_of_py_sort. by apply list_elem_of_fmap in Hy as (z & -> & _). }
  revert Hk. generalize (foldr (sort_insert (λ a b : sort_key * A, key_leb a.1 b.1)) [] (map (λ x, (key x, x)) l)) as r.
  induction r as [|y r IHr]; intros Hk; [done|]. cbn [sort_insert map]. rewrite (Hk y) by left. cbn [fst].
  destruct (key_leb (key x) (key y.2)); [done|]. cbn [map]. rewrite IHr; [done|]. intros z Hz. apply Hk. by right.
Qed.

Lemma sort_by_result_sort {E A} (key : A → result E sort_key) (l l' : list A) :
  sort_by_result key l = Ok l' ↔
  Forall (λ x, is_ok (key x) = true) l ∧ l' = sort_by (λ x, key_or_empty (key x)) l.
Proof.
  unfold sort_by_result. rewrite rbind_ok, <- sort_keyed. split.
  - intros (keyed & Hk%rmap_list_ok & [= <-]).
    assert (Forall (λ x, is_ok (key x) = true) l ∧ keyed = map (λ x, (key_or_empty (key x), x)) l) as [? ->]; [|done].
    induction Hk as [|x kx l keyed Hx _ [? ->]]; [by split; [constructor|]|].
    apply rbind_ok in Hx as (k & Hx & [= <-]). cbn [map]. rewrite Hx. split; [constructor; [by rewrite Hx|done]|done].
  - intros [Hk ->]. eexists. split; [|done]. apply rmap_list_ok.
    induction Hk as [|x l Hx _ IH]; cbn [map]; constructor; [|done]. by destruct (key x).
Qed.

Lemma sort_by_result_perm {E A} (key : A → result E sort_key) (l l' : list A) :
  sort_by_result key l = Ok l' → l' ≡ₚ l.
Proof.
  intros [_ ->]%sort_by_result_sort. apply sort_by_perm.
Qed.

(** The first [n] in order are no worse than the rest. *)
Lemma sort_take_best {A} (key : A → sort_key) l n x y :
  keys_proper key l → x ∈ take n (sort_by key l) → y ∈ drop n (sort_by key l) → key_leb (key x) (key y) = true.
Proof.
  intros Hp Hx Hy. pose proof (sort_by_sorted key l Hp) as Hs.
  rewrite <- (take_drop n (sort_by key l)) in Hs. apply StronglySorted_app in Hs as (Hs & _ & _).
  by apply Is_true_true, Hs.
Qed.

Lemma sort_take_sorted {A} (key : A → sort_key) l n :
  keys_proper key l → StronglySorted (λ x y, key_leb (key x) (key y)) (take n (sort_by key l)).
Proof.
  intros Hp. pose proof (sort_by_sorted key l Hp) as Hs.
  rewrite <- (take_drop n (sort_by key l)) in Hs. by apply StronglySorted_app in Hs as (_ & Hs & _).
Qed.

(** ** Grouping in a dictionary

    The loop [for x in l: d[key(x)] = step(d.get(key(x), init(x)), x)], which
    skips what has no key. *)
Section grouping.
Context {A B : Type} (key : A → option string) (init : A → B) (step : B → A → B).

Definition group_step (d : pydict B) (x : A) : pydict B :=
  match key x with
  | None => d
  | Some k => dset k (step (default (init x) (dget k d)) x) d
  end.
Definition group_all (l : list A) : pydict B := fold_left group_step l [].

(** Keys in the order of their first occurrence; the elements of a key; what
    they amount to, taken alone. *)
Definition first_seen (l : list string) : list string :=
  fold_left (λ acc k, if bool_decide (k ∈ acc) then acc else acc ++ [k])%list l [].
Definition group_of (k : string) (l : list A) : list A := filter (λ x, key x = Some k) l.
Definition group_value (g : list A) : option B :=
  match g with [] => None | x :: _ => Some (fold_left step g (init x)) end.

Lemma first_seen_snoc l k :
  first_seen (l ++ [k])%list = if bool_decide (k ∈ first_seen l) then first_seen l else (first_seen l ++ [k])%list.
Proof. unfold first_seen. by rewrite fold_left_app. Qed.

Lemma group_value_snoc g x :
  group_value (g ++ [x])%list = Some (step (default (init x) (group_value g)) x).
Proof. destruct g as [|y g]; [done|]. simpl. by rewrite fold_left_app. Qed.

Lemma group_all_spec l :
  dkeys (group_all l) = first_seen (omap key l) ∧ ∀ k, dget k (group_all l) = group_value (group_of k l).
Proof.
  induction l as [|x l [IHk IHv]] using rev_ind; [done|].
  unfold group_all in *. rewrite fold_left_app, omap_app. simpl. unfold group_step at 1 3.
  unfold group_of. destruct (key x) as [kx|] eqn:E.
  - split.
    + rewrite first_seen_snoc, dkeys_dset, <- IHk.
      destruct (dhas kx _) eqn:Eh; [|rewrite bool_decide_eq_false_2; [done|]].
      * rewrite bool_decide_eq_true_2; [done|]. by apply dhas_true.
      * intros Hin%dhas_true. congruence.
    + intros k. rewrite dget_dset, filter_app. destruct (String.eqb_spec k kx) as [->|Hne].
      * rewrite (filter_cons_True _ x []) by done. rewrite filter_nil, group_value_snoc. by rewrite IHv.
      * rewrite (filter_cons_False _ x []), filter_nil, app_nil_r by congruence. apply IHv.
  - rewrite app_nil_r. split; [done|]. intros k. rewrite filter_app, IHv.
    rewrite (filter_cons_False _ x []), filter_nil, app_nil_r by congruence. done.
Qed.

Lemma NoDup_first_seen l : NoDup (first_seen l).
Proof.
  induction l as [|k l IH] using rev_ind; [constructor|]. rewrite first_seen_snoc.
  case_bool_decide as Hk; [done|]. apply NoDup_app. split_and!; [done| |apply NoDup_singleton].
  by intros k' Hk' ->%list_elem_of_singleton.
Qed.

Lemma elem_of_first_seen l k : k ∈ first_seen l ↔ k ∈ l.
Proof.
  induction l as [|k' l IH] using rev_ind; [done|]. rewrite first_seen_snoc.
  case_bool_decide as Hk; rewrite ?elem_of_app, ?list_elem_of_singleton, IH; [|done].
  split; [by left|]. intros [?| ->]; [done|]. by apply IH.
Qed.

(** Its values, in order. *)
Lemma group_all_values l :
  map snd (group_all l) = omap (λ k, group_value (group_of k l)) (first_seen (omap key l)).
Proof.
  destruct (group_all_spec l) as [Hk Hv].
  assert (NoDup (dkeys (group_all l))) as Hn by (rewrite Hk; apply NoDup_first_seen).
  rewrite <- Hk. clear Hk.
  assert (∀ k b, (k, b) ∈ group_all l → group_value (group_of k l) = Some b) as Hval.
  { intros k b Hin. rewrite <- Hv. by apply elem_of_dget. }
  clear Hv Hn. revert Hval. generalize (group_all l) as d. induction d as [|[k b] d IH]; intros Hval; [done|].
  simpl. rewrite (Hval k b) by left. f_equal. apply IH. intros k' b' Hin. apply Hval. by right.
Qed.
End grouping.
