(* ===== verification/Client.v ===== *)
(** * Client: the graph database as its readers use it

    The calls of [graph_engine/client.py] that readers make, as the class
    [Neo4jClient] of a state the queries run against; programs over it as
    functions from the state to a result and a state; and
    [propagation/_gds.py], the projections of the Graph Data Science catalog,
    whose documented behaviour is the class [GdsCatalog]. Queries are the texts
    the code sends, with [`] for a double quote. *)
From Stdlib Require Import String Ascii ZArith List SpecFloat.
From stdpp Require Import base gmap strings list.
From S2P Require Import Prelude PyLib Numbers GraphStatus Promotion Programs.
Import StatusModel.
Local Open Scope string_scope.
Local Open Scope Z_scope.

Inductive graph_error :=
| ClientRaised (message : string)
| GdsNotAvailable
| GdsProbeField (probe field : string)
| StatusRaised (e : status_error)
| NoStatusManager (operation : string)
| ChannelNotEnabled (channel : string)
| NonPositiveIterations
| NonPositiveResultLimit
| GenerationMismatch (context status : Z)
| BadNumber (e : float_error)
| BadEvidenceRef
| BadContext
| BadResult
| NegativeMultiplier (field : string)
| NotNumericMultiplier (field : string)
| ContextNotReady (state : GraphState)
| UnknownPropagationChannel (channel : string)
| NoResults
| MixedCycles
| MixedGenerations
| BreakdownMissing (channel : string)
| NoChannel
| PayloadChannelMissing
| PayloadChannelUnknown (channel : string)
| ExplanationNotMapping
| ExplanationIncomplete (keys : list string)
| EntityWithoutId
| BadSeedEntities
| BadDepth
| BadChannels
| UnsafeProjectionName
| ProjectionNameMissing
| ProjectionExists (name : string)
| ProjectionNotOwned
| ProjectionNotCreated
| DropNotScoped
| WriteForbidden
| PathChannelUnresolved
| RequestKeyError (channel : string)
| RequestInvalid.

(** [str(exc)] of what can reach a caller of the client. *)
Definition error_message (e : graph_error) : string :=
  match e with
  | ClientRaised m => m
  | GdsNotAvailable => "GDS plugin not available"
  | ProjectionNameMissing => "GDS projection calls require graph_name"
  | ProjectionExists n => "GDS projection name already exists: " ++ n
  | ProjectionNotOwned => "readonly simulation can only manage projections owned by this invocation"
  | ProjectionNotCreated => "readonly simulation cannot drop a projection it did not create"
  | DropNotScoped => "readonly simulation only permits scoped GDS projection drop"
  | WriteForbidden => "readonly simulation only permits GDS projection writes"
  | PathChannelUnresolved => "readonly simulation activated-path reads require a resolvable channel"
  | _ => ""
  end.

(** Programs over a client. *)
Abbreviation prog := (program graph_error).

Class Neo4jClient (W : Type) := {
  execute_read : string → pdict → prog W (list pdict);
  execute_write : string → pdict → prog W (list pdict);
}.

(** ** The texts *)

Definition cypher (s : string) : string := replace_char "`" (ascii_of_nat 34) s.
Definition exists_query : string := "CALL gds.graph.exists($graph_name) YIELD exists RETURN exists".
Definition drop_query : string := "CALL gds.graph.drop($graph_name) YIELD graphName RETURN graphName".
Definition version_query : string := "CALL gds.version() YIELD gdsVersion RETURN gdsVersion".
Definition named (name : string) : pdict := [(PStr "graph_name", PStr name)].

(** ** [_gds.py] *)
Section gds.
Context {W : Type} `{Neo4jClient W}.

Definition is_missing_gds_error (e : graph_error) : bool :=
  let message := lower (error_message e) in
  contains "gds." message &&
  existsb (λ m, contains m message)
    ["no procedure"; "no function"; "not registered"; "unknown procedure"; "unknown function";
     "procedure not found"; "function not found"].
Definition gds_error (e : graph_error) : graph_error :=
  if is_missing_gds_error e then GdsNotAvailable else e.

Definition execute_gds_read (query : string) (parameters : pdict) : prog W (list pdict) :=
  map_raise gds_error (execute_read query parameters).
Definition execute_gds_write (query : string) (parameters : pdict) : prog W (list pdict) :=
  map_raise gds_error (execute_write query parameters).

(** [rows[0].get(field) if rows else None] *)
Definition first_field (field : string) (rows : list pdict) : option pyval :=
  match rows with row :: _ => pget field row | [] => None end.
Definition says_exists (rows : list pdict) : bool :=
  match first_field "exists" rows with Some (PBool true) => true | _ => false end.

Definition drop_projection_if_exists (name : string) : prog W () :=
  let! rows := execute_gds_read exists_query (named name) in
  if says_exists rows then let! _ := execute_gds_write drop_query (named name) in ret () else ret ().

Definition required_string_field (rows : list pdict) (field probe : string) : result graph_error string :=
  match first_field field rows with
  | Some (PStr s) => raise_if is_empty s with GdsProbeField probe field; Ok s
  | _ => Err (GdsProbeField probe field)
  end.
Definition required_bool_field (rows : list pdict) (field probe : string) : result graph_error bool :=
  match first_field field rows with Some (PBool b) => Ok b | _ => Err (GdsProbeField probe field) end.

Record GDSAvailability := mkAvailability { gds_version : string; graph_exists_procedure_available : bool }.
Definition probe_gds_availability : prog W GDSAvailability :=
  let! versions := execute_gds_read version_query [] in
  let! version := lift (required_string_field versions "gdsVersion" "gds.version") in
  let! rows := execute_gds_read exists_query (named "__graph_engine_gds_probe__") in
  let! _ := lift (required_bool_field rows "exists" "gds.graph.exists") in
  ret (mkAvailability version true).
End gds.

(** ** What GDS promises of its catalog

    Only [gds.graph.project] and [gds.graph.drop] change the catalog, each under
    the name it is given and whether or not the call returns; [gds.graph.exists]
    tells whether a name is in it. *)
Definition leaves_catalog (query : string) : bool :=
  negb (contains "gds.graph.project" query) && negb (contains "gds.graph.drop" query).

Class GdsCatalog (W : Type) `{Neo4jClient W} (catalog : W → gset string) := {
  read_keeps query parameters w :
    leaves_catalog query = true → catalog (execute_read query parameters w).2 = catalog w;
  exists_answers name w rows w' :
    execute_read exists_query (named name) w = (Ok rows, w') →
    says_exists rows = bool_decide (name ∈ catalog w);
  drop_named name w rows w' :
    execute_write drop_query (named name) w = (Ok rows, w') → catalog w' = catalog w ∖ {[name]};
  drop_failed name w e w' :
    execute_write drop_query (named name) w = (Err e, w') →
    catalog w' = catalog w ∨ catalog w' = catalog w ∖ {[name]};
  project_named query parameters name w r w' :
    contains "gds.graph.project" query = true → contains "gds.graph.drop" query = false →
    pget "graph_name" parameters = Some (PStr name) →
    execute_write query parameters w = (r, w') →
    catalog w' = catalog w ∨ catalog w' = {[name]} ∪ catalog w;
}.

(** Two catalogs that agree but for one name. *)
Definition same_but (name : string) (c c' : gset string) : Prop := ∀ n, n ≠ name → n ∈ c ↔ n ∈ c'.

#[export] Instance same_but_equivalence name : Equivalence (same_but name).
Proof.
  split; unfold same_but.
  - done.
  - intros c c' H n Hn. symmetry. auto.
  - intros c1 c2 c3 H1 H2 n Hn. rewrite H1 by done. auto.
Qed.

Section catalog.
Context `{GdsCatalog W catalog}.
Implicit Types (w : W) (name : string).

Lemma gds_read_keeps query parameters w r w' :
  leaves_catalog query = true → execute_gds_read query parameters w = (r, w') → catalog w' = catalog w.
Proof.
  intros Hq E. replace w' with (execute_gds_read query parameters w).2 by by rewrite E.
  unfold execute_gds_read. rewrite map_raise_state. by apply read_keeps.
Qed.

Lemma gds_project_named query parameters name w r w' :
  contains "gds.graph.project" query = true → contains "gds.graph.drop" query = false →
  pget "graph_name" parameters = Some (PStr name) →
  execute_gds_write query parameters w = (r, w') → same_but name (catalog w) (catalog w').
Proof.
  unfold execute_gds_write, map_raise. destruct (execute_write query parameters w) as [r1 w1] eqn:E.
  intros Hq Hd Hn [= _ <-]. destruct (project_named _ _ _ _ _ _ Hq Hd Hn E) as [-> | ->]; [done|].
  intros n Hne. set_solver.
Qed.

Lemma exists_leaves : leaves_catalog exists_query = true.
Proof. reflexivity. Qed.

(** The drop removes the name or raises; no other name is touched. *)
Lemma drop_projection_spec name w r w' :
  drop_projection_if_exists name w = (r, w') →
  same_but name (catalog w) (catalog w') ∧ (is_ok r = true → catalog w' = catalog w ∖ {[name]}).
Proof.
  unfold drop_projection_if_exists. intros [(rows & w1 & Hr & Hk)|(e & Hr & ->)]%pbind_cases.
  - pose proof (gds_read_keeps _ _ _ _ _ exists_leaves Hr) as Hc.
    apply map_raise_ok in Hr. apply exists_answers in Hr. rewrite Hr in Hk.
    case_bool_decide as Hin; [|injection Hk as <- <-; rewrite Hc; split; [done|intros _; set_solver]].
    apply pbind_cases in Hk as [(u & w2 & Hd & [= <- <-])|(e & Hd & ->)].
    + apply map_raise_ok, drop_named in Hd. rewrite Hd, Hc. split; [intros n Hn; set_solver|done].
    + split; [|done]. unfold execute_gds_write, map_raise in Hd.
      destruct (execute_write drop_query (named name) w1) as [[?|e1] w2] eqn:E; [done|]. injection Hd as _ <-.
      destruct (drop_failed _ _ _ _ E) as [-> | ->]; rewrite Hc; [done|intros n Hn; set_solver].
  - split; [|done]. by rewrite (gds_read_keeps _ _ _ _ _ exists_leaves Hr).
Qed.
End catalog.
