(* ===== verification/Propagation.v ===== *)
(** * Propagation: scored paths per channel

    [graph_engine/propagation]: [Channels] is [channels.py], [Scoring] is
    [scoring.py], [PropagationModel] the records of [models.py] and
    [context.py], and [Runner] the one program that [fundamental.py],
    [event.py] and [reflexive.py] each spell out for their channel. The merging
    of results is in [Merge]. Payloads are dictionaries; where the code builds
    one with fixed keys a record is used and rendered at the end. *)
From Stdlib Require Import String Ascii ZArith List SpecFloat.
From stdpp Require Import base gmap strings list sorting pretty.
From S2P Require Import Prelude PyLib Numbers GraphStatus Promotion Programs Client.
Import StatusModel Evidence PromotionModel.
Local Open Scope string_scope.
Local Open Scope Z_scope.

Module Channels.

(** [PROPAGATION_CHANNELS_BY_RELATIONSHIP_TYPE] *)
Definition propagation_channels : pydict (list string) :=
  [("SUPPLY_CHAIN", ["fundamental"]); ("OWNERSHIP", ["fundamental"]); ("INDUSTRY_CHAIN", ["fundamental"]);
   ("SECTOR_MEMBERSHIP", ["fundamental"]); ("EVENT_IMPACT", ["event"]); ("CO_HOLDING", ["reflexive"]);
   ("NORTHBOUND_HOLD", ["event"; "reflexive"])].
Definition allowed_channels : list string := ["fundamental"; "event"; "reflexive"].
Definition explicit_keys : list string := ["propagation_channel"; "channel"; "impact_channel"].

Definition default_channel : pydict string := omap (λ tc, match tc.2 with c :: _ => Some (tc.1, c) | [] => None end) propagation_channels.
Definition relationship_types_for_channel (c : string) : list string :=
  map fst (filter (λ tc, c ∈ tc.2) propagation_channels).

Definition quoted (s : string) : string := "`" ++ s ++ "`".
Definition cypher_string_list (values : list string) : string := "[" ++ join ", " (map quoted values) ++ "]".
Definition default_channel_case_expression (v : string) : string :=
  "CASE type(" ++ v ++ ") " ++
  join " " (map (λ tc, "WHEN " ++ quoted tc.1 ++ " THEN " ++ quoted tc.2) default_channel) ++ " ELSE null END".
Definition effective_channel_expression (v : string) : string :=
  "coalesce(" ++ v ++ ".propagation_channel, " ++ v ++ ".channel, " ++ v ++ ".impact_channel, " ++
  default_channel_case_expression v ++ ")".
Definition effective_channel_selector (c v : string) : string :=
  let types := relationship_types_for_channel c in
  let by_type := match types with [] => "false" | _ => "type(" ++ v ++ ") IN " ++ cypher_string_list types end in
  let absent := join " AND " (map (λ p, v ++ "." ++ p ++ " IS NULL") explicit_keys) in
  cypher ("(" ++ effective_channel_expression v ++ " = " ++ quoted c ++ " OR (" ++ absent ++ " AND " ++ by_type ++ "))").

(** What the selector selects: a property that is absent is null, [coalesce]
    takes the first that is not, and null equals nothing. *)
Definition cypher_value (k : string) (properties : pdict) : option pyval :=
  match pget k properties with Some PNone | None => None | Some v => Some v end.
Definition explicit_channel (properties : pdict) : option pyval := head (omap (λ k, cypher_value k properties) explicit_keys).
Definition effective_channel (type : string) (properties : pdict) : option pyval :=
  match explicit_channel properties with
  | Some v => Some v
  | None => PStr <$> dget type default_channel
  end.
Definition is_channel (c : string) (v : option pyval) : bool :=
  match v with Some (PStr s) => String.eqb s c | _ => false end.
Definition selects (c type : string) (properties : pdict) : bool :=
  is_channel c (effective_channel type properties) ||
  (match explicit_channel properties with None => true | Some _ => false end &&
   bool_decide (type ∈ relationship_types_for_channel c)).
End Channels.

Module Scoring.
Definition compute_path_score (relation_weight evidence_confidence channel_multiplier regime_multiplier recency_decay : spec_float)
    : spec_float :=
  float_mul (float_mul (float_mul (float_mul relation_weight evidence_confidence) channel_multiplier) regime_multiplier)
    recency_decay.

Record explanation := mkExplanation {
  relation_weight : spec_float;
  evidence_confidence : spec_float;
  channel_multiplier : spec_float;
  regime_multiplier : spec_float;
  recency_decay : spec_float;
}.
Definition explained_score (x : explanation) : spec_float :=
  compute_path_score (relation_weight x) (evidence_confidence x) (channel_multiplier x) (regime_multiplier x)
    (recency_decay x).
(** [build_score_explanation] *)
Definition explanation_payload (x : explanation) : pdict :=
  [(PStr "relation_weight", PFloat (relation_weight x)); (PStr "evidence_confidence", PFloat (evidence_confidence x));
   (PStr "channel_multiplier", PFloat (channel_multiplier x)); (PStr "regime_multiplier", PFloat (regime_multiplier x));
   (PStr "recency_decay", PFloat (recency_decay x)); (PStr "score", PFloat (explained_score x))].
End Scoring.

Module PropagationModel.
Import Channels.

Record PropagationContext := mkContext {
  cx_cycle_id : string;
  world_state_ref : string;
  cx_generation_id : Z;
  enabled_channels : list string;
  channel_multipliers : pydict spec_float;
  regime_multipliers : pydict spec_float;
  decay_policy : pdict;
  regime_context : pdict;
}.
Record PropagationResult := mkResult {
  pr_cycle_id : string;
  pr_generation_id : Z;
  activated_paths : list pdict;
  impacted_entities : list pdict;
  channel_breakdown : pdict;
}.

Definition required {A} (e : graph_error) (o : option A) : result graph_error A :=
  match o with Some a => Ok a | None => Err e end.

(** [dict[str, float]] of floats. *)
Definition float_dict (d : pydict spec_float) : pydict spec_float :=
  fold_left (λ acc kv, dset (strip kv.1) kv.2 acc) d [].

(** [_validate_enabled_channels] and the types of the field *)
Definition channels_ok (cs : list string) : bool :=
  negb (bool_decide (cs = [])) && forallb (λ c, bool_decide (c ∈ allowed_channels)) cs && bool_decide (NoDup cs).

Definition make_context (cycle ws : string) (generation : Z) (cs : list string)
    (cm rm : pydict spec_float) (decay regime : pdict) : result graph_error PropagationContext :=
  let* cycle' := required BadContext (text (PStr cycle)) in
  let* ws' := required BadContext (text (PStr ws)) in
  raise_if generation <? 0 with BadContext;
  raise_if negb (channels_ok cs) with BadContext;
  let* decay' := required BadContext (any_dict (PDict decay)) in
  let* regime' := required BadContext (any_dict (PDict regime)) in
  Ok (mkContext cycle' ws' generation cs (float_dict cm) (float_dict rm) decay' regime').

Definition validated_result (cycle : string) (generation : Z) (paths entities : list pdict) (breakdown : pdict)
    : result graph_error PropagationResult :=
  let* cycle' := required BadResult (text (PStr cycle)) in
  raise_if generation <? 0 with BadResult;
  let* paths' := rmap_list (λ p, required BadResult (any_dict (PDict p))) paths in
  let* entities' := rmap_list (λ p, required BadResult (any_dict (PDict p))) entities in
  let* breakdown' := required BadResult (any_dict (PDict breakdown)) in
  Ok (mkResult cycle' generation paths' entities' breakdown').

(** *** [context.py] *)
Section context.
Context `{PyNumbers}.

Definition as_non_negative_float (v : pyval) (field : string) : result graph_error spec_float :=
  match as_float parse_float v with
  | Ok f => raise_if SFltb f float_zero with NegativeMultiplier field; Ok f
  | Err FloatOverflowError => Err (BadNumber FloatOverflowError)
  | Err _ => Err (NotNumericMultiplier field)
  end.
Definition context_multiplier (regime : pdict) (key c : string) : result graph_error spec_float :=
  match pget key regime with
  | Some (PDict m) => as_non_negative_float (default (PFloat float_one) (pget c m)) key
  | _ => Ok float_one
  end.
Definition context_mapping (regime : pdict) (key : string) : pdict :=
  match pget key regime with Some (PDict m) => m | _ => [] end.
Definition multipliers_for (regime : pdict) (key : string) (cs : list string) : result graph_error (pydict spec_float) :=
  rfold (λ acc c, let* m := context_multiplier regime key c in Ok (dset c m acc)) [] cs.

(** [build_propagation_context]; [regime] is what the reader returns. *)
Definition build_propagation_context (cycle ws : string) (generation : Z) (status : option Neo4jGraphStatus)
    (cs : option (list string)) (regime : result graph_error pdict) : result graph_error PropagationContext :=
  let* _ := match status with
    | Some st => guard_err (negb (bool_decide (graph_status st = Ready))) (ContextNotReady (graph_status st))
    | None => Ok ()
    end in
  let requested := default ["fundamental"] cs in
  let* regime := regime in
  let* cm := multipliers_for regime "channel_multipliers" requested in
  let* rm := multipliers_for regime "regime_multipliers" requested in
  make_context cycle ws generation requested cm rm (context_mapping regime "decay_policy") regime.
End context.

(** [float(multipliers.get(channel, 1.0))] *)
Definition multiplier (c : string) (ms : pydict spec_float) : spec_float := default float_one (dget c ms).
End PropagationModel.

Module Runner.
Import Channels Scoring PropagationModel.

(** *** The queries *)

Definition projection_query (selector : string) : string := "
MATCH (source)-[relationship]->(target)
WHERE " ++ selector ++ cypher "
WITH gds.graph.project(
    $graph_name,
    source,
    target,
    {
        relationshipType: type(relationship),
        relationshipProperties: {
            weight: coalesce(relationship.weight, 1.0)
        }
    }
) AS projection
RETURN projection.graphName AS graphName,
       projection.nodeCount AS nodeCount,
       projection.relationshipCount AS relationshipCount
".
Definition pagerank_query : string := cypher "
CALL gds.pageRank.stream($graph_name, {
    maxIterations: $max_iterations,
    relationshipWeightProperty: `weight`
})
YIELD nodeId, score
WITH gds.util.asNode(nodeId) AS node, score
WITH node,
     score,
     coalesce(node.node_id, elementId(node)) AS stable_node_id
RETURN node.node_id AS node_id,
       node.canonical_entity_id AS canonical_entity_id,
       labels(node) AS labels,
       stable_node_id,
       score
ORDER BY score DESC, stable_node_id ASC
LIMIT $result_limit
".
Definition paths_query (selector : string) : string := "
MATCH (source)-[relationship]->(target)
WHERE " ++ selector ++ "
WITH source,
     relationship,
     target,
     coalesce(relationship.weight, 1.0) AS relation_weight,
     coalesce(relationship.evidence_confidence, 1.0) AS evidence_confidence,
     coalesce(relationship.recency_decay, 1.0) AS recency_decay
WITH source,
     relationship,
     target,
     relation_weight,
     evidence_confidence,
     recency_decay,
     relation_weight
         * evidence_confidence
         * $channel_multiplier
         * $regime_multiplier
         * recency_decay AS path_score
RETURN source.node_id AS source_node_id,
       source.canonical_entity_id AS source_entity_id,
       labels(source) AS source_labels,
       target.node_id AS target_node_id,
       target.canonical_entity_id AS target_entity_id,
       labels(target) AS target_labels,
       relationship.edge_id AS edge_id,
       type(relationship) AS relationship_type,
       relationship.evidence_refs AS evidence_refs,
       relationship.evidence_ref AS evidence_ref,
       source.canonical_id_rule_version AS source_canonical_id_rule_version,
       target.canonical_id_rule_version AS target_canonical_id_rule_version,
       relation_weight,
       evidence_confidence,
       recency_decay,
       path_score
ORDER BY path_score DESC,
         source_node_id ASC,
         relationship_type ASC,
         target_node_id ASC,
         edge_id ASC
LIMIT $result_limit
".

(** *** Reading rows *)
Section runner.
Context `{PyText} `{PyNumbers}.

Definition float_value (v : option pyval) (d : spec_float) : result graph_error spec_float :=
  match v with
  | None | Some PNone => Ok d
  | Some v => map_err BadNumber (as_float parse_float v)
  end.
Definition string_list (v : option pyval) : list string :=
  match v with Some (PList l) => sorted_strings (map py_str l) | _ => [] end.
(** [row.get(k)] *)
Definition get (k : string) (row : pdict) : pyval := default PNone (pget k row).
Definition str_list (l : list string) : pyval := PList (map PStr l).
(** [int(rows[0].get(k) or 0)] *)
Definition count_of (k : string) (rows : list pdict) : result graph_error Z :=
  match first_field k rows with
  | Some v => if truthy v then map_err BadNumber (as_int v) else Ok 0
  | None => Ok 0
  end.

Record activated_path := mkPath {
  ap_channel : string;
  ap_source_node_id : pyval;
  ap_source_entity_id : pyval;
  ap_source_labels : list string;
  ap_target_node_id : pyval;
  ap_target_entity_id : pyval;
  ap_target_labels : list string;
  ap_edge_id : pyval;
  ap_relationship_type : pyval;
  ap_evidence_refs : list string;
  ap_source_rule_version : pyval;
  ap_target_rule_version : pyval;
  ap_explanation : explanation;
}.
Definition ap_score (p : activated_path) : spec_float := explained_score (ap_explanation p).
Definition path_payload (p : activated_path) : pdict :=
  [(PStr "channel", PStr (ap_channel p)); (PStr "source_node_id", ap_source_node_id p);
   (PStr "source_entity_id", ap_source_entity_id p); (PStr "source_labels", str_list (ap_source_labels p));
   (PStr "target_node_id", ap_target_node_id p); (PStr "target_entity_id", ap_target_entity_id p);
   (PStr "target_labels", str_list (ap_target_labels p)); (PStr "edge_id", ap_edge_id p);
   (PStr "relationship_type", ap_relationship_type p); (PStr "evidence_refs", str_list (ap_evidence_refs p));
   (PStr "source_canonical_id_rule_version", ap_source_rule_version p);
   (PStr "target_canonical_id_rule_version", ap_target_rule_version p);
   (PStr "score", PFloat (ap_score p)); (PStr "explanation", PDict (explanation_payload (ap_explanation p)))].

(** [_activated_path] *)
Definition activated_path_of (c : string) (cm rm : spec_float) (row : pdict) : result graph_error activated_path :=
  let* weight := float_value (pget "relation_weight" row) float_one in
  let* confidence := float_value (pget "evidence_confidence" row) float_one in
  let* decay := float_value (pget "recency_decay" row) float_one in
  let* refs := map_err (λ _, BadEvidenceRef) (evidence_refs_from_mapping row) in
  Ok (mkPath c (get "source_node_id" row) (get "source_entity_id" row) (string_list (pget "source_labels" row))
    (get "target_node_id" row) (get "target_entity_id" row) (string_list (pget "target_labels" row))
    (get "edge_id" row) (get "relationship_type" row) refs (get "source_canonical_id_rule_version" row)
    (get "target_canonical_id_rule_version" row) (mkExplanation weight confidence cm rm decay)).

Definition runner_path_key (p : activated_path) : sort_key :=
  [KFloat (SFopp (ap_score p)); KStr (py_str (ap_source_node_id p)); KStr (py_str (ap_relationship_type p));
   KStr (py_str (ap_target_node_id p)); KStr (py_str (ap_edge_id p))].

(** [_impacted_entity] of a PageRank row: only what is read of it later. *)
Record pagerank_entity := mkRank { pk_node_id : pyval; pk_score : spec_float; pk_stable : string }.
(** [str(a or b or '')] *)
Definition text_or (a b : option pyval) : string :=
  match a, b with
  | Some v, _ => if truthy v then py_str v else match b with Some v' => if truthy v' then py_str v' else "" | None => "" end
  | None, Some v' => if truthy v' then py_str v' else ""
  | None, None => ""
  end.
Definition pagerank_entity_of (row : pdict) : result graph_error pagerank_entity :=
  let* score := float_value (pget "score" row) float_zero in
  Ok (mkRank (get "node_id" row) score (text_or (pget "stable_node_id" row) (pget "node_id" row))).
Definition pagerank_key (e : pagerank_entity) : sort_key := [KFloat (SFopp (pk_score e)); KStr (pk_stable e)].

(** *** From paths to entities *)
Record impact := mkImpact {
  im_channel : string;
  im_node_id : pyval;
  im_entity_id : pyval;
  im_labels : list string;
  im_score : spec_float;
  im_stable : string;
  im_pagerank : spec_float;
  im_path_count : Z;
}.
Definition impact_payload (i : impact) : pdict :=
  [(PStr "channel", PStr (im_channel i)); (PStr "node_id", im_node_id i); (PStr "canonical_entity_id", im_entity_id i);
   (PStr "labels", str_list (im_labels i)); (PStr "score", PFloat (im_score i)); (PStr "stable_node_id", PStr (im_stable i));
   (PStr "pagerank_score", PFloat (im_pagerank i)); (PStr "path_count", PInt (im_path_count i))].

Definition pagerank_by_node_id (es : list pagerank_entity) : pydict spec_float :=
  fold_left (λ d e, match pk_node_id e with PNone => d | v => dset (py_str v) (pk_score e) d end) es [].

Definition new_impact (c : string) (ranks : pydict spec_float) (p : activated_path) (node_id : string) : impact :=
  mkImpact c (ap_target_node_id p) (ap_target_entity_id p) (string_list (Some (str_list (ap_target_labels p))))
    float_zero node_id (default float_zero (dget node_id ranks)) 0.
Definition add_path (i : impact) (p : activated_path) : impact :=
  mkImpact (im_channel i) (im_node_id i) (im_entity_id i) (im_labels i) (float_add (im_score i) (ap_score p))
    (im_stable i) (im_pagerank i) (im_path_count i + 1).
Definition add_impact (c : string) (ranks : pydict spec_float) (d : pydict impact) (p : activated_path) : pydict impact :=
  match ap_target_node_id p with
  | PNone => d
  | v =>
      let node_id := py_str v in
      dset node_id (add_path (default (new_impact c ranks p node_id) (dget node_id d)) p) d
  end.
Definition impact_key (i : impact) : sort_key := [KFloat (SFopp (im_score i)); KStr (im_stable i)].
(** [_impacted_entities_from_paths] *)
Definition impacted_entities_from_paths (c : string) (paths : list activated_path) (es : list pagerank_entity) (limit : Z)
    : list impact :=
  take (Z.to_nat limit)
    (sort_by impact_key (map snd (fold_left (add_impact c (pagerank_by_node_id es)) paths []))).

(** *** The run *)

(** [_default_projection_name]; [hex] is the start of a fresh UUID. *)
Definition name_char (ch : ascii) : ascii :=
  if is_digit ch || is_upper_az ch || is_lower_az ch || Ascii.eqb ch "_" then ch else "_"%char.
Fixpoint lstrip_char (f : ascii → bool) (s : string) : string :=
  match s with String ch rest => if f ch then lstrip_char f rest else s | EmptyString => EmptyString end.
Definition strip_chars (f : ascii → bool) (s : string) : string :=
  String.rev (lstrip_char f (String.rev (lstrip_char f s))).
Definition or_text (s d : string) : string := if is_empty s then d else s.
Definition default_projection_name (c cycle hex : string) : string :=
  "graph_engine_" ++ c ++ "_" ++
  String.substring 0 64 (or_text (strip_chars (Ascii.eqb "_") (smap name_char cycle)) "cycle") ++ "_" ++ hex.

Section client.
Context {W : Type} `{Neo4jClient W}.

Definition selector (c : string) : string := effective_channel_selector c "relationship".

Definition create_projection (c name : string) : prog W Z :=
  let! rows := execute_gds_write (projection_query (selector c)) (named name) in
  lift (count_of "relationshipCount" rows).
Definition stream_pagerank (name : string) (max_iterations limit : Z) : prog W (list pagerank_entity) :=
  let! rows := execute_gds_read pagerank_query
    [(PStr "graph_name", PStr name); (PStr "max_iterations", PInt max_iterations); (PStr "result_limit", PInt limit)] in
  let! es := lift (rmap_list pagerank_entity_of rows) in
  ret (take (Z.to_nat limit) (sort_by pagerank_key es)).
Definition read_activated_paths (c : string) (cx : PropagationContext) (limit : Z) : prog W (list activated_path) :=
  let cm := multiplier c (channel_multipliers cx) in
  let rm := multiplier c (regime_multipliers cx) in
  let! rows := execute_read (paths_query (selector c))
    [(PStr "result_limit", PInt limit); (PStr "channel_multiplier", PFloat cm); (PStr "regime_multiplier", PFloat rm)] in
  let! ps := lift (rmap_list (activated_path_of c cm rm) rows) in
  ret (take (Z.to_nat limit) (sort_by runner_path_key ps)).

Definition propagate (c : string) (cx : PropagationContext) (name : string) (max_iterations limit : Z)
    : prog W (list pagerank_entity * list activated_path) :=
  let! relationship_count := create_projection c name in
  if relationship_count =? 0 then ret ([], [])
  else
    let! es := stream_pagerank name max_iterations limit in
    let! ps := read_activated_paths c cx limit in
    ret (es, ps).

Definition channel_entry (c : string) (cx : PropagationContext) (ps : list activated_path) (es : list impact) : pyval :=
  PDict [(PStr "relationship_types", str_list (relationship_types_for_channel c)); (PStr "path_selector", PStr (selector c));
    (PStr "path_count", PInt (Z.of_nat (length ps))); (PStr "impacted_entity_count", PInt (Z.of_nat (length es)));
    (PStr "total_path_score", float_sum (map ap_score ps));
    (PStr "channel_multiplier", PFloat (multiplier c (channel_multipliers cx)));
    (PStr "regime_multiplier", PFloat (multiplier c (regime_multipliers cx)))].

(** The run once the status is known to be ready. *)
Definition propagate_through_projection (c : string) (cx : PropagationContext) (name : string)
    (max_iterations limit : Z) : prog W PropagationResult :=
  let! _ := drop_projection_if_exists name in
  let! found := finally (propagate c cx name max_iterations limit) (drop_projection_if_exists name) in
  let entities := impacted_entities_from_paths c found.2 found.1 limit in
  lift (validated_result (cx_cycle_id cx) (cx_generation_id cx) (map path_payload found.2) (map impact_payload entities)
    [(PStr c, channel_entry c cx found.2 entities)]).

(** [run_fundamental_propagation], [run_event_propagation] and
    [run_reflexive_propagation], which differ in their channel [c]. [ready] is
    what the status manager's [ready_read] yields, if there is a manager. *)
Definition run_channel_propagation (c hex : string) (cx : PropagationContext)
    (ready : option (result status_error Neo4jGraphStatus)) (graph_name : option string) (max_iterations limit : Z)
    : prog W PropagationResult :=
  stop_if negb (bool_decide (c ∈ enabled_channels cx)) with ChannelNotEnabled c;
  stop_if max_iterations <? 1 with NonPositiveIterations;
  stop_if limit <? 1 with NonPositiveResultLimit;
  let! status := lift match ready with
    | None => Err (NoStatusManager (c ++ " propagation"))
    | Some r => map_err StatusRaised r
    end in
  stop_if negb (graph_generation_id status =? cx_generation_id cx)
    with GenerationMismatch (cx_generation_id cx) (graph_generation_id status);
  propagate_through_projection c cx (or_text (default "" graph_name) (default_projection_name c (cx_cycle_id cx) hex))
    max_iterations limit.

Definition run_fundamental_propagation := run_channel_propagation "fundamental".
Definition run_event_propagation := run_channel_propagation "event".
Definition run_reflexive_propagation := run_channel_propagation "reflexive".
End client.
End runner.
End Runner.
