(* ===== verification/Merge.v ===== *)
(** * Merge: one result from the results of the channels

    [Merge] is [graph_engine/propagation/merge.py] and [Pipeline] is
    [pipeline.py], over the runner of [Propagation]. The order in which Python
    walks a set of strings is an argument, of which the theorems ask nothing but
    that it lists the set. *)
From Stdlib Require Import String Ascii ZArith List SpecFloat.
From stdpp Require Import base gmap strings list sorting pretty.
From S2P Require Import Prelude PyLib Numbers GraphStatus Promotion Programs Client Propagation.
Import StatusModel Evidence PromotionModel Channels Scoring PropagationModel Runner.
Local Open Scope string_scope.
Local Open Scope Z_scope.

Module Merge.

Definition required_explanation_keys : list string :=
  ["channel_multiplier"; "evidence_confidence"; "recency_decay"; "regime_multiplier"; "relation_weight"; "score"].

Section merge.
Context `{PyText} `{PyNumbers}.
Context (walk : gset string → list string).

(** [_payload_channel] *)
Definition payload_channel (payload : pdict) : result graph_error string :=
  match pget "channel" payload with
  | Some (PStr c) =>
      raise_if is_empty c with PayloadChannelMissing;
      raise_if negb (bool_decide (c ∈ allowed_channels)) with PayloadChannelUnknown c;
      Ok c
  | _ => Err PayloadChannelMissing
  end.

(** [_validate_path]; the keys of [dict] explanations that are not strings do
    not matter to it. *)
Definition missing_explanation_keys (x : pdict) : list string :=
  filter (λ k, phas k x = false) required_explanation_keys.
Definition validate_path (path : pdict) : result graph_error () :=
  let* _ := payload_channel path in
  match pget "explanation" path with
  | Some (PDict x) =>
      match missing_explanation_keys x with [] => Ok () | ks => Err (ExplanationIncomplete ks) end
  | _ => Err ExplanationNotMapping
  end.

Definition value_or_zero (v : option pyval) : result graph_error spec_float := float_value v float_zero.
(** [str(payload.get(k) or "")] *)
Definition payload_text (k : string) (payload : pdict) : string := text_or (pget k payload) None.

Definition path_sort_key (path : pdict) : result graph_error sort_key :=
  let* score := value_or_zero (pget "score" path) in
  Ok [KFloat (SFopp score); KStr (payload_text "channel" path); KStr (payload_text "source_node_id" path);
      KStr (payload_text "relationship_type" path); KStr (payload_text "target_node_id" path); KStr (payload_text "edge_id" path)].

(** *** Channels of a result *)
Definition breakdown_channels (breakdown : pdict) : list string :=
  omap (λ kv, match kv.1 with PStr c => if bool_decide (c ∈ allowed_channels) then Some c else None | _ => None end) breakdown.
Definition result_channels (r : PropagationResult) : result graph_error (gset string) :=
  let* path_channels := rmap_list payload_channel (activated_paths r) in
  let* entity_channels := rmap_list payload_channel (impacted_entities r) in
  let channels := (list_to_set (path_channels ++ entity_channels ++ breakdown_channels (channel_breakdown r)) : gset string) in
  raise_if bool_decide (channels = ∅) with NoChannel;
  Ok channels.

(** *** Entities *)
Definition entity_key (canonical node : pyval) : result graph_error string :=
  let by_node :=
    match node with
    | PNone => Err EntityWithoutId
    | v => if is_empty (py_str v) then Err EntityWithoutId else Ok ("node:" ++ py_str v)
    end in
  match canonical with
  | PNone => by_node
  | v => if is_empty (py_str v) then by_node else Ok ("canonical:" ++ py_str v)
  end.
Definition path_entity_key (canonical node : pyval) : result graph_error (option string) :=
  match canonical, node with
  | PNone, PNone => Ok None
  | _, _ => let* k := entity_key canonical node in Ok (Some k)
  end.

Definition count_path (counts : gmap (string * string) Z) (path : pdict) : result graph_error (gmap (string * string) Z) :=
  let* c := payload_channel path in
  let* key := path_entity_key (get "target_entity_id" path) (get "target_node_id" path) in
  match key with
  | None => Ok counts
  | Some k => Ok (<[(k, c) := default 0 (counts !! (k, c)) + 1]> counts)
  end.
Definition entity_path_counts (results : list PropagationResult) : result graph_error (gmap (string * string) Z) :=
  rfold count_path ∅ (concat (map activated_paths results)).

Record merged := mkMerged {
  me_entity_id : pyval;
  me_node_id : pyval;
  me_labels : list string;
  me_score : spec_float;
  me_channel_scores : pydict spec_float;
  me_channels : list string;
  me_path_count : Z;
}.
(** [sum(float(score) for score in channel_scores.values())] *)
Definition sum_scores (scores : pydict spec_float) : spec_float :=
  match float_sum (map snd scores) with PFloat f => f | _ => float_zero end.

Definition merge_entity_id (m : merged) (canonical : pyval) : pyval :=
  match me_entity_id m with PNone => canonical | v => v end.
Definition merge_node_id (m : merged) (node : pyval) : pyval :=
  match me_node_id m, node with
  | PNone, v => v
  | v, PNone => v
  | v, v' => if negb (String.leb (py_str v) (py_str v')) then v' else v
  end.

Definition entity_path_count (counts : gmap (string * string) Z) (entity : pdict) (key c : string) : result graph_error Z :=
  match pget "path_count" entity with
  | Some PNone | None => Ok (default 0 (counts !! (key, c)))
  | Some v => map_err BadNumber (as_int v)
  end.

(** One entity payload joins the merged entity of its key. *)
Definition join_entity (m : merged) (c : string) (entity : pdict) (score : spec_float) (paths : Z) : merged :=
  let scores := dset c (float_add (default float_zero (dget c (me_channel_scores m))) score) (me_channel_scores m) in
  mkMerged (merge_entity_id m (get "canonical_entity_id" entity)) (merge_node_id m (get "node_id" entity))
    (sorted_set (list_to_set (string_list (Some (str_list (me_labels m)))) ∪ list_to_set (string_list (pget "labels" entity))))
    (sum_scores scores) scores (sorted_strings (dkeys scores)) (me_path_count m + paths).
Definition new_merged (entity : pdict) : merged :=
  mkMerged (get "canonical_entity_id" entity) (get "node_id" entity) [] float_zero [] [] 0.
Definition merge_entity (counts : gmap (string * string) Z) (d : pydict merged) (entity : pdict)
    : result graph_error (pydict merged) :=
  let* c := payload_channel entity in
  let* key := entity_key (get "canonical_entity_id" entity) (get "node_id" entity) in
  let* score := value_or_zero (pget "score" entity) in
  let* paths := entity_path_count counts entity key c in
  Ok (dset key (join_entity (default (new_merged entity) (dget key d)) c entity score paths) d).

Definition entity_sort_key (m : merged) : sort_key :=
  [KFloat (SFopp (me_score m)); KStr (text_or (Some (me_entity_id m)) None); KStr (text_or (Some (me_node_id m)) None)].
Definition merged_payload (m : merged) : pdict :=
  [(PStr "canonical_entity_id", me_entity_id m); (PStr "node_id", me_node_id m); (PStr "labels", str_list (me_labels m));
   (PStr "score", PFloat (me_score m));
   (PStr "channel_scores", PDict (map (λ cs, (PStr cs.1, PFloat cs.2)) (me_channel_scores m)));
   (PStr "channels", str_list (me_channels m)); (PStr "path_count", PInt (me_path_count m))].
Definition merge_impacted_entities (results : list PropagationResult) (counts : gmap (string * string) Z) (limit : Z)
    : result graph_error (list merged) :=
  let* d := rfold (merge_entity counts) [] (concat (map impacted_entities results)) in
  Ok (take (Z.to_nat limit) (sort_by entity_sort_key (map snd d))).

(** *** [merge_propagation_results] *)
Definition same_run (cycle : string) (generation : Z) (r : PropagationResult) : result graph_error () :=
  raise_if negb (String.eqb (pr_cycle_id r) cycle) with MixedCycles;
  raise_if negb (pr_generation_id r =? generation) with MixedGenerations;
  Ok ().
Definition take_breakdown (r : PropagationResult) (acc : pdict) (c : string) : result graph_error pdict :=
  match pget c (channel_breakdown r) with
  | Some v => Ok (pset c v acc)
  | None => Err (BreakdownMissing c)
  end.

(** The loop's variables: paths, breakdown, channels. *)
Definition gather (acc : list pdict * pdict * gset string) (r : PropagationResult)
    : result graph_error (list pdict * pdict * gset string) :=
  let '(paths, breakdown, channels) := acc in
  let* cs := result_channels r in
  let* breakdown' := rfold (take_breakdown r) breakdown (walk cs) in
  let* _ := riter validate_path (activated_paths r) in
  Ok (paths ++ activated_paths r, breakdown', channels ∪ cs)%list.

Definition merged_entry (channels : gset string) (paths : list pdict) (entities : list merged) (total : pyval) (limit : Z) : pyval :=
  PDict [(PStr "enabled_channels", str_list (sorted_set channels)); (PStr "path_count", PInt (Z.of_nat (length paths)));
    (PStr "impacted_entity_count", PInt (Z.of_nat (length entities))); (PStr "total_path_score", total);
    (PStr "result_limit", PInt limit)].

Definition merge_propagation_results (results : list PropagationResult) (limit : Z) : result graph_error PropagationResult :=
  match results with
  | [] => Err NoResults
  | first :: _ =>
      raise_if limit <? 1 with NonPositiveResultLimit;
      let* _ := riter (same_run (pr_cycle_id first) (pr_generation_id first)) results in
      let* counts := entity_path_counts results in
      let* gathered := rfold gather ([], [], ∅) results in
      let '(all_paths, breakdown, channels) := gathered in
      let* sorted_paths := sort_by_result path_sort_key all_paths in
      let paths := take (Z.to_nat limit) sorted_paths in
      let* entities := merge_impacted_entities results counts limit in
      let* scores := rmap_list (λ p, value_or_zero (pget "score" p)) paths in
      validated_result (pr_cycle_id first) (pr_generation_id first) paths (map merged_payload entities)
        (pset "merged" (merged_entry channels paths entities (float_sum scores) limit) breakdown)
  end.
End merge.
End Merge.

Module Pipeline.
Import Merge.

Section pipeline.
Context `{PyText} `{PyNumbers} {W : Type} `{Neo4jClient W}.
Context (walk : gset string → list string) (hex : string → string).

(** [_projection_name] *)
Definition projection_name (graph_name : option string) (c : string) (count : nat) : option string :=
  match graph_name with
  | None => None
  | Some n => if (count =? 1)%nat then Some n else Some (n ++ "-" ++ c)
  end.

(** [_runner_for_channel]; [hex c] is what the fresh UUID of the run of [c]
    starts with, [ready c] what the status manager yields to it. *)
Definition run_channel (cx : PropagationContext) (ready : string → option (result status_error Neo4jGraphStatus))
    (graph_name : option string) (max_iterations limit : Z) (c : string) : prog W PropagationResult :=
  if bool_decide (c ∈ allowed_channels) then
    run_channel_propagation c (hex c) cx (ready c)
      (projection_name graph_name c (length (enabled_channels cx))) max_iterations limit
  else raise (UnknownPropagationChannel c).

Fixpoint run_all (f : string → prog W PropagationResult) (cs : list string) : prog W (list PropagationResult) :=
  match cs with
  | [] => ret []
  | c :: rest => let! r := f c in let! rs := run_all f rest in ret (r :: rs)
  end.

(** [run_full_propagation] *)
Definition run_full_propagation (cx : PropagationContext) (ready : string → option (result status_error Neo4jGraphStatus))
    (graph_name : option string) (max_iterations limit : Z) : prog W PropagationResult :=
  stop_if max_iterations <? 1 with NonPositiveIterations;
  stop_if limit <? 1 with NonPositiveResultLimit;
  let! results := run_all (run_channel cx ready graph_name max_iterations limit) (enabled_channels cx) in
  lift (merge_propagation_results walk results limit).
End pipeline.
End Pipeline.
