(* ===== verification/PropagationProofs.v ===== *)
(** * PropagationProofs: what propagation and merging guarantee

    Theorems about [Client], [Propagation] and [Merge], and runs of them. *)
From Stdlib Require Import String Ascii ZArith List SpecFloat.
From stdpp Require Import base gmap strings list sorting pretty.
From S2P Require Import Prelude PyLib Numbers GraphStatus Promotion Programs Client Propagation Merge.
Import StatusModel StatusManager Evidence PromotionModel Channels Scoring PropagationModel Runner Merge Pipeline.
Local Open Scope string_scope.
Local Open Scope Z_scope.

(** ** Payloads pass the validation of a result *)
Section payloads.
Context `{PyText} `{PyNumbers}.

Lemma path_payload_kept p : any_dict (PDict (path_payload p)) = Some (path_payload p).
Proof. reflexivity. Qed.

Lemma impact_payload_kept i : any_dict (PDict (impact_payload i)) = Some (impact_payload i).
Proof. reflexivity. Qed.

Lemma merged_payload_kept m : any_dict (PDict (merged_payload m)) = Some (merged_payload m).
Proof. reflexivity. Qed.

Lemma rmap_kept {A} (f : A → pdict) l :
  (∀ x, any_dict (PDict (f x)) = Some (f x)) →
  rmap_list (λ p, required BadResult (any_dict (PDict p))) (map f l) = Ok (map f l).
Proof. intros Hf. induction l as [|x l IH]; [done|]. cbn [map rmap_list]. rewrite Hf, IH. done. Qed.

Lemma kept_map {A} (f : A → pdict) l l' :
  (∀ x, any_dict (PDict (f x)) = Some (f x)) →
  Forall2 (λ p p', any_dict (PDict p) = Some p') (map f l) l' → l' = map f l.
Proof.
  intros Hx Hf. apply Forall2_fmap_l in Hf. symmetry. induction Hf as [|x y l l' Hxy _ IH]; [done|].
  cbn beta in Hxy. unfold compose in Hxy. rewrite Hx in Hxy. injection Hxy as <-. simpl. by f_equal.
Qed.

Lemma validated_result_ok cycle generation paths entities breakdown r :
  validated_result cycle generation paths entities breakdown = Ok r →
  text (PStr cycle) = Some (pr_cycle_id r) ∧ pr_generation_id r = generation ∧ 0 ≤ generation ∧
  Forall2 (λ p p', any_dict (PDict p) = Some p') paths (activated_paths r) ∧
  Forall2 (λ p p', any_dict (PDict p) = Some p') entities (impacted_entities r) ∧
  any_dict (PDict breakdown) = Some (channel_breakdown r).
Proof.
  unfold validated_result. intros (cycle' & Hc & H1)%rbind_ok.
  apply rbind_ok in H1 as (u & Hg%guard_err_ok & H1). apply rbind_ok in H1 as (ps & Hp%rmap_list_ok & H1).
  apply rbind_ok in H1 as (es & He%rmap_list_ok & H1). apply rbind_ok in H1 as (b & Hb & [= <-]). simpl. to_prop.
  assert (∀ {A} (o : option A) a, required BadResult o = Ok a → o = Some a) as Hreq by (intros A [?|] ?; simpl; congruence).
  apply Hreq in Hc, Hb. split_and!; auto; (eapply Forall2_impl; [eassumption|]; simpl; intros; by apply Hreq).
Qed.
End payloads.

(** ** A run of one channel *)
Section runs.
Context `{PyText} `{PyNumbers} `{GdsCatalog W catalog}.
Implicit Types (w : W) (cx : PropagationContext).

Lemma lift_guard (b : bool) e (w : W) {B} (k : () → prog W B) :
  pbind (lift (guard_err b e)) k w = if b then (Err e, w) else k () w.
Proof. by destruct b. Qed.

(** What the guards of a run establish. *)
Definition admitted c cx (ready : option (result status_error Neo4jGraphStatus)) (max_iterations limit : Z) : Prop :=
  c ∈ enabled_channels cx ∧ 1 ≤ max_iterations ∧ 1 ≤ limit ∧
  ∃ st, ready = Some (Ok st) ∧ graph_generation_id st = cx_generation_id cx.
Definition projection_of c hex cx (graph_name : option string) : string :=
  or_text (default "" graph_name) (default_projection_name c (cx_cycle_id cx) hex).

Lemma run_guards c hex cx ready graph_name mi limit w :
  (¬ admitted c cx ready mi limit ∧
   ∃ e, run_channel_propagation c hex cx ready graph_name mi limit w = (Err e, w)) ∨
  (admitted c cx ready mi limit ∧
   run_channel_propagation c hex cx ready graph_name mi limit w =
     propagate_through_projection c cx (projection_of c hex cx graph_name) mi limit w).
Proof.
  unfold run_channel_propagation, admitted. rewrite !lift_guard.
  destruct (negb _) eqn:E1; [left; to_prop; split; [naive_solver|eauto]|].
  destruct (mi <? 1) eqn:E2; [left; to_prop; split; [intros (? & ? & _); lia|eauto]|].
  destruct (limit <? 1) eqn:E3; [left; to_prop; split; [intros (? & ? & ? & _); lia|eauto]|].
  destruct ready as [[st|e]|].
  2, 3: left; split; [intros (? & ? & ? & st & [=] & ?)|by eexists].
  cbn [map_err]. change (pbind (lift (Ok st)) ?k w) with (k st w).
  cbn beta. rewrite lift_guard.
  destruct (negb (graph_generation_id st =? _)) eqn:E4; to_prop.
  - left. split; [naive_solver|eauto].
  - right. split; [|done]. split_and!; eauto; lia.
Qed.

(** Everything between the two drops keeps the other names of the catalog. *)
Lemma propagate_catalog c cx name mi limit w r w' :
  contains "gds.graph.project" (projection_query (selector c)) = true →
  contains "gds.graph.drop" (projection_query (selector c)) = false →
  leaves_catalog (paths_query (selector c)) = true →
  propagate c cx name mi limit w = (r, w') → same_but name (catalog w) (catalog w').
Proof.
  intros Hproject Hdrop Hpaths. unfold propagate, create_projection, stream_pagerank, read_activated_paths.
  assert (∀ r1 w1, execute_gds_write (projection_query (selector c)) (named name) w = (r1, w1) →
    same_but name (catalog w) (catalog w1)) as Hp.
  { intros r1 w1. apply gds_project_named; [done|done|reflexivity]. }
  assert (leaves_catalog pagerank_query = true) as Hpr by reflexivity.
  intros Hrun. unfold pbind at 1 2 in Hrun.
  destruct (execute_gds_write _ _ w) as [[rows|e] w1] eqn:Ew; [|injection Hrun as _ <-; eauto].
  etransitivity; [by eapply Hp|]. clear Ew Hp. unfold lift at 1 in Hrun.
  destruct (count_of _ rows) as [n|e]; [|by injection Hrun as _ <-].
  destruct (n =? 0); [by injection Hrun as _ <-|]. unfold pbind at 1 2 in Hrun.
  destruct (execute_gds_read _ _ w1) as [[rows'|e] w2] eqn:E2;
  pose proof (gds_read_keeps _ _ _ _ _ Hpr E2) as Hc2; rewrite <- Hc2; [|by injection Hrun as _ <-].
  unfold pbind at 1 2, lift at 1 in Hrun. destruct (rmap_list _ rows') as [es|e]; [|by injection Hrun as _ <-].
  unfold ret at 1, pbind at 1 2 in Hrun.
  destruct (execute_read _ _ w2) as [[rows3|e] w3] eqn:E3; pose proof (read_keeps (paths_query (selector c))
    [(PStr "result_limit", PInt limit); (PStr "channel_multiplier", PFloat (multiplier c (channel_multipliers cx)));
     (PStr "regime_multiplier", PFloat (multiplier c (regime_multipliers cx)))] w2 Hpaths) as Hc3;
  rewrite E3 in Hc3; simpl in Hc3; rewrite <- Hc3; [|by injection Hrun as _ <-].
  unfold pbind, lift, ret in Hrun. by destruct (rmap_list _ rows3); injection Hrun as _ <-.
Qed.
Lemma channel_queries c : c ∈ allowed_channels →
  contains "gds.graph.project" (projection_query (selector c)) = true ∧
  contains "gds.graph.drop" (projection_query (selector c)) = false ∧
  leaves_catalog (paths_query (selector c)) = true.
Proof.
  unfold allowed_channels. rewrite !elem_of_cons, elem_of_nil.
  intros [->|[->|[->|[]]]]; vm_compute; auto.
Qed.

(** The calls a clean-up needs return. *)
Definition catalog_calls_return : Prop := ∀ name w,
  is_ok (execute_read exists_query (named name) w).1 = true ∧ is_ok (execute_write drop_query (named name) w).1 = true.

Lemma drop_returns name w : catalog_calls_return → is_ok (drop_projection_if_exists name w).1 = true.
Proof.
  intros Hret. unfold drop_projection_if_exists, pbind, execute_gds_read, execute_gds_write, map_raise.
  destruct (execute_read exists_query (named name) w) as [[rows|e] w1] eqn:E; simpl.
  - destruct (says_exists rows); [|done]. destruct (execute_write drop_query (named name) w1) as [[?|e] w2] eqn:E2; [done|].
    pose proof (proj2 (Hret name w1)) as Hw. by rewrite E2 in Hw.
  - pose proof (proj1 (Hret name w)) as Hw. by rewrite E in Hw.
Qed.

Lemma projection_spec c cx name mi limit w r w' :
  c ∈ allowed_channels → propagate_through_projection c cx name mi limit w = (r, w') →
  same_but name (catalog w) (catalog w') ∧ (is_ok r = true ∨ catalog_calls_return → name ∉ catalog w').
Proof.
  intros (Hq & Hd & Hp)%channel_queries Hrun. unfold propagate_through_projection in Hrun.
  apply pbind_cases in Hrun as [(u & w1 & Hb & Hrun)|(e & Hb & ->)].
  2: { split; [by apply drop_projection_spec in Hb as [? _]|]. intros [?|Hret]; [done|].
       pose proof (drop_returns name w Hret) as Hok. by rewrite Hb in Hok. }
  apply drop_projection_spec in Hb as [Hs1 _].
  assert (∃ r2, finally (propagate c cx name mi limit) (drop_projection_if_exists name) w1 = (r2, w') ∧
    (is_ok r = true → is_ok r2 = true)) as (r2 & Hf & Hr2).
  { apply pbind_cases in Hrun as [(a & w2 & Hf & [= _ <-])|(e & Hf & ->)]; eexists; eauto. }
  clear Hrun. apply finally_cases in Hf as (r3 & w3 & Hbody & Hend).
  apply (propagate_catalog c cx name mi limit w1 r3 w3 Hq Hd Hp) in Hbody.
  assert (∃ r4, drop_projection_if_exists name w3 = (r4, w') ∧ (is_ok r2 = true → is_ok r4 = true)) as (r4 & Hdrop & Hr4).
  { destruct Hend as [(u' & Hend & ->)|(e & Hend & ->)]; eauto. }
  pose proof (drop_projection_spec _ _ _ _ Hdrop) as [Hs5 Hok5]. split.
  - etransitivity; [exact Hs1|]. by etransitivity.
  - intros Hor. rewrite Hok5; [set_solver|]. destruct Hor as [Hok|Hret]; [auto|].
    pose proof (drop_returns name w3 Hret) as Hok. by rewrite Hdrop in Hok.
Qed.
End runs.

(** A run that is not admitted raises without having touched the database:
    it goes on only if its channel is enabled, its bounds are positive and the
    status row says ready, unlocked, and of the generation of its context. *)
Theorem propagation_needs_ready_graph {S W} `{PyText} `{PyNumbers} `{StatusStore.StatusStoreOps S} `{Neo4jClient W}
    c hex cx (store : S) graph_name max_iterations limit (w : W) r w' :
  run_channel_propagation c hex cx (Some (require_ready store)) graph_name max_iterations limit w = (r, w') →
  (w' = w ∧ is_ok r = false) ∨
  (c ∈ enabled_channels cx ∧ 1 ≤ max_iterations ∧ 1 ≤ limit ∧ ∃ st, get_status store = Ok st ∧
   graph_status st = Ready ∧ writer_lock_token st = None ∧ graph_generation_id st = cx_generation_id cx).
Proof.
  destruct (run_guards c hex cx (Some (require_ready store)) graph_name max_iterations limit w) as [[_ [e ->]]|[Ha _]].
  - intros [= <- <-]. by left.
  - intros _. right. destruct Ha as (? & ? & ? & st & [= Hst] & ?). split_and!; try done.
    unfold require_ready in Hst. apply rbind_ok in Hst as (st' & Hget & Hr). exists st'.
    unfold require_ready_status in Hr. apply rbind_ok in Hr as (? & ?%guard_err_ok & Hr).
    apply rbind_ok in Hr as (? & ?%guard_err_ok & [= ->]). to_prop. split_and!; try done.
    by destruct (writer_lock_token st); [exfalso; auto|].
Qed.

(** A run leaves every projection of the catalog alone but its own, which it
    removes: when it returns, and also when it raises, whatever raised it, as
    long as the calls that look for and drop a projection return. *)
Theorem projection_never_outlives_run `{PyText} `{PyNumbers} `{GdsCatalog W catalog}
    c hex cx ready graph_name max_iterations limit (w : W) r w' :
  c ∈ allowed_channels →
  run_channel_propagation c hex cx ready graph_name max_iterations limit w = (r, w') →
  same_but (projection_of c hex cx graph_name) (catalog w) (catalog w') ∧
  (is_ok r = true → projection_of c hex cx graph_name ∉ catalog w') ∧
  (catalog_calls_return (W := W) → admitted c cx ready max_iterations limit →
   projection_of c hex cx graph_name ∉ catalog w').
Proof.
  intros Hc Hrun. destruct (run_guards c hex cx ready graph_name max_iterations limit w) as [[Hn [e He]]|[Ha He]];
  rewrite He in Hrun.
  - injection Hrun as <- <-. split_and!; done.
  - apply (projection_spec (catalog := catalog)) in Hrun as [? ?]; [|done]. split_and!; auto.
Qed.

(** ** What a run returns *)
Section output.
Context `{PyText} `{PyNumbers}.

Definition target_id (p : activated_path) : option string :=
  match ap_target_node_id p with PNone => None | v => Some (py_str v) end.
(** The entity of the paths to one node. *)
Definition impact_of c (ranks : pydict spec_float) (ps : list activated_path) (node_id : string) : option impact :=
  let g := group_of target_id node_id ps in
  match g with
  | [] => None
  | p :: _ =>
      Some (mkImpact c (ap_target_node_id p) (ap_target_entity_id p) (sorted_strings (ap_target_labels p))
        (fold_left float_add (map ap_score g) float_zero) node_id (default float_zero (dget node_id ranks))
        (Z.of_nat (length g)))
  end.

Lemma add_path_fold g i :
  fold_left add_path g i = mkImpact (im_channel i) (im_node_id i) (im_entity_id i) (im_labels i)
    (fold_left float_add (map ap_score g) (im_score i)) (im_stable i) (im_pagerank i) (im_path_count i + Z.of_nat (length g)).
Proof.
  revert i. induction g as [|p g IH]; intros i; simpl; [by rewrite Z.add_0_r; destruct i|].
  rewrite IH. simpl. f_equal. lia.
Qed.
Lemma impacts_grouped c ranks ps :
  map snd (fold_left (add_impact c ranks) ps []) =
  omap (impact_of c ranks ps) (first_seen (omap target_id ps)).
Proof.
  set (init p := new_impact c ranks p (default "" (target_id p))).
  transitivity (map snd (group_all target_id init add_path ps)).
  { f_equal. unfold group_all. generalize ([] : pydict impact) as d. induction ps as [|p ps IH]; intros d; [done|].
    cbn [fold_left]. rewrite IH. f_equal. unfold add_impact, group_step, init, target_id.
    by destruct (ap_target_node_id p). }
  rewrite group_all_values. apply list_omap_ext, Forall2_same_length_lookup_2; [done|].
  intros i k k' Hk Hk'. rewrite Hk in Hk'. injection Hk' as <-.
  assert (∀ p, p ∈ group_of target_id k ps → target_id p = Some k) as Hg.
  { intros p Hp. by apply list_elem_of_filter in Hp as [? _]. }
  unfold impact_of, group_value. destruct (group_of target_id k ps) as [|p g]; [done|].
  rewrite add_path_fold. unfold init, new_impact. rewrite (Hg p) by left. cbn -[fold_left length]. do 2 f_equal.
  unfold string_list, str_list. f_equal. rewrite map_map. rewrite (map_ext _ id), map_id; [done|].
  intros a. apply py_str_text.
Qed.

(** What the database returned became the paths of the run. *)
Definition paths_read {W} `{Neo4jClient W} c cx limit (ps : list activated_path) : Prop :=
  ∃ (w w' : W) rows, execute_read (paths_query (selector c))
    [(PStr "result_limit", PInt limit); (PStr "channel_multiplier", PFloat (multiplier c (channel_multipliers cx)));
     (PStr "regime_multiplier", PFloat (multiplier c (regime_multipliers cx)))] w = (Ok rows, w') ∧
  rmap_list (activated_path_of c (multiplier c (channel_multipliers cx)) (multiplier c (regime_multipliers cx))) rows = Ok ps.

Lemma propagate_paths `{Neo4jClient W} c cx name mi limit (w : W) es ps w' :
  propagate c cx name mi limit w = (Ok (es, ps), w') →
  ps = [] ∨ ∃ read, paths_read (W := W) c cx limit read ∧ ps = take (Z.to_nat limit) (sort_by runner_path_key read).
Proof.
  unfold propagate. intros (n & w1 & _ & Hk)%pbind_ok. destruct (n =? 0); [injection Hk as _ <- _; by left|].
  apply pbind_ok in Hk as (es' & w2 & _ & (ps' & w3 & Hr & [= _ <- _])%pbind_ok).
  right. unfold read_activated_paths in Hr. apply pbind_ok in Hr as (rows & w4 & Hrows & Hr).
  apply pbind_ok in Hr as (read & w5 & [= Hread _] & [= <- _]). exists read. split; [|done].
  by exists w2, w4, rows.
Qed.

Lemma run_output `{Neo4jClient W} c hex cx ready graph_name mi limit (w : W) res w' :
  run_channel_propagation c hex cx ready graph_name mi limit w = (Ok res, w') →
  1 ≤ limit ∧ ∃ es ps, (ps = [] ∨ ∃ read, paths_read (W := W) c cx limit read ∧
    ps = take (Z.to_nat limit) (sort_by runner_path_key read)) ∧
  activated_paths res = map path_payload ps ∧
  impacted_entities res = map impact_payload (impacted_entities_from_paths c ps es limit) ∧
  any_dict (PDict [(PStr c, channel_entry c cx ps (impacted_entities_from_paths c ps es limit))]) = Some (channel_breakdown res) ∧
  pr_generation_id res = cx_generation_id cx ∧ 0 ≤ cx_generation_id cx ∧ text (PStr (cx_cycle_id cx)) = Some (pr_cycle_id res).
Proof.
  destruct (run_guards c hex cx ready graph_name mi limit w) as [[_ [e ->]]|[(_ & _ & Hl & _) ->]]; [done|].
  unfold propagate_through_projection. intros (u & w1 & _ & (found & w2 & Hf & Hk)%pbind_ok)%pbind_ok.
  destruct found as [es ps]. simpl in Hk. split; [done|]. exists es, ps.
  assert (∃ w0 w3, propagate c cx (projection_of c hex cx graph_name) mi limit w0 = (Ok (es, ps), w3)) as (w0 & w3 & Hp).
  { apply finally_cases in Hf as (r1 & w4 & Hb & [(u' & _ & <-)|(e & _ & [=])]). eauto. }
  apply propagate_paths in Hp. injection Hk as Hk _. apply validated_result_ok in Hk as (Hc & Hg & Hpos & Ha & He & Hb).
  apply kept_map in Ha; [|apply path_payload_kept]. apply kept_map in He; [|apply impact_payload_kept].
  split_and!; auto.
Qed.
End output.

(** Every path a run returns is of its channel and carries its own
    explanation: its score is the product of the five factors it lists, two of
    which are the multipliers of the context; its evidence references are
    normalized; there are at most as many paths as the limit allows, and where
    no score is NaN they are the best of those read, in order. *)
Theorem activated_paths_are_explained `{PyText} `{PyNumbers} `{Neo4jClient W}
    c hex cx ready graph_name max_iterations limit (w : W) res w' :
  run_channel_propagation c hex cx ready graph_name max_iterations limit w = (Ok res, w') →
  Z.of_nat (length (activated_paths res)) ≤ limit ∧
  Forall (λ d, pget "channel" d = Some (PStr c) ∧
    (∃ refs, pget "evidence_refs" d = Some (PList (map PStr refs)) ∧ refs_ok refs) ∧
    ∃ weight confidence decay,
      let cm := multiplier c (channel_multipliers cx) in let rm := multiplier c (regime_multipliers cx) in
      let score := float_mul (float_mul (float_mul (float_mul weight confidence) cm) rm) decay in
      pget "score" d = Some (PFloat score) ∧
      pget "explanation" d = Some (PDict
        [(PStr "relation_weight", PFloat weight); (PStr "evidence_confidence", PFloat confidence);
         (PStr "channel_multiplier", PFloat cm); (PStr "regime_multiplier", PFloat rm);
         (PStr "recency_decay", PFloat decay); (PStr "score", PFloat score)]))
    (activated_paths res) ∧
  ∃ ps, activated_paths res = map path_payload ps ∧
    (ps = [] ∨ ∃ read, paths_read (W := W) c cx limit read ∧ (keys_proper runner_path_key read →
      StronglySorted (λ p q, key_leb (runner_path_key p) (runner_path_key q)) ps ∧
      ∃ dropped, ps ++ dropped ≡ₚ read ∧
        ∀ p q, p ∈ ps → q ∈ dropped → key_leb (runner_path_key p) (runner_path_key q) = true)).
Proof.
  intros (Hl & es & ps & Hps & Ha & _)%run_output. rewrite Ha. split_and!.
  - rewrite length_map. destruct Hps as [->|(read & _ & ->)]; [simpl; lia|]. rewrite length_take. lia.
  - apply Forall_fmap. destruct Hps as [->|(read & (w1 & w2 & rows & _ & Hread%rmap_list_ok) & ->)]; [constructor|].
    apply Forall_take. unfold sort_by. rewrite py_sort_perm.
    clear Ha. induction Hread as [|row p rows read Hp _ IH]; constructor; [|done]. clear IH.
    unfold activated_path_of in Hp. rinv. split_and!; [done|eexists; split; [done|]|by do 3 eexists].
    match goal with E : evidence_refs_from_mapping _ = Ok _ |- _ => by apply evidence_refs_from_mapping_ok in E end.
  - exists ps. split; [done|]. destruct Hps as [->|(read & Hread & ->)]; [by left|]. right. exists read.
    split; [done|]. intros Hp. split; [by apply sort_take_sorted|].
    exists (drop (Z.to_nat limit) (sort_by runner_path_key read)). split; [rewrite take_drop; apply sort_by_perm|].
    intros p q. by apply sort_take_best.
Qed.

(** The entities a run returns are the targets of the paths it returns, one
    for each, in the order of their scores: the score of an entity is the sum of
    the scores of its paths, added in the order of the paths, its count their
    number, and its labels and identity are those of the first of them. *)
Theorem impacted_entities_are_groups `{PyText} `{PyNumbers} `{Neo4jClient W}
    c hex cx ready graph_name max_iterations limit (w : W) res w' :
  run_channel_propagation c hex cx ready graph_name max_iterations limit w = (Ok res, w') →
  ∃ ranks ps, activated_paths res = map path_payload ps ∧
    impacted_entities res = map impact_payload (take (Z.to_nat limit) (sort_by impact_key
      (omap (impact_of c ranks ps) (first_seen (omap target_id ps))))).
Proof.
  intros (_ & es & ps & _ & Ha & He & _)%run_output. exists (pagerank_by_node_id es), ps. split; [done|].
  rewrite He. unfold impacted_entities_from_paths. by rewrite impacts_grouped.
Qed.

(** ** The context *)

Lemma rfold_snoc {E A B} (f : B → A → result E B) acc l x :
  rfold f acc (l ++ [x])%list = let* a := rfold f acc l in f a x.
Proof.
  revert acc. induction l as [|y l IHl]; intros acc; simpl; [by destruct (f acc x)|].
  destruct (f acc y); simpl; [apply IHl|done].
Qed.

Lemma multipliers_for_ok `{PyNumbers} regime key cs ms :
  multipliers_for regime key cs = Ok ms →
  NoDup (dkeys ms) ∧ (∀ k, k ∈ dkeys ms → k ∈ cs) ∧
  ∀ c, c ∈ cs → ∃ m, dget c ms = Some m ∧ context_multiplier regime key c = Ok m.
Proof.
  unfold multipliers_for. revert ms. induction cs as [|c cs IH] using rev_ind; intros ms.
  { intros [= <-]. split_and!; [constructor|done|by intros c ?%elem_of_nil]. }
  rewrite rfold_snoc. intros (ms0 & Hms & (m & Hm & [= <-])%rbind_ok)%rbind_ok.
  destruct (IH _ Hms) as (Hn & Hk & Hv). split_and!.
  - by apply NoDup_dset.
  - intros k. rewrite dkeys_dset. destruct (dhas c ms0); rewrite elem_of_app; [left; auto|].
    rewrite elem_of_app. intros [?|?]; auto.
  - intros c' [Hc| ->%list_elem_of_singleton]%elem_of_app.
    + rewrite dget_dset. destruct (String.eqb_spec c' c) as [->|_]; [by exists m|by apply Hv].
    + exists m. by rewrite dget_dset_eq.
Qed.

Lemma float_dict_clean ms : NoDup (dkeys ms) → (∀ k, k ∈ dkeys ms → strip k = k) → float_dict ms = ms.
Proof.
  unfold float_dict. change ms with ([] ++ ms)%list at 1 4. generalize ([] : pydict spec_float) as acc.
  induction ms as [|[k v] ms IH]; intros acc; cbn [fold_left fst snd]; [by rewrite app_nil_r|].
  intros Hn Hs. rewrite (Hs k) by left. rewrite dset_new.
  - replace (acc ++ (k, v) :: ms)%list with ((acc ++ [(k, v)]) ++ ms)%list in * by by rewrite <- app_assoc.
    apply IH; [done|]. intros k' Hk'. apply Hs. by right.
  - unfold dkeys in *. rewrite map_app in Hn. apply NoDup_app in Hn as (_ & Hn & _). intros Hin.
    apply (Hn k Hin). left.
Qed.

Lemma context_multiplier_not_negative `{PyNumbers} regime key c m :
  context_multiplier regime key c = Ok m → SFltb m float_zero = false.
Proof.
  unfold context_multiplier. destruct (pget key regime) as [[]|]; try (by intros [= <-]).
  unfold as_non_negative_float. destruct (as_float _ _) as [f|[]]; try done.
  by intros (u & Hf%guard_err_ok & [= <-])%rbind_ok.
Qed.

(** A context that is built names some of the three channels, each once,
    over a graph that is ready if a status was given, and has for each of them
    multipliers that are not less than zero. *)
Theorem built_context_is_valid `{PyNumbers} cycle ws generation status cs regime cx :
  build_propagation_context cycle ws generation status cs regime = Ok cx →
  (∀ st, status = Some st → graph_status st = Ready) ∧ 0 ≤ cx_generation_id cx ∧
  enabled_channels cx ≠ [] ∧ NoDup (enabled_channels cx) ∧
  ∀ c, c ∈ enabled_channels cx → c ∈ allowed_channels ∧
    ∃ cm rm, dget c (channel_multipliers cx) = Some cm ∧ dget c (regime_multipliers cx) = Some rm ∧
      SFltb cm float_zero = false ∧ SFltb rm float_zero = false.
Proof.
  unfold build_propagation_context. intros (u & Hst & H1)%rbind_ok. apply rbind_ok in H1 as (r & _ & H1).
  apply rbind_ok in H1 as (cm & Hcm & H1). apply rbind_ok in H1 as (rm & Hrm & H1). set (req := default ["fundamental"] cs) in *.
  unfold make_context in H1. apply rbind_ok in H1 as (cycle' & _ & H1). apply rbind_ok in H1 as (ws' & _ & H1).
  apply rbind_ok in H1 as (? & Hg%guard_err_ok & H1). apply rbind_ok in H1 as (? & Hok%guard_err_ok & H1).
  apply rbind_ok in H1 as (d & _ & H1). apply rbind_ok in H1 as (rc & _ & [= <-]). simpl.
  unfold channels_ok in Hok. apply negb_false_iff, andb_true_iff in Hok as [[Hne Hall]%andb_true_iff Hnd]. to_prop.
  apply multipliers_for_ok in Hcm as (Hcn & Hck & Hcv), Hrm as (Hrn & Hrk & Hrv).
  assert (∀ c, c ∈ req → c ∈ allowed_channels) as Hallowed.
  { intros c Hc%list_elem_of_In. rewrite forallb_forall in Hall. apply Hall in Hc. by to_prop. }
  assert (∀ c, c ∈ allowed_channels → strip c = c) as Hstrip.
  { intros c. unfold allowed_channels. rewrite !elem_of_cons, elem_of_nil. by intros [->|[->|[->|[]]]]. }
  rewrite !float_dict_clean by eauto. split_and!; try done.
  - intros st ->. apply guard_err_ok in Hst. by to_prop.
  - intros c Hc. split; [auto|]. destruct (Hcv c Hc) as (mc & Hmc & Hc1), (Hrv c Hc) as (mr & Hmr & Hr1).
    exists mc, mr. split_and!; try done.
    + exact (context_multiplier_not_negative _ _ _ _ Hc1).
    + exact (context_multiplier_not_negative _ _ _ _ Hr1).
Qed.
