(* ===== verification/MergeProofs.v ===== *)
(** * MergeProofs: what the merged result of several channels is

    Theorems about [Merge] and runs of propagation and merging. *)
From Stdlib Require Import String Ascii ZArith List SpecFloat.
From stdpp Require Import base gmap strings list sorting pretty.
From S2P Require Import Prelude PyLib Numbers GraphStatus Promotion Programs Client Propagation Merge PropagationProofs.
Import StatusModel StatusManager Evidence PromotionModel Channels Scoring PropagationModel Runner Merge Pipeline.
Local Open Scope string_scope.
Local Open Scope Z_scope.

Section entities.
Context `{PyText} `{PyNumbers}.

(** ** Entities, read one by one and then grouped *)

Record entity_read := mkEntityRead {
  er_key : string;
  er_channel : string;
  er_entity : pdict;
  er_score : spec_float;
  er_paths : Z;
}.
Definition reads_as (counts : gmap (string * string) Z) (entity : pdict) (x : entity_read) : Prop :=
  er_entity x = entity ∧ payload_channel entity = Ok (er_channel x) ∧
  entity_key (get "canonical_entity_id" entity) (get "node_id" entity) = Ok (er_key x) ∧
  value_or_zero (pget "score" entity) = Ok (er_score x) ∧
  entity_path_count counts entity (er_key x) (er_channel x) = Ok (er_paths x).

Definition join (m : merged) (x : entity_read) : merged :=
  join_entity m (er_channel x) (er_entity x) (er_score x) (er_paths x).
Definition init (x : entity_read) : merged := new_merged (er_entity x).

Lemma merge_entities_read counts es d d' :
  rfold (merge_entity counts) d es = Ok d' ↔
  ∃ xs, Forall2 (reads_as counts) es xs ∧ d' = fold_left (group_step (λ x, Some (er_key x)) init join) xs d.
Proof.
  revert d. induction es as [|e es IH]; intros d; cbn [rfold].
  - split; [intros [= <-]; by exists []|]. intros (xs & Hxs & ->). by inversion Hxs.
  - rewrite rbind_ok. setoid_rewrite IH. split.
    + intros (d1 & Hm & xs & Hxs & ->). unfold merge_entity in Hm.
      apply rbind_ok in Hm as (c & Hc & Hm). apply rbind_ok in Hm as (k & Hk & Hm).
      apply rbind_ok in Hm as (s & Hs & Hm). apply rbind_ok in Hm as (n & Hn & [= <-]).
      exists (mkEntityRead k c e s n :: xs). split; [|done]. constructor; [|done]. by split_and!.
    + intros (xs & Hxs & ->). inversion Hxs as [|? x ? xs' (He & Hc & Hk & Hs & Hn) Hxs']; subst.
      eexists. split; [|by exists xs']. unfold merge_entity.
      rewrite Hc. cbn [rbind]. rewrite Hk. cbn [rbind]. rewrite Hs. cbn [rbind]. rewrite Hn. done.
Qed.

(** The merged entity of the payloads of one key: the first identity given, the
    labels of all, per channel the sum of the scores in the order they came,
    and the sum of the path counts. *)
Definition some_id (v : pyval) : option pyval := match v with PNone => None | v => Some v end.
Definition first_id (vs : list pyval) : pyval := default PNone (head (omap some_id vs)).
Definition add_score (d : pydict spec_float) (x : entity_read) : pydict spec_float :=
  dset (er_channel x) (float_add (default float_zero (dget (er_channel x) d)) (er_score x)) d.
Definition lesser_id (v v' : pyval) : pyval :=
  match v, v' with
  | PNone, v => v
  | v, PNone => v
  | v, v' => if negb (String.leb (py_str v) (py_str v')) then v' else v
  end.
Definition merged_of (g : list entity_read) : option merged :=
  match g with
  | [] => None
  | _ =>
      let scores := fold_left add_score g [] in
      Some (mkMerged (first_id (map (λ x, get "canonical_entity_id" (er_entity x)) g))
        (fold_left lesser_id (map (λ x, get "node_id" (er_entity x)) g) PNone)
        (sorted_set (list_to_set (concat (map (λ x, string_list (pget "labels" (er_entity x))) g))))
        (sum_scores scores) scores (sorted_strings (dkeys scores)) (foldr Z.add 0 (map er_paths g)))
  end.
Lemma merge_node_id_lesser m v : merge_node_id m v = lesser_id (me_node_id m) v.
Proof. unfold merge_node_id. by destruct (me_node_id m), v. Qed.

Lemma merge_identities g m :
  me_entity_id (fold_left join g m) = first_id (me_entity_id m :: map (λ x, get "canonical_entity_id" (er_entity x)) g) ∧
  me_node_id (fold_left join g m) = fold_left lesser_id (map (λ x, get "node_id" (er_entity x)) g) (me_node_id m) ∧
  me_path_count (fold_left join g m) = me_path_count m + foldr Z.add 0 (map er_paths g) ∧
  me_channel_scores (fold_left join g m) = fold_left add_score g (me_channel_scores m).
Proof.
  revert m. induction g as [|x g IH]; intros m; cbn [fold_left map foldr].
  - split_and!; [by destruct (me_entity_id m)|done|lia|done].
  - destruct (IH (join m x)) as (-> & -> & -> & ->). unfold join, join_entity. cbn [me_entity_id me_node_id me_path_count me_channel_scores].
    split_and!; [|by rewrite merge_node_id_lesser|lia|done]. unfold merge_entity_id, first_id. by destruct (me_entity_id m).
Qed.

Lemma merge_derived g m : g ≠ [] →
  me_score (fold_left join g m) = sum_scores (me_channel_scores (fold_left join g m)) ∧
  me_channels (fold_left join g m) = sorted_strings (dkeys (me_channel_scores (fold_left join g m))).
Proof. intros Hg. destruct g as [|x g _] using rev_ind; [done|]. rewrite fold_left_app. done. Qed.

Lemma string_list_strings l : string_list (Some (str_list l)) = sorted_strings l.
Proof.
  unfold string_list, str_list. f_equal. rewrite map_map. rewrite (map_ext _ id), map_id; [done|]. apply py_str_text.
Qed.

Lemma merge_labels g x m :
  me_labels (fold_left join (x :: g) m) =
  sorted_set (list_to_set (me_labels m ++ concat (map (λ x, string_list (pget "labels" (er_entity x))) (x :: g)))).
Proof.
  revert x m. induction g as [|y g IH]; intros x m.
  - cbn [fold_left map concat]. rewrite app_nil_r. unfold join, join_entity. cbn [me_labels].
    rewrite string_list_strings. f_equal. apply set_eq. intros l. rewrite elem_of_union, !elem_of_list_to_set, elem_of_app.
    unfold sorted_strings. by rewrite elem_of_py_sort.
  - cbn [fold_left] in IH |- *. rewrite IH. f_equal. unfold join at 1, join_entity. cbn [me_labels map concat].
    rewrite string_list_strings. apply set_eq. intros l. rewrite !elem_of_list_to_set, !elem_of_app, elem_of_sorted_set,
      elem_of_union, !elem_of_list_to_set. unfold sorted_strings. rewrite elem_of_py_sort. tauto.
Qed.

Lemma lesser_id_none v : lesser_id PNone v = v.
Proof. done. Qed.
Lemma lesser_id_same v : lesser_id v v = v.
Proof. destruct v; try done; simpl; by destruct (String.leb _ _). Qed.

Lemma group_merged g : group_value init join g = merged_of g.
Proof.
  destruct g as [|x g]; [done|]. unfold group_value, merged_of. f_equal.
  destruct (merge_identities (x :: g) (init x)) as (He & Hn & Hp & Hs).
  destruct (merge_derived (x :: g) (init x)) as [Hscore Hch]; [done|].
  pose proof (merge_labels g x (init x)) as Hl.
  set (m := fold_left join (x :: g) (init x)) in *. rewrite Hs in Hscore, Hch.
  destruct m as [e n l s cs ch p]; cbn [me_entity_id me_node_id me_labels me_score me_channel_scores me_channels me_path_count] in *.
  subst. f_equal.
  - unfold init, new_merged, first_id. cbn. by destruct (get "canonical_entity_id" (er_entity x)).
  - unfold init, new_merged. cbn [map fold_left me_node_id]. by rewrite lesser_id_same, lesser_id_none.
Qed.
End entities.

Section merging.
Context `{PyText} `{PyNumbers}.
Context (walk : gset string → list string).

(** A result whose payloads have passed validation. *)
Definition valid_result (r : PropagationResult) : Prop :=
  Forall keys_clean (activated_paths r) ∧ Forall keys_clean (impacted_entities r) ∧ keys_clean (channel_breakdown r) ∧
  0 ≤ pr_generation_id r ∧ text (PStr (pr_cycle_id r)) = Some (pr_cycle_id r).

Lemma validated_result_valid cycle generation paths entities breakdown r :
  validated_result cycle generation paths entities breakdown = Ok r → valid_result r.
Proof.
  intros (Hc & Hgen & Hg & Hp & He & Hb)%validated_result_ok.
  assert (∀ l l' : list pdict, Forall2 (λ p p', any_dict (PDict p) = Some p') l l' → Forall keys_clean l') as Hclean.
  { intros l l' Hf. induction Hf as [|p p' l l' Hp' _ IH]; constructor; [by eapply any_dict_clean|done]. }
  split_and!; eauto using any_dict_clean; [lia|]. apply text_of_ok. by eapply text_ok.
Qed.

Definition path_key (p : pdict) : sort_key := key_or_empty (path_sort_key p).
Abbreviation all_paths rs := (concat (map activated_paths rs)).

Lemma gather_ok results ps b cs ps' b' cs' :
  rfold (gather walk) (ps, b, cs) results = Ok (ps', b', cs') →
  ps' = (ps ++ all_paths results)%list ∧ Forall (λ p, validate_path p = Ok ()) (all_paths results).
Proof.
  revert ps b cs. induction results as [|r results IH]; intros ps b cs; cbn [rfold].
  - intros [= <- <- <-]. simpl. by rewrite app_nil_r.
  - intros ([[ps1 b1] cs1] & Hg & Hrest)%rbind_ok. apply IH in Hrest as [-> Hall]. unfold gather in Hg.
    apply rbind_ok in Hg as (cs2 & _ & Hg). apply rbind_ok in Hg as (b2 & _ & Hg).
    apply rbind_ok in Hg as ([] & Hv%riter_ok & [= <- _ _]). cbn [map concat].
    rewrite <- app_assoc. split; [done|]. by apply Forall_app.
Qed.

Lemma merge_inversion results limit m :
  merge_propagation_results walk results limit = Ok m →
  1 ≤ limit ∧ (∃ first, head results = Some first ∧
    Forall (λ r, pr_cycle_id r = pr_cycle_id first ∧ pr_generation_id r = pr_generation_id first) results ∧
    text (PStr (pr_cycle_id first)) = Some (pr_cycle_id m) ∧ pr_generation_id m = pr_generation_id first) ∧
  Forall (λ p, validate_path p = Ok () ∧ is_ok (path_sort_key p) = true) (all_paths results) ∧
  Forall2 (λ p p', any_dict (PDict p) = Some p') (take (Z.to_nat limit) (sort_by path_key (all_paths results))) (activated_paths m) ∧
  ∃ counts d, entity_path_counts results = Ok counts ∧
    rfold (merge_entity counts) [] (concat (map impacted_entities results)) = Ok d ∧
    impacted_entities m = map merged_payload (take (Z.to_nat limit) (sort_by entity_sort_key (map snd d))).
Proof.
  unfold merge_propagation_results. destruct results as [|first rest]; [done|]. set (results := first :: rest) in *.
  intros H1. apply rbind_ok in H1 as (? & Hl%guard_err_ok & H1). apply rbind_ok in H1 as ([] & Hsame%riter_ok & H1).
  apply rbind_ok in H1 as (counts & Hcounts & H1). apply rbind_ok in H1 as ([[ps b] cs] & Hg%gather_ok & H1).
  destruct Hg as [Hps Hvalid]. simpl in Hps. subst ps.
  apply rbind_ok in H1 as (sorted & [Hkeys Hsort]%sort_by_result_sort & H1).
  apply rbind_ok in H1 as (entities & He & H1). apply rbind_ok in H1 as (scores & _ & H1).
  apply rbind_ok in He as (d & Hd & [= <-]). apply validated_result_ok in H1 as (Hc & Hgen & _ & Hp & Hent & _).
  split; [lia|]. split.
  { exists first. split_and!; [done| |done|done]. eapply Forall_impl; [exact Hsame|]. intros r Hr.
    apply rbind_ok in Hr as (? & Hc1%guard_err_ok & Hr). apply rbind_ok in Hr as (? & Hc2%guard_err_ok & _). by to_prop. }
  split; [by apply Forall_and|]. split; [by subst sorted|].
  exists counts, d. split_and!; [done..|]. apply kept_map in Hent; [done|apply merged_payload_kept].
Qed.

Lemma clean_kept (l l' : list pdict) :
  Forall keys_clean l → Forall2 (λ p p', any_dict (PDict p) = Some p') l l' → l' = l.
Proof.
  intros Hc Hf. induction Hf as [|p p' l l' Hp _ IH]; [done|]. apply Forall_cons in Hc as [Hp' Hl].
  rewrite any_dict_kept in Hp by done. injection Hp as <-. f_equal. auto.
Qed.

Lemma merge_paths results limit m :
  Forall valid_result results → merge_propagation_results walk results limit = Ok m →
  activated_paths m = take (Z.to_nat limit) (sort_by path_key (all_paths results)).
Proof.
  intros Hv (_ & _ & _ & Hp & _)%merge_inversion. eapply clean_kept; [|exact Hp]. apply Forall_take.
  unfold sort_by. rewrite py_sort_perm. apply Forall_concat, Forall_fmap. eapply Forall_impl; [exact Hv|]. by intros r [? _].
Qed.
End merging.

(** The paths of a merged result are paths of the results, each with its
    channel and full explanation; there are no more than the limit, and where
    no score is NaN they are in order and none that was left out is better. *)
Theorem merged_paths_are_the_best `{PyText} `{PyNumbers} walk results limit m :
  Forall valid_result results → merge_propagation_results walk results limit = Ok m →
  Z.of_nat (length (activated_paths m)) ≤ limit ∧
  Forall (λ p, validate_path p = Ok ()) (activated_paths m) ∧
  ∃ dropped, activated_paths m ++ dropped ≡ₚ concat (map activated_paths results) ∧
    (keys_proper path_key (concat (map activated_paths results)) →
     StronglySorted (λ p q, key_leb (path_key p) (path_key q)) (activated_paths m) ∧
     ∀ p q, p ∈ activated_paths m → q ∈ dropped → key_leb (path_key p) (path_key q) = true).
Proof.
  intros Hv Hm. pose proof (merge_paths walk _ _ _ Hv Hm) as ->. apply merge_inversion in Hm as (Hl & _ & Hvalid & _).
  split_and!.
  - rewrite length_take. lia.
  - apply Forall_take. unfold sort_by. rewrite py_sort_perm. eapply Forall_impl; [exact Hvalid|]. by intros p [? _].
  - eexists. split; [rewrite take_drop; apply sort_by_perm|]. intros Hp.
    split; [by apply sort_take_sorted|]. intros p q. by apply sort_take_best.
Qed.

(** The order of the results does not matter to the paths of the merged
    result, where no score is NaN and no two different paths have the same key. *)
Theorem merge_ignores_channel_order `{PyText} `{PyNumbers} walk walk' results results' limit m m' :
  Forall valid_result results → results ≡ₚ results' →
  keys_proper path_key (concat (map activated_paths results)) →
  (∀ p q, p ∈ concat (map activated_paths results) → q ∈ concat (map activated_paths results) →
    key_leb (path_key p) (path_key q) = true → key_leb (path_key q) (path_key p) = true → p = q) →
  merge_propagation_results walk results limit = Ok m → merge_propagation_results walk' results' limit = Ok m' →
  activated_paths m = activated_paths m'.
Proof.
  intros Hv Hperm Hp Hinj Hm Hm'. apply merge_paths in Hm; [|done].
  apply merge_paths in Hm'; [|by rewrite <- Hperm]. rewrite Hm, Hm'. f_equal.
  apply sort_by_perm_eq; [done|done|]. by rewrite Hperm.
Qed.

(** Merged entities are the entities of the results grouped by their key,
    the canonical identity or else the node: one for each key, with the labels
    of all its payloads, per channel the sum of their scores and over the
    channels the total, and the sum of their path counts. *)
Theorem merged_entities_are_groups `{PyText} `{PyNumbers} walk results limit m :
  merge_propagation_results walk results limit = Ok m →
  ∃ counts xs, entity_path_counts results = Ok counts ∧
    Forall2 (reads_as counts) (concat (map impacted_entities results)) xs ∧
    impacted_entities m = map merged_payload (take (Z.to_nat limit) (sort_by entity_sort_key
      (omap (λ k, merged_of (filter (λ x, er_key x = k) xs)) (first_seen (map er_key xs))))).
Proof.
  intros (_ & _ & _ & _ & counts & d & Hc & Hd & ->)%merge_inversion.
  apply merge_entities_read in Hd as (xs & Hxs & ->). exists counts, xs. split_and!; [done..|].
  fold (group_all (λ x, Some (er_key x)) init join xs). rewrite group_all_values. do 3 f_equal.
  assert (omap (λ x, Some (er_key x)) xs = map er_key xs) as ->.
  { clear. induction xs as [|x xs IH]; [done|]. simpl. by f_equal. }
  apply list_omap_ext, Forall2_same_length_lookup_2; [done|]. intros i k k' Hk Hk'. rewrite Hk in Hk'. injection Hk' as <-.
  rewrite group_merged. f_equal. apply list_filter_iff. intros x. naive_solver.
Qed.

(** ** The results of the channels merge *)
Section pipeline.
Context `{PyText} `{PyNumbers} {W : Type} `{Neo4jClient W}.
Context (walk : gset string → list string) (walk_lists : ∀ s, walk s ≡ₚ elements s).
Context (cx : PropagationContext) (limit : Z).

(** What a run of channel [c] leaves behind. *)
Definition produced (c : string) (r : PropagationResult) : Prop :=
  c ∈ allowed_channels ∧ valid_result r ∧ pr_generation_id r = cx_generation_id cx ∧
  text (PStr (cx_cycle_id cx)) = Some (pr_cycle_id r) ∧
  (∃ entry, channel_breakdown r = [(PStr c, entry)]) ∧
  ∃ ps es, Forall (λ p, ap_channel p = c) ps ∧ activated_paths r = map path_payload ps ∧
    impacted_entities r = map impact_payload (impacted_entities_from_paths c ps es limit).
(** Every target of a path has a name to be merged under. *)
Definition identified (p : pdict) : Prop :=
  is_ok (path_entity_key (get "target_entity_id" p) (get "target_node_id" p)) = true.

Lemma allowed_cases (P : string → Prop) c :
  c ∈ allowed_channels → P "fundamental" → P "event" → P "reflexive" → P c.
Proof. unfold allowed_channels. rewrite !elem_of_cons, elem_of_nil. by intros [->|[->|[->|[]]]]. Qed.

Lemma rfold_total {E A B} (f : B → A → result E B) acc l :
  (∀ b x, x ∈ l → is_ok (f b x) = true) → ∃ b, rfold f acc l = Ok b.
Proof.
  revert acc. induction l as [|x l IH]; intros acc Hf; [by eexists|]. cbn [rfold].
  destruct (f acc x) as [b|] eqn:Ef; [|specialize (Hf acc x (list_elem_of_here _ _)); by rewrite Ef in Hf].
  simpl. apply IH. intros b' y Hy. apply Hf. by right.
Qed.

Lemma allowed_not_empty c : c ∈ allowed_channels → is_empty c = false ∧ strip c = c.
Proof. intros Hc. by apply (allowed_cases (λ c, is_empty c = false ∧ strip c = c) c Hc). Qed.

Lemma payload_channel_ok p c : c ∈ allowed_channels → pget "channel" p = Some (PStr c) → payload_channel p = Ok c.
Proof.
  intros Hc Hp. unfold payload_channel. rewrite Hp. destruct (allowed_not_empty c Hc) as [-> _].
  by rewrite bool_decide_eq_true_2.
Qed.

Lemma path_payload_valid p : ap_channel p ∈ allowed_channels →
  payload_channel (path_payload p) = Ok (ap_channel p) ∧ validate_path (path_payload p) = Ok () ∧
  is_ok (path_sort_key (path_payload p)) = true ∧ is_ok (value_or_zero (pget "score" (path_payload p))) = true.
Proof.
  intros Hc. assert (payload_channel (path_payload p) = Ok (ap_channel p)) as Hp by by apply payload_channel_ok.
  split_and!; [done| |done|done]. unfold validate_path. rewrite Hp. done.
Qed.

(** An entity of a run stands for the target of one of its paths. *)
Lemma impact_source c ps es i :
  i ∈ impacted_entities_from_paths c ps es limit →
  im_channel i = c ∧ ∃ p, p ∈ ps ∧ im_node_id i = ap_target_node_id p ∧ im_entity_id i = ap_target_entity_id p ∧
    ap_target_node_id p ≠ PNone.
Proof.
  unfold impacted_entities_from_paths. rewrite impacts_grouped. intros Hi%elem_of_take.
  destruct Hi as (n & Hi & _). apply list_elem_of_lookup_2 in Hi. unfold sort_by in Hi. rewrite elem_of_py_sort in Hi.
  apply list_elem_of_omap in Hi as (k & _ & Hi). unfold impact_of in Hi.
  destruct (group_of target_id k ps) as [|p g] eqn:Eg; [done|]. injection Hi as <-. split; [done|].
  exists p. assert (p ∈ group_of target_id k ps) as Hp by (rewrite Eg; left).
  apply list_elem_of_filter in Hp as [Ht Hp]. split_and!; try done. intros En. unfold target_id in Ht. by rewrite En in Ht.
Qed.

(** *** The steps of the merge *)
Lemma produced_channels c r : produced c r → result_channels r = Ok {[c]}.
Proof.
  intros (Hc & _ & _ & _ & (entry & Hb) & ps & es & Hps & Ha & He). unfold result_channels. rewrite Ha, He, Hb.
  rewrite list.Forall_forall in Hps.
  assert (∀ {A} (f : A → pdict) l, (∀ x, x ∈ l → pget "channel" (f x) = Some (PStr c)) →
    rmap_list payload_channel (map f l) = Ok (map (λ _, c) l)) as Hch.
  { intros A f l Hf. apply rmap_list_ok. apply Forall2_fmap, Forall_Forall2_diag, list.Forall_forall.
    intros x Hx. apply payload_channel_ok; auto. }
  rewrite Hch by (intros p Hp; by rewrite <- (Hps p Hp)). cbn [rbind].
  rewrite Hch by (intros i [Hi _]%impact_source; by rewrite <- Hi). cbn [rbind].
  assert (breakdown_channels [(PStr c, entry)] = [c]) as ->.
  { unfold breakdown_channels. simpl. by rewrite bool_decide_eq_true_2. }
  match goal with |- context [list_to_set ?l] => assert (list_to_set l = ({[c]} : gset string)) as -> end.
  { apply set_eq. intros x. rewrite elem_of_list_to_set, elem_of_singleton, !elem_of_app, !list_elem_of_fmap, list_elem_of_singleton.
    naive_solver. }
  rewrite bool_decide_eq_false_2; [done|]. set_solver.
Qed.

Lemma produced_gathers c r ps b cs :
  produced c r → is_ok (gather walk (ps, b, cs) r) = true.
Proof.
  intros Hr. unfold gather. rewrite (produced_channels c r Hr). cbn [rbind].
  assert (walk {[c]} = [c]) as ->.
  { apply Permutation_singleton_r. by rewrite walk_lists, elements_singleton. }
  destruct Hr as (Hc & _ & _ & _ & (entry & Hb) & ps' & es & Hps & Ha & _). cbn [rfold]. unfold take_breakdown at 1.
  rewrite Hb. cbn [pget is_key]. rewrite String.eqb_refl. cbn [rbind].
  assert (riter validate_path (activated_paths r) = Ok ()) as ->; [|done].
  rewrite Ha. apply riter_ok, Forall_fmap. eapply Forall_impl; [exact Hps|]. intros p Hp. simpl in Hp.
  apply path_payload_valid. by rewrite Hp.
Qed.

Lemma produced_counts c r counts p : produced c r → identified p → p ∈ activated_paths r → is_ok (count_path counts p) = true.
Proof.
  intros (Hc & _ & _ & _ & _ & ps & es & Hps & Ha & _) Hid Hp. rewrite Ha in Hp.
  apply list_elem_of_fmap in Hp as (p' & -> & Hp'). rewrite list.Forall_forall in Hps. unfold count_path.
  rewrite (proj1 (path_payload_valid p' ltac:(by rewrite (Hps p' Hp')))). cbn [rbind].
  unfold identified in Hid. destruct (path_entity_key _ _) as [[k|]|]; done.
Qed.

Lemma produced_entity c r counts d e :
  produced c r → Forall identified (activated_paths r) → e ∈ impacted_entities r →
  is_ok (merge_entity counts d e) = true.
Proof.
  intros (Hc & _ & _ & _ & _ & ps & es & Hps & Ha & He) Hid Hin. rewrite He in Hin.
  apply list_elem_of_fmap in Hin as (i & -> & Hi). apply impact_source in Hi as (Hch & p & Hp & Hn & Hent & Hne).
  rewrite Ha, Forall_fmap, list.Forall_forall in Hid. specialize (Hid p Hp).
  unfold merge_entity. rewrite (payload_channel_ok _ c) by (try done; by rewrite <- Hch). cbn [rbind].
  change (get "canonical_entity_id" (impact_payload i)) with (im_entity_id i).
  change (get "node_id" (impact_payload i)) with (im_node_id i). rewrite Hn, Hent.
  assert (is_ok (entity_key (ap_target_entity_id p) (ap_target_node_id p)) = true) as [k ->]%is_ok_ex; [|done].
  assert (is_ok (path_entity_key (ap_target_entity_id p) (ap_target_node_id p)) = true) as Hkey by exact Hid.
  revert Hkey. unfold path_entity_key. destruct (ap_target_entity_id p), (ap_target_node_id p); try congruence;
  by destruct (entity_key _ _).
Qed.

Definition text_keys (d : pdict) : Prop := Forall (λ kv : pyval * pyval, is_str kv.1 = true) d.

Lemma pset_text_keys k v d : text_keys d → text_keys (pset k v d).
Proof.
  intros Hd. induction Hd as [|[k' v'] d Hk Hd IH]; simpl; [by repeat constructor|].
  destruct (is_key k k'); by constructor.
Qed.

Lemma gather_text_keys rs acc ps b cs : text_keys acc.1.2 → rfold (gather walk) acc rs = Ok (ps, b, cs) → text_keys b.
Proof.
  intros Hacc Hg. change (text_keys (ps, b, cs).1.2). revert Hg.
  apply (rfold_inv (λ x : list pdict * pdict * gset string, text_keys x.1.2)); [exact Hacc|].
  intros [[ps1 b1] cs1] r [[ps2 b2] cs2] _ Hb Hr. unfold gather in Hr.
  apply rbind_ok in Hr as (cs3 & _ & Hr). apply rbind_ok in Hr as (b3 & Hb3 & Hr).
  apply rbind_ok in Hr as (u & _ & [= _ <- _]). simpl. revert Hb3. apply (rfold_inv text_keys); [exact Hb|].
  intros d c d' _ Hd Ht. unfold take_breakdown in Ht. destruct (pget c _); [|done]. injection Ht as <-. by apply pset_text_keys.
Qed.

Lemma any_dict_text_keys d : text_keys d → ∃ d', any_dict (PDict d) = Some d'.
Proof.
  intros Hd. unfold any_dict. rewrite (proj2 (forallb_forall _ _)); [by eexists|].
  intros kv Hkv%list_elem_of_In. unfold text_keys in Hd. rewrite list.Forall_forall in Hd. auto.
Qed.

Lemma produced_merge cs rs :
  rs ≠ [] → 1 ≤ limit → Forall2 produced cs rs → Forall identified (concat (map activated_paths rs)) →
  ∃ m, merge_propagation_results walk rs limit = Ok m.
Proof.
  intros Hne Hl Hrs Hid. unfold merge_propagation_results. destruct rs as [|first rest] eqn:Ers; [done|]. rewrite <- Ers in *.
  clear Hne. rewrite (proj2 (Z.ltb_ge limit 1)) by done. cbn [guard_err rbind].
  assert (∀ r, r ∈ rs → ∃ c, produced c r) as Hall.
  { intros r Hr. apply list_elem_of_lookup in Hr as [i Hi]. destruct (Forall2_lookup_r _ _ _ _ _ Hrs Hi) as (c & _ & ?). eauto. }
  assert (∀ r, r ∈ rs → Forall identified (activated_paths r)) as Hids.
  { intros r Hr. apply list.Forall_forall. intros p Hp. rewrite list.Forall_forall in Hid. apply Hid.
    apply list_elem_of_In, in_concat. exists (activated_paths r). rewrite <- !list_elem_of_In. split; [|done].
    by apply list_elem_of_fmap_2. }
  assert (first ∈ rs) as Hfirst by (rewrite Ers; left).
  assert (∀ {A} (f : PropagationResult → list A) x, x ∈ concat (map f rs) → ∃ r, r ∈ rs ∧ x ∈ f r) as Hconcat.
  { intros A f x Hx%list_elem_of_In%in_concat. destruct Hx as (l & Hl1 & Hx).
    apply list_elem_of_In in Hl1, Hx. apply list_elem_of_fmap in Hl1 as (r & -> & Hr). eauto. }
  assert (riter (same_run (pr_cycle_id first) (pr_generation_id first)) rs = Ok ()) as ->.
  { apply riter_ok, list.Forall_forall. intros r Hr. unfold same_run.
    destruct (Hall r Hr) as (c & _ & _ & Hg & Hc & _), (Hall first Hfirst) as (c' & _ & _ & Hg' & Hc' & _).
    rewrite Hc' in Hc. injection Hc as <-. rewrite String.eqb_refl, Hg, Hg', Z.eqb_refl. done. }
  cbn [rbind].
  assert (∃ counts, entity_path_counts rs = Ok counts) as [counts ->].
  { apply rfold_total. intros counts p Hp. apply Hconcat in Hp as (r & Hr & Hp). destruct (Hall r Hr) as [c Hc].
    eapply produced_counts; [done| |done]. pose proof (Hids r Hr) as Hidr. rewrite list.Forall_forall in Hidr. auto. }
  cbn [rbind].
  destruct (rfold_total (gather walk) ([], [], ∅) rs) as [[[ps b] cs'] Hg].
  { intros [[ps b] cs'] r Hr. destruct (Hall r Hr) as [c Hc]. by eapply produced_gathers. }
  rewrite Hg. cbn [rbind]. pose proof (gather_ok walk _ _ _ _ _ _ _ Hg) as [-> _]. cbn [app].
  assert (∀ p, p ∈ concat (map activated_paths rs) → keys_clean p ∧ is_ok (path_sort_key p) = true ∧
    is_ok (value_or_zero (pget "score" p)) = true) as Hpaths.
  { intros p Hp. apply Hconcat in Hp as (r & Hr & Hp). destruct (Hall r Hr) as (c & Hc & [Hv _] & _ & _ & _ & ps' & es & Hps & Ha & _).
    rewrite list.Forall_forall in Hv. rewrite list.Forall_forall in Hps. split; [by apply Hv|]. rewrite Ha in Hp.
    apply list_elem_of_fmap in Hp as (p' & -> & Hp'). apply path_payload_valid. by rewrite (Hps p' Hp'). }
  rewrite (proj2 (sort_by_result_sort path_sort_key _ _) (conj (proj2 (list.Forall_forall _ _) (λ p Hp, proj1 (proj2 (Hpaths p Hp)))) eq_refl)).
  cbn [rbind]. unfold merge_impacted_entities.
  destruct (rfold_total (merge_entity counts) [] (concat (map impacted_entities rs))) as [d Hd].
  { intros d e He. apply Hconcat in He as (r & Hr & He). destruct (Hall r Hr) as [c Hc]. by eapply produced_entity; eauto. }
  rewrite Hd. cbn [rbind].
  assert (∀ p, p ∈ take (Z.to_nat limit) (sort_by (λ x, key_or_empty (path_sort_key x)) (concat (map activated_paths rs))) →
    p ∈ concat (map activated_paths rs)) as Htake.
  { intros p (i & Hi & _)%elem_of_take. apply list_elem_of_lookup_2 in Hi. unfold sort_by in Hi. by rewrite elem_of_py_sort in Hi. }
  destruct (rmap_list_total (λ p, value_or_zero (pget "score" p))
    (take (Z.to_nat limit) (sort_by (λ x, key_or_empty (path_sort_key x)) (concat (map activated_paths rs))))) as [scores ->].
  { intros p Hp. by apply Hpaths, Htake. }
  cbn [rbind]. destruct (Hall first Hfirst) as (c & _ & (_ & _ & _ & Hgen & Hcycle) & _).
  unfold validated_result. rewrite Hcycle. cbn [required rbind]. rewrite (proj2 (Z.ltb_ge _ 0)) by done. cbn [guard_err rbind].
  match goal with |- context [rmap_list ?f (take ?n ?l)] => destruct (rmap_list_total f (take n l)) as [ps' ->] end.
  { intros p Hp. rewrite any_dict_kept; [done|]. by apply Hpaths, Htake. }
  cbn [rbind]. rewrite rmap_kept by apply merged_payload_kept. cbn [rbind].
  destruct (any_dict_text_keys (pset "merged" (merged_entry cs' (take (Z.to_nat limit)
    (sort_by (λ x, key_or_empty (path_sort_key x)) (concat (map activated_paths rs))))
    (take (Z.to_nat limit) (sort_by entity_sort_key (map snd d))) (float_sum scores) limit) b)) as [b' ->].
  - apply pset_text_keys. eapply (gather_text_keys rs ([], [], ∅)); [constructor|exact Hg].
  - cbn [required rbind]. by eexists.
Qed.

Lemma run_produced c hex ready graph_name mi (w : W) r w' :
  c ∈ allowed_channels →
  run_channel_propagation c hex cx ready graph_name mi limit w = (Ok r, w') → produced c r.
Proof.
  intros Hc (Hl & es & ps & Hps & Ha & He & Hb & Hg & Hpos & Ht)%run_output.
  assert (Forall (λ p, ap_channel p = c) ps) as Hch.
  { destruct Hps as [->|(read & (w1 & w2 & rows & _ & Hread%rmap_list_ok) & ->)]; [constructor|]. apply Forall_take.
    unfold sort_by. rewrite py_sort_perm. clear Ha He Hb. induction Hread as [|row p rows read Hp _ IH]; constructor; [|done].
    unfold activated_path_of in Hp. rinv. done. }
  split_and!; [done| |done|done| |by exists ps, es].
  - split_and!; [| |exact (any_dict_clean _ _ Hb)|lia|exact (text_of_ok _ (text_ok _ _ Ht))].
    + rewrite Ha. apply Forall_fmap, Forall_true. intros p. eapply any_dict_clean, path_payload_kept.
    + rewrite He. apply Forall_fmap, Forall_true. intros i. eapply any_dict_clean, impact_payload_kept.
  - revert Hb. generalize (channel_entry c cx ps (impacted_entities_from_paths c ps es limit)). intros entry.
    change (any_dict (PDict [(PStr c, entry)])) with (Some [(PStr (strip c), entry)]).
    rewrite (proj2 (allowed_not_empty c Hc)). intros [= <-]. by eexists.
Qed.

Lemma run_all_ok (P : string → PropagationResult → Prop) (f : string → prog W PropagationResult) cs (w : W) rs w' :
  (∀ c w a w', c ∈ cs → f c w = (Ok a, w') → P c a) → run_all f cs w = (Ok rs, w') → Forall2 P cs rs.
Proof.
  revert w rs w'. induction cs as [|c cs IH]; intros w rs w' Hf; cbn [run_all].
  - intros [= <- _]. constructor.
  - intros (r & w1 & Hr & (rs' & w2 & Hrs & [= <- _])%pbind_ok)%pbind_ok. constructor.
    + eapply Hf; [left|exact Hr].
    + eapply IH; [|exact Hrs]. intros; eapply Hf; [by right|done].
Qed.
End pipeline.

(** C35: when each channel's run returns, the whole propagation returns: the
    results it merges are of one cycle and generation, their payloads complete
    and their channels accounted for. All it takes is that every target of a
    path has an identity that is not the empty text. *)
Theorem full_propagation_returns `{PyText} `{PyNumbers} `{Neo4jClient W}
    walk hex cx ready graph_name max_iterations limit (w : W) rs w' :
  (∀ s, walk s ≡ₚ elements s) → enabled_channels cx ≠ [] → 1 ≤ max_iterations → 1 ≤ limit →
  run_all (run_channel hex cx ready graph_name max_iterations limit) (enabled_channels cx) w = (Ok rs, w') →
  Forall identified (concat (map activated_paths rs)) →
  ∃ m, run_full_propagation walk hex cx ready graph_name max_iterations limit w = (Ok m, w').
Proof.
  intros Hwalk Hne Hmi Hl Hrun Hid. unfold run_full_propagation.
  rewrite !lift_guard, (proj2 (Z.ltb_ge _ _)), (proj2 (Z.ltb_ge _ _)) by done.
  assert (Forall2 (produced cx limit) (enabled_channels cx) rs) as Hrs.
  { eapply run_all_ok; [|exact Hrun]. intros c w1 a w2 _ Hc. unfold run_channel in Hc.
    case_bool_decide; [|done]. by eapply run_produced. }
  destruct (produced_merge walk Hwalk cx limit (enabled_channels cx) rs) as [m Hm]; try done.
  { intros ->. by apply Forall2_nil_inv_r in Hrs. }
  exists m. unfold pbind. by rewrite Hrun, Hm.
Qed.

(** The catalog after runs that each touch a projection of their own, and leave
    it there only if they fail and [tidy] does not hold. *)
Lemma run_all_catalog {W} (catalog : W → gset string) (f : string → prog W PropagationResult) (names : string → string) (tidy : Prop)
    cs (w : W) r w' :
  (∀ c w r w', f c w = (r, w') → catalog w' ⊆ catalog w ∪ {[names c]} ∧ catalog w ∖ {[names c]} ⊆ catalog w' ∧
     (is_ok r = true ∨ tidy → catalog w' ⊆ catalog w)) →
  run_all f cs w = (r, w') →
  catalog w' ⊆ catalog w ∪ list_to_set (map names cs) ∧ catalog w ∖ list_to_set (map names cs) ⊆ catalog w' ∧
  (is_ok r = true ∨ tidy → catalog w' ⊆ catalog w).
Proof.
  intros Hstep. revert w r. induction cs as [|c cs IH]; intros w r; cbn [run_all map list_to_set]; [intros [= <- <-]; set_solver|].
  intros [(r2 & w2 & Hc & Hrest)|(e & Hc & ->)]%pbind_cases; apply Hstep in Hc as (Hsub & Hkeep & Htidy).
  2: { split_and!; [set_solver|set_solver|]. intros [?|?]; auto. }
  apply pbind_cases in Hrest as [(rs & w3 & Hcs & [= <- <-])|(e & Hcs & ->)]; apply IH in Hcs as (Hsub' & Hkeep' & Htidy').
  - split_and!; [set_solver| |intros _; etrans; [apply Htidy'; auto|apply Htidy; auto]].
    intros n Hn. apply Hkeep', elem_of_difference. split; [apply Hkeep|]; set_solver.
  - split_and!; [set_solver| |intros [?|?]; [done|]; etrans; [apply Htidy'; auto|apply Htidy; auto]].
    intros n Hn. apply Hkeep', elem_of_difference. split; [apply Hkeep|]; set_solver.
Qed.

(** C33: a propagation over all channels touches no projection of the catalog
    but those it names its own after: others are neither made nor dropped,
    however it ends. When it returns it leaves none of its own behind, and when
    it raises neither, as long as the calls that look for and drop a projection
    return. *)
Theorem full_propagation_leaves_nothing `{PyText} `{PyNumbers} `{GdsCatalog W catalog}
    walk hex cx ready graph_name max_iterations limit (w : W) r w' :
  run_full_propagation walk hex cx ready graph_name max_iterations limit w = (r, w') →
  let own : gset string := list_to_set (map (λ c, projection_of c (hex c) cx (projection_name graph_name c (length (enabled_channels cx))))
    (enabled_channels cx)) in
  catalog w' ⊆ catalog w ∪ own ∧ catalog w ∖ own ⊆ catalog w' ∧
  (is_ok r = true ∨ catalog_calls_return (W := W) → catalog w' ⊆ catalog w).
Proof.
  unfold run_full_propagation. rewrite !lift_guard.
  destruct (max_iterations <? 1); [intros [= _ <-]; set_solver|]. destruct (limit <? 1); [intros [= _ <-]; set_solver|].
  intros Hrun. assert (∃ r1, run_all (run_channel hex cx ready graph_name max_iterations limit) (enabled_channels cx) w = (r1, w') ∧
    (is_ok r = true → is_ok r1 = true)) as (r1 & Hall & Hr).
  { apply pbind_cases in Hrun as [(a & w1 & Hrun & [= _ <-])|(e & Hrun & ->)]; eauto. }
  apply (run_all_catalog catalog _ (λ c, projection_of c (hex c) cx (projection_name graph_name c (length (enabled_channels cx))))
    (catalog_calls_return (W := W))) in Hall as (H1' & H2' & H3'); [split_and!; [done..|intros [?|?]; auto]|].
  intros c w1 r2 w2. unfold run_channel. case_bool_decide as Hc; [|intros [= <- <-]; set_solver].
  destruct (run_guards c (hex c) cx (ready c) (projection_name graph_name c (length (enabled_channels cx)))
    max_iterations limit w1) as [[_ [e ->]]|[_ ->]]; [intros [= <- <-]; set_solver|].
  set (name := projection_of _ _ _ _). intros [Hs Hout]%(projection_spec (catalog := catalog)); [|done].
  split_and!.
  - intros n Hn. destruct (decide (n = name)) as [->|Hne]; [set_solver|]. apply elem_of_union_l. by apply Hs.
  - intros n Hn. apply Hs; set_solver.
  - intros Hok n Hn. destruct (decide (n = name)) as [->|Hne]; [by apply Hout in Hok|]. by apply Hs.
Qed.

(** ** Runs *)
Module PropagationExamples.
Import StatusStore StatusExamples.

#[local] Instance plain_text : PyText.
Proof.
  refine {| py_str v := match v with PStr s => s | PInt z => pretty z | PNone => "None" | _ => "object" end;
            json_quote s := s; json_float f := "0.0"; isoformat t := pretty t; sha256 s := 0 |}.
  done.
Defined.
#[local] Instance no_texts : PyNumbers :=
  {| parse_float s := if String.eqb s "nan" then Some S754_nan else None; parse_int s := None |}.

(** A database of one catalog that answers the other queries with fixed rows,
    and fails on PageRank if told to. *)
Record toy := mkToy {
  toy_catalog : gset string;
  toy_paths : list pdict;
  toy_ranks : list pdict;
  toy_broken : bool;
}.
Definition with_catalog (c : gset string) (w : toy) : toy := mkToy c (toy_paths w) (toy_ranks w) (toy_broken w).
Definition graph_name_of (parameters : pdict) : string :=
  match pget "graph_name" parameters with Some (PStr n) => n | _ => "" end.
#[local] Instance toy_client : Neo4jClient toy := {
  execute_read q ps w :=
    if String.eqb q exists_query then
      (Ok [[(PStr "exists", PBool (bool_decide (graph_name_of ps ∈ toy_catalog w)))]], w)
    else if contains "pageRank" q then
      (if toy_broken w then Err (ClientRaised "There is no procedure with the name `gds.pageRank.stream` registered") else Ok (toy_ranks w), w)
    else (Ok (toy_paths w), w);
  execute_write q ps w :=
    if String.eqb q drop_query then (Ok [], with_catalog (toy_catalog w ∖ {[graph_name_of ps]}) w)
    else if contains "gds.graph.project" q then
      (Ok [[(PStr "relationshipCount", PInt (Z.of_nat (length (toy_paths w))))]], with_catalog ({[graph_name_of ps]} ∪ toy_catalog w) w)
    else (Err (ClientRaised "write refused"), w);
}.
#[local] Instance toy_catalog_laws : GdsCatalog toy toy_catalog.
Proof.
  split.
  - intros q ps w _. cbn. by repeat case_match.
  - intros n w rows w'. cbn. intros [= <- <-]. cbn. by case_bool_decide.
  - intros n w rows w'. cbn. by intros [= <- <-].
  - intros n w e w'. by cbn.
  - intros q ps n w r w' Hp Hd Hn. cbn. destruct (String.eqb_spec q drop_query) as [->|_]; [done|].
    rewrite Hp. unfold graph_name_of. rewrite Hn. intros [= <- <-]. by right.
Defined.

Lemma toy_returns : catalog_calls_return (W := toy).
Proof. by intros n w. Qed.

Definition half : spec_float := float_ratio 1 2.
Definition path_row (source target edge : string) (weight : spec_float) : pdict :=
  [(PStr "source_node_id", PStr source); (PStr "target_node_id", PStr target);
   (PStr "target_entity_id", PStr ("E" ++ target)); (PStr "target_labels", PList [PStr "Entity"]);
   (PStr "edge_id", PStr edge); (PStr "relationship_type", PStr "SUPPLY_CHAIN");
   (PStr "evidence_refs", PList [PStr " r2 "; PStr "r1"]); (PStr "relation_weight", PFloat weight)].
Definition db (broken : bool) : toy :=
  mkToy {["other"; "g-event"]} [path_row "A" "B" "e1" half; path_row "A" "C" "e2" float_one; path_row "C" "B" "e3" half]
    [[(PStr "node_id", PStr "B"); (PStr "score", PFloat float_one)]] broken.
Definition cx : PropagationContext :=
  mkContext "cycle 1" "ws" 1 ["fundamental"; "event"] [("fundamental", float_of_Z 2); ("event", float_one)]
    [("fundamental", float_one); ("event", float_one)] [] [].
Definition ready : option (result status_error Neo4jGraphStatus) := Some (require_ready (row_of ex_ready)).
Definition hexes (c : string) : string := "0badcafe".
Definition by_elements : gset string → list string := elements.

Definition run (broken : bool) : result graph_error PropagationResult * toy :=
  run_fundamental_propagation "0badcafe" cx ready None 20 2 (db broken).
(** Two paths kept of three, the tie of [A -> B] and [C -> B] broken by name; B
    is worth 1 and C 2. *)
Example run_scores :
  match run false with
  | (Ok r, w) =>
      map (λ p, (get "edge_id" p, get "score" p)) (activated_paths r) =
        [(PStr "e2", PFloat (float_of_Z 2)); (PStr "e1", PFloat float_one)] ∧
      map (λ e, (get "node_id" e, get "score" e, get "path_count" e)) (impacted_entities r) =
        [(PStr "C", PFloat (float_of_Z 2), PInt 1); (PStr "B", PFloat float_one, PInt 1)] ∧
      elements (toy_catalog w) = elements (toy_catalog (db false))
  | _ => False
  end.
Proof. vm_compute. auto. Qed.

(** Without the GDS plugin the run raises, and its projection is gone. *)
Example run_broken : run true = (Err GdsNotAvailable, db true).
Proof. vm_compute. reflexivity. Qed.

(** A run under the name of another's projection replaces it. *)
Example run_takes_over :
  elements (toy_catalog (run_event_propagation "" cx ready (Some "other") 20 2 (db false)).2) = ["g-event"].
Proof. vm_compute. reflexivity. Qed.

(** A multiplier that is not a number passes the check for negative ones, and
    every score it enters is not a number. *)
Definition nan_context : result graph_error PropagationContext :=
  build_propagation_context "c" "ws" 1 None None
    (Ok [(PStr "regime_multipliers", PDict [(PStr "fundamental", PStr "nan")])]).
Example nan_multiplier_accepted :
  match nan_context with
  | Ok cx =>
      regime_multipliers cx = [("fundamental", S754_nan)] ∧
      match run_fundamental_propagation "0badcafe" cx ready None 20 2 (db false) with
      | (Ok r, _) => map (get "score") (activated_paths r) = [PFloat S754_nan; PFloat S754_nan]
      | _ => False
      end
  | Err _ => False
  end.
Proof. vm_compute. auto. Qed.

Lemma propagation_needs_ready_graph_witness :
  (∃ e w, run_fundamental_propagation "0badcafe" cx (Some (require_ready (row_of ex_locked))) None 20 2 (db false) = (e, w) ∧
    ((w = db false ∧ is_ok e = false) ∨ ("fundamental" ∈ enabled_channels cx ∧ 1 ≤ 20 ∧ 1 ≤ 2 ∧
      ∃ st, get_status (row_of ex_locked) = Ok st ∧ graph_status st = Ready ∧ writer_lock_token st = None ∧
      graph_generation_id st = cx_generation_id cx))).
Proof.
  destruct (run_fundamental_propagation "0badcafe" cx (Some (require_ready (row_of ex_locked))) None 20 2 (db false))
    as [e w] eqn:E. exists e, w. split; [reflexivity|].
  exact (propagation_needs_ready_graph "fundamental" "0badcafe" cx (row_of ex_locked) None 20 2 (db false) e w E).
Defined.

Lemma projection_never_outlives_run_witness :
  ∃ r w, run true = (r, w) ∧ projection_of "fundamental" "0badcafe" cx None ∉ toy_catalog w.
Proof.
  destruct (run true) as [r w] eqn:E. exists r, w. split; [reflexivity|].
  refine (proj2 (proj2 (projection_never_outlives_run (catalog := toy_catalog) "fundamental" "0badcafe" cx ready None 20 2
    (db true) r w _ E)) toy_returns _).
  - exact (list_elem_of_here _ _).
  - split; [exact (list_elem_of_here _ _)|]. split; [lia|]. split; [lia|]. by exists ex_ready.
Defined.

Lemma activated_paths_are_explained_witness :
  ∃ r w, run false = (Ok r, w) ∧ Z.of_nat (length (activated_paths r)) ≤ 2.
Proof.
  destruct (run false) as [[r|e] w] eqn:E; [|exfalso; vm_compute in E; discriminate]. exists r, w. split; [reflexivity|].
  exact (proj1 (activated_paths_are_explained "fundamental" "0badcafe" cx ready None 20 2 (db false) r w E)).
Defined.

Lemma impacted_entities_are_groups_witness :
  ∃ r w, run false = (Ok r, w) ∧ ∃ ranks ps, activated_paths r = map path_payload ps ∧
    impacted_entities r = map impact_payload (take (Z.to_nat 2) (sort_by impact_key
      (omap (impact_of "fundamental" ranks ps) (first_seen (omap target_id ps))))).
Proof.
  destruct (run false) as [[r|e] w] eqn:E; [|exfalso; vm_compute in E; discriminate]. exists r, w. split; [reflexivity|].
  exact (impacted_entities_are_groups "fundamental" "0badcafe" cx ready None 20 2 (db false) r w E).
Defined.

Lemma built_context_is_valid_witness :
  ∃ cx', nan_context = Ok cx' ∧ enabled_channels cx' ≠ [].
Proof.
  destruct nan_context as [cx'|e] eqn:E; [|exfalso; vm_compute in E; discriminate]. exists cx'. split; [reflexivity|]. unfold nan_context in E.
  exact (proj1 (proj2 (proj2 (built_context_is_valid _ _ _ _ _ _ _ E)))).
Defined.

(** The results of both channels, and their merger. *)
Definition both : result graph_error (list PropagationResult) * toy :=
  run_all (run_channel hexes cx (λ _, ready) (Some "g") 20 2) (enabled_channels cx) (db false).
Definition full (limit : Z) : result graph_error PropagationResult * toy :=
  run_full_propagation by_elements hexes cx (λ _, ready) (Some "g") 20 limit (db false).

(** [B] is worth 1 + 1 and 1/2 + 1/2 in the two channels, [C] 2 and 1. The
    projection [g-event] of the catalog, whose name the run chose, is gone. *)
Example full_scores :
  match full 3 with
  | (Ok r, w) =>
      map (λ e, (get "canonical_entity_id" e, get "score" e, get "path_count" e)) (impacted_entities r) =
        [(PStr "EB", PFloat (float_of_Z 3), PInt 4); (PStr "EC", PFloat (float_of_Z 3), PInt 2)] ∧
      map (get "score") (activated_paths r) = [PFloat (float_of_Z 2); PFloat float_one; PFloat float_one] ∧
      elements (toy_catalog w) = ["other"]
  | _ => False
  end.
Proof. vm_compute. auto. Qed.

(** A merged result does not merge again: its entities have no channel. *)
Example merged_does_not_merge :
  match full 3 with
  | (Ok r, _) => merge_propagation_results by_elements [r] 3 = Err PayloadChannelMissing
  | _ => False
  end.
Proof. vm_compute. reflexivity. Qed.

Definition both_results : list PropagationResult := match both.1 with Ok rs => rs | Err _ => [] end.
Lemma both_valid : Forall valid_result both_results.
Proof.
  unfold both_results. destruct both as [[rs|e] w] eqn:E; [|constructor]. cbn [fst].
  apply (run_all_ok (λ _ r, valid_result r)) in E.
  - induction E; constructor; done.
  - intros c w1 r w2 _. unfold run_channel. case_bool_decide; [|done]. intros Hr%run_produced; [apply Hr|done].
Qed.

Lemma merged_paths_are_the_best_witness :
  ∃ m, merge_propagation_results by_elements both_results 3 = Ok m ∧ Z.of_nat (length (activated_paths m)) ≤ 3.
Proof.
  destruct (merge_propagation_results by_elements both_results 3) as [m|e] eqn:E; [|exfalso; vm_compute in E; discriminate].
  exists m. split; [reflexivity|]. exact (proj1 (merged_paths_are_the_best by_elements both_results 3 m both_valid E)).
Defined.

Lemma merged_entities_are_groups_witness :
  ∃ m counts xs, merge_propagation_results by_elements both_results 3 = Ok m ∧
    entity_path_counts both_results = Ok counts ∧ Forall2 (reads_as counts) (concat (map impacted_entities both_results)) xs.
Proof.
  destruct (merge_propagation_results by_elements both_results 3) as [m|e] eqn:E; [|exfalso; vm_compute in E; discriminate].
  destruct (merged_entities_are_groups by_elements both_results 3 m E) as (counts & xs & Hc & Hx & _).
  exists m, counts, xs. split; [reflexivity|]. split; [exact Hc|exact Hx].
Defined.

Lemma full_propagation_returns_witness : ∃ m w, full 2 = (Ok m, w).
Proof.
  destruct both as [[rs|e] w] eqn:E; [|exfalso; vm_compute in E; discriminate].
  destruct (full_propagation_returns by_elements hexes cx (λ _, ready) (Some "g") 20 2 (db false) rs w) as [m Hm].
  - reflexivity.
  - discriminate.
  - lia.
  - lia.
  - exact E.
  - vm_compute in E. injection E as <- _. repeat constructor.
  - by exists m, w.
Defined.

Lemma full_propagation_leaves_nothing_witness : toy_catalog (full 2).2 ⊆ toy_catalog (db false).
Proof.
  destruct (full 2) as [r w] eqn:E. unfold full in E.
  apply (full_propagation_leaves_nothing (catalog := toy_catalog)) in E as (_ & _ & Hsub). exact (Hsub (or_intror toy_returns)).
Defined.

(** The paths of both results have different keys. *)
Definition both_paths : list pdict := concat (map activated_paths both_results).
Lemma both_keys_proper : keys_proper path_key both_paths.
Proof.
  assert (forallb (λ p, key_proper (path_key p)) both_paths = true) as Hp by (vm_compute; reflexivity).
  generalize both_paths Hp. intros ps Hps. rewrite forallb_forall in Hps. apply list.Forall_forall.
  intros p Hin%list_elem_of_In. exact (Hps p Hin).
Qed.
Lemma both_keys_distinct p q :
  p ∈ both_paths → q ∈ both_paths → key_leb (path_key p) (path_key q) = true → key_leb (path_key q) (path_key p) = true → p = q.
Proof.
  intros Hp Hq. apply list_elem_of_lookup in Hp as [i Hi], Hq as [j Hj]. vm_compute in Hi, Hj.
  destruct i as [|[|[|[|i]]]]; try discriminate Hi; injection Hi as <-;
  destruct j as [|[|[|[|j]]]]; try discriminate Hj; injection Hj as <-; try reflexivity; vm_compute; discriminate.
Qed.

Lemma merge_ignores_channel_order_witness :
  ∃ m m', merge_propagation_results by_elements both_results 3 = Ok m ∧
    merge_propagation_results by_elements (rev both_results) 3 = Ok m' ∧ activated_paths m = activated_paths m'.
Proof.
  destruct (merge_propagation_results by_elements both_results 3) as [m|e] eqn:E; [|exfalso; vm_compute in E; discriminate].
  destruct (merge_propagation_results by_elements (rev both_results) 3) as [m'|e] eqn:E'; [|exfalso; vm_compute in E'; discriminate].
  exists m, m'. split; [reflexivity|]. split; [reflexivity|].
  exact (merge_ignores_channel_order by_elements by_elements both_results (rev both_results) 3 m m' both_valid
    (Permutation_rev both_results) both_keys_proper both_keys_distinct E E').
Defined.
End PropagationExamples.
