(* ===== verification/Query.v ===== *)
(** * Query: bounded reads of the live graph

    [graph_engine/query/service.py]: the validation of requests, the payloads
    made of rows, the breadth-first walk behind [query_subgraph] and the one
    behind [query_propagation_paths], against any client. *)
From Stdlib Require Import String Ascii ZArith List SpecFloat.
From stdpp Require Import base gmap strings list sorting.
From S2P Require Import Prelude PyLib Numbers GraphStatus Promotion Programs Client Propagation.
Import StatusModel Channels.
Local Open Scope string_scope.
Local Open Scope Z_scope.

(** [json.loads] of a string, [None] where it raises [JSONDecodeError]. *)
Class JsonDecoder := json_decode : string → option pyval.

Module Payloads.
Section payloads.
Context `{PyText} `{PyNumbers} `{JsonDecoder}.

Definition node_structural_keys : list string :=
  ["canonical_entity_id"; "created_at"; "label"; "node_id"; "properties_json"; "updated_at"].
Definition edge_structural_keys : list string :=
  ["created_at"; "edge_id"; "properties_json"; "relationship_type"; "source_node_id"; "target_node_id"; "updated_at"; "weight"].

(** [_text_or_none], [_sort_text] *)
Definition text_or_none (v : pyval) : option string := match v with PNone => None | v => Some (py_str v) end.
Definition or_none (o : option string) : pyval := match o with Some s => PStr s | None => PNone end.
Definition sort_text (v : pyval) : string := match v with PNone => "" | v => py_str v end.

Definition float_or_default (v : pyval) (d : spec_float) : result graph_error spec_float :=
  match v with
  | PNone => Ok d
  | v =>
      match as_float parse_float v with
      | Ok f => Ok f
      | Err FloatOverflowError => Err (BadNumber FloatOverflowError)
      | Err _ => Ok d
      end
  end.
Definition int_or_default (v : pyval) (d : Z) : result graph_error Z :=
  match v with
  | PNone => Ok d
  | v =>
      match as_int v with
      | Ok z => Ok z
      | Err FloatOverflowError => Err (BadNumber FloatOverflowError)
      | Err _ => Ok d
      end
  end.
Definition sorted_text_list (v : pyval) : list string :=
  match v with PList l => sorted_strings (omap text_or_none l) | _ => [] end.

Definition raw_properties (value : pdict) : pdict := match pget "properties" value with Some (PDict d) => d | _ => [] end.
(** [value.get(k, raw_properties.get(k, d))] *)
Definition get_or_raw (k : string) (value : pdict) (d : pyval) : pyval :=
  default (default d (pget k (raw_properties value))) (pget k value).

Definition decode_json_object (v : option pyval) : option pdict :=
  match v with
  | Some (PStr s) => match json_decode s with Some (PDict d) => Some d | _ => None end
  | _ => None
  end.
Definition add_property (structural : list string) (payload : pdict) (kv : pyval * pyval) : pdict :=
  match kv.1 with
  | PStr k => if bool_decide (k ∈ structural) then payload else if phas k payload then payload else pset k kv.2 payload
  | k => if phas (py_str k) payload then payload else pset (py_str k) kv.2 payload
  end.
Definition properties_payload (raw : pdict) (structural : list string) : pdict :=
  fold_left (add_property structural) raw (default [] (decode_json_object (pget "properties_json" raw))).

Definition text_field (k : string) (value : pdict) : pyval * pyval := (PStr k, or_none (text_or_none (get_or_raw k value PNone))).
Definition node_payload (value : pdict) : pdict :=
  [text_field "node_id" value; text_field "canonical_entity_id" value;
   (PStr "labels", PList (map PStr (sorted_text_list (get_or_raw "labels" value (PList [])))));
   (PStr "properties", PDict (properties_payload (raw_properties value) node_structural_keys))].
Definition edge_payload (value : pdict) : result graph_error pdict :=
  let* weight := float_or_default (get_or_raw "weight" value PNone) float_one in
  Ok [text_field "edge_id" value; text_field "source_node_id" value; text_field "target_node_id" value;
      text_field "relationship_type" value;
      (PStr "properties", PDict (properties_payload (raw_properties value) edge_structural_keys));
      (PStr "weight", PFloat weight)].
Definition path_payload (value : pdict) : result graph_error pdict :=
  let raw_weight := default PNone (pget "weight" (raw_properties value)) in
  let* score := float_or_default (default raw_weight (pget "score" value)) float_one in
  let* path_length := int_or_default (default PNone (pget "path_length" value)) 1 in
  Ok [text_field "channel" value; text_field "edge_id" value; text_field "source_node_id" value;
      text_field "target_node_id" value; text_field "relationship_type" value;
      (PStr "score", PFloat score); (PStr "path_length", PInt path_length);
      (PStr "properties", PDict (properties_payload (raw_properties value) edge_structural_keys))].

(** *** Keys *)
Definition field_text (k : string) (payload : pdict) : option string := text_or_none (default PNone (pget k payload)).
Definition sort_field (k : string) (payload : pdict) : string := sort_text (default PNone (pget k payload)).
(** [a or b] of optional texts *)
Definition or_key (a b : option string) : option string :=
  match a with Some s => if is_empty s then b else Some s | None => b end.

Definition node_key (node : pdict) : option string :=
  or_key (field_text "node_id" node) (or_key (field_text "canonical_entity_id" node) None).
Definition relationship_key (relationship : pdict) : option string :=
  or_key (field_text "edge_id" relationship)
    match field_text "source_node_id" relationship, field_text "relationship_type" relationship,
          field_text "target_node_id" relationship with
    | Some s, Some t, Some u => Some (join "|" [s; t; u])
    | _, _, _ => None
    end.

(** [row.get(k)] if it is a mapping, else the row. *)
Definition sub_row (k : string) (row : pdict) : pdict := match pget k row with Some (PDict d) => d | _ => row end.
Definition node_from_traversal_row (row : pdict) : pdict * option string :=
  let node := node_payload (sub_row "node" row) in
  (node, or_key (field_text "node_key" row) (node_key node)).
Definition relationship_from_traversal_row (row : pdict) : result graph_error (pdict * option string) :=
  let* relationship := edge_payload (sub_row "relationship" row) in
  Ok (relationship, or_key (field_text "relationship_key" row) (relationship_key relationship)).
Definition endpoint_from_row (row : pdict) (names : string * string) : option (option string * pdict) :=
  match pget names.2 row with
  | Some (PDict d) => let node := node_payload d in Some (or_key (field_text names.1 row) (node_key node), node)
  | _ => None
  end.
Definition endpoint_nodes_from_traversal_row (row : pdict) : list (option string * pdict) :=
  omap (endpoint_from_row row) [("source_key", "source"); ("target_key", "target")].

Definition relationship_endpoints_included (relationship : pdict) (included : gset string) : bool :=
  match field_text "source_node_id" relationship, field_text "target_node_id" relationship with
  | Some s, Some t => bool_decide (s ∈ included) && bool_decide (t ∈ included)
  | _, _ => false
  end.

(** *** Normalized lists *)
Definition node_identity (node : pdict) : list string := [sort_field "node_id" node; sort_field "canonical_entity_id" node].
Definition edge_identity (edge : pdict) : list string :=
  [sort_field "edge_id" edge; sort_field "source_node_id" edge; sort_field "relationship_type" edge; sort_field "target_node_id" edge].
Definition path_identity (path : pdict) : list string :=
  [sort_field "edge_id" path; sort_field "channel" path; sort_field "source_node_id" path; sort_field "relationship_type" path;
   sort_field "target_node_id" path].
Definition bool_key (b : bool) : atom := KInt (if b then 1 else 0).
Definition node_sort_key (node : pdict) : sort_key := map KStr (node_identity node).
Definition edge_sort_key (edge : pdict) : sort_key :=
  bool_key (String.eqb (sort_field "edge_id" edge) "") :: map KStr (edge_identity edge).
Definition path_sort_key (path : pdict) : result graph_error sort_key :=
  let* score := float_or_default (default PNone (pget "score" path)) float_zero in
  let* length := int_or_default (default PNone (pget "path_length" path)) 0 in
  Ok (KFloat (SFopp score) :: KInt length :: bool_key (String.eqb (sort_field "edge_id" path) "") :: map KStr (path_identity path)).

(** The first payload of each identity, in the order they come. *)
Definition keep_first (identity : pdict → list string) (l : list pdict) : list pdict :=
  fold_left (λ acc x, if bool_decide (identity x ∈ map identity acc) then acc else acc ++ [x])%list l [].

Definition normalize_nodes (values : list pdict) (limit : Z) : list pdict :=
  take (Z.to_nat limit) (sort_by node_sort_key (keep_first node_identity (map node_payload values))).
Definition normalize_edges (values : list pdict) (limit : Z) : result graph_error (list pdict) :=
  let* edges := rmap_list edge_payload values in
  Ok (take (Z.to_nat limit) (sort_by edge_sort_key (keep_first edge_identity edges))).
Definition channel_allowed (channels : option (list string)) (path : pdict) : bool :=
  match field_text "channel" path with
  | None => false
  | Some c => match channels with Some cs => bool_decide (c ∈ cs) | None => true end
  end.
Definition normalize_paths (values : list pdict) (channels : option (list string)) (limit : Z) : result graph_error (list pdict) :=
  let* paths := rmap_list path_payload values in
  let* sorted := sort_by_result path_sort_key (keep_first path_identity (List.filter (channel_allowed channels) paths)) in
  Ok (take (Z.to_nat limit) sorted).
End payloads.
End Payloads.

Module Validation.
Definition max_query_depth : Z := 4.

(** [x.strip()] of the texts of a list, each once; [ok] rejects a text. *)
Definition add_text (e : graph_error) (ok : string → bool) (acc : list string) (v : pyval) : result graph_error (list string) :=
  match v with
  | PStr s =>
      let t := strip s in
      raise_if is_empty t || negb (ok t) with e;
      Ok (if bool_decide (t ∈ acc) then acc else acc ++ [t])%list
  | _ => Err e
  end.
Definition validated_seed_entities (v : pyval) : result graph_error (list string) :=
  match v with
  | PList (x :: l) => rfold (add_text BadSeedEntities (λ _, true)) [] (x :: l)
  | _ => Err BadSeedEntities
  end.
Definition validated_depth (depth max_depth : pyval) : result graph_error Z :=
  match max_depth with
  | PInt m =>
      raise_if m <? 0 with BadDepth;
      match depth with
      | PInt d => raise_if d <? 0 with BadDepth; raise_if m <? d with BadDepth; Ok d
      | _ => Err BadDepth
      end
  | _ => Err BadDepth
  end.
Definition validated_result_limit (v : pyval) : result graph_error Z :=
  match v with PInt n => raise_if n <? 1 with NonPositiveResultLimit; Ok n | _ => Err NonPositiveResultLimit end.
Definition validated_channels (v : pyval) : result graph_error (option (list string)) :=
  match v with
  | PNone => Ok None
  | PList (x :: l) =>
      let* cs := rfold (add_text BadChannels (λ c, bool_decide (c ∈ allowed_channels))) [] (x :: l) in Ok (Some cs)
  | _ => Err BadChannels
  end.
End Validation.

Module Walk.
Import Payloads Validation.

(** *** The queries *)
Definition seed_query : string := cypher "
MATCH (seed)
WHERE seed.canonical_entity_id IN $seed_entities
   OR seed.node_id IN $seed_entities
WITH DISTINCT seed,
     coalesce(seed.node_id, elementId(seed)) AS node_key
ORDER BY coalesce(seed.node_id, ``),
         coalesce(seed.canonical_entity_id, ``),
         node_key
LIMIT $per_depth_limit
RETURN node_key,
       {
           node_id: seed.node_id,
           canonical_entity_id: seed.canonical_entity_id,
           labels: labels(seed),
           properties: properties(seed)
       } AS node
".
Definition newline : string := String (ascii_of_nat 10) "".
Definition channel_projection_list_expression (v : string) : string :=
  "CASE" ++ newline ++
  join "" (map (λ p, "         WHEN " ++ v ++ "." ++ p ++ " IS NOT NULL THEN [" ++ v ++ "." ++ p ++ "]" ++ newline) explicit_keys) ++
  "         ELSE CASE type(" ++ v ++ ")" ++ newline ++
  join newline (map (λ tc, "             WHEN " ++ quoted tc.1 ++ " THEN " ++ cypher_string_list tc.2) propagation_channels) ++
  newline ++ "             ELSE []" ++ newline ++ "         END" ++ newline ++ "     END".
Definition order_by (include_channel : bool) : string :=
  "ORDER BY " ++ join ("," ++ newline ++ "         ")
    (if include_channel then
       ["coalesce(relationship.weight, 1.0) DESC"; "relationship_key"; "channel"; "source_key"; "type(relationship)"; "target_key"; "neighbor_key"]
     else ["relationship_key"; "source_key"; "type(relationship)"; "target_key"; "neighbor_key"]).
Definition frontier_query (include_channel : bool) : string := cypher ("
MATCH (frontier)-[relationship]-(neighbor)
WHERE coalesce(frontier.node_id, elementId(frontier)) IN $frontier_node_keys
WITH DISTINCT relationship
WITH relationship,
     startNode(relationship) AS source,
     endNode(relationship) AS target,
     coalesce(relationship.edge_id, elementId(relationship)) AS relationship_key
WITH relationship,
     source,
     target,
     relationship_key,
     coalesce(source.node_id, elementId(source)) AS source_key,
     coalesce(target.node_id, elementId(target)) AS target_key
WHERE NOT (relationship_key IN $visited_relationship_keys)
WITH relationship,
     source,
     target,
     relationship_key,
     source_key,
     target_key,
     CASE
         WHEN source_key IN $frontier_node_keys
              AND NOT (target_key IN $frontier_node_keys) THEN target
         WHEN target_key IN $frontier_node_keys
              AND NOT (source_key IN $frontier_node_keys) THEN source
         WHEN source_key IN $frontier_node_keys THEN target
         ELSE source
     END AS neighbor
WITH relationship,
     source,
     target,
     relationship_key,
     source_key,
     target_key,
     neighbor,
     coalesce(neighbor.node_id, elementId(neighbor)) AS neighbor_key,
     " ++ (if include_channel then channel_projection_list_expression "relationship" ++ " AS channels" else "null AS channel") ++ "
" ++ (if include_channel then "UNWIND channels AS channel" else "") ++ "
" ++ (if include_channel then "WHERE $channel_filter IS NULL OR channel IN $channel_filter" else "") ++ "
" ++ order_by include_channel ++ "
LIMIT $per_depth_limit
RETURN relationship_key,
       source_key,
       target_key,
       neighbor_key,
       channel,
       {
           node_id: source.node_id,
           canonical_entity_id: source.canonical_entity_id,
           labels: labels(source),
           properties: properties(source)
       } AS source,
       {
           node_id: target.node_id,
           canonical_entity_id: target.canonical_entity_id,
           labels: labels(target),
           properties: properties(target)
       } AS target,
       {
           node_id: neighbor.node_id,
           canonical_entity_id: neighbor.canonical_entity_id,
           labels: labels(neighbor),
           properties: properties(neighbor)
       } AS neighbor,
       {
           edge_id: relationship.edge_id,
           source_node_id: source.node_id,
           target_node_id: target.node_id,
           relationship_type: type(relationship),
           properties: properties(relationship),
           weight: coalesce(relationship.weight, 1.0)
       } AS relationship
").

Definition texts (l : list string) : pyval := PList (map PStr l).
Definition per_depth_limit (limit : Z) : Z := limit + 1.
Definition seed_parameters (seeds : list string) (limit : Z) : pdict :=
  [(PStr "per_depth_limit", PInt (per_depth_limit limit)); (PStr "seed_entities", texts seeds)].
Definition frontier_parameters (channels : option (list string)) (frontier : list string) (visited : gset string) (limit : Z) : pdict :=
  [(PStr "channel_filter", match channels with Some cs => texts cs | None => PNone end);
   (PStr "frontier_node_keys", texts frontier); (PStr "per_depth_limit", PInt (per_depth_limit limit));
   (PStr "visited_relationship_keys", texts (sorted_set visited))].

Record truncation := mkTruncation {
  tr_depth : Z;
  tr_reached_depth : Z;
  tr_result_limit : Z;
  tr_node_count : Z;
  tr_relationship_count : Z;
  tr_path_count : option Z;
  node_limit_reached : bool;
  relationship_limit_reached : bool;
  path_limit_reached : bool;
  frontier_limit_reached : bool;
  truncated_depths : list Z;
}.
(** [metadata["truncated"]]: whether there is a reason. *)
Definition truncated (t : truncation) : bool :=
  node_limit_reached t || relationship_limit_reached t || path_limit_reached t || frontier_limit_reached t.

Section walk.
Context `{PyText} `{PyNumbers} `{JsonDecoder}.

(** *** The walk of [_read_subgraph] *)
Record walk := mkWalk {
  nodes_by_key : pydict pdict;
  frontier : list string;
  relationships_by_key : pydict pdict;
  visited : gset string;
  w_node_limit : bool;
  w_relationship_limit : bool;
  w_frontier_limit : bool;
  w_truncated_depths : gset Z;
  w_reached_depth : Z;
}.

(** The seeds become nodes and the first frontier. *)
Definition add_seed (acc : pydict pdict * list string) (row : pdict) : pydict pdict * list string :=
  let '(nodes, keys) := acc in
  let '(node, key) := node_from_traversal_row row in
  match key with
  | None => acc
  | Some k => if dhas k nodes then acc else (dset k node nodes, keys ++ [k])%list
  end.
Definition seed_walk (limit : Z) (rows : list pdict) : walk :=
  let '(nodes, keys) := fold_left add_seed (take (Z.to_nat limit) rows) ([], []) in
  mkWalk nodes keys [] ∅ (limit <? Z.of_nat (length rows)) false false ∅ 0.

(** The loop's variables while the rows of one depth are read. *)
Record level := mkLevel {
  lv_nodes : pydict pdict;
  lv_relationships : pydict pdict;
  lv_visited : gset string;
  lv_next : list string;
  lv_node_limit : bool;
  lv_relationship_limit : bool;
}.

(** The endpoints, until one does not fit: whether all did. *)
Fixpoint add_endpoints (limit : Z) (nodes : pydict pdict) (endpoints : list (option string * pdict)) : pydict pdict * bool :=
  match endpoints with
  | [] => (nodes, true)
  | (key, node) :: rest =>
      match key with
      | None => add_endpoints limit nodes rest
      | Some k =>
          if dhas k nodes then add_endpoints limit nodes rest
          else if limit <=? Z.of_nat (length nodes) then (nodes, false)
          else add_endpoints limit (dset k node nodes) rest
      end
  end.

Definition next_neighbor (previous : list string) (nodes : pydict pdict) (row : pdict) (next : list string) : list string :=
  match field_text "neighbor_key" row with
  | Some n =>
      if negb (bool_decide (n ∈ previous)) && dhas n nodes && negb (bool_decide (n ∈ next)) then (next ++ [n])%list else next
  | None => next
  end.

(** The rows of one depth; the list of rows stops where the loop breaks. *)
Fixpoint read_level_rows (limit : Z) (previous : list string) (rows : list pdict) (lv : level) : result graph_error level :=
  match rows with
  | [] => Ok lv
  | row :: rest =>
      let* '(relationship, key) := relationship_from_traversal_row row in
      match key with
      | None => read_level_rows limit previous rest lv
      | Some k =>
          if bool_decide (k ∈ lv_visited lv) then read_level_rows limit previous rest lv
          else
            let visited := {[k]} ∪ lv_visited lv in
            let '(nodes, available) := add_endpoints limit (lv_nodes lv) (endpoint_nodes_from_traversal_row row) in
            if negb available then
              read_level_rows limit previous rest
                (mkLevel nodes (lv_relationships lv) visited (lv_next lv) true (lv_relationship_limit lv))
            else if limit <=? Z.of_nat (length (lv_relationships lv)) then
              Ok (mkLevel nodes (lv_relationships lv) visited (lv_next lv) (lv_node_limit lv) true)
            else
              read_level_rows limit previous rest
                (mkLevel nodes (dset k relationship (lv_relationships lv)) visited
                  (next_neighbor previous nodes row (lv_next lv)) (lv_node_limit lv) (lv_relationship_limit lv))
      end
  end.

(** What a depth adds to the walk. The flags start from the walk's, and the
    depth is a truncated one if it set one of them. *)
Definition read_level (limit current_depth : Z) (w : walk) (rows : list pdict) : result graph_error walk :=
  let too_many := limit <? Z.of_nat (length rows) in
  let* lv := read_level_rows limit (dkeys (nodes_by_key w)) (take (Z.to_nat limit) rows)
    (mkLevel (nodes_by_key w) (relationships_by_key w) (visited w) [] false false) in
  let cut := too_many || lv_node_limit lv || lv_relationship_limit lv in
  Ok (mkWalk (lv_nodes lv) (lv_next lv) (lv_relationships lv) (lv_visited lv) (w_node_limit w || lv_node_limit lv)
    (w_relationship_limit w || lv_relationship_limit lv) (w_frontier_limit w || too_many)
    (if cut then {[current_depth]} ∪ w_truncated_depths w else w_truncated_depths w) current_depth).

Section client.
Context {W : Type} `{Neo4jClient W}.

Definition read_seed_rows (seeds : list string) (limit : Z) : prog W (list pdict) :=
  execute_read seed_query (seed_parameters seeds limit).
Definition read_frontier_rows (include_channel : bool) (channels : option (list string)) (frontier : list string)
    (visited : gset string) (limit : Z) : prog W (list pdict) :=
  execute_read (frontier_query include_channel) (frontier_parameters channels frontier visited limit).

(** [for current_depth in range(current_depth, depth + 1)], of [steps] rounds. *)
Fixpoint walk_depths (steps : nat) (limit current_depth : Z) (w : walk) : prog W walk :=
  match steps with
  | O => ret w
  | S n =>
      match frontier w with
      | [] => ret w
      | keys =>
          let! rows := read_frontier_rows false None keys (visited w) limit in
          let! w' := lift (read_level limit current_depth w rows) in
          if w_node_limit w' || w_relationship_limit w' then ret w'
          else walk_depths n limit (current_depth + 1) w'
      end
  end.

Record subgraph := mkSubgraph { sg_nodes : list pdict; sg_relationships : list pdict; sg_truncation : truncation }.

(** The end of [_read_subgraph]: what is returned of the walk. *)
Definition close_walk (depth limit : Z) (w : walk) : result graph_error subgraph :=
  let nodes := normalize_nodes (map snd (nodes_by_key w)) limit in
  let included := (list_to_set (omap (field_text "node_id") nodes) : gset string) in
  let* relationships := normalize_edges
    (List.filter (λ r, relationship_endpoints_included r included) (map snd (relationships_by_key w))) limit in
  Ok (mkSubgraph nodes relationships
    (mkTruncation depth (w_reached_depth w) limit (Z.of_nat (length nodes)) (Z.of_nat (length relationships)) None
      (w_node_limit w) (w_relationship_limit w) false (w_frontier_limit w)
      (py_sort Z.leb (elements (w_truncated_depths w))))).
Definition read_subgraph (seeds : list string) (depth limit : Z) : prog W subgraph :=
  let! rows := read_seed_rows seeds limit in
  let! w := walk_depths (Z.to_nat depth) limit 1 (seed_walk limit rows) in
  lift (close_walk depth limit w).

Record GraphQueryResult := mkQueryResult {
  qr_generation_id : Z;
  qr_subgraph : subgraph;
  qr_seed_entities : list string;
  qr_depth : Z;
  qr_result_limit : Z;
}.
(** [status_manager.ready_read()], if there is a manager. *)
Definition ready_read (operation : string) (ready : option (result status_error Neo4jGraphStatus)) : prog W Neo4jGraphStatus :=
  lift match ready with None => Err (NoStatusManager operation) | Some r => map_err StatusRaised r end.

Definition query_subgraph (seed_entities depth : pyval) (ready : option (result status_error Neo4jGraphStatus))
    (result_limit max_depth : pyval) : prog W GraphQueryResult :=
  let! seeds := lift (validated_seed_entities seed_entities) in
  let! depth := lift (validated_depth depth max_depth) in
  let! limit := lift (validated_result_limit result_limit) in
  let! status := ready_read "query_subgraph" ready in
  let! sg := read_subgraph seeds depth limit in
  ret (mkQueryResult (graph_generation_id status) sg seeds depth limit).
End client.
End walk.
End Walk.

(** ** [query_propagation_paths] *)
Module Paths.
Import Payloads Validation Walk.

Section paths.
Context `{PyText} `{PyNumbers} `{JsonDecoder}.

Record path_walk := mkPathWalk {
  pw_nodes : pydict pdict;
  pw_frontier : list string;
  pw_visited : gset string;
  pw_paths : list pdict;
  pw_node_limit : bool;
  pw_path_limit : bool;
  pw_frontier_limit : bool;
  pw_truncated_depths : gset Z;
  pw_reached_depth : Z;
}.
Definition seed_path_walk (limit : Z) (rows : list pdict) : path_walk :=
  let '(nodes, keys) := fold_left add_seed (take (Z.to_nat limit) rows) ([], []) in
  mkPathWalk nodes keys ∅ [] (limit <? Z.of_nat (length rows)) false false ∅ 0.

(** The rows that extend the frontier: nodes, visited keys, next frontier,
    whether a node did not fit. *)
Definition frontier_step (limit : Z) (previous : list string)
    (acc : pydict pdict * gset string * list string * bool) (row : pdict)
    : result graph_error (pydict pdict * gset string * list string * bool) :=
  let '(nodes, visited, next, full) := acc in
  let* '(_, key) := relationship_from_traversal_row row in
  match key with
  | None => Ok acc
  | Some k =>
      if bool_decide (k ∈ visited) then Ok acc
      else
        let neighbor := match pget "neighbor" row with Some (PDict d) => node_payload d | _ => [] end in
        let '(nodes', full') :=
          match field_text "neighbor_key" row with
          | Some n =>
              if dhas n nodes then (nodes, full)
              else if limit <=? Z.of_nat (length nodes) then (nodes, true) else (dset n neighbor nodes, full)
          | None => (nodes, full)
          end in
        Ok (nodes', {[k]} ∪ visited, next_neighbor previous nodes' row next, full')
  end.

(** [{**relationship, "channel": ..., "path_length": ..., "score": ...}] *)
Definition path_value (relationship : pdict) (c : string) (current_depth : Z) : pdict :=
  pset "score" (default PNone (pget "weight" relationship))
    (pset "path_length" (PInt current_depth) (pset "channel" (PStr c) relationship)).

(** The rows that are paths; [paths.setdefault(key, path)] keeps the first. *)
Definition path_step (channels : option (list string)) (candidate_limit current_depth : Z)
    (acc : list pdict * bool) (row : pdict) : result graph_error (list pdict * bool) :=
  let '(paths, full) := acc in
  let* '(relationship, key) := relationship_from_traversal_row row in
  match key, field_text "channel" row with
  | Some _, Some c =>
      if match channels with Some cs => negb (bool_decide (c ∈ cs)) | None => false end then Ok acc
      else if candidate_limit <=? Z.of_nat (length paths) then Ok (paths, true)
      else
        let* path := path_payload (path_value relationship c current_depth) in
        Ok (if bool_decide (path_identity path ∈ map path_identity paths) then paths else paths ++ [path], full)%list
  | _, _ => Ok acc
  end.

Definition read_path_level (channels : option (list string)) (limit candidate_limit current_depth : Z) (w : path_walk)
    (frontier_rows path_rows : list pdict) : result graph_error path_walk :=
  let too_many := limit <? Z.of_nat (length frontier_rows) in
  let too_many_paths := limit <? Z.of_nat (length path_rows) in
  let* extended := rfold (frontier_step limit (dkeys (pw_nodes w))) (pw_nodes w, pw_visited w, [], false)
    (take (Z.to_nat limit) frontier_rows) in
  let '(nodes, visited, next, full) := extended in
  let* found := rfold (path_step channels candidate_limit current_depth) (pw_paths w, false) (take (Z.to_nat limit) path_rows) in
  let '(paths, full_paths) := found in
  let cut := too_many || too_many_paths || full || full_paths in
  Ok (mkPathWalk nodes next visited paths (pw_node_limit w || full) (pw_path_limit w || too_many_paths || full_paths)
    (pw_frontier_limit w || too_many)
    (if cut then {[current_depth]} ∪ pw_truncated_depths w else pw_truncated_depths w) current_depth).

Record path_list := mkPathList { pl_paths : list pdict; pl_truncation : truncation }.
Definition no_paths (depth limit : Z) : path_list :=
  mkPathList [] (mkTruncation depth 0 limit 0 0 (Some 0) false false false false []).

Definition close_path_walk (channels : option (list string)) (depth limit : Z) (w : path_walk) : result graph_error path_list :=
  let* paths := normalize_paths (pw_paths w) channels limit in
  Ok (mkPathList paths
    (mkTruncation depth (pw_reached_depth w) limit (Z.of_nat (length (pw_nodes w))) (Z.of_nat (size (pw_visited w)))
      (Some (Z.of_nat (length paths))) (pw_node_limit w) false
      (pw_path_limit w || (limit <? Z.of_nat (length (pw_paths w)))) (pw_frontier_limit w)
      (py_sort Z.leb (elements (pw_truncated_depths w))))).

Section client.
Context {W : Type} `{Neo4jClient W}.

Fixpoint walk_path_depths (steps : nat) (channels : option (list string)) (limit candidate_limit current_depth : Z)
    (w : path_walk) : prog W path_walk :=
  match steps with
  | O => ret w
  | S n =>
      match pw_frontier w with
      | [] => ret w
      | keys =>
          let! frontier_rows := read_frontier_rows false None keys (pw_visited w) limit in
          let! path_rows := read_frontier_rows true channels keys (pw_visited w) limit in
          let! w' := lift (read_path_level channels limit candidate_limit current_depth w frontier_rows path_rows) in
          if pw_node_limit w' && bool_decide (pw_frontier w' = []) then ret w'
          else walk_path_depths n channels limit candidate_limit (current_depth + 1) w'
      end
  end.

Definition read_propagation_paths (seeds : list string) (depth : Z) (channels : option (list string)) (limit : Z)
    : prog W path_list :=
  if depth =? 0 then ret (no_paths depth limit)
  else
    let! rows := read_seed_rows seeds limit in
    let! w := walk_path_depths (Z.to_nat depth) channels limit (limit * Z.max depth 1) 1 (seed_path_walk limit rows) in
    lift (close_path_walk channels depth limit w).

Record GraphPropagationPathQueryResult := mkPathResult {
  gp_generation_id : Z;
  gp_paths : path_list;
  gp_seed_entities : list string;
  gp_depth : Z;
  gp_result_limit : Z;
}.
Definition query_propagation_paths (seed_entities depth : pyval) (ready : option (result status_error Neo4jGraphStatus))
    (channels result_limit max_depth : pyval) : prog W GraphPropagationPathQueryResult :=
  let! seeds := lift (validated_seed_entities seed_entities) in
  let! depth := lift (validated_depth depth max_depth) in
  let! limit := lift (validated_result_limit result_limit) in
  let! channels := lift (validated_channels channels) in
  let! status := ready_read "query_propagation_paths" ready in
  let! paths := read_propagation_paths seeds depth channels limit in
  ret (mkPathResult (graph_generation_id status) paths seeds depth limit).
End client.
End paths.
End Paths.
