(* ===== verification/QueryProofs.v ===== *)
(** * QueryProofs: what a bounded read returns

    For any client, the payloads of a result are bounded, ordered, distinct and
    closed; for a client that answers as the Cypher queries say of a property
    graph, a walk that reports no truncation has found exactly the nodes and
    relationships around the seeds. *)
From Stdlib Require Import String Ascii ZArith List SpecFloat.
From stdpp Require Import base gmap strings list sorting pretty.
From S2P Require Import Prelude PyLib Numbers GraphStatus Promotion Programs Client Propagation MergeProofs Query.
Import StatusModel Channels Payloads Validation Walk Paths.
Local Open Scope string_scope.
Local Open Scope Z_scope.

(** ** Normalized payloads *)
Section normalized.
Context `{PyText} `{PyNumbers} `{JsonDecoder}.

Lemma keep_first_spec (identity : pdict → list string) l :
  NoDup (map identity (keep_first identity l)) ∧
  (∀ x, x ∈ keep_first identity l → x ∈ l) ∧
  (∀ x, x ∈ l → identity x ∈ map identity (keep_first identity l)).
Proof.
  unfold keep_first. induction l as [|x l (Hn & Hs & Hi)] using rev_ind.
  { split_and!; [constructor|by intros ? ?%elem_of_nil|by intros ? ?%elem_of_nil]. }
  rewrite fold_left_app. cbn [fold_left]. set (acc := fold_left _ l []) in *. case_bool_decide as Hx.
  - split_and!; [done|intros y Hy; rewrite elem_of_app; left; auto|].
    intros y [Hy| ->%list_elem_of_singleton]%elem_of_app; auto.
  - rewrite map_app. split_and!.
    + apply NoDup_app. split_and!; [done| |apply NoDup_singleton]. by intros y Hy ->%list_elem_of_singleton.
    + intros y [Hy|Hy]%elem_of_app; rewrite elem_of_app; [left|right]; auto.
    + intros y [Hy| ->%list_elem_of_singleton]%elem_of_app; rewrite elem_of_app; [left; auto|right; left].
Qed.

Lemma distinct_results key identity n l : NoDup (map identity (take n (sort_by key (keep_first identity l)))).
Proof.
  eapply NoDup_map_sub; [apply sublist_take|]. eapply NoDup_map_perm; [apply sort_by_perm|]. apply keep_first_spec.
Qed.

Lemma text_keys_proper (f : pdict → list string) l : keys_proper (λ x, map KStr (f x)) l.
Proof. apply Forall_true. intros x. by induction (f x). Qed.
Lemma edge_keys_proper l : keys_proper edge_sort_key l.
Proof. by apply Forall_true. Qed.

(** Reading a payload again keeps its texts. *)
Lemma field_text_of v : text_or_none (or_none v) = v.
Proof. destruct v; [|done]. simpl. by rewrite py_str_text. Qed.

Definition edge_text_keys : list string := ["edge_id"; "source_node_id"; "target_node_id"; "relationship_type"].
Lemma edge_payload_text value e k :
  edge_payload value = Ok e → k ∈ edge_text_keys → field_text k e = text_or_none (get_or_raw k value PNone).
Proof.
  intros (f & _ & [= <-])%rbind_ok. unfold edge_text_keys. rewrite !elem_of_cons, elem_of_nil.
  intros [->|[->|[->|[->|[]]]]]; unfold field_text; cbn [pget is_key String.eqb Ascii.eqb Bool.eqb text_field default];
  apply field_text_of.
Qed.
Lemma edge_payload_again value e e' k :
  edge_payload value = Ok e → edge_payload e = Ok e' → k ∈ edge_text_keys → field_text k e' = field_text k e.
Proof.
  intros He He' Hk. rewrite (edge_payload_text e e' k He' Hk). unfold field_text, get_or_raw. f_equal.
  apply rbind_ok in He as (f & _ & [= <-]). revert Hk. unfold edge_text_keys. rewrite !elem_of_cons, elem_of_nil.
  by intros [->|[->|[->|[->|[]]]]].
Qed.
Lemma node_payload_text value k :
  k ∈ ["node_id"; "canonical_entity_id"] → field_text k (node_payload value) = text_or_none (get_or_raw k value PNone).
Proof. rewrite !elem_of_cons, elem_of_nil. intros [->|[->|[]]]; apply field_text_of. Qed.
Lemma node_payload_again value k :
  k ∈ ["node_id"; "canonical_entity_id"] → field_text k (node_payload (node_payload value)) = field_text k (node_payload value).
Proof.
  intros Hk. rewrite (node_payload_text (node_payload value) k Hk). revert Hk. rewrite !elem_of_cons, elem_of_nil.
  by intros [->|[->|[]]].
Qed.
Lemma sort_field_text k x : sort_field k x = default "" (field_text k x).
Proof. unfold sort_field, field_text. by destruct (default PNone (pget k x)). Qed.
End normalized.

Lemma validated_limit_pos v n : validated_result_limit v = Ok n → 1 ≤ n.
Proof. unfold validated_result_limit. destruct v; try done. intros (u & Hu%guard_err_ok & [= ->])%rbind_ok. lia. Qed.
Lemma validated_depth_nonneg v m d : validated_depth v m = Ok d → 0 ≤ d.
Proof.
  unfold validated_depth. destruct m; try done. intros (u & _ & Hd)%rbind_ok. destruct v; try done.
  apply rbind_ok in Hd as (u' & Hu'%guard_err_ok & (u2 & _ & [= ->])%rbind_ok). lia.
Qed.

(** ** Any client *)
Section any_client.
Context `{PyText} `{PyNumbers} `{JsonDecoder} {W : Type} `{Neo4jClient W}.

Definition payloads_only (d : pydict pdict) : Prop := ∀ r, r ∈ map snd d → ∃ v, edge_payload v = Ok r.

Lemma read_rows_payloads limit previous rows lv lv' :
  payloads_only (lv_relationships lv) → read_level_rows limit previous rows lv = Ok lv' → payloads_only (lv_relationships lv').
Proof.
  revert lv. induction rows as [|row rows IH]; intros lv Hlv; cbn [read_level_rows]; [by intros [= <-]|].
  intros ([relationship key] & Hr & Hrest)%rbind_ok. destruct key as [k|]; [|by eapply IH].
  case_bool_decide; [by eapply IH|].
  destruct (add_endpoints limit (lv_nodes lv) _) as [nodes available]. destruct available; cbn [negb] in Hrest; [|refine (IH _ _ Hrest); exact Hlv].
  destruct (limit <=? _); [by injection Hrest as <-|]. eapply IH; [|exact Hrest]. cbn [lv_relationships].
  intros r [->|Hin]%dset_values; [|auto]. unfold relationship_from_traversal_row in Hr.
  apply rbind_ok in Hr as (e & He & [= <- _]). eauto.
Qed.

Lemma walk_payloads steps limit d w (s : W) w' s' :
  payloads_only (relationships_by_key w) → walk_depths steps limit d w s = (Ok w', s') → payloads_only (relationships_by_key w').
Proof.
  revert d w s. induction steps as [|n IH]; intros d w s Hw; cbn [walk_depths]; [by intros [= <- _]|].
  destruct (frontier w) as [|key keys]; [by intros [= <- _]|].
  intros (rows & s1 & _ & (w1 & s2 & Hlevel & Hrest)%pbind_ok)%pbind_ok.
  assert (payloads_only (relationships_by_key w1)) as Hw1.
  { injection Hlevel as Hlevel _. unfold read_level in Hlevel. apply rbind_ok in Hlevel as (lv & Hlv & [= <-]).
    by eapply read_rows_payloads in Hlv. }
  destruct (_ || _); [by injection Hrest as <- _|by eapply IH].
Qed.

Lemma seed_walk_relationships limit rows : relationships_by_key (seed_walk limit rows) = [].
Proof. unfold seed_walk. by destruct (fold_left _ _ _). Qed.

Lemma read_subgraph_walk seeds depth limit (s : W) sg s' :
  read_subgraph seeds depth limit s = (Ok sg, s') →
  ∃ rows s1 w, read_seed_rows seeds limit s = (Ok rows, s1) ∧
    walk_depths (Z.to_nat depth) limit 1 (seed_walk limit rows) s1 = (Ok w, s') ∧
    close_walk depth limit w = Ok sg ∧ payloads_only (relationships_by_key w).
Proof.
  intros (rows & s1 & Hseed & (w & s2 & Hw & [= Hclose <-])%pbind_ok)%pbind_ok.
  exists rows, s1, w. split_and!; try done. eapply walk_payloads; [|exact Hw]. rewrite seed_walk_relationships. intros r Hr. by apply elem_of_nil in Hr.
Qed.

Definition ends_in (nodes : list pdict) (r : pdict) (k : string) : Prop :=
  ∃ id n, field_text k r = Some id ∧ n ∈ nodes ∧ field_text "node_id" n = Some id.

Lemma closed_walk depth limit w sg :
  payloads_only (relationships_by_key w) → close_walk depth limit w = Ok sg →
  Forall (λ r, ends_in (sg_nodes sg) r "source_node_id" ∧ ends_in (sg_nodes sg) r "target_node_id") (sg_relationships sg).
Proof.
  intros Hp (rs & Hrs & [= <-])%rbind_ok. cbn [sg_nodes sg_relationships]. unfold normalize_edges in Hrs.
  apply rbind_ok in Hrs as (edges & He%rmap_list_ok & [= <-]). apply Forall_take. unfold sort_by. rewrite py_sort_perm.
  apply list.Forall_forall. intros e' Hin. apply keep_first_spec in Hin. apply list_elem_of_lookup in Hin as [i Hi].
  destruct (Forall2_lookup_r _ _ _ _ _ He Hi) as (e & Hei & Hpay). apply list_elem_of_lookup_2 in Hei.
  apply list_elem_of_In, filter_In in Hei as [Hei Hinc]. apply list_elem_of_In, Hp in Hei as [v Hv].
  unfold relationship_endpoints_included in Hinc.
  destruct (field_text "source_node_id" e) as [src|] eqn:Es; [|done].
  destruct (field_text "target_node_id" e) as [tgt|] eqn:Et; [|done]. to_prop.
  assert (∀ id k, id ∈ (list_to_set (omap (field_text "node_id") (normalize_nodes (map snd (nodes_by_key w)) limit)) : gset string) →
    field_text k e = Some id → k ∈ edge_text_keys → ends_in (normalize_nodes (map snd (nodes_by_key w)) limit) e' k) as Hend.
  { intros id k Hid Hk Hkey. apply elem_of_list_to_set, list_elem_of_omap in Hid as (n & Hn & Hid). exists id, n.
    split_and!; try done. by rewrite (edge_payload_again v e e' k Hv Hpay Hkey). }
  split; [apply (Hend src)|apply (Hend tgt)]; try assumption; unfold edge_text_keys; rewrite !elem_of_cons; tauto.
Qed.
End any_client.

(** Whatever the database answers, the subgraph a query returns is bounded
    by the limit, its nodes and relationships are in order and none comes
    twice, and both ends of every relationship are among the nodes. *)
Theorem subgraph_is_closed `{PyText} `{PyNumbers} `{JsonDecoder} `{Neo4jClient W}
    seed_entities depth ready limit max_depth (s : W) q s' :
  query_subgraph seed_entities depth ready limit max_depth s = (Ok q, s') →
  let sg := qr_subgraph q in
  (∃ st, ready = Some (Ok st) ∧ qr_generation_id q = graph_generation_id st) ∧
  Z.of_nat (length (sg_nodes sg)) ≤ qr_result_limit q ∧ Z.of_nat (length (sg_relationships sg)) ≤ qr_result_limit q ∧
  StronglySorted (λ a b, key_leb (node_sort_key a) (node_sort_key b)) (sg_nodes sg) ∧ NoDup (map node_identity (sg_nodes sg)) ∧
  StronglySorted (λ a b, key_leb (edge_sort_key a) (edge_sort_key b)) (sg_relationships sg) ∧ NoDup (map edge_identity (sg_relationships sg)) ∧
  Forall (λ r, ends_in (sg_nodes sg) r "source_node_id" ∧ ends_in (sg_nodes sg) r "target_node_id") (sg_relationships sg).
Proof.
  unfold query_subgraph. intros (seeds & s0 & [= _ <-] & Hq)%pbind_ok. apply pbind_ok in Hq as (d & s1 & [= _ <-] & Hq).
  apply pbind_ok in Hq as (n & s2 & [= Hn <-] & Hq). apply pbind_ok in Hq as (st & s3 & [= Hst <-] & Hq).
  apply pbind_ok in Hq as (sg & s4 & Hsg & [= <- _]). cbn [qr_subgraph qr_generation_id qr_result_limit].
  apply validated_limit_pos in Hn.
  apply read_subgraph_walk in Hsg as (rows & s5 & w & _ & _ & Hclose & Hp).
  pose proof (closed_walk _ _ _ _ Hp Hclose) as Hends. unfold close_walk in Hclose.
  apply rbind_ok in Hclose as (rs & Hrs & [= <-]). cbn [sg_nodes sg_relationships] in *.
  unfold normalize_edges in Hrs. apply rbind_ok in Hrs as (edges & _ & [= <-]).
  split_and!.
  - destruct ready as [[st'|e]|]; try done. injection Hst as <-. eauto.
  - unfold normalize_nodes. rewrite length_take. lia.
  - rewrite length_take. lia.
  - apply sort_take_sorted, (text_keys_proper node_identity).
  - apply distinct_results.
  - apply sort_take_sorted, edge_keys_proper.
  - apply distinct_results.
  - exact Hends.
Qed.

(** ** A property graph and what the queries say of it

    As in the queries, a node is known by its [node_id], a relationship by its
    [edge_id], or else by the identity the database gives them; the constraints
    of the schema make these keys. *)
Record node_data := mkNodeData {
  nd_id : option string;
  nd_entity : option string;
  nd_labels : list string;
  nd_properties : pdict;
}.
Record edge_data := mkEdgeData {
  ed_id : option string;
  ed_source : string;
  ed_target : string;
  ed_type : string;
  ed_properties : pdict;
  ed_weight : spec_float;
}.
Record pgraph := mkPGraph { pg_nodes : gmap string node_data; pg_edges : gmap string edge_data }.
Definition graph_ok (g : pgraph) : Prop :=
  (∀ k d, pg_nodes g !! k = Some d → k ≠ "" ∧ ∀ i, nd_id d = Some i → i = k) ∧
  (∀ k e, pg_edges g !! k = Some e → k ≠ "" ∧ is_Some (pg_nodes g !! ed_source e) ∧ is_Some (pg_nodes g !! ed_target e)).
(** The [node_id] of a node, if it has one. *)
Definition node_id_of (g : pgraph) (k : string) : option string := pg_nodes g !! k ≫= nd_id.

Section semantics.
Context `{PyText}.

Definition node_map (g : pgraph) (k : string) : pyval :=
  match pg_nodes g !! k with
  | Some d => PDict [(PStr "node_id", or_none (nd_id d)); (PStr "canonical_entity_id", or_none (nd_entity d));
                (PStr "labels", PList (map PStr (nd_labels d))); (PStr "properties", PDict (nd_properties d))]
  | None => PNone
  end.
Definition edge_map (g : pgraph) (e : edge_data) : pyval :=
  PDict [(PStr "edge_id", or_none (ed_id e)); (PStr "source_node_id", or_none (node_id_of g (ed_source e)));
    (PStr "target_node_id", or_none (node_id_of g (ed_target e)));
    (PStr "relationship_type", PStr (ed_type e)); (PStr "properties", PDict (ed_properties e)); (PStr "weight", PFloat (ed_weight e))].

(** Seeds: nodes named by their own or their entity's identifier, in the order
    of the query. *)
Definition named_in (seeds : list string) (o : option string) : bool :=
  match o with Some i => bool_decide (i ∈ seeds) | None => false end.
Definition is_seed (seeds : list string) (kd : string * node_data) : bool :=
  named_in seeds (nd_entity kd.2) || named_in seeds (nd_id kd.2).
Definition seed_key (kd : string * node_data) : sort_key :=
  map KStr [default "" (nd_id kd.2); default "" (nd_entity kd.2); kd.1].
Definition seeds_of (g : pgraph) (seeds : list string) : list string :=
  map fst (sort_by seed_key (List.filter (is_seed seeds) (map_to_list (pg_nodes g)))).
Definition seed_rows (g : pgraph) (seeds : list string) (n : Z) : list pdict :=
  map (λ k, [(PStr "node_key", PStr k); (PStr "node", node_map g k)]) (take (Z.to_nat n) (seeds_of g seeds)).

Definition incident (keys : list string) (e : edge_data) : bool :=
  bool_decide (ed_source e ∈ keys) || bool_decide (ed_target e ∈ keys).
(** The CASE expression of the frontier query. *)
Definition neighbor_of (frontier : list string) (e : edge_data) : string :=
  let s := bool_decide (ed_source e ∈ frontier) in
  let t := bool_decide (ed_target e ∈ frontier) in
  if s && negb t then ed_target e
  else if t && negb s then ed_source e
  else if s then ed_target e else ed_source e.
Definition frontier_row (g : pgraph) (frontier : list string) (ke : string * edge_data) : pdict :=
  let '(k, e) := ke in
  [(PStr "relationship_key", PStr k); (PStr "source_key", PStr (ed_source e)); (PStr "target_key", PStr (ed_target e));
   (PStr "neighbor_key", PStr (neighbor_of frontier e)); (PStr "channel", PNone); (PStr "source", node_map g (ed_source e));
   (PStr "target", node_map g (ed_target e)); (PStr "neighbor", node_map g (neighbor_of frontier e)); (PStr "relationship", edge_map g e)].
Definition frontier_edges (g : pgraph) (frontier : list string) (visited : gset string) : list (string * edge_data) :=
  List.filter (λ ke, incident frontier ke.2 && negb (bool_decide (ke.1 ∈ visited))) (map_to_list (pg_edges g)).
Definition frontier_rows (g : pgraph) (frontier : list string) (visited : gset string) (n : Z) : list pdict :=
  map (frontier_row g frontier) (take (Z.to_nat n) (sort_on fst (frontier_edges g frontier visited))).
End semantics.

(** A client whose reads answer the two queries of a walk from the graph its
    state holds, and leave the state alone. *)
Class GraphReads (W : Type) `{PyText} `{Neo4jClient W} (graph_of : W → pgraph) := {
  seeds_read seeds limit w :
    execute_read seed_query (seed_parameters seeds limit) w = (Ok (seed_rows (graph_of w) seeds (per_depth_limit limit)), w);
  frontier_read frontier visited limit w :
    execute_read (frontier_query false) (frontier_parameters None frontier visited limit) w =
      (Ok (frontier_rows (graph_of w) frontier visited (per_depth_limit limit)), w);
}.

(** ** The reference: balls around the seeds *)
Definition neighbors (g : pgraph) (ball : gset string) : gset string :=
  list_to_set (concat (map (λ ke, if incident (elements ball) ke.2 then [ed_source ke.2; ed_target ke.2] else [])
    (map_to_list (pg_edges g)))).
Fixpoint ball (g : pgraph) (seeds : gset string) (n : nat) : gset string :=
  match n with
  | O => seeds
  | S m => ball g seeds m ∪ neighbors g (ball g seeds m)
  end.
(** The relationships with an end in the ball one step smaller. *)
Definition touching (g : pgraph) (ns : gset string) : gset string :=
  dom (filter (λ ke : string * edge_data, incident (elements ns) ke.2 = true) (pg_edges g)).
Definition reached (g : pgraph) (seeds : gset string) (n : nat) : gset string :=
  match n with O => ∅ | S m => touching g (ball g seeds m) end.

(** Both ends have a [node_id]: only then is a relationship returned. *)
Definition joins_named (g : pgraph) (e : edge_data) : Prop :=
  is_Some (node_id_of g (ed_source e)) ∧ is_Some (node_id_of g (ed_target e)).

(** ** Reading the rows of a level *)
Section levels.
Context `{PyText} `{PyNumbers} `{JsonDecoder}.
Context (g : pgraph) (g_ok : graph_ok g).

Definition the_node (k : string) : pdict := match node_map g k with PDict d => node_payload d | _ => [] end.
Definition rel_payload (e : edge_data) : pdict :=
  match edge_map g e with PDict d => match edge_payload d with Ok p => p | Err _ => [] end | _ => [] end.

(** What a payload says of a node, and of a relationship. *)
Definition describes_node (d : node_data) (x : pdict) : Prop :=
  field_text "node_id" x = nd_id d ∧ field_text "canonical_entity_id" x = nd_entity d.
Definition describes_edge (e : edge_data) (x : pdict) : Prop :=
  field_text "edge_id" x = ed_id e ∧ field_text "source_node_id" x = node_id_of g (ed_source e) ∧
  field_text "relationship_type" x = Some (ed_type e) ∧ field_text "target_node_id" x = node_id_of g (ed_target e) ∧
  pget "weight" x = Some (PFloat (ed_weight e)).
(** What tells two results apart. *)
Definition node_identity_of (d : node_data) : list string := [default "" (nd_id d); default "" (nd_entity d)].
Definition identity_of (e : edge_data) : list string :=
  [default "" (ed_id e); default "" (node_id_of g (ed_source e)); ed_type e; default "" (node_id_of g (ed_target e))].

Lemma describes_node_identity d x : describes_node d x → node_identity x = node_identity_of d.
Proof. intros [E1 E2]. unfold node_identity. by rewrite !sort_field_text, E1, E2. Qed.
Lemma describes_edge_identity e x : describes_edge e x → edge_identity x = identity_of e.
Proof. intros (E1 & E2 & E3 & E4 & _). unfold edge_identity. by rewrite !sort_field_text, E1, E2, E3, E4. Qed.

Lemma the_node_describes k d : pg_nodes g !! k = Some d →
  describes_node d (the_node k) ∧ describes_node d (node_payload (the_node k)).
Proof.
  intros Hd. assert (describes_node d (the_node k)) as [H1' H2'].
  { unfold the_node, node_map. rewrite Hd. split; rewrite node_payload_text by set_solver; cbn; by rewrite field_text_of. }
  split; [done|]. unfold the_node, node_map in *. rewrite Hd in *.
  split; rewrite node_payload_again by set_solver; done.
Qed.

Lemma rel_payload_ok e : ∃ d, edge_map g e = PDict d ∧ edge_payload d = Ok (rel_payload e).
Proof. by eexists. Qed.

Lemma rel_payload_describes e : describes_edge e (rel_payload e).
Proof.
  destruct (rel_payload_ok e) as (d & [= <-] & Hp).
  assert (∀ k, k ∈ edge_text_keys → field_text k (rel_payload e) = text_or_none (get_or_raw k _ PNone)) as Ht
    by (intros k; by apply edge_payload_text).
  unfold describes_edge. rewrite !Ht by (unfold edge_text_keys; rewrite !elem_of_cons; tauto). unfold get_or_raw. cbn.
  by rewrite py_str_text, !field_text_of.
Qed.
(** Read once more, as a query does before it returns. *)
Lemma edge_payload_weight value e : edge_payload value = Ok e → ∃ f, pget "weight" e = Some (PFloat f) ∧
  ∀ e', edge_payload e = Ok e' → pget "weight" e' = Some (PFloat f).
Proof. intros (f & _ & [= <-])%rbind_ok. exists f. split; [done|]. by intros e' [= <-]. Qed.
Lemma rel_payload_again e x : edge_payload (rel_payload e) = Ok x → describes_edge e x.
Proof.
  intros Hx. destruct (rel_payload_ok e) as (d & _ & Hd). destruct (rel_payload_describes e) as (H1' & H2' & H3' & H4' & H5').
  destruct (edge_payload_weight _ _ Hd) as (f & Hf & Hagain). rewrite H5' in Hf. injection Hf as <-.
  unfold describes_edge. rewrite !(edge_payload_again d (rel_payload e) x _ Hd Hx) by (unfold edge_text_keys; rewrite !elem_of_cons; tauto).
  split_and!; auto.
Qed.

Lemma frontier_row_read k e fr : pg_edges g !! k = Some e →
  relationship_from_traversal_row (frontier_row g fr (k, e)) = Ok (rel_payload e, Some k) ∧
  field_text "neighbor_key" (frontier_row g fr (k, e)) = Some (neighbor_of fr e) ∧
  endpoint_nodes_from_traversal_row (frontier_row g fr (k, e)) =
    [(Some (ed_source e), the_node (ed_source e)); (Some (ed_target e), the_node (ed_target e))].
Proof.
  intros He. destruct g_ok as [Hn Hedges]. destruct (Hedges k e He) as (Hk & [ds Hs] & [dt Ht]).
  assert (is_empty k = false) as Hk' by by destruct k.
  assert (is_empty (ed_source e) = false) as Hs' by (destruct (Hn _ _ Hs); by destruct (ed_source e)).
  assert (is_empty (ed_target e) = false) as Ht' by (destruct (Hn _ _ Ht); by destruct (ed_target e)).
  split_and!.
  - unfold relationship_from_traversal_row. cbn [frontier_row sub_row pget is_key String.eqb Ascii.eqb Bool.eqb edge_map].
    unfold rel_payload. cbn [edge_map]. unfold edge_payload at 1 2. cbn. unfold field_text. cbn. by rewrite py_str_text, Hk'.
  - unfold field_text. cbn. by rewrite py_str_text.
  - unfold endpoint_nodes_from_traversal_row, endpoint_from_row. cbn. unfold the_node, node_map. rewrite Hs, Ht. cbn.
    unfold field_text. cbn. by rewrite !py_str_text, Hs', Ht'.
Qed.

(** What holds of the payloads gathered so far. *)
Definition gathered (limit : Z) (lv : level) : Prop :=
  NoDup (dkeys (lv_nodes lv)) ∧ (∀ k p, dget k (lv_nodes lv) = Some p → is_Some (pg_nodes g !! k) ∧ p = the_node k) ∧
  Z.of_nat (length (lv_nodes lv)) ≤ limit ∧
  NoDup (dkeys (lv_relationships lv)) ∧
  (∀ k p, dget k (lv_relationships lv) = Some p → ∃ e, pg_edges g !! k = Some e ∧ p = rel_payload e) ∧
  Z.of_nat (length (lv_relationships lv)) ≤ limit ∧
  ∀ k, k ∈ lv_visited lv ↔ k ∈ dkeys (lv_relationships lv).

Lemma add_endpoints_all limit nodes endpoints nodes' :
  NoDup (dkeys nodes) → (∀ k p, dget k nodes = Some p → is_Some (pg_nodes g !! k) ∧ p = the_node k) →
  Z.of_nat (length nodes) ≤ limit →
  Forall (λ kn : option string * pdict, ∃ k, kn = (Some k, the_node k) ∧ is_Some (pg_nodes g !! k)) endpoints →
  add_endpoints limit nodes endpoints = (nodes', true) →
  NoDup (dkeys nodes') ∧ (∀ k p, dget k nodes' = Some p → is_Some (pg_nodes g !! k) ∧ p = the_node k) ∧
  Z.of_nat (length nodes') ≤ limit ∧ ∀ k, k ∈ dkeys nodes' ↔ k ∈ dkeys nodes ∨ Some k ∈ map fst endpoints.
Proof.
  intros Hn Hp Hl He. revert nodes Hn Hp Hl. induction He as [|kn endpoints (k & -> & Hk) _ IH]; intros nodes Hn Hp Hl.
  - intros [= <-]. split_and!; try done. intros k. simpl. split; [by left|]. intros [?|Hk%elem_of_nil]; done.
  - cbn [add_endpoints map fst]. destruct (dhas k nodes) eqn:Eh.
    + intros Hrest. destruct (IH nodes Hn Hp Hl Hrest) as (H1' & H2' & H3' & Hk'). split_and!; try done.
      intros k'. rewrite Hk', elem_of_cons. apply dhas_true in Eh. naive_solver.
    + destruct (limit <=? Z.of_nat (length nodes)) eqn:El; [done|]. intros Hrest.
      destruct (IH (dset k (the_node k) nodes)) as (H1' & H2' & H3' & Hk'); try done.
      * by apply NoDup_dset.
      * intros k' p. rewrite dget_dset. destruct (String.eqb_spec k' k) as [->|_]; [by intros [= <-]|apply Hp].
      * rewrite length_dset, Eh. lia.
      * split_and!; try done. intros k'. rewrite Hk', elem_of_cons, elem_of_dset. naive_solver.
Qed.

Lemma read_rows_flag limit previous rows lv lv' :
  read_level_rows limit previous rows lv = Ok lv' → lv_node_limit lv' = false → lv_node_limit lv = false.
Proof.
  revert lv. induction rows as [|row rows IH]; intros lv; cbn [read_level_rows]; [by intros [= <-]|].
  intros ([relationship key] & _ & Hrest)%rbind_ok Hf. destruct key as [k|]; [|by eapply IH].
  case_bool_decide; [by eapply IH|]. destruct (add_endpoints limit (lv_nodes lv) _) as [nodes available].
  destruct available; cbn [negb] in Hrest; [|by specialize (IH _ Hrest Hf)].
  destruct (limit <=? _); [by injection Hrest as <-|]. exact (IH _ Hrest Hf).
Qed.

Lemma neighbor_is_end fr e : neighbor_of fr e = ed_source e ∨ neighbor_of fr e = ed_target e.
Proof. unfold neighbor_of. repeat case_match; auto. Qed.

Lemma elem_of_next previous nodes row next n k :
  field_text "neighbor_key" row = Some n → n ∈ dkeys nodes →
  k ∈ next_neighbor previous nodes row next ↔ k ∈ next ∨ (k ∉ previous ∧ k = n).
Proof.
  intros Hrow Hn. unfold next_neighbor. rewrite Hrow, (proj2 (dhas_true n nodes) Hn).
  destruct (bool_decide (n ∈ previous)) eqn:E1, (bool_decide (n ∈ next)) eqn:E2; to_prop; simpl;
  rewrite ?elem_of_app, ?list_elem_of_singleton; naive_solver.
Qed.

Lemma read_rows_complete limit previous fr es lv lv' :
  Forall (λ ke : string * edge_data, pg_edges g !! ke.1 = Some ke.2) es → NoDup (map fst es) →
  (∀ ke, ke ∈ es → ke.1 ∉ lv_visited lv) → gathered limit lv →
  read_level_rows limit previous (map (frontier_row g fr) es) lv = Ok lv' →
  lv_node_limit lv' = false → lv_relationship_limit lv' = false →
  gathered limit lv' ∧
  (∀ k, k ∈ dkeys (lv_nodes lv') ↔ k ∈ dkeys (lv_nodes lv) ∨ ∃ ke, ke ∈ es ∧ (k = ed_source ke.2 ∨ k = ed_target ke.2)) ∧
  (∀ k, k ∈ lv_visited lv' ↔ k ∈ lv_visited lv ∨ k ∈ map fst es) ∧
  (∀ k, k ∈ lv_next lv' ↔ k ∈ lv_next lv ∨ (k ∉ previous ∧ ∃ ke, ke ∈ es ∧ k = neighbor_of fr ke.2)).
Proof.
  intros Hes. revert lv. induction Hes as [|[k e] es He _ IH]; intros lv Hnd Hnew Hg Hrun Hnf Hrf.
  - injection Hrun as <-. split; [done|]. setoid_rewrite elem_of_nil. split_and!; intros k; (split; [by left|]); naive_solver.
  - cbn [map fst] in Hnd. apply NoDup_cons in Hnd as [Hk Hnd]. simpl in He.
    cbn [map read_level_rows] in Hrun. destruct (frontier_row_read k e fr He) as (Hrow & Hneighbor & Hends).
    rewrite Hrow in Hrun. cbn [rbind] in Hrun.
    rewrite bool_decide_eq_false_2 in Hrun by exact (Hnew (k, e) (list_elem_of_here _ _)).
    rewrite Hends in Hrun.
    destruct (add_endpoints limit (lv_nodes lv) _) as [nodes available] eqn:Eadd.
    destruct available; cbn [negb] in Hrun.
    2: { pose proof (read_rows_flag _ _ _ _ _ Hrun Hnf) as Hf. discriminate Hf. }
    destruct (limit <=? Z.of_nat (length (lv_relationships lv))) eqn:El; [injection Hrun as <-; discriminate Hrf|].
    destruct Hg as (Hn1 & Hn2 & Hn3 & Hr1 & Hr2 & Hr3 & Hv).
    destruct (proj2 g_ok k e He) as (_ & Hsrc & Htgt).
    apply add_endpoints_all in Eadd as (Ha1 & Ha2 & Ha3 & Ha4); try done.
    2: { repeat constructor; eauto. }
    assert (k ∉ dkeys (lv_relationships lv)) as Hfresh.
    { rewrite <- Hv. exact (Hnew (k, e) (list_elem_of_here _ _)). }
    assert (neighbor_of fr e ∈ dkeys nodes) as Hin.
    { apply Ha4. right. cbn [map fst]. rewrite !elem_of_cons. destruct (neighbor_is_end fr e) as [-> | ->]; auto. }
    apply IH in Hrun as (Hg' & Hnodes & Hvis & Hnext); try done.
    + split_and!; [done| | |].
      * intros k'. rewrite Hnodes. cbn [lv_nodes]. rewrite Ha4. cbn [map fst]. rewrite !elem_of_cons, elem_of_nil.
        setoid_rewrite elem_of_cons. naive_solver.
      * intros k'. rewrite Hvis. cbn [lv_visited map fst]. rewrite elem_of_cons. set_solver.
      * intros k'. rewrite Hnext. cbn [lv_next]. rewrite (elem_of_next _ _ _ _ _ _ Hneighbor Hin). setoid_rewrite elem_of_cons. naive_solver.
    + intros ke Hke. cbn [lv_visited]. apply not_elem_of_union. split; [|apply Hnew; by right].
      rewrite elem_of_singleton. intros <-. apply Hk. by apply list_elem_of_fmap_2.
    + unfold gathered. cbn [lv_nodes lv_relationships lv_visited]. split_and!; try done.
      * by apply NoDup_dset.
      * intros k' p. rewrite dget_dset. destruct (String.eqb_spec k' k) as [->|_]; [|apply Hr2]. intros [= <-]. eauto.
      * rewrite length_dset. destruct (dhas k _) eqn:Eh; lia.
      * intros k'. rewrite elem_of_dset, <- Hv. set_solver.
Qed.

(** Rows of the graph are always read, and none is dropped when the nodes and
    relationships they lead to fit in the limit. *)
Lemma read_rows_total limit previous fr es lv :
  Forall (λ ke : string * edge_data, pg_edges g !! ke.1 = Some ke.2) es →
  ∃ lv', read_level_rows limit previous (map (frontier_row g fr) es) lv = Ok lv'.
Proof.
  intros Hes. revert lv. induction Hes as [|[k e] es He _ IH]; intros lv; [by eexists|].
  cbn [map read_level_rows]. destruct (frontier_row_read k e fr He) as (Hrow & _ & _). rewrite Hrow. cbn [rbind].
  destruct (bool_decide _); [apply IH|]. destruct (add_endpoints _ _ _) as [nodes available].
  destruct available; cbn [negb]; [|apply IH]. destruct (limit <=? _); [by eexists|apply IH].
Qed.

Definition keys_within (B : gset string) {V} (d : pydict V) : Prop := ∀ k, k ∈ dkeys d → k ∈ B.

Lemma room {V} (B : gset string) k (d : pydict V) limit :
  NoDup (dkeys d) → keys_within B d → k ∈ B → k ∉ dkeys d → Z.of_nat (size B) ≤ limit → (limit <=? Z.of_nat (length d)) = false.
Proof.
  intros Hn Hd Hk Hnew Hsize. apply Z.leb_gt.
  assert (({[k]} ∪ list_to_set (dkeys d) : gset string) ⊆ B) as Hsub.
  { intros x. rewrite elem_of_union, elem_of_singleton, elem_of_list_to_set. intros [->|Hx]; auto. }
  apply subseteq_size in Hsub. rewrite size_union, size_singleton, size_list_to_set in Hsub by (done || set_solver).
  unfold dkeys in Hsub. rewrite length_map in Hsub. lia.
Qed.

Lemma add_endpoints_fit (B : gset string) limit nodes endpoints :
  NoDup (dkeys nodes) → keys_within B nodes → Z.of_nat (size B) ≤ limit →
  Forall (λ kn : option string * pdict, ∃ k, kn.1 = Some k ∧ k ∈ B) endpoints →
  ∃ nodes', add_endpoints limit nodes endpoints = (nodes', true) ∧ NoDup (dkeys nodes') ∧ keys_within B nodes'.
Proof.
  intros Hn Hw Hsize He. revert nodes Hn Hw. induction He as [|[key node] endpoints (k & Hkey & Hk) _ IH]; intros nodes Hn Hw; [by eexists|].
  cbn in Hkey. subst key. cbn [add_endpoints]. destruct (dhas k nodes) eqn:Eh; [by apply IH|].
  assert (k ∉ dkeys nodes) as Hnew by (rewrite <- dhas_true; congruence).
  rewrite (room B k nodes) by done. apply IH; [by apply NoDup_dset|].
  intros k'. rewrite elem_of_dset. intros [->|Hk']; auto.
Qed.

Lemma read_rows_fit (B R : gset string) limit previous fr es lv lv' :
  Forall (λ ke : string * edge_data, pg_edges g !! ke.1 = Some ke.2) es →
  Z.of_nat (size B) ≤ limit → Z.of_nat (size R) ≤ limit →
  Forall (λ ke : string * edge_data, ed_source ke.2 ∈ B ∧ ed_target ke.2 ∈ B ∧ ke.1 ∈ R) es →
  NoDup (dkeys (lv_nodes lv)) → keys_within B (lv_nodes lv) →
  NoDup (dkeys (lv_relationships lv)) → keys_within R (lv_relationships lv) →
  (∀ k, k ∈ dkeys (lv_relationships lv) → k ∈ lv_visited lv) →
  lv_node_limit lv = false → lv_relationship_limit lv = false →
  read_level_rows limit previous (map (frontier_row g fr) es) lv = Ok lv' →
  lv_node_limit lv' = false ∧ lv_relationship_limit lv' = false.
Proof.
  intros Hes HB HR Hin. revert lv. induction es as [|[k e] es IH]; intros lv Hn Hw Hnr Hwr Hvis Hf Hf'.
  { by intros [= <-]. }
  apply Forall_cons in Hes as [He Hes]. apply Forall_cons in Hin as [(Hs & Ht & Hk) Hin]. cbn [fst snd] in *.
  cbn [map read_level_rows]. destruct (frontier_row_read k e fr He) as (Hrow & _ & Hends). rewrite Hrow, Hends. cbn [rbind].
  destruct (bool_decide (k ∈ lv_visited lv)) eqn:Ev; [by apply IH|]. apply bool_decide_eq_false in Ev.
  destruct (add_endpoints_fit B limit (lv_nodes lv) [(Some (ed_source e), the_node (ed_source e)); (Some (ed_target e), the_node (ed_target e))])
    as (nodes & -> & Hn' & Hw'); try done.
  { repeat constructor; eauto. }
  cbn [negb]. rewrite (room R k) by (done || naive_solver). apply IH; cbn [lv_nodes lv_relationships lv_visited lv_node_limit lv_relationship_limit]; try done.
  - by apply NoDup_dset.
  - intros k'. rewrite elem_of_dset. intros [->|Hk']; auto.
  - intros k' Hk'%elem_of_dset. rewrite elem_of_union, elem_of_singleton. naive_solver.
Qed.
End levels.

(** ** Balls *)
Section balls.
Context (g : pgraph) (S0 : gset string).

Definition before (n : nat) : gset string := match n with O => ∅ | S m => ball g S0 m end.

Lemma incident_spec keys e : incident keys e = true ↔ ed_source e ∈ keys ∨ ed_target e ∈ keys.
Proof. unfold incident. by rewrite orb_true_iff, !bool_decide_eq_true. Qed.

Lemma elem_of_touching ns k : k ∈ touching g ns ↔ ∃ e, pg_edges g !! k = Some e ∧ (ed_source e ∈ ns ∨ ed_target e ∈ ns).
Proof.
  unfold touching. rewrite elem_of_dom. unfold is_Some. setoid_rewrite map_lookup_filter_Some. cbn [snd].
  setoid_rewrite incident_spec. setoid_rewrite elem_of_elements. done.
Qed.

Lemma elem_of_neighbors ns k :
  k ∈ neighbors g ns ↔ ∃ k' e, pg_edges g !! k' = Some e ∧ (ed_source e ∈ ns ∨ ed_target e ∈ ns) ∧ (k = ed_source e ∨ k = ed_target e).
Proof.
  unfold neighbors. rewrite elem_of_list_to_set, list_elem_of_In, in_concat. setoid_rewrite in_map_iff. split.
  - intros (ks & ([k' e] & <- & He%list_elem_of_In%elem_of_map_to_list) & Hk). cbn [snd] in Hk.
    destruct (incident _ e) eqn:Ei; [|done]. apply incident_spec in Ei. rewrite !elem_of_elements in Ei.
    exists k', e. split_and!; try done. simpl in Hk. naive_solver.
  - intros (k' & e & He & Hi & Hk). exists [ed_source e; ed_target e]. split.
    + exists (k', e). split; [|by apply list_elem_of_In, elem_of_map_to_list]. cbn [snd].
      by rewrite (proj2 (incident_spec (elements ns) e)) by (rewrite !elem_of_elements; done).
    + simpl. naive_solver.
Qed.

Lemma reached_touching n k : k ∈ reached g S0 n ↔ k ∈ touching g (before n).
Proof. destruct n; simpl; [|done]. rewrite elem_of_touching. set_solver. Qed.

Lemma before_ball n k : k ∈ before n → k ∈ ball g S0 n.
Proof. destruct n; simpl; set_solver. Qed.

Lemma neighbors_before n k : k ∈ neighbors g (before n) → k ∈ ball g S0 n.
Proof. destruct n; simpl; [|set_solver]. rewrite elem_of_neighbors. set_solver. Qed.

(** A ball that did not grow never will. *)
Lemma ball_stable n :
  (∀ k, k ∈ ball g S0 n → k ∈ before n) → (∀ k, k ∈ ball g S0 (S n) ↔ k ∈ ball g S0 n) ∧ (∀ k, k ∈ reached g S0 (S n) ↔ k ∈ reached g S0 n).
Proof.
  intros Hstop. assert (ball g S0 n = before n) as Heq.
  { apply leibniz_equiv. intros k. split; [apply Hstop|apply before_ball]. }
  split; intros k; [|by rewrite reached_touching, reached_touching, <- Heq].
  simpl. rewrite elem_of_union. split; [|by left]. intros [?|Hk]; [done|]. apply neighbors_before. by rewrite <- Heq.
Qed.

Lemma ball_mono n m k : (n ≤ m)%nat → k ∈ ball g S0 n → k ∈ ball g S0 m.
Proof. induction 1; [done|]. intros Hk. simpl. set_solver. Qed.
Lemma reached_mono n m k : (n ≤ m)%nat → k ∈ reached g S0 n → k ∈ reached g S0 m.
Proof.
  intros Hnm. rewrite !reached_touching, !elem_of_touching. intros (e & He & Hends). exists e. split; [done|].
  assert (∀ x, x ∈ before n → x ∈ before m) as Hb.
  { intros x. destruct n as [|n], m as [|m]; simpl; [done|set_solver|lia|]. apply ball_mono. lia. }
  naive_solver.
Qed.

Lemma ball_size n m : (n ≤ m)%nat → Z.of_nat (size (ball g S0 n)) ≤ Z.of_nat (size (ball g S0 m)).
Proof. intros Hnm. apply inj_le, subseteq_size. intros k. by apply ball_mono. Qed.
Lemma reached_size n m : (n ≤ m)%nat → Z.of_nat (size (reached g S0 n)) ≤ Z.of_nat (size (reached g S0 m)).
Proof. intros Hnm. apply inj_le, subseteq_size. intros k. by apply reached_mono. Qed.

(** The relationships a level reads, by the frontier and what was visited. *)
Definition level_edges (fr : list string) (vis : gset string) : list (string * edge_data) := sort_on fst (frontier_edges g fr vis).

Lemma elem_of_level_edges fr vis k e :
  (k, e) ∈ level_edges fr vis ↔ pg_edges g !! k = Some e ∧ (ed_source e ∈ fr ∨ ed_target e ∈ fr) ∧ k ∉ vis.
Proof.
  unfold level_edges, frontier_edges, sort_on. rewrite py_sort_perm, list_elem_of_In, filter_In, <- list_elem_of_In, elem_of_map_to_list.
  cbn [fst snd]. rewrite andb_true_iff, incident_spec, negb_true_iff, bool_decide_eq_false. done.
Qed.
Lemma level_edges_known fr vis : Forall (λ ke : string * edge_data, pg_edges g !! ke.1 = Some ke.2) (level_edges fr vis).
Proof. apply list.Forall_forall. intros [k e] (He & _)%elem_of_level_edges. done. Qed.
Lemma level_edges_distinct fr vis : NoDup (map fst (level_edges fr vis)).
Proof.
  unfold level_edges, sort_on. eapply (NoDup_map_perm fst); [apply py_sort_perm|]. unfold frontier_edges.
  eapply NoDup_map_sub; [apply filter_sublist|apply NoDup_fst_map_to_list].
Qed.

(** From the ball of one radius to the next. *)
Section level.
Context (n : nat) (fr : list string) (vis : gset string).
Context (fr_new : ∀ k, k ∈ fr ↔ k ∈ ball g S0 n ∧ k ∉ before n).
Context (vis_reached : ∀ k, k ∈ vis ↔ k ∈ reached g S0 n).

Lemma next_reached k : k ∈ reached g S0 (S n) ↔ k ∈ vis ∨ k ∈ map fst (level_edges fr vis).
Proof.
  rewrite vis_reached, !reached_touching. cbn [before]. rewrite !elem_of_touching. split.
  - intros (e & He & Hi). destruct (decide (k ∈ vis)) as [Hv|Hv].
    { left. by rewrite vis_reached, reached_touching, elem_of_touching in Hv. }
    right. apply list_elem_of_fmap. exists (k, e). split; [done|]. apply elem_of_level_edges. split_and!; try done.
    assert (∀ x, x ∈ before n → (x = ed_source e ∨ x = ed_target e) → False) as Hno.
    { intros x Hx Hxe. apply Hv, vis_reached, reached_touching, elem_of_touching. exists e. naive_solver. }
    rewrite !fr_new. destruct Hi as [Hi|Hi]; [left|right]; (split; [done|]); intros Hx; eapply Hno; eauto.
  - intros [(e & He & Hi)|(ke & -> & Hke)%list_elem_of_fmap].
    + exists e. split; [done|]. destruct Hi; [left|right]; by apply before_ball.
    + destruct ke as [k e]. apply elem_of_level_edges in Hke as (He & Hi & _). rewrite !fr_new in Hi. exists e. naive_solver.
Qed.

Lemma next_ball k :
  k ∈ ball g S0 (S n) ↔ k ∈ ball g S0 n ∨ ∃ ke, ke ∈ level_edges fr vis ∧ (k = ed_source ke.2 ∨ k = ed_target ke.2).
Proof.
  cbn [ball]. rewrite elem_of_union, elem_of_neighbors. split.
  - intros [?|(k' & e & He & Hi & Hk)]; [by left|]. destruct (decide (k' ∈ vis)) as [Hv|Hv].
    + left. apply neighbors_before, elem_of_neighbors. apply vis_reached, reached_touching, elem_of_touching in Hv as (e' & He' & Hi').
      rewrite He in He'. injection He' as <-. eauto 6.
    + right. exists (k', e). split; [|done]. apply elem_of_level_edges. split_and!; try done.
      assert (k' ∈ reached g S0 (S n)) as Hr by (apply elem_of_touching; eauto).
      apply next_reached in Hr as [?|((k2, e2) & Hk2 & Hke)%list_elem_of_fmap]; [done|]. cbn in Hk2. subst k2.
      apply elem_of_level_edges in Hke as (He2 & Hi2 & _). rewrite He in He2. by injection He2 as <-.
  - intros [?|([k' e] & (He & Hi & _)%elem_of_level_edges & Hk)]; [by left|]. right. exists k', e. rewrite !fr_new in Hi. naive_solver.
Qed.

Lemma next_frontier k :
  k ∈ ball g S0 (S n) ∧ k ∉ ball g S0 n ↔
  k ∉ ball g S0 n ∧ ∃ ke, ke ∈ level_edges fr vis ∧ k = neighbor_of fr ke.2.
Proof.
  rewrite next_ball. split.
  - intros [[?|([k' e] & Hke & Hk)] Hnew]; [done|]. split; [done|]. exists (k', e). split; [done|].
    apply elem_of_level_edges in Hke as (_ & Hi & _). cbn [snd] in *.
    assert (k ∉ fr) as Hfr by (rewrite fr_new; naive_solver). unfold neighbor_of.
    destruct Hk as [->| ->]; destruct Hi as [Hi|Hi]; try done;
    rewrite (bool_decide_eq_true_2 _ Hi), (bool_decide_eq_false_2 _ Hfr); done.
  - intros [Hnew (ke & Hke & ->)]. split; [|done]. right. exists ke. split; [done|apply neighbor_is_end].
Qed.
End level.
End balls.

(** ** The walk *)
Section walking.
Context `{PyText} `{PyNumbers} `{JsonDecoder} {W : Type} `{Neo4jClient W} (graph_of : W → pgraph) `{!GraphReads W graph_of}.
Context (s : W) (S0 : gset string) (limit : Z).
Context (g_ok : graph_ok (graph_of s)).
Local Abbreviation g := (graph_of s).

Definition no_cut (w : walk) : Prop := w_node_limit w = false ∧ w_relationship_limit w = false ∧ w_frontier_limit w = false.
Definition level_of (w : walk) : level := mkLevel (nodes_by_key w) (relationships_by_key w) (visited w) [] false false.

(** What the walk holds after a depth that cut nothing. *)
Definition walked (n : nat) (w : walk) : Prop :=
  gathered g limit (level_of w) ∧ (∀ k, k ∈ dkeys (nodes_by_key w) ↔ k ∈ ball g S0 n) ∧
  (∀ k, k ∈ visited w ↔ k ∈ reached g S0 n) ∧ (∀ k, k ∈ frontier w ↔ k ∈ ball g S0 n ∧ k ∉ before g S0 n).

Definition rows_of (w : walk) : list pdict := frontier_rows g (frontier w) (visited w) (per_depth_limit limit).

Lemma rows_uncut w : (limit <? Z.of_nat (length (rows_of w))) = false →
  take (Z.to_nat limit) (rows_of w) = map (frontier_row g (frontier w)) (level_edges g (frontier w) (visited w)).
Proof.
  unfold rows_of, frontier_rows. fold (level_edges g (frontier w) (visited w)). rewrite length_map, length_take, <- fmap_take, take_take.
  unfold per_depth_limit. intros Hl%Z.ltb_ge. f_equal. apply take_ge. lia.
Qed.

Lemma rows_known w k : ∃ es, take k (rows_of w) = map (frontier_row g (frontier w)) es ∧
  Forall (λ ke : string * edge_data, pg_edges g !! ke.1 = Some ke.2) es.
Proof.
  unfold rows_of, frontier_rows. fold (level_edges g (frontier w) (visited w)). rewrite <- fmap_take.
  eexists. split; [done|]. do 2 apply Forall_take. apply level_edges_known.
Qed.

Lemma level_total cd w : ∃ w', read_level limit cd w (rows_of w) = Ok w'.
Proof.
  unfold read_level. destruct (rows_known w (Z.to_nat limit)) as (es & -> & Hes).
  edestruct (read_rows_total g g_ok limit (dkeys (nodes_by_key w)) (frontier w) es) as [lv ->]; [done|]. by eexists.
Qed.

Lemma level_walked n cd w w' :
  walked n w → read_level limit cd w (rows_of w) = Ok w' → no_cut w' → walked (S n) w' ∧ no_cut w.
Proof.
  intros (Hg & Hn & Hv & Hf) Hl. unfold read_level in Hl. apply rbind_ok in Hl as (lv & Hlv & [= <-]).
  unfold no_cut. cbn [w_node_limit w_relationship_limit w_frontier_limit]. rewrite !orb_false_iff. intros [[? Hnf] [[? Hrf] [? Hcut]]].
  split; [|done]. rewrite (rows_uncut w Hcut) in Hlv.
  apply read_rows_complete in Hlv as (Hg' & Hnodes & Hvis & Hnext); try done.
  - unfold walked. unfold level_of. cbn [nodes_by_key relationships_by_key visited frontier]. split_and!; [exact Hg'| | |].
    + intros k. rewrite Hnodes. cbn [lv_nodes]. rewrite Hn. by rewrite (next_ball g S0 n (frontier w) (visited w)).
    + intros k. rewrite Hvis. cbn [lv_visited]. by rewrite (next_reached g S0 n (frontier w) (visited w)).
    + intros k. rewrite Hnext. cbn [lv_next before]. rewrite Hn, elem_of_nil, (next_frontier g S0 n (frontier w) (visited w)) by done. naive_solver.
  - apply level_edges_known.
  - apply level_edges_distinct.
  - intros [k e] (_ & _ & Hk)%elem_of_level_edges. exact Hk.
Qed.

Lemma level_fits n cd w w' :
  walked n w → no_cut w → Z.of_nat (size (ball g S0 (S n))) ≤ limit → Z.of_nat (size (reached g S0 (S n))) ≤ limit →
  read_level limit cd w (rows_of w) = Ok w' → no_cut w'.
Proof.
  intros (Hg & Hn & Hv & Hf) (Hc1 & Hc2 & Hc3) Hball Hreached Hl.
  assert ((limit <? Z.of_nat (length (rows_of w))) = false) as Hcut.
  { apply Z.ltb_ge. unfold rows_of, frontier_rows. fold (level_edges g (frontier w) (visited w)). rewrite length_map, length_take.
    assert (length (level_edges g (frontier w) (visited w)) ≤ size (reached g S0 (S n)))%nat as Hle; [|lia].
    rewrite <- (length_map fst), <- (size_list_to_set (C := gset string)) by apply level_edges_distinct.
    apply subseteq_size. intros k Hk%elem_of_list_to_set. rewrite (next_reached g S0 n (frontier w) (visited w)) by done. by right. }
  unfold read_level in Hl. rewrite (rows_uncut w Hcut), Hcut in Hl. apply rbind_ok in Hl as (lv & Hlv & [= <-]).
  destruct Hg as (Hg1 & Hg2 & Hg3 & Hg4 & Hg5 & Hg6 & Hg7). cbn [level_of lv_nodes lv_relationships lv_visited] in *.
  apply (read_rows_fit g g_ok (ball g S0 (S n)) (reached g S0 (S n))) in Hlv; try done.
  - unfold no_cut. cbn [w_node_limit w_relationship_limit w_frontier_limit]. destruct Hlv as [-> ->]. by rewrite Hc1, Hc2, Hc3.
  - apply level_edges_known.
  - apply list.Forall_forall. intros ke Hke. rewrite !(next_ball g S0 n (frontier w) (visited w)), (next_reached g S0 n (frontier w) (visited w)) by done.
    split_and!; right; [by eauto..|]. by apply list_elem_of_fmap_2.
  - intros k Hk. cbn [lv_nodes] in Hk. rewrite Hn in Hk. by apply (ball_mono _ _ n); [lia|].
  - intros k Hk. cbn [lv_relationships] in Hk. rewrite <- Hg7, Hv in Hk. apply (reached_mono _ _ n); [lia|done].
  - intros k Hk. by apply Hg7.
Qed.

Lemma walked_stuck n w : frontier w = [] → walked n w → walked (S n) w.
Proof.
  intros Hnil (Hg & Hn & Hv & Hf). rewrite Hnil in Hf.
  destruct (ball_stable g S0 n) as [Hb Hr].
  { intros k Hk. destruct (decide (k ∈ before g S0 n)) as [|Hno]; [done|]. exfalso. by apply (elem_of_nil k), Hf. }
  split_and!; [done| | |].
  - intros k. by rewrite Hn, Hb.
  - intros k. by rewrite Hv, Hr.
  - intros k. rewrite Hnil. cbn [before]. rewrite Hb, elem_of_nil. naive_solver.
Qed.

(** The whole walk. It is never cut if the last ball and what touches the one
    before fit in the limit; if it was not cut, it has found exactly these. *)
Lemma walk_spec m n cd w :
  ∃ w', walk_depths m limit cd w s = (Ok w', s) ∧ (no_cut w' → no_cut w) ∧
    (walked n w → no_cut w' → walked (n + m) w') ∧
    (walked n w → no_cut w → Z.of_nat (size (ball g S0 (n + m))) ≤ limit → Z.of_nat (size (reached g S0 (n + m))) ≤ limit → no_cut w').
Proof.
  revert n cd w. induction m as [|m IH]; intros n cd w; cbn [walk_depths].
  { exists w. rewrite Nat.add_0_r. done. }
  destruct (frontier w) as [|key keys] eqn:Ef.
  - exists w. split_and!; try done. intros Hw _. clear IH. revert n Hw. induction (S m) as [|i IHi]; intros n Hw.
    { by rewrite Nat.add_0_r. }
    rewrite <- Nat.add_succ_comm. by apply IHi, walked_stuck.
  - rewrite <- Ef. destruct (level_total cd w) as [w1 Hl]. unfold pbind, read_frontier_rows. rewrite frontier_read.
    fold (rows_of w). unfold lift. rewrite Hl. rewrite <- Nat.add_succ_comm.
    assert (no_cut w1 → no_cut w) as Hmono.
    { apply rbind_ok in Hl as (lv & _ & [= <-]). unfold no_cut. cbn [w_node_limit w_relationship_limit w_frontier_limit].
      rewrite !orb_false_iff. tauto. }
    destruct (w_node_limit w1 || w_relationship_limit w1) eqn:Estop.
    + exists w1. assert (no_cut w1 → False) as Hno.
      { intros (H1' & H2' & _). by rewrite H1', H2' in Estop. }
      split_and!; try done. intros Hw Hc Hball Hreached. apply (level_fits n cd w w1); try done.
      * etrans; [apply ball_size|exact Hball]. lia.
      * etrans; [apply reached_size|exact Hreached]. lia.
    + destruct (IH (S n) (cd + 1) w1) as (w' & Hrun & Hback & Hwalk & Hfit). exists w'. split_and!; [done|tauto| |].
      * intros Hw Hc. apply Hwalk; [|done]. by apply (level_walked n cd w w1); [| |apply Hback].
      * intros Hw Hc Hball Hreached. assert (no_cut w1) as Hc1.
        { apply (level_fits n cd w w1); try done.
          - etrans; [apply ball_size|exact Hball]. lia.
          - etrans; [apply reached_size|exact Hreached]. lia. }
        apply Hfit; try done. by apply (level_walked n cd w w1).
Qed.

(** *** The seeds *)
Lemma seed_row k : is_Some (pg_nodes g !! k) →
  node_from_traversal_row [(PStr "node_key", PStr k); (PStr "node", node_map g k)] = (the_node g k, Some k).
Proof.
  intros [d Hd]. assert (is_empty k = false) as Hk by (destruct (proj1 g_ok k d Hd); by destruct k).
  unfold node_from_traversal_row, the_node. cbn [sub_row pget is_key String.eqb Ascii.eqb Bool.eqb]. unfold node_map. rewrite Hd.
  cbn [pget is_key String.eqb Ascii.eqb Bool.eqb]. f_equal. unfold field_text. simpl. by rewrite py_str_text, Hk.
Qed.

Lemma add_seeds_all ks nodes :
  Forall (λ k, is_Some (pg_nodes g !! k)) ks → NoDup ks → NoDup (dkeys nodes) → (∀ k, k ∈ ks → k ∉ dkeys nodes) →
  (∀ k p, dget k nodes = Some p → is_Some (pg_nodes g !! k) ∧ p = the_node g k) →
  ∃ nodes', fold_left add_seed (map (λ k, [(PStr "node_key", PStr k); (PStr "node", node_map g k)]) ks) (nodes, dkeys nodes) =
      (nodes', (dkeys nodes ++ ks)%list) ∧ dkeys nodes' = (dkeys nodes ++ ks)%list ∧
    (∀ k p, dget k nodes' = Some p → is_Some (pg_nodes g !! k) ∧ p = the_node g k).
Proof.
  intros Hks. revert nodes. induction Hks as [|k ks Hk _ IH]; intros nodes Hnd Hn Hnew Hp.
  { exists nodes. by rewrite app_nil_r. }
  apply NoDup_cons in Hnd as [Hkks Hnd]. cbn [map fold_left]. unfold add_seed at 2. rewrite (seed_row k Hk).
  assert (dhas k nodes = false) as Hh.
  { apply not_true_iff_false. rewrite dhas_true. apply Hnew. by left. }
  rewrite Hh. assert (dkeys (dset k (the_node g k) nodes) = (dkeys nodes ++ [k])%list) as Hd by (by rewrite dkeys_dset, Hh).
  rewrite <- Hd. destruct (IH (dset k (the_node g k) nodes)) as (nodes' & Hrun & Hkeys & Hp'); try done.
  - by apply NoDup_dset.
  - intros k' Hk'. rewrite elem_of_dset. intros [->|Hin]; [done|]. revert Hin. apply Hnew. by right.
  - intros k' p. rewrite dget_dset. destruct (String.eqb_spec k' k) as [->|_]; [by intros [= <-]|apply Hp].
  - exists nodes'. rewrite Hrun, Hkeys, Hd, <- app_assoc. done.
Qed.

Lemma seeds_known seeds : Forall (λ k, is_Some (pg_nodes g !! k)) (seeds_of g seeds).
Proof.
  unfold seeds_of. apply list.Forall_forall. intros k ([k' d] & -> & Hk)%list_elem_of_fmap. unfold sort_by in Hk. rewrite py_sort_perm in Hk.
  apply list_elem_of_In, filter_In in Hk as [Hk _]. apply list_elem_of_In, elem_of_map_to_list in Hk. by eexists.
Qed.
Lemma seeds_distinct seeds : NoDup (seeds_of g seeds).
Proof.
  unfold seeds_of. eapply NoDup_map_perm; [apply sort_by_perm|]. eapply NoDup_map_sub; [apply filter_sublist|apply NoDup_fst_map_to_list].
Qed.

Lemma seed_walked seeds : S0 = list_to_set (seeds_of g seeds) → 1 ≤ limit →
  let w := seed_walk limit (seed_rows g seeds (per_depth_limit limit)) in
  (no_cut w ↔ Z.of_nat (size (ball g S0 0)) ≤ limit) ∧ (no_cut w → walked 0 w).
Proof.
  intros HS Hlimit. cbn zeta. set (ks := seeds_of g seeds).
  assert (size S0 = length ks) as Hsize.
  { rewrite HS. apply size_list_to_set, seeds_distinct. }
  assert (∀ rows, no_cut (seed_walk limit rows) ↔ Z.of_nat (length rows) ≤ limit) as Hcut.
  { intros rows. unfold seed_walk, no_cut. destruct (fold_left _ _ _). cbn [w_node_limit w_relationship_limit w_frontier_limit].
    rewrite Z.ltb_ge. tauto. }
  rewrite Hcut. unfold seed_rows at 1 2. fold ks. rewrite length_map, length_take. unfold per_depth_limit. cbn [ball]. rewrite Hsize.
  split; [lia|]. intros Hl.
  assert (take (Z.to_nat limit) (seed_rows g seeds (limit + 1)) =
    map (λ k, [(PStr "node_key", PStr k); (PStr "node", node_map g k)]) ks) as Hrows.
  { unfold seed_rows. fold ks. rewrite <- fmap_take, take_take. f_equal. apply take_ge. lia. }
  unfold seed_walk. rewrite Hrows. destruct (add_seeds_all ks []) as (nodes & Hrun & Hkeys & Hp); try done.
  { apply seeds_known. } { apply seeds_distinct. } { constructor. } { intros k _ Hk. by apply elem_of_nil in Hk. }
  cbn [dkeys map app] in Hrun, Hkeys. rewrite Hrun.
  assert (∀ k, k ∈ ks ↔ k ∈ S0) as HkS.
  { intros k. by rewrite HS, elem_of_list_to_set. }
  unfold walked, level_of, gathered. cbn [nodes_by_key relationships_by_key visited frontier lv_nodes lv_relationships lv_visited].
  cbn [ball before reached]. rewrite Hkeys. split_and!; try done.
  - apply seeds_distinct.
  - rewrite <- (length_map fst nodes). fold (dkeys nodes). rewrite Hkeys. lia.
  - constructor.
  - simpl. lia.
  - intros k. simpl. by rewrite elem_of_empty, elem_of_nil.
  - intros k. rewrite HkS, elem_of_empty. naive_solver.
Qed.

(** *** The end *)
Lemma keep_first_length (identity : pdict → list string) l : (length (keep_first identity l) ≤ length l)%nat.
Proof.
  unfold keep_first. induction l as [|x l IH] using rev_ind; [done|]. rewrite fold_left_app. cbn [fold_left].
  case_bool_decide; rewrite ?length_app; simpl in *; lia.
Qed.

(** Nothing is lost to a limit that the payloads fit in. *)
Lemma elem_of_uncut key identity l x :
  Z.of_nat (length l) ≤ limit → x ∈ take (Z.to_nat limit) (sort_by key (keep_first identity l)) ↔ x ∈ keep_first identity l.
Proof.
  intros Hl. pose proof (keep_first_length identity l). unfold sort_by. rewrite take_ge by (rewrite py_sort_perm; lia). by rewrite py_sort_perm.
Qed.

Lemma closed_nodes n w : walked n w →
  (∀ x, x ∈ normalize_nodes (map snd (nodes_by_key w)) limit → ∃ k d, k ∈ ball g S0 n ∧ pg_nodes g !! k = Some d ∧ describes_node d x) ∧
  (∀ k d, k ∈ ball g S0 n → pg_nodes g !! k = Some d →
     ∃ x, x ∈ normalize_nodes (map snd (nodes_by_key w)) limit ∧ node_identity x = node_identity_of d).
Proof.
  intros ((Hnd & Hp & Hl & _) & Hn & _). cbn [level_of lv_nodes] in *. unfold normalize_nodes.
  setoid_rewrite elem_of_uncut; [|by rewrite !length_map..].
  destruct (keep_first_spec node_identity (map node_payload (map snd (nodes_by_key w)))) as (_ & Hsub & Hrep).
  assert (∀ x, x ∈ map node_payload (map snd (nodes_by_key w)) ↔ ∃ k', k' ∈ ball g S0 n ∧ x = node_payload (the_node g k')) as HL.
  { intros x. rewrite map_map, list_elem_of_fmap. split.
    - intros ([k' p] & -> & Hin). apply elem_of_dget in Hin; [|done]. exists k'. cbn [snd]. split; [|by rewrite (proj2 (Hp k' p Hin))].
      apply Hn, elem_of_dkeys. eauto.
    - intros (k' & Hk' & ->). apply Hn, elem_of_dkeys in Hk' as [p Hk']. exists (k', p). rewrite (proj2 (Hp k' p Hk')).
      split; [done|]. rewrite <- (proj2 (Hp k' p Hk')). by apply dget_Some_elem. }
  split.
  - intros x (k & Hk & ->)%Hsub%HL. pose proof Hk as Hk'. apply Hn, elem_of_dkeys in Hk' as [p Hk'].
    destruct (Hp k p Hk') as [[d Hd] _]. exists k, d. split_and!; try done. by apply the_node_describes.
  - intros k d Hk Hd. assert (node_payload (the_node g k) ∈ map node_payload (map snd (nodes_by_key w))) as Hin by (apply HL; eauto).
    apply Hrep in Hin. apply list_elem_of_fmap in Hin as (x & Hx & Hin). exists x. split; [done|]. rewrite <- Hx.
    by apply describes_node_identity, the_node_describes.
Qed.

(** The names of the nodes returned. *)
Lemma closed_names n w i : walked n w →
  i ∈ omap (field_text "node_id") (normalize_nodes (map snd (nodes_by_key w)) limit) ↔ i ∈ ball g S0 n ∧ node_id_of g i = Some i.
Proof.
  intros Hw. destruct (closed_nodes n w Hw) as [Hsound Hall]. rewrite list_elem_of_omap. unfold node_id_of. split.
  - intros (x & (k & d & Hk & Hd & Hx & _)%Hsound & Hi). rewrite Hx in Hi. pose proof (proj2 (proj1 g_ok k d Hd) i Hi) as ->. by rewrite Hd.
  - intros [Hk Hi]. destruct (pg_nodes g !! i) as [d|] eqn:Hd; [|done]. cbn in Hi. destruct (Hall i d Hk Hd) as (x & Hx & Heq).
    exists x. split; [done|]. destruct (Hsound x Hx) as (k' & d' & _ & Hd' & Hdesc). rewrite (describes_node_identity _ _ Hdesc) in Heq.
    injection Heq as Heq _. rewrite Hi in Heq. cbn in Heq. destruct Hdesc as [-> _]. destruct (nd_id d'); cbn in Heq; [by subst|].
    by destruct (proj1 g_ok i d Hd).
Qed.

Lemma edge_payload_total value e : edge_payload value = Ok e → ∃ e', edge_payload e = Ok e'.
Proof. intros (f & _ & [= <-])%rbind_ok. by eexists. Qed.

Lemma close_total depth w : payloads_only (relationships_by_key w) → ∃ sg, close_walk depth limit w = Ok sg.
Proof.
  intros Hp. unfold close_walk, normalize_edges.
  destruct (rmap_list_total edge_payload (List.filter (λ r, relationship_endpoints_included r
    (list_to_set (omap (field_text "node_id") (normalize_nodes (map snd (nodes_by_key w)) limit)))) (map snd (relationships_by_key w))))
    as [l ->]; [|by eexists].
  intros x [Hx _]%list_elem_of_In%filter_In. apply list_elem_of_In, Hp in Hx as [v Hv]. destruct (edge_payload_total _ _ Hv) as [e' ->]. done.
Qed.

Lemma closed_relationships depth n w sg : walked n w → close_walk depth limit w = Ok sg →
  (∀ x, x ∈ sg_relationships sg → ∃ k e, k ∈ reached g S0 n ∧ pg_edges g !! k = Some e ∧ joins_named g e ∧ describes_edge g e x) ∧
  (∀ k e, k ∈ reached g S0 n → pg_edges g !! k = Some e → joins_named g e →
     ∃ x, x ∈ sg_relationships sg ∧ edge_identity x = identity_of g e).
Proof.
  intros Hw. pose proof (λ i, closed_names n w i Hw) as Hids. destruct Hw as ((_ & _ & _ & Hnr & Hp & Hl & Hvis) & Hn & Hv & _).
  cbn [level_of lv_relationships lv_visited] in *. intros (rs & Hrs & [= <-])%rbind_ok. cbn [sg_relationships].
  unfold normalize_edges in Hrs. apply rbind_ok in Hrs as (edges & Hedges & [= <-]).
  set (included := list_to_set _ : gset string) in *. set (kept := List.filter _ _) in *.
  assert (∀ r, r ∈ kept ↔ ∃ k e, k ∈ reached g S0 n ∧ pg_edges g !! k = Some e ∧ joins_named g e ∧ r = rel_payload g e) as Hkept.
  { intros r. unfold kept. rewrite list_elem_of_In, filter_In, <- list_elem_of_In, list_elem_of_fmap. split.
    - intros [([k p] & -> & Hin) Hinc]. apply elem_of_dget in Hin; [|done]. destruct (Hp k p Hin) as (e & He & ->). exists k, e.
      split_and!; try done; [apply Hv, Hvis, elem_of_dkeys; eauto|].
      destruct (rel_payload_describes g e) as (_ & Hs & _ & Ht & _). unfold relationship_endpoints_included in Hinc. cbn [snd] in Hinc.
      rewrite Hs, Ht in Hinc. unfold joins_named. by destruct (node_id_of g (ed_source e)), (node_id_of g (ed_target e)).
    - intros (k & e & Hk & He & [[src Hsrc] [tgt Htgt]] & ->). split.
      + apply Hv, Hvis, elem_of_dkeys in Hk as [p Hk]. destruct (Hp k p Hk) as (e' & He' & ->). rewrite He in He'. injection He' as <-.
        exists (k, rel_payload g e). split; [done|]. by apply dget_Some_elem.
      + destruct (rel_payload_describes g e) as (_ & Hs & _ & Ht & _). unfold relationship_endpoints_included. rewrite Hs, Ht, Hsrc, Htgt.
        apply reached_touching, elem_of_touching in Hk as (e' & He' & Hi). rewrite He in He'. injection He' as <-.
        assert (∀ x i, x = ed_source e ∨ x = ed_target e → node_id_of g x = Some i → i ∈ included) as Hin.
        { intros x i Hx Hxi. pose proof Hxi as Hxi'. unfold node_id_of in Hxi'. destruct (pg_nodes g !! x) as [d|] eqn:Hd; [|done].
          cbn in Hxi'. pose proof (proj2 (proj1 g_ok x d Hd) i Hxi') as ->. unfold included. apply elem_of_list_to_set, Hids. split; [|done].
          apply neighbors_before, elem_of_neighbors. eauto 6. }
        rewrite !bool_decide_eq_true_2; [done|apply (Hin (ed_target e)); auto|apply (Hin (ed_source e)); auto]. }
  assert (length edges ≤ length (relationships_by_key w))%nat as Hle.
  { rewrite (rmap_list_length _ _ _ Hedges). unfold kept. etrans; [apply sublist_length, filter_sublist|]. by rewrite length_map. }
  setoid_rewrite elem_of_uncut; [|lia..].
  destruct (keep_first_spec edge_identity edges) as (_ & Hsub & Hrep).
  assert (∀ x, x ∈ edges ↔ ∃ r, r ∈ kept ∧ edge_payload r = Ok x) as Hx by (intros x; by apply rmap_list_elem_of).
  split.
  - intros x (r & (k & e & Hk & He & Hj & ->)%Hkept & Hpay)%Hsub%Hx. exists k, e. split_and!; try done. by apply rel_payload_again.
  - intros k e Hk He Hj. destruct (rel_payload_ok g e) as (d & _ & Hd). destruct (edge_payload_total _ _ Hd) as [x Hpay].
    assert (x ∈ edges) as Hin by (apply Hx; exists (rel_payload g e); split; [apply Hkept; eauto 6|done]).
    apply Hrep in Hin. rewrite (describes_edge_identity g e x (rel_payload_again g e x Hpay)) in Hin.
    apply list_elem_of_fmap in Hin as (y & Hy & Hin). by exists y.
Qed.
End walking.

Section closing.
Context `{PyText} `{PyNumbers} `{JsonDecoder}.
Lemma uncut_truncation limit d w sg : close_walk d limit w = Ok sg → truncated (sg_truncation sg) = false ↔ no_cut w.
Proof.
  intros (rs & _ & [= <-])%rbind_ok. unfold truncated, no_cut. cbn [sg_truncation node_limit_reached relationship_limit_reached
    path_limit_reached frontier_limit_reached]. rewrite !orb_false_iff. tauto.
Qed.
Lemma close_distinct limit d w sg : close_walk d limit w = Ok sg →
  NoDup (map node_identity (sg_nodes sg)) ∧ NoDup (map edge_identity (sg_relationships sg)).
Proof.
  intros (rs & (edges & _ & [= <-])%rbind_ok & [= <-])%rbind_ok. cbn [sg_nodes sg_relationships].
  split; apply distinct_results.
Qed.
Lemma sg_nodes_closed limit d w sg : close_walk d limit w = Ok sg → sg_nodes sg = normalize_nodes (map snd (nodes_by_key w)) limit.
Proof. by intros (rs & _ & [= <-])%rbind_ok. Qed.
End closing.

(** What a query on a graph finds: the ball around the seeds. What is returned
    is there, and what is there is returned, once for each identity. *)
Definition finds_ball `{PyText} `{PyNumbers} `{JsonDecoder} (g : pgraph) (seeds : gset string) (n : nat) (sg : subgraph) : Prop :=
  NoDup (map node_identity (sg_nodes sg)) ∧ NoDup (map edge_identity (sg_relationships sg)) ∧
  (∀ x, x ∈ sg_nodes sg → ∃ k d, k ∈ ball g seeds n ∧ pg_nodes g !! k = Some d ∧ describes_node d x) ∧
  (∀ k d, k ∈ ball g seeds n → pg_nodes g !! k = Some d → ∃ x, x ∈ sg_nodes sg ∧ node_identity x = node_identity_of d) ∧
  (∀ x, x ∈ sg_relationships sg →
     ∃ k e, k ∈ reached g seeds n ∧ pg_edges g !! k = Some e ∧ joins_named g e ∧ describes_edge g e x) ∧
  (∀ k e, k ∈ reached g seeds n → pg_edges g !! k = Some e → joins_named g e →
     ∃ x, x ∈ sg_relationships sg ∧ edge_identity x = identity_of g e).

(** C20: against a database that answers the two queries as their Cypher says,
    a subgraph query that passes validation returns and leaves the database
    alone. Unless it reports a truncation, what it returns is the neighborhood
    of the seeds, up to identity: each node returned is a node within the depth,
    and each of these nodes is represented by one with its identifiers; each
    relationship returned touches a node one step nearer and joins two nodes
    with a [node_id], and each such relationship is represented by one with its
    identifier, ends and type. So relationships that differ in nothing else
    come back as one, and those of a node without [node_id] not at all. It
    reports no truncation when the nodes and relationships reached fit in the
    limit. *)
Theorem untruncated_query_finds_ball `{PyText} `{PyNumbers} `{JsonDecoder} {W} `{Neo4jClient W} (graph_of : W → pgraph)
    `{!GraphReads W graph_of} seed_entities depth st result_limit max_depth (s : W) seeds d limit :
  graph_ok (graph_of s) →
  validated_seed_entities seed_entities = Ok seeds → validated_depth depth max_depth = Ok d →
  validated_result_limit result_limit = Ok limit →
  let around := (list_to_set (seeds_of (graph_of s) seeds) : gset string) in
  ∃ q, query_subgraph seed_entities depth (Some (Ok st)) result_limit max_depth s = (Ok q, s) ∧
    (truncated (sg_truncation (qr_subgraph q)) = false → finds_ball (graph_of s) around (Z.to_nat d) (qr_subgraph q)) ∧
    (Z.of_nat (size (ball (graph_of s) around (Z.to_nat d))) ≤ limit →
     Z.of_nat (size (reached (graph_of s) around (Z.to_nat d))) ≤ limit → truncated (sg_truncation (qr_subgraph q)) = false).
Proof.
  intros Hg Hseeds Hd Hn around. set (w0 := seed_walk limit (seed_rows (graph_of s) seeds (per_depth_limit limit))).
  pose proof (validated_limit_pos _ _ Hn) as Hlimit.
  destruct (seed_walked graph_of s around limit Hg seeds eq_refl Hlimit) as [Hcut0 Hw0]. fold w0 in Hcut0, Hw0.
  destruct (walk_spec graph_of s around limit Hg (Z.to_nat d) 0 1 w0) as (w & Hrun & Hback & Hwalk & Hfits).
  assert (payloads_only (relationships_by_key w)) as Hpay.
  { eapply walk_payloads; [|exact Hrun]. unfold w0. rewrite seed_walk_relationships. intros r Hr. by apply elem_of_nil in Hr. }
  destruct (close_total limit d w Hpay) as [sg Hclose].
  exists (mkQueryResult (graph_generation_id st) sg seeds d limit). split_and!.
  - unfold query_subgraph, ready_read, lift. rewrite Hseeds, Hd, Hn. cbn [pbind map_err]. unfold read_subgraph, pbind, read_seed_rows.
    rewrite seeds_read. fold w0. rewrite Hrun. unfold lift. by rewrite Hclose.
  - intros Htrunc. assert (no_cut w) as Hc by (by apply uncut_truncation in Hclose; apply Hclose).
    assert (walked graph_of s around limit (Z.to_nat d) w) as Hw by (apply Hwalk; [apply Hw0|]; auto).
    destruct (closed_nodes graph_of s around limit Hg _ w Hw) as [Hn1 Hn2].
    destruct (closed_relationships graph_of s around limit Hg _ _ w sg Hw Hclose) as [Hr1 Hr2].
    destruct (close_distinct _ _ _ _ Hclose) as [Hd1 Hd2]. unfold finds_ball. cbn [qr_subgraph].
    rewrite (sg_nodes_closed _ _ _ _ Hclose) in *. by split_and!.
  - intros Hball Hreached. apply (uncut_truncation _ _ _ _ Hclose), Hfits; try done.
    + apply Hw0, Hcut0. etrans; [apply (ball_size _ _ 0 (Z.to_nat d)); lia|done].
    + apply Hcut0. etrans; [apply (ball_size _ _ 0 (Z.to_nat d)); lia|done].
Qed.

(** ** Propagation paths *)
Section path_results.
Context `{PyText} `{PyNumbers} `{JsonDecoder} {W : Type} `{Neo4jClient W}.

(** A path on a requested channel, found at one of the depths. *)
Definition path_within (channels : option (list string)) (depth : Z) (p : pdict) : Prop :=
  (∃ c, field_text "channel" p = Some c ∧ ∀ cs, channels = Some cs → c ∈ cs) ∧
  ∃ n, pget "path_length" p = Some (PInt n) ∧ 1 ≤ n ≤ depth.

Lemma path_payload_fields value p : path_payload value = Ok p →
  field_text "channel" p = text_or_none (get_or_raw "channel" value PNone) ∧
  ∃ n, int_or_default (default PNone (pget "path_length" value)) 1 = Ok n ∧ pget "path_length" p = Some (PInt n).
Proof. intros (f & _ & (n & Hn & [= <-])%rbind_ok)%rbind_ok. split; [apply field_text_of|]. by exists n. Qed.

Lemma path_value_within channels depth relationship c d p :
  path_payload (path_value relationship c d) = Ok p → (∀ cs, channels = Some cs → c ∈ cs) → 1 ≤ d ≤ depth →
  path_within channels depth p.
Proof.
  intros (Hc & n & Hn & Hp)%path_payload_fields Hallowed Hd. unfold path_value, get_or_raw in *.
  rewrite !pget_pset in Hc, Hn. cbn in Hc, Hn. rewrite py_str_text in Hc. injection Hn as <-. split; eauto.
Qed.

Lemma path_within_again channels depth p p' :
  path_within channels depth p → path_payload p = Ok p' → path_within channels depth p'.
Proof.
  intros [(c & Hc & Hallowed) (n & Hn & Hd)] (Hc' & n' & Hn' & Hp')%path_payload_fields. split.
  - exists c. split; [|done]. rewrite Hc'. unfold field_text in Hc. unfold get_or_raw. destruct (pget "channel" p) as [v|]; [exact Hc|done].
  - rewrite Hn in Hn'. injection Hn' as <-. eauto.
Qed.

Lemma path_step_within channels candidates depth d acc row acc' :
  1 ≤ d ≤ depth → Forall (path_within channels depth) acc.1 →
  path_step channels candidates d acc row = Ok acc' → Forall (path_within channels depth) acc'.1.
Proof.
  intros Hd Hacc. unfold path_step. destruct acc as [ps full]. intros ([relationship key] & _ & Hstep)%rbind_ok.
  destruct key; [|by injection Hstep as <-]. destruct (field_text "channel" row) as [c|]; [|by injection Hstep as <-].
  destruct channels as [cs|]; [destruct (bool_decide (c ∈ cs)) eqn:Ec; cbn [negb] in Hstep; [to_prop|by injection Hstep as <-]|];
  (destruct (candidates <=? _); [by injection Hstep as <-|]); apply rbind_ok in Hstep as (p & Hp & [= <-]);
  (case_bool_decide; [exact Hacc|]); apply Forall_app; (split; [exact Hacc|]); apply Forall_singleton;
  (eapply path_value_within; [exact Hp| |exact Hd]); [by intros ? [= <-]|done].
Qed.

Lemma path_walk_within channels limit candidates depth steps d w (s : W) w' s' :
  1 ≤ d → d + Z.of_nat steps ≤ depth + 1 → Forall (path_within channels depth) (pw_paths w) →
  walk_path_depths steps channels limit candidates d w s = (Ok w', s') → Forall (path_within channels depth) (pw_paths w').
Proof.
  revert d w s. induction steps as [|n IH]; intros d w s Hd Hdepth Hw; cbn [walk_path_depths]; [by intros [= <- _]|].
  destruct (pw_frontier w) as [|key keys]; [by intros [= <- _]|].
  intros (rows & s1 & _ & (prows & s2 & _ & (w1 & s3 & [= Hlevel _] & Hrest)%pbind_ok)%pbind_ok)%pbind_ok.
  assert (Forall (path_within channels depth) (pw_paths w1)) as Hw1.
  { unfold read_path_level in Hlevel. apply rbind_ok in Hlevel as ([[[nodes vis] next] full] & _ & Hlevel).
    apply rbind_ok in Hlevel as ([paths full_paths] & Hpaths & [= <-]). cbn [pw_paths].
    eapply (rfold_inv (λ acc : list pdict * bool, Forall (path_within channels depth) acc.1)) in Hpaths; [exact Hpaths|exact Hw|].
    intros acc row acc' _ Hacc Hstep. eapply path_step_within; [|exact Hacc|exact Hstep]. lia. }
  destruct (_ && _); [by injection Hrest as <- _|]. eapply (IH (d + 1)); [lia|lia|exact Hw1|exact Hrest].
Qed.

Lemma normalized_paths_within channels limit depth values paths :
  Forall (path_within channels depth) values → normalize_paths values channels limit = Ok paths →
  (length paths ≤ Z.to_nat limit)%nat ∧ NoDup (map path_identity paths) ∧ Forall (path_within channels depth) paths.
Proof.
  intros Hv (ps & Hps & (sorted & Hsorted%sort_by_result_perm & [= <-])%rbind_ok)%rbind_ok.
  destruct (keep_first_spec path_identity (List.filter (channel_allowed channels) ps)) as (Hn & Hsub & _). split_and!.
  - rewrite length_take. lia.
  - eapply NoDup_map_sub; [apply sublist_take|]. by eapply NoDup_map_perm; [exact Hsorted|].
  - apply Forall_take. rewrite Hsorted. apply list.Forall_forall. intros p [Hp _]%Hsub%list_elem_of_In%filter_In.
    apply list_elem_of_In in Hp. apply (rmap_list_elem_of _ _ _ _ Hps) in Hp as (v & Hin & Hpay).
    rewrite list.Forall_forall in Hv. eapply path_within_again; [by apply Hv|exact Hpay].
Qed.
End path_results.

(** Whatever the database answers, the paths a query returns are no more
    than the limit, no two are the same, each runs on one of the channels asked
    for, and each was found at a step between 1 and the depth. *)
Theorem query_paths_are_bounded `{PyText} `{PyNumbers} `{JsonDecoder} `{Neo4jClient W}
    seed_entities depth ready channels limit max_depth (s : W) r s' :
  query_propagation_paths seed_entities depth ready channels limit max_depth s = (Ok r, s') →
  let paths := pl_paths (gp_paths r) in
  Z.of_nat (length paths) ≤ gp_result_limit r ∧ NoDup (map path_identity paths) ∧
  ∃ cs, validated_channels channels = Ok cs ∧ Forall (path_within cs (gp_depth r)) paths.
Proof.
  unfold query_propagation_paths. intros (seeds & s0 & [= _ <-] & Hq)%pbind_ok. apply pbind_ok in Hq as (d & s1 & [= Hd <-] & Hq).
  apply pbind_ok in Hq as (n & s2 & [= Hn <-] & Hq). apply pbind_ok in Hq as (cs & s3 & [= Hcs <-] & Hq).
  apply pbind_ok in Hq as (st & s4 & _ & Hq). apply pbind_ok in Hq as (pl & s5 & Hpl & [= <- _]).
  cbn [gp_paths gp_result_limit gp_depth]. apply validated_limit_pos in Hn. apply validated_depth_nonneg in Hd.
  unfold read_propagation_paths in Hpl. destruct (d =? 0) eqn:Ed.
  { injection Hpl as <- _. cbn. split_and!; [lia|constructor|]. exists cs. split; [done|constructor]. }
  apply pbind_ok in Hpl as (rows & s6 & _ & Hpl). apply pbind_ok in Hpl as (w & s7 & Hw & [= Hclose _]).
  unfold close_path_walk in Hclose. apply rbind_ok in Hclose as (ps & Hps & [= <-]). cbn [pl_paths].
  apply (path_walk_within cs n (n * Z.max d 1) d) in Hw; [|lia|lia|].
  - destruct (normalized_paths_within cs n d _ _ Hw Hps) as (Hl & Hnd & Hall). split_and!; [lia|done|eauto].
  - unfold seed_path_walk. destruct (fold_left _ _ _). constructor.
Qed.

(** ** Runs *)
Module QueryExamples.
Import StatusExamples PropagationExamples.
#[local] Existing Instance plain_text.
#[local] Existing Instance no_texts.
#[local] Instance no_json : JsonDecoder := λ s, if String.eqb s "{label}" then Some (PDict [(PStr "label", PStr "x"); (PStr "size", PInt 1)]) else None.

(** A database that is a graph. *)
Definition strings_of (v : option pyval) : list string :=
  match v with Some (PList l) => flat_map (λ x, match x with PStr s => [s] | _ => [] end) l | _ => [] end.
Definition int_of (v : option pyval) : Z := match v with Some (PInt n) => n | _ => 0 end.
#[local] Instance graph_client : Neo4jClient pgraph := {
  execute_read q ps g :=
    let n := int_of (pget "per_depth_limit" ps) in
    (if String.eqb q seed_query then Ok (seed_rows g (strings_of (pget "seed_entities" ps)) n)
     else if String.eqb q (frontier_query false) then
       Ok (frontier_rows g (strings_of (pget "frontier_node_keys" ps)) (list_to_set (strings_of (pget "visited_relationship_keys" ps))) n)
     else Err (ClientRaised "unknown query"), g);
  execute_write q ps g := (Err (ClientRaised "read only"), g);
}.
Lemma strings_of_texts l : strings_of (Some (texts l)) = l.
Proof. simpl. induction l as [|x l IH]; [done|]. simpl. by f_equal. Qed.
#[local] Instance graph_reads : GraphReads pgraph id.
Proof.
  split.
  - intros seeds limit g. unfold execute_read. cbn [graph_client]. rewrite String.eqb_refl.
    change (pget "seed_entities" _) with (Some (texts seeds)). by rewrite strings_of_texts.
  - intros fr vis limit g. unfold execute_read. cbn [graph_client].
    change (frontier_query false =? seed_query)%string with false. rewrite String.eqb_refl.
    change (pget "frontier_node_keys" _) with (Some (texts fr)). change (pget "visited_relationship_keys" _) with (Some (texts (sorted_set vis))).
    rewrite !strings_of_texts. replace (list_to_set (sorted_set vis) : gset string) with vis; [done|].
    apply leibniz_equiv. intros k. by rewrite elem_of_list_to_set, elem_of_sorted_set.
Defined.

Definition entity (id e : string) : node_data := mkNodeData (Some id) (Some e) ["Entity"] [].
Definition link (source target : string) : edge_data := mkEdgeData None source target "SUPPLY_CHAIN" [] float_one.
(** [A -> B -> C -> D], with a second way from [B] to [C]. *)
Definition chain : pgraph :=
  mkPGraph {["A" := entity "A" "EA"; "B" := entity "B" "EB"; "C" := entity "C" "EC"; "D" := entity "D" "ED"]}
    {["1" := link "A" "B"; "2" := link "B" "C"; "3" := link "C" "D"; "4" := link "B" "C"]}.
Lemma chain_ok : graph_ok chain.
Proof.
  assert (map_Forall (λ k d, k ≠ "" ∧ default k (nd_id d) = k) (pg_nodes chain)) as Hn by (apply (bool_decide_unpack _); by vm_compute).
  assert (map_Forall (λ k e, k ≠ "" ∧ is_Some (pg_nodes chain !! ed_source e) ∧ is_Some (pg_nodes chain !! ed_target e)) (pg_edges chain))
    as He by (apply (bool_decide_unpack _); by vm_compute).
  split; [|exact He]. intros k d Hk. destruct (Hn k d Hk) as [H1 H2]. split; [done|]. intros i Hi. by rewrite Hi in H2.
Qed.

Definition ask (depth limit : Z) : result graph_error GraphQueryResult * pgraph :=
  query_subgraph (PList [PStr " EA "]) (PInt depth) (Some (Ok ex_ready)) (PInt limit) (PInt 4) chain.
Definition ids (r : result graph_error GraphQueryResult * pgraph) : option (list string * list (list string) * bool) :=
  match r.1 with
  | Ok q => Some (omap (field_text "node_id") (sg_nodes (qr_subgraph q)), map edge_identity (sg_relationships (qr_subgraph q)),
      truncated (sg_truncation (qr_subgraph q)))
  | Err _ => None
  end.
Example ask_one : ids (ask 1 10) = Some (["A"; "B"], [[""; "A"; "SUPPLY_CHAIN"; "B"]], false).
Proof. vm_compute. reflexivity. Qed.
(** Relationships without an [edge_id] that join the same nodes are one. *)
Example parallel_relationships_collapse :
  ids (ask 2 10) = Some (["A"; "B"; "C"], [[""; "A"; "SUPPLY_CHAIN"; "B"]; [""; "B"; "SUPPLY_CHAIN"; "C"]], false) ∧
  size (reached chain {["A"]} 2) = 3%nat.
Proof. vm_compute. split; reflexivity. Qed.
(** A node without [node_id] is found, its relationships are not returned. *)
Example unnamed_node_loses_relationships :
  let g := mkPGraph {["A" := entity "A" "EA"; "elem-1" := mkNodeData None (Some "EB") ["Entity"] []]} {["1" := link "A" "elem-1"]} in
  match (query_subgraph (PList [PStr "EA"]) (PInt 1) (Some (Ok ex_ready)) (PInt 10) (PInt 4) g).1 with
  | Ok q => map node_identity (sg_nodes (qr_subgraph q)) = [[""; "EB"]; ["A"; "EA"]] ∧ sg_relationships (qr_subgraph q) = [] ∧
      truncated (sg_truncation (qr_subgraph q)) = false ∧ size (reached g {["A"]} 1) = 1%nat
  | Err _ => False
  end.
Proof. vm_compute. split_and!; reflexivity. Qed.
Example ask_cut : ids (ask 2 2) = Some (["A"; "B"], [[""; "A"; "SUPPLY_CHAIN"; "B"]], true).
Proof. vm_compute. reflexivity. Qed.

(** A name the database structure uses, decoded from [properties_json], is in
    the payload of a row and no longer in the payload a query returns. *)
Example second_reading_drops_properties :
  let payload := node_payload [(PStr "node_id", PStr "A"); (PStr "properties", PDict [(PStr "properties_json", PStr "{label}")])] in
  pget "properties" payload = Some (PDict [(PStr "label", PStr "x"); (PStr "size", PInt 1)]) ∧
  option_map (pget "properties") (head (normalize_nodes [payload] 10)) = Some (Some (PDict [(PStr "size", PInt 1)])).
Proof. vm_compute. split; reflexivity. Qed.

Definition answer : GraphQueryResult :=
  match (ask 2 10).1 with Ok q => q | Err _ => mkQueryResult 0 (mkSubgraph [] [] (mkTruncation 0 0 0 0 0 None false false false false [])) [] 0 0 end.
Lemma answer_run : ask 2 10 = (Ok answer, chain).
Proof. vm_compute. reflexivity. Qed.

Lemma subgraph_is_closed_witness :
  Forall (λ r, ends_in (sg_nodes (qr_subgraph answer)) r "source_node_id" ∧ ends_in (sg_nodes (qr_subgraph answer)) r "target_node_id")
    (sg_relationships (qr_subgraph answer)).
Proof.
  pose proof answer_run as E. unfold ask in E. apply (subgraph_is_closed (W := pgraph)) in E.
  destruct E as (_ & _ & _ & _ & _ & _ & _ & E). exact E.
Defined.

Definition ex_seeds : gset string := list_to_set (seeds_of chain ["EA"]).
Lemma untruncated_query_finds_ball_witness :
  ∃ q, query_subgraph (PList [PStr " EA "]) (PInt 2) (Some (Ok ex_ready)) (PInt 10) (PInt 4) chain = (Ok q, chain) ∧
    truncated (sg_truncation (qr_subgraph q)) = false ∧ finds_ball chain ex_seeds 2 (qr_subgraph q).
Proof.
  destruct (untruncated_query_finds_ball id (PList [PStr " EA "]) (PInt 2) ex_ready (PInt 10) (PInt 4) chain ["EA"] 2 10
    chain_ok eq_refl eq_refl eq_refl) as (q & Hq & Hexact & Hfits).
  exists q. assert (truncated (sg_truncation (qr_subgraph q)) = false) as Ht.
  { apply Hfits; apply Z.leb_le; vm_compute; reflexivity. }
  split; [exact Hq|]. split; [exact Ht|]. exact (Hexact Ht).
Defined.

(** A database that answers every query with one relationship row on a
    channel. *)
Record rows_db := mkRowsDb { the_rows : list pdict }.
#[local] Instance rows_client : Neo4jClient rows_db := {
  execute_read q ps w := (Ok (the_rows w), w);
  execute_write q ps w := (Err (ClientRaised "read only"), w);
}.
Definition two_rows : rows_db := mkRowsDb
  [[(PStr "node_key", PStr "A"); (PStr "relationship_key", PStr "e1"); (PStr "neighbor_key", PStr "B"); (PStr "channel", PStr "event");
    (PStr "node", PDict [(PStr "node_id", PStr "A")]);
    (PStr "relationship", PDict [(PStr "edge_id", PStr "e1"); (PStr "weight", PFloat float_one)])];
   [(PStr "relationship_key", PStr "e2"); (PStr "channel", PStr "reflexive"); (PStr "relationship", PDict [(PStr "edge_id", PStr "e2")])]].
Definition ask_paths : result graph_error GraphPropagationPathQueryResult * rows_db :=
  query_propagation_paths (PList [PStr "A"]) (PInt 1) (Some (Ok ex_ready)) (PList [PStr "event"]) (PInt 5) (PInt 4) two_rows.
Definition paths_answer : GraphPropagationPathQueryResult :=
  match ask_paths.1 with Ok r => r | Err _ => mkPathResult 0 (no_paths 0 0) [] 0 0 end.
Lemma paths_run : ask_paths = (Ok paths_answer, two_rows).
Proof. vm_compute. reflexivity. Qed.
(** The row of a channel that was not asked for is left out. *)
Example ask_paths_found : map (λ p, (field_text "edge_id" p, field_text "channel" p)) (pl_paths (gp_paths paths_answer)) = [(Some "e1", Some "event")].
Proof. vm_compute. reflexivity. Qed.
Lemma query_paths_are_bounded_witness :
  Z.of_nat (length (pl_paths (gp_paths paths_answer))) ≤ gp_result_limit paths_answer ∧
  NoDup (map path_identity (pl_paths (gp_paths paths_answer))).
Proof.
  pose proof paths_run as E. unfold ask_paths in E. apply (query_paths_are_bounded (W := rows_db)) in E.
  destruct E as (E1 & E2 & _). split; [exact E1|exact E2].
Defined.
End QueryExamples.
