(* ===== verification/Simulation.v ===== *)
(** * Simulation: local impact without touching the live graph

    [graph_engine/query/simulation.py]: a request, the bounded subgraph it is
    about, the client that lets a propagation see that subgraph only and touch
    only projections of this invocation, and the simulation that runs the
    propagation of [Merge] through it. *)
From Stdlib Require Import String Ascii ZArith List SpecFloat.
From stdpp Require Import base gmap strings list sorting.
From S2P Require Import Prelude PyLib Numbers GraphStatus Promotion Programs Client Propagation Merge Query.
Import StatusModel Evidence PromotionModel Channels PropagationModel Runner Pipeline Payloads Validation Walk.
Local Open Scope string_scope.
Local Open Scope Z_scope.

(** ** The request *)
Module SimulationRequest.

Record ReadonlySimulationRequest := mkRequest {
  rq_cycle_id : string;
  rq_world_state_ref : string;
  rq_generation_id : Z;
  rq_depth : Z;
  rq_channels : list string;
  rq_channel_multipliers : pydict spec_float;
  rq_regime_multipliers : pydict spec_float;
  rq_decay_policy : pdict;
  rq_regime_context : pdict;
  rq_result_limit : Z;
  rq_max_iterations : Z;
  rq_projection_name : option string;
}.

(** [_validate_multiplier_keys] *)
Definition multipliers_ok (ms : pydict spec_float) : bool :=
  forallb (λ kv, bool_decide (kv.1 ∈ allowed_channels) && finite_float kv.2 && negb (SFltb kv.2 float_zero)) ms.
(** [_enabled_channels_require_multipliers] *)
Definition multipliers_cover (cs : list string) (ms : pydict spec_float) : bool := forallb (λ c, dhas c ms) cs.

Definition make_request (cycle ws : string) (generation depth : Z) (cs : list string) (cm rm : pydict spec_float)
    (decay regime : pdict) (limit max_iterations : Z) (name : option string) : result graph_error ReadonlySimulationRequest :=
  let* cycle' := required RequestInvalid (text (PStr cycle)) in
  let* ws' := required RequestInvalid (text (PStr ws)) in
  raise_if generation <? 0 with RequestInvalid;
  raise_if (depth <? 0) || (6 <? depth) with RequestInvalid;
  raise_if negb (channels_ok cs) with RequestInvalid;
  raise_if negb (multipliers_ok (float_dict cm) && multipliers_ok (float_dict rm)) with RequestInvalid;
  let* decay' := required RequestInvalid (any_dict (PDict decay)) in
  let* regime' := required RequestInvalid (any_dict (PDict regime)) in
  raise_if (limit <? 1) || (1000 <? limit) || (max_iterations <? 1) with RequestInvalid;
  let* name' := match name with
    | Some n => let* n' := required RequestInvalid (text (PStr n)) in Ok (Some n')
    | None => Ok None
    end in
  raise_if negb (multipliers_cover cs (float_dict cm) && multipliers_cover cs (float_dict rm)) with RequestInvalid;
  Ok (mkRequest cycle' ws' generation depth cs (float_dict cm) (float_dict rm) decay' regime' limit max_iterations name').

(** [_simulation_context] *)
Definition simulation_context (rq : ReadonlySimulationRequest) : result graph_error PropagationContext :=
  make_context (rq_cycle_id rq) (rq_world_state_ref rq) (rq_generation_id rq) (rq_channels rq) (rq_channel_multipliers rq)
    (rq_regime_multipliers rq) (rq_decay_policy rq) (rq_regime_context rq).

(** *** Names of projections *)
Definition name_limit : nat := 120.
Definition safe_char (c : ascii) : bool :=
  is_digit c || is_upper_az c || is_lower_az c || Ascii.eqb c "_" || Ascii.eqb c "-".
(** [re.sub(r"[^A-Za-z0-9_-]+", "_", s)]; [run] says that the run of unsafe
    characters before has been replaced. *)
Fixpoint sub_unsafe (run : bool) (s : string) : string :=
  match s with
  | EmptyString => EmptyString
  | String c rest =>
      if safe_char c then String c (sub_unsafe false rest)
      else if run then sub_unsafe true rest else String "_" (sub_unsafe true rest)
  end.
Definition strip_marks (s : string) : string := strip_chars (λ c, Ascii.eqb c "_" || Ascii.eqb c "-") s.

Definition safe_projection_name (s : string) : result graph_error string :=
  let normalized := strip_marks (sub_unsafe false s) in
  raise_if is_empty normalized with UnsafeProjectionName;
  Ok (String.substring 0 name_limit normalized).
Definition safe_projection_component (s : string) : string :=
  String.substring 0 48 (or_text (strip_marks (sub_unsafe false s)) "cycle").
(** [_unique_projection_name]; [token] is the start of a fresh UUID. *)
Definition unique_projection_name (token s : string) : result graph_error string :=
  let* safe := safe_projection_name s in
  let prefix := strip_marks (String.substring 0 (name_limit - String.length token - 1) safe) in
  Ok (or_text prefix "graph_engine_readonly_sim" ++ "_" ++ token).
Definition simulation_projection_name (token : string) (rq : ReadonlySimulationRequest) : result graph_error string :=
  match rq_projection_name rq with
  | Some n => unique_projection_name token n
  | None => unique_projection_name token ("graph_engine_readonly_sim_" ++ safe_projection_component (rq_cycle_id rq))
  end.
(** [_projection_names] *)
Definition projection_names (base : string) (cs : list string) : list string :=
  if (length cs =? 1)%nat then [base]
  else fold_left (λ acc n, if bool_decide (n ∈ acc) then acc else acc ++ [n])%list (map (λ c, base ++ "-" ++ c) cs) [].
End SimulationRequest.

(** ** The client of a simulation *)
Module ProjectionClient.

(** *** The channels of an edge of the subgraph *)
Section edges.
Context `{PyText}.

(** [_unique_text_values] *)
Definition add_unique (acc : list string) (v : pyval) : list string :=
  match v with
  | PNone => acc
  | v => let t := py_str v in if is_empty t || bool_decide (t ∈ acc) then acc else (acc ++ [t])%list
  end.
Definition unique_text_values (l : list pyval) : list string := fold_left add_unique l [].

Definition coerced_channels (v : pyval) : list string :=
  match v with
  | PNone => []
  | v => List.filter (λ c, bool_decide (c ∈ allowed_channels)) (unique_text_values match v with PList l | PTuple l => l | v => [v] end)
  end.
(** The first of the three properties that names a channel. *)
Fixpoint first_channels (keys : list string) (properties : pdict) : option (list string) :=
  match keys with
  | [] => None
  | k :: rest =>
      match coerced_channels (default PNone (pget k properties)) with
      | [] => first_channels rest properties
      | cs => Some cs
      end
  end.
Definition edge_channels (edge : pdict) : list string :=
  match first_channels explicit_keys (raw_properties edge) with
  | Some cs => cs
  | None =>
      match default PNone (pget "relationship_type" edge) with
      | PNone => []
      | t => default [] (dget (py_str t) propagation_channels)
      end
  end.

Definition add_edge_id (edge_id : string) (d : pydict (list pyval)) (c : string) : pydict (list pyval) :=
  dset c (default [] (dget c d) ++ [PStr edge_id])%list d.
Definition add_edge (d : pydict (list pyval)) (edge : pdict) : pydict (list pyval) :=
  match default PNone (pget "edge_id" edge) with
  | PNone => d
  | v => fold_left (add_edge_id (py_str v)) (edge_channels edge) d
  end.
Definition edge_ids_by_channel (edges : list pdict) : pydict (list string) :=
  map (λ kv, (kv.1, unique_text_values kv.2)) (fold_left add_edge edges (map (λ c, (c, [])) allowed_channels)).
Definition all_edge_ids (d : pydict (list string)) : list string := unique_text_values (map PStr (concat (map snd d))).
Definition node_ids (nodes : list pdict) : list string := unique_text_values (map (λ n, default PNone (pget "node_id" n)) nodes).
End edges.

(** *** Recognising the calls of a propagation *)
Definition is_gds_graph_exists (q : string) : bool := contains "gds.graph.exists" q.
Definition is_gds_projection_project (q : string) : bool := contains "gds.graph.project" q.
(** [s.split()]; [word] is the word being read. *)
Fixpoint words_after (word s : string) : list string :=
  let ended := if is_empty word then [] else [word] in
  match s with
  | EmptyString => ended
  | String c rest => if py_space c then (ended ++ words_after "" rest)%list else words_after (word ++ String c "") rest
  end.
Definition normalized_cypher (q : string) : string := join " " (words_after "" (lower q)).
Definition is_gds_projection_drop (q : string) : bool :=
  String.eqb (normalized_cypher q) "call gds.graph.drop($graph_name) yield graphname return graphname".
Definition is_activated_path_read (q : string) : bool :=
  contains "MATCH (source)-[relationship]->(target)" q && contains "path_score" q && negb (contains "gds.graph.project" q).

Definition channel_from_query (q : string) (parameters : pdict) : option string :=
  match List.find (λ c, contains (cypher ("= " ++ quoted c)) q) allowed_channels with
  | Some c => Some c
  | None =>
      match pget "graph_name" parameters with
      | Some (PStr n) => List.find (λ c, endswith ("-" ++ c) n) allowed_channels
      | _ => None
      end
  end.
Definition graph_name_from_parameters (parameters : pdict) : result graph_error string :=
  match pget "graph_name" parameters with
  | Some (PStr n) => raise_if is_empty n with ProjectionNameMissing; Ok n
  | _ => Err ProjectionNameMissing
  end.

(** *** The scoped queries *)
Definition scoped_projection_query : string := "
MATCH (source)-[relationship]->(target)
WHERE source.node_id IN $node_ids
  AND target.node_id IN $node_ids
  AND relationship.edge_id IN $edge_ids
WITH gds.graph.project(
    $graph_name,
    source,
    target,
    {
        relationshipType: type(relationship),
        relationshipProperties: {
            weight: coalesce(relationship.weight, 1.0)
        }
    }
) AS projection
RETURN projection.graphName AS graphName,
       projection.nodeCount AS nodeCount,
       projection.relationshipCount AS relationshipCount
".
Definition scoped_paths_query (c : string) : string := "
MATCH (source)-[relationship]->(target)
WHERE source.node_id IN $node_ids
  AND target.node_id IN $node_ids
  AND relationship.edge_id IN $edge_ids
  AND " ++ selector c ++ "
WITH source,
     relationship,
     target,
     coalesce(relationship.weight, 1.0) AS relation_weight,
     coalesce(relationship.evidence_confidence, 1.0) AS evidence_confidence,
     coalesce(relationship.recency_decay, 1.0) AS recency_decay
WITH source,
     relationship,
     target,
     relation_weight,
     evidence_confidence,
     recency_decay,
     relation_weight
         * evidence_confidence
         * $channel_multiplier
         * $regime_multiplier
         * recency_decay AS path_score
RETURN source.node_id AS source_node_id,
       source.canonical_entity_id AS source_entity_id,
       labels(source) AS source_labels,
       target.node_id AS target_node_id,
       target.canonical_entity_id AS target_entity_id,
       labels(target) AS target_labels,
       relationship.edge_id AS edge_id,
       type(relationship) AS relationship_type,
       relation_weight,
       evidence_confidence,
       recency_decay,
       path_score
ORDER BY path_score DESC,
         source_node_id ASC,
         relationship_type ASC,
         target_node_id ASC,
         edge_id ASC
LIMIT $result_limit
".

(** *** The calls
    The state is that of the client below and the names created so far. *)
Section client.
Context `{PyText} `{PyNumbers} {W : Type} `{Neo4jClient W}.

(** What [__init__] keeps. *)
Record scope := mkScope {
  sc_node_ids : list string;
  sc_edge_ids : pydict (list string);
  sc_owned : list string;
}.
Definition make_scope (nodes edges : list pdict) (names : list string) : scope :=
  mkScope (node_ids nodes) (edge_ids_by_channel edges) names.

Definition simulated (W : Type) : Type := W * gset string.
Definition below {A} (m : prog W A) : prog (simulated W) A := λ s, let '(r, w) := m s.1 in (r, (w, s.2)).
Definition created_names : prog (simulated W) (gset string) := λ s, (Ok s.2, s).
Definition update_created (f : gset string → gset string) : prog (simulated W) () := λ s, (Ok (), (s.1, f s.2)).

Definition require_owned (sc : scope) (name : string) : prog (simulated W) () :=
  lift (guard_err (negb (bool_decide (name ∈ sc_owned sc))) ProjectionNotOwned).
Definition read_owned_projection_exists (sc : scope) (name : string) : prog (simulated W) (list pdict) :=
  let! _ := require_owned sc name in
  let! rows := below (execute_gds_read exists_query (named name)) in
  let! created := created_names in
  stop_if says_exists rows && negb (bool_decide (name ∈ created)) with ProjectionExists name;
  ret rows.
Definition ensure_projection_available (sc : scope) (name : string) : prog (simulated W) () :=
  let! rows := read_owned_projection_exists sc name in
  lift (guard_err (says_exists rows) (ProjectionExists name)).

Definition create_readonly_projection (name : string) (nodes edges : list string) : prog W Z :=
  match nodes, edges with
  | [], _ | _, [] => ret 0
  | _, _ =>
      let! rows := execute_gds_write scoped_projection_query
        [(PStr "edge_ids", str_list edges); (PStr "graph_name", PStr name); (PStr "node_ids", str_list nodes)] in
      lift (count_of "relationshipCount" rows)
  end.
Definition read_scoped_activated_path_rows (c : string) (nodes edges : list string) (parameters : pdict) : prog W (list pdict) :=
  match nodes, edges with
  | [], _ | _, [] => ret []
  | _, _ =>
      let! cm := lift (map_err BadNumber (as_float parse_float (default (PFloat float_one) (pget "channel_multiplier" parameters)))) in
      let! rm := lift (map_err BadNumber (as_float parse_float (default (PFloat float_one) (pget "regime_multiplier" parameters)))) in
      let! limit := lift (map_err BadNumber (as_int (default (PInt 100) (pget "result_limit" parameters)))) in
      execute_read (scoped_paths_query c)
        [(PStr "channel_multiplier", PFloat cm); (PStr "edge_ids", str_list edges); (PStr "node_ids", str_list nodes);
         (PStr "regime_multiplier", PFloat rm); (PStr "result_limit", PInt limit)]
  end.

Definition scoped_read (sc : scope) (q : string) (parameters : pdict) : prog (simulated W) (list pdict) :=
  if is_gds_graph_exists q then
    let! name := lift (graph_name_from_parameters parameters) in read_owned_projection_exists sc name
  else if is_activated_path_read q then
    match channel_from_query q parameters with
    | None => raise PathChannelUnresolved
    | Some c => below (read_scoped_activated_path_rows c (sc_node_ids sc) (default [] (dget c (sc_edge_ids sc))) parameters)
    end
  else below (execute_read q parameters).

Definition projection_edges (sc : scope) (channel : option string) : list string :=
  match channel with Some c => default [] (dget c (sc_edge_ids sc)) | None => all_edge_ids (sc_edge_ids sc) end.
Definition scoped_project (sc : scope) (name : string) (channel : option string) : prog (simulated W) (list pdict) :=
  let! _ := require_owned sc name in
  let! _ := ensure_projection_available sc name in
  let! count := below (create_readonly_projection name (sc_node_ids sc) (projection_edges sc channel)) in
  let! _ := update_created (λ created, if 0 <? count then {[name]} ∪ created else created) in
  ret [[(PStr "graphName", PStr name); (PStr "nodeCount", PInt (Z.of_nat (length (sc_node_ids sc))));
        (PStr "relationshipCount", PInt count)]].
Definition scoped_drop (sc : scope) (q : string) (parameters : pdict) : prog (simulated W) (list pdict) :=
  let! name := lift (graph_name_from_parameters parameters) in
  let! _ := require_owned sc name in
  stop_if negb (is_gds_projection_drop q) with DropNotScoped;
  let! created := created_names in
  stop_if negb (bool_decide (name ∈ created)) with ProjectionNotCreated;
  let! rows := below (execute_write q parameters) in
  let! _ := update_created (λ created, created ∖ {[name]}) in
  ret rows.
Definition scoped_write (sc : scope) (q : string) (parameters : pdict) : prog (simulated W) (list pdict) :=
  if is_gds_projection_project q then
    let! name := lift (graph_name_from_parameters parameters) in scoped_project sc name (channel_from_query q parameters)
  else if contains "gds.graph.drop" q then scoped_drop sc q parameters
  else raise WriteForbidden.

(** [_ReadonlyProjectionClient] *)
Definition projection_client (sc : scope) : Neo4jClient (simulated W) :=
  {| execute_read := scoped_read sc; execute_write := scoped_write sc |}.
End client.
End ProjectionClient.

(** ** The simulation *)
Module Simulation.
Import SimulationRequest ProjectionClient.

Section simulation.
Context `{PyText} `{PyNumbers} `{JsonDecoder} {W : Type} `{Neo4jClient W}.
Context (visit : gset string → list string) (hex : string → string).

(** [_assert_projection_names_available] and [_drop_projections] *)
Fixpoint assert_projection_names_available {V} `{Neo4jClient V} (names : list string) : prog V () :=
  match names with
  | [] => ret ()
  | n :: rest =>
      let! rows := execute_gds_read exists_query (named n) in
      stop_if says_exists rows with ProjectionExists n;
      assert_projection_names_available rest
  end.
Fixpoint drop_projections {V} `{Neo4jClient V} (names : list string) : prog V () :=
  match names with
  | [] => ret ()
  | n :: rest => λ v,
      match drop_projection_if_exists n v with
      | (Ok _, v') | (Err GdsNotAvailable, v') => drop_projections rest v'
      | (Err e, v') => (Err e, v')
      end
  end.

(** [_run_scoped_propagation], on the client of a scope *)
Definition run_scoped_propagation (sc : scope) (rq : ReadonlySimulationRequest) (name : string) (status : Neo4jGraphStatus)
    : prog (simulated W) PropagationResult :=
  let client := projection_client sc in
  let! _ := assert_projection_names_available (projection_names name (rq_channels rq)) in
  finally
    (let! cx := lift (simulation_context rq) in
     run_full_propagation visit hex cx (λ _, Some (Ok status)) (Some name) (rq_max_iterations rq) (rq_result_limit rq))
    (let! created := created_names in drop_projections (sorted_set created)).

(** [_empty_propagation_result] *)
Definition empty_channel_entry (rq : ReadonlySimulationRequest) (reason c : string) : result graph_error (pyval * pyval) :=
  let* cm := required (RequestKeyError c) (dget c (rq_channel_multipliers rq)) in
  let* rm := required (RequestKeyError c) (dget c (rq_regime_multipliers rq)) in
  Ok (PStr c, PDict [(PStr "status", PStr "empty"); (PStr "reason", PStr reason); (PStr "path_selector", PStr (selector c));
    (PStr "path_count", PInt 0); (PStr "impacted_entity_count", PInt 0); (PStr "total_path_score", PFloat float_zero);
    (PStr "channel_multiplier", PFloat cm); (PStr "regime_multiplier", PFloat rm)]).
Definition empty_propagation_result (rq : ReadonlySimulationRequest) (reason : string) : result graph_error PropagationResult :=
  let* entries := rmap_list (empty_channel_entry rq reason) (rq_channels rq) in
  validated_result (rq_cycle_id rq) (rq_generation_id rq) [] []
    (pset "merged" (PDict [(PStr "enabled_channels", str_list (sorted_strings (rq_channels rq))); (PStr "path_count", PInt 0);
       (PStr "impacted_entity_count", PInt 0); (PStr "total_path_score", PFloat float_zero);
       (PStr "result_limit", PInt (rq_result_limit rq))]) entries).

(** What is returned besides constants and fields of the request. *)
Record SimulationResult := mkSimulation {
  sim_seed_entities : list string;
  sim_subgraph : subgraph;
  sim_propagation : PropagationResult;
  sim_projection_name : string;
}.
(** A program on the client of a scope, as one on the client below it. *)
Definition scoped {A} (m : prog (simulated W) A) : prog W A := λ w, let '(r, s) := m (w, ∅) in (r, s.1).

Definition scoped_result (rq : ReadonlySimulationRequest) (name : string) (status : Neo4jGraphStatus) (sg : subgraph)
    : prog W PropagationResult :=
  match sg_nodes sg, sg_relationships sg with
  | [], _ => lift (empty_propagation_result rq "empty_subgraph")
  | _, [] => lift (empty_propagation_result rq "empty_relationship_set")
  | nodes, edges =>
      scoped (run_scoped_propagation (make_scope nodes edges (projection_names name (rq_channels rq))) rq name status)
  end.

Definition simulate_readonly_impact (seed_entities : pyval) (rq : ReadonlySimulationRequest) (token : string)
    (ready : option (result status_error Neo4jGraphStatus)) : prog W SimulationResult :=
  let! seeds := lift (validated_seed_entities seed_entities) in
  let! depth := lift (validated_depth (PInt (rq_depth rq)) (PInt 6)) in
  let! limit := lift (validated_result_limit (PInt (rq_result_limit rq))) in
  let! name := lift (simulation_projection_name token rq) in
  let! status := ready_read "readonly local impact simulation" ready in
  stop_if negb (graph_generation_id status =? rq_generation_id rq)
    with GenerationMismatch (rq_generation_id rq) (graph_generation_id status);
  let! sg := read_subgraph seeds depth limit in
  let! r := scoped_result rq name status sg in
  stop_if negb (pr_generation_id r =? rq_generation_id rq) with GenerationMismatch (rq_generation_id rq) (pr_generation_id r);
  ret (mkSimulation seeds sg r name).
End simulation.
End Simulation.
