(* ===== verification/SimulationProofs.v ===== *)
(** * SimulationProofs: a simulation leaves the database as it was

    Against any client: a simulation writes nothing but projections of its own,
    drops none that was there, and, when GDS reports the projections it makes,
    leaves none behind, however it ends. The scope it gives to a channel agrees
    with the channel's selector where an edge names its channel plainly. *)
From Stdlib Require Import String Ascii ZArith List SpecFloat.
From stdpp Require Import base gmap strings list sorting.
From S2P Require Import Prelude PyLib Numbers GraphStatus Promotion Programs Client Propagation Merge PropagationProofs MergeProofs.
From S2P Require Import Query QueryProofs Simulation.
Import StatusModel Evidence PromotionModel Channels PropagationModel Runner Pipeline Payloads Validation Walk.
Import SimulationRequest ProjectionClient Simulation.
Local Open Scope string_scope.
Local Open Scope Z_scope.

(** ** What a program keeps, however it ends *)
Definition preserves {S A} (I : S → Prop) (m : prog S A) : Prop := ∀ s r s', I s → m s = (r, s') → I s'.

Section preserves.
Context {S A B : Type} (I : S → Prop).

Lemma preserves_ret (a : A) : preserves I (ret a).
Proof. by intros s r s' HI [= _ <-]. Qed.
Lemma preserves_raise e : preserves I (raise (A := A) e).
Proof. by intros s r s' HI [= _ <-]. Qed.
Lemma preserves_lift (r0 : result graph_error A) : preserves I (lift r0).
Proof. by intros s r s' HI [= _ <-]. Qed.
Lemma preserves_bind (m : prog S A) (k : A → prog S B) : preserves I m → (∀ a, preserves I (k a)) → preserves I (pbind m k).
Proof. intros Hm Hk s r s' HI [(a & s1 & H1 & H2)|(e & H1 & _)]%pbind_cases; [exact (Hk a _ _ _ (Hm _ _ _ HI H1) H2)|exact (Hm _ _ _ HI H1)]. Qed.
Lemma preserves_finally (m : prog S A) (c : prog S ()) : preserves I m → preserves I c → preserves I (finally m c).
Proof. intros Hm Hc s r s' HI (r1 & s1 & H1 & [(u & H2 & _)|(e & H2 & _)])%finally_cases; exact (Hc _ _ _ (Hm _ _ _ HI H1) H2). Qed.
Lemma preserves_map_raise f (m : prog S A) : preserves I m → preserves I (map_raise f m).
Proof. intros Hm s r s' HI. unfold map_raise. destruct (m s) as [r1 s1] eqn:E. intros [= _ <-]. eauto. Qed.
End preserves.

(** Works down a program to its calls. *)
Ltac keep :=
  repeat first
    [ simple apply preserves_ret | simple apply preserves_raise | simple apply preserves_lift
    | simple apply preserves_bind; [|intros ?] | simple apply preserves_finally | simple apply preserves_map_raise
    | match goal with |- preserves _ (if ?b then _ else _) => destruct b end
    | match goal with |- preserves _ (match ?x with _ => _ end) => destruct x end ].

(** A propagation keeps what its reads, projections and drops keep. *)
Section propagation.
Context `{PyText} `{PyNumbers} {S : Type} `{Neo4jClient S} (I : S → Prop).
Context (reads : ∀ q ps, leaves_catalog q = true → preserves I (execute_read q ps)).
Context (projects : ∀ c n, c ∈ allowed_channels → preserves I (execute_write (projection_query (selector c)) (named n))).
Context (drops : ∀ n, preserves I (execute_write drop_query (named n))).

Lemma drop_preserves n : preserves I (drop_projection_if_exists n).
Proof. unfold drop_projection_if_exists, execute_gds_read, execute_gds_write. keep; auto using exists_leaves. Qed.

Lemma run_channel_preserves hex cx ready name mi limit c : preserves I (run_channel hex cx ready name mi limit c).
Proof.
  unfold run_channel. case_bool_decide as Hc; [|apply preserves_raise].
  unfold run_channel_propagation, propagate_through_projection, propagate, create_projection, stream_pagerank, read_activated_paths,
    execute_gds_read, execute_gds_write.
  keep; auto using drop_preserves. all: apply reads; by apply channel_queries.
Qed.

Lemma run_full_preserves visit hex cx ready name mi limit : preserves I (run_full_propagation visit hex cx ready name mi limit).
Proof.
  unfold run_full_propagation. keep. generalize (enabled_channels cx) as cs.
  induction cs as [|c cs IH]; cbn [run_all]; keep; auto using run_channel_preserves.
Qed.
End propagation.

(** So does the reading of a subgraph. *)
Section subgraphs.
Context `{PyText} `{PyNumbers} `{JsonDecoder} {S : Type} `{Neo4jClient S} (I : S → Prop).
Context (reads : ∀ q ps, leaves_catalog q = true → preserves I (execute_read q ps)).

Lemma read_subgraph_preserves seeds depth limit : preserves I (read_subgraph seeds depth limit).
Proof.
  unfold read_subgraph, read_seed_rows. keep; [by apply reads; vm_compute|]. generalize (seed_walk limit a) as w. generalize 1 as d.
  induction (Z.to_nat depth) as [|n IH]; intros d w; cbn [walk_depths]; keep; auto. unfold read_frontier_rows. by apply reads; vm_compute.
Qed.
End subgraphs.

(** ** The client of a scope *)
Lemma scoped_paths_leaves c : c ∈ allowed_channels → leaves_catalog (scoped_paths_query c) = true.
Proof. unfold allowed_channels. rewrite !elem_of_cons, elem_of_nil. intros [->|[->|[->|[]]]]; vm_compute; reflexivity. Qed.

Lemma channel_from_query_allowed q ps c : channel_from_query q ps = Some c → c ∈ allowed_channels.
Proof.
  unfold channel_from_query. destruct (find _ _) as [c'|] eqn:E; [intros [= <-]|].
  - apply find_some in E as [E _]. by apply list_elem_of_In.
  - destruct (pget "graph_name" ps) as [[]|]; try done. intros [E' _]%find_some. by apply list_elem_of_In.
Qed.

(** The calls of a run say which channel they are for. *)
Lemma channel_recovered c ps : c ∈ allowed_channels →
  channel_from_query (projection_query (selector c)) ps = Some c ∧ channel_from_query (paths_query (selector c)) ps = Some c ∧
  is_activated_path_read (paths_query (selector c)) = true ∧ is_gds_projection_project (projection_query (selector c)) = true.
Proof.
  unfold allowed_channels. rewrite !elem_of_cons, elem_of_nil.
  intros [->|[->|[->|[]]]]; unfold channel_from_query;
  (split_and!; [match goal with |- match ?x with _ => _ end = _ => let y := eval vm_compute in x in change x with y end; reflexivity..| |]);
  vm_compute; reflexivity.
Qed.

Section scope.
Context `{PyText} `{PyNumbers} `{GdsCatalog W catalog}.
Context (sc : scope).
Local Abbreviation state := (simulated W).
#[local] Instance client_of_scope : Neo4jClient state := projection_client sc.

(** What a state is judged by: the catalog and the names created. *)
Definition on_catalog (J : gset string → gset string → Prop) (s : state) : Prop := J (catalog s.1) s.2.

Lemma below_preserves J {A} (m : prog W A) : (∀ w, catalog (m w).2 = catalog w) → preserves (on_catalog J) (below m).
Proof.
  intros Hm [w created] r s' HI. unfold below, on_catalog in *. cbn [fst snd] in *. specialize (Hm w).
  destruct (m w) as [r1 w1]. intros [= _ <-]. cbn in *. by rewrite Hm.
Qed.

Lemma below_read J q ps : leaves_catalog q = true → preserves (on_catalog J) (below (execute_read q ps)).
Proof. intros Hq. apply below_preserves. intros w. by apply read_keeps. Qed.

Lemma below_gds_read J q ps : leaves_catalog q = true → preserves (on_catalog J) (below (execute_gds_read q ps)).
Proof.
  intros Hq. apply below_preserves. intros w. destruct (execute_gds_read q ps w) as [r w1] eqn:E. by eapply gds_read_keeps.
Qed.

Lemma created_preserves J : preserves (on_catalog J) created_names.
Proof. by intros s r s' HI [= _ <-]. Qed.

Lemma owned_exists_preserves J name : preserves (on_catalog J) (read_owned_projection_exists sc name).
Proof. unfold read_owned_projection_exists, require_owned. keep; auto using below_gds_read, exists_leaves, created_preserves. Qed.

(** Any read that leaves the catalog alone does so through the scope. *)
Lemma scoped_read_preserves J q ps : leaves_catalog q = true → preserves (on_catalog J) (execute_read q ps).
Proof.
  intros Hq. cbn [execute_read client_of_scope projection_client]. unfold scoped_read.
  destruct (is_gds_graph_exists q); [keep; auto using owned_exists_preserves|].
  destruct (is_activated_path_read q); [|by apply below_read].
  destruct (channel_from_query q ps) as [c|] eqn:Ec; [|apply preserves_raise].
  apply below_preserves. intros w. unfold read_scoped_activated_path_rows.
  destruct (sc_node_ids sc); [done|]. destruct (default _ _); [done|]. unfold pbind, lift.
  repeat match goal with |- context [match map_err ?f ?x with _ => _ end] => destruct (map_err f x); [|done] end.
  by apply read_keeps, scoped_paths_leaves, (channel_from_query_allowed q ps).
Qed.

(** *** Calls that make a projection *)
Definition reported (r : result graph_error (list pdict)) : bool :=
  match r with
  | Ok rows => match count_of "relationshipCount" rows with Ok n => 0 <? n | Err _ => false end
  | Err _ => false
  end.
(** GDS has made a projection exactly when the call says how many
    relationships it has. *)
Definition projections_reported : Prop := ∀ ps name w r w',
  pget "graph_name" ps = Some (PStr name) → execute_write scoped_projection_query ps w = (r, w') →
  catalog w' = if reported r then {[name]} ∪ catalog w else catalog w.

Definition unchanged (s s' : state) : Prop := catalog s'.1 = catalog s.1 ∧ s'.2 = s.2.
Definition made (name : string) (s s' : state) : Prop := catalog s'.1 = {[name]} ∪ catalog s.1 ∧ s'.2 = {[name]} ∪ s.2.
Definition may_make (name : string) (s s' : state) : Prop :=
  (catalog s'.1 = catalog s.1 ∨ catalog s'.1 = {[name]} ∪ catalog s.1) ∧ (s'.2 = s.2 ∨ s'.2 = {[name]} ∪ s.2) ∧
  (projections_reported → unchanged s s' ∨ made name s s').

Lemma create_spec name nodes edges (w : W) r w' :
  create_readonly_projection name nodes edges w = (r, w') →
  (catalog w' = catalog w ∨ catalog w' = {[name]} ∪ catalog w) ∧
  (projections_reported → catalog w' = match r with Ok n => if 0 <? n then {[name]} ∪ catalog w else catalog w | Err _ => catalog w end).
Proof.
  unfold create_readonly_projection. destruct nodes as [|x nodes]; [intros [= <- <-]; auto|].
  destruct edges as [|y edges]; [intros [= <- <-]; auto|]. intros Hrun.
  assert (∃ r1, execute_write scoped_projection_query [(PStr "edge_ids", str_list (y :: edges)); (PStr "graph_name", PStr name);
    (PStr "node_ids", str_list (x :: nodes))] w = (r1, w') ∧
    (if reported r1 then ∃ n, r = Ok n ∧ (0 <? n) = true else match r with Ok n => (0 <? n) = false | Err _ => True end)) as (r1 & Hw & Hr).
  { unfold execute_gds_write, map_raise, pbind in Hrun. destruct (execute_write _ _ w) as [r1 w1]. exists r1. cbn [map_err] in Hrun.
    destruct r1 as [rows|e]; cbn [map_err] in Hrun; unfold lift in Hrun; injection Hrun as <- <-; (split; [done|]); [|done].
    unfold reported. destruct (count_of _ rows) as [n|]; [|done]. destruct (0 <? n) eqn:En; eauto. }
  split.
  - by apply (project_named _ _ name) in Hw.
  - intros Hrep. assert (catalog w' = if reported r1 then {[name]} ∪ catalog w else catalog w) as Hc by (eapply Hrep; [|exact Hw]; done).
    rewrite Hc. destruct (reported r1); [by destruct Hr as (n & -> & ->)|].
    destruct r; [by rewrite Hr|done].
Qed.

Lemma owned_exists_spec name s r s' :
  read_owned_projection_exists sc name s = (r, s') →
  unchanged s s' ∧ (∀ rows, r = Ok rows → name ∈ sc_owned sc ∧ says_exists rows = bool_decide (name ∈ catalog s.1) ∧ (name ∈ catalog s.1 → name ∈ s.2)).
Proof.
  intros Hrun. split.
  { eapply (owned_exists_preserves (λ c created, c = catalog s.1 ∧ created = s.2)) in Hrun; [exact Hrun|done]. }
  intros rows ->. unfold read_owned_projection_exists in Hrun. apply pbind_ok in Hrun as (u & s1 & [= Ho <-] & Hrun).
  apply guard_err_ok, negb_false_iff, bool_decide_eq_true in Ho. split; [done|].
  apply pbind_ok in Hrun as (rows' & s2 & Hex & Hrun). apply pbind_ok in Hrun as (created & s3 & [= <- <-] & Hrun).
  apply pbind_ok in Hrun as (u' & s4 & [= Hguard <-] & [= -> _]). apply guard_err_ok in Hguard.
  unfold below in Hex. destruct s as [w cr]. cbn [fst snd] in *. destruct (execute_gds_read _ _ w) as [r1 w1] eqn:E. injection Hex as -> <-.
  cbn [snd] in Hguard. apply map_raise_ok, exists_answers in E. split; [done|]. intros Hin. rewrite E, bool_decide_eq_true_2 in Hguard by done.
  by apply negb_false_iff, bool_decide_eq_true in Hguard.
Qed.

Lemma scoped_project_spec name channel s r s' :
  scoped_project sc name channel s = (r, s') →
  unchanged s s' ∨ (name ∈ sc_owned sc ∧ (name ∉ catalog s.1) ∧ may_make name s s').
Proof.
  unfold scoped_project. intros [(u & s1 & Ho & Hrun)|(e & [= _ <-] & _)]%pbind_cases; [|by left]. injection Ho as Ho <-.
  apply guard_err_ok, negb_false_iff, bool_decide_eq_true in Ho. unfold ensure_projection_available in Hrun.
  apply pbind_cases in Hrun as [(u' & s2 & Hens & Hrun)|(e & Hens & _)].
  - apply pbind_ok in Hens as (rows & s3 & Hex & [= Hguard <-]). apply guard_err_ok in Hguard.
    apply owned_exists_spec in Hex as [[Hc Hcr] Hex]. destruct (Hex rows eq_refl) as (_ & Hsays & _). rewrite Hguard in Hsays.
    symmetry in Hsays. apply bool_decide_eq_false in Hsays. right. split_and!; [done|done|].
    assert (∃ r1 w1, create_readonly_projection name (sc_node_ids sc) (projection_edges sc channel) s3.1 = (r1, w1) ∧
      s' = (w1, match r1 with Ok n => if 0 <? n then {[name]} ∪ s3.2 else s3.2 | Err _ => s3.2 end)) as (r1 & w1 & Hcreate & ->).
    { unfold pbind, below in Hrun. destruct (create_readonly_projection _ _ _ s3.1) as [r1 w1]. exists r1, w1. split; [done|].
      destruct r1 as [n|e']; by injection Hrun as _ <-. }
    apply create_spec in Hcreate as [Hloose Hexact]. unfold may_make, unchanged, made. cbn [fst snd]. rewrite Hc in Hloose, Hexact. rewrite Hcr.
    split_and!; [done|destruct r1 as [n|]; [destruct (0 <? n)|]; auto|]. intros Hrep. specialize (Hexact Hrep).
    destruct r1 as [n|]; [destruct (0 <? n)|]; auto.
  - left. apply pbind_cases in Hens as [(rows & s3 & Hex & [= _ <-])|(e' & Hex & _)]; by apply owned_exists_spec in Hex as [? _].
Qed.

Lemma scoped_projects q ps s r s' : is_gds_projection_project q = true →
  execute_write q ps s = (r, s') → unchanged s s' ∨ ∃ name, name ≠ "" ∧ name ∈ sc_owned sc ∧ (name ∉ catalog s.1) ∧ may_make name s s'.
Proof.
  intros Hq. cbn [execute_write client_of_scope projection_client]. unfold scoped_write. rewrite Hq.
  intros [(name & s1 & [= Hname <-] & Hrun)|(e & [= _ <-] & _)]%pbind_cases; [|by left].
  apply scoped_project_spec in Hrun as [?|(Ho & Hn & Hm)]; [by left|]. right. exists name. split_and!; try done.
  unfold graph_name_from_parameters in Hname. destruct (pget "graph_name" ps) as [[]|]; try done.
  apply rbind_ok in Hname as (u & Hu%guard_err_ok & [= ->]). by intros ->.
Qed.

(** *** Calls that drop one *)
Lemma scoped_drops name s r s' :
  execute_write drop_query (named name) s = (r, s') →
  unchanged s s' ∨ (name ∈ s.2 ∧ catalog s'.1 = catalog s.1 ∖ {[name]} ∧ s'.2 = s.2 ∖ {[name]}) ∨
  (name ∈ s.2 ∧ catalog s'.1 = catalog s.1 ∖ {[name]} ∧ s'.2 = s.2 ∧ ¬ catalog_calls_return (W := W)).
Proof.
  cbn [execute_write client_of_scope projection_client]. unfold scoped_write.
  change (is_gds_projection_project drop_query) with false. change (contains "gds.graph.drop" drop_query) with true. cbn iota.
  unfold scoped_drop. intros [(n & s1 & [= Hname <-] & Hrun)|(e & [= _ <-] & _)]%pbind_cases; [|by left].
  assert (n = name) as ->.
  { cbn in Hname. by apply rbind_ok in Hname as (u & _ & [= ->]). }
  apply pbind_cases in Hrun as [(u & s2 & [= _ <-] & Hrun)|(e & [= _ <-] & _)]; [|by left].
  change (is_gds_projection_drop drop_query) with true in Hrun. cbn [negb] in Hrun.
  apply pbind_cases in Hrun as [(u' & s3 & [= <- <-] & Hrun)|(e & [= ] & _)].
  apply pbind_cases in Hrun as [(created & s4 & [= <- <-] & Hrun)|(e & [= ] & _)].
  apply pbind_cases in Hrun as [(u2 & s5 & [= Hin <-] & Hrun)|(e & [= _ <-] & _)]; [|by left].
  apply guard_err_ok, negb_false_iff, bool_decide_eq_true in Hin. destruct s as [w created]. cbn [snd] in *.
  unfold pbind, below in Hrun. cbn [fst snd] in Hrun. destruct (execute_write drop_query (named name) w) as [[rows|e] w1] eqn:E.
  - injection Hrun as _ <-. right. left. cbn [fst snd]. split_and!; [done| |done]. by eapply drop_named.
  - injection Hrun as _ <-. cbn [fst snd]. destruct (drop_failed _ _ _ _ E) as [Hc|Hc]; [by left|]. right. right. split_and!; try done.
    intros Hret. pose proof (proj2 (Hret name w)) as Hok. by rewrite E in Hok.
Qed.

(** *** The catalog while a simulation runs *)
Context (c0 : gset string).
Definition owned : gset string := list_to_set (sc_owned sc).
(** Nothing of the first catalog is lost, and what is new is owned. *)
Definition bounded (c created : gset string) : Prop := c0 ⊆ c ∧ c ⊆ c0 ∪ owned ∧ created ## c0.
(** What is new is what was created. *)
Definition exact (c created : gset string) : Prop := c = c0 ∪ created ∧ created ## c0 ∧ created ⊆ owned ∧ "" ∉ created.

Lemma projects_bounded q ps : is_gds_projection_project q = true → preserves (on_catalog bounded) (execute_write q ps).
Proof.
  intros Hq s r s' (Hl & Hu & Hd) [[Hc Hcr]|(name & _ & Ho & Hn & Hc & Hcr & _)]%scoped_projects; try done; unfold on_catalog, bounded.
  - by rewrite Hc, Hcr.
  - assert (name ∈ owned) as Ho' by (by apply elem_of_list_to_set).
    destruct Hc as [-> | ->], Hcr as [-> | ->]; split_and!; set_solver.
Qed.
Lemma drops_bounded name : preserves (on_catalog bounded) (execute_write drop_query (named name)).
Proof.
  intros s r s' (Hl & Hu & Hd) [[Hc Hcr]|[(Hin & Hc & Hcr)|(Hin & Hc & Hcr & _)]]%scoped_drops; unfold on_catalog, bounded;
  rewrite Hc, Hcr; split_and!; set_solver.
Qed.
Lemma projects_exact q ps : projections_reported → is_gds_projection_project q = true → preserves (on_catalog exact) (execute_write q ps).
Proof.
  intros Hrep Hq s r s' (He & Hd & Ho & Hne) [[Hc Hcr]|(name & Hname & Hown & Hn & _ & _ & Hm)]%scoped_projects; try done; unfold on_catalog, exact.
  - by rewrite Hc, Hcr.
  - assert (name ∈ owned) as Ho' by (by apply elem_of_list_to_set).
    destruct (Hm Hrep) as [[-> ->]|[-> ->]]; [done|]. rewrite He in *. split_and!; set_solver.
Qed.
Lemma drops_exact name : catalog_calls_return (W := W) → preserves (on_catalog exact) (execute_write drop_query (named name)).
Proof.
  intros Hret s r s' (He & Hd & Ho & Hne) [[Hc Hcr]|[(Hin & Hc & Hcr)|(Hin & Hc & Hcr & Hno)]]%scoped_drops; [| |done];
  unfold on_catalog, exact; rewrite Hc, Hcr, ?He; split_and!; set_solver.
Qed.

(** Cleaning up removes what was created. *)
Section cleanup.
Context (calls_return : catalog_calls_return (W := W)).

Lemma created_facts name s : on_catalog exact s → name ∈ s.2 →
  graph_name_from_parameters (named name) = Ok name ∧ bool_decide (name ∈ sc_owned sc) = true ∧ bool_decide (name ∈ catalog s.1) = true.
Proof.
  intros (He & _ & Ho & Hne) Hin. split_and!.
  - assert (name ≠ "") by (by intros ->). cbn. by destruct name.
  - apply bool_decide_eq_true, (elem_of_list_to_set (C := gset string)). by apply Ho.
  - apply bool_decide_eq_true. rewrite He. set_solver.
Qed.

Lemma created_exists name s : on_catalog exact s → name ∈ s.2 →
  ∃ rows s', execute_read exists_query (named name) s = (Ok rows, s') ∧ says_exists rows = true ∧ unchanged s s'.
Proof.
  intros Hs Hin. destruct (created_facts name s Hs Hin) as (Hpar & Hown & Hcat). destruct s as [w created]. cbn [fst snd] in *.
  destruct (execute_read exists_query (named name) w) as [[rows|e] w1] eqn:Ex.
  2: { pose proof (proj1 (calls_return name w)) as Hok. by rewrite Ex in Hok. }
  pose proof (exists_answers _ _ _ _ Ex) as Hsays. rewrite Hcat in Hsays.
  pose proof (read_keeps exists_query (named name) w exists_leaves) as Hc1. rewrite Ex in Hc1. cbn [snd] in Hc1.
  exists rows, (w1, created). split_and!; [|done|by split].
  cbn [execute_read client_of_scope projection_client]. unfold scoped_read. change (is_gds_graph_exists exists_query) with true. cbn iota.
  unfold read_owned_projection_exists, require_owned, pbind, lift, below, execute_gds_read, map_raise, created_names, ret.
  rewrite Hpar, Hown. cbn [negb guard_err fst snd]. rewrite Ex. cbn [map_err fst snd]. by rewrite Hsays, bool_decide_eq_true_2.
Qed.

Lemma created_drops name s : on_catalog exact s → name ∈ s.2 →
  ∃ rows s', execute_write drop_query (named name) s = (Ok rows, s') ∧ s'.2 = s.2 ∖ {[name]}.
Proof.
  intros Hs Hin. destruct (created_facts name s Hs Hin) as (Hpar & Hown & _). destruct s as [w created]. cbn [fst snd] in *.
  destruct (execute_write drop_query (named name) w) as [[rows|e] w1] eqn:Ex.
  2: { pose proof (proj2 (calls_return name w)) as Hok. by rewrite Ex in Hok. }
  exists rows, (w1, created ∖ {[name]}). split; [|done].
  cbn [execute_write client_of_scope projection_client]. unfold scoped_write.
  change (is_gds_projection_project drop_query) with false. change (contains "gds.graph.drop" drop_query) with true. cbn iota.
  unfold scoped_drop. change (is_gds_projection_drop drop_query) with true.
  unfold require_owned, pbind, lift, below, created_names, update_created, ret.
  rewrite Hpar, Hown. cbn [negb guard_err fst snd]. rewrite bool_decide_eq_true_2 by done. cbn [negb guard_err]. by rewrite Ex.
Qed.

Lemma drop_created name s : on_catalog exact s → name ∈ s.2 →
  ∃ s', drop_projection_if_exists name s = (Ok (), s') ∧ on_catalog exact s' ∧ s'.2 = s.2 ∖ {[name]}.
Proof.
  intros Hs Hin. destruct (created_exists name s Hs Hin) as (rows & s1 & Hex & Hsays & Hc & Hcr).
  assert (on_catalog exact s1) as Hs1 by (unfold on_catalog; by rewrite Hc, Hcr).
  destruct (created_drops name s1 Hs1) as (rows' & s' & Hdrop & Hs'); [by rewrite Hcr|].
  exists s'. split_and!; [|by eapply drops_exact|by rewrite Hs', Hcr].
  unfold drop_projection_if_exists, execute_gds_read, execute_gds_write, pbind, map_raise, ret.
  rewrite Hex. cbn [map_err]. rewrite Hsays. cbn iota. by rewrite Hdrop.
Qed.

Lemma drop_all_created names s : on_catalog exact s → NoDup names → (∀ n, n ∈ names ↔ n ∈ s.2) →
  ∃ s', drop_projections names s = (Ok (), s') ∧ catalog s'.1 = c0.
Proof.
  revert s. induction names as [|n names IH]; intros s Hs Hnd Hnames.
  - exists s. split; [done|]. destruct Hs as (-> & _). assert (s.2 = ∅) as ->; [|by rewrite union_empty_r_L].
    apply leibniz_equiv. intros n. rewrite <- Hnames. by rewrite elem_of_nil, elem_of_empty.
  - apply NoDup_cons in Hnd as [Hn Hnd]. destruct (drop_created n s Hs) as (s1 & Hdrop & Hs1 & Hcr); [apply Hnames; by left|].
    destruct (IH s1 Hs1 Hnd) as (s' & Hrest & Hend).
    { intros n'. rewrite Hcr, elem_of_difference, elem_of_singleton, <- Hnames, elem_of_cons. split; [|tauto].
      intros Hin. split; [by right|]. by intros ->. }
    exists s'. split; [|done]. cbn [drop_projections]. by rewrite Hdrop.
Qed.
End cleanup.
End scope.

(** ** The whole simulation *)
Section simulations.
Context `{PyText} `{PyNumbers} `{JsonDecoder} `{GdsCatalog W catalog}.
Context (visit : gset string → list string) (hex : string → string).

Lemma drop_projections_preserves {V} `{Neo4jClient V} (I : V → Prop) names :
  (∀ q ps, leaves_catalog q = true → preserves I (execute_read q ps)) → (∀ n, preserves I (execute_write drop_query (named n))) →
  preserves I (drop_projections names).
Proof.
  intros Hreads Hdrops. induction names as [|n names IH]; cbn [drop_projections]; [apply preserves_ret|].
  intros v r v' HI. destruct (drop_projection_if_exists n v) as [r1 v1] eqn:E. apply (drop_preserves I Hreads Hdrops) in E; [|done].
  destruct r1 as [u|e]; [by apply IH|]. destruct e; try (by intros [= _ <-]). by apply IH.
Qed.

Lemma assert_preserves {V} `{Neo4jClient V} (I : V → Prop) names :
  (∀ q ps, leaves_catalog q = true → preserves I (execute_read q ps)) → preserves I (assert_projection_names_available names).
Proof.
  intros Hreads. induction names as [|n names IH]; cbn [assert_projection_names_available]; [apply preserves_ret|].
  unfold execute_gds_read. keep; auto using exists_leaves.
Qed.

Lemma selector_projects c : c ∈ allowed_channels → is_gds_projection_project (projection_query (selector c)) = true.
Proof. intros Hc. by apply (channel_recovered c []). Qed.

Lemma scoped_run_bounded sc rq name st c0 (w : W) r s' :
  c0 = catalog w → run_scoped_propagation visit hex sc rq name st (w, ∅) = (r, s') →
  c0 ⊆ catalog s'.1 ∧ catalog s'.1 ⊆ c0 ∪ owned sc.
Proof.
  intros Hc0 Hrun. assert (on_catalog (catalog := catalog) (bounded sc c0) s') as (? & ? & _); [|done].
  assert (preserves (on_catalog (catalog := catalog) (bounded sc c0)) (run_scoped_propagation visit hex sc rq name st)) as Hp.
  { unfold run_scoped_propagation. cbv zeta.
    assert (∀ q ps, leaves_catalog q = true → preserves (on_catalog (catalog := catalog) (bounded sc c0)) (scoped_read sc q ps)) as Hr
      by (intros; by apply (scoped_read_preserves sc)).
    assert (∀ n, preserves (on_catalog (catalog := catalog) (bounded sc c0)) (scoped_write sc drop_query (named n))) as Hd
      by (intros n; apply (drops_bounded sc c0)).
    keep; [by apply assert_preserves| |by apply created_preserves|by apply drop_projections_preserves].
    apply run_full_preserves; [done| |done]. intros c n Hc. by apply (projects_bounded sc c0), selector_projects. }
  eapply Hp; [|exact Hrun]. unfold on_catalog, bounded. cbn [fst snd]. rewrite Hc0. set_solver.
Qed.

Lemma scoped_run_exact sc rq name st (w : W) r s' :
  catalog_calls_return (W := W) → projections_reported (catalog := catalog) →
  run_scoped_propagation visit hex sc rq name st (w, ∅) = (r, s') → catalog s'.1 = catalog w.
Proof.
  intros Hret Hrep Hrun. set (c0 := catalog w). set (I := on_catalog (catalog := catalog) (exact sc c0)).
  assert (I (w, ∅)) as HI by (unfold I, on_catalog, exact; cbn [fst snd]; set_solver).
  assert (∀ q ps, leaves_catalog q = true → preserves I (scoped_read sc q ps)) as Hr by (intros; by apply (scoped_read_preserves sc)).
  assert (∀ n, preserves I (scoped_write sc drop_query (named n))) as Hd by (intros n; by apply (drops_exact sc c0)).
  unfold run_scoped_propagation in Hrun. cbv zeta in Hrun.
  assert (∀ r1 s1, assert_projection_names_available (H3 := projection_client sc) (projection_names name (rq_channels rq)) (w, ∅) = (r1, s1) →
    catalog s1.1 = c0 ∧ s1.2 = ∅) as Hassert.
  { intros r1 s1 Ha. eapply (assert_preserves (V := simulated W) (H4 := projection_client sc) (on_catalog (catalog := catalog) (λ c created, c = c0 ∧ created = ∅))) in Ha;
    [exact Ha|by apply (scoped_read_preserves sc)|done]. }
  apply pbind_cases in Hrun as [(u & s1 & Ha & Hrun)|(e & Ha & _)]; [|exact (proj1 (Hassert _ _ Ha))].
  apply Hassert in Ha as [Hc1 Hcr1]. apply finally_cases in Hrun as (r2 & s2 & Hbody & Hclean).
  assert (I s2) as Hs2.
  { assert (preserves I (let! cx := lift (simulation_context rq) in run_full_propagation (H1 := projection_client sc) visit hex cx (λ _, Some (Ok st)) (Some name)
      (rq_max_iterations rq) (rq_result_limit rq))) as Hp; [|eapply Hp; [|exact Hbody]].
    - keep. apply run_full_preserves; [done| |done]. intros c n Hc. by apply (projects_exact sc c0), selector_projects.
    - unfold I, on_catalog, exact. rewrite Hc1, Hcr1. set_solver. }
  destruct (drop_all_created sc c0 Hret (sorted_set s2.2) s2 Hs2 (NoDup_sorted_set _)) as (s3 & Hdrop & Hs3); [intros n; apply elem_of_sorted_set|].
  unfold pbind, created_names in Hclean. unfold client_of_scope in Hdrop. rewrite Hdrop in Hclean. destruct Hclean as [(u' & [= <- <-] & _)|(e & [= ] & _)]. exact Hs3.
Qed.

Lemma make_scope_owned nodes edges names : owned (make_scope nodes edges names) = list_to_set names.
Proof. done. Qed.

Lemma scoped_result_catalog rq name st sg (w : W) r w' :
  scoped_result visit hex rq name st sg w = (r, w') →
  catalog w ⊆ catalog w' ∧ catalog w' ⊆ catalog w ∪ list_to_set (projection_names name (rq_channels rq)) ∧
  (catalog_calls_return (W := W) → projections_reported (catalog := catalog) → catalog w' = catalog w).
Proof.
  unfold scoped_result. intros Hrun.
  assert (w' = w ∨ ∃ sc s', owned sc = list_to_set (projection_names name (rq_channels rq)) ∧
    run_scoped_propagation visit hex sc rq name st (w, ∅) = (r, s') ∧ w' = s'.1) as [->|(sc & s' & Ho & Hs & ->)].
  { destruct (sg_nodes sg) as [|n nodes]; [left; by injection Hrun as _ <-|].
    destruct (sg_relationships sg) as [|e edges]; [left; by injection Hrun as _ <-|]. right.
    unfold scoped in Hrun. destruct (run_scoped_propagation _ _ _ _ _ _ _) as [r1 s1] eqn:E. injection Hrun as <- <-.
    eexists _, s1. split_and!; [|exact E|done]. apply make_scope_owned. }
  - set_solver.
  - pose proof Hs as Hb. apply (scoped_run_bounded sc rq name st (catalog w)) in Hb as [? ?]; [|done]. rewrite <- Ho. split_and!; [done..|].
    intros Hret Hrep. by eapply scoped_run_exact.
Qed.
End simulations.

(** C14: a simulation never loses a projection of the database and adds none but
    those it may name, however it ends; when the calls that look for and drop a
    projection return and GDS reports the projections it makes, it leaves the
    catalog as it found it. *)
Theorem simulation_leaves_catalog `{PyText} `{PyNumbers} `{JsonDecoder} `{GdsCatalog W catalog}
    visit hex seed_entities rq token ready (w : W) r w' :
  simulate_readonly_impact visit hex seed_entities rq token ready w = (r, w') →
  catalog w ⊆ catalog w' ∧
  (∀ n, n ∈ catalog w' → n ∉ catalog w → ∃ name, simulation_projection_name token rq = Ok name ∧ n ∈ projection_names name (rq_channels rq)) ∧
  (catalog_calls_return (W := W) → projections_reported (catalog := catalog) → catalog w' = catalog w).
Proof.
  intros Hrun. unfold simulate_readonly_impact in Hrun.
  assert (∀ w1 : W, catalog w1 = catalog w → catalog w ⊆ catalog w1 ∧
    (∀ n, n ∈ catalog w1 → n ∉ catalog w → ∃ name, simulation_projection_name token rq = Ok name ∧ n ∈ projection_names name (rq_channels rq)) ∧
    (catalog_calls_return (W := W) → projections_reported (catalog := catalog) → catalog w1 = catalog w)) as Hsame.
  { intros w1 ->. split_and!; done. }
  apply pbind_cases in Hrun as [(seeds & w1 & [= _ <-] & Hrun)|(e & [= _ <-] & _)]; [|by apply Hsame].
  apply pbind_cases in Hrun as [(depth & w1 & [= _ <-] & Hrun)|(e & [= _ <-] & _)]; [|by apply Hsame].
  apply pbind_cases in Hrun as [(limit & w1 & [= _ <-] & Hrun)|(e & [= _ <-] & _)]; [|by apply Hsame].
  apply pbind_cases in Hrun as [(name & w1 & [= Hname <-] & Hrun)|(e & [= _ <-] & _)]; [|by apply Hsame].
  apply pbind_cases in Hrun as [(st & w1 & [= _ <-] & Hrun)|(e & [= _ <-] & _)]; [|by apply Hsame].
  apply pbind_cases in Hrun as [(u & w1 & [= _ <-] & Hrun)|(e & [= _ <-] & _)]; [|by apply Hsame].
  assert (preserves (λ w1, catalog w1 = catalog w) (read_subgraph seeds depth limit)) as Hread.
  { apply read_subgraph_preserves. intros q ps Hq w1 r1 w2 Hw1 Hrun1. rewrite <- Hw1. pose proof (read_keeps (catalog := catalog) q ps w1 Hq) as Hk. by rewrite Hrun1 in Hk. }
  apply pbind_cases in Hrun as [(sg & w1 & Hsg & Hrun)|(e & Hsg & _)]; apply Hread in Hsg; try done; [|by apply Hsame].
  assert (∃ r1, scoped_result visit hex rq name st sg w1 = (r1, w')) as [r1 Hr].
  { apply pbind_cases in Hrun as [(a & w2 & Hr & Hend)|(e & Hr & _)]; [|by eexists]. exists (Ok a).
    apply pbind_cases in Hend as [(u2 & w3 & [= _ <-] & [= _ <-])|(e & [= _ <-] & _)]; done. }
  apply (scoped_result_catalog (catalog := catalog)) in Hr as (Hlow & Hup & Hexact). rewrite Hsg in *. split_and!; [done| |done].
  intros n Hn Hnew. exists name. split; [done|]. apply Hup, elem_of_union in Hn as [?|Hn]; [done|]. by apply elem_of_list_to_set in Hn.
Qed.

(** What reads, the projection of a scope and the drop of a projection
    leave alone in the database, a simulation leaves alone: it sends no other
    write, however it ends. *)
Theorem simulation_is_readonly `{PyText} `{PyNumbers} `{JsonDecoder} {W V} `{Neo4jClient W} (v : W → V)
    visit hex seed_entities rq token ready (w : W) r w' :
  (∀ q ps w1, v (execute_read q ps w1).2 = v w1) →
  (∀ ps w1, v (execute_write scoped_projection_query ps w1).2 = v w1) →
  (∀ n w1, v (execute_write drop_query (named n) w1).2 = v w1) →
  simulate_readonly_impact visit hex seed_entities rq token ready w = (r, w') → v w' = v w.
Proof.
  intros Hreads Hproject Hdrop Hrun. set (I := λ w1 : W, v w1 = v w). set (Is := λ s : simulated W, I s.1).
  assert (∀ q ps, preserves I (execute_read q ps)) as Hr.
  { intros q ps w1 r1 w2 Hw1 E. unfold I in *. rewrite <- Hw1, <- (Hreads q ps w1). by rewrite E. }
  assert (∀ {A} (m : prog W A), preserves I m → preserves Is (below m)) as Hbelow.
  { intros A m Hm [w1 cr] r1 s1 Hs. unfold below. cbn [fst snd]. destruct (m w1) as [r2 w2] eqn:E. intros [= _ <-]. exact (Hm _ _ _ Hs E). }
  assert (∀ sc, preserves Is (created_names (W := W)) ∧ (∀ n, preserves Is (read_owned_projection_exists sc n))) as Hown.
  { intros sc. assert (preserves Is (created_names (W := W))) as Hc by (by intros s r1 s1 Hs [= _ <-]). split; [done|]. intros n.
    unfold read_owned_projection_exists, require_owned, execute_gds_read. keep; auto. apply Hbelow. keep. auto. }
  assert (∀ sc q ps, preserves Is (scoped_read sc q ps)) as Hsr.
  { intros sc q ps. unfold scoped_read, read_scoped_activated_path_rows. keep; try apply Hown; apply Hbelow; keep; auto. }
  assert (∀ sc n, preserves Is (scoped_write sc drop_query (named n))) as Hsd.
  { intros sc n. unfold scoped_write. change (is_gds_projection_project drop_query) with false. cbn iota.
    unfold scoped_drop, require_owned. keep; [by apply Hown| |by intros s r1 s1 Hs [= _ <-]].
    apply Hbelow. intros w1 r1 w2 Hw1 E. unfold I in *. rewrite <- Hw1, <- (Hdrop n w1). by rewrite E. }
  assert (∀ sc q ps, is_gds_projection_project q = true → preserves Is (scoped_write sc q ps)) as Hsp.
  { intros sc q ps Hq. unfold scoped_write. rewrite Hq. unfold scoped_project, ensure_projection_available, require_owned.
    keep; try apply Hown; [|by intros s r1 s1 Hs [= _ <-]]. apply Hbelow. unfold create_readonly_projection, execute_gds_write. keep.
    intros w1 r1 w2 Hw1 E. unfold I in *. rewrite <- Hw1. pose proof (f_equal snd E) as E2. cbn [snd] in E2. rewrite <- E2. apply Hproject. }
  assert (preserves I (simulate_readonly_impact visit hex seed_entities rq token ready)) as Hp; [|exact (Hp w r w' eq_refl Hrun)].
  unfold simulate_readonly_impact, scoped_result, ready_read. keep; [by apply read_subgraph_preserves|].
  intros w1 r1 w2 Hw1. unfold scoped. set (sc := make_scope _ _ _).
  destruct (run_scoped_propagation visit hex sc rq _ _ (w1, ∅)) as [r2 s2] eqn:E. intros [= _ <-].
  assert (preserves Is (run_scoped_propagation visit hex sc rq a2 a3)) as Hps; [|exact (Hps (w1, ∅) _ _ Hw1 E)].
  unfold run_scoped_propagation. cbv zeta.
  keep; [apply assert_preserves; intros; apply Hsr| |by apply Hown|apply drop_projections_preserves; intros; [apply Hsr|apply Hsd]].
  apply run_full_preserves; intros; [apply Hsr| |apply Hsd]. by apply Hsp, selector_projects.
Qed.

(** ** The channels of an edge

    Three places decide which channels an edge belongs to: the selector of the
    propagation queries, the list of the path query, and the scope of a
    simulation. *)

(** What [_channel_projection_list_expression] evaluates to. *)
Definition listed_channels (type : string) (properties : pdict) : list pyval :=
  match explicit_channel properties with
  | Some v => [v]
  | None => map PStr (default [] (dget type propagation_channels))
  end.

(** The first channel property that is not null, if any, is a channel. *)
Definition plain_channel (properties : pdict) : Prop :=
  match explicit_channel properties with None => True | Some v => ∃ c, c ∈ allowed_channels ∧ v = PStr c end.

Section agreement.
Context `{PyText}.

Lemma coerced_channel c : c ∈ allowed_channels → coerced_channels (PStr c) = [c].
Proof.
  intros Hc. assert (is_empty c = false) as He by (by apply allowed_not_empty). assert (unique_text_values [PStr c] = [c]) as Hu.
  { unfold unique_text_values. cbn [fold_left add_unique]. by rewrite py_str_text, He. }
  unfold coerced_channels. rewrite Hu. cbn [List.filter]. by rewrite bool_decide_eq_true_2.
Qed.

Lemma first_explicit keys properties :
  match head (omap (λ k, cypher_value k properties) keys) with None => True | Some v => ∃ c, c ∈ allowed_channels ∧ v = PStr c end →
  first_channels keys properties =
    match head (omap (λ k, cypher_value k properties) keys) with Some (PStr c) => Some [c] | _ => None end.
Proof.
  induction keys as [|k keys IH]; [done|].
  assert (omap (λ k, cypher_value k properties) (k :: keys) = match cypher_value k properties with
    | Some y => y :: omap (λ k, cypher_value k properties) keys | None => omap (λ k, cypher_value k properties) keys end) as -> by done.
  cbn [first_channels]. assert (default PNone (pget k properties) = default PNone (cypher_value k properties)) as ->.
  { unfold cypher_value. by destruct (pget k properties) as [[]|]. }
  destruct (cypher_value k properties) as [v|]; [|exact IH]. intros (c & Hc & ->). change (default PNone (Some (PStr c))) with (PStr c). by rewrite coerced_channel.
Qed.

Lemma default_head t : dget t default_channel = dget t propagation_channels ≫= head.
Proof.
  unfold default_channel, propagation_channels. cbn [omap list_omap snd fst].
  cbn [dget]. by repeat destruct (String.eqb t _).
Qed.
Lemma listed_type c t : t ∈ relationship_types_for_channel c ↔ c ∈ default [] (dget t propagation_channels).
Proof.
  assert (∀ l : list (string * list string), NoDup (map fst l) →
    t ∈ map fst (filter (λ tc, c ∈ tc.2) l) ↔ c ∈ default [] (dget t l)) as Hl.
  { induction l as [|[t' cs] l IH]; [by intros _; rewrite !elem_of_nil|]. cbn [map fst]. intros [Ht Hn]%NoDup_cons. cbn [dget].
    rewrite filter_cons. cbn [snd]. destruct (String.eqb_spec t t') as [->|Hne].
    - cbn [default]. assert (t' ∉ map fst (filter (λ tc, c ∈ tc.2) l)) as Hno.
      { intros (y & -> & Hy)%list_elem_of_fmap. apply list_elem_of_filter in Hy as [_ Hy]. apply Ht. by apply list_elem_of_fmap_2. }
      case_decide; [cbn [map fst]; rewrite elem_of_cons|]; tauto.
    - case_decide; [cbn [map fst]; rewrite elem_of_cons|]; rewrite IH by done; naive_solver. }
  apply Hl. by apply (bool_decide_unpack _); vm_compute.
Qed.
End agreement.

(** Where the first channel property of an edge that is not null is a known
    channel, or there is none, the three agree: an edge is in the scope of a
    channel exactly when the channel's selector matches it, and exactly when a
    path query lists it on that channel. *)
Theorem channels_agree `{PyText} c t edge :
  c ∈ allowed_channels → pget "relationship_type" edge = Some (PStr t) → plain_channel (raw_properties edge) →
  (c ∈ edge_channels edge ↔ selects c t (raw_properties edge) = true) ∧
  (c ∈ edge_channels edge ↔ PStr c ∈ listed_channels t (raw_properties edge)).
Proof.
  intros Hc Ht Hplain. set (ps := raw_properties edge) in *.
  unfold edge_channels. fold ps. rewrite Ht. change (default PNone (Some (PStr t))) with (PStr t). cbn iota. rewrite py_str_text.
  rewrite (first_explicit explicit_keys ps Hplain). fold (explicit_channel ps).
  unfold selects, effective_channel, listed_channels, plain_channel in *. destruct (explicit_channel ps) as [v|].
  - destruct Hplain as (c' & _ & ->). cbn [is_channel]. rewrite orb_true_iff, andb_true_iff, String.eqb_eq, !list_elem_of_singleton.
    split; naive_solver.
  - assert (PStr c ∈ map PStr (default [] (dget t propagation_channels)) ↔ c ∈ default [] (dget t propagation_channels)) as Hl.
    { rewrite list_elem_of_fmap. split; [by intros (y & [= ->] & Hy)|eauto]. }
    rewrite Hl. split; [|done]. rewrite orb_true_iff, andb_true_iff, bool_decide_eq_true, listed_type, default_head.
    split; [auto|]. intros [Hch|[_ ?]]; [|done]. destruct (dget t propagation_channels) as [[|c' cs]|]; try done.
    cbn in Hch. apply String.eqb_eq in Hch as ->. by left.
Qed.

(** ** Runs *)
Module SimulationExamples.
Import StatusExamples PropagationExamples QueryExamples.
#[local] Existing Instance plain_text.
#[local] Existing Instance no_texts.
#[local] Existing Instance no_json.

(** A graph with a catalog of projections. *)
Record sim_db := mkSimDb { sd_graph : pgraph; sd_catalog : gset string }.
Definition seed_texts (ps : pdict) (k : string) : list string := strings_of (pget k ps).
Definition edge_rows (g : pgraph) (ids : list string) : list pdict :=
  flat_map (λ ke : string * edge_data,
    if bool_decide (ke.1 ∈ ids) then [path_row (ed_source ke.2) (ed_target ke.2) ke.1 (ed_weight ke.2)] else []) (map_to_list (pg_edges g)).
#[local] Instance sim_client : Neo4jClient sim_db := {
  execute_read q ps w :=
    let n := int_of (pget "per_depth_limit" ps) in
    (if String.eqb q seed_query then Ok (seed_rows (sd_graph w) (seed_texts ps "seed_entities") n)
     else if String.eqb q (frontier_query false) then
       Ok (frontier_rows (sd_graph w) (seed_texts ps "frontier_node_keys") (list_to_set (seed_texts ps "visited_relationship_keys")) n)
     else if String.eqb q exists_query then Ok [[(PStr "exists", PBool (bool_decide (graph_name_of ps ∈ sd_catalog w)))]]
     else if contains "gds.pageRank" q then Ok []
     else Ok (edge_rows (sd_graph w) (seed_texts ps "edge_ids")), w);
  execute_write q ps w :=
    if String.eqb q drop_query then (Ok [], mkSimDb (sd_graph w) (sd_catalog w ∖ {[graph_name_of ps]}))
    else if contains "gds.graph.project" q then
      let n := Z.of_nat (length (seed_texts ps "edge_ids")) in
      (Ok [[(PStr "relationshipCount", PInt n)]],
       if 0 <? n then mkSimDb (sd_graph w) ({[graph_name_of ps]} ∪ sd_catalog w) else w)
    else (Err (ClientRaised "write refused"), w);
}.
#[local] Instance sim_catalog_laws : GdsCatalog sim_db sd_catalog.
Proof.
  split.
  - intros q ps w _. done.
  - intros n w rows w'. cbn [execute_read sim_client]. change (exists_query =? seed_query)%string with false.
    change (exists_query =? frontier_query false)%string with false. change (exists_query =? exists_query)%string with true.
    cbn iota. intros [= <- _]. cbn. by case_bool_decide.
  - intros n w rows w'. cbn. by intros [= _ <-].
  - intros n w e w'. by cbn.
  - intros q ps n w r w' Hp Hd Hn. cbn [execute_write sim_client]. destruct (String.eqb_spec q drop_query) as [->|_]; [done|].
    rewrite Hp. unfold graph_name_of. rewrite Hn. intros [= _ <-]. destruct (0 <? _); [by right|by left].
Defined.
Lemma sim_returns : catalog_calls_return (W := sim_db).
Proof.
  intros n w. split; [|done]. cbn [execute_read sim_client]. change (exists_query =? seed_query)%string with false.
  change (exists_query =? frontier_query false)%string with false. change (exists_query =? exists_query)%string with true. done.
Qed.
Lemma sim_reports : projections_reported (catalog := sd_catalog).
Proof.
  intros ps n w r w' Hn. cbn [execute_write sim_client]. change (scoped_projection_query =? drop_query)%string with false.
  change (contains "gds.graph.project" scoped_projection_query) with true. cbn iota. intros [= <- <-].
  unfold graph_name_of. rewrite Hn. unfold reported. destruct (length (seed_texts ps "edge_ids")) as [|k]; [done|].
  change (0 <? Z.of_nat (S k)) with true. done.
Qed.

Definition named_link (id source target type : string) : edge_data := mkEdgeData (Some id) source target type [] half.
Definition small : sim_db := mkSimDb
  (mkPGraph {["A" := entity "A" "EA"; "B" := entity "B" "EB"; "C" := entity "C" "EC"]}
     {["e1" := named_link "e1" "A" "B" "OWNERSHIP"; "e2" := named_link "e2" "B" "C" "EVENT_IMPACT"]}) {["other"]}.
Definition ask_impact : ReadonlySimulationRequest :=
  mkRequest "cycle 1" "ws" 1 2 ["fundamental"; "event"] [("fundamental", float_one); ("event", float_one)]
    [("fundamental", float_one); ("event", float_one)] [] [] 10 5 None.
Definition simulate (w : sim_db) : result graph_error SimulationResult * sim_db :=
  simulate_readonly_impact by_elements hexes (PList [PStr "EA"]) ask_impact "0123456789ab" (Some (Ok ex_ready)) w.
(** Each channel sees its own edge; the catalog is as before. *)
Example simulate_run :
  match simulate small with
  | (Ok r, w) =>
      map (λ p, (get "channel" p, get "edge_id" p)) (activated_paths (sim_propagation r)) =
        [(PStr "event", PStr "e2"); (PStr "fundamental", PStr "e1")] ∧
      sim_projection_name r = "graph_engine_readonly_sim_cycle_1_0123456789ab" ∧ elements (sd_catalog w) = ["other"]
  | _ => False
  end.
Proof. vm_compute. auto. Qed.

(** A name that is taken stops the simulation, and the owner keeps it. *)
Definition taken : sim_db := mkSimDb (sd_graph small) {["graph_engine_readonly_sim_cycle_1_0123456789ab-event"]}.
Example simulate_taken :
  (simulate taken).1 = Err (ProjectionExists "graph_engine_readonly_sim_cycle_1_0123456789ab-event") ∧
  elements (sd_catalog (simulate taken).2) = elements (sd_catalog taken).
Proof. vm_compute. auto. Qed.

Lemma simulation_leaves_catalog_witness : sd_catalog (simulate small).2 = sd_catalog small.
Proof.
  destruct (simulate small) as [r w] eqn:E. unfold simulate in E.
  apply (simulation_leaves_catalog (catalog := sd_catalog)) in E. exact (proj2 (proj2 E) sim_returns sim_reports).
Defined.

Lemma simulation_is_readonly_witness : sd_graph (simulate small).2 = sd_graph small.
Proof.
  destruct (simulate small) as [r w] eqn:E. unfold simulate in E. apply (simulation_is_readonly sd_graph) in E; [exact E|..].
  - intros q ps w1. reflexivity.
  - intros ps w1. cbn [execute_write sim_client]. destruct (String.eqb _ _); [reflexivity|]. destruct (contains _ _); [|reflexivity].
    cbn zeta. destruct (0 <? _); reflexivity.
  - intros n w1. reflexivity.
Defined.

(** *** Edges on which the three classifications differ *)
Definition edge_with (type : string) (properties : pdict) : pdict :=
  [(PStr "relationship_type", PStr type); (PStr "properties", PDict properties)].
(** An unknown channel: no selector matches the edge and no path query lists a
    channel for it, but the scope takes the channel of its type. *)
Example unknown_channel_differs :
  edge_channels (edge_with "OWNERSHIP" [(PStr "channel", PStr "macro")]) = ["fundamental"] ∧
  selects "fundamental" "OWNERSHIP" [(PStr "channel", PStr "macro")] = false ∧
  listed_channels "OWNERSHIP" [(PStr "channel", PStr "macro")] = [PStr "macro"].
Proof. vm_compute. auto. Qed.
(** A list of channels: the scope reads the list, the queries compare it whole. *)
Example channel_list_differs :
  edge_channels (edge_with "OWNERSHIP" [(PStr "channel", PList [PStr "event"])]) = ["event"] ∧
  selects "event" "OWNERSHIP" [(PStr "channel", PList [PStr "event"])] = false.
Proof. vm_compute. auto. Qed.
(** The paths a simulation reads come without their evidence. *)
Example scoped_paths_have_no_evidence c : c ∈ allowed_channels →
  contains "evidence_ref" (scoped_paths_query c) = false ∧ contains "evidence_ref" (paths_query (selector c)) = true.
Proof. unfold allowed_channels. rewrite !elem_of_cons, elem_of_nil. intros [->|[->|[->|[]]]]; vm_compute; auto. Qed.

Lemma channels_agree_witness :
  "event" ∈ edge_channels (edge_with "NORTHBOUND_HOLD" []) ↔ selects "event" "NORTHBOUND_HOLD" [] = true.
Proof.
  apply (channels_agree "event" "NORTHBOUND_HOLD" (edge_with "NORTHBOUND_HOLD" [])); [right; left|reflexivity|exact I].
Defined.
End SimulationExamples.
