(* ===== verification/Backtest.v ===== *)
(** * Backtest: offline backtests behind the point-in-time check

    In [audit_eval]: [_boundary.py] ([Boundary]), [backtest/pit_checker.py] with
    [schema.py] ([PitChecker], and [PitMemory] for the gateways in memory) and
    [backtest/job.py], [runner.py], [writer.py] with
    [contracts/backtest_result.py] ([Backtest]). Gateways, adapters and storages
    are programs over a state of any type. A violation is a value where the code
    builds a text from it; copies the code makes so that a callee cannot change
    its arguments are the values themselves. *)
From Stdlib Require Import String Ascii ZArith List.
From stdpp Require Import base gmap strings list sorting pretty.
From S2P Require Import Prelude PyLib Programs.
Local Open Scope string_scope.
Local Open Scope Z_scope.

(** ** Forbidden fields *)
Module Boundary.
Section paths.
Context `{PyText}.

(** The keys [hit] of the mappings inside a value, as paths; [hit] is told
    whether the mapping is the outermost one. *)
Section hits.
Context (hit : bool → string → bool).
Definition hit_key (root : bool) (k : pyval) : bool := match k with PStr s => hit root s | _ => false end.
Definition item_paths (paths : string → pyval → list string) (path : string) : nat → list pyval → list string :=
  fix go i l := match l with
  | [] => []
  | x :: rest => (paths (path ++ "[" ++ pretty i ++ "]")%string x ++ go (S i) rest)%list
  end.
Fixpoint key_paths (root : bool) (path : string) (v : pyval) : list string :=
  match v with
  | PDict d =>
      (fix go (d : pdict) : list string :=
         match d with
         | [] => []
         | (k, x) :: rest =>
             let field := path ++ "." ++ py_str k in
             ((if hit_key root k then [field] else []) ++ key_paths false field x ++ go rest)%list
         end) d
  | PList l | PTuple l => item_paths (key_paths false) path O l
  | _ => []
  end.
End hits.

Definition forbidden_write_fields : list string := ["feature_weight_multiplier"].
(** [_iter_forbidden_field_paths] *)
Definition forbidden_field_paths (v : pyval) (path : string) : list string :=
  key_paths (λ _ k, bool_decide (k ∈ forbidden_write_fields)) true path v.
End paths.
End Boundary.

(** ** The check *)
Module PitChecker.
Import Boundary.

(** What a gateway, an adapter or a storage raises, and what the check reports. *)
Inductive exn :=
| BacktestInputError (m : string)
| KeyError (m : string)
| TypeError (m : string)
| BacktestRunnerError (m : string)
| BacktestStorageError (m : string)
| BoundaryViolationError (fields : list string)
| PITViolationError (vs : list violation)
| ValidationError
| OtherException (m : string)
with violation :=
| NotAString (field : string)
| Blank (field : string)
| RangeNotObject
| UnsupportedCollection (path : string)
| RequestedRefsShape
| NoRequestedRef
| NoManifestLookup
| NoManifestGateway
| NoFeatureGateway
| ManifestUnavailable (e : exn)
| MetadataDisagrees (keys values : list string)
| NoAuthoritativeRefs
| AuthoritativeRefsShape
| CycleMismatch (published requested : string)
| RefMismatch (returned requested : string)
| CycleUnproven
| RefNotReturned (ref : string)
| AvailabilityUnavailable (e : exn)
| NoAvailabilityRows (feature : string)
| RowFeatureMismatch (path found expected : string)
| NotADatetime (field : string)
| NoSnapshotRef (path : string)
| LookAheadBias (path : string) (available_at as_of : Z)
| NotComparable (path : string)
| RowRefNotReturned (path ref : string).

(** [except (BacktestInputError, KeyError, TypeError)]; a PIT violation is an
    input error. *)
Definition caught (e : exn) : bool :=
  match e with BacktestInputError _ | KeyError _ | TypeError _ | PITViolationError _ => true | _ => false end.

Record PITCheckResult := mkPitResult { passed : bool; violations : list violation }.

(** *** Rows of availability
    A mapping or an object; a cell is a value or a [datetime], which is aware
    of its offset or not. *)
Inductive cell := Value (v : pyval) | Moment (aware : bool) (at_ : Z).
Inductive row := MapRow (fields : list (pyval * cell)) | ObjRow (attributes : pydict cell).
Definition plain_cell (c : cell) : pyval := match c with Value v => v | Moment _ _ => POther "datetime" end.

Fixpoint cell_get (k : string) (d : list (pyval * cell)) : option cell :=
  match d with
  | [] => None
  | (k', c) :: rest => if is_key k k' then Some c else cell_get k rest
  end.
(** [_get_availability_value] *)
Definition availability_value (r : row) (field : string) : cell :=
  default (Value PNone) match r with MapRow d => cell_get field d | ObjRow d => dget field d end.

Section checker.
Context `{PyText}.

Definition availability_forbidden (r : row) (path : string) : list string :=
  match r with
  | MapRow d => forbidden_field_paths (PDict (map (λ kc, (kc.1, plain_cell kc.2)) d)) path
  | ObjRow d =>
      match default (Value PNone) (dget "metadata" d) with
      | Value PNone => []
      | c => forbidden_field_paths (plain_cell c) (path ++ ".metadata")
      end
  end.

(** [_normalize_optional_string] *)
Definition normalize_optional_string (v : pyval) (field : string) : option string * list violation :=
  match v with
  | PStr s => let t := strip s in if is_empty t then (None, [Blank field]) else (Some t, [])
  | _ => (None, [NotAString field])
  end.

(** The strings of a list or of the values of a mapping, each with its name. *)
Definition add_ref (acc : gset string * list violation) (named : string * pyval) : gset string * list violation :=
  match normalize_optional_string named.2 named.1 with
  | (Some t, _) => ({[t]} ∪ acc.1, acc.2)
  | (None, vs) => (acc.1, acc.2 ++ vs)%list
  end.
Definition named_refs (l : list (string * pyval)) : gset string * list violation := fold_left add_ref l (∅, []).
Definition indexed (path : string) (l : list pyval) : list (string * pyval) :=
  imap (λ i v, (path ++ "[" ++ pretty i ++ "]", v)) l.

Definition snapshot_collection_keys : list string :=
  ["manifest_snapshot_refs"; "manifest_snapshot_set"; "formal_snapshot_refs"; "snapshot_refs"; "snapshot_refs_by_object"; "snapshot_set";
   "snapshots"].
Definition authoritative_collection_keys : list string :=
  ["manifest_snapshot_refs"; "snapshot_refs"; "manifest_snapshot_set"; "formal_snapshot_refs"].
Definition metadata_keys : list string := ["published_cycle_id"; "manifest_cycle_id"; "manifest_ref"; "published_at"].

Definition unsupported_key (root : bool) (k : string) : bool :=
  bool_decide (k ∈ snapshot_collection_keys) && negb (root && String.eqb k "manifest_snapshot_refs").
Definition range_path : string := "$.formal_snapshot_range".

(** [_extract_requested_manifest_snapshot_refs] *)
Definition extract_requested_refs (d : pdict) : gset string * list violation :=
  let unsupported := map UnsupportedCollection (key_paths unsupported_key true range_path (PDict d)) in
  match default PNone (pget "manifest_snapshot_refs" d) with
  | PNone => (∅, unsupported)
  | PList l | PTuple l =>
      let '(refs, vs) := named_refs (indexed (range_path ++ ".manifest_snapshot_refs") l) in
      (refs, unsupported ++ vs ++ if bool_decide (refs = ∅) then [NoRequestedRef] else [])%list
  | _ => (∅, unsupported ++ [RequestedRefsShape])%list
  end.

(** [_extract_manifest_lookup] *)
Definition lookup_string (d : pdict) (k : string) : option string * list violation :=
  match pget k d with Some v => normalize_optional_string v (range_path ++ "." ++ k) | None => (None, []) end.
Definition extract_manifest_lookup (d : pdict) : option (option string * option string) * list violation :=
  if negb (phas "manifest_cycle_id" d) && negb (phas "manifest_ref" d) then (None, [NoManifestLookup])
  else
    let '(cycle, vs) := lookup_string d "manifest_cycle_id" in
    let '(ref, vs') := lookup_string d "manifest_ref" in
    (match cycle, ref with None, None => None | _, _ => Some (cycle, ref) end, vs ++ vs')%list.

(** [_extract_manifest_metadata_string] *)
Definition add_metadata (raw : pdict) (acc : list string * list violation) (k : string) : list string * list violation :=
  match pget k raw with
  | None => acc
  | Some v =>
      match normalize_optional_string v ("$.authoritative_manifest." ++ k) with
      | (Some t, _) => (acc.1 ++ [t], acc.2)%list
      | (None, vs) => (acc.1, acc.2 ++ vs)%list
      end
  end.
Definition metadata_string (raw : pyval) (keys : list string) : option string * list violation :=
  match raw with
  | PDict d =>
      let '(values, vs) := fold_left (add_metadata d) keys ([], []) in
      let unique := list_to_set values : gset string in
      if (1 <? Z.of_nat (size unique)) then (None, vs ++ [MetadataDisagrees keys (sorted_set unique)])%list
      else (head values, vs)
  | _ => (None, [])
  end.

(** [_extract_authoritative_snapshot_payload] *)
Fixpoint first_present (keys : list string) (d : pdict) : option pyval :=
  match keys with
  | [] => None
  | k :: rest => match pget k d with Some v => Some v | None => first_present rest d end
  end.
Definition is_metadata (k : pyval) : bool := match k with PStr s => bool_decide (s ∈ metadata_keys) | _ => false end.
Definition authoritative_payload (raw : pyval) : pyval :=
  match raw with
  | PDict d =>
      match first_present authoritative_collection_keys d with
      | Some v => v
      | None =>
          if existsb (λ k, phas k d) metadata_keys then PDict (List.filter (λ kv, negb (is_metadata kv.1)) d) else raw
      end
  | _ => raw
  end.

Definition authority_path : string := "$.authoritative_manifest_snapshot_refs".
(** [_normalize_authoritative_manifest_snapshot_refs] *)
Definition authoritative_refs (payload : pyval) : gset string * list violation :=
  match payload with
  | PDict [] | PList [] | PTuple [] => (∅, [NoAuthoritativeRefs])
  | PDict d => named_refs (map (λ kv, (authority_path ++ "." ++ py_str kv.1, kv.2)) d)
  | PList l | PTuple l => named_refs (indexed authority_path l)
  | _ => (∅, [AuthoritativeRefsShape])
  end.

Record authoritative_manifest := mkAuthority {
  snapshot_refs : gset string;
  published_cycle_id : option string;
  manifest_ref : option string;
}.
Definition normalize_authoritative_manifest (raw : pyval) : authoritative_manifest * list violation :=
  let '(cycle, vs1) := metadata_string raw ["published_cycle_id"; "manifest_cycle_id"] in
  let '(ref, vs2) := metadata_string raw ["manifest_ref"] in
  let '(refs, vs3) := authoritative_refs (authoritative_payload raw) in
  (mkAuthority refs cycle ref, vs1 ++ vs2 ++ vs3)%list.

(** [_validate_authoritative_manifest_binding] *)
Definition mismatch (f : string → string → violation) (returned requested : option string) : list violation :=
  match requested, returned with
  | Some q, Some r => if String.eqb r q then [] else [f r q]
  | _, _ => []
  end.
Definition binding_violations (m : authoritative_manifest) (cycle ref : option string) : list violation :=
  (mismatch CycleMismatch (published_cycle_id m) cycle ++ mismatch RefMismatch (manifest_ref m) ref ++
   match cycle, ref, published_cycle_id m with Some _, Some _, None => [CycleUnproven] | _, _, _ => [] end)%list.

(** [_validate_availability_row], after the check of forbidden fields *)
Definition not_a_datetime (c : cell) (field : string) : list violation := match c with Moment _ _ => [] | Value _ => [NotADatetime field] end.
Definition time_violations (path : string) (as_of available_at : cell) : list violation :=
  match as_of, available_at with
  | Moment a t, Moment a' t' =>
      if negb (Bool.eqb a a') then [NotComparable path] else if t <? t' then [LookAheadBias path t' t] else []
  | _, _ => []
  end.
Definition row_violations (path expected : string) (refs : gset string) (r : row) : list violation :=
  let '(feature, vs1) := normalize_optional_string (plain_cell (availability_value r "feature_ref")) (path ++ ".feature_ref") in
  let '(ref, vs2) := normalize_optional_string (plain_cell (availability_value r "snapshot_ref")) (path ++ ".snapshot_ref") in
  let as_of := availability_value r "as_of" in
  let available_at := availability_value r "available_at" in
  (vs1 ++ match feature with Some f => if String.eqb f expected then [] else [RowFeatureMismatch path f expected] | None => [] end ++
   vs2 ++ not_a_datetime as_of (path ++ ".as_of") ++ not_a_datetime available_at (path ++ ".available_at") ++
   match ref with None => [NoSnapshotRef path] | Some _ => [] end ++
   time_violations path as_of available_at ++
   match ref with Some t => if bool_decide (t ∈ refs) then [] else [RowRefNotReturned path t] | None => [] end)%list.
Definition row_path (i : nat) : string := "$.availability[" ++ pretty i ++ "]".
Definition validate_availability_row (i : nat) (expected : string) (refs : gset string) (r : row) : result exn (list violation) :=
  match availability_forbidden r (row_path i) with
  | [] => Ok (row_violations (row_path i) expected refs r)
  | fields => Err (BoundaryViolationError fields)
  end.
Definition validate_rows (expected : string) (refs : gset string) (rows : list row) : result exn (list violation) :=
  let* found := rmap_list id (imap (λ i r, validate_availability_row i expected refs r) rows) in Ok (concat found).

(** *** [PointInTimeChecker.validate] *)
Section gateways.
Context {W : Type}.

Record PointInTimeChecker := mkChecker {
  gateway : option (string → pyval → program exn W (list row));
  manifest_gateway : option (option string → option string → program exn W pyval);
}.
(** [try: m except (BacktestInputError, KeyError, TypeError)] *)
Definition attempt {A} (m : program exn W A) : program exn W (A + exn) :=
  λ w, match m w with
       | (Ok a, w') => (Ok (inl a), w')
       | (Err e, w') => if caught e then (Ok (inr e), w') else (Err e, w')
       end.
Definition failed (vs : list violation) : program exn W PITCheckResult := ret (mkPitResult false vs).

(** From the rows of the feature on. *)
Definition check_rows (load_rows : string → pyval → program exn W (list row)) (feature : string) (range : pyval)
    (refs : gset string) (vs : list violation) : program exn W PITCheckResult :=
  let! loaded := attempt (load_rows feature range) in
  match loaded with
  | inr e => failed (vs ++ [AvailabilityUnavailable e])
  | inl [] => failed (vs ++ [NoAvailabilityRows feature])
  | inl rows =>
      let! found := lift (validate_rows feature refs rows) in
      ret (mkPitResult (bool_decide ((vs ++ found)%list = [])) (vs ++ found)%list)
  end.
(** From the authoritative manifest on. *)
Definition check_manifest (load_refs : option string → option string → program exn W pyval)
    (load_rows : string → pyval → program exn W (list row)) (feature : string) (range : pyval) (cycle ref : option string)
    (requested : gset string) (vs : list violation) : program exn W PITCheckResult :=
  let! loaded := attempt (load_refs match ref with None => cycle | Some _ => None end ref) in
  match loaded with
  | inr e => failed (vs ++ [ManifestUnavailable e])
  | inl raw =>
      let '(m, vs1) := normalize_authoritative_manifest raw in
      let vs2 := (vs1 ++ binding_violations m cycle ref)%list in
      if bool_decide (snapshot_refs m = ∅) || negb (bool_decide (vs2 = [])) then failed (vs ++ vs2)
      else
        let vs3 := map RefNotReturned (sorted_set (requested ∖ snapshot_refs m)) in
        if negb (bool_decide (vs3 = [])) then failed (vs ++ vs2 ++ vs3)
        else check_rows load_rows feature range (snapshot_refs m) (vs ++ vs2 ++ vs3)
  end.
Definition validate (c : PointInTimeChecker) (feature_ref range : pyval) : program exn W PITCheckResult :=
  let '(feature, vs1) := normalize_optional_string feature_ref "feature_ref" in
  match range with
  | PDict d =>
      match forbidden_field_paths range range_path with
      | [] =>
          let '(requested, vs2) := extract_requested_refs d in
          let '(lookup, vs3) := extract_manifest_lookup d in
          let vs := (vs1 ++ vs2 ++ vs3 ++ match manifest_gateway c with None => [NoManifestGateway] | Some _ => [] end)%list in
          match gateway c with
          | None => failed (vs ++ [NoFeatureGateway])
          | Some load_rows =>
              match feature, lookup, manifest_gateway c with
              | Some f, Some (cycle, ref), Some load_refs => check_manifest load_refs load_rows f range cycle ref requested vs
              | _, _, _ => failed vs
              end
          end
      | fields => raise (BoundaryViolationError fields)
      end
  | _ => failed (vs1 ++ [RangeNotObject])
  end.
End gateways.
End checker.
Arguments PointInTimeChecker : clear implicits.
End PitChecker.

(** ** The gateways in memory *)
Module PitMemory.
Import Boundary PitChecker.

Record pit_memory := mkMemory {
  availability_by_feature_ref : pydict (list row);
  snapshot_refs_by_manifest_cycle_id : pydict pyval;
  snapshot_refs_by_manifest_ref : pydict pyval;
  feature_calls : list (string * pyval);
  manifest_calls : list (option string * option string);
}.

Section gateways.
Context `{PyText}.

(** [InMemoryPointInTimeFeatureGateway.load_feature_availability] *)
Definition load_feature_availability (feature : string) (range : pyval) : program exn pit_memory (list row) := λ m,
  match forbidden_field_paths range range_path with
  | [] =>
      let m' := mkMemory (availability_by_feature_ref m) (snapshot_refs_by_manifest_cycle_id m) (snapshot_refs_by_manifest_ref m)
        (feature_calls m ++ [(feature, range)])%list (manifest_calls m) in
      match dget feature (availability_by_feature_ref m) with
      | Some rows => (Ok rows, m')
      | None => (Err (BacktestInputError ("Feature availability not found for feature_ref: " ++ feature)), m')
      end
  | fields => (Err (BoundaryViolationError fields), m)
  end.

(** [InMemoryPointInTimeManifestGateway.load_manifest_snapshot_refs] *)
Definition found_by (o : option string) (d : pydict pyval) : option pyval :=
  match o with Some k => dget k d | None => None end.
Definition load_manifest_snapshot_refs (cycle ref : option string) : program exn pit_memory pyval := λ m,
  let m' := mkMemory (availability_by_feature_ref m) (snapshot_refs_by_manifest_cycle_id m) (snapshot_refs_by_manifest_ref m)
    (feature_calls m) (manifest_calls m ++ [(cycle, ref)])%list in
  (match found_by ref (snapshot_refs_by_manifest_ref m) with
   | Some v => Ok v
   | None =>
       match found_by cycle (snapshot_refs_by_manifest_cycle_id m) with
       | Some v => Ok v
       | None => Err (BacktestInputError match ref with
           | Some r => "Manifest snapshot refs not found for manifest_ref: " ++ r
           | None => "Manifest snapshot refs not found for manifest_cycle_id: " ++ default "None" cycle
           end)
       end
   end, m').
End gateways.
End PitMemory.

(** ** The run *)
Module Backtest.
Import Boundary PitChecker.

Definition backtest_engines : list string := ["alphalens"; "backtrader"].
Definition offline_mode : string := "offline_research".
Definition bad_mode : exn :=
  BacktestInputError "BacktestJob.run_mode must be offline_research; backtests cannot run in daily cycle or online modes".
Definition bad_engine : exn := BacktestInputError "engine must be 'alphalens' or 'backtrader'".

Record BacktestJob := mkJob {
  job_ref : string;
  feature_ref : string;
  formal_snapshot_range : pdict;
  engine : string;
  run_mode : string;
  metrics_config : pdict;
}.

Record BacktestResult := mkResult {
  backtest_id : string;
  res_job_ref : string;
  res_engine : string;
  res_feature_ref : string;
  res_range : pdict;
  metrics : pdict;
  pit_check_passed : bool;
  created_at : Z;
}.

Section backtest.
Context `{PyText}.

(** [assert_no_forbidden_write] *)
Definition assert_no_forbidden_write (payload : pyval) (path : string) : result exn () :=
  match forbidden_field_paths payload path with [] => Ok () | fields => Err (BoundaryViolationError fields) end.

(** [BacktestJob.__post_init__] *)
Definition strip_required_string (v : pyval) (field : string) : result exn string :=
  match v with
  | PStr s => raise_if is_empty (strip s) with BacktestInputError (field ++ " must not be empty"); Ok (strip s)
  | _ => Err (BacktestInputError (field ++ " must be a string"))
  end.
Definition require_object (v : pyval) (field : string) : result exn pdict :=
  match v with PDict d => Ok d | _ => Err (BacktestInputError (field ++ " must be a JSON object")) end.
Definition make_job (raw_job_ref raw_feature_ref raw_range : pyval) (engine run_mode : string) (raw_config : pyval)
    : result exn BacktestJob :=
  let* job := strip_required_string raw_job_ref "job_ref" in
  let* feature := strip_required_string raw_feature_ref "feature_ref" in
  raise_if negb (bool_decide (engine ∈ backtest_engines)) with bad_engine;
  raise_if negb (String.eqb run_mode offline_mode) with bad_mode;
  let* range := require_object raw_range "formal_snapshot_range" in
  let* config := require_object raw_config "metrics_config" in
  let* _ := assert_no_forbidden_write (PDict range) "$.formal_snapshot_range" in
  let* _ := assert_no_forbidden_write (PDict config) "$.metrics_config" in
  Ok (mkJob job feature range engine run_mode config).

(** [_validate_offline_job] *)
Definition validate_offline_job (job : BacktestJob) : result exn () :=
  raise_if negb (String.eqb (run_mode job) offline_mode) with bad_mode;
  raise_if negb (bool_decide (engine job ∈ backtest_engines)) with bad_engine;
  Ok ().

(** [_validate_metrics_object] *)
Definition validate_metrics_object (v : pyval) : result exn pdict :=
  match v with
  | PDict d =>
      raise_if match d with [] => true | _ => false end with BacktestRunnerError "Backtest metrics must not be empty";
      let* _ := map_err (λ _, BacktestRunnerError "Backtest metrics contain forbidden fields")
        (assert_no_forbidden_write v "$.backtest_metrics") in
      raise_if match json_error v with Some _ => true | None => false end
        with BacktestRunnerError "Backtest metrics must contain only JSON values";
      Ok d
  | _ => Err (BacktestRunnerError "Backtest metrics adapter must return a JSON object")
  end.

(** [_backtest_id] *)
Definition nul : string := String (ascii_of_nat 0) "".
Definition new_backtest_id (job : BacktestJob) (created : Z) : string :=
  "backtest-" ++ hexdigest_prefix sha256 16 (join nul [job_ref job; feature_ref job; engine job; isoformat created]).

(** [BacktestResult(...)]: forbidden fields of the payload raise as they are,
    what the fields reject is a [ValidationError]. *)
Definition result_payload (id job_ref engine feature_ref : string) (range metrics : pdict) (passed : bool) : pyval :=
  PDict [(PStr "backtest_id", PStr id); (PStr "job_ref", PStr job_ref); (PStr "engine", PStr engine);
         (PStr "feature_ref", PStr feature_ref); (PStr "formal_snapshot_range", PDict range);
         (PStr "metrics", PDict metrics); (PStr "pit_check_passed", PBool passed); (PStr "created_at", POther "datetime")].
Definition string_keys (d : pdict) : bool := forallb (λ kv, is_str kv.1) d.
Definition make_backtest_result (id job_ref engine feature_ref : string) (range metrics : pdict) (passed : bool) (created : Z)
    : result exn BacktestResult :=
  let* _ := assert_no_forbidden_write (result_payload id job_ref engine feature_ref range metrics passed) "$" in
  raise_if is_empty (strip id) || is_empty (strip job_ref) || is_empty (strip feature_ref) ||
           negb (bool_decide (engine ∈ backtest_engines)) || negb (string_keys range) || negb (string_keys metrics) ||
           negb passed with ValidationError;
  let* _ := assert_no_forbidden_write (PDict range) "$.formal_snapshot_range" in
  let* _ := assert_no_forbidden_write (PDict metrics) "$.metrics" in
  let* _ := assert_no_forbidden_write
    (result_payload (strip id) (strip job_ref) engine (strip feature_ref) range metrics passed) "$" in
  Ok (mkResult (strip id) (strip job_ref) engine (strip feature_ref) range metrics passed created).
Definition backtest_dump (r : BacktestResult) : pyval :=
  result_payload (backtest_id r) (res_job_ref r) (res_engine r) (res_feature_ref r) (res_range r) (metrics r) (pit_check_passed r).

Section run.
Context {W : Type}.

Abbreviation metrics_adapter := (string → pdict → pdict → program exn W pyval).
Abbreviation result_storage := (BacktestResult → program exn W string).

(** [try: m except keep: raise except Exception: raise e] *)
Definition translate {A} (keep : exn → bool) (e : exn) (m : program exn W A) : program exn W A :=
  map_raise (λ e', if keep e' then e' else e) m.
Definition is_runner_error (e : exn) : bool := match e with BacktestRunnerError _ => true | _ => false end.
Definition is_storage_error (e : exn) : bool := match e with BacktestStorageError _ => true | _ => false end.

(** [_run_metrics_adapter] *)
Definition run_metrics_adapter (adapter : metrics_adapter) (job : BacktestJob) : program exn W pdict :=
  let! raw := translate is_runner_error (BacktestRunnerError "Backtest metrics adapter failed")
    (adapter (feature_ref job) (formal_snapshot_range job) (metrics_config job)) in
  lift (validate_metrics_object raw).

(** [persist_backtest_result]; without a storage, [get_default_backtest_result_storage] raises. *)
Definition no_storage : exn := BacktestStorageError "No default backtest result storage is configured; pass storage=...".
Definition persist_backtest_result (r : BacktestResult) (storage : option result_storage) : program exn W string :=
  stop_if negb (pit_check_passed r) with BacktestStorageError "Refusing to persist backtest_result before PIT check passes";
  let! _ := lift (map_err (λ _, BacktestStorageError "Backtest result contains forbidden fields")
    (assert_no_forbidden_write (backtest_dump r) "$.backtest_result")) in
  match storage with
  | None => raise no_storage
  | Some append =>
      let! id := translate is_storage_error (BacktestStorageError "Backtest result storage append failed") (append r) in
      stop_if negb (String.eqb id (backtest_id r))
        with BacktestStorageError "Backtest result storage returned mismatched backtest_id";
      ret id
  end.

(** [run_backtest], given the adapter [AlphalensAdapter()] and the clock. *)
Definition no_gateway : exn :=
  BacktestInputError "No default point-in-time feature gateway is configured; pass feature_gateway=...".
Definition no_adapter : exn :=
  BacktestInputError "Backtrader backtests require an explicit adapter; only Alphalens is wired by default".
Definition chosen_adapter (alphalens : metrics_adapter) (job : BacktestJob) (adapter : option metrics_adapter)
    : result exn metrics_adapter :=
  match adapter with
  | Some a => Ok a
  | None => if String.eqb (engine job) "alphalens" then Ok alphalens else Err no_adapter
  end.
Definition run_backtest (alphalens : metrics_adapter) (now : Z) (job : BacktestJob) (pit_checker : option (PointInTimeChecker W))
    (adapter : option metrics_adapter) (storage : option result_storage) (created : option Z) : program exn W BacktestResult :=
  let! _ := lift (validate_offline_job job) in
  match pit_checker with
  | None => raise no_gateway
  | Some checker =>
      let! pit := validate checker (PStr (feature_ref job)) (PDict (formal_snapshot_range job)) in
      stop_if negb (passed pit) with PITViolationError (violations pit);
      let! compute := lift (chosen_adapter alphalens job adapter) in
      let! computed := run_metrics_adapter compute job in
      let at_ := default now created in
      let! r := lift (make_backtest_result (new_backtest_id job at_) (job_ref job) (engine job) (feature_ref job)
        (formal_snapshot_range job) computed true at_) in
      let! _ := persist_backtest_result r storage in
      ret r
  end.
End run.
End backtest.
End Backtest.
