(* ===== verification/BacktestProofs.v ===== *)
(** * BacktestProofs: what a passed point-in-time check means

    The declarative conditions of a check that passes, their equivalence with
    the check, and what a run of a backtest does behind it. *)
From Stdlib Require Import String Ascii ZArith List.
From stdpp Require Import base gmap strings list sorting pretty.
From S2P Require Import Prelude PyLib Programs Backtest.
Import Boundary PitChecker.
Local Open Scope string_scope.
Local Open Scope Z_scope.

(** ** Keys inside a value *)
Section keys.
Context `{PyText}.
Implicit Types (hit : bool → string → bool) (v : pyval).

Inductive key_in hit : bool → pyval → Prop :=
| key_here root d s x : (PStr s, x) ∈ d → hit root s = true → key_in hit root (PDict d)
| key_inside root d k x : (k, x) ∈ d → key_in hit false x → key_in hit root (PDict d)
| key_item root l x : x ∈ l → key_in hit false x → key_in hit root (PList l)
| key_item_tuple root l x : x ∈ l → key_in hit false x → key_in hit root (PTuple l).

Lemma key_in_items hit root l : key_in hit root (PList l) ↔ ∃ x, x ∈ l ∧ key_in hit false x.
Proof. split; [intros Hk; inversion Hk; subst; eauto|intros (x & ? & ?); by eapply key_item]. Qed.
Lemma key_in_tuple hit root l : key_in hit root (PTuple l) ↔ ∃ x, x ∈ l ∧ key_in hit false x.
Proof. split; [intros Hk; inversion Hk; subst; eauto|intros (x & ? & ?); by eapply key_item_tuple]. Qed.
Lemma key_in_dict hit root d :
  key_in hit root (PDict d) ↔ ∃ k x, (k, x) ∈ d ∧ (hit_key hit root k = true ∨ key_in hit false x).
Proof.
  split.
  - intros Hk; inversion Hk; subst; [exists (PStr s), x|exists k, x]; eauto.
  - intros (k & x & Hin & [Hk|Hx]); [|by eapply key_inside]. destruct k; try done. by eapply key_here.
Qed.

Lemma item_paths_nil (paths : string → pyval → list string) (P : pyval → Prop) path l :
  Forall (λ x, ∀ path, paths path x = [] ↔ ¬ P x) l →
  item_paths paths path O l = [] ↔ ¬ ∃ x, x ∈ l ∧ P x.
Proof.
  generalize O as i. intros i Hl. revert i. induction Hl as [|x l Hx _ IHl]; intros i; simpl.
  - split; [intros _ (x & Hin & _); by apply not_elem_of_nil in Hin|done].
  - rewrite app_nil, Hx, IHl. split; [intros [H1 H2] (y & [->|Hy]%elem_of_cons & Hk); naive_solver|].
    intros Hn. split; [intros Hk; apply Hn; exists x; by split; [left|]|].
    intros (y & Hy & Hk). apply Hn. exists y. by split; [right|].
Qed.

(** The computed paths are empty exactly when no key inside is hit. *)
Lemma key_paths_nil hit v : ∀ root path, key_paths hit root path v = [] ↔ ¬ key_in hit root v.
Proof.
  induction v as [| | | | | |l IH|l IH|d IH] using pyval_rect_nested; intros root path;
    try (split; [intros _ Hk; inversion Hk|reflexivity]).
  - rewrite key_in_items. apply item_paths_nil. eapply Forall_impl; [exact IH|]. auto.
  - rewrite key_in_tuple. apply item_paths_nil. eapply Forall_impl; [exact IH|]. auto.
  - rewrite key_in_dict. cbn [key_paths]. induction IH as [|[k x] d Hx _ IHd].
    + split; [intros _ (k & x & Hin & _); by apply not_elem_of_nil in Hin|done].
    + rewrite !app_nil, IHd. cbn [snd] in Hx. rewrite Hx. split.
      * intros (H1 & H2 & H3) (k' & x' & [[= -> ->]|Hin]%elem_of_cons & Hor); [|naive_solver].
        destruct (hit_key hit root k); [done|naive_solver].
      * intros Hn. split_and!.
        -- destruct (hit_key hit root k) eqn:E; [|done]. destruct Hn. exists k, x. split; [left|by left].
        -- intros Hk. apply Hn. exists k, x. split; [left|by right].
        -- intros (k' & x' & Hin & Hor). apply Hn. exists k', x'. split; [by right|done].
Qed.
End keys.

(** ** The conditions of a check that passes *)
Section conditions.
Context `{PyText}.

(** A string that is [s] once stripped, and not empty then. *)
Definition nonblank (v : pyval) (s : string) : Prop := ∃ raw, v = PStr raw ∧ strip raw = s ∧ s ≠ "".
(** [refs] are the references a collection names, each of which is one. *)
Definition names_refs (l : list pyval) (refs : gset string) : Prop :=
  l ≠ [] ∧ (∀ v, v ∈ l → ∃ s, nonblank v s) ∧ (∀ s, s ∈ refs ↔ ∃ v, v ∈ l ∧ nonblank v s).
Definition collection (v : pyval) (refs : gset string) : Prop :=
  match v with
  | PDict d => names_refs (map snd d) refs
  | PList l | PTuple l => names_refs l refs
  | _ => False
  end.

(** What the request says: the references it asks for, and by what the
    manifest is looked up. *)
Definition requests (d : pdict) (requested : gset string) : Prop :=
  match default PNone (pget "manifest_snapshot_refs" d) with
  | PNone => requested = ∅
  | PList l | PTuple l => names_refs l requested
  | _ => False
  end.
Definition given (k : string) (d : pdict) (o : option string) : Prop :=
  match pget k d with None => o = None | Some v => ∃ s, o = Some s ∧ nonblank v s end.
Definition looks_up (d : pdict) (cycle ref : option string) : Prop :=
  given "manifest_cycle_id" d cycle ∧ given "manifest_ref" d ref ∧ ¬ (cycle = None ∧ ref = None).

(** What the manifest gateway answered, and that it is the manifest asked for. *)
Definition metadata (raw : pyval) (keys : list string) (o : option string) : Prop :=
  match raw with
  | PDict d =>
      (∀ k v, k ∈ keys → pget k d = Some v → ∃ s, nonblank v s ∧ o = Some s) ∧
      ((∀ k, k ∈ keys → pget k d = None) → o = None)
  | _ => o = None
  end.
Definition authority (raw : pyval) (m : authoritative_manifest) : Prop :=
  metadata raw ["published_cycle_id"; "manifest_cycle_id"] (published_cycle_id m) ∧
  metadata raw ["manifest_ref"] (manifest_ref m) ∧ collection (authoritative_payload raw) (snapshot_refs m).
Definition bound (m : authoritative_manifest) (cycle ref : option string) : Prop :=
  (∀ c p, cycle = Some c → published_cycle_id m = Some p → p = c) ∧
  (∀ q r, ref = Some q → manifest_ref m = Some r → r = q) ∧
  (cycle ≠ None → ref ≠ None → published_cycle_id m ≠ None).

(** A row of the feature, bound to a snapshot of the manifest, whose data was
    available at the moment it is used for. *)
Definition known_in_time (f : string) (refs : gset string) (r : row) : Prop :=
  (∀ path, availability_forbidden r path = []) ∧
  nonblank (plain_cell (availability_value r "feature_ref")) f ∧
  (∃ s, nonblank (plain_cell (availability_value r "snapshot_ref")) s ∧ s ∈ refs) ∧
  ∃ aware as_of available_at, availability_value r "as_of" = Moment aware as_of ∧
    availability_value r "available_at" = Moment aware available_at ∧ available_at ≤ as_of.

Definition forbidden_key (root : bool) (k : string) : bool := bool_decide (k ∈ forbidden_write_fields).

Definition point_in_time {W} (c : PointInTimeChecker W) (feature_ref : pyval) (d : pdict) (w w' : W) : Prop :=
  ∃ load_rows load_refs f requested cycle ref raw m w1 rows,
    gateway c = Some load_rows ∧ manifest_gateway c = Some load_refs ∧
    nonblank feature_ref f ∧ ¬ key_in forbidden_key true (PDict d) ∧ ¬ key_in unsupported_key true (PDict d) ∧
    requests d requested ∧ looks_up d cycle ref ∧
    load_refs match ref with None => cycle | Some _ => None end ref w = (Ok raw, w1) ∧
    authority raw m ∧ bound m cycle ref ∧ requested ⊆ snapshot_refs m ∧
    load_rows f (PDict d) w1 = (Ok rows, w') ∧ rows ≠ [] ∧ Forall (known_in_time f (snapshot_refs m)) rows.

(** ** The parts of the check *)
Lemma normalize_cases v field :
  (∃ s, nonblank v s ∧ normalize_optional_string v field = (Some s, [])) ∨
  ((∀ s, ¬ nonblank v s) ∧ ∃ x, normalize_optional_string v field = (None, [x])).
Proof.
  destruct v; try (right; split; [intros ? (? & ? & _); discriminate|eexists; reflexivity]).
  unfold normalize_optional_string. destruct (is_empty (strip s)) eqn:E.
  - right. split; [|eexists; reflexivity]. intros t (raw & [= <-] & <- & Ht). by destruct (strip s).
  - left. exists (strip s). split; [|done]. exists s. split_and!; [done..|]. intros Heq. by rewrite Heq in E.
Qed.

Lemma nonblank_inj v s s' : nonblank v s → nonblank v s' → s = s'.
Proof. intros (r & -> & <- & _) (r' & [= <-] & <- & _). done. Qed.

Lemma normalize_some v field s vs : normalize_optional_string v field = (Some s, vs) ↔ nonblank v s ∧ vs = [].
Proof.
  destruct (normalize_cases v field) as [(t & Ht & E)|(Hno & x & E)]; rewrite E.
  - split; [by intros [= <- <-]|]. intros [Hs ->]. by rewrite (nonblank_inj _ _ _ Hs Ht).
  - split; [done|]. intros [Hs _]. by destruct (Hno s).
Qed.

Lemma add_ref_fold l acc :
  let r := fold_left add_ref l acc in
  (r.2 = [] ↔ acc.2 = [] ∧ ∀ v, v ∈ map snd l → ∃ s, nonblank v s) ∧
  ∀ s, s ∈ r.1 ↔ s ∈ acc.1 ∨ ∃ v, v ∈ map snd l ∧ nonblank v s.
Proof.
  revert acc. induction l as [|[n v] l IH]; intros [refs vs]; cbn [fold_left map].
  - split; [|intros s]; split; try naive_solver.
    + intros E. split; [done|]. intros v Hv. by apply not_elem_of_nil in Hv.
    + intros [?|(v & Hv & _)]; [done|]. by apply not_elem_of_nil in Hv.
  - destruct (IH (add_ref (refs, vs) (n, v))) as [H1 H2]. rewrite H1. cbn [fst snd].
    setoid_rewrite H2. setoid_rewrite elem_of_cons.
    unfold add_ref. cbn [fst snd]. destruct (normalize_cases v n) as [(t & Ht & ->)|(Hno & x & ->)]; cbn [fst snd].
    + split; [naive_solver|]. intros s. rewrite elem_of_union, elem_of_singleton.
      split; [naive_solver|]. intros [?|(u & [->|?] & Hu)]; [by auto| |by eauto].
      rewrite (nonblank_inj _ _ _ Hu Ht). auto.
    + split; [rewrite app_nil; naive_solver|]. intros s. naive_solver.
Qed.

Lemma named_refs_spec l refs :
  map snd l ≠ [] → named_refs l = (refs, []) ↔ names_refs (map snd l) refs.
Proof.
  intros Hne. unfold named_refs, names_refs. destruct (add_ref_fold l (∅, [])) as [H1 H2].
  destruct (fold_left add_ref l (∅, [])) as [r vs]. cbn [fst snd] in *. split.
  - intros [= -> ->]. split_and!; [done|by apply H1|]. intros s. rewrite H2. set_solver.
  - intros (_ & Hok & Hs). f_equal; [|by apply H1]. apply set_eq. intros s. rewrite H2, Hs. set_solver.
Qed.

Lemma indexed_snd path l : map snd (indexed path l) = l.
Proof.
  unfold indexed. apply list_eq. intros i. rewrite list_lookup_fmap, list_lookup_imap.
  by destruct (l !! i).
Qed.

Lemma names_refs_inhabited l refs : names_refs l refs → refs ≠ ∅.
Proof.
  intros (Hne & Hok & Hs) ->. destruct l as [|v l]; [done|].
  destruct (Hok v) as [s Hv]; [left|]. apply (not_elem_of_empty (C := gset string) s). apply Hs. exists v. by split; [left|].
Qed.

Lemma requested_refs_spec d requested :
  extract_requested_refs d = (requested, []) ↔ (¬ key_in unsupported_key true (PDict d)) ∧ requests d requested.
Proof.
  unfold extract_requested_refs, requests. rewrite <- (key_paths_nil _ _ _ range_path).
  set (U := map UnsupportedCollection _). assert (U = [] ↔ key_paths unsupported_key true range_path (PDict d) = []) as HU.
  { unfold U. destruct (key_paths _ _ _ _); naive_solver. }
  rewrite <- HU. clearbody U. clear HU.
  assert (∀ l, (let '(refs, vs) := named_refs (indexed (range_path ++ ".manifest_snapshot_refs") l) in
    (refs, (U ++ vs ++ if bool_decide (refs = ∅) then [NoRequestedRef] else [])%list)) = (requested, []) ↔
    U = [] ∧ names_refs l requested) as Hseq.
  { intros l. pose proof (named_refs_spec (indexed (range_path ++ ".manifest_snapshot_refs") l) requested) as Hn.
    rewrite indexed_snd in Hn. destruct l as [|v l].
    - cbn. rewrite bool_decide_true by done. split; [intros [= _ E]; by destruct U|]. by intros (_ & ? & _).
    - specialize (Hn ltac:(done)). destruct (named_refs _) as [refs vs]. split.
      + intros [= -> E]. apply app_nil in E as [-> [-> _]%app_nil]. split; [done|]. by apply Hn.
      + intros [-> Hr]. pose proof (names_refs_inhabited _ _ Hr). apply Hn in Hr as [= -> ->].
        by rewrite bool_decide_false. }
  destruct (default PNone (pget "manifest_snapshot_refs" d)); try apply Hseq;
    try (split; [intros [= _ E]; by apply app_nil in E as [_ ?]|by intros [_ ?]]).
  split; [intros [= <- ->]; done|intros [-> ->]; done].
Qed.

Lemma lookup_string_spec d k o : lookup_string d k = (o, []) ↔ given k d o.
Proof.
  unfold lookup_string, given. destruct (pget k d) as [v|]; [|naive_solver].
  destruct (normalize_cases v (range_path ++ "." ++ k)) as [(t & Ht & ->)|(Hno & x & ->)].
  - split; [intros [= <-]; eauto|]. intros (s & -> & Hs). by rewrite (nonblank_inj _ _ _ Hs Ht).
  - split; [done|]. intros (s & _ & Hs). by destruct (Hno s).
Qed.

Lemma manifest_lookup_spec d cycle ref :
  extract_manifest_lookup d = (Some (cycle, ref), []) ↔ looks_up d cycle ref.
Proof.
  unfold extract_manifest_lookup, looks_up. rewrite <- !lookup_string_spec.
  destruct (phas "manifest_cycle_id" d) eqn:E1, (phas "manifest_ref" d) eqn:E2; cbn [negb andb].
  4: { split; [done|]. rewrite !lookup_string_spec. unfold given, phas in *.
       destruct (pget "manifest_cycle_id" d); [done|]. destruct (pget "manifest_ref" d); [done|]. naive_solver. }
  all: destruct (lookup_string d "manifest_cycle_id") as [c vs1], (lookup_string d "manifest_ref") as [r vs2];
    split; [|intros ([= -> ->] & [= -> ->] & Hn); destruct cycle, ref; naive_solver];
    destruct c, r; intros E; try discriminate E; simplify_eq;
    match goal with Hv : (_ ++ _)%list = [] |- _ => apply app_nil in Hv as [-> ->] end; naive_solver.
Qed.

Lemma add_metadata_fold d keys acc :
  let r := fold_left (add_metadata d) keys acc in
  (r.2 = [] ↔ acc.2 = [] ∧ ∀ k v, k ∈ keys → pget k d = Some v → ∃ s, nonblank v s) ∧
  ∀ s, s ∈ r.1 ↔ s ∈ acc.1 ∨ ∃ k v, k ∈ keys ∧ pget k d = Some v ∧ nonblank v s.
Proof.
  revert acc. induction keys as [|k keys IH]; intros [values vs]; cbn [fold_left].
  - split; [|intros s]; split; try naive_solver.
    + intros E. split; [done|]. intros k v Hk. by apply not_elem_of_nil in Hk.
    + intros [?|(k & v & Hk & _)]; [done|]. by apply not_elem_of_nil in Hk.
  - destruct (IH (add_metadata d (values, vs) k)) as [H1 H2]. rewrite H1. setoid_rewrite H2. setoid_rewrite elem_of_cons.
    unfold add_metadata. cbn [fst snd]. destruct (pget k d) as [v|] eqn:Ek; [|naive_solver].
    destruct (normalize_cases v ("$.authoritative_manifest." ++ k)) as [(t & Ht & ->)|(Hno & x & ->)]; cbn [fst snd].
    + split; [naive_solver|]. intros s. rewrite elem_of_app, list_elem_of_singleton.
      split; [naive_solver|]. intros [?|(k' & u & [->|?] & Hu & Hs)]; [by auto| |by eauto 8].
      rewrite Ek in Hu. injection Hu as <-. rewrite (nonblank_inj _ _ _ Hs Ht). auto.
    + split; [rewrite app_nil; naive_solver|]. intros s. naive_solver.
Qed.

(** At most one value. *)
Lemma small_set (l : list string) :
  (1 <? Z.of_nat (size (list_to_set l : gset string))) = false ↔ ∀ x y, x ∈ l → y ∈ l → x = y.
Proof.
  rewrite Z.ltb_ge. split.
  - intros Hs x y Hx Hy. destruct (decide (x = y)) as [|Hne]; [done|].
    assert (({[x]} ∪ {[y]} : gset string) ⊆ list_to_set l) as Hsub by set_solver.
    apply subseteq_size in Hsub. rewrite size_union in Hsub by set_solver. rewrite !size_singleton in Hsub. lia.
  - intros Hl. destruct l as [|x l]; [done|]. assert ((list_to_set (x :: l) : gset string) = {[x]}) as ->.
    { apply set_eq. intros y. rewrite elem_of_list_to_set, elem_of_singleton. split; [|intros ->; left].
      intros Hy. apply Hl; [done|left]. }
    by rewrite size_singleton.
Qed.

Lemma metadata_string_spec raw keys o : metadata_string raw keys = (o, []) ↔ metadata raw keys o.
Proof.
  destruct raw as [| | | | | | |d|]; try (cbn; naive_solver).
  unfold metadata_string, metadata. destruct (add_metadata_fold d keys ([], [])) as [H1 H2].
  destruct (fold_left _ _ _) as [values vs]. cbn [fst snd] in *.
  destruct (1 <? _) eqn:E.
  - split; [intros [= _ E']; by apply app_nil in E' as [_ ?]|]. intros [Hall _].
    rewrite (proj2 (small_set values)) in E; [done|]. intros x y Hx Hy. apply H2 in Hx, Hy.
    destruct Hx as [[]%not_elem_of_nil|(k & v & Hk & Hv & Hx)], Hy as [[]%not_elem_of_nil|(k' & v' & Hk' & Hv' & Hy)].
    destruct (Hall _ _ Hk Hv) as (s & Hs & ->). destruct (Hall _ _ Hk' Hv') as (s' & Hs' & [= <-]).
    rewrite (nonblank_inj _ _ _ Hx Hs). exact (nonblank_inj _ _ _ Hs' Hy).
  - rewrite small_set in E. split.
    + intros [= <- ->]. destruct (proj1 H1 eq_refl) as [_ Hok]. split.
      * intros k v Hk Hv. destruct (Hok k v Hk Hv) as [s Hs]. exists s. split; [done|].
        assert (s ∈ values) as Hin by (apply H2; right; eauto). destruct values as [|x values]; [by apply not_elem_of_nil in Hin|].
        cbn. f_equal. apply E; [left|done].
      * intros Hnone. destruct values as [|x values]; [done|].
        destruct (proj1 (H2 x) ltac:(left)) as [[]%not_elem_of_nil|(k & v & Hk & Hv & _)]. rewrite Hnone in Hv by done. done.
    + intros [Hall Hnone]. f_equal; [|apply H1; split; [done|]; intros k v Hk Hv; destruct (Hall k v Hk Hv) as (s & ? & _); eauto].
      destruct values as [|x values]; cbn.
      * symmetry. apply Hnone. intros k Hk. destruct (pget k d) as [v|] eqn:Ev; [|done].
        destruct (Hall k v Hk Ev) as (s & Hs & _). exfalso. apply (not_elem_of_nil s), H2. right. eauto.
      * destruct (proj1 (H2 x) ltac:(left)) as [[]%not_elem_of_nil|(k & v & Hk & Hv & Hx)].
        destruct (Hall k v Hk Hv) as (s & Hs & ->). by rewrite (nonblank_inj _ _ _ Hx Hs).
Qed.

Lemma authoritative_refs_spec v refs : authoritative_refs v = (refs, []) ↔ collection v refs.
Proof.
  destruct v as [| | | | |l|l|d|]; try (cbn; naive_solver).
  1, 2: destruct l as [|v l]; [split; [done|by intros (? & _)]|].
  3: destruct d as [|kv d]; [split; [done|by intros (? & _)]|].
  1, 2: cbn [authoritative_refs collection]; rewrite <- (indexed_snd authority_path (v :: l)) at 2;
    apply named_refs_spec; by rewrite indexed_snd.
  cbn [authoritative_refs collection].
  set (named := map _ (kv :: d)). assert (map snd named = map snd (kv :: d)) as <- by (unfold named; rewrite map_map; done).
  by apply named_refs_spec.
Qed.

Lemma authority_spec raw m : normalize_authoritative_manifest raw = (m, []) ↔ authority raw m.
Proof.
  unfold normalize_authoritative_manifest, authority.
  rewrite <- !metadata_string_spec, <- authoritative_refs_spec.
  destruct (metadata_string raw ["published_cycle_id"; "manifest_cycle_id"]) as [c vs1],
    (metadata_string raw ["manifest_ref"]) as [r vs2], (authoritative_refs _) as [refs vs3].
  destruct m as [refs' c' r']; cbn. split; [|naive_solver].
  intros [= -> -> -> [-> [-> ->]%app_nil]%app_nil]. done.
Qed.

Lemma mismatch_nil f returned requested :
  mismatch f returned requested = [] ↔ ∀ q r, requested = Some q → returned = Some r → r = q.
Proof.
  destruct requested as [q|], returned as [r|]; cbn; try naive_solver.
  destruct (String.eqb_spec r q); naive_solver.
Qed.

Lemma binding_spec m cycle ref : binding_violations m cycle ref = [] ↔ bound m cycle ref.
Proof.
  unfold binding_violations, bound. rewrite !app_nil, !mismatch_nil.
  destruct cycle, ref, (published_cycle_id m); naive_solver.
Qed.

Lemma not_returned_spec (requested refs : gset string) :
  map RefNotReturned (sorted_set (requested ∖ refs)) = [] ↔ requested ⊆ refs.
Proof.
  transitivity (sorted_set (requested ∖ refs) = []); [destruct (sorted_set _); naive_solver|].
  rewrite sorted_set_nil. split; [|set_solver]. intros E s Hs. destruct (decide (s ∈ refs)); [done|set_solver].
Qed.

Lemma forbidden_paths_spec v path : forbidden_field_paths v path = [] ↔ ¬ key_in forbidden_key true v.
Proof. apply key_paths_nil. Qed.

Lemma availability_forbidden_path r path path' : availability_forbidden r path = [] → availability_forbidden r path' = [].
Proof.
  unfold availability_forbidden. destruct r as [d|d]; [by rewrite !forbidden_paths_spec|].
  destruct (default _ _) as [[]|]; by rewrite ?forbidden_paths_spec.
Qed.

Lemma row_violations_spec path f refs r :
  row_violations path f refs r = [] ↔
  nonblank (plain_cell (availability_value r "feature_ref")) f ∧
  (∃ s, nonblank (plain_cell (availability_value r "snapshot_ref")) s ∧ s ∈ refs) ∧
  ∃ aware as_of available_at, availability_value r "as_of" = Moment aware as_of ∧
    availability_value r "available_at" = Moment aware available_at ∧ available_at ≤ as_of.
Proof.
  unfold row_violations.
  destruct (normalize_cases (plain_cell (availability_value r "feature_ref")) (path ++ ".feature_ref"))
    as [(g & Hg & ->)|(Hno & x & ->)]; [|split; [by destruct (normalize_optional_string _ (path ++ ".snapshot_ref"))|]; intros (Hf & _); by destruct (Hno f)].
  destruct (normalize_cases (plain_cell (availability_value r "snapshot_ref")) (path ++ ".snapshot_ref"))
    as [(s & Hs & ->)|(Hno & x & ->)]; [|split; [intros E; apply app_nil in E as [_ [_ [? _]%app_nil]%app_nil]; done|];
      intros (_ & (s & Hs & _) & _); by destruct (Hno s)].
  rewrite !app_nil. split.
  - intros (_ & Hf & _ & Ha & Hb & _ & Ht & Hr). destruct (String.eqb_spec g f) as [->|]; [|done].
    case_bool_decide; [|done]. split_and!; [done|by exists s|].
    destruct (availability_value r "as_of") as [|a t]; [done|]. destruct (availability_value r "available_at") as [|a' t']; [done|].
    cbn in Ht. destruct (Bool.eqb a a') eqn:E; [|done]. apply Bool.eqb_prop in E as ->.
    destruct (t <? t') eqn:E; [done|]. exists a', t, t'. split_and!; [done..|lia].
  - intros (Hf & (s' & Hs' & Hin) & a & t & t' & -> & -> & Hle). rewrite (nonblank_inj _ _ _ Hg Hf), String.eqb_refl.
    rewrite (nonblank_inj _ _ _ Hs Hs'), bool_decide_true by done. split_and!; try done.
    cbn. rewrite Bool.eqb_reflx. cbn. by rewrite (proj2 (Z.ltb_ge _ _)) by done.
Qed.

Lemma validate_row_spec i f refs r :
  validate_availability_row i f refs r = Ok [] ↔ known_in_time f refs r.
Proof.
  unfold validate_availability_row, known_in_time. rewrite <- (row_violations_spec (row_path i)).
  destruct (availability_forbidden r (row_path i)) eqn:E.
  - split; [intros [= Hv]; split; [|done]; intros p; by eapply availability_forbidden_path|].
    by intros [_ ->].
  - split; [done|]. intros [Hall _]. by rewrite Hall in E.
Qed.

Lemma rmap_list_nils {A B} (f : nat → A → result exn (list B)) l :
  (∃ found, rmap_list id (imap f l) = Ok found ∧ concat found = []) ↔ (∀ i x, l !! i = Some x → f i x = Ok []).
Proof.
  revert f. induction l as [|x l IH]; intros f; [split; [done|]; intros _; by exists []|].
  specialize (IH (f ∘ S)). cbn [imap rmap_list]. unfold id at 1. split.
  - intros (found & E & Hc). rinv. cbn in Hc. apply app_nil in Hc as [-> Hc].
    intros [|i] y Hy; [by injection Hy as <-|]. by eapply (proj1 IH); [eexists|].
  - intros Hall. rewrite (Hall O x eq_refl). cbn. destruct (proj2 IH) as (found & -> & Hc); [intros i; exact (Hall (S i))|].
    by eexists.
Qed.

Lemma validate_rows_spec f refs rows :
  validate_rows f refs rows = Ok [] ↔ Forall (known_in_time f refs) rows.
Proof.
  unfold validate_rows. rewrite Forall_lookup.
  transitivity (∃ found, rmap_list id (imap (λ i r, validate_availability_row i f refs r) rows) = Ok found ∧ concat found = []).
  - rewrite rbind_ok. split; intros (found & E & Hc); exists found; [by injection Hc|by rewrite Hc].
  - rewrite rmap_list_nils. by setoid_rewrite validate_row_spec.
Qed.

Section passes.
Context {W : Type}.
Implicit Types (w : W) (vs : list violation).

Lemma attempt_ok {A} (m : program exn W A) w a w' : attempt m w = (Ok (inl a), w') ↔ m w = (Ok a, w').
Proof. unfold attempt. destruct (m w) as [[x|e] w1]; [|destruct (caught e)]; naive_solver. Qed.

Lemma failed_passes vs vs' w w' : ¬ failed vs w = (Ok (mkPitResult true vs'), w').
Proof. done. Qed.

Lemma check_rows_passes load f range refs vs w vs' w' :
  check_rows load f range refs vs w = (Ok (mkPitResult true vs'), w') ↔
  vs = [] ∧ vs' = [] ∧ ∃ rows, load f range w = (Ok rows, w') ∧ rows ≠ [] ∧ Forall (known_in_time f refs) rows.
Proof.
  unfold check_rows. rewrite pbind_ok. setoid_rewrite <- validate_rows_spec. split.
  - intros (loaded & w1 & Ha & E). destruct loaded as [[|r rows]|e]; [done| |done].
    rewrite attempt_ok in Ha. apply pbind_ok in E as (found & w2 & [= Hf <-] & E).
    injection E as Hb <- <-. apply bool_decide_eq_true in Hb. rewrite Hb. apply app_nil in Hb as [-> ->].
    split_and!; [done..|]. by exists (r :: rows).
  - intros (-> & -> & rows & Hl & Hne & Hf). exists (inl rows), w'. rewrite attempt_ok. split; [done|].
    destruct rows as [|r rows]; [done|]. unfold pbind, lift. by rewrite Hf.
Qed.

Lemma check_manifest_passes load_refs load_rows f range cycle ref requested vs w vs' w' :
  check_manifest load_refs load_rows f range cycle ref requested vs w = (Ok (mkPitResult true vs'), w') ↔
  vs = [] ∧ vs' = [] ∧ ∃ raw m w1 rows,
    load_refs match ref with None => cycle | Some _ => None end ref w = (Ok raw, w1) ∧
    authority raw m ∧ bound m cycle ref ∧ requested ⊆ snapshot_refs m ∧
    load_rows f range w1 = (Ok rows, w') ∧ rows ≠ [] ∧ Forall (known_in_time f (snapshot_refs m)) rows.
Proof.
  unfold check_manifest. rewrite pbind_ok. split.
  - intros ([raw|e] & w1 & Ha & E); [|done]. rewrite attempt_ok in Ha.
    destruct (normalize_authoritative_manifest raw) as [m vs1] eqn:En.
    case_bool_decide as Hempty; [done|]. case_bool_decide as H2; [|done]. cbn [orb negb] in E.
    case_bool_decide as H3; [|done]. cbn [negb] in E.
    apply check_rows_passes in E as (Hvs & -> & rows & Hl & Hne & Hf).
    apply app_nil in Hvs as [-> _]. apply app_nil in H2 as [-> Hb].
    split_and!; [done..|]. exists raw, m, w1, rows.
    rewrite <- authority_spec, <- binding_spec, <- not_returned_spec. split_and!; done.
  - intros (-> & -> & raw & m & w1 & rows & Ha & Hm & Hb & Hs & Hl & Hne & Hf).
    exists (inl raw), w1. rewrite attempt_ok. split; [done|].
    assert (snapshot_refs m ≠ ∅) as Hi.
    { destruct Hm as (_ & _ & Hc). destruct (authoritative_payload raw); try done; by eapply names_refs_inhabited. }
    apply authority_spec in Hm as ->. apply binding_spec in Hb as ->. apply not_returned_spec in Hs as ->.
    rewrite bool_decide_false by done. cbn. apply check_rows_passes. by eauto 8.
Qed.

Lemma check_passes_iff (c : PointInTimeChecker W) feature_ref range w vs w' :
  validate c feature_ref range w = (Ok (mkPitResult true vs), w') ↔
  vs = [] ∧ ∃ d, range = PDict d ∧ point_in_time c feature_ref d w w'.
Proof.
  unfold validate. split.
  - destruct (normalize_optional_string feature_ref "feature_ref") as [f vs1] eqn:Ef.
    destruct range as [| | | | | | |d|]; try done.
    destruct (forbidden_field_paths (PDict d) range_path) eqn:Hforb; [|done]. apply forbidden_paths_spec in Hforb.
    destruct (extract_requested_refs d) as [requested vs2] eqn:Er, (extract_manifest_lookup d) as [lookup vs3] eqn:El.
    destruct (gateway c) as [load_rows|] eqn:Eg; [|done]. destruct f as [f|]; [|done].
    destruct lookup as [[cycle ref]|]; [|done]. destruct (manifest_gateway c) as [load_refs|] eqn:Em; [|done].
    intros (Hvs & -> & raw & m & w1 & rows & Hrest)%check_manifest_passes. split; [done|]. exists d. split; [done|].
    apply app_nil in Hvs as [-> [-> [-> _]%app_nil]%app_nil].
    apply normalize_some in Ef as [Hf _]. apply requested_refs_spec in Er as [Hu Hr]. apply manifest_lookup_spec in El.
    exists load_rows, load_refs, f, requested, cycle, ref, raw, m, w1, rows. tauto.
  - intros (-> & d & -> & load_rows & load_refs & f & requested & cycle & ref & raw & m & w1 & rows &
      -> & -> & Hf & Hforb & Hu & Hr & Hl & Hrest).
    rewrite (proj2 (normalize_some feature_ref "feature_ref" f []) (conj Hf eq_refl)).
    rewrite (proj2 (forbidden_paths_spec (PDict d) range_path) Hforb).
    rewrite (proj2 (requested_refs_spec d requested) (conj Hu Hr)), (proj2 (manifest_lookup_spec d cycle ref) Hl).
    apply check_manifest_passes. split_and!; [done..|]. by exists raw, m, w1, rows.
Qed.

(** C19: the point-in-time check passes exactly when its conditions hold: both
    gateways are configured; the feature reference is a string that is not
    blank; no field that may not be written and no collection of snapshots
    but the top-level one occurs at any depth of the requested range; the
    manifest, looked up by its reference if one is given and else by its
    cycle, names its snapshots and no other cycle or reference than the
    requested ones, and proves its cycle when both are given; the requested
    snapshots are among the manifest's; and there are rows of the feature, each
    bound to a snapshot of the manifest, whose data was available at the moment
    it is used for. A check that passes reports no violation. *)
Theorem check_passes_exactly_in_time (c : PointInTimeChecker W) feature_ref range w vs w' :
  validate c feature_ref range w = (Ok (mkPitResult true vs), w') ↔
  vs = [] ∧ ∃ d, range = PDict d ∧ point_in_time c feature_ref d w w'.
Proof. apply check_passes_iff. Qed.
End passes.
End conditions.

(** ** A run of a backtest *)
Module BacktestRun.
Import Backtest.
Section run.
Context `{PyText} {W : Type}.
Implicit Types (w : W).

(** Whether the outermost mapping is looked at as such makes no difference here. *)
Lemma forbidden_root v root root' : key_in forbidden_key root v → key_in forbidden_key root' v.
Proof. intros Hk. inversion Hk; subst; [by eapply key_here|by eapply key_inside|by eapply key_item|by eapply key_item_tuple]. Qed.

Definition clean (v : pyval) : Prop := ¬ key_in forbidden_key true v.

Lemma assert_spec v path : assert_no_forbidden_write v path = Ok () ↔ clean v.
Proof.
  unfold clean. rewrite <- (forbidden_paths_spec v path). unfold assert_no_forbidden_write.
  by destruct (forbidden_field_paths v path).
Qed.

Lemma payload_clean id job_ref engine feature_ref range metrics passed :
  clean (PDict range) → clean (PDict metrics) → clean (result_payload id job_ref engine feature_ref range metrics passed).
Proof.
  intros Hr Hm (k & x & Hin & Hor)%key_in_dict. unfold result_payload in Hin.
  repeat apply elem_of_cons in Hin as [[= -> ->]|Hin]; try (by apply not_elem_of_nil in Hin);
    destruct Hor as [Hk|Hk]; try discriminate Hk; try (inversion Hk; fail); by apply (forbidden_root _ _ true) in Hk.
Qed.

(** What an adapter's answer must be. *)
Definition acceptable (d : pdict) : Prop := d ≠ [] ∧ clean (PDict d) ∧ json_error (PDict d) = None.

Lemma validate_metrics_spec v d : validate_metrics_object v = Ok d ↔ v = PDict d ∧ acceptable d.
Proof.
  unfold acceptable. destruct v as [| | | | | | |d'|]; try (cbn; naive_solver).
  unfold validate_metrics_object. rewrite <- (assert_spec (PDict d) "$.backtest_metrics"). split.
  - intros E. rinv. split; [done|]. destruct d; [done|]. split_and!; [done..|]. by destruct (json_error _).
  - intros ([= ->] & Hne & Ha & Hj). destruct d; [done|]. by rewrite Ha, Hj.
Qed.

Lemma validate_metrics_errors v e : validate_metrics_object v = Err e → ∃ m, e = BacktestRunnerError m.
Proof.
  destruct v as [| | | | | | |d|]; try (intros [= <-]; by eexists). unfold validate_metrics_object.
  destruct d as [|kv d]; [intros [= <-]; by eexists|]. cbn [guard_err rbind].
  destruct (assert_no_forbidden_write _ _); [|intros [= <-]; by eexists]. cbn [map_err rbind].
  destruct (json_error _); [intros [= <-]; by eexists|done].
Qed.

Lemma backtest_result_cases id job_ref engine feature_ref range d created :
  clean (PDict range) → clean (PDict d) →
  make_backtest_result id job_ref engine feature_ref range d true created =
    Ok (mkResult (strip id) (strip job_ref) engine (strip feature_ref) range d true created) ∨
  make_backtest_result id job_ref engine feature_ref range d true created = Err ValidationError.
Proof.
  intros Hr Hd. unfold make_backtest_result.
  rewrite (proj2 (assert_spec _ "$") (payload_clean id job_ref engine feature_ref range d true Hr Hd)).
  cbn [rbind]. destruct (_ || _); [by right|]. cbn [guard_err rbind].
  rewrite (proj2 (assert_spec _ _) Hr), (proj2 (assert_spec _ _) Hd). cbn [rbind].
  rewrite (proj2 (assert_spec _ "$") (payload_clean (strip id) (strip job_ref) engine (strip feature_ref) range d true Hr Hd)).
  by left.
Qed.

(** The storage is asked at most once, for the result; what goes wrong is a
    storage error. *)
Lemma persist_cases res storage w r w' :
  clean (PDict (res_range res)) → clean (PDict (metrics res)) → pit_check_passed res = true →
  persist_backtest_result res storage w = (r, w') →
  (∃ append, storage = Some append ∧
     match r with
     | Ok id => id = backtest_id res ∧ append res w = (Ok id, w')
     | Err e => (∃ m, e = BacktestStorageError m) ∧ ∃ answer, append res w = (answer, w')
     end) ∨
  (w' = w ∧ ∃ m, r = Err (BacktestStorageError m)).
Proof.
  intros Hr Hm Hp. unfold persist_backtest_result. rewrite Hp. unfold pbind at 1. cbn [lift guard_err negb].
  unfold pbind at 1, lift at 1.
  rewrite (proj2 (assert_spec (backtest_dump res) _) (payload_clean _ _ _ _ _ _ _ Hr Hm)). cbn [map_err].
  destruct storage as [append|]; [|intros [= <- <-]; right; eauto].
  intros [(id & w1 & Ha & E)|(e & Ha & ->)]%pbind_cases; left; exists append; (split; [done|]);
    apply map_raise_cases in Ha as (r1 & Ha & Er); destruct r1 as [id1|e1]; try discriminate Er; cbn in Er.
  - injection Er as <-. unfold pbind, lift in E. destruct (String.eqb_spec id (backtest_id res)) as [->|Hne]; cbn in E;
      injection E as <- <-; [by split|]. split; [eauto|]. by eexists.
  - injection Er as ->. split; [|by eexists]. destruct e1; cbn; eauto.
Qed.

Lemma adapter_cases compute job w r w' :
  run_metrics_adapter (W:=W) compute job w = (r, w') →
  ∃ raw, compute (feature_ref job) (formal_snapshot_range job) (metrics_config job) w = (raw, w') ∧
    match r with
    | Ok d => raw = Ok (PDict d) ∧ acceptable d
    | Err e => ∃ m, e = BacktestRunnerError m
    end.
Proof.
  unfold run_metrics_adapter. intros [(v & w1 & Ha & E)|(e & Ha & ->)]%pbind_cases;
    apply map_raise_cases in Ha as (raw & Ha & Er); exists raw.
  - injection E as <- <-. split; [done|]. destruct raw as [v'|]; [|done]. injection Er as ->.
    destruct (validate_metrics_object v') eqn:Ev; [|by eapply validate_metrics_errors].
    by apply validate_metrics_spec in Ev as [-> ?].
  - split; [done|]. destruct raw as [|e']; [done|]. injection Er as ->. destruct e'; cbn; eauto.
Qed.

(** ** What a run may do *)
Definition offline (job : BacktestJob) : bool := String.eqb (run_mode job) offline_mode && bool_decide (engine job ∈ backtest_engines).

(** The state once the check is over, without what comes behind it. *)
Definition checked_state (job : BacktestJob) (pit_checker : option (PointInTimeChecker W)) (w : W) : W :=
  match pit_checker with
  | Some c => if offline job then (validate c (PStr (feature_ref job)) (PDict (formal_snapshot_range job)) w).2 else w
  | None => w
  end.

(** The result published for a job and the metrics [d]. *)
Definition result_for (job : BacktestJob) (d : pdict) (created : Z) : BacktestResult :=
  mkResult (strip (new_backtest_id job created)) (strip (job_ref job)) (engine job) (strip (feature_ref job))
    (formal_snapshot_range job) d true created.

Definition storage_asked (storage : option (BacktestResult → program exn W string)) (res : BacktestResult)
    (w : W) (answer : result exn string) (w' : W) : Prop :=
  ∃ append, storage = Some append ∧ append res w = (answer, w').

(** From the adapter on: it answered in [w2]. *)
Definition published (job : BacktestJob) (storage : option (BacktestResult → program exn W string)) (created : Z)
    (raw : result exn pyval) (w2 : W) (r : result exn BacktestResult) (w' : W) : Prop :=
  match r with
  | Ok res => ∃ d, raw = Ok (PDict d) ∧ acceptable d ∧ res = result_for job d created ∧
      storage_asked storage res w2 (Ok (backtest_id res)) w'
  | Err e =>
      (w' = w2 ∧ (e = ValidationError ∨ (∃ m, e = BacktestRunnerError m) ∨ ∃ m, e = BacktestStorageError m)) ∨
      (∃ d answer m, raw = Ok (PDict d) ∧ acceptable d ∧ e = BacktestStorageError m ∧
         storage_asked storage (result_for job d created) w2 answer w')
  end.

(** C13: whatever a backtest does, its metrics adapter is reached only after the
    point-in-time check has passed, and the storage only with the result made
    of metrics the adapter returned: a run either ends without a result in the
    state the check left, or the job is an offline one, the conditions of the
    check hold, the adapter is asked once for the feature and range checked,
    and then either the storage has accepted the result under its own
    identifier and that result is returned, or the run ends in a runner, a
    storage or a validation error; no forbidden field can be met this far. *)
Theorem storage_is_behind_the_check alphalens now job pit_checker adapter storage created w r w' :
  run_backtest alphalens now job pit_checker adapter storage created w = (r, w') →
  (is_ok r = false ∧ w' = checked_state job pit_checker w) ∨
  (offline job = true ∧ ∃ c w1 compute raw w2, pit_checker = Some c ∧
     point_in_time c (PStr (feature_ref job)) (formal_snapshot_range job) w w1 ∧
     chosen_adapter alphalens job adapter = Ok compute ∧
     compute (feature_ref job) (formal_snapshot_range job) (metrics_config job) w1 = (raw, w2) ∧
     published job storage (default now created) raw w2 r w').
Proof.
  unfold run_backtest, checked_state, offline, validate_offline_job.
  destruct (String.eqb (run_mode job) offline_mode); cbn [negb guard_err rbind andb];
    [|intros [= <- <-]; left; split; [done|by destruct pit_checker]].
  case_bool_decide as Heng; cbn [negb guard_err rbind];
    [|intros [= <- <-]; left; split; [done|by destruct pit_checker]].
  unfold pbind at 1, lift at 1. destruct pit_checker as [c|]; [|intros [= <- <-]; by left].
  intros [([ok vs] & w1 & Hcheck & E)|(e & Hcheck & ->)]%pbind_cases; [|left; split; [done|by rewrite Hcheck]].
  unfold pbind at 1, lift at 1 in E. cbn [passed] in E.
  destruct ok; cbn [negb guard_err] in E; [|injection E as <- <-; left; split; [done|by rewrite Hcheck]].
  assert (point_in_time c (PStr (feature_ref job)) (formal_snapshot_range job) w w1) as Hpit.
  { apply check_passes_iff in Hcheck as (_ & d & [= <-] & Hp). done. }
  unfold pbind at 1, lift at 1 in E.
  destruct (chosen_adapter alphalens job adapter) as [compute|e] eqn:Ec; [|injection E as <- <-; left; split; [done|by rewrite Hcheck]].
  right. split; [done|]. exists c, w1, compute.
  assert (clean (PDict (formal_snapshot_range job))) as Hr by (destruct Hpit as (? & ? & ? & ? & ? & ? & ? & ? & ? & ? & ? & ? & ? & Hf & _); exact Hf).
  apply pbind_cases in E as [(d & w2 & Ha & E)|(e & Ha & ->)]; apply adapter_cases in Ha as (raw & Ha & Hraw);
    exists raw; [exists w2|exists w']; split_and!; try done; unfold published.
  2: { left. auto. }
  destruct Hraw as [-> Hacc]. unfold pbind at 1, lift at 1 in E.
  destruct (backtest_result_cases (new_backtest_id job (default now created)) (job_ref job) (engine job) (feature_ref job)
    (formal_snapshot_range job) d (default now created) Hr (proj1 (proj2 Hacc))) as [Em|Em];
    rewrite Em in E; [|injection E as <- <-; left; auto].
  fold (result_for job d (default now created)) in E.
  apply pbind_cases in E as [(id & w3 & Hp & [= <- <-])|(e & Hp & ->)];
    apply persist_cases in Hp as [(append & Hs & Hp)|(-> & m & E)]; try done; try apply Hacc.
  - destruct Hp as [-> Hp]. exists d. split_and!; [done..|]. by exists append.
  - destruct Hp as [(m & ->) [answer Hp]]. right. exists d, answer, m. split_and!; [done..|]. by exists append.
  - left. split; [done|]. right. right. injection E as ->. by exists m.
Qed.
End run.
End BacktestRun.

(** ** Runs *)
Module BacktestExamples.
Import Backtest PitMemory BacktestRun.

#[local] Instance plain_text : PyText.
Proof.
  refine {| py_str v := match v with PStr s => s | PInt z => pretty z | _ => "object" end;
            json_quote s := s; json_float f := "0.0"; isoformat t := pretty t; sha256 s := Z.of_nat (String.length s) * 2 ^ 240 |}.
  done.
Defined.

(** The gateways in memory, and a storage that keeps what it is given. *)
Definition world : Type := pit_memory * list BacktestResult.
Definition in_memory {A} (m : program exn pit_memory A) : program exn world A :=
  λ w, let '(r, mem) := m w.1 in (r, (mem, w.2)).
Definition checker : PointInTimeChecker world :=
  mkChecker (Some (λ f range, in_memory (load_feature_availability f range)))
    (Some (λ cycle ref, in_memory (load_manifest_snapshot_refs cycle ref))).
Definition keep (res : BacktestResult) : program exn world string :=
  λ w, (Ok (backtest_id res), (w.1, w.2 ++ [res])%list).
Definition answers (v : pyval) : string → pdict → pdict → program exn world pyval := λ _ _ _, ret v.

Definition availability (feature : string) (available_at as_of : Z) (ref : string) : row :=
  ObjRow [("feature_ref", Value (PStr feature)); ("as_of", Moment true as_of);
          ("available_at", Moment true available_at); ("snapshot_ref", Value (PStr ref)); ("metadata", Value (PDict []))].
Definition the_memory : pit_memory :=
  mkMemory [("momentum", [availability "momentum" 10 20 "s1"; availability "momentum" 20 20 " s2 "]);
            ("leaky", [availability "leaky" 10 20 "s1"; availability "leaky" 21 20 "s2"])]
    [("c1", PDict [(PStr "published_cycle_id", PStr "c1"); (PStr "snapshot_refs", PList [PStr "s1"; PStr "s2"])])] [] [] [].
Definition the_world : world := (the_memory, []).
Definition by_cycle : pdict := [(PStr "manifest_cycle_id", PStr "c1"); (PStr "manifest_snapshot_refs", PList [PStr "s1"])].
Definition job (feature : string) (range : pdict) : BacktestJob := mkJob "job" feature range "alphalens" "offline_research" [].
Definition run (j : BacktestJob) (metrics : pyval) : result exn BacktestResult * world :=
  run_backtest (answers PNone) 0 j (Some checker) (Some (answers metrics)) (Some keep) (Some 7) the_world.
Definition ic : pyval := PDict [(PStr "ic", PInt 1)].

(** A run in time is stored under its digest, after one look at each gateway. *)
Example in_time :
  let '(r, w) := run (job "momentum" by_cycle) ic in
  r = Ok (result_for (job "momentum" by_cycle) [(PStr "ic", PInt 1)] 7) ∧
  w.2 = [result_for (job "momentum" by_cycle) [(PStr "ic", PInt 1)] 7] ∧
  manifest_calls w.1 = [(Some "c1", None)] ∧ feature_calls w.1 = [("momentum", PDict by_cycle)].
Proof. vm_compute. done. Qed.

(** Data that became available after the moment it is used for. *)
Example look_ahead :
  run (job "leaky" by_cycle) ic =
  (Err (PITViolationError [LookAheadBias "$.availability[1]" 21 20]), checked_state (job "leaky" by_cycle) (Some checker) the_world).
Proof. vm_compute. done. Qed.

(** A collection of snapshots smuggled in below the top level. *)
Example nested_snapshots :
  (run (job "momentum" (by_cycle ++ [(PStr "extra", PList [PDict [(PStr "snapshot_refs", PList [PStr "s9"])]])])%list) ic).1 =
  Err (PITViolationError [UnsupportedCollection "$.formal_snapshot_range.extra[0].snapshot_refs"]).
Proof. vm_compute. done. Qed.

(** A reference that is not bound to its cycle. *)
Example unproven_cycle :
  let w : world := (mkMemory [("momentum", [availability "momentum" 10 20 "s1"])] [] [("r1", PList [PStr "s1"])] [] [], []) in
  (validate checker (PStr "momentum") (PDict [(PStr "manifest_cycle_id", PStr "c1"); (PStr "manifest_ref", PStr "r1")]) w).1 =
  Ok (mkPitResult false [CycleUnproven]).
Proof. vm_compute. done. Qed.

(** Metrics with keys that are no strings can be written as JSON and are refused
    by the result only. *)
Example integer_keys : (run (job "momentum" by_cycle) (PDict [(PInt 5, PInt 1)])).1 = Err ValidationError.
Proof. vm_compute. done. Qed.

Lemma storage_is_behind_the_check_witness :
  let j := job "momentum" by_cycle in
  offline j = true ∧
  ∃ c w1 compute raw w2, Some checker = Some c ∧ point_in_time c (PStr "momentum") by_cycle the_world w1 ∧
    chosen_adapter (answers PNone) j (Some (answers ic)) = Ok compute ∧
    compute "momentum" by_cycle [] w1 = (raw, w2) ∧
    published j (Some keep) 7 raw w2 (run j ic).1 (run j ic).2.
Proof.
  destruct (storage_is_behind_the_check (answers PNone) 0 (job "momentum" by_cycle) (Some checker) (Some (answers ic)) (Some keep)
    (Some 7) the_world (run (job "momentum" by_cycle) ic).1 (run (job "momentum" by_cycle) ic).2) as [[H _]|H].
  - exact (surjective_pairing _).
  - vm_compute in H. discriminate H.
  - exact H.
Defined.
End BacktestExamples.
