(* ===== verification/MainCore.v ===== *)
(** * MainCore: the daily judgement, from market regime to recommendations

    [main_core]: the formal objects of [common/schemas] ([Schemas]), the shared
    market state of [l4_world_state] ([WorldState]), the alpha pool of
    [l5_universe] ([Universe]) and the recommendations of [l7_recommendation]
    ([Recommendations]). The analyses of [l6_alpha] are arguments. A formal
    object is immutable and [model_copy] validates again, so an object is a
    value and a copy a record that is validated. *)
From Stdlib Require Import String Ascii ZArith List SpecFloat.
From stdpp Require Import base gmap strings list sorting.
From S2P Require Import Prelude PyLib Numbers Programs.
Local Open Scope string_scope.
Local Open Scope Z_scope.

(** ** The formal objects *)
Module Schemas.

Inductive core_error :=
| MainCoreError (m : string)
| WorldStatePolicyError (m : string)
| WorldStateReasonerError
| GraphSnapshotError
| ManifestPublishError (m : string)
| ValidationError
| OtherException (m : string).
Definition is_main_core_error (e : core_error) : bool :=
  match e with ValidationError | OtherException _ => false | _ => true end.

Inductive regime := risk_off | neutral | risk_on.
#[export] Instance regime_dec : EqDecision regime.
Proof. solve_decision. Defined.
Definition regime_text (r : regime) : string :=
  match r with risk_off => "risk_off" | neutral => "neutral" | risk_on => "risk_on" end.
Definition REGIME_SEQUENCE : list regime := [risk_off; neutral; risk_on].
Definition regime_index (r : regime) : Z := match r with risk_off => 0 | neutral => 1 | risk_on => 2 end.
Definition regime_of (v : pyval) : option regime :=
  match v with
  | PStr s => List.find (λ r, String.eqb (regime_text r) s) REGIME_SEQUENCE
  | _ => None
  end.

Record FeatureSignalBundle := mkBundle {
  fb_cycle_id : string;
  fb_entity_id : string;
  feature_values : pydict spec_float;
  signal_values : pydict pyval;
  graph_features : pydict pyval;
  feature_weight_multiplier : pydict spec_float;
  generated_at : Z;
}.

Record WorldStateSnapshot := mkWorldState {
  ws_cycle_id : string;
  baseline_regime : regime;
  llm_delta : Z;
  final_regime : regime;
  llm_rationale : string;
  actual_model_used : string;
  actual_provider : string;
  fallback_path : list string;
}.
(** [Literal[-1, 0, 1]] and [validate_final_regime] *)
Definition world_state_valid (s : WorldStateSnapshot) : bool :=
  (-1 <=? llm_delta s) && (llm_delta s <=? 1) &&
  (regime_index (baseline_regime s) + llm_delta s =? regime_index (final_regime s)).

Record OfficialAlphaPool := mkPool {
  pool_cycle_id : string;
  observation_pool_size : Z;
  official_alpha_pool_capacity : Z;
  selected_entities : list string;
  added_entities : list string;
  removed_entities : list string;
  freeze_reason_map : pydict string;
}.
Definition pool_valid (p : OfficialAlphaPool) : bool :=
  (0 <=? observation_pool_size p) && (1 <=? official_alpha_pool_capacity p) && (official_alpha_pool_capacity p <=? 100) &&
  (Z.of_nat (length (selected_entities p)) <=? official_alpha_pool_capacity p) &&
  (Z.of_nat (length (selected_entities p)) <=? observation_pool_size p) &&
  forallb (λ e, bool_decide (e ∈ selected_entities p)) (dkeys (freeze_reason_map p)).

Inductive alpha_status := alpha_ok | alpha_inconclusive.
Record AlphaResultSnapshot := mkAlpha {
  al_cycle_id : string;
  al_entity_id : string;
  analyzer_type : string;
  score : option spec_float;
  al_confidence : spec_float;
  rationale : string;
  similar_cases : list pyval;
  status : alpha_status;
}.

Inductive recommended_action := buy | hold | reduce | inconclusive.
#[export] Instance action_dec : EqDecision recommended_action.
Proof. solve_decision. Defined.
Definition action_text (a : recommended_action) : string :=
  match a with buy => "buy" | hold => "hold" | reduce => "reduce" | inconclusive => "inconclusive" end.
Inductive trigger := by_system | human_decision.
#[export] Instance trigger_dec : EqDecision trigger.
Proof. solve_decision. Defined.

Record RecommendationSnapshot := mkRecommendation {
  rec_cycle_id : string;
  rec_entity_id : string;
  action_type : recommended_action;
  rating : option string;
  confidence : option spec_float;
  triggered_by : trigger;
  override_applied : bool;
  constraints_applied : pydict pyval;
}.
(** Finite numbers only, and no confidence in an inconclusive recommendation. *)
Definition recommendation_valid (r : RecommendationSnapshot) : bool :=
  match confidence r with
  | None => true
  | Some c => finite_float c && negb (bool_decide (action_type r = inconclusive))
  end.
Definition validated (r : RecommendationSnapshot) : result core_error RecommendationSnapshot :=
  raise_if negb (recommendation_valid r) with ValidationError; Ok r.

(** The instant is in microseconds; a timezone is required of it. *)
Record OverrideRecord := mkOverride {
  ov_cycle_id : string;
  ov_entity_id : string;
  submitted_by : string;
  ov_action_type : recommended_action;
  ov_rationale : string;
  submitted_at : Z;
}.
End Schemas.

(** ** The world state *)
Module WorldState.
Import Schemas.

Record GraphRegimeContext := mkContext { gc_cycle_id : string; snapshot_id : string; regime_context : pydict pyval }.
Record WorldStateInputs := mkInputs {
  in_cycle_id : string;
  feature_bundle : FeatureSignalBundle;
  macro_context : pydict pyval;
  graph_impact : pydict pyval;
}.
Record WorldStateDeltaDecision := mkDecision {
  raw_delta : Z;
  dec_rationale : string;
  dec_model_used : string;
  dec_provider : string;
  dec_fallback_path : list string;
}.
Record WorldStatePolicy := mkPolicy {
  baseline : WorldStateInputs → result core_error regime;
  bound_delta : Z → Z;
  compose : regime → Z → result core_error regime;
}.

(** [_explicit_baseline] *)
Definition explicit_baseline (values : pydict pyval) (source : string) : result core_error (option regime) :=
  match dget "baseline_regime" values with
  | None => Ok None
  | Some v =>
      match regime_of v with
      | Some r => Ok (Some r)
      | None => Err (WorldStatePolicyError (source ++ ".baseline_regime must be one of the regimes"))
      end
  end.
(** [DefaultWorldStatePolicy] *)
Definition default_baseline (i : WorldStateInputs) : result core_error regime :=
  let* signal := explicit_baseline (signal_values (feature_bundle i)) "signal_values" in
  match signal with
  | Some r => Ok r
  | None => let* macro := explicit_baseline (macro_context i) "macro_context" in Ok (default neutral macro)
  end.
Definition default_bound_delta (raw : Z) : Z := if raw <? 0 then -1 else if 0 <? raw then 1 else 0.
Definition default_compose (b : regime) (delta : Z) : result core_error regime :=
  let i := regime_index b + delta in
  raise_if (i <? 0) || (Z.of_nat (length REGIME_SEQUENCE) <=? i)
    with WorldStatePolicyError "baseline_regime + llm_delta is outside the regime sequence";
  match nth_error REGIME_SEQUENCE (Z.to_nat i) with
  | Some r => Ok r
  | None => Err (OtherException "IndexError")
  end.
Definition default_policy : WorldStatePolicy := mkPolicy default_baseline default_bound_delta default_compose.

Section world_state.
Context `{PyText} {W : Type}.

(** [_to_plain_json_like] *)
Fixpoint to_plain_json_like (v : pyval) : pyval :=
  match v with
  | PDict d => PDict (dict_of (map (λ kv, match kv with (k, x) => (py_str k, to_plain_json_like x) end) d))
  | PList l | PTuple l => PList (map to_plain_json_like l)
  | _ => v
  end.
Definition plain_mapping (d : pydict pyval) : pydict pyval := map (λ kv, (kv.1, to_plain_json_like kv.2)) d.

(** [load_graph_regime_context] *)
Definition load_graph_regime_context (cycle : string) (port : option (string → program core_error W (option GraphRegimeContext)))
    : program core_error W (pydict pyval) :=
  match port with
  | None => ret []
  | Some read =>
      let! context := read cycle in
      match context with
      | None => ret []
      | Some c =>
          stop_if negb (String.eqb (gc_cycle_id c) cycle) with GraphSnapshotError;
          ret [("snapshot_id", PStr (snapshot_id c));
               ("regime_context", PDict (map (λ kv, (PStr kv.1, kv.2)) (plain_mapping (regime_context c))))]
      end
  end.

(** [with_graph_impact]; no impact at all is [{}] either way. *)
Definition with_graph_impact (i : WorldStateInputs) (impact : pydict pyval) : WorldStateInputs :=
  mkInputs (in_cycle_id i) (feature_bundle i) (macro_context i) (plain_mapping impact).

(** [WorldStateSnapshot(...)] *)
Definition make_world_state (s : WorldStateSnapshot) : result core_error WorldStateSnapshot :=
  raise_if negb (world_state_valid s) with ValidationError; Ok s.

Definition static_decision : WorldStateDeltaDecision :=
  mkDecision 0 "static world-state delta" "static_world_state_reasoner" "static" [].
Definition reasoner_failure (e : core_error) : core_error := if is_main_core_error e then e else WorldStateReasonerError.

(** [derive_world_state] *)
Definition derive_world_state (bundle : FeatureSignalBundle) (policy : option WorldStatePolicy)
    (reasoner_port : option (WorldStateInputs → regime → program core_error W WorldStateDeltaDecision))
    (macro : pydict pyval) (graph_port : option (string → program core_error W (option GraphRegimeContext)))
    (impact : pydict pyval) : program core_error W WorldStateSnapshot :=
  let p := default default_policy policy in
  let propose := default (λ _ _, ret static_decision) reasoner_port in
  let! context := load_graph_regime_context (fb_cycle_id bundle) graph_port in
  let inputs := with_graph_impact (mkInputs (fb_cycle_id bundle) bundle macro []) (dmerge impact context) in
  let! b := lift (baseline p inputs) in
  let! decision := map_raise reasoner_failure (propose inputs b) in
  let delta := bound_delta p (raw_delta decision) in
  let! final := lift (compose p b delta) in
  lift (make_world_state (mkWorldState (fb_cycle_id bundle) b delta final (dec_rationale decision) (dec_model_used decision)
    (dec_provider decision) (dec_fallback_path decision))).
End world_state.
End WorldState.

(** ** The alpha pool *)
Module Universe.
Import Schemas.

Definition MAX_OFFICIAL_ALPHA_POOL_CAPACITY : Z := 100.
Definition MVP20_DECISION_POOL_CAPACITY : Z := 20.
Definition MVP20_MANIFEST_TARGET_FREEZE_REASON : string := "mvp20 manifest target".

Record PoolSelectionConfig := mkConfig {
  capacity : Z;
  observation_limit : option Z;
  min_candidate_score : option spec_float;
}.
(** [PoolSelectionConfig.__post_init__] *)
Definition make_config (c : PoolSelectionConfig) : result core_error PoolSelectionConfig :=
  raise_if negb ((1 <=? capacity c) && (capacity c <=? MAX_OFFICIAL_ALPHA_POOL_CAPACITY))
    with MainCoreError "official_alpha_pool_capacity must be between 1 and 100";
  raise_if match observation_limit c with Some n => n <? 0 | None => false end
    with MainCoreError "observation_limit must be a non-negative integer";
  Ok c.

(** [_validate_inputs] *)
Definition add_current (cycle : string) (seen : gset string) (b : FeatureSignalBundle) : result core_error (gset string) :=
  raise_if negb (String.eqb (fb_cycle_id b) cycle) with MainCoreError "bundle cycle_id must match world_state.cycle_id";
  raise_if bool_decide (fb_entity_id b ∈ seen) with MainCoreError "duplicate entity_id in FeatureSignalBundle input";
  Ok ({[fb_entity_id b]} ∪ seen).
Definition current_entities (cycle : string) (bundles : list FeatureSignalBundle) : result core_error (gset string) :=
  raise_if match bundles with [] => true | _ => false end with MainCoreError "bundles must not be empty";
  rfold (add_current cycle) ∅ bundles.

(** [merge_frozen_entities] *)
Definition set_defaults (d : pydict string) (items : pydict string) : pydict string :=
  fold_left (λ acc er, dsetdefault er.1 er.2 acc) items d.
Definition frozen_before (p : OfficialAlphaPool) : pydict string :=
  let kept := fold_left (λ acc e, match dget e (freeze_reason_map p) with Some reason => dset e reason acc | None => acc end)
    (selected_entities p) [] in
  set_defaults kept (sort_on fst (freeze_reason_map p)).
Definition merge_frozen_entities (previous : option OfficialAlphaPool) (frozen : pydict string) : pydict string :=
  set_defaults (match previous with Some p => frozen_before p | None => [] end) frozen.

(** [_ensure_frozen_entities_have_current_bundles] *)
Definition ensure_current (frozen : pydict string) (current : gset string) : result core_error () :=
  let missing := sorted_strings (filter (λ e, e ∉ current) (dkeys frozen)) in
  raise_if negb (bool_decide (missing = []))
    with MainCoreError ("frozen entities must be present in current FeatureSignalBundle input: " ++ join ", " missing);
  Ok ().
Definition ensure_frozen_entities_fit_capacity (frozen : pydict string) (cap : Z) : result core_error () :=
  raise_if cap <? Z.of_nat (length frozen) with MainCoreError "frozen entity count exceeds official_alpha_pool_capacity";
  Ok ().

Section ranking.
Context `{PyNumbers}.

(** [score_candidate]; [float(v)] raises what is not a [MainCoreError]. *)
Definition score_candidate (b : FeatureSignalBundle) : result core_error spec_float :=
  match dget "candidate_score" (signal_values b) with
  | Some v => map_err (λ _, OtherException "float") (as_float parse_float v)
  | None =>
      match dget "alpha_score" (feature_values b) with
      | Some f => Ok f
      | None => Ok (default float_zero (dget "momentum" (feature_values b)))
      end
  end.

(** [rank_candidates] *)
Definition scored (b : FeatureSignalBundle) : result core_error (spec_float * FeatureSignalBundle) :=
  let* s := score_candidate b in Ok (s, b).
Definition rank_key (sb : spec_float * FeatureSignalBundle) : sort_key := [KFloat (SFopp sb.1); KStr (fb_entity_id sb.2)].
Definition high_enough (c : PoolSelectionConfig) (sb : spec_float * FeatureSignalBundle) : bool :=
  match min_candidate_score c with Some m => SFleb m sb.1 | None => true end.
Definition rank_candidates (bundles : list FeatureSignalBundle) (c : PoolSelectionConfig)
    : result core_error (list FeatureSignalBundle) :=
  let* candidates := rmap_list scored bundles in
  let ranked := map snd (sort_by rank_key (List.filter (high_enough c) candidates)) in
  Ok match observation_limit c with None => ranked | Some n => take (Z.to_nat n) ranked end.

(** [_append_if_room]: the selection holds no entity twice, so it is also the
    set of its identifiers. *)
Definition append_if_room (cap : Z) (selected : list string) (e : string) : list string :=
  if bool_decide (e ∈ selected) || (cap <=? Z.of_nat (length selected)) then selected else (selected ++ [e])%list.
Definition select_entities (observed : list FeatureSignalBundle) (frozen : pydict string) (cap : Z) : list string :=
  fold_left (append_if_room cap) (map fb_entity_id observed) (fold_left (append_if_room cap) (dkeys frozen) []).
Definition count_eligible_entities (observed : list FeatureSignalBundle) (frozen : pydict string) : Z :=
  Z.of_nat (size (list_to_set (map fb_entity_id observed) ∪ list_to_set (dkeys frozen) : gset string)).
Definition diff_selected_entities (previous : option OfficialAlphaPool) (selected : list string) : list string * list string :=
  match previous with
  | None => (selected, [])
  | Some p => (filter (λ e, e ∉ selected_entities p) selected, filter (λ e, e ∉ selected) (selected_entities p))
  end.

(** [select_official_alpha_pool] *)
Definition make_pool (p : OfficialAlphaPool) : result core_error OfficialAlphaPool :=
  raise_if negb (pool_valid p) with ValidationError; Ok p.
Definition select_official_alpha_pool (ws : WorldStateSnapshot) (bundles : list FeatureSignalBundle)
    (previous : option OfficialAlphaPool) (cap : Z) (frozen : pydict string) (config : option PoolSelectionConfig)
    : result core_error OfficialAlphaPool :=
  let* active := match config with Some c => Ok c | None => make_config (mkConfig cap None None) end in
  let* current := current_entities (ws_cycle_id ws) bundles in
  let reasons := merge_frozen_entities previous frozen in
  let* _ := ensure_current reasons current in
  let* _ := ensure_frozen_entities_fit_capacity reasons (capacity active) in
  let* observed := rank_candidates bundles active in
  let selected := select_entities observed reasons (capacity active) in
  let '(added, removed) := diff_selected_entities previous selected in
  make_pool (mkPool (ws_cycle_id ws) (count_eligible_entities observed reasons) (capacity active) selected added removed reasons).

(** [MVP20DecisionPoolSpec] *)
Definition add_target (acc : list string) (target : string) : result core_error (list string) :=
  let e := strip target in
  raise_if is_empty e with MainCoreError "manifest_targets must contain non-empty entity_id";
  raise_if bool_decide (e ∈ acc) with MainCoreError "manifest_targets must not contain duplicate entity_id";
  Ok (acc ++ [e])%list.
Definition normalize_manifest_targets (targets : list string) : result core_error (list string) :=
  let* normalized := rfold add_target [] targets in
  raise_if negb (Z.of_nat (length normalized) =? MVP20_DECISION_POOL_CAPACITY)
    with MainCoreError "mvp20 decision pool requires exactly 20 manifest_targets";
  Ok normalized.
Record MVP20DecisionPoolSpec := mkSpec { manifest_targets : list string; target_freeze_reason : string }.
Definition make_spec (targets : list string) (reason : string) : result core_error MVP20DecisionPoolSpec :=
  let* normalized := normalize_manifest_targets targets in
  raise_if is_empty (strip reason) with MainCoreError "target_freeze_reason must be a non-empty string";
  Ok (mkSpec normalized reason).
Definition frozen_entities (s : MVP20DecisionPoolSpec) : pydict string :=
  fold_left (λ d e, dset e (target_freeze_reason s) d) (manifest_targets s) [].

(** [select_mvp20_decision_pool] *)
Definition add_bundle (cycle : string) (d : pydict FeatureSignalBundle) (b : FeatureSignalBundle)
    : result core_error (pydict FeatureSignalBundle) :=
  raise_if negb (String.eqb (fb_cycle_id b) cycle) with MainCoreError "bundle cycle_id must match world_state.cycle_id";
  raise_if dhas (fb_entity_id b) d with MainCoreError "duplicate entity_id in FeatureSignalBundle input";
  Ok (dset (fb_entity_id b) b d).
Definition current_bundle_by_entity (cycle : string) (bundles : list FeatureSignalBundle)
    : result core_error (pydict FeatureSignalBundle) := rfold (add_bundle cycle) [] bundles.
Definition target_bundles (s : MVP20DecisionPoolSpec) (by_entity : pydict FeatureSignalBundle)
    : result core_error (list FeatureSignalBundle) :=
  let missing := filter (λ e, dhas e by_entity = false) (manifest_targets s) in
  raise_if negb (bool_decide (missing = []))
    with MainCoreError ("manifest_targets must be present in current FeatureSignalBundle input: " ++ join ", " missing);
  Ok (omap (λ e, dget e by_entity) (manifest_targets s)).
Definition select_mvp20_decision_pool (ws : WorldStateSnapshot) (bundles : list FeatureSignalBundle)
    (targets : list string + MVP20DecisionPoolSpec) (reason : string) : result core_error OfficialAlphaPool :=
  let* spec := match targets with inr s => Ok s | inl l => make_spec l reason end in
  let* by_entity := current_bundle_by_entity (ws_cycle_id ws) bundles in
  let* chosen := target_bundles spec by_entity in
  let* config := make_config (mkConfig MVP20_DECISION_POOL_CAPACITY (Some MVP20_DECISION_POOL_CAPACITY) None) in
  select_official_alpha_pool ws chosen None 100 (frozen_entities spec) (Some config).
End ranking.
End Universe.

(** ** Recommendations *)
Module Recommendations.
Import Schemas.

Definition BUY_SCORE_THRESHOLD : spec_float := float_ratio 65 100.
Definition REDUCE_SCORE_THRESHOLD : spec_float := float_ratio 35 100.

Definition input_mismatch (m : string) : core_error := MainCoreError m.

(** *** [override.py] *)
Definition submit_override (store : list OverrideRecord) (o : OverrideRecord) : list OverrideRecord := (store ++ [o])%list.
Definition matches_override (cycle entity : string) (o : OverrideRecord) : bool :=
  String.eqb (ov_cycle_id o) cycle && String.eqb (ov_entity_id o) entity.
Definition find_override (overrides : list OverrideRecord) (cycle entity : string) : option OverrideRecord :=
  List.find (matches_override cycle entity) overrides.
Definition rating_for_action (a : recommended_action) : result core_error string :=
  match a with buy => Ok "A" | hold => Ok "B" | reduce => Ok "C" | inconclusive => Err (OtherException "KeyError") end.
Definition apply_override (c : RecommendationSnapshot) (o : OverrideRecord) : result core_error RecommendationSnapshot :=
  raise_if negb (String.eqb (rec_cycle_id c) (ov_cycle_id o)) with input_mismatch "override cycle_id must match recommendation cycle_id";
  raise_if negb (String.eqb (rec_entity_id c) (ov_entity_id o)) with input_mismatch "override entity_id must match recommendation entity_id";
  match ov_action_type o with
  | inconclusive =>
      validated (mkRecommendation (rec_cycle_id c) (rec_entity_id c) inconclusive None None human_decision true (constraints_applied c))
  | a =>
      let* r := rating_for_action a in
      validated (mkRecommendation (rec_cycle_id c) (rec_entity_id c) a (Some r) (confidence c) human_decision true (constraints_applied c))
  end.

(** *** [constraints.py] *)
Record RecommendationConstraintInputs := mkConstraintInputs { world_state : WorldStateSnapshot; risk_context : pydict pyval }.
Abbreviation constraint_gate := (RecommendationConstraintInputs → RecommendationSnapshot → result core_error RecommendationSnapshot).
Definition default_gate : constraint_gate := λ inputs c,
  match dget "force_inconclusive" (risk_context inputs) with
  | Some (PBool true) =>
      validated (mkRecommendation (rec_cycle_id c) (rec_entity_id c) inconclusive None None (triggered_by c) (override_applied c)
        (dset "risk_gate" (PStr "force_inconclusive") (constraints_applied c)))
  | _ =>
      if bool_decide (final_regime (world_state inputs) = risk_off) && bool_decide (action_type c = buy) then
        validated (mkRecommendation (rec_cycle_id c) (rec_entity_id c) hold (Some "B") (confidence c) (triggered_by c) (override_applied c)
          (dset "regime_gate" (PStr "risk_off_buy_to_hold") (constraints_applied c)))
      else Ok c
  end.

(** *** [service.py] *)
(** [_latest_overrides_by_cycle_entity]: a dictionary keeps a key where it
    first came and its last value. *)
Fixpoint set_override (o : OverrideRecord) (l : list OverrideRecord) : list OverrideRecord :=
  match l with
  | [] => [o]
  | x :: rest => if matches_override (ov_cycle_id o) (ov_entity_id o) x then o :: rest else x :: set_override o rest
  end.
Definition latest_overrides (l : list OverrideRecord) : list OverrideRecord := fold_left (λ acc o, set_override o acc) l [].
(** [_resolve_overrides] *)
Definition resolve_overrides (pool : OfficialAlphaPool) (overrides : option (list OverrideRecord)) (store : list OverrideRecord)
    : list OverrideRecord :=
  match overrides with
  | Some l => latest_overrides l
  | None => latest_overrides (List.filter (λ o, String.eqb (ov_cycle_id o) (pool_cycle_id pool)) store)
  end.

(** [_validate_inputs] *)
Definition add_analysis (pool : OfficialAlphaPool) (d : pydict AlphaResultSnapshot) (a : AlphaResultSnapshot)
    : result core_error (pydict AlphaResultSnapshot) :=
  raise_if negb (String.eqb (al_cycle_id a) (pool_cycle_id pool)) with input_mismatch "analysis cycle_id must match pool.cycle_id";
  raise_if negb (bool_decide (al_entity_id a ∈ selected_entities pool))
    with input_mismatch "analysis entity_id must belong to pool.selected_entities";
  raise_if dhas (al_entity_id a) d with input_mismatch "duplicate analysis for selected entity";
  Ok (dset (al_entity_id a) a d).
Definition validate_inputs (pool : OfficialAlphaPool) (analyses : list AlphaResultSnapshot) (ws : WorldStateSnapshot)
    (overrides : list OverrideRecord) : result core_error (pydict AlphaResultSnapshot) :=
  raise_if negb (String.eqb (pool_cycle_id pool) (ws_cycle_id ws)) with input_mismatch "pool.cycle_id must match world_state.cycle_id";
  let* by_entity := rfold (add_analysis pool) [] analyses in
  raise_if existsb (λ e, negb (dhas e by_entity)) (selected_entities pool) with input_mismatch "missing analysis for selected entity";
  raise_if existsb (λ o, negb (String.eqb (ov_cycle_id o) (pool_cycle_id pool))) overrides
    with input_mismatch "override cycle_id must match pool.cycle_id";
  Ok by_entity.

(** [_candidate_from_analysis] *)
Definition action_for_score (s : spec_float) : recommended_action :=
  if SFleb BUY_SCORE_THRESHOLD s then buy else if SFleb s REDUCE_SCORE_THRESHOLD then reduce else hold.
Definition candidate_from_analysis (a : AlphaResultSnapshot) : result core_error RecommendationSnapshot :=
  match status a with
  | alpha_inconclusive =>
      validated (mkRecommendation (al_cycle_id a) (al_entity_id a) inconclusive None None by_system false [])
  | alpha_ok =>
      match score a with
      | None => Err (input_mismatch "ok analysis score must not be None")
      | Some s =>
          raise_if negb (finite_float s) with input_mismatch "ok analysis score must be finite";
          raise_if negb (finite_float (al_confidence a)) with input_mismatch "ok analysis confidence must be finite";
          let* r := rating_for_action (action_for_score s) in
          validated (mkRecommendation (al_cycle_id a) (al_entity_id a) (action_for_score s) (Some r) (Some (al_confidence a))
            by_system false [])
      end
  end.
(** [_force_inconclusive] *)
Definition force_inconclusive (c : RecommendationSnapshot) : result core_error RecommendationSnapshot :=
  match action_type c, rating c, confidence c with
  | inconclusive, None, None => Ok c
  | _, _, _ =>
      validated (mkRecommendation (rec_cycle_id c) (rec_entity_id c) inconclusive None None (triggered_by c) (override_applied c)
        (constraints_applied c))
  end.
(** [_validate_gated_identity] *)
Definition validate_gated_identity (c : RecommendationSnapshot) (cycle entity : string) : result core_error () :=
  raise_if negb (String.eqb (rec_cycle_id c) cycle) with input_mismatch "constraint gate must preserve recommendation cycle_id";
  raise_if negb (String.eqb (rec_entity_id c) entity) with input_mismatch "constraint gate must preserve recommendation entity_id";
  Ok ().

(** The body of the loop of [generate_recommendations], up to the gate and from it on. *)
Definition keep_override (c : RecommendationSnapshot) : result core_error RecommendationSnapshot :=
  if negb (override_applied c) || negb (bool_decide (triggered_by c = human_decision)) then
    validated (mkRecommendation (rec_cycle_id c) (rec_entity_id c) (action_type c) (rating c) (confidence c) human_decision true
      (constraints_applied c))
  else Ok c.
Definition prepared (override : option OverrideRecord) (c : RecommendationSnapshot) : result core_error RecommendationSnapshot :=
  let* overridden := match override with Some o => apply_override c o | None => Ok c end in
  if bool_decide (action_type c = inconclusive) then force_inconclusive overridden else Ok overridden.
Definition settle_gated (gate : constraint_gate) (inputs : RecommendationConstraintInputs) (cycle e : string)
    (override : option OverrideRecord) (was_inconclusive : bool) (c : RecommendationSnapshot)
    : result core_error RecommendationSnapshot :=
  let* gated := gate inputs c in
  let* _ := validate_gated_identity gated cycle e in
  let* gated := if was_inconclusive then force_inconclusive gated else Ok gated in
  match override with Some _ => keep_override gated | None => Ok gated end.
Definition recommend (pool : OfficialAlphaPool) (gate : constraint_gate) (inputs : RecommendationConstraintInputs)
    (overrides : list OverrideRecord) (by_entity : pydict AlphaResultSnapshot) (e : string)
    : result core_error RecommendationSnapshot :=
  match dget e by_entity with
  | None => Err (OtherException "KeyError")
  | Some a =>
      let* source := candidate_from_analysis a in
      let override := find_override overrides (pool_cycle_id pool) e in
      let* c := prepared override source in
      settle_gated gate inputs (pool_cycle_id pool) e override (bool_decide (action_type source = inconclusive)) c
  end.
Definition generate_recommendations (pool : OfficialAlphaPool) (analyses : list AlphaResultSnapshot) (ws : WorldStateSnapshot)
    (constraint_provider : option constraint_gate) (overrides : option (list OverrideRecord)) (store : list OverrideRecord)
    (risk : pydict pyval) : result core_error (list RecommendationSnapshot) :=
  let active := resolve_overrides pool overrides store in
  let* by_entity := validate_inputs pool analyses ws active in
  rmap_list (recommend pool (default default_gate constraint_provider) (mkConstraintInputs ws risk) active by_entity)
    (selected_entities pool).
End Recommendations.
