(* ===== verification/MainCoreProofs.v ===== *)
(** * MainCoreProofs: what the judgement of a day amounts to

    The theorems on the world state, the alpha pool and the recommendations of
    [MainCore], with runs. *)
From Stdlib Require Import String Ascii ZArith List SpecFloat Sorting.Sorted.
From stdpp Require Import base gmap strings list sorting.
From S2P Require Import Prelude PyLib Numbers Programs MainCore.
Import Schemas.
Local Open Scope string_scope.
Local Open Scope Z_scope.

(** ** The world state *)
Module WorldStateTheorems.
Import WorldState.

Definition declares (values : pydict pyval) (b : regime) : Prop := dget "baseline_regime" values = Some (PStr (regime_text b)).
Definition silent (values : pydict pyval) : Prop := dget "baseline_regime" values = None.
(** The regime the signals declare, else the macro context, else the neutral one. *)
Definition stated_baseline (i : WorldStateInputs) (b : regime) : Prop :=
  declares (signal_values (feature_bundle i)) b ∨
  (silent (signal_values (feature_bundle i)) ∧
    (declares (macro_context i) b ∨ (silent (macro_context i) ∧ b = neutral))).

Lemma regime_of_text v b : regime_of v = Some b ↔ v = PStr (regime_text b).
Proof.
  split.
  - destruct v; try done. unfold regime_of. intros [_ E]%List.find_some. by apply String.eqb_eq in E as <-.
  - intros ->. by destruct b.
Qed.

Lemma explicit_baseline_ok values source o :
  explicit_baseline values source = Ok o ↔
  match o with Some b => declares values b | None => silent values end.
Proof.
  unfold explicit_baseline, declares, silent. destruct (dget "baseline_regime" values) as [v|]; [|destruct o; naive_solver].
  destruct (regime_of v) as [b|] eqn:E.
  - apply regime_of_text in E as ->. destruct o as [b'|]; [|naive_solver]. split; [by intros [= ->]|]. intros [= E].
    by destruct b, b'.
  - destruct o as [b|]; [|naive_solver]. split; [done|]. intros [= ->]. by destruct b.
Qed.

Lemma default_baseline_ok i b : default_baseline i = Ok b ↔ stated_baseline i b.
Proof.
  unfold default_baseline, stated_baseline. rewrite rbind_ok. setoid_rewrite explicit_baseline_ok. split.
  - intros ([r|] & Hs & E); [injection E as <-; by left|]. right. split; [done|].
    apply rbind_ok in E as ([r|] & Hm%explicit_baseline_ok & [= <-]); [by left|by right].
  - intros [Hs|[Hs Hm]]; [by exists (Some b)|]. exists None. split; [done|]. apply rbind_ok.
    destruct Hm as [Hm|[Hm ->]]; [exists (Some b)|exists None]; by rewrite explicit_baseline_ok.
Qed.

Lemma default_compose_ok b delta f : default_compose b delta = Ok f ↔ regime_index f = regime_index b + delta.
Proof.
  unfold default_compose. set (i := regime_index b + delta). change (Z.of_nat (length REGIME_SEQUENCE)) with 3.
  split.
  - intros E. apply rbind_ok in E as (u & Hg%guard_err_ok & E).
    assert (i = 0 ∨ i = 1 ∨ i = 2) as [Hi|[Hi|Hi]] by lia; rewrite Hi in *; by injection E as <-.
  - intros Hf. assert (0 ≤ i ≤ 2) by (rewrite <- Hf; destruct f; simpl; lia).
    rewrite (proj2 (Z.ltb_ge _ _)), (proj2 (Z.leb_gt _ _)) by lia. cbn [orb guard_err rbind].
    rewrite <- Hf. by destruct f.
Qed.

Lemma default_bound_sgn raw : default_bound_delta raw = Z.sgn raw.
Proof. unfold default_bound_delta. destruct (Z.ltb_spec raw 0), (Z.ltb_spec 0 raw); lia. Qed.

Section derive.
Context `{PyText} {W : Type}.
Implicit Types (w : W).

(** Whatever the policy, a world state is in its bundle's cycle and at most
    one step from its baseline. *)
Lemma any_policy_is_bounded bundle policy reasoner macro port impact w s w' :
  derive_world_state bundle policy reasoner macro port impact w = (Ok s, w') →
  ws_cycle_id s = fb_cycle_id bundle ∧ world_state_valid s = true.
Proof.
  unfold derive_world_state, make_world_state. intros (context & w1 & _ & E)%pbind_ok.
  apply pbind_ok in E as (b & w2 & _ & E). apply pbind_ok in E as (d & w3 & _ & E).
  apply pbind_ok in E as (f & w4 & _ & E). injection E as E _. rinv. split; [done|]. by apply negb_false_iff.
Qed.

(** What the graph is asked for a cycle, and answers. *)
Definition graph_answers (cycle : string) (port : option (string → program core_error W (option GraphRegimeContext))) w
    (answer : option GraphRegimeContext) w1 : Prop :=
  match port with
  | None => answer = None ∧ w1 = w
  | Some read => read cycle w = (Ok answer, w1)
  end.
(** What the inputs of the reasoner say of the answer. *)
Definition graph_values (answer : option GraphRegimeContext) : pydict pyval :=
  match answer with
  | None => []
  | Some c => [("snapshot_id", PStr (snapshot_id c));
               ("regime_context", PDict (map (λ kv, (PStr kv.1, kv.2)) (plain_mapping (regime_context c))))]
  end.

Lemma load_context_ok cycle port w context w1 :
  load_graph_regime_context cycle port w = (Ok context, w1) ↔
  ∃ answer, graph_answers cycle port w answer w1 ∧ (∀ c, answer = Some c → gc_cycle_id c = cycle) ∧ context = graph_values answer.
Proof.
  unfold load_graph_regime_context, graph_answers. destruct port as [read|].
  - rewrite pbind_ok. split.
    + intros ([c|] & w2 & Hr & E).
      * apply pbind_ok in E as (u & w3 & [= Hg <-] & [= <- <-]). apply guard_err_ok, negb_false_iff, String.eqb_eq in Hg.
        exists (Some c). split_and!; [done|by intros ? [= <-]|done].
      * injection E as <- <-. by exists None.
    + intros ([c|] & Hr & Hc & ->); eexists _, w1; (split; [exact Hr|]); [|done].
      apply pbind_ok. eexists tt, w1. split; [|done]. unfold lift. f_equal. apply guard_err_ok, negb_false_iff, String.eqb_eq. auto.
  - split; [intros [= <- <-]; by exists None|]. by intros (? & [-> ->] & _ & ->).
Qed.

(** C24: the default policy derives a world state exactly when the graph's
    context, if a graph is asked and has one, is of the bundle's cycle, the
    reasoner answers and the baseline, moved one step in the direction of what
    the reasoner proposed, is a regime: the baseline is what the signals
    declare, else the macro context, else neutral; the reasoner is given the
    bundle, the macro context and the graph's context over the caller's; and the
    snapshot carries the cycle, the step and the reasoner's account of it. A
    proposal that leads out of the range of regimes is refused, not cut off. *)
Theorem world_state_is_one_step (bundle : FeatureSignalBundle) reasoner macro port impact w s w' :
  derive_world_state bundle None (Some reasoner) macro port impact w = (Ok s, w') ↔
  ∃ answer w1 decision,
    graph_answers (fb_cycle_id bundle) port w answer w1 ∧
    (∀ c, answer = Some c → gc_cycle_id c = fb_cycle_id bundle) ∧
    let inputs := mkInputs (fb_cycle_id bundle) bundle macro (plain_mapping (dmerge impact (graph_values answer))) in
    stated_baseline inputs (baseline_regime s) ∧
    reasoner inputs (baseline_regime s) w1 = (Ok decision, w') ∧
    llm_delta s = Z.sgn (raw_delta decision) ∧
    regime_index (final_regime s) = regime_index (baseline_regime s) + llm_delta s ∧
    s = mkWorldState (fb_cycle_id bundle) (baseline_regime s) (llm_delta s) (final_regime s) (dec_rationale decision)
      (dec_model_used decision) (dec_provider decision) (dec_fallback_path decision).
Proof.
  unfold derive_world_state, make_world_state. cbn [default baseline bound_delta compose default_policy]. split.
  - intros (context & w1 & (answer & Ha & Hc & ->)%load_context_ok & E)%pbind_ok. exists answer, w1.
    apply pbind_ok in E as (b & w2 & [= Hb <-] & E). apply pbind_ok in E as (d & w3 & Hd & E).
    rewrite map_raise_ok in Hd. apply pbind_ok in E as (f & w4 & [= Hf <-] & E). injection E as E <-. rinv.
    exists d. split; [done|]. split; [done|]. cbn. rewrite <- default_baseline_ok, <- default_bound_sgn, <- default_compose_ok.
    split_and!; done.
  - intros (answer & w1 & d & Ha & Hc & Hb & Hd & Hl & Hf & Hs). apply pbind_ok. exists (graph_values answer), w1.
    split; [apply load_context_ok; by exists answer|].
    apply pbind_ok. exists (baseline_regime s), w1. split; [unfold lift; f_equal; by apply default_baseline_ok|].
    apply pbind_ok. exists d, w'. rewrite map_raise_ok. split; [done|].
    rewrite default_bound_sgn, <- Hl. apply pbind_ok. exists (final_regime s), w'.
    split; [unfold lift; f_equal; by apply default_compose_ok|]. unfold lift. f_equal. rewrite <- Hs.
    assert (world_state_valid s = true) as ->; [|done]. unfold world_state_valid. rewrite Hl in *. lia.
Qed.
End derive.
End WorldStateTheorems.

(** ** Lists indexed by a text
    The loop that refuses a key it has seen and else adds the element under it. *)
Lemma index_step {A} (k : string) (x : A) (d d' : pydict A) (e : core_error) :
  (raise_if dhas k d with e; Ok (dset k x d)) = Ok d' ↔ k ∉ dkeys d ∧ d' = dset k x d.
Proof.
  rewrite <- dhas_true. destruct (dhas k d); cbn; [naive_solver|]. split; [intros [= <-]; done|by intros [_ ->]].
Qed.

Lemma rfold_index {A} (key : A → string) (P : A → Prop) (f : pydict A → A → result core_error (pydict A)) l acc d :
  (∀ acc x acc', f acc x = Ok acc' ↔ P x ∧ key x ∉ dkeys acc ∧ acc' = dset (key x) x acc) →
  rfold f acc l = Ok d ↔
  Forall P l ∧ NoDup (map key l) ∧ (∀ e, e ∈ map key l → e ∉ dkeys acc) ∧ d = (acc ++ map (λ x, (key x, x)) l)%list.
Proof.
  intros Hf. revert acc. induction l as [|x l IH]; intros acc; cbn [rfold map].
  - rewrite app_nil_r. split; [|by intros (_ & _ & _ & ->)]. intros [= <-].
    split_and!; [constructor|constructor|by intros e ?%not_elem_of_nil|done].
  - rewrite Forall_cons, NoDup_cons, rbind_ok. setoid_rewrite IH. setoid_rewrite Hf. setoid_rewrite elem_of_cons.
    assert (key x ∉ dkeys acc → ∀ e, e ∈ dkeys (dset (key x) x acc) ↔ e ∈ dkeys acc ∨ e = key x) as Hk.
    { intros Hx e. rewrite dset_new by done. unfold dkeys. rewrite map_app, elem_of_app. cbn. by rewrite list_elem_of_singleton. }
    split.
    + intros (y & (HP & Hx & ->) & Hl & Hn & He & ->). rewrite dset_new in * by done. specialize (Hk Hx).
      split_and!; try done; [|intros e [->|Hm]|by rewrite <- app_assoc]; [|done|].
      * intros Hm. apply (He _ Hm), Hk. by right.
      * intros Ha. apply (He _ Hm), Hk. by left.
    + intros ([HP Hl] & [Hm Hn] & He & ->). assert (key x ∉ dkeys acc) as Hx by (apply He; by left). specialize (Hk Hx).
      rewrite dset_new in * by done. eexists. split; [done|]. split_and!; [done|done| |by rewrite <- app_assoc].
      intros e He' [?| ->]%Hk; [|done]. apply (He e ltac:(by right)). done.
Qed.

(** ** The alpha pool *)
Module UniverseTheorems.
Import Universe.

Abbreviation ids := (map fb_entity_id).

Lemma current_entities_ok cycle bundles cur :
  current_entities cycle bundles = Ok cur ↔
  bundles ≠ [] ∧ Forall (λ b, fb_cycle_id b = cycle) bundles ∧ NoDup (ids bundles) ∧ cur = list_to_set (ids bundles).
Proof.
  unfold current_entities.
  assert (∀ seen, rfold (add_current cycle) seen bundles = Ok cur ↔
    Forall (λ b, fb_cycle_id b = cycle) bundles ∧ NoDup (ids bundles) ∧ (∀ e, e ∈ ids bundles → e ∉ seen) ∧
    cur = seen ∪ list_to_set (ids bundles)) as Hfold.
  { induction bundles as [|b bundles IH]; intros seen; cbn [rfold map list_to_set].
    - split; [intros [= <-]; split_and!; try constructor; set_solver|intros (_ & _ & _ & ->); f_equal; set_solver].
    - unfold add_current at 1. rewrite Forall_cons, NoDup_cons, rbind_ok. setoid_rewrite IH.
      destruct (String.eqb_spec (fb_cycle_id b) cycle) as [Hc|Hc]; cbn [negb guard_err rbind]; [|naive_solver].
      case_bool_decide as Hin; cbn [guard_err rbind].
      + split; [by intros (? & ? & _)|]. intros (_ & _ & Hn & _). by destruct (Hn (fb_entity_id b)); [left|].
      + split.
        * intros (x & [= <-] & Hf & Hnd & Hns & ->). split_and!; try done; [|intros e [->|He]%elem_of_cons|]; set_solver.
        * intros ([_ Hf] & [Hni Hnd] & Hns & ->). eexists. split; [done|]. split_and!; [done|done| |set_solver].
          intros e He. specialize (Hns e ltac:(by right)). assert (e ≠ fb_entity_id b) by (intros ->; done). set_solver. }
  destruct bundles as [|b bundles]; [cbn; naive_solver|]. cbn [guard_err rbind]. rewrite Hfold. split.
  - intros (? & ? & _ & ->). split_and!; try done. set_solver.
  - intros (_ & ? & ? & ->). split_and!; try done; set_solver.
Qed.

Lemma elem_of_sublist {A} (x : A) l k : l `sublist_of` k → x ∈ l → x ∈ k.
Proof. intros Hs Hx. eapply elem_of_submseteq; [exact Hx|]. by apply sublist_submseteq. Qed.

Lemma NoDup_map_submseteq {A B} (f : A → B) l k : l ⊆+ k → NoDup (map f k) → NoDup (map f l).
Proof.
  intros (l' & Hp & Hs)%submseteq_sublist_r Hn. eapply NoDup_map_perm; [exact Hp|]. by eapply NoDup_map_sub.
Qed.

(** What fits of a list without repetitions. *)
Lemma append_all cap l acc :
  NoDup l →
  fold_left (append_if_room cap) l acc =
  (acc ++ take (Z.to_nat (cap - Z.of_nat (length acc))) (filter (λ e, e ∉ acc) l))%list.
Proof.
  revert acc. induction l as [|x l IH]; intros acc Hn; [by rewrite filter_nil, take_nil, app_nil_r|].
  apply NoDup_cons in Hn as [Hx Hn]. cbn [fold_left]. unfold append_if_room at 2.
  case_bool_decide as Hin; cbn [orb].
  - rewrite IH, (filter_cons_False _ x l) by naive_solver. done.
  - rewrite (filter_cons_True _ x l) by done. destruct (Z.leb_spec cap (Z.of_nat (length acc))).
    + rewrite IH by done. replace (Z.to_nat (cap - Z.of_nat (length acc))) with O by lia. done.
    + rewrite IH, length_app by done. cbn [length].
      replace (Z.to_nat (cap - Z.of_nat (length acc))) with (S (Z.to_nat (cap - Z.of_nat (length acc + 1)))) by lia.
      rewrite firstn_cons, <- app_assoc. do 2 f_equal. apply (f_equal (take _)). apply filter_ext_in.
      intros y Hy. rewrite not_elem_of_app, list_elem_of_singleton. naive_solver.
Qed.

Lemma NoDup_dsetdefault {V} k (v : V) d : NoDup (dkeys d) → NoDup (dkeys (dsetdefault k v d)).
Proof. unfold dsetdefault. destruct (dget k d); [done|]. apply NoDup_dset. Qed.

Lemma NoDup_set_defaults d items : NoDup (dkeys d) → NoDup (dkeys (set_defaults d items)).
Proof. revert d. induction items as [|[e r] l IH]; intros d Hd; [done|]. by apply IH, NoDup_dsetdefault. Qed.

Lemma NoDup_merge_frozen previous frozen : NoDup (dkeys (merge_frozen_entities previous frozen)).
Proof.
  apply NoDup_set_defaults. destruct previous as [p|]; [|constructor]. apply NoDup_set_defaults.
  generalize (selected_entities p). intros l.
  cut (∀ acc, NoDup (dkeys acc) → NoDup (dkeys (fold_left
    (λ acc e, match dget e (freeze_reason_map p) with Some reason => dset e reason acc | None => acc end) l acc)));
    [intros Hc; apply Hc; constructor|].
  induction l as [|e l IH]; intros acc Hacc; [done|]. apply IH. destruct (dget e _); [by apply NoDup_dset|done].
Qed.

(** *** What is frozen, and for what *)

(** The reason an entity was first frozen for: the previous pool's, if it has
    one, else the one given now. *)
Definition frozen_reason (previous : option OfficialAlphaPool) (frozen : pydict string) (e : string) : option string :=
  match previous ≫= (λ p, dget e (freeze_reason_map p)) with Some r => Some r | None => dget e frozen end.
(** The frozen entities: those the previous pool selected, in its order, its
    others by identifier, and those frozen now. *)
Definition frozen_order (previous : option OfficialAlphaPool) (frozen : pydict string) : list string :=
  let earlier := match previous with Some p => dkeys (freeze_reason_map p) | None => [] end in
  let selected := match previous with Some p => selected_entities p | None => [] end in
  (filter (λ e, e ∈ earlier) selected ++ filter (λ e, e ∉ selected) (sorted_strings earlier) ++
   filter (λ e, e ∉ earlier) (dkeys frozen))%list.
(** Dictionaries hold a key once, and a pool an entity. *)
Definition held_once (previous : option OfficialAlphaPool) (frozen : pydict string) : Prop :=
  NoDup (dkeys frozen) ∧ ∀ p, previous = Some p → NoDup (selected_entities p) ∧ NoDup (dkeys (freeze_reason_map p)).

Lemma dget_set_defaults e d items :
  dget e (set_defaults d items) = match dget e d with Some r => Some r | None => dget e items end.
Proof.
  revert d. induction items as [|[k r] items IH]; intros d; [by cbn; destruct (dget e d)|].
  change (set_defaults d ((k, r) :: items)) with (set_defaults (dsetdefault k r d) items). rewrite IH, dget_setdefault. cbn [dget].
  by destruct (dget e d), (String.eqb e k).
Qed.

Lemma dkeys_app {V} (d d' : pydict V) : dkeys (d ++ d') = (dkeys d ++ dkeys d')%list.
Proof. apply map_app. Qed.

Lemma dkeys_set_defaults d items :
  NoDup (dkeys items) → dkeys (set_defaults d items) = (dkeys d ++ filter (λ e, e ∉ dkeys d) (dkeys items))%list.
Proof.
  revert d. induction items as [|[k r] items IH]; intros d Hn; [by cbn; rewrite app_nil_r|].
  apply NoDup_cons in Hn as [Hk Hn]. change (set_defaults d ((k, r) :: items)) with (set_defaults (dsetdefault k r d) items).
  change (dkeys ((k, r) :: items)) with (k :: dkeys items). rewrite IH by done. unfold dsetdefault.
  destruct (dget k d) eqn:E.
  - rewrite filter_cons_False; [done|]. intros Hno. apply Hno, elem_of_dkeys. eauto.
  - assert (k ∉ dkeys d) as Hnew by (rewrite elem_of_dkeys, E; by intros []).
    rewrite filter_cons_True by done. rewrite dset_new, dkeys_app by done. rewrite <- app_assoc. f_equal. cbn [app]. f_equal.
    apply filter_ext_in. intros e He. rewrite not_elem_of_app. change (dkeys [(k, r)]) with [k]. rewrite list_elem_of_singleton. split; [by intros [? _]|]. split; [done|]. by intros ->.
Qed.

(** The entities a pool selected, with their reasons. *)
Definition kept (p : OfficialAlphaPool) (l : list string) (acc : pydict string) : pydict string :=
  fold_left (λ acc e, match dget e (freeze_reason_map p) with Some reason => dset e reason acc | None => acc end) l acc.
Lemma kept_cons p x l acc :
  kept p (x :: l) acc = kept p l match dget x (freeze_reason_map p) with Some reason => dset x reason acc | None => acc end.
Proof. done. Qed.
Lemma dget_kept p e l acc :
  dget e (kept p l acc) = match (if bool_decide (e ∈ l) then dget e (freeze_reason_map p) else None) with
                          | Some r => Some r | None => dget e acc end.
Proof.
  revert acc. induction l as [|x l IH]; intros acc; [done|]. rewrite kept_cons, IH. clear IH.
  destruct (decide (e = x)) as [->|Hne].
  - rewrite (bool_decide_eq_true_2 (x ∈ x :: l)) by left. destruct (dget x (freeze_reason_map p)) as [r|] eqn:E.
    + rewrite dget_dset_eq. by case_bool_decide.
    + by case_bool_decide.
  - rewrite (bool_decide_ext (e ∈ x :: l) (e ∈ l)) by (rewrite elem_of_cons; naive_solver).
    destruct (dget x (freeze_reason_map p)); [|done]. by rewrite dget_dset_ne by done.
Qed.
Lemma dkeys_kept p l acc : NoDup l → (∀ e, e ∈ l → e ∉ dkeys acc) →
  dkeys (kept p l acc) = (dkeys acc ++ filter (λ e, e ∈ dkeys (freeze_reason_map p)) l)%list.
Proof.
  revert acc. induction l as [|x l IH]; intros acc Hn Hnew; [by rewrite filter_nil, app_nil_r|].
  apply NoDup_cons in Hn as [Hx Hn]. rewrite kept_cons.
  destruct (dget x (freeze_reason_map p)) as [r|] eqn:E.
  - rewrite filter_cons_True by (apply elem_of_dkeys; eauto). rewrite IH; [|done|].
    + rewrite dset_new, dkeys_app, <- app_assoc by (apply Hnew; left). done.
    + intros e He. rewrite dset_new, dkeys_app, not_elem_of_app by (apply Hnew; left). cbn [dkeys map fst].
      rewrite list_elem_of_singleton. split; [apply Hnew; by right|by intros ->].
  - rewrite filter_cons_False by (rewrite elem_of_dkeys, E; by intros []). apply IH; [done|]. intros e He. apply Hnew. by right.
Qed.

Lemma dget_permutation {V} e (d d' : pydict V) : NoDup (dkeys d) → d ≡ₚ d' → dget e d' = dget e d.
Proof.
  intros Hn Hp. assert (NoDup (dkeys d')) as Hn' by (unfold dkeys in *; eapply NoDup_map_perm; [symmetry; exact Hp|exact Hn]).
  apply option_eq. intros v. split; intros Hv%dget_Some_elem; apply elem_of_dget; try done.
  - by rewrite Hp.
  - by rewrite <- Hp.
Qed.

Lemma merged_reason previous frozen e : held_once previous frozen →
  dget e (merge_frozen_entities previous frozen) = frozen_reason previous frozen e.
Proof.
  intros [_ Hp]. unfold merge_frozen_entities, frozen_reason. rewrite dget_set_defaults. destruct previous as [p|]; [|done].
  destruct (Hp p eq_refl) as [_ Hn]. cbn. unfold frozen_before. rewrite dget_set_defaults.
  change (fold_left _ (selected_entities p) []) with (kept p (selected_entities p) []). rewrite dget_kept. cbn [dget].
  rewrite (dget_permutation e (freeze_reason_map p) (sort_on fst (freeze_reason_map p))); [|done|by unfold sort_on; rewrite py_sort_perm].
  case_bool_decide; by destruct (dget e (freeze_reason_map p)).
Qed.

Lemma dkeys_sort_on {V} (d : pydict V) : dkeys (sort_on fst d) = sorted_strings (dkeys d).
Proof.
  apply (StronglySorted_unique String.le).
  - pose proof (sort_on_sorted fst d) as Hs. unfold dkeys. induction Hs as [|x l _ IH Hx]; cbn; constructor; [done|].
    apply list.Forall_forall. intros y (z & -> & Hz)%list_elem_of_fmap. rewrite list.Forall_forall in Hx. by apply Hx.
  - apply sorted_strings_sorted.
  - unfold sorted_strings, dkeys, sort_on. by rewrite !py_sort_perm.
Qed.

Lemma merged_order previous frozen : held_once previous frozen →
  dkeys (merge_frozen_entities previous frozen) = frozen_order previous frozen.
Proof.
  intros [Hf Hp]. unfold merge_frozen_entities. rewrite dkeys_set_defaults by done. unfold frozen_order.
  destruct previous as [p|]; [|done].
  destruct (Hp p eq_refl) as [Hs Hn].
  assert (∀ e, e ∈ dkeys (frozen_before p) ↔ e ∈ dkeys (freeze_reason_map p)) as Hkeys.
  { intros e. rewrite !elem_of_dkeys. pose proof (merged_reason (Some p) [] e) as Hm. unfold merge_frozen_entities, frozen_reason in Hm.
    cbn in Hm. rewrite Hm by (split; [constructor|by intros ? [= <-]]). by destruct (dget e (freeze_reason_map p)). }
  rewrite (filter_ext_in (λ e, e ∉ dkeys (frozen_before p)) (λ e, e ∉ dkeys (freeze_reason_map p))) by (intros e _; by rewrite Hkeys).
  rewrite app_assoc. f_equal. unfold frozen_before.
  change (fold_left _ (selected_entities p) []) with (kept p (selected_entities p) []). rewrite dkeys_set_defaults.
  2: { rewrite dkeys_sort_on. unfold sorted_strings. by rewrite py_sort_perm. }
  rewrite dkeys_kept by (done || (intros; apply not_elem_of_nil)). cbn [dkeys map app]. f_equal. rewrite dkeys_sort_on. apply filter_ext_in.
  intros e He. unfold sorted_strings in He. rewrite elem_of_py_sort in He. rewrite list_elem_of_filter. naive_solver.
Qed.

Section selection.
Context `{PyNumbers}.

(** Scores as numbers. *)
Definition scorable (b : FeatureSignalBundle) : Prop := is_ok (score_candidate b) = true.

Lemma rank_candidates_ok bundles c observed :
  rank_candidates bundles c = Ok observed →
  Forall scorable bundles ∧ submseteq observed bundles.
Proof.
  unfold rank_candidates. intros E. apply rbind_ok in E as (cands & Hc%rmap_list_ok & [= <-]).
  assert (Forall scorable bundles ∧ map snd cands = bundles) as [Hs Hm].
  { induction Hc as [|b sb bundles cands Hb _ [? IH]]; [by split; [constructor|]|].
    apply rbind_ok in Hb as (s & Hb & [= <-]). split; [constructor; [|done]; unfold scorable; by rewrite Hb|].
    cbn. by f_equal. }
  split; [done|].
  assert (map snd (sort_by rank_key (List.filter (high_enough c) cands)) ⊆+ bundles) as Hsub.
  { rewrite <- Hm. apply (fmap_submseteq snd). rewrite sort_by_perm. apply sublist_submseteq, filter_sublist. }
  destruct (observation_limit c); [|done]. etrans; [|exact Hsub]. apply sublist_submseteq, sublist_take.
Qed.

Lemma rank_candidates_total bundles c : Forall scorable bundles → is_ok (rank_candidates bundles c) = true.
Proof.
  intros Hs. unfold rank_candidates. destruct (rmap_list_total scored bundles) as [cands ->]; [|done].
  intros b Hb. rewrite list.Forall_forall in Hs. specialize (Hs b Hb). unfold scorable in Hs. unfold scored.
  by destruct (score_candidate b).
Qed.

(** The demands a selection makes of its inputs. *)
Record accepted (cycle : string) (bundles : list FeatureSignalBundle) (frozen : list string) (cap : Z) : Prop := {
  some_bundle : bundles ≠ [];
  one_cycle : Forall (λ b, fb_cycle_id b = cycle) bundles;
  one_each : NoDup (ids bundles);
  all_scorable : Forall scorable bundles;
  frozen_current : frozen ⊆ ids bundles;
  frozen_fit : Z.of_nat (length frozen) ≤ cap;
}.

(** The pool made of what was observed. *)
Definition pool_of (cycle : string) (previous : option OfficialAlphaPool) (cap : Z) (reasons : pydict string)
    (observed : list FeatureSignalBundle) : OfficialAlphaPool :=
  let rest := filter (λ e, e ∉ dkeys reasons) (ids observed) in
  let selected := (dkeys reasons ++ take (Z.to_nat (cap - Z.of_nat (length reasons))) rest)%list in
  mkPool cycle (count_eligible_entities observed reasons) cap selected
    (diff_selected_entities previous selected).1 (diff_selected_entities previous selected).2 reasons.

Lemma select_entities_spec observed (reasons : pydict string) cap :
  NoDup (ids observed) → NoDup (dkeys reasons) → Z.of_nat (length reasons) ≤ cap →
  select_entities observed reasons cap =
  (dkeys reasons ++ take (Z.to_nat (cap - Z.of_nat (length reasons))) (filter (λ e, e ∉ dkeys reasons) (ids observed)))%list.
Proof.
  intros Ho Hr Hfit. unfold select_entities. rewrite (append_all cap (dkeys reasons) []) by done.
  rewrite (filter_all _ (dkeys reasons)) by (apply list.Forall_forall; intros ? _; apply not_elem_of_nil).
  cbn [app length]. rewrite take_ge by (unfold dkeys; rewrite length_map; lia).
  rewrite append_all by done. unfold dkeys. by rewrite length_map.
Qed.

Lemma pool_of_valid cycle previous cap reasons observed :
  1 ≤ cap ≤ 100 → NoDup (ids observed) → NoDup (dkeys reasons) → Z.of_nat (length reasons) ≤ cap →
  pool_valid (pool_of cycle previous cap reasons observed) = true.
Proof.
  intros Hcap Ho Hr Hfit. unfold pool_valid, pool_of. cbn.
  set (rest := filter (λ e, e ∉ dkeys reasons) (ids observed)).
  set (n := Z.to_nat (cap - Z.of_nat (length reasons))).
  assert (length (dkeys reasons) = length reasons) as Hk by apply length_map.
  assert (Z.of_nat (length (dkeys reasons ++ take n rest)) ≤ cap) as Hlen.
  { rewrite length_app, length_take, Hk. unfold n. lia. }
  assert (Z.of_nat (length (dkeys reasons ++ take n rest)) ≤ count_eligible_entities observed reasons) as Hcount.
  { unfold count_eligible_entities. apply inj_le.
    rewrite <- (size_list_to_set (C := gset string) (dkeys reasons ++ take n rest)).
    - apply subseteq_size. intros e. rewrite elem_of_list_to_set, elem_of_app, elem_of_union, !elem_of_list_to_set.
      intros [?|He]; [by right|]. left. apply elem_of_take in He as (i & He & _). apply list_elem_of_lookup_2 in He.
      by apply list_elem_of_filter in He as [_ He].
    - apply NoDup_app. split_and!; [done| |].
      + intros e He Ht. apply elem_of_take in Ht as (i & Hi & _). apply list_elem_of_lookup_2, list_elem_of_filter in Hi as [? _]. done.
      + eapply sublist_NoDup; [|apply sublist_take]. by apply NoDup_filter. }
  rewrite !andb_true_iff, !Z.leb_le, forallb_forall. split_and!; try lia; try done.
  intros e He%list_elem_of_In. apply bool_decide_eq_true, elem_of_app. by left.
Qed.

(** A selection goes through exactly when its inputs are accepted; its result
    is never refused by the validation of the pool. *)
Lemma select_pool_iff ws bundles previous cap frozen config pool :
  make_config config = Ok config →
  select_official_alpha_pool ws bundles previous cap frozen (Some config) = Ok pool ↔
  let reasons := merge_frozen_entities previous frozen in
  accepted (ws_cycle_id ws) bundles (dkeys reasons) (capacity config) ∧
  ∃ observed, rank_candidates bundles config = Ok observed ∧
    pool = pool_of (ws_cycle_id ws) previous (capacity config) reasons observed.
Proof.
  intros Hconfig. unfold select_official_alpha_pool. cbn [rbind]. set (reasons := merge_frozen_entities previous frozen). cbn zeta.
  assert (1 ≤ capacity config ≤ 100) as Hcap.
  { unfold make_config, MAX_OFFICIAL_ALPHA_POOL_CAPACITY in Hconfig. rinv. lia. }
  pose proof (NoDup_merge_frozen previous frozen) as Hnd. fold reasons in Hnd.
  assert (∀ cur, ensure_current reasons cur = Ok () ↔ list_to_set (dkeys reasons) ⊆ cur) as Hcur.
  { intros cur. unfold ensure_current. rewrite rbind_ok. setoid_rewrite guard_err_ok.
    assert (sorted_strings (filter (λ e, e ∉ cur) (dkeys reasons)) = [] ↔ list_to_set (dkeys reasons) ⊆ cur) as Hiff.
    { unfold sorted_strings. split.
      - intros E e He%elem_of_list_to_set. destruct (decide (e ∈ cur)); [done|]. exfalso.
        apply (not_elem_of_nil e). rewrite <- E. apply elem_of_py_sort, list_elem_of_filter. done.
      - intros Hs. rewrite filter_none; [done|]. apply list.Forall_forall. intros e He Hne. apply Hne, Hs.
        by apply elem_of_list_to_set. }
    rewrite <- Hiff. split.
    - intros (_ & Hn & _). by apply negb_false_iff, bool_decide_eq_true in Hn.
    - intros ->. by exists tt. }
  split.
  - intros E. apply rbind_ok in E as (cur & Hc%current_entities_ok & E). destruct Hc as (Hne & Hcy & Hn & ->).
    apply rbind_ok in E as ([] & Hf%Hcur & E). apply rbind_ok in E as ([] & Hfit & E).
    unfold ensure_frozen_entities_fit_capacity in Hfit. apply rbind_ok in Hfit as (_ & Hfit%guard_err_ok & _).
    apply rbind_ok in E as (observed & Hr & E).
    assert (Z.of_nat (length reasons) ≤ capacity config) as Hle by lia.
    destruct (rank_candidates_ok _ _ _ Hr) as [Hs Hsub].
    assert (NoDup (ids observed)) as Hno.
    { by eapply NoDup_map_submseteq. }
    rewrite select_entities_spec in E by done.
    split; [split; try done; [set_solver|by unfold dkeys; rewrite length_map]|]. exists observed. split; [done|].
    destruct (diff_selected_entities _ _) as [added removed] eqn:Ed. unfold make_pool in E. rinv.
    unfold pool_of. by rewrite Ed.
  - intros ([Hne Hcy Hn Hs Hfz Hfit] & observed & Hr & ->). unfold dkeys in Hfit. rewrite length_map in Hfit.
    rewrite (proj2 (current_entities_ok _ _ (list_to_set (ids bundles)))) by done. cbn [rbind].
    rewrite (proj2 (Hcur _)) by set_solver. cbn [rbind].
    unfold ensure_frozen_entities_fit_capacity. rewrite (proj2 (Z.ltb_ge _ _)) by done. cbn [guard_err rbind].
    rewrite Hr. cbn [rbind]. destruct (rank_candidates_ok _ _ _ Hr) as [_ Hsub].
    assert (NoDup (ids observed)) as Hno.
    { by eapply NoDup_map_submseteq. }
    rewrite select_entities_spec by done.
    pose proof (pool_of_valid (ws_cycle_id ws) previous (capacity config) reasons observed Hcap Hno Hnd Hfit) as Hv.
    unfold pool_of in *. destruct (diff_selected_entities _ _) as [added removed]. unfold make_pool. cbn [fst snd] in *. by rewrite Hv.
Qed.

(** What comes before what was passed over. *)
Lemma taken_before {A} (f : A → string) (P : string → Prop) `{∀ e, Decision (P e)} (l : list A) n m x y :
  NoDup (map f l) → x ∈ l → y ∈ l → P (f y) →
  f x ∈ take m (filter P (map f (take n l))) → f y ∉ take m (filter P (map f (take n l))) →
  ∃ l1 l2, l = (l1 ++ l2)%list ∧ x ∈ l1 ∧ y ∈ l2.
Proof.
  intros Hn Hx Hy HP. revert n m Hn Hx Hy. induction l as [|z l IH]; intros n m Hn Hx Hy; [by apply not_elem_of_nil in Hx|].
  destruct n as [|n]; [cbn [take map]; rewrite filter_nil, take_nil; by intros ?%not_elem_of_nil|]. cbn [take map].
  cbn [map] in Hn. apply NoDup_cons in Hn as [Hz Hn].
  assert (∀ m', f x ∈ take m' (filter P (map f (take n l))) → x ∈ l) as Hxl.
  { intros m' Hin. apply elem_of_take in Hin as (i & Hi%list_elem_of_lookup_2 & _).
    apply list_elem_of_filter in Hi as [_ Hi]. apply elem_of_cons in Hx as [->|Hx]; [|done]. exfalso. apply Hz.
    eapply elem_of_sublist; [|exact Hi]. apply (fmap_sublist f), sublist_take. }
  assert (∀ m', f x ∈ take m' (filter P (map f (take n l))) → f y ∉ take m' (filter P (map f (take n l))) → y ∈ l →
    ∃ l1 l2, z :: l = (l1 ++ l2)%list ∧ x ∈ l1 ∧ y ∈ l2) as Hrec.
  { intros m' Hin Hout Hyl. destruct (IH n m') as (l1 & l2 & -> & ? & ?); eauto. exists (z :: l1), l2.
    split_and!; [done|by right|done]. }
  destruct (decide (P (f z))) as [Hpz|Hpz]; [rewrite filter_cons_True by done|rewrite filter_cons_False by done].
  - destruct m as [|m]; [by intros ?%not_elem_of_nil|]. cbn [take]. rewrite not_elem_of_cons.
    intros Hin [Hne Hout]. apply elem_of_cons in Hy as [->|Hy]; [done|].
    apply elem_of_cons in Hin as [Hxz|Hin]; [|by apply (Hrec m)].
    apply elem_of_cons in Hx as [->|Hx]; [exists [z], l; split_and!; [done|left|done]|].
    exfalso. apply Hz. rewrite <- Hxz. by apply list_elem_of_fmap_2.
  - intros Hin Hout. apply elem_of_cons in Hy as [->|Hy]; [done|]. by apply (Hrec m).
Qed.

Lemma elem_of_scored bundles cands b s :
  rmap_list scored bundles = Ok cands → b ∈ bundles → score_candidate b = Ok s → (s, b) ∈ cands.
Proof.
  intros Hc%rmap_list_ok Hb Hs. induction Hc as [|x y bundles cands Hxy _ IH]; [by apply not_elem_of_nil in Hb|].
  apply rbind_ok in Hxy as (t & Ht & [= <-]). apply elem_of_cons in Hb as [->|Hb]; [|right; auto].
  rewrite Ht in Hs. injection Hs as ->. left.
Qed.

Lemma scored_elem bundles cands s b : rmap_list scored bundles = Ok cands → (s, b) ∈ cands → b ∈ bundles ∧ score_candidate b = Ok s.
Proof.
  intros Hc Hin. apply (rmap_list_elem_of _ _ _ _ Hc) in Hin as (x & Hx & E).
  apply rbind_ok in E as (t & Ht & [= <- <-]). done.
Qed.

(** The scores of a day are numbers. *)
Definition numeric (bundles : list FeatureSignalBundle) : Prop :=
  ∀ b s, b ∈ bundles → score_candidate b = Ok s → is_nan s = false.

(** A higher score, or the same and an identifier that is no greater. *)
Definition outranks (b b' : FeatureSignalBundle) : Prop :=
  ∀ s s', score_candidate b = Ok s → score_candidate b' = Ok s' →
    SFltb s' s = true ∨ (SFeqb s s' = true ∧ String.leb (fb_entity_id b) (fb_entity_id b') = true).
(** A score that the configuration admits. *)
Definition admitted (config : PoolSelectionConfig) (b : FeatureSignalBundle) : Prop :=
  ∃ s, score_candidate b = Ok s ∧ ∀ m, min_candidate_score config = Some m → SFleb m s = true.

Lemma SFcompare_opp a b : SFcompare (SFopp a) (SFopp b) = SFcompare b a.
Proof.
  destruct a as [[]|[]| |[] m e], b as [[]|[]| |[] m' e']; simpl; try done; f_equal;
  rewrite (Z.compare_antisym e' e); destruct (e' ?= e)%Z; simpl; try done;
  change (PosDef.Pos.compare_cont Eq) with Pos.compare; rewrite (Pos.compare_antisym m' m); try done; by destruct (m' ?= m)%positive.
Qed.
Lemma SFcompare_flip a b : SFcompare b a = CompOpp <$> SFcompare a b.
Proof.
  destruct a as [[]|[]| |[] m e], b as [[]|[]| |[] m' e']; simpl; try done; f_equal;
  rewrite (Z.compare_antisym e' e); destruct (e' ?= e)%Z; simpl; try done;
  change (PosDef.Pos.compare_cont Eq) with Pos.compare; rewrite (Pos.compare_antisym m' m); try done; by destruct (m' ?= m)%positive.
Qed.
Lemma SFcompare_total a b : is_nan a = false → is_nan b = false → SFcompare a b ≠ None.
Proof. by destruct a as [[]|[]| |[] m e], b as [[]|[]| |[] m' e']. Qed.

(** The order of the ranking, in terms of scores. *)
Lemma rank_key_outranks b b' s s' :
  is_nan s = false → is_nan s' = false → score_candidate b = Ok s → score_candidate b' = Ok s' →
  key_leb (rank_key (s, b)) (rank_key (s', b')) = true → outranks b b'.
Proof.
  intros Hn Hn' Hs Hs' Hk t t' Ht Ht'. rewrite Hs in Ht. injection Ht as <-. rewrite Hs' in Ht'. injection Ht' as <-.
  revert Hk. unfold key_leb, rank_key. cbn [tuple_ltb atom_eqb atom_ltb fst snd]. unfold SFeqb, SFltb.
  rewrite !SFcompare_opp, (SFcompare_flip s s'). pose proof (SFcompare_total s s' Hn Hn') as Ht.
  destruct (SFcompare s s') as [[]|]; cbn; try done; [|by left].
  right. split; [done|]. destruct (String.eqb_spec (fb_entity_id b') (fb_entity_id b)) as [->|_].
  - by destruct (String.leb_total (fb_entity_id b) (fb_entity_id b)).
  - by destruct (String.leb (fb_entity_id b) (fb_entity_id b')).
Qed.

Lemma high_enough_iff config s b :
  high_enough config (s, b) = true ↔ ∀ m, min_candidate_score config = Some m → SFleb m s = true.
Proof. unfold high_enough. destruct (min_candidate_score config) as [m|]; cbn; naive_solver. Qed.

(** What is observed: the head of the ranking of the admitted bundles. *)
Lemma ranking bundles config observed :
  rank_candidates bundles config = Ok observed → NoDup (ids bundles) →
  ∃ L n, observed = map snd (take n L) ∧ NoDup (map (λ x, fb_entity_id x.2) L) ∧
    (∀ s b, (s, b) ∈ L ↔ b ∈ bundles ∧ score_candidate b = Ok s ∧ high_enough config (s, b) = true) ∧
    ((n < length L)%nat → ∃ k, observation_limit config = Some k ∧ Z.to_nat k = n) ∧
    (numeric bundles → StronglySorted (λ x y, key_leb (rank_key x) (rank_key y)) L).
Proof.
  intros Hr Hn. unfold rank_candidates in Hr. apply rbind_ok in Hr as (cands & Hc & [= Hobserved]).
  set (L := sort_by rank_key (List.filter (high_enough config) cands)) in *.
  assert (∀ x, x ∈ L ↔ x ∈ cands ∧ high_enough config x = true) as HL.
  { intros x. unfold L, sort_by. rewrite elem_of_py_sort. rewrite !list_elem_of_In, filter_In. done. }
  exists L, (match observation_limit config with Some k => Z.to_nat k | None => length L end). split_and!.
  - rewrite <- Hobserved. destruct (observation_limit config); [by rewrite firstn_map|by rewrite firstn_all].
  - rewrite <- (map_map snd fb_entity_id). eapply NoDup_map_submseteq; [|exact Hn].
    assert (map snd cands = bundles) as <-.
    { clear - Hc. apply rmap_list_ok in Hc. induction Hc as [|x y l l' Hxy _ IH]; [done|].
      apply rbind_ok in Hxy as (t & _ & [= <-]). cbn. by f_equal. }
    apply (fmap_submseteq snd). unfold L. rewrite sort_by_perm. apply sublist_submseteq, filter_sublist.
  - intros s b. rewrite HL. split.
    + intros [Hin Hh]. by apply (scored_elem _ _ _ _ Hc) in Hin as [? ?].
    + intros (Hb & Hs & Hh). split; [by eapply elem_of_scored|done].
  - destruct (observation_limit config) as [k|]; [eauto|lia].
  - intros Hnum. apply sort_by_sorted, list.Forall_forall. intros [u c] Hu. rewrite list_elem_of_In, filter_In, <- list_elem_of_In in Hu.
    destruct Hu as [Hu _]. apply (scored_elem _ _ _ _ Hc) in Hu as [Hcb Hcu]. specialize (Hnum _ _ Hcb Hcu). cbn. by destruct u.
Qed.

(** Who is passed over does not outrank who is taken. *)
Lemma passed_over bundles config observed (frozen : list string) m b b' s s' :
  rank_candidates bundles config = Ok observed → NoDup (ids bundles) → numeric bundles → b ∈ bundles → b' ∈ bundles →
  score_candidate b = Ok s → score_candidate b' = Ok s' → high_enough config (s', b') = true →
  fb_entity_id b ∈ take m (filter (λ e, e ∉ frozen) (ids observed)) → fb_entity_id b' ∉ frozen →
  fb_entity_id b' ∉ take m (filter (λ e, e ∉ frozen) (ids observed)) → key_leb (rank_key (s, b)) (rank_key (s', b')) = true.
Proof.
  intros Hr Hn Hnum Hb Hb' Hs Hs' Hhigh Hin Hnf Hout. destruct (ranking _ _ _ Hr Hn) as (L & n & -> & HnL & HL & _ & Hsorted).
  rewrite map_map in Hin, Hout.
  assert ((s, b) ∈ L) as HLb.
  { assert (fb_entity_id b ∈ map (λ x, fb_entity_id x.2) (take n L)) as Ht.
    { apply elem_of_take in Hin as (i & Hi%list_elem_of_lookup_2 & _). by apply list_elem_of_filter in Hi as [_ Hi]. }
    apply list_elem_of_fmap in Ht as ([t c] & Heq & Ht). cbn in Heq. assert ((t, c) ∈ L) as Htc by (eapply elem_of_sublist; [apply sublist_take|exact Ht]).
    pose proof (proj1 (HL t c) Htc) as (Hcb & Hct & _). assert (b = c) as ->; [|congruence]. eapply NoDup_map_inj; [exact Hn|done..]. }
  destruct (taken_before (λ x, fb_entity_id x.2) (λ e, e ∉ frozen) L n m (s, b) (s', b')) as (l1 & l2 & -> & H1 & H2);
    [done|done|by apply HL|done|done|done|].
  specialize (Hsorted Hnum). apply StronglySorted_app in Hsorted as (Hsorted & _ & _). by apply Is_true_true, Hsorted.
Qed.

(** A place stays free only when nobody else is observed. *)
Lemma left_out_full bundles config observed (frozen : list string) b' :
  rank_candidates bundles config = Ok observed → NoDup (ids bundles) → Z.of_nat (length frozen) ≤ capacity config →
  b' ∈ bundles → admitted config b' →
  let sel := (frozen ++ take (Z.to_nat (capacity config - Z.of_nat (length frozen))) (filter (λ e, e ∉ frozen) (ids observed)))%list in
  fb_entity_id b' ∉ sel →
  Z.of_nat (length sel) = capacity config ∨ ∃ n, observation_limit config = Some n ∧ n ≤ Z.of_nat (length sel).
Proof.
  intros Hr Hn Hfit Hb' (s' & Hs' & Hhigh%(high_enough_iff _ _ b')) sel Hout.
  destruct (ranking _ _ _ Hr Hn) as (L & n & Hobs & HnL & HL & Hlimit & _).
  destruct (decide (Z.of_nat (length sel) = capacity config)) as [|Hroom]; [by left|right].
  assert (∀ e, e ∈ ids observed → e ∈ sel) as Hall.
  { intros e He. unfold sel in *. rewrite length_app, length_take in Hroom. rewrite elem_of_app.
    destruct (decide (e ∈ frozen)); [by left|right]. rewrite take_ge by lia. by apply list_elem_of_filter. }
  assert (n < length L)%nat as Hlt.
  { destruct (Nat.lt_ge_cases n (length L)) as [|Hge]; [done|]. exfalso. apply Hout, Hall. rewrite Hobs, take_ge by done.
    apply list_elem_of_fmap_2. apply list_elem_of_fmap. exists (s', b'). split; [done|]. by apply HL. }
  destruct (Hlimit Hlt) as (k & Hk & Hkn). exists k. split; [done|].
  assert (length (ids observed) ≤ length sel)%nat as Hle.
  { apply submseteq_length, NoDup_submseteq; [|done]. eapply NoDup_map_submseteq; [|exact Hn]. by apply (rank_candidates_ok _ _ _ Hr). }
  rewrite Hobs, !length_map, length_take in Hle. lia.
Qed.

(** C27: a pool is selected whenever some bundle is given, all are of the cycle
    and of different entities, their scores are convertible, and the entities
    frozen so far or now are among them and fit; nothing else makes a selection
    succeed. The pool is then valid and starts with the frozen entities: those
    the previous pool selected, in its order, its others by identifier, then
    those frozen now; each has the reason it was first frozen for. The pool has
    no entity twice and none that is not current. An admitted entity is left out
    only if the pool is full or has as many entities as may be observed, and,
    unless a score is NaN, only for entities that are frozen or outrank it. *)
Theorem alpha_pool_is_well_chosen ws bundles previous cap frozen config :
  make_config config = Ok config → held_once previous frozen →
  (accepted (ws_cycle_id ws) bundles (frozen_order previous frozen) (capacity config) →
    is_ok (select_official_alpha_pool ws bundles previous cap frozen (Some config)) = true) ∧
  (∀ pool, select_official_alpha_pool ws bundles previous cap frozen (Some config) = Ok pool →
    accepted (ws_cycle_id ws) bundles (frozen_order previous frozen) (capacity config) ∧ pool_valid pool = true ∧
    dkeys (freeze_reason_map pool) = frozen_order previous frozen ∧
    (∀ e, dget e (freeze_reason_map pool) = frozen_reason previous frozen e) ∧
    frozen_order previous frozen `prefix_of` selected_entities pool ∧
    NoDup (selected_entities pool) ∧ selected_entities pool ⊆ ids bundles ∧
    (∀ b', b' ∈ bundles → fb_entity_id b' ∉ selected_entities pool → admitted config b' →
       Z.of_nat (length (selected_entities pool)) = capacity config ∨
       ∃ n, observation_limit config = Some n ∧ n ≤ Z.of_nat (length (selected_entities pool))) ∧
    (numeric bundles → ∀ b b', b ∈ bundles → b' ∈ bundles →
       fb_entity_id b ∈ selected_entities pool → fb_entity_id b ∉ frozen_order previous frozen →
       fb_entity_id b' ∉ selected_entities pool → admitted config b' → outranks b b')).
Proof.
  intros Hconfig Honce. rewrite <- (merged_order previous frozen Honce). set (reasons := merge_frozen_entities previous frozen). split.
  - intros Hacc. destruct (rank_candidates bundles config) as [observed|e] eqn:Hr.
    + rewrite (proj2 (select_pool_iff ws bundles previous cap frozen config
        (pool_of (ws_cycle_id ws) previous (capacity config) reasons observed) Hconfig)); [done|]. split; [exact Hacc|]. eauto.
    + pose proof (rank_candidates_total bundles config (all_scorable _ _ _ _ Hacc)) as Ht. by rewrite Hr in Ht.
  - intros pool (Hacc & observed & Hr & ->)%select_pool_iff; [|done].
    fold reasons in Hacc. split; [done|]. pose proof Hacc as [Hne Hcy Hn Hs Hfz Hfit]. unfold dkeys in Hfit. rewrite length_map in Hfit.
    destruct (rank_candidates_ok _ _ _ Hr) as [_ Hsub].
    assert (1 ≤ capacity config ≤ 100) as Hcap by (unfold make_config, MAX_OFFICIAL_ALPHA_POOL_CAPACITY in Hconfig; rinv; lia).
    assert (NoDup (ids observed)) as Hno by by eapply NoDup_map_submseteq.
    pose proof (NoDup_merge_frozen previous frozen) as Hnd. fold reasons in Hnd.
    split; [by apply pool_of_valid|]. split; [done|]. split; [intros e; by apply merged_reason|]. split; [by eexists|].
    assert (ids observed ⊆ ids bundles) as Hobs.
    { intros e He. eapply elem_of_submseteq; [exact He|]. by apply (fmap_submseteq fb_entity_id). }
    cbn [pool_of selected_entities]. set (rest := take _ _).
    assert (∀ e, e ∈ rest → e ∉ dkeys reasons ∧ e ∈ ids observed) as Hrest.
    { intros e (i & Hi%list_elem_of_lookup_2 & _)%elem_of_take. by apply list_elem_of_filter in Hi. }
    split_and!.
    + apply NoDup_app. split_and!; [done| |].
      * intros e He Hre. by apply Hrest in Hre as [? _].
      * eapply sublist_NoDup; [|apply sublist_take]. by apply NoDup_filter.
    + intros e [He|He]%elem_of_app; [by apply Hfz|]. by apply Hobs, Hrest.
    + intros b' Hb' Hout Hadm. pose proof (left_out_full bundles config observed (dkeys reasons) b' Hr Hn) as Hfull.
      assert (length (dkeys reasons) = length reasons) as Hk by apply length_map. rewrite Hk in Hfull. by apply Hfull.
    + intros Hnum b b' Hb Hb' Hin Hnf Hout (s' & Hs' & Hhigh%(high_enough_iff _ _ b')).
      apply elem_of_app in Hin as [?|Hin]; [done|]. apply not_elem_of_app in Hout as [Hnf' Hout].
      destruct (score_candidate b) as [s|e] eqn:Hsb.
      2: { rewrite list.Forall_forall in Hs. specialize (Hs b Hb). unfold scorable in Hs. by rewrite Hsb in Hs. }
      apply (rank_key_outranks b b' s s'); [exact (Hnum b s Hb Hsb)|exact (Hnum b' s' Hb' Hs')|done|done|].
      by apply (passed_over bundles config observed (dkeys reasons) (Z.to_nat (capacity config - Z.of_nat (length reasons))) b b').
Qed.

(** *** The fixed pool *)
Lemma add_targets_ok targets acc r :
  rfold add_target acc targets = Ok r ↔
  r = (acc ++ map strip targets)%list ∧ NoDup (map strip targets) ∧
  (∀ e, e ∈ map strip targets → e ≠ "" ∧ e ∉ acc).
Proof.
  revert acc. induction targets as [|t targets IH]; intros acc; cbn [rfold map].
  - rewrite app_nil_r. split; [intros [= <-]; split_and!; [done|constructor|by intros e ?%not_elem_of_nil]|by intros (-> & _)].
  - unfold add_target at 1. rewrite NoDup_cons, rbind_ok. setoid_rewrite IH. setoid_rewrite elem_of_cons.
    destruct (is_empty (strip t)) eqn:Et; cbn [guard_err rbind].
    { split; [by intros (? & ? & _)|]. intros (_ & _ & He). destruct (He (strip t) ltac:(by left)) as [Hne _].
      by destruct (strip t). }
    case_bool_decide as Hin; cbn [guard_err rbind].
    { split; [by intros (? & ? & _)|]. intros (_ & _ & He). by destruct (He (strip t) ltac:(by left)) as [_ Hni]. }
    assert (strip t ≠ "") as Hnt by (intros Heq; by rewrite Heq in Et). split.
    + intros (x & [= <-] & -> & Hn & He). split_and!; [by rewrite <- app_assoc| |done|].
      * intros Hm. destruct (He _ Hm) as [_ Hni]. apply Hni, elem_of_app. right. by apply list_elem_of_singleton.
      * intros e [->|Hm]; [done|]. destruct (He _ Hm) as [? Hni]. split; [done|]. intros Ha. apply Hni, elem_of_app. by left.
    + intros (-> & [Hm Hn] & He). eexists. split; [done|]. split_and!; [by rewrite <- app_assoc|done|].
      intros e He'. destruct (He e ltac:(by right)) as [? Hni]. split; [done|].
      intros [?|Heq%list_elem_of_singleton]%elem_of_app; [done|]. by subst.
Qed.

Lemma dset_fresh {V} (v : V) l acc :
  NoDup l → (∀ e, e ∈ l → e ∉ dkeys acc) →
  fold_left (λ d e, dset e v d) l acc = (acc ++ map (λ e, (e, v)) l)%list.
Proof.
  revert acc. induction l as [|e l IH]; intros acc Hn Ha; cbn; [by rewrite app_nil_r|].
  apply NoDup_cons in Hn as [He Hn]. rewrite dset_new by (apply Ha; left). rewrite IH; [by rewrite <- app_assoc|done|].
  intros e' He'. unfold dkeys. rewrite map_app. cbn. rewrite not_elem_of_app, list_elem_of_singleton.
  split; [apply Ha; by right|by intros ->].
Qed.

Lemma set_defaults_fresh items : NoDup (dkeys items) → set_defaults [] items = items.
Proof.
  unfold set_defaults. intros Hn. cut (∀ acc, NoDup (dkeys (acc ++ items)) →
    fold_left (λ acc er, dsetdefault er.1 er.2 acc) items acc = (acc ++ items)%list); [intros Hc; by apply (Hc [])|].
  clear Hn. induction items as [|[k v] items IH]; intros acc Hn; cbn; [by rewrite app_nil_r|].
  assert (k ∉ dkeys acc) as Hk.
  { unfold dkeys in *. rewrite map_app in Hn. apply NoDup_app in Hn as (_ & Hd & _). intros Hin. apply (Hd k Hin). left. }
  unfold dsetdefault. destruct (dget k acc) eqn:E; [destruct Hk; apply elem_of_dkeys; eauto|].
  rewrite dset_new by done. rewrite IH; rewrite <- app_assoc; done.
Qed.

Lemma add_bundles_ok cycle bundles d :
  current_bundle_by_entity cycle bundles = Ok d ↔
  Forall (λ b, fb_cycle_id b = cycle) bundles ∧ NoDup (ids bundles) ∧ d = map (λ b, (fb_entity_id b, b)) bundles.
Proof.
  unfold current_bundle_by_entity. rewrite (rfold_index fb_entity_id (λ b, fb_cycle_id b = cycle)).
  - split; [by intros (? & ? & _ & ->)|]. intros (? & ? & ->). split_and!; try done. intros e _. apply not_elem_of_nil.
  - intros acc b acc'. unfold add_bundle. destruct (String.eqb_spec (fb_cycle_id b) cycle); cbn [negb]; [|cbn; naive_solver].
    change (guard_err false _) with (Ok (E := core_error) ()). cbn [rbind]. rewrite index_step. naive_solver.
Qed.

Lemma target_bundles_spec spec bundles :
  NoDup (ids bundles) →
  ∀ chosen, target_bundles spec (map (λ b, (fb_entity_id b, b)) bundles) = Ok chosen →
  ids chosen = manifest_targets spec ∧ chosen ⊆ bundles.
Proof.
  intros Hn chosen. unfold target_bundles. rewrite rbind_ok. intros (_ & Hg%guard_err_ok & [= <-]).
  apply negb_false_iff, bool_decide_eq_true in Hg. revert Hg. induction (manifest_targets spec) as [|t ts IH].
  { intros _. split; [done|]. by intros x ?%not_elem_of_nil. }
  rewrite filter_cons. cbn [omap list_omap]. destruct (decide (dhas t _ = false)) as [|Ht]; [done|]. intros Hg.
  apply not_false_is_true in Ht. unfold dhas in Ht. destruct (dget t _) as [b|] eqn:Eb; [|done].
  destruct (IH Hg) as [IH1 IH2]. apply dget_Some_elem, list_elem_of_fmap in Eb as (b' & Heq & Hin).
  injection Heq as -> ->.
  cbn [map]. split; [by f_equal|]. intros x [->|Hx]%elem_of_cons; [done|]. by apply IH2.
Qed.

Lemma target_bundles_total spec bundles :
  manifest_targets spec ⊆ ids bundles →
  is_ok (target_bundles spec (map (λ b, (fb_entity_id b, b)) bundles)) = true.
Proof.
  intros Hs. unfold target_bundles. rewrite filter_none; [by rewrite bool_decide_eq_true_2|].
  apply list.Forall_forall. intros e He. apply not_false_iff_true, dhas_true. unfold dkeys. rewrite map_map. by apply Hs.
Qed.

(** The pool of twenty. *)
Definition fixed_pool (cycle reason : string) (targets : list string) : OfficialAlphaPool :=
  mkPool cycle 20 20 targets targets [] (map (λ e, (e, reason)) targets).

Lemma keys_with (reason : string) ts : dkeys (map (λ e, (e, reason)) ts) = ts.
Proof. unfold dkeys. rewrite map_map. cbn. apply map_id. Qed.

Lemma mvp20_reasons ts reason :
  NoDup ts → merge_frozen_entities None (frozen_entities (mkSpec ts reason)) = map (λ e, (e, reason)) ts.
Proof.
  intros Hn. unfold merge_frozen_entities, frozen_entities. cbn [manifest_targets target_freeze_reason].
  rewrite dset_fresh by (try done; intros e _; apply not_elem_of_nil). apply set_defaults_fresh. by rewrite keys_with.
Qed.

Lemma fixed_pool_of cycle reason ts observed :
  NoDup ts → length ts = 20%nat → ids observed ⊆ ts →
  pool_of cycle None 20 (map (λ e, (e, reason)) ts) observed = fixed_pool cycle reason ts.
Proof.
  intros Hn Hl Ho. unfold pool_of, fixed_pool. rewrite keys_with, length_map, Hl. change (Z.to_nat (20 - Z.of_nat 20)) with O.
  cbn [take diff_selected_entities fst snd]. rewrite app_nil_r.
  assert (count_eligible_entities observed (map (λ e, (e, reason)) ts) = 20) as ->; [|done].
  unfold count_eligible_entities. rewrite keys_with.
  replace (list_to_set (ids observed) ∪ list_to_set ts : gset string) with (list_to_set ts : gset string) by set_solver.
  by rewrite size_list_to_set, Hl.
Qed.

(** C21: the decision pool of the MVP is fixed: it is selected exactly when the
    manifest names twenty different entities, none blank, the reason is not
    blank, the bundles are of the cycle and of different entities, and each
    target has one whose score is convertible; it then holds the targets, in
    the order of the manifest and nothing else, all of them frozen and added,
    whatever their scores and whatever other bundles there are. *)
Theorem mvp20_pool_is_fixed ws bundles targets reason pool :
  select_mvp20_decision_pool ws bundles (inl targets) reason = Ok pool ↔
  let ts := map strip targets in
  length targets = 20%nat ∧ NoDup ts ∧ (∀ t, t ∈ ts → t ≠ "") ∧ strip reason ≠ "" ∧
  Forall (λ b, fb_cycle_id b = ws_cycle_id ws) bundles ∧ NoDup (ids bundles) ∧
  (∀ t, t ∈ ts → ∃ b, b ∈ bundles ∧ fb_entity_id b = t ∧ scorable b) ∧
  pool = fixed_pool (ws_cycle_id ws) reason ts.
Proof.
  unfold select_mvp20_decision_pool, make_spec, normalize_manifest_targets. cbn zeta. set (ts := map strip targets).
  assert (∀ n, length targets = n → length ts = n) as Hlen by (intros n <-; apply length_map).
  split.
  - intros E. apply rbind_ok in E as (spec & Hspec & E). apply rbind_ok in Hspec as (normalized & Hn & Hspec).
    apply rbind_ok in Hn as (r & Hr%add_targets_ok & Hn). destruct Hr as (-> & Hnd & Hne). cbn [app] in Hn. fold ts in Hn, Hnd, Hne.
    apply rbind_ok in Hn as (_ & H20%guard_err_ok & [= <-]). apply negb_false_iff, Z.eqb_eq in H20.
    apply rbind_ok in Hspec as (_ & Hreason%guard_err_ok & [= <-]).
    apply rbind_ok in E as (d & Hd%add_bundles_ok & E). destruct Hd as (Hcy & Hids & ->).
    apply rbind_ok in E as (chosen & Hc & E). unfold MVP20_DECISION_POOL_CAPACITY in H20, E.
    change (make_config (mkConfig 20 (Some 20) None)) with (Ok (E := core_error) (mkConfig 20 (Some 20) None)) in E. cbn [rbind] in E.
    destruct (target_bundles_spec _ _ Hids _ Hc) as [Hch Hsub]. cbn [manifest_targets] in Hch.
    apply select_pool_iff in E as (Hacc & observed & Hobs & ->); [|done].
    cbn zeta in Hacc. rewrite mvp20_reasons in Hacc |- * by done. cbn [capacity] in Hacc |- *.
    pose proof (rank_candidates_ok _ _ _ Hobs) as [_ Hos].
    assert (length ts = 20%nat) as Hl by lia.
    split_and!.
    + unfold ts in Hl. by rewrite length_map in Hl.
    + done.
    + intros t Ht. by apply Hne.
    + intros Heq. by rewrite Heq in Hreason.
    + done.
    + done.
    + intros t Ht. rewrite <- Hch in Ht. apply list_elem_of_fmap in Ht as (b & -> & Hb). exists b.
      split_and!; [by apply Hsub|done|]. pose proof (all_scorable _ _ _ _ Hacc) as Hs. rewrite list.Forall_forall in Hs. auto.
    + apply fixed_pool_of; [done..|]. intros e He. rewrite <- Hch. eapply elem_of_submseteq; [exact He|].
      by apply (fmap_submseteq fb_entity_id).
  - intros (Hl & Hnd & Hne & Hreason & Hcy & Hids & Hts & ->).
    rewrite (proj2 (add_targets_ok targets [] ts)); [|by split_and!; [..|intros e He; split; [apply Hne|apply not_elem_of_nil]]].
    cbn [rbind]. unfold MVP20_DECISION_POOL_CAPACITY. rewrite (Hlen 20%nat) by done. change (negb (Z.of_nat 20 =? 20)) with false. cbn [rbind guard_err].
    assert (is_empty (strip reason) = false) as -> by by destruct (strip reason). cbn [rbind guard_err].
    rewrite (proj2 (add_bundles_ok (ws_cycle_id ws) bundles (map (λ b, (fb_entity_id b, b)) bundles))) by done. cbn [rbind].
    assert (manifest_targets (mkSpec ts reason) ⊆ ids bundles) as Hin.
    { intros t Ht. destruct (Hts t Ht) as (b & Hb & <- & _). by apply list_elem_of_fmap_2. }
    destruct (target_bundles (mkSpec ts reason) (map (λ b, (fb_entity_id b, b)) bundles)) as [chosen|e] eqn:Hc; [|pose proof (target_bundles_total _ _ Hin) as Ht; by rewrite Hc in Ht].
    destruct (target_bundles_spec _ _ Hids _ Hc) as [Hch Hsub]. cbn [manifest_targets] in Hch. cbn [rbind].
    assert (Forall scorable chosen) as Hs.
    { apply list.Forall_forall. intros b Hb. destruct (Hts (fb_entity_id b)) as (b' & Hb' & Heq & Hs).
      { rewrite <- Hch. by apply list_elem_of_fmap_2. }
      assert (b = b') as ->; [|done]. eapply NoDup_map_inj; [exact Hids|by apply Hsub|done|done]. }
    change (make_config (mkConfig 20 (Some 20) None)) with (Ok (E := core_error) (mkConfig 20 (Some 20) None)). cbn [rbind].
    refine (proj2 (select_pool_iff _ _ _ _ _ _ _ _) _); [done|]. cbn zeta. rewrite mvp20_reasons by done. cbn [capacity].
    destruct (rank_candidates chosen (mkConfig 20 (Some 20) None)) as [observed|e] eqn:Hobs;
      [|pose proof (rank_candidates_total chosen (mkConfig 20 (Some 20) None) Hs) as Ht; by rewrite Hobs in Ht].
    split.
    + split.
      * intros ->. cbn in Hch. rewrite <- Hch in Hlen. by specialize (Hlen 20%nat Hl).
      * apply list.Forall_forall. intros b Hb. rewrite list.Forall_forall in Hcy. auto.
      * by rewrite Hch.
      * done.
      * by rewrite keys_with, Hch.
      * rewrite keys_with, (Hlen 20%nat) by done. lia.
    + exists observed. split; [done|]. symmetry. apply fixed_pool_of; [done|auto|].
      intros e He. rewrite <- Hch. eapply elem_of_submseteq; [exact He|]. apply (fmap_submseteq fb_entity_id).
      by eapply rank_candidates_ok.
Qed.
End selection.
End UniverseTheorems.

(** ** Recommendations *)
Module RecommendationTheorems.
Import Recommendations.

(** *** The override that counts *)
Definition last_override (l : list OverrideRecord) (cycle e : string) : option OverrideRecord :=
  List.find (matches_override cycle e) (rev l).

Lemma matches_iff cycle e o : matches_override cycle e o = true ↔ ov_cycle_id o = cycle ∧ ov_entity_id o = e.
Proof. unfold matches_override. by rewrite andb_true_iff, !String.eqb_eq. Qed.

Lemma matches_key o o' cycle e :
  matches_override (ov_cycle_id o) (ov_entity_id o) o' = true → matches_override cycle e o' = matches_override cycle e o.
Proof. intros [Hc He]%matches_iff. unfold matches_override. by rewrite Hc, He. Qed.

Lemma matches_self o : matches_override (ov_cycle_id o) (ov_entity_id o) o = true.
Proof. by apply matches_iff. Qed.

Lemma find_set_override o l cycle e :
  find_override (set_override o l) cycle e = if matches_override cycle e o then Some o else find_override l cycle e.
Proof.
  unfold find_override. induction l as [|x l IH]; cbn [set_override List.find]; [done|].
  destruct (matches_override (ov_cycle_id o) (ov_entity_id o) x) eqn:Ex; cbn [List.find].
  - rewrite (matches_key _ _ cycle e Ex). by destruct (matches_override cycle e o).
  - destruct (matches_override cycle e x) eqn:E; [|exact IH]. destruct (matches_override cycle e o) eqn:Eo; [|done].
    apply matches_iff in E as [<- <-], Eo as [Hc He]. exfalso. unfold matches_override in Ex. by rewrite Hc, He, !String.eqb_refl in Ex.
Qed.

(** The dictionary of overrides gives the last one that was listed. *)
Lemma find_latest l cycle e : find_override (latest_overrides l) cycle e = last_override l cycle e.
Proof.
  unfold latest_overrides, last_override. induction l as [|o l IH] using rev_ind; [done|].
  rewrite fold_left_app, rev_app_distr. cbn [fold_left rev app List.find]. rewrite find_set_override, IH. done.
Qed.

Lemma set_override_cycles (c : string) o l :
  Forall (λ x, ov_cycle_id x = c) (set_override o l) ↔ ov_cycle_id o = c ∧ Forall (λ x, ov_cycle_id x = c) l.
Proof.
  induction l as [|x l IH]; cbn [set_override]; [by rewrite Forall_cons|].
  destruct (matches_override _ _ x) eqn:Ex; rewrite !Forall_cons; [|rewrite IH; naive_solver].
  apply matches_iff in Ex as [Hc _]. rewrite Hc. naive_solver.
Qed.

Lemma latest_cycles (c : string) l :
  Forall (λ x, ov_cycle_id x = c) (latest_overrides l) ↔ Forall (λ x, ov_cycle_id x = c) l.
Proof.
  unfold latest_overrides. induction l as [|o l IH] using rev_ind; [done|].
  rewrite fold_left_app. cbn [fold_left]. rewrite set_override_cycles, IH, Forall_app, Forall_singleton. naive_solver.
Qed.

Lemma find_filter_cycle cycle e l :
  List.find (matches_override cycle e) (List.filter (λ o, String.eqb (ov_cycle_id o) cycle) l) = List.find (matches_override cycle e) l.
Proof.
  induction l as [|x l IH]; [done|]. cbn [List.filter List.find].
  destruct (String.eqb_spec (ov_cycle_id x) cycle) as [Hc|Hc]; cbn [List.find]; [by rewrite IH|].
  rewrite IH. destruct (matches_override cycle e x) eqn:E; [|done]. by apply matches_iff in E as [? _].
Qed.

(** The overrides a call is given, or else those of the store. *)
Definition known_overrides (overrides : option (list OverrideRecord)) (store : list OverrideRecord) : list OverrideRecord :=
  default store overrides.

Lemma find_resolved pool overrides store e :
  find_override (resolve_overrides pool overrides store) (pool_cycle_id pool) e =
  last_override (known_overrides overrides store) (pool_cycle_id pool) e.
Proof.
  unfold resolve_overrides, known_overrides. destruct overrides as [l|]; cbn [default from_option]; rewrite find_latest; [done|].
  unfold last_override. rewrite <- (filter_rev). apply find_filter_cycle.
Qed.

(** *** The inputs *)
Record consistent (pool : OfficialAlphaPool) (analyses : list AlphaResultSnapshot) (ws : WorldStateSnapshot)
    (overrides : list OverrideRecord) : Prop := {
  same_cycle : pool_cycle_id pool = ws_cycle_id ws;
  analysed_now : Forall (λ a, al_cycle_id a = pool_cycle_id pool) analyses;
  analysed_once : NoDup (map al_entity_id analyses);
  analysed_all : ∀ e, e ∈ map al_entity_id analyses ↔ e ∈ selected_entities pool;
  overridden_now : Forall (λ o, ov_cycle_id o = pool_cycle_id pool) overrides;
}.

Lemma existsb_false {A} (f : A → bool) l : existsb f l = false ↔ ∀ x, x ∈ l → f x = false.
Proof.
  induction l as [|x l IH]; cbn; [split; [by intros _ x ?%not_elem_of_nil|done]|].
  rewrite orb_false_iff, IH. setoid_rewrite elem_of_cons. naive_solver.
Qed.

Lemma validate_inputs_ok pool analyses ws overrides d :
  validate_inputs pool analyses ws overrides = Ok d ↔
  consistent pool analyses ws overrides ∧ d = map (λ a, (al_entity_id a, a)) analyses.
Proof.
  assert (∀ acc a acc', add_analysis pool acc a = Ok acc' ↔
    (al_cycle_id a = pool_cycle_id pool ∧ al_entity_id a ∈ selected_entities pool) ∧
    al_entity_id a ∉ dkeys acc ∧ acc' = dset (al_entity_id a) a acc) as Hstep.
  { intros acc a acc'. unfold add_analysis. destruct (String.eqb_spec (al_cycle_id a) (pool_cycle_id pool)); cbn [negb]; [|cbn; naive_solver].
    change (guard_err false _) with (Ok (E := core_error) ()). cbn [rbind].
    case_bool_decide; cbn [negb]; [|cbn; naive_solver]. change (guard_err false _) with (Ok (E := core_error) ()). cbn [rbind].
    rewrite index_step. naive_solver. }
  assert (∀ x, rfold (add_analysis pool) [] analyses = Ok x ↔
    Forall (λ a, al_cycle_id a = pool_cycle_id pool ∧ al_entity_id a ∈ selected_entities pool) analyses ∧
    NoDup (map al_entity_id analyses) ∧ x = map (λ a, (al_entity_id a, a)) analyses) as Hfold.
  { intros x. rewrite (rfold_index al_entity_id _ _ analyses [] x Hstep). split; [by intros (? & ? & _ & ->)|].
    intros (? & ? & ->). split_and!; try done. intros e _. apply not_elem_of_nil. }
  assert (∀ e, dhas e (map (λ a, (al_entity_id a, a)) analyses) = true ↔ e ∈ map al_entity_id analyses) as Hhas.
  { intros e. rewrite dhas_true. unfold dkeys. by rewrite map_map. }
  unfold validate_inputs. split.
  - intros E. apply rbind_ok in E as (_ & Hc%guard_err_ok & E). apply negb_false_iff, String.eqb_eq in Hc.
    apply rbind_ok in E as (x & (Ha & Hn & ->)%Hfold & E). apply rbind_ok in E as (_ & Hm%guard_err_ok & E).
    apply rbind_ok in E as (_ & Ho%guard_err_ok & [= <-]). rewrite existsb_false in Hm. rewrite existsb_false in Ho. split; [|done].
    rewrite list.Forall_forall in Ha. split; [done| |done| |].
    + apply list.Forall_forall. intros a Hin. by apply Ha.
    + intros e. split; [intros (a & -> & Hin)%list_elem_of_fmap; by apply Ha|]. intros He.
      apply Hhas. specialize (Hm e He). by apply negb_false_iff in Hm.
    + apply list.Forall_forall. intros o Hin. specialize (Ho o Hin). by apply negb_false_iff, String.eqb_eq in Ho.
  - intros ([Hc Ha Hn He Ho] & ->). rewrite Hc, String.eqb_refl. cbn [negb guard_err rbind]. rewrite list.Forall_forall in Ha. rewrite list.Forall_forall in Ho.
    rewrite (proj2 (Hfold (map (λ a, (al_entity_id a, a)) analyses))).
    2: { split_and!; [|done|done]. apply list.Forall_forall. intros a Hin. split; [by apply Ha|]. apply He. by apply list_elem_of_fmap_2. }
    cbn [rbind]. rewrite (proj2 (existsb_false _ (selected_entities pool))).
    2: { intros e Hin. apply negb_false_iff, Hhas. by apply He. }
    cbn [guard_err rbind]. rewrite (proj2 (existsb_false _ overrides)); [done|].
    intros o Hin. apply negb_false_iff, String.eqb_eq. rewrite (Ho o Hin). done.
Qed.

(** *** One recommendation *)
Definition usable (a : AlphaResultSnapshot) : Prop :=
  status a = alpha_ok → finite_float (al_confidence a) = true ∧ ∃ s, score a = Some s ∧ finite_float s = true.
Definition grade (a : recommended_action) : option string :=
  match a with buy => Some "A" | hold => Some "B" | reduce => Some "C" | inconclusive => None end.
(** What the analysis, or a person in its place, decides; an analysis that
    failed is not overridden. *)
Definition decided (a : AlphaResultSnapshot) (o : option OverrideRecord) : recommended_action :=
  match status a with
  | alpha_inconclusive => inconclusive
  | alpha_ok => match o with Some o => ov_action_type o | None => action_for_score (default S754_nan (score a)) end
  end.
Definition risk_forced (risk : pydict pyval) : bool :=
  match dget "force_inconclusive" risk with Some (PBool true) => true | _ => false end.
Definition off (ws : WorldStateSnapshot) : bool := bool_decide (final_regime ws = risk_off).
(** The gates have the last word. *)
Definition gated (risk : pydict pyval) (ws : WorldStateSnapshot) (x : recommended_action) : recommended_action :=
  if risk_forced risk then inconclusive else if off ws && bool_decide (x = buy) then hold else x.
Definition gates_applied (risk : pydict pyval) (ws : WorldStateSnapshot) (x : recommended_action) : pydict pyval :=
  if risk_forced risk then [("risk_gate", PStr "force_inconclusive")]
  else if off ws && bool_decide (x = buy) then [("regime_gate", PStr "risk_off_buy_to_hold")] else [].
Definition expected (cycle : string) (risk : pydict pyval) (ws : WorldStateSnapshot) (a : AlphaResultSnapshot)
    (o : option OverrideRecord) : RecommendationSnapshot :=
  let x := decided a o in
  let final := gated risk ws x in
  mkRecommendation cycle (al_entity_id a) final (grade final)
    match final with inconclusive => None | _ => Some (al_confidence a) end
    match o with Some _ => human_decision | None => by_system end match o with Some _ => true | None => false end
    (gates_applied risk ws x).

Lemma validated_ok r : recommendation_valid r = true → validated r = Ok r.
Proof. unfold validated. by intros ->. Qed.

Lemma candidate_ok a c :
  candidate_from_analysis a = Ok c ↔
  usable a ∧ c = mkRecommendation (al_cycle_id a) (al_entity_id a) (decided a None) (grade (decided a None))
    match decided a None with inconclusive => None | _ => Some (al_confidence a) end by_system false [].
Proof.
  unfold candidate_from_analysis, usable, decided. destruct (status a).
  - destruct (score a) as [s|]; [|split; [done|]; intros [Hu _]; by destruct (Hu eq_refl) as (_ & ? & ? & _)].
    change (default S754_nan (Some s)) with s. destruct (finite_float s) eqn:Es; cbn [negb];
      [|cbn; split; [done|]; intros [Hu _]; destruct (Hu eq_refl) as (_ & ? & [= <-] & ?); congruence].
    change (guard_err false _) with (Ok (E := core_error) ()). cbn [rbind].
    destruct (finite_float (al_confidence a)) eqn:Ec; cbn [negb];
      [|cbn; split; [done|]; intros [Hu _]; destruct (Hu eq_refl) as (? & _); congruence].
    change (guard_err false _) with (Ok (E := core_error) ()). cbn [rbind].
    assert (action_for_score s ≠ inconclusive) as Hni by (unfold action_for_score; by repeat case_match).
    assert (match action_for_score s with inconclusive => None | _ => Some (al_confidence a) end = Some (al_confidence a)) as ->
      by by destruct (action_for_score s).
    assert (∃ g, rating_for_action (action_for_score s) = Ok g ∧ grade (action_for_score s) = Some g) as (g & -> & ->)
      by (destruct (action_for_score s); naive_solver).
    cbn [rbind]. rewrite validated_ok.
    + split; [intros [= <-]|intros [_ ->]; done]. split; [|done]. intros _. eauto.
    + unfold recommendation_valid. cbn. by rewrite Ec, bool_decide_eq_false_2.
  - cbn. split; [intros [= <-]; done|by intros [_ ->]].
Qed.

(** The override of the loop belongs to the entity it is found for. *)
Lemma apply_override_ok cycle e act rt conf cs o :
  ov_cycle_id o = cycle → ov_entity_id o = e → (∀ c, conf = Some c → finite_float c = true) →
  apply_override (mkRecommendation cycle e act rt conf by_system false cs) o =
  Ok (mkRecommendation cycle e (ov_action_type o) (grade (ov_action_type o))
    match ov_action_type o with inconclusive => None | _ => conf end human_decision true cs).
Proof.
  intros Hc He Hconf. unfold apply_override. cbn [rec_cycle_id rec_entity_id]. rewrite Hc, He, !String.eqb_refl.
  cbn [negb guard_err rbind]. destruct (ov_action_type o) eqn:Eo; cbn [rating_for_action rbind grade constraints_applied confidence];
    apply validated_ok; unfold recommendation_valid; cbn; try done; destruct conf as [c|]; try done; by rewrite (Hconf c).
Qed.

Lemma force_ok c : force_inconclusive c = Ok (mkRecommendation (rec_cycle_id c) (rec_entity_id c) inconclusive None None
  (triggered_by c) (override_applied c) (constraints_applied c)).
Proof. unfold force_inconclusive. destruct c as [? ? [] [] [] ? ? ?]; reflexivity. Qed.

Lemma default_gate_ok inputs c :
  recommendation_valid c = true → (action_type c = inconclusive → rating c = None ∧ confidence c = None) →
  rating c = grade (action_type c) → constraints_applied c = [] →
  default_gate inputs c =
  Ok (let final := gated (risk_context inputs) (world_state inputs) (action_type c) in
      mkRecommendation (rec_cycle_id c) (rec_entity_id c) final (grade final)
        match final with inconclusive => None | _ => confidence c end (triggered_by c) (override_applied c)
        (gates_applied (risk_context inputs) (world_state inputs) (action_type c))).
Proof.
  intros Hv Hi Hr Hcs. unfold default_gate, gated, gates_applied, risk_forced, off. rewrite Hcs.
  destruct c as [cy en act rt conf tr ov cs]. cbn in *. subst rt cs.
  assert (Hforced : dget "force_inconclusive" (risk_context inputs) = Some (PBool true) ∨
    match dget "force_inconclusive" (risk_context inputs) with Some (PBool true) => true | _ => false end = false).
  { destruct (dget _ _) as [[]|]; auto. destruct b; auto. }
  destruct Hforced as [-> | Hf].
  - done.
  - rewrite Hf. destruct (dget "force_inconclusive" (risk_context inputs)) as [[| [] | | | | | | |]|]; try discriminate Hf;
    (destruct (bool_decide (final_regime (world_state inputs) = risk_off) && bool_decide (act = buy)) eqn:Eg;
      [apply andb_true_iff in Eg as [_ Eb]; apply bool_decide_eq_true in Eb as ->; unfold validated, recommendation_valid in *; cbn in *;
       destruct conf as [x|]; [|done]; apply andb_true_iff in Hv as [-> _]; reflexivity
      |by destruct act; try done; destruct (Hi eq_refl) as [_ ->]]).
Qed.

Lemma never_by_score s : action_for_score s ≠ inconclusive.
Proof. unfold action_for_score. by repeat case_match. Qed.

Lemma identity_ok c : validate_gated_identity c (rec_cycle_id c) (rec_entity_id c) = Ok ().
Proof. unfold validate_gated_identity. by rewrite !String.eqb_refl. Qed.

Lemma gated_inconclusive risk ws : gated risk ws inconclusive = inconclusive.
Proof. unfold gated. rewrite andb_false_r. by destruct (risk_forced risk). Qed.

Lemma find_override_key l cycle e o : find_override l cycle e = Some o → ov_cycle_id o = cycle ∧ ov_entity_id o = e.
Proof. unfold find_override. intros [_ Hm]%List.find_some. by apply matches_iff. Qed.

(** The candidate that reaches the gate, of an analysis and its override. *)
Definition candidate (a : AlphaResultSnapshot) (o : option OverrideRecord) : RecommendationSnapshot :=
  mkRecommendation (al_cycle_id a) (al_entity_id a) (decided a o) (grade (decided a o))
    match decided a o with inconclusive => None | _ => Some (al_confidence a) end
    match o with Some _ => human_decision | None => by_system end match o with Some _ => true | None => false end [].

Lemma candidate_valid a o : usable a → recommendation_valid (candidate a o) = true.
Proof.
  intros Hu. unfold recommendation_valid, candidate. cbn. destruct (decided a o) eqn:E; try done;
    (assert (finite_float (al_confidence a) = true) as ->; [|done]; unfold decided in E; destruct (status a) eqn:Es; [by apply Hu|done]).
Qed.

Lemma gate_candidate a o risk ws :
  usable a → default_gate (mkConstraintInputs ws risk) (candidate a o) = Ok (expected (al_cycle_id a) risk ws a o).
Proof.
  intros Hu. rewrite default_gate_ok; [|by apply candidate_valid| |done|done].
  - unfold expected, candidate. cbn. f_equal. f_equal. destruct (decided a o) eqn:E; try done.
    by rewrite gated_inconclusive.
  - unfold candidate. cbn. by intros ->.
Qed.

Lemma decided_inconclusive a : bool_decide (decided a None = inconclusive) = match status a with alpha_inconclusive => true | alpha_ok => false end.
Proof. unfold decided. destruct (status a); [apply bool_decide_eq_false, never_by_score|done]. Qed.

Lemma prepared_ok a o :
  usable a → (∀ w, o = Some w → ov_cycle_id w = al_cycle_id a ∧ ov_entity_id w = al_entity_id a) →
  prepared o (candidate a None) = Ok (candidate a o).
Proof.
  intros Hu Ho. unfold prepared. cbn [candidate action_type]. rewrite decided_inconclusive.
  destruct o as [w|]; cbn [rbind].
  - destruct (Ho w eq_refl) as [Hc He]. unfold candidate at 1. rewrite apply_override_ok; [|done..|].
    + cbn [rbind]. destruct (status a) eqn:Es; [|rewrite force_ok; cbn; unfold candidate, decided; by rewrite Es].
      unfold candidate, decided. rewrite Es. pose proof (never_by_score (default S754_nan (score a))). 
      by destruct (ov_action_type w), (action_for_score _).
    + intros c Hcf. pose proof (candidate_valid a None Hu) as Hv. unfold recommendation_valid, candidate in Hv. cbn in Hv.
      rewrite Hcf in Hv. by apply andb_true_iff in Hv as [? _].
  - destruct (status a) eqn:Es; [done|]. rewrite force_ok. unfold candidate, decided. by rewrite Es.
Qed.

Lemma settled_ok a o risk ws cycle e :
  usable a → al_cycle_id a = cycle → al_entity_id a = e →
  settle_gated default_gate (mkConstraintInputs ws risk) cycle e o (bool_decide (decided a None = inconclusive)) (candidate a o) =
  Ok (expected cycle risk ws a o).
Proof.
  intros Hu <- <-. unfold settle_gated. rewrite gate_candidate by done. cbn [rbind].
  change (al_cycle_id a) with (rec_cycle_id (expected (al_cycle_id a) risk ws a o)) at 2.
  change (al_entity_id a) with (rec_entity_id (expected (al_cycle_id a) risk ws a o)) at 1.
  rewrite identity_ok. cbn [rbind]. rewrite decided_inconclusive.
  assert ((if match status a with alpha_inconclusive => true | alpha_ok => false end
    then force_inconclusive (expected (al_cycle_id a) risk ws a o) else Ok (expected (al_cycle_id a) risk ws a o)) =
    Ok (expected (al_cycle_id a) risk ws a o)) as ->.
  { destruct (status a) eqn:Es; [done|]. rewrite force_ok. unfold expected, decided. rewrite Es, gated_inconclusive. done. }
  cbn [rbind]. by destruct o.
Qed.

Lemma recommend_ok pool ws risk overrides by_entity e a r :
  dget e by_entity = Some a → al_cycle_id a = pool_cycle_id pool → al_entity_id a = e →
  recommend pool default_gate (mkConstraintInputs ws risk) overrides by_entity e = Ok r ↔
  usable a ∧ r = expected (pool_cycle_id pool) risk ws a (find_override overrides (pool_cycle_id pool) e).
Proof.
  intros Hd Hc He. unfold recommend. rewrite Hd. set (o := find_override overrides (pool_cycle_id pool) e).
  assert (∀ w, o = Some w → ov_cycle_id w = al_cycle_id a ∧ ov_entity_id w = al_entity_id a) as Ho.
  { intros w Hw. rewrite Hc, He. by eapply find_override_key. }
  assert (usable a → (let* c := prepared o (candidate a None) in
    settle_gated default_gate (mkConstraintInputs ws risk) (pool_cycle_id pool) e o
      (bool_decide (action_type (candidate a None) = inconclusive)) c) = Ok (expected (pool_cycle_id pool) risk ws a o)) as Hrun.
  { intros Hu. rewrite prepared_ok by done. cbn [rbind candidate action_type]. by apply settled_ok. }
  rewrite rbind_ok. split.
  - intros (c & [Hu ->]%candidate_ok & E). split; [done|]. fold (candidate a None) in E. rewrite (Hrun Hu) in E. by injection E.
  - intros [Hu ->]. exists (candidate a None). split; [by apply candidate_ok|]. by apply Hrun.
Qed.

(** C7: with the gates the program comes with, recommendations are made
    exactly when the pool, the state of the market and the overrides are of one
    cycle, every selected entity has one analysis of that cycle and nothing
    else has, and every analysis that is not inconclusive has a finite score
    and confidence; there is then one recommendation for each selected entity,
    in order. It decides what the score says, unless the analysis is
    inconclusive; the last override listed for the entity takes the place of
    the score, but not of an inconclusive analysis; the gates have the last
    word: a forced risk makes everything inconclusive, and a market that is
    off turns a purchase into holding, whoever decided it. Rating, confidence,
    trigger and the gates recorded follow from that. *)
Theorem recommendations_follow_rules pool analyses ws overrides store risk rs :
  generate_recommendations pool analyses ws None overrides store risk = Ok rs ↔
  consistent pool analyses ws (resolve_overrides pool overrides store) ∧ Forall usable analyses ∧
  Forall2 (λ e r, ∃ a, a ∈ analyses ∧ al_entity_id a = e ∧
    r = expected (pool_cycle_id pool) risk ws a (last_override (known_overrides overrides store) (pool_cycle_id pool) e))
    (selected_entities pool) rs.
Proof.
  unfold generate_recommendations. cbn [default from_option]. rewrite rbind_ok. setoid_rewrite validate_inputs_ok.
  setoid_rewrite rmap_list_ok.
  assert (∀ e a, consistent pool analyses ws (resolve_overrides pool overrides store) →
    a ∈ analyses → al_entity_id a = e → ∀ r,
    recommend pool default_gate (mkConstraintInputs ws risk) (resolve_overrides pool overrides store)
      (map (λ a, (al_entity_id a, a)) analyses) e = Ok r ↔
    usable a ∧ r = expected (pool_cycle_id pool) risk ws a
      (last_override (known_overrides overrides store) (pool_cycle_id pool) e)) as Hone.
  { intros e a [_ Hnow Honce _ _] Ha He r. rewrite <- find_resolved. apply recommend_ok; [|rewrite list.Forall_forall in Hnow; auto|done].
    apply elem_of_dget; [unfold dkeys; by rewrite map_map|]. apply list_elem_of_fmap. exists a. by rewrite He. }
  split.
  - intros (d & [Hc ->] & Hrs). split; [done|].
    assert (∀ e, e ∈ selected_entities pool → ∃ a, a ∈ analyses ∧ al_entity_id a = e) as Hex.
    { intros e He. apply (analysed_all _ _ _ _ Hc) in He. apply list_elem_of_fmap in He as (a & -> & Ha). eauto. }
    split.
    + apply list.Forall_forall. intros a Ha. assert (al_entity_id a ∈ selected_entities pool) as He.
      { apply (analysed_all _ _ _ _ Hc). by apply list_elem_of_fmap_2. }
      apply list_elem_of_lookup in He as [i Hi]. destruct (Forall2_lookup_l _ _ _ _ _ Hrs Hi) as (r & _ & Hr).
      by apply (Hone _ a Hc Ha eq_refl) in Hr as [? _].
    + clear - Hone Hc Hrs Hex. induction Hrs as [|e r es rs Hr _ IH]; constructor; [|apply IH; intros; apply Hex; by right].
      destruct (Hex e ltac:(left)) as (a & Ha & He). exists a. split_and!; [done..|]. by apply (Hone e a Hc Ha He) in Hr as [_ ?].
  - intros (Hc & Hu & Hrs). eexists. split; [split; [exact Hc|done]|].
    eapply Forall2_impl; [exact Hrs|]. intros e r (a & Ha & He & ->). apply (Hone e a Hc Ha He). split; [|done].
    rewrite list.Forall_forall in Hu. auto.
Qed.
End RecommendationTheorems.

(** ** Runs *)
Module MainCoreExamples.
Import WorldState Universe Recommendations UniverseTheorems RecommendationTheorems.

#[local] Instance plain_text : PyText.
Proof.
  refine {| py_str v := match v with PStr s => s | _ => "object" end;
            json_quote s := s; json_float f := "0.0"; isoformat t := ""; sha256 s := 0 |}.
  done.
Defined.
#[local] Instance no_texts : PyNumbers := {| parse_float s := None; parse_int s := None |}.

Definition bundle (e : string) (signals : pydict pyval) : FeatureSignalBundle := mkBundle "c1" e [] signals [] [] 0.
Definition proposes (raw : Z) : WorldStateInputs → regime → program core_error () WorldStateDeltaDecision :=
  λ _ _, ret (mkDecision raw "because" "model" "provider" ["provider"]).
Definition derived (declared : string) (raw : Z) : result core_error WorldStateSnapshot :=
  (derive_world_state (bundle "e1" [("baseline_regime", PStr declared)]) None (Some (proposes raw)) [] None [] ()).1.

(** A strong proposal is one step. *)
Example one_step : derived "neutral" (-7) = Ok (mkWorldState "c1" neutral (-1) risk_off "because" "model" "provider" ["provider"]).
Proof. reflexivity. Qed.

(** In the worst regime, bad news stops the cycle. *)
Example no_further_step : derived "risk_off" (-1) = Err (WorldStatePolicyError "baseline_regime + llm_delta is outside the regime sequence").
Proof. reflexivity. Qed.

Definition off_market : WorldStateSnapshot := mkWorldState "c1" neutral (-1) risk_off "" "" "" [].
Definition scores (e : string) (f : spec_float) : FeatureSignalBundle := bundle e [("candidate_score", PFloat f)].
Definition two_places : PoolSelectionConfig := mkConfig 2 None None.
Definition frozen_c : pydict string := [("c", "held")].
Definition three : list FeatureSignalBundle :=
  [scores "a" (float_of_Z 1); scores "b" (float_of_Z 2); scores "c" (float_of_Z 0)].

(** A frozen entity comes first; the best of the others takes the place left. *)
Example frozen_first :
  select_official_alpha_pool off_market three None 100 frozen_c (Some two_places) =
  Ok (mkPool "c1" 3 2 ["c"; "b"] ["c"; "b"] [] frozen_c).
Proof. vm_compute. reflexivity. Qed.

(** With a score that is no number, who is selected depends on the order of
    the bundles. *)
Example nan_score_hides_the_best :
  let l := [scores "a" (float_of_Z 1); scores "n" S754_nan; scores "b" (float_of_Z 2)] in
  rmap_list (λ l, let* p := select_official_alpha_pool off_market l None 1 [] None in Ok (selected_entities p)) [l; rev l] =
  Ok [["a"]; ["b"]].
Proof. vm_compute. reflexivity. Qed.

(** [a] is frozen already, for another reason than is given now. *)
Definition earlier : OfficialAlphaPool := mkPool "c0" 3 2 ["b"; "a"] [] [] [("a", "kept")].
Definition frozen_ca : pydict string := [("c", "held"); ("a", "new")].
Definition four : list FeatureSignalBundle := three ++ [scores "d" (float_of_Z (-1))].
Definition three_places : PoolSelectionConfig := mkConfig 3 None None.
Lemma alpha_pool_is_well_chosen_witness :
  let pool := mkPool "c1" 4 3 ["a"; "c"; "b"] ["c"] [] [("a", "kept"); ("c", "held")] in
  select_official_alpha_pool off_market four (Some earlier) 100 frozen_ca (Some three_places) = Ok pool ∧
  dget "a" (freeze_reason_map pool) = Some "kept" ∧ dkeys (freeze_reason_map pool) = ["a"; "c"] ∧
  outranks (scores "b" (float_of_Z 2)) (scores "d" (float_of_Z (-1))).
Proof.
  cbv zeta. set (pool := mkPool _ _ _ _ _ _ _).
  assert (select_official_alpha_pool off_market four (Some earlier) 100 frozen_ca (Some three_places) = Ok pool) as E by (vm_compute; reflexivity).
  assert (held_once (Some earlier) frozen_ca) as Honce.
  { split; [by apply (bool_decide_unpack _); vm_compute|]. intros p [= <-]. split; by apply (bool_decide_unpack _); vm_compute. }
  destruct (alpha_pool_is_well_chosen off_market four (Some earlier) 100 frozen_ca three_places eq_refl Honce) as [_ H].
  destruct (H pool E) as (_ & _ & Hkeys & Hreasons & _ & _ & _ & _ & Hbest).
  split; [exact E|]. split; [exact (Hreasons "a")|]. split; [exact Hkeys|].
  apply Hbest.
  - intros b s Hb. repeat (apply elem_of_cons in Hb as [->|Hb]; [vm_compute; by intros [= <-]|]). by apply not_elem_of_nil in Hb.
  - repeat (first [left | right]).
  - repeat (first [left | right]).
  - by apply (bool_decide_unpack _); vm_compute.
  - by apply (bool_decide_unpack _); vm_compute.
  - by apply (bool_decide_unpack _); vm_compute.
  - exists (float_of_Z (-1)). split; [reflexivity|]. intros m Hm. discriminate Hm.
Defined.

Definition the_pool : OfficialAlphaPool := mkPool "c1" 3 3 ["a"; "b"; "c"] [] [] [].
Definition analysed (e : string) (s : option spec_float) (st : alpha_status) : AlphaResultSnapshot :=
  mkAlpha "c1" e "single_prompt_v1" s float_one "" [] st.
Definition analyses : list AlphaResultSnapshot :=
  [analysed "c" None alpha_inconclusive; analysed "a" (Some (float_ratio 9 10)) alpha_ok; analysed "b" (Some float_zero) alpha_ok].
Definition overrides : list OverrideRecord :=
  [mkOverride "c1" "b" "me" hold "" 1; mkOverride "c1" "b" "me" buy "" 2; mkOverride "c1" "c" "me" buy "" 3].

(** A purchase is held back in a market that is off, whether the score or a
    person decided it, and what could not be analysed stays inconclusive. *)
Example gates_win :
  let held := [("regime_gate", PStr "risk_off_buy_to_hold")] in
  generate_recommendations the_pool analyses off_market None (Some overrides) [] [] =
  Ok [mkRecommendation "c1" "a" hold (Some "B") (Some float_one) by_system false held;
      mkRecommendation "c1" "b" hold (Some "B") (Some float_one) human_decision true held;
      mkRecommendation "c1" "c" inconclusive None None human_decision true []].
Proof. vm_compute. reflexivity. Qed.
End MainCoreExamples.
