(* ===== verification/Publish.v ===== *)
(** * Publish: the formal objects of a cycle become visible

    [main_core/l8_publish]: [assembler.py], [manifest.py], [audit_payload.py]
    and [refs.py] ([Assembly]), and the objects derived from a draft of the
    bundle, [dashboard.py] and [report.py] ([Derived]). The source of the
    objects and the publication port of the data platform are programs over a
    state of any type. Objects are dumped as they are serialised, lists for
    the tuples in which the immutable bundle keeps them. *)
From Stdlib Require Import String Ascii ZArith List SpecFloat.
From stdpp Require Import base gmap strings list sorting pretty.
From S2P Require Import Prelude PyLib Numbers Programs MainCore.
Import Schemas.
Local Open Scope string_scope.
Local Open Scope Z_scope.

(** ** What is published *)
Module Assembly.

Definition WORLD_STATE_SNAPSHOT_KEY : string := "world_state_snapshot".
Definition OFFICIAL_ALPHA_POOL_KEY : string := "official_alpha_pool".
Definition ALPHA_RESULT_SNAPSHOT_KEY : string := "alpha_result_snapshot".
Definition RECOMMENDATION_SNAPSHOT_KEY : string := "recommendation_snapshot".
Definition CANONICAL_FORMAL_OBJECT_KEYS : list string :=
  [WORLD_STATE_SNAPSHOT_KEY; OFFICIAL_ALPHA_POOL_KEY; ALPHA_RESULT_SNAPSHOT_KEY; RECOMMENDATION_SNAPSHOT_KEY].

(** [FormalObjectBase]; a derived object is known by its dump, and may have no
    [cycle_id]. *)
Inductive formal_object :=
| WorldStateObject (s : WorldStateSnapshot)
| PoolObject (p : OfficialAlphaPool)
| AlphaObject (a : AlphaResultSnapshot)
| RecommendationObject (r : RecommendationSnapshot)
| DerivedObject (cycle : option string) (payload : pdict).
Inductive formal_value := Single (o : formal_object) | Many (l : list formal_object).

(** [_thaw_value] *)
Fixpoint thaw (v : pyval) : pyval :=
  match v with
  | PDict d => PDict (map (λ kv, match kv with (k, x) => (k, thaw x) end) d)
  | PList l | PTuple l => PList (map thaw l)
  | _ => v
  end.
Definition strings (l : list string) : pyval := PList (map PStr l).
Definition or_none {A} (f : A → pyval) (o : option A) : pyval := match o with Some x => f x | None => PNone end.
Definition object_of (d : pydict pyval) : pyval := PDict (map (λ kv, (PStr kv.1, thaw kv.2)) d).
Definition status_text (s : alpha_status) : string := match s with alpha_ok => "ok" | alpha_inconclusive => "inconclusive" end.
Definition trigger_text (t : trigger) : string := match t with by_system => "system" | human_decision => "human_decision" end.

(** [model_dump(mode="json")] *)
Definition object_dump (o : formal_object) : pdict :=
  match o with
  | WorldStateObject s =>
      [(PStr "cycle_id", PStr (ws_cycle_id s)); (PStr "baseline_regime", PStr (regime_text (baseline_regime s)));
       (PStr "llm_delta", PInt (llm_delta s)); (PStr "final_regime", PStr (regime_text (final_regime s)));
       (PStr "llm_rationale", PStr (llm_rationale s)); (PStr "actual_model_used", PStr (actual_model_used s));
       (PStr "actual_provider", PStr (actual_provider s)); (PStr "fallback_path", strings (fallback_path s))]
  | PoolObject p =>
      [(PStr "cycle_id", PStr (pool_cycle_id p)); (PStr "observation_pool_size", PInt (observation_pool_size p));
       (PStr "official_alpha_pool_capacity", PInt (official_alpha_pool_capacity p));
       (PStr "selected_entities", strings (selected_entities p)); (PStr "added_entities", strings (added_entities p));
       (PStr "removed_entities", strings (removed_entities p));
       (PStr "freeze_reason_map", PDict (map (λ kv, (PStr kv.1, PStr kv.2)) (freeze_reason_map p)))]
  | AlphaObject a =>
      [(PStr "cycle_id", PStr (al_cycle_id a)); (PStr "entity_id", PStr (al_entity_id a));
       (PStr "analyzer_type", PStr (analyzer_type a)); (PStr "score", or_none PFloat (score a));
       (PStr "confidence", PFloat (al_confidence a)); (PStr "rationale", PStr (rationale a));
       (PStr "similar_cases", PList (map thaw (similar_cases a))); (PStr "status", PStr (status_text (status a)))]
  | RecommendationObject r =>
      [(PStr "cycle_id", PStr (rec_cycle_id r)); (PStr "entity_id", PStr (rec_entity_id r));
       (PStr "action_type", PStr (action_text (action_type r))); (PStr "rating", or_none PStr (rating r));
       (PStr "confidence", or_none PFloat (confidence r)); (PStr "triggered_by", PStr (trigger_text (triggered_by r)));
       (PStr "override_applied", PBool (override_applied r)); (PStr "constraints_applied", object_of (constraints_applied r))]
  | DerivedObject _ payload => payload
  end.
Definition object_cycle (o : formal_object) : option string :=
  match o with
  | WorldStateObject s => Some (ws_cycle_id s)
  | PoolObject p => Some (pool_cycle_id p)
  | AlphaObject a => Some (al_cycle_id a)
  | RecommendationObject r => Some (rec_cycle_id r)
  | DerivedObject c _ => c
  end.

(** *** [publish_port.py] *)
Record CommittedFormalObject := mkCommitted {
  object_key : string;
  ref : string;
  snapshot_id : string;
  payload_hash : string;
  row_count : Z;
}.
Record ManifestWriteResult := mkManifest {
  manifest_ref : string;
  manifest_version : string;
  table_snapshots : pydict pyval;
}.
Record FormalObjectSource (W : Type) := mkSource {
  load_world_state : string → program core_error W WorldStateSnapshot;
  load_official_alpha_pool : string → program core_error W OfficialAlphaPool;
  load_alpha_results : string → program core_error W (list AlphaResultSnapshot);
  load_recommendations : string → program core_error W (list RecommendationSnapshot);
}.
Arguments load_world_state {W} _ _. Arguments load_official_alpha_pool {W} _ _.
Arguments load_alpha_results {W} _ _. Arguments load_recommendations {W} _ _.
(** A port may be without [reserve_cycle_manifest_ref]. *)
Record DataPlatformPublishPort (W : Type) := mkPort {
  reserve_cycle_manifest_ref : option (string → program core_error W pyval);
  commit_formal_object : string → string → pdict → program core_error W CommittedFormalObject;
  write_cycle_manifest : string → list CommittedFormalObject → option string → program core_error W ManifestWriteResult;
}.
Arguments reserve_cycle_manifest_ref {W} _. Arguments commit_formal_object {W} _ _ _ _.
Arguments write_cycle_manifest {W} _ _ _ _.
Record PublishBundle := mkPublishBundle {
  pb_cycle_id : string;
  formal_objects : pydict pyval;
  manifest_candidate : pydict pyval;
  audit_payload : pydict pyval;
  retrospective_seed : pydict pyval;
}.

(** [except ManifestPublishError: raise except Exception: raise ManifestPublishError(m)] *)
Definition publish_failure (m : string) (e : core_error) : core_error :=
  match e with ManifestPublishError _ => e | _ => ManifestPublishError m end.

(** *** [_validate_publish_consistency] *)
Definition add_unique_id (key : string) (seen : gset string) (e : string) : result core_error (gset string) :=
  raise_if bool_decide (e ∈ seen) with ManifestPublishError ("duplicate " ++ key ++ " entity_id");
  Ok ({[e]} ∪ seen).
Definition unique_entity_ids (key : string) (entities : list string) : result core_error (gset string) :=
  rfold (add_unique_id key) ∅ entities.
Definition refuse_any (m : string) (s : gset string) : result core_error () :=
  raise_if negb (bool_decide (s = ∅)) with ManifestPublishError (m ++ ": " ++ join ", " (sorted_set s)); Ok ().
Definition validate_publish_consistency (pool : OfficialAlphaPool) (alphas : list AlphaResultSnapshot)
    (recs : list RecommendationSnapshot) : result core_error () :=
  let selected := list_to_set (selected_entities pool) : gset string in
  let* analysed := unique_entity_ids ALPHA_RESULT_SNAPSHOT_KEY (map al_entity_id alphas) in
  let* _ := refuse_any "missing alpha result for selected pool entities" (selected ∖ analysed) in
  let* _ := refuse_any "alpha result entity_id must belong to pool.selected_entities" (analysed ∖ selected) in
  let* recommended := unique_entity_ids RECOMMENDATION_SNAPSHOT_KEY (map rec_entity_id recs) in
  let* _ := refuse_any "recommendation entity_id must belong to pool.selected_entities" (recommended ∖ selected) in
  refuse_any "missing recommendation for selected pool entities" (selected ∖ recommended).

(** *** [_validate_formal_object_cycles] *)
Definition ensure_cycle_id (cycle : string) (key : string) (o : formal_object) : result core_error () :=
  raise_if negb (bool_decide (object_cycle o = Some cycle))
    with ManifestPublishError (key ++ ".cycle_id must match requested cycle_id");
  Ok ().
Definition objects_of (v : formal_value) : list formal_object := match v with Single o => [o] | Many l => l end.
Definition ensure_value_cycle (cycle : string) (kv : string * formal_value) : result core_error () :=
  riter (ensure_cycle_id cycle kv.1) (objects_of kv.2).
Definition validate_formal_object_cycles (cycle : string) (objects : pydict formal_value) : result core_error () :=
  riter (ensure_value_cycle cycle) objects.

(** *** Order and payloads *)
Definition is_canonical (k : string) : bool := bool_decide (k ∈ CANONICAL_FORMAL_OBJECT_KEYS).
Definition ordered_object_keys {V} (objects : pydict V) : list string :=
  (List.filter (λ k, dhas k objects) CANONICAL_FORMAL_OBJECT_KEYS ++ List.filter (λ k, negb (is_canonical k)) (dkeys objects))%list.
Definition commit_payload (v : formal_value) : pdict :=
  match v with
  | Single o => object_dump o
  | Many l => [(PStr "items", PList (map (λ o, PDict (object_dump o)) l)); (PStr "count", PInt (Z.of_nat (length l)))]
  end.
Definition expected_row_count (v : formal_value) : Z := match v with Single _ => 1 | Many l => Z.of_nat (length l) end.
Definition non_empty_string (s : string) : bool := negb (is_empty (strip s)).

(** [_validate_committed_formal_object] *)
Definition validate_committed (c : CommittedFormalObject) (key : string) (rows : Z) : result core_error () :=
  raise_if negb (String.eqb (object_key c) key) with ManifestPublishError ("commit result object_key mismatch for " ++ key);
  raise_if negb (non_empty_string (ref c)) with ManifestPublishError ("commit result ref must be non-empty for " ++ key);
  raise_if negb (non_empty_string (snapshot_id c)) with ManifestPublishError ("commit result snapshot_id must be non-empty for " ++ key);
  raise_if negb (non_empty_string (payload_hash c)) with ManifestPublishError ("commit result payload_hash must be non-empty for " ++ key);
  raise_if row_count c <? 0 with ManifestPublishError ("commit result row_count must be non-negative for " ++ key);
  raise_if negb (row_count c =? rows) with ManifestPublishError ("commit result row_count mismatch for " ++ key);
  Ok ().

(** [_validate_manifest_write_result] *)
Definition snapshots_of (cs : list CommittedFormalObject) : pydict string :=
  fold_left (λ d c, dset (object_key c) (snapshot_id c) d) cs [].
Definition check_snapshot (snapshots : pydict pyval) (ks : string * string) : result core_error () :=
  let found := default PNone (dget ks.1 snapshots) in
  raise_if match found with PNone => true | PStr s => is_empty (strip s) | _ => false end
    with ManifestPublishError ("manifest table_snapshots entry must be non-empty for " ++ ks.1);
  raise_if negb match found with PStr s => String.eqb s ks.2 | _ => false end
    with ManifestPublishError ("manifest table_snapshots snapshot_id mismatch for " ++ ks.1);
  Ok ().
Definition validate_manifest_write (m : ManifestWriteResult) (cs : list CommittedFormalObject) : result core_error () :=
  raise_if negb (non_empty_string (manifest_ref m)) with ManifestPublishError "manifest_ref must be non-empty";
  raise_if negb (non_empty_string (manifest_version m)) with ManifestPublishError "manifest_version must be non-empty";
  let expected := snapshots_of cs in
  let* _ := refuse_any "manifest table_snapshots missing committed object keys"
    (list_to_set (dkeys expected) ∖ list_to_set (dkeys (table_snapshots m))) in
  let* _ := refuse_any "manifest table_snapshots contains unexpected object keys"
    (list_to_set (dkeys (table_snapshots m)) ∖ list_to_set (dkeys expected)) in
  riter (check_snapshot (table_snapshots m)) expected.

(** *** [manifest.py] *)
Section port.
Context {W : Type}.
Implicit Types (port : DataPlatformPublishPort W) (source : FormalObjectSource W).

(** [commit_formal_objects] *)
Definition commit_one (cycle : string) port (key : string) (v : formal_value) : program core_error W CommittedFormalObject :=
  let! c := map_raise (publish_failure ("failed to commit formal object " ++ key))
    (commit_formal_object port cycle key (commit_payload v)) in
  let! _ := lift (validate_committed c key (expected_row_count v)) in
  ret c.
Fixpoint commit_keys (cycle : string) port (objects : pydict formal_value) (keys : list string)
    : program core_error W (list CommittedFormalObject) :=
  match keys with
  | [] => ret []
  | k :: rest =>
      match dget k objects with
      | None => raise (OtherException "KeyError")
      | Some v =>
          let! c := commit_one cycle port k v in
          let! cs := commit_keys cycle port objects rest in
          ret (c :: cs)
      end
  end.
Definition commit_formal_objects (cycle : string) (objects : pydict formal_value) port
    : program core_error W (list CommittedFormalObject) := commit_keys cycle port objects (ordered_object_keys objects).

(** [write_manifest_after_commits] *)
Definition write_manifest_after_commits (cycle : string) (cs : list CommittedFormalObject) port (expected : option string)
    : program core_error W ManifestWriteResult :=
  let! m := map_raise (publish_failure "failed to write cycle publish manifest") (write_cycle_manifest port cycle cs expected) in
  let! _ := lift (validate_manifest_write m cs) in
  stop_if match expected with Some r => negb (String.eqb (manifest_ref m) r) | None => false end
    with ManifestPublishError "manifest write result must match expected manifest_ref";
  ret m.

(** [build_manifest_candidate] *)
Definition commit_refs (cs : list CommittedFormalObject) : pydict string := fold_left (λ d c, dset (object_key c) (ref c) d) cs [].
Definition text_object (d : pydict string) : pyval := PDict (map (λ kv, (PStr kv.1, PStr kv.2)) d).
Definition committed_dump (c : CommittedFormalObject) : pyval :=
  PDict [(PStr "object_key", PStr (object_key c)); (PStr "ref", PStr (ref c)); (PStr "snapshot_id", PStr (snapshot_id c));
         (PStr "payload_hash", PStr (payload_hash c)); (PStr "row_count", PInt (row_count c))].
Definition build_manifest_candidate (cycle : string) (cs : list CommittedFormalObject) (m : option ManifestWriteResult)
    : pydict pyval :=
  ([("cycle_id", PStr cycle); ("object_refs", text_object (commit_refs cs)); ("committed_objects", PList (map committed_dump cs))] ++
   match m with
   | Some m => [("manifest_ref", PStr (manifest_ref m)); ("manifest_version", PStr (manifest_version m));
                ("table_snapshots", PDict (map (λ kv, (PStr kv.1, kv.2)) (table_snapshots m)))]
   | None => []
   end)%list.
End port.

(** *** [audit_payload.py] *)
Definition payload_of (objects : pydict pyval) (key : string) (missing : pyval) : pyval :=
  match dget key objects with
  | Some (PDict entry) => default missing (pget "payload" entry)
  | Some _ | None => missing
  end.
Definition payload_mapping (objects : pydict pyval) (key : string) : pdict :=
  match payload_of objects key (PDict []) with PDict d => d | _ => [] end.
Definition mappings (l : list pyval) : list pdict := omap (λ v, match v with PDict d => Some d | _ => None end) l.
Definition payload_list (objects : pydict pyval) (key : string) : list pdict :=
  match payload_of objects key (PList []) with PList l | PTuple l => mappings l | _ => [] end.
Definition field_is (k v : string) (d : pdict) : bool :=
  match pget k d with Some (PStr s) => String.eqb s v | _ => false end.
Definition field_true (k : string) (d : pdict) : bool := match pget k d with Some (PBool b) => b | _ => false end.
Definition count_if (f : pdict → bool) (l : list pdict) : Z := Z.of_nat (length (List.filter f l)).
Definition entry_count (entry : pyval) : pyval :=
  match entry with
  | PDict d => match pget "count" d with Some (PInt z) => PInt z | Some (PBool b) => PBool b | _ => PInt 0 end
  | _ => PInt 0
  end.
Definition object_counts (objects : pydict pyval) : pyval := PDict (map (λ kv, (PStr kv.1, entry_count kv.2)) objects).

Section payloads.
Context `{PyText}.
Definition texts_of (v : pyval) : list string := match v with PList l | PTuple l => map py_str l | _ => [] end.
Definition selected_entity_ids (objects : pydict pyval) : list string :=
  texts_of (default (PList []) (pget "selected_entities" (payload_mapping objects OFFICIAL_ALPHA_POOL_KEY))).
Definition recommendation_entity_ids (objects : pydict pyval) : list string :=
  omap (λ r, option_map py_str (pget "entity_id" r)) (payload_list objects RECOMMENDATION_SNAPSHOT_KEY).
Definition build_audit_payload (cycle : string) (objects : pydict pyval) (cs : list CommittedFormalObject)
    (m : ManifestWriteResult) : pydict pyval :=
  let alphas := payload_list objects ALPHA_RESULT_SNAPSHOT_KEY in
  let recs := payload_list objects RECOMMENDATION_SNAPSHOT_KEY in
  let undecided := PInt (count_if (field_is "status" "inconclusive") alphas) in
  [("cycle_id", PStr cycle); ("object_counts", object_counts objects); ("commit_refs", text_object (commit_refs cs));
   ("manifest_ref", PStr (manifest_ref m)); ("manifest_version", PStr (manifest_version m));
   ("inconclusive_count", undecided); ("alpha_inconclusive_count", undecided);
   ("recommendation_inconclusive_count", PInt (count_if (field_is "action_type" "inconclusive") recs));
   ("override_applied_count", PInt (count_if (field_true "override_applied") recs));
   ("selected_entity_ids", strings (selected_entity_ids objects));
   ("recommendation_entity_ids", strings (recommendation_entity_ids objects))].
Definition build_retrospective_seed (cycle : string) (objects : pydict pyval) (cs : list CommittedFormalObject) : pydict pyval :=
  let refs := commit_refs cs in
  [("cycle_id", PStr cycle); ("world_state_ref", or_none PStr (dget WORLD_STATE_SNAPSHOT_KEY refs));
   ("pool_ref", or_none PStr (dget OFFICIAL_ALPHA_POOL_KEY refs));
   ("recommendation_ref", or_none PStr (dget RECOMMENDATION_SNAPSHOT_KEY refs));
   ("selected_entity_ids", strings (selected_entity_ids objects));
   ("recommendation_entity_ids", strings (recommendation_entity_ids objects))].
End payloads.

(** *** [assembler.py] *)

(** [_build_bundle_formal_objects] *)
Definition bundle_entry (v : formal_value) (r : string) : pyval :=
  match v with
  | Single o => PDict [(PStr "ref", PStr r); (PStr "payload", PDict (object_dump o)); (PStr "count", PInt 1)]
  | Many l =>
      PDict [(PStr "ref", PStr r); (PStr "payload", PList (map (λ o, PDict (object_dump o)) l));
             (PStr "count", PInt (Z.of_nat (length l)))]
  end.
Definition committed_by_key (cs : list CommittedFormalObject) : pydict CommittedFormalObject :=
  fold_left (λ d c, dset (object_key c) c d) cs [].
Definition bundle_object (objects : pydict formal_value) (by_key : pydict CommittedFormalObject) (d : pydict pyval) (k : string)
    : result core_error (pydict pyval) :=
  match dget k by_key with
  | None => Err (ManifestPublishError ("missing commit result for " ++ k))
  | Some c =>
      match dget k objects with
      | None => Err (OtherException "KeyError")
      | Some v => Ok (dset k (bundle_entry v (ref c)) d)
      end
  end.
Definition build_bundle_formal_objects (objects : pydict formal_value) (cs : list CommittedFormalObject)
    : result core_error (pydict pyval) :=
  rfold (bundle_object objects (committed_by_key cs)) [] (ordered_object_keys objects).

(** What a builder returns: under some keys, perhaps no formal object. *)
Abbreviation derived_objects := (pydict (option formal_object)).
Definition add_derived (cycle : string) (active : pydict formal_value) (kv : string * option formal_object)
    : result core_error (pydict formal_value) :=
  raise_if dhas kv.1 active with ManifestPublishError ("derived formal object duplicates key " ++ kv.1);
  match kv.2 with
  | None => Err (ManifestPublishError ("derived formal object " ++ kv.1 ++ " must be FormalObjectBase"))
  | Some o => let* _ := ensure_cycle_id cycle kv.1 o in Ok (dset kv.1 (Single o) active)
  end.
(** The derived objects once every one of them is known to be one. *)
Definition derived_values (l : derived_objects) : pydict formal_value :=
  omap (λ kv, option_map (λ o, (kv.1, Single o)) kv.2) l.

Section publication.
Context `{PyText} {W : Type}.
Implicit Types (port : DataPlatformPublishPort W) (source : FormalObjectSource W).
Definition builder := string → PublishBundle → program core_error W derived_objects.

(** [collect_formal_objects] *)
Definition canonical_objects (ws : WorldStateSnapshot) (pool : OfficialAlphaPool) (alphas : list AlphaResultSnapshot)
    (recs : list RecommendationSnapshot) : pydict formal_value :=
  [(WORLD_STATE_SNAPSHOT_KEY, Single (WorldStateObject ws)); (OFFICIAL_ALPHA_POOL_KEY, Single (PoolObject pool));
   (ALPHA_RESULT_SNAPSHOT_KEY, Many (map AlphaObject alphas));
   (RECOMMENDATION_SNAPSHOT_KEY, Many (map RecommendationObject recs))].
Definition load_objects (cycle : string) source
    : program core_error W (WorldStateSnapshot * OfficialAlphaPool * list AlphaResultSnapshot * list RecommendationSnapshot) :=
  let! ws := load_world_state source cycle in
  let! pool := load_official_alpha_pool source cycle in
  let! alphas := load_alpha_results source cycle in
  let! recs := load_recommendations source cycle in
  ret (ws, pool, alphas, recs).
Definition collect_formal_objects (cycle : string) source : program core_error W (pydict formal_value) :=
  let! loaded := map_raise (publish_failure "failed to load formal objects for publish") (load_objects cycle source) in
  let '(ws, pool, alphas, recs) := loaded in
  let objects := canonical_objects ws pool alphas recs in
  let! _ := lift (validate_formal_object_cycles cycle objects) in
  let! _ := lift (validate_publish_consistency pool alphas recs) in
  ret objects.

(** [_reserve_cycle_manifest_ref]; the port named so in the code is a protocol,
    and a port may lack the method. *)
Definition reserve_ref (cycle : string) port : program core_error W string :=
  match reserve_cycle_manifest_ref port with
  | None => raise (ManifestPublishError "publish port must reserve manifest_ref before derived formal objects")
  | Some reserve =>
      let! v := map_raise (publish_failure "failed to reserve cycle manifest_ref") (reserve cycle) in
      match v with
      | PStr r => stop_if is_empty (strip r) with ManifestPublishError "reserved manifest_ref must be non-empty"; ret r
      | _ => raise (ManifestPublishError "reserved manifest_ref must be non-empty")
      end
  end.

(** [_commit_with_derived_builders] *)
Definition draft_bundle (cycle : string) (reserved : option string) (objects : pydict pyval) (cs : list CommittedFormalObject)
    : PublishBundle :=
  let candidate := build_manifest_candidate cycle cs None in
  mkPublishBundle cycle objects
    match reserved with Some r => dset "manifest_ref" (PStr r) candidate | None => candidate end
    [("cycle_id", PStr cycle); ("audit_payload_ref", PStr ("audit_payload/" ++ cycle))]
    (build_retrospective_seed cycle objects cs).
Definition derive_one (cycle : string) port (reserved : option string) (b : builder)
    (state : pydict formal_value * list CommittedFormalObject)
    : program core_error W (pydict formal_value * list CommittedFormalObject) :=
  let '(active, cs) := state in
  let! objects := lift (build_bundle_formal_objects active cs) in
  let! derived := map_raise (publish_failure "failed to build derived formal objects")
    (b cycle (draft_bundle cycle reserved objects cs)) in
  let! active := lift (rfold (add_derived cycle) active derived) in
  let! more := commit_formal_objects cycle (derived_values derived) port in
  ret (active, (cs ++ more)%list).
Fixpoint derive_all (cycle : string) port (reserved : option string) (builders : list builder)
    (state : pydict formal_value * list CommittedFormalObject)
    : program core_error W (pydict formal_value * list CommittedFormalObject) :=
  match builders with
  | [] => ret state
  | b :: rest => let! state := derive_one cycle port reserved b state in derive_all cycle port reserved rest state
  end.
Definition commit_with_derived_builders (cycle : string) (objects : pydict formal_value) port (builders : list builder)
    (reserved : option string) : program core_error W (pydict formal_value * list CommittedFormalObject) :=
  let! cs := commit_formal_objects cycle objects port in
  derive_all cycle port reserved builders (objects, cs).

(** [prepare_publish_bundle] *)
Definition prepare_publish_bundle (cycle : string) source port (builders : list builder) : program core_error W PublishBundle :=
  let! objects := collect_formal_objects cycle source in
  let! reserved :=
    match builders with [] => ret None | _ :: _ => let! r := reserve_ref cycle port in ret (Some r) end in
  let! committed := commit_with_derived_builders cycle objects port builders reserved in
  let '(objects, cs) := committed in
  let! m := write_manifest_after_commits cycle cs port reserved in
  let! published := lift (build_bundle_formal_objects objects cs) in
  ret (mkPublishBundle cycle published (build_manifest_candidate cycle cs (Some m)) (build_audit_payload cycle published cs m)
    (build_retrospective_seed cycle published cs)).
End publication.
End Assembly.

(** ** The derived objects: dashboard and report *)
Module Derived.
Import Assembly.

(** *** [refs.py] *)
Definition all_texts (l : list pyval) : option (list string) := mapM (λ v, match v with PStr s => Some s | _ => None end) l.
Definition entry_mapping (b : PublishBundle) (key : string) : result core_error pdict :=
  match dget key (formal_objects b) with
  | None => Err (ManifestPublishError ("missing formal object entry " ++ key))
  | Some (PDict d) => Ok d
  | Some _ => Err (ManifestPublishError (key ++ " formal object entry must be a mapping"))
  end.
Definition formal_object_refs (b : PublishBundle) (key : string) : result core_error (list string) :=
  let* entry := entry_mapping b key in
  match pget "refs" entry with
  | Some (PList l | PTuple l) =>
      match all_texts l with
      | Some refs => Ok refs
      | None => Err (ManifestPublishError (key ++ ".refs must be a sequence of strings"))
      end
  | Some _ => Err (ManifestPublishError (key ++ ".refs must be a sequence of strings"))
  | None =>
      match pget "ref" entry with
      | Some (PStr r) => raise_if is_empty r with ManifestPublishError (key ++ ".ref must be a non-empty string"); Ok [r]
      | _ => Err (ManifestPublishError (key ++ ".ref must be a non-empty string"))
      end
  end.
Definition formal_object_ref (b : PublishBundle) (key : string) : result core_error string :=
  let* refs := formal_object_refs b key in
  match refs with [r] => Ok r | _ => Err (ManifestPublishError (key ++ " must expose exactly one formal ref")) end.

(** *** [dashboard.py] *)
Definition DASHBOARD_SNAPSHOT_KEY : string := "dashboard_snapshot".
Definition ACTION_TYPES : list string := ["buy"; "hold"; "reduce"; "inconclusive"].
Record RequiredFormalObjects := mkRequired {
  world_state_ref : string; world_state : pdict;
  pool_ref : string; pool : pdict;
  alpha_ref : string; alpha_results : list pdict;
  recommendation_ref : string; recommendations : list pdict;
}.
Definition ensure_ref_belongs_to_cycle (key r cycle : string) : result core_error () :=
  match split_char "/" r with
  | [k; c; last] =>
      raise_if negb (String.eqb k key && String.eqb c cycle) || is_empty last
        with ManifestPublishError (key ++ ".ref must use the canonical shape for requested cycle_id");
      Ok ()
  | _ => Err (ManifestPublishError (key ++ ".ref must use the canonical shape for requested cycle_id"))
  end.
Definition dashboard_count (entry : pdict) (key : string) : result core_error Z :=
  match pget "count" entry with
  | Some (PInt n) => raise_if n <? 0 with ManifestPublishError (key ++ ".count must be a non-negative integer"); Ok n
  | _ => Err (ManifestPublishError (key ++ ".count must be a non-negative integer"))
  end.
Definition ensure_payload_cycle (key cycle : string) (payload : pdict) : result core_error () :=
  raise_if negb (field_is "cycle_id" cycle payload) with ManifestPublishError (key ++ ".payload cycle_id must match"); Ok ().
Definition mapping_entry (b : PublishBundle) (key cycle : string) : result core_error (string * pdict) :=
  let* entry := entry_mapping b key in
  let* r := formal_object_ref b key in
  let* _ := ensure_ref_belongs_to_cycle key r cycle in
  match pget "payload" entry with
  | Some (PDict payload) =>
      let* count := dashboard_count entry key in
      raise_if negb (count =? 1) with ManifestPublishError (key ++ ".count must be 1");
      let* _ := ensure_payload_cycle key cycle payload in
      Ok (r, payload)
  | _ => Err (ManifestPublishError (key ++ ".payload must be a mapping"))
  end.
Fixpoint payload_items (key cycle : string) (index : nat) (l : list pyval) : result core_error (list pdict) :=
  match l with
  | [] => Ok []
  | PDict d :: rest =>
      let* _ := ensure_payload_cycle key cycle d in
      let* items := payload_items key cycle (S index) rest in
      Ok (d :: items)
  | _ :: _ => Err (ManifestPublishError (key ++ ".payload[" ++ pretty index ++ "] must be a mapping"))
  end.
Definition list_entry (b : PublishBundle) (key cycle : string) : result core_error (string * list pdict) :=
  let* entry := entry_mapping b key in
  let* r := formal_object_ref b key in
  let* _ := ensure_ref_belongs_to_cycle key r cycle in
  match pget "payload" entry with
  | Some (PList payload | PTuple payload) =>
      let* items := payload_items key cycle O payload in
      let* count := dashboard_count entry key in
      raise_if negb (count =? Z.of_nat (length items)) with ManifestPublishError (key ++ ".count must match payload length");
      Ok (r, items)
  | _ => Err (ManifestPublishError (key ++ ".payload must be a list"))
  end.
Definition extract_required_formal_objects (cycle : string) (b : PublishBundle) : result core_error RequiredFormalObjects :=
  raise_if negb (String.eqb (pb_cycle_id b) cycle)
    with ManifestPublishError "publish bundle cycle_id must match requested cycle_id";
  let* ws := mapping_entry b WORLD_STATE_SNAPSHOT_KEY cycle in
  let* p := mapping_entry b OFFICIAL_ALPHA_POOL_KEY cycle in
  let* alphas := list_entry b ALPHA_RESULT_SNAPSHOT_KEY cycle in
  let* recs := list_entry b RECOMMENDATION_SNAPSHOT_KEY cycle in
  Ok (mkRequired ws.1 ws.2 p.1 p.2 alphas.1 alphas.2 recs.1 recs.2).

Section cards.
Context `{PyText}.
Definition get_or_none (k : string) (d : pdict) : pyval := default PNone (pget k d).
Definition text_at (k : string) (d : pdict) : string := py_str (default (PStr "") (pget k d)).
Definition record_fields (l : list (string * pyval)) : pyval := PDict (map (λ kv, (PStr kv.1, kv.2)) l).
(** What the loop over the recommendations keeps: the count of each action, the
    overridden entities and the inconclusive ones. *)
Definition tally := (pydict Z * list string * list string)%type.
Definition count_action (t : tally) (r : pdict) : tally :=
  let '(by_action, overridden, undecided) := t in
  let a := text_at "action_type" r in
  (dset a (default 0 (dget a by_action) + 1) by_action,
   (if field_true "override_applied" r then overridden ++ [text_at "entity_id" r] else overridden)%list,
   (if String.eqb a "inconclusive" then undecided ++ [text_at "entity_id" r] else undecided)%list).
Definition tally_of (recs : list pdict) : tally := fold_left count_action recs (map (λ a, (a, 0)) ACTION_TYPES, [], []).
Definition undecided_alphas (alphas : list pdict) : list string :=
  map (text_at "entity_id") (List.filter (field_is "status" "inconclusive") alphas).
Definition entities_at (k : string) (d : pdict) : list string := texts_of (default (PList []) (pget k d)).
Definition length_of {A} (l : list A) : pyval := PInt (Z.of_nat (length l)).
Definition counts (d : pydict Z) : pyval := PDict (map (λ kv, (PStr kv.1, PInt kv.2)) d).

(** [_build_summary_cards] *)
Definition build_summary_cards (o : RequiredFormalObjects) : pyval :=
  let '(by_action, overridden, undecided) := tally_of (recommendations o) in
  let alphas := undecided_alphas (alpha_results o) in
  let frozen := match default (PDict []) (pget "freeze_reason_map" (pool o)) with PDict d => length_of d | _ => PInt 0 end in
  record_fields
    [("regime", record_fields (map (λ k, (k, get_or_none k (world_state o)))
       ["baseline_regime"; "llm_delta"; "final_regime"; "llm_rationale"; "actual_model_used"; "actual_provider"]));
     ("pool", record_fields
       [("selected_count", length_of (entities_at "selected_entities" (pool o)));
        ("capacity", get_or_none "official_alpha_pool_capacity" (pool o));
        ("added_count", length_of (entities_at "added_entities" (pool o)));
        ("removed_count", length_of (entities_at "removed_entities" (pool o)));
        ("observation_pool_size", get_or_none "observation_pool_size" (pool o)); ("frozen_count", frozen)]);
     ("recommendations", record_fields
       [("total_count", length_of (recommendations o)); ("by_action", counts by_action);
        ("override_applied_count", length_of overridden)]);
     ("inconclusive", record_fields
       [("alpha_count", length_of alphas); ("recommendation_count", PInt (default 0 (dget "inconclusive" by_action)));
        ("alpha_entity_ids", strings alphas); ("recommendation_entity_ids", strings undecided)]);
     ("overrides", record_fields [("override_applied_count", length_of overridden); ("entity_ids", strings overridden)])].
Definition build_dashboard_snapshot (cycle : string) (b : PublishBundle) : result core_error formal_object :=
  let* o := extract_required_formal_objects cycle b in
  Ok (DerivedObject (Some cycle)
    [(PStr "cycle_id", PStr cycle); (PStr "world_state_ref", PStr (world_state_ref o)); (PStr "pool_ref", PStr (pool_ref o));
     (PStr "recommendation_ref", PStr (recommendation_ref o)); (PStr "summary_cards", build_summary_cards o)]).

(** *** [report.py] *)
Definition FORMAL_REPORT_KEY : string := "report".
Definition ensure_same_cycle (name cycle : string) (payload : pydict pyval) : result core_error () :=
  raise_if match default PNone (dget "cycle_id" payload) with PNone => false | PStr c => negb (String.eqb c cycle) | _ => true end
    with ManifestPublishError (name ++ ".cycle_id must match");
  Ok ().
Definition ensure_ref_points_to_cycle (name r cycle : string) : result core_error () :=
  raise_if negb (contains cycle r) with ManifestPublishError (name ++ " must point to requested cycle_id"); Ok ().
Definition non_empty_text (k : string) (d : pydict pyval) : option string :=
  match dget k d with Some (PStr r) => if is_empty r then None else Some r | _ => None end.
Definition report_manifest_ref (cycle : string) (b : PublishBundle) : result core_error string :=
  let* _ := ensure_same_cycle "manifest_candidate" cycle (manifest_candidate b) in
  match non_empty_text "manifest_ref" (manifest_candidate b) with
  | Some r => let* _ := ensure_ref_points_to_cycle "manifest_ref" r cycle in Ok r
  | None => Err (ManifestPublishError "manifest_candidate.manifest_ref must be reserved before formal report build")
  end.
Definition audit_payload_ref (cycle : string) (b : PublishBundle) : result core_error string :=
  let* _ := ensure_same_cycle "audit_payload" cycle (audit_payload b) in
  match non_empty_text "audit_payload_ref" (audit_payload b) with
  | Some r => let* _ := ensure_ref_points_to_cycle "audit_payload_ref" r cycle in Ok r
  | None =>
      match non_empty_text "ref" (audit_payload b) with
      | Some r => let* _ := ensure_ref_points_to_cycle "ref" r cycle in Ok r
      | None => Ok ("audit_payload/" ++ cycle)
      end
  end.
Definition add_to_action (d : pydict (list string)) (r : pdict) : pydict (list string) :=
  let a := text_at "action_type" r in dset a (default [] (dget a d) ++ [text_at "entity_id" r])%list d.
Definition entity_ids_by_action (recs : list pdict) : pydict (list string) :=
  fold_left add_to_action recs (map (λ a, (a, [])) ACTION_TYPES).
Definition inconclusive_summary (alphas recs : list string) : string :=
  match alphas, recs with
  | [], [] => "No inconclusive alpha results or recommendations for this cycle."
  | _, _ => "Inconclusive outcomes remain explicit for analyst review: " ++ pretty (length alphas) ++ " alpha results and "
            ++ pretty (length recs) ++ " recommendations."
  end.
Definition override_summary (entities : list string) : string :=
  match entities with
  | [] => "No human overrides applied for this cycle."
  | _ => "Human overrides applied to " ++ pretty (length entities) ++ " recommendations."
  end.

(** [_build_narrative_sections]; [dict(v)] takes a mapping, which the map of a
    dumped pool is. *)
Definition build_narrative_sections (o : RequiredFormalObjects) : result core_error pyval :=
  let '(by_action, overridden, undecided) := tally_of (recommendations o) in
  let alphas := undecided_alphas (alpha_results o) in
  let selected := entities_at "selected_entities" (pool o) in
  let regime := get_or_none "final_regime" (world_state o) in
  match default (PDict []) (pget "freeze_reason_map" (pool o)) with
  | PDict reasons =>
      Ok (record_fields
        [("overview", record_fields
           [("summary", PStr (py_str regime ++ " regime with " ++ pretty (length selected) ++ " selected entities and "
               ++ pretty (length (recommendations o)) ++ " current-cycle recommendations."));
            ("recommendation_mix", counts by_action)]);
         ("world_state", record_fields
           [("baseline_regime", get_or_none "baseline_regime" (world_state o)); ("llm_delta", get_or_none "llm_delta" (world_state o));
            ("final_regime", regime); ("rationale", get_or_none "llm_rationale" (world_state o));
            ("fallback_path", default (PList []) (pget "fallback_path" (world_state o)))]);
         ("pool_changes", record_fields
           [("selected_count", length_of selected); ("capacity", get_or_none "official_alpha_pool_capacity" (pool o));
            ("added_entities", strings (entities_at "added_entities" (pool o)));
            ("removed_entities", strings (entities_at "removed_entities" (pool o))); ("freeze_reason_map", PDict reasons)]);
         ("recommendation_summary", record_fields
           [("by_action", counts by_action);
            ("entity_ids_by_action", record_fields (map (λ kv, (kv.1, strings kv.2)) (entity_ids_by_action (recommendations o))));
            ("override_applied_count", length_of overridden)]);
         ("inconclusive_summary", record_fields
           [("summary", PStr (inconclusive_summary alphas undecided)); ("alpha_inconclusive_count", length_of alphas);
            ("recommendation_inconclusive_count", length_of undecided); ("alpha_entity_ids", strings alphas);
            ("recommendation_entity_ids", strings undecided); ("alpha_result_count", length_of (alpha_results o))]);
         ("override_summary", record_fields
           [("summary", PStr (override_summary overridden)); ("override_applied_count", length_of overridden);
            ("entity_ids", strings overridden)])])
  | _ => Err (OtherException "TypeError")
  end.
Definition build_appendix_refs (cycle : string) (b : PublishBundle) (o : RequiredFormalObjects) : result core_error pyval :=
  let* m := report_manifest_ref cycle b in
  let* a := audit_payload_ref cycle b in
  Ok (record_fields
    [("world_state_ref", PStr (world_state_ref o)); ("pool_ref", PStr (pool_ref o)); ("alpha_result_ref", PStr (alpha_ref o));
     ("recommendation_ref", PStr (recommendation_ref o)); ("manifest_ref", PStr m); ("audit_payload_ref", PStr a)]).
Definition build_formal_report (cycle : string) (b : PublishBundle) (report_type : string) : result core_error formal_object :=
  let* o := extract_required_formal_objects cycle b in
  let* sections := build_narrative_sections o in
  let* appendix := build_appendix_refs cycle b o in
  Ok (DerivedObject (Some cycle)
    [(PStr "cycle_id", PStr cycle); (PStr "report_type", PStr report_type); (PStr "recommendation_ref", PStr (recommendation_ref o));
     (PStr "narrative_sections", sections); (PStr "appendix_refs", appendix)]).
(** [build_dashboard_and_report], the builder of [DEFAULT_DERIVED_BUILDERS]. *)
Definition build_dashboard_and_report {W} : builder (W := W) := λ cycle b,
  let! dashboard := lift (build_dashboard_snapshot cycle b) in
  let! report := lift (build_formal_report cycle b "daily") in
  ret [(DASHBOARD_SNAPSHOT_KEY, Some dashboard); (FORMAL_REPORT_KEY, Some report)].
End cards.
End Derived.
