(* ===== verification/PublishProofs.v ===== *)
(** * PublishProofs: a cycle becomes visible last, and whole

    The calls a publication makes of its source, port and builders, what every
    run of it has done when it ends, and what the manifest it writes covers. *)
From Stdlib Require Import String Ascii ZArith List.
From stdpp Require Import base gmap strings list sorting pretty.
From S2P Require Import Prelude PyLib Numbers Programs MainCore Publish.
Import Schemas Assembly.
Local Open Scope string_scope.
Local Open Scope Z_scope.

(** ** Dicts built in order *)
Section dicts.
Context {V : Type}.
Implicit Types d : pydict V.

Lemma dget_elem k v d : NoDup (dkeys d) → dget k d = Some v ↔ (k, v) ∈ d.
Proof. intros Hd. split; [apply dget_Some_elem|by apply elem_of_dget]. Qed.
Lemma dget_keys k d : k ∈ dkeys d → ∃ v, dget k d = Some v.
Proof. intros Hk. by apply elem_of_dkeys in Hk as [v ?]; exists v. Qed.

(** A dict comprehension over things with distinct keys. *)
Lemma fold_dset_distinct {A} (key : A → string) (val : A → V) (l : list A) d :
  NoDup (dkeys d ++ map key l)%list →
  fold_left (λ d x, dset (key x) (val x) d) l d = (d ++ map (λ x, (key x, val x)) l)%list.
Proof.
  revert d. induction l as [|x l IH]; intros d; simpl; [by rewrite !app_nil_r|].
  intros Hd. assert (key x ∉ dkeys d) as Hx.
  { intros Hin. apply NoDup_app in Hd as (_ & Hd & _). apply (Hd _ Hin). left. }
  rewrite dset_new by done. rewrite IH, <- app_assoc; [done|].
  unfold dkeys in *. rewrite map_app, <- app_assoc. exact Hd.
Qed.
Lemma list_filter_none {A} (f : A → bool) (l : list A) : Forall (λ x, f x = false) l → List.filter f l = [].
Proof. induction 1 as [|x l Hx _ IH]; simpl; [done|]. by rewrite Hx. Qed.
Lemma list_filter_all {A} (f : A → bool) (l : list A) : Forall (λ x, f x = true) l → List.filter f l = l.
Proof. induction 1 as [|x l Hx _ IH]; simpl; [done|]. by rewrite Hx, IH. Qed.
End dicts.

(** ** What may be published *)
Section publishable.
Implicit Types (cycle : string) (objects : pydict formal_value) (cs : list CommittedFormalObject).

Definition of_cycle cycle objects : Prop :=
  ∀ k v o, (k, v) ∈ objects → o ∈ objects_of v → object_cycle o = Some cycle.
Definition same_entities (pool : OfficialAlphaPool) (ids : list string) : Prop :=
  NoDup ids ∧ ∀ e, e ∈ ids ↔ e ∈ selected_entities pool.
(** The four canonical objects in their order and then derived ones under keys
    of their own, all of the cycle, with one analysis and one recommendation for
    each entity of the pool. *)
Definition publishable cycle objects : Prop :=
  (∃ ws pool alphas recs derived,
    objects = (canonical_objects ws pool alphas recs ++ derived)%list ∧
    same_entities pool (map al_entity_id alphas) ∧ same_entities pool (map rec_entity_id recs)) ∧
  NoDup (dkeys objects) ∧ of_cycle cycle objects.

Lemma ensure_cycle_ok cycle k o : ensure_cycle_id cycle k o = Ok () ↔ object_cycle o = Some cycle.
Proof. unfold ensure_cycle_id. by case_bool_decide. Qed.
Lemma cycles_ok cycle objects : validate_formal_object_cycles cycle objects = Ok () ↔ of_cycle cycle objects.
Proof.
  unfold validate_formal_object_cycles, of_cycle. rewrite riter_ok, Forall_forall. split.
  - intros H k v o Hkv Ho. specialize (H _ Hkv). unfold ensure_value_cycle in H.
    rewrite riter_ok, Forall_forall in H. by eapply ensure_cycle_ok, H.
  - intros H [k v] Hkv. unfold ensure_value_cycle. apply riter_ok, Forall_forall. intros o Ho. eapply ensure_cycle_ok, H; eauto.
Qed.

Lemma unique_ids_ok key ids seen s :
  rfold (add_unique_id key) seen ids = Ok s ↔ NoDup ids ∧ (∀ e, e ∈ ids → e ∉ seen) ∧ s = list_to_set ids ∪ seen.
Proof.
  revert seen. induction ids as [|e ids IH]; intros seen; simpl.
  - split; [intros [= <-]; repeat split; [constructor|set_solver|set_solver]|intros (_ & _ & ->)]. f_equal. set_solver.
  - unfold add_unique_id at 1. rewrite rbind_ok. split.
    + intros (t & Ht & H). apply rbind_ok in Ht as ([] & Hg & [= <-]). apply guard_err_ok, bool_decide_eq_false in Hg.
      apply IH in H as (Hnd & Hdis & ->). repeat split.
      * constructor; [|done]. intros Hin. apply (Hdis _ Hin). set_solver.
      * intros x [->|Hx]%elem_of_cons; [done|]. specialize (Hdis _ Hx). set_solver.
      * set_solver.
    + intros (Hnd & Hdis & ->). apply NoDup_cons in Hnd as [He Hnd].
      exists ({[e]} ∪ seen). rewrite bool_decide_false by (apply Hdis; left). split; [done|].
      apply IH. repeat split; [done| |set_solver]. intros x Hx. assert (x ∉ seen) by (apply Hdis; by right). set_solver.
Qed.
Lemma refuse_any_ok m s : refuse_any m s = Ok () ↔ s = ∅.
Proof. unfold refuse_any. by case_bool_decide. Qed.

Lemma nothing_left (l1 l2 : list string) :
  @list_to_set string (gset string) _ _ _ l1 ∖ list_to_set l2 = ∅ ↔ ∀ e, e ∈ l1 → e ∈ l2.
Proof.
  rewrite elem_of_equiv_empty_L. split; intros H e.
  - intros He. destruct (decide (e ∈ l2)); [done|]. destruct (H e). set_solver.
  - specialize (H e). set_solver.
Qed.
Lemma consistency_ok pool alphas recs :
  validate_publish_consistency pool alphas recs = Ok () ↔
  same_entities pool (map al_entity_id alphas) ∧ same_entities pool (map rec_entity_id recs).
Proof.
  unfold validate_publish_consistency, same_entities, unique_entity_ids. split.
  - intros (a & (Ha & _ & ->)%unique_ids_ok & ([] & H1%refuse_any_ok & ([] & H2%refuse_any_ok &
      (r & (Hr & _ & ->)%unique_ids_ok & ([] & H3%refuse_any_ok & H4%refuse_any_ok)%rbind_ok)%rbind_ok)%rbind_ok)%rbind_ok)%rbind_ok.
    rewrite union_empty_r_L, nothing_left in H1, H2, H3, H4.
    split; (split; [done|intros e; split; auto]).
  - intros [[Ha Ha'] [Hr Hr']].
    assert (∀ key ids, NoDup ids → rfold (add_unique_id key) ∅ ids = Ok (list_to_set ids)) as Hids.
    { intros key ids Hn. apply unique_ids_ok. split; [done|]. split; [set_solver|by rewrite union_empty_r_L]. }
    apply rbind_ok. exists (list_to_set (map al_entity_id alphas)). split; [by apply Hids|].
    apply rbind_ok. exists (). split; [apply refuse_any_ok, nothing_left; naive_solver|].
    apply rbind_ok. exists (). split; [apply refuse_any_ok, nothing_left; naive_solver|].
    apply rbind_ok. exists (list_to_set (map rec_entity_id recs)). split; [by apply Hids|].
    apply rbind_ok. exists (). split; apply refuse_any_ok, nothing_left; naive_solver.
Qed.

Definition publish_error (e : core_error) : Prop := ∃ m, e = ManifestPublishError m.
Lemma publish_failure_error m e : publish_error (publish_failure m e).
Proof. destruct e; simpl; eexists; done. Qed.
End publishable.

(** ** Runs of a publication *)
Section runs.
Context `{PyText} {W : Type}.
Context (cycle : string) (source : FormalObjectSource W) (port : DataPlatformPublishPort W) (builders : list (builder (W := W))).
Implicit Types (w : W) (items objects : pydict formal_value) (cs : list CommittedFormalObject).

(** The calls that neither commit an object nor write the manifest. *)
Inductive reading : W → W → Prop :=
| read_world_state w : reading w (load_world_state source cycle w).2
| read_pool w : reading w (load_official_alpha_pool source cycle w).2
| read_alphas w : reading w (load_alpha_results source cycle w).2
| read_recommendations w : reading w (load_recommendations source cycle w).2
| read_reservation f w : reserve_cycle_manifest_ref port = Some f → reading w (f cycle w).2
| read_derived b draft w : b ∈ builders → reading w (b cycle draft w).2.

(** Such calls and commits, every one accepted, of these objects in this order. *)
Inductive publishing w0 : pydict formal_value → list CommittedFormalObject → W → Prop :=
| publish_start : publishing w0 [] [] w0
| publish_read items cs w w' : publishing w0 items cs w → reading w w' → publishing w0 items cs w'
| publish_commit items cs w k v c w' :
    publishing w0 items cs w → commit_formal_object port cycle k (commit_payload v) w = (Ok c, w') →
    validate_committed c k (expected_row_count v) = Ok () → publishing w0 (items ++ [(k, v)]) (cs ++ [c]) w'.
(** All a run has done that did not reach the manifest: its last call may be a
    commit that was refused. *)
Definition stopped w0 w' : Prop :=
  ∃ items cs w, publishing w0 items cs w ∧ (w' = w ∨ ∃ k v, w' = (commit_formal_object port cycle k (commit_payload v) w).2).

(** [p], from a run in [I], fails with an error in [E] before the manifest or
    carries the run on into [Q]. *)
Definition carries {A} (E : core_error → Prop) (w0 : W) (I : pydict formal_value → list CommittedFormalObject → Prop)
    (p : program core_error W A) (Q : A → pydict formal_value → list CommittedFormalObject → Prop) : Prop :=
  ∀ items cs w, publishing w0 items cs w → I items cs →
  ∀ r w', p w = (r, w') →
  match r with
  | Ok a => ∃ items' cs', publishing w0 items' cs' w' ∧ Q a items' cs'
  | Err e => E e ∧ stopped w0 w'
  end.

Lemma publishing_stopped w0 items cs w : publishing w0 items cs w → stopped w0 w.
Proof. intros Hp. exists items, cs, w. auto. Qed.

Lemma carries_ret {A} E w0 (a : A) I : carries E w0 I (ret a) (λ x items cs, x = a ∧ I items cs).
Proof. intros items cs w Hp HI r w' [= <- <-]. eauto. Qed.
Lemma carries_mono {A} E w0 (I : _ → _ → Prop) (p : program core_error W A) (Q Q' : A → _ → _ → Prop) :
  carries E w0 I p Q → (∀ a items cs, Q a items cs → Q' a items cs) → carries E w0 I p Q'.
Proof. intros Hp HQ items cs w Hw HI r w' Hr. specialize (Hp items cs w Hw HI r w' Hr). destruct r; naive_solver. Qed.
Lemma carries_bind {A B} E w0 I (p : program core_error W A) Q (k : A → program core_error W B) R :
  carries E w0 I p Q → (∀ a, carries E w0 (Q a) (k a) R) → carries E w0 I (pbind p k) R.
Proof.
  intros Hp Hk items cs w Hw HI r w' [(a & w1 & Ha & Hr)|(e & He & ->)]%pbind_cases.
  - specialize (Hp items cs w Hw HI _ _ Ha) as (items1 & cs1 & Hw1 & HQ). by apply (Hk a items1 cs1 w1).
  - exact (Hp items cs w Hw HI _ _ He).
Qed.
Lemma carries_lift {A} (E : core_error → Prop) w0 I (r : result core_error A) :
  (∀ e, r = Err e → E e) → carries E w0 I (lift r) (λ a items cs, r = Ok a ∧ I items cs).
Proof.
  intros HE items cs w Hw HI r' w' [= <- <-]. destruct r as [a|e]; [eauto|].
  split; [by apply HE|by eapply publishing_stopped].
Qed.
Lemma carries_reading {A} (E : core_error → Prop) w0 I (p : program core_error W A) :
  (∀ w, reading w (p w).2) → (∀ e, E e) → carries E w0 I p (λ _, I).
Proof.
  intros Hp HE items cs w Hw HI r w' Hr. pose proof (publish_read w0 items cs w w' Hw) as Hw'.
  specialize (Hp w). rewrite Hr in Hp. specialize (Hw' Hp). destruct r; [eauto|]. split; [done|by eapply publishing_stopped].
Qed.
Lemma carries_failure {A} w0 I m (p : program core_error W A) Q :
  carries (λ _, True) w0 I p Q → carries publish_error w0 I (map_raise (publish_failure m) p) Q.
Proof.
  intros Hp items cs w Hw HI r w' (r1 & H1 & ->)%map_raise_cases. specialize (Hp items cs w Hw HI r1 w' H1).
  destruct r1 as [a|e]; [done|]. split; [apply publish_failure_error|apply Hp].
Qed.

(** *** Commits *)
Lemma validate_committed_err c k rows e : validate_committed c k rows = Err e → publish_error e.
Proof.
  unfold validate_committed. intros Hc.
  repeat (apply rbind_err in Hc as [[_ ->]%guard_err_err|(? & _ & Hc)]; [by eexists|]). done.
Qed.
Lemma commit_one_carries w0 pre pcs k v :
  carries publish_error w0 (λ items cs, items = pre ∧ cs = pcs) (commit_one cycle port k v)
    (λ c items cs, items = (pre ++ [(k, v)])%list ∧ cs = (pcs ++ [c])%list).
Proof.
  intros items cs w Hw [-> ->] r w' Hr. unfold commit_one in Hr.
  apply pbind_cases in Hr as [(c & w1 & Hc%map_raise_ok & Hr)|(e & He & ->)].
  - unfold pbind, lift, ret in Hr. destruct (validate_committed c k _) as [[]|e] eqn:Hv; injection Hr as <- <-.
    + exists (pre ++ [(k, v)])%list, (pcs ++ [c])%list. split; [by eapply publish_commit|done].
    + split; [by eapply validate_committed_err|]. exists pre, pcs, w. split; [done|]. right. exists k, v. by rewrite Hc.
  - apply map_raise_cases in He as (r1 & H1 & He). destruct r1 as [?|e1]; [done|]. injection He as ->.
    split; [apply publish_failure_error|]. exists pre, pcs, w. split; [done|]. right. exists k, v. by rewrite H1.
Qed.
Lemma commit_keys_carries w0 objects l pre pcs :
  (∀ k v, (k, v) ∈ l → dget k objects = Some v) →
  carries publish_error w0 (λ items cs, items = pre ∧ cs = pcs) (commit_keys cycle port objects (dkeys l))
    (λ more items cs, items = (pre ++ l)%list ∧ cs = (pcs ++ more)%list).
Proof.
  revert pre pcs. induction l as [|[k v] l IH]; intros pre pcs Hl; simpl.
  - eapply carries_mono; [apply carries_ret|]. cbn beta. intros ? ? ? (-> & -> & ->). by rewrite !app_nil_r.
  - rewrite (Hl k v) by left. eapply carries_bind; [apply commit_one_carries|]. intros c. cbn beta.
    eapply carries_bind; [apply IH; intros; apply Hl; by right|]. intros more. cbn beta.
    intros items cs w Hw [-> ->] r w' [= <- <-]. eexists _, _. split; [exact Hw|]. by rewrite <- !app_assoc.
Qed.

(** *** The order of the objects *)
Lemma is_canonical_true k : is_canonical k = true ↔ k ∈ CANONICAL_FORMAL_OBJECT_KEYS.
Proof. apply bool_decide_eq_true. Qed.
Lemma ordered_canonical ws pool alphas recs (derived : pydict formal_value) :
  NoDup (dkeys (canonical_objects ws pool alphas recs ++ derived)%list) →
  ordered_object_keys (canonical_objects ws pool alphas recs ++ derived)%list =
  dkeys (canonical_objects ws pool alphas recs ++ derived)%list.
Proof.
  intros Hn. unfold ordered_object_keys. set (objects := (_ ++ derived)%list).
  rewrite list_filter_all by (repeat constructor). unfold objects, dkeys in *. rewrite map_app in *.
  change (map fst (canonical_objects ws pool alphas recs)) with CANONICAL_FORMAL_OBJECT_KEYS in *.
  f_equal. rewrite List.filter_app, (list_filter_none _ CANONICAL_FORMAL_OBJECT_KEYS) by (repeat constructor).
  simpl. apply list_filter_all. apply Forall_forall. intros k Hk. apply negb_true_iff, not_true_iff_false. rewrite is_canonical_true.
  intros Hc. apply NoDup_app in Hn as (_ & Hn & _). by apply (Hn k).
Qed.
Lemma ordered_derived (derived : pydict formal_value) :
  (∀ k, k ∈ dkeys derived → k ∉ CANONICAL_FORMAL_OBJECT_KEYS) → ordered_object_keys derived = dkeys derived.
Proof.
  intros Hd. unfold ordered_object_keys. rewrite list_filter_none; [simpl|].
  - apply list_filter_all, Forall_forall. intros k Hk. apply negb_true_iff, not_true_iff_false. rewrite is_canonical_true. by apply Hd.
  - apply Forall_forall. intros k Hk. apply not_true_iff_false. rewrite dhas_true. intros Hin. by apply (Hd k).
Qed.
Lemma commit_objects_carries w0 objects pre pcs :
  NoDup (dkeys objects) → ordered_object_keys objects = dkeys objects →
  carries publish_error w0 (λ items cs, items = pre ∧ cs = pcs) (commit_formal_objects cycle objects port)
    (λ more items cs, items = (pre ++ objects)%list ∧ cs = (pcs ++ more)%list).
Proof.
  intros Hn Ho. unfold commit_formal_objects. rewrite Ho. apply commit_keys_carries.
  intros k v Hkv. by apply dget_elem.
Qed.

(** *** What is loaded *)
Lemma refuse_any_err m s e : refuse_any m s = Err e → publish_error e.
Proof. unfold refuse_any. case_bool_decide; [done|]. intros [= <-]. by eexists. Qed.
Lemma cycle_err k o e : ensure_cycle_id cycle k o = Err e → publish_error e.
Proof. unfold ensure_cycle_id. case_bool_decide; [done|]. intros [= <-]. by eexists. Qed.
Lemma cycles_err objects e : validate_formal_object_cycles cycle objects = Err e → publish_error e.
Proof.
  intros ([k v] & _ & (o & _ & Ho)%riter_err)%riter_err. by eapply cycle_err.
Qed.
Lemma rfold_err {A B} (f : B → A → result core_error B) (P : core_error → Prop) l acc e :
  (∀ b x e, f b x = Err e → P e) → rfold f acc l = Err e → P e.
Proof.
  intros Hf. revert acc. induction l as [|x l IH]; intros acc; simpl; [done|].
  intros [He|(b & _ & He)]%rbind_err; [by eapply Hf|by eapply IH].
Qed.
Lemma unique_ids_err key ids e : unique_entity_ids key ids = Err e → publish_error e.
Proof.
  apply rfold_err. intros b x e'. unfold add_unique_id. case_bool_decide; [|done]. intros [= <-]. by eexists.
Qed.
Lemma consistency_err pool alphas recs e : validate_publish_consistency pool alphas recs = Err e → publish_error e.
Proof.
  unfold validate_publish_consistency. intros He.
  repeat (apply rbind_err in He as [He|(? & _ & He)]; [first [by eapply unique_ids_err | by eapply refuse_any_err]|]).
  by eapply refuse_any_err.
Qed.

Definition loaded_objects objects : Prop :=
  ∃ ws pool alphas recs, objects = canonical_objects ws pool alphas recs ∧
    same_entities pool (map al_entity_id alphas) ∧ same_entities pool (map rec_entity_id recs) ∧ of_cycle cycle objects.
Lemma collect_carries w0 :
  carries publish_error w0 (λ items cs, items = [] ∧ cs = []) (collect_formal_objects cycle source)
    (λ objects items cs, loaded_objects objects ∧ items = [] ∧ cs = []).
Proof.
  unfold collect_formal_objects. eapply carries_bind with (Q := λ _ items cs, items = [] ∧ cs = []).
  { apply carries_failure. unfold load_objects.
    eapply carries_bind; [apply carries_reading; [intros; constructor|done]|]. intros ws.
    eapply carries_bind; [apply carries_reading; [intros; constructor|done]|]. intros pool.
    eapply carries_bind; [apply carries_reading; [intros; constructor|done]|]. intros alphas.
    eapply carries_bind; [apply carries_reading; [intros; constructor|done]|]. intros recs.
    eapply carries_mono; [apply carries_ret|]. cbn beta. naive_solver. }
  intros [[[ws pool] alphas] recs].
  eapply carries_bind; [apply carries_lift; apply cycles_err|]. intros []. cbn beta.
  eapply carries_bind; [apply carries_lift; apply consistency_err|]. intros []. cbn beta.
  eapply carries_mono; [apply carries_ret|]. cbn beta. intros objects items cs (-> & Hc%consistency_ok & Ho%cycles_ok & HI).
  split; [|done]. exists ws, pool, alphas, recs. naive_solver.
Qed.
Lemma reserve_carries w0 I : carries publish_error w0 I (reserve_ref cycle port) (λ _, I).
Proof.
  unfold reserve_ref. destruct (reserve_cycle_manifest_ref port) as [f|] eqn:Hf.
  - eapply carries_bind; [apply carries_failure, carries_reading; [intros; by constructor|done]|]. intros v. cbn beta.
    destruct v as [| | | |s| | | |];
      try (intros items cs w Hw HI r w' [= <- <-]; split; [by eexists|by eapply publishing_stopped]).
    eapply carries_bind; [apply carries_lift; intros e [_ ->]%guard_err_err; by eexists|]. intros u.
    eapply carries_mono; [apply carries_ret|]. naive_solver.
  - intros items cs w Hw HI r w' [= <- <-]. split; [by eexists|by eapply publishing_stopped].
Qed.

(** *** The objects of a bundle *)
Lemma validate_committed_ok c k rows :
  validate_committed c k rows = Ok () ↔
  object_key c = k ∧ non_empty_string (ref c) = true ∧ non_empty_string (snapshot_id c) = true ∧
  non_empty_string (payload_hash c) = true ∧ 0 <= row_count c ∧ row_count c = rows.
Proof.
  unfold validate_committed. split.
  - intros Hc. rinv. to_prop. naive_solver.
  - intros (-> & -> & -> & -> & Hr & <-). rewrite String.eqb_refl, Z.eqb_refl.
    simpl. destruct (row_count c <? 0) eqn:E; [|done]. to_prop. lia.
Qed.
Definition committed_for (kv : string * formal_value) (c : CommittedFormalObject) : Prop :=
  validate_committed c kv.1 (expected_row_count kv.2) = Ok ().
Lemma publishing_accepted w0 items cs w : publishing w0 items cs w → Forall2 committed_for items cs.
Proof. induction 1 as [|items cs w w' _ IH _|items cs w k v c w' _ IH _ Hv]; [constructor|done|]. apply Forall2_app; [done|]. by constructor. Qed.
Lemma committed_keys objects cs : Forall2 committed_for objects cs → map object_key cs = dkeys objects.
Proof.
  induction 1 as [|[k v] c l lc Hc _ IH]; simpl; [done|]. apply validate_committed_ok in Hc as [Hk _]. by rewrite IH, Hk.
Qed.

Definition published objects cs : pydict pyval := zip_with (λ kv c, (kv.1, bundle_entry kv.2 (ref c))) objects cs.
Lemma bundle_fold objects by_key l lc (d : pydict pyval) :
  Forall2 committed_for l lc → (∀ k v, (k, v) ∈ l → dget k objects = Some v) →
  (∀ c, c ∈ lc → dget (object_key c) by_key = Some c) → NoDup (dkeys d ++ dkeys l)%list →
  rfold (bundle_object objects by_key) d (dkeys l) = Ok (d ++ published l lc)%list.
Proof.
  intros Hl. revert d. induction Hl as [|[k v] c l lc Hc _ IH]; intros d Ho Hk Hn; simpl; [by rewrite app_nil_r|].
  apply validate_committed_ok in Hc as [Hkey _]. cbn in Hkey. unfold bundle_object at 1.
  rewrite <- Hkey at 1. rewrite (Hk c) by left. rewrite (Ho k v) by left. simpl.
  assert (k ∉ dkeys d) as Hkd. { intros Hin. apply NoDup_app in Hn as (_ & Hn & _). apply (Hn _ Hin). left. }
  rewrite dset_new by done. rewrite IH.
  - by rewrite <- app_assoc.
  - intros; apply Ho; by right.
  - intros; apply Hk; by right.
  - unfold dkeys in *. rewrite map_app, <- app_assoc. exact Hn.
Qed.
Lemma bundle_built objects cs :
  publishable cycle objects → Forall2 committed_for objects cs →
  build_bundle_formal_objects objects cs = Ok (published objects cs).
Proof.
  intros [(ws & pool & alphas & recs & derived & -> & _) [Hn _]] Hc. unfold build_bundle_formal_objects.
  rewrite ordered_canonical by done. pose proof (committed_keys _ _ Hc) as Hk.
  unfold committed_by_key. rewrite (fold_dset_distinct object_key (λ c, c) cs []) by (simpl; by rewrite Hk).
  apply (bundle_fold _ _ _ _ [] Hc); [intros k v; by apply dget_elem| |done].
  intros c Hin. apply elem_of_dget; [|apply list_elem_of_In, in_map_iff; exists c; split; [done|by apply list_elem_of_In]].
  unfold dkeys. simpl. rewrite map_map. change (NoDup (map object_key cs)). by rewrite Hk.
Qed.

(** *** Derived objects *)
Lemma add_derived_step active kv active' :
  add_derived cycle active kv = Ok active' →
  ∃ o, kv.2 = Some o ∧ (kv.1 ∉ dkeys active) ∧ object_cycle o = Some cycle ∧ active' = (active ++ [(kv.1, Single o)])%list.
Proof.
  unfold add_derived. intros H1. rinv. destruct kv as [k [o|]]; [|done]. cbn in *. rinv.
  rename Ha into Hk. apply not_true_iff_false in Hk. rewrite dhas_true in Hk.
  match goal with Ho : ensure_cycle_id _ _ _ = _ |- _ => apply ensure_cycle_ok in Ho end.
  exists o. rewrite dset_new by done. done.
Qed.
Lemma add_derived_err active kv e : add_derived cycle active kv = Err e → publish_error e.
Proof.
  unfold add_derived. intros [[_ ->]%guard_err_err|(? & _ & H1)]%rbind_err; [by eexists|].
  destruct kv.2; [|injection H1 as <-; by eexists].
  apply rbind_err in H1 as [H1|(? & _ & H1)]; [by eapply cycle_err|done].
Qed.
Lemma add_derived_ok active derived active' :
  rfold (add_derived cycle) active derived = Ok active' → publishable cycle active →
  active' = (active ++ derived_values derived)%list ∧ publishable cycle active'.
Proof.
  revert active. induction derived as [|[k o'] derived IH]; intros active; simpl.
  { intros [= <-] Hp. by rewrite app_nil_r. }
  intros (a1 & (o & Ho & Hk & Hc & ->)%add_derived_step & Hr)%rbind_ok Hp. cbn in Ho, Hk. subst o'. simpl.
  destruct (IH _ Hr) as [-> ?]; [|by rewrite <- app_assoc in *].
  destruct Hp as [(ws & pool & alphas & recs & more & -> & He) [Hn Hof]]. split; [|split].
  - exists ws, pool, alphas, recs, (more ++ [(k, Single o)])%list. by rewrite app_assoc.
  - unfold dkeys. rewrite map_app. apply NoDup_app. split; [done|]. split; [|apply NoDup_singleton].
    intros x Hx ->%list_elem_of_singleton. done.
  - intros k' v' o' [Hin|[= -> ->]%list_elem_of_singleton]%elem_of_app; [by eapply Hof|]. by intros ->%list_elem_of_singleton.
Qed.
Lemma derived_keys_fresh active derived :
  publishable cycle (active ++ derived)%list → publishable cycle active →
  NoDup (dkeys derived) ∧ ordered_object_keys derived = dkeys derived.
Proof.
  intros [_ [Hn _]] [(ws & pool & alphas & recs & more & -> & _) _].
  unfold dkeys in Hn. rewrite map_app in Hn. apply NoDup_app in Hn as (_ & Hd & Hn). split; [done|].
  apply ordered_derived. intros k Hk Hc. apply (Hd k); [|done]. rewrite map_app, elem_of_app. by left.
Qed.

(** Between builders, what is committed is what is active. *)
Definition settled_at (state : pydict formal_value * list CommittedFormalObject) items cs : Prop :=
  items = state.1 ∧ cs = state.2 ∧ publishable cycle state.1.
Lemma derive_one_carries w0 reserved b state :
  b ∈ builders → carries publish_error w0 (settled_at state) (derive_one cycle port reserved b state) settled_at.
Proof.
  intros Hb. destruct state as [active cs]. unfold derive_one.
  eapply (carries_bind _ _ _ _ (λ _ : pydict pyval, settled_at (active, cs))).
  { intros items cs' w Hw (-> & -> & Hp) r w' [= <- <-]. cbn [fst snd] in *.
    rewrite bundle_built; [|done|by eapply publishing_accepted]. by exists active, cs. }
  intros objects. eapply carries_bind; [apply carries_failure, carries_reading; [intros; by constructor|done]|].
  intros derived. cbn beta.
  eapply carries_bind; [apply carries_lift; intros e; apply rfold_err; intros; by eapply add_derived_err|].
  intros active'. cbn beta. intros items cs' w Hw (Hr & -> & -> & Hp). cbn [fst snd] in *.
  destruct (add_derived_ok _ _ _ Hr Hp) as [Ha Hp'].
  assert (carries publish_error w0 (λ items cs', items = active ∧ cs' = cs)
    (let! more := commit_formal_objects cycle (derived_values derived) port in ret (active', (cs ++ more)%list)) settled_at) as Hgo;
    [|exact (Hgo active cs w Hw (conj eq_refl eq_refl))].
  destruct (derived_keys_fresh active (derived_values derived)) as [Hn Hord]; [by rewrite <- Ha|done|].
  eapply carries_bind; [by apply commit_objects_carries|]. intros more. cbn beta.
  intros items cs' w' Hw' [-> ->] r w1 [= <- <-]. eexists _, _. split; [exact Hw'|]. by rewrite <- Ha.
Qed.
Lemma derive_all_carries w0 reserved bs state :
  (∀ b, b ∈ bs → b ∈ builders) →
  carries publish_error w0 (settled_at state) (derive_all cycle port reserved bs state) settled_at.
Proof.
  revert state. induction bs as [|b bs IH]; intros state Hbs; simpl.
  - eapply carries_mono; [apply carries_ret|]. cbn beta. by intros ? ? ? [-> ?].
  - eapply carries_bind; [apply derive_one_carries, Hbs; left|]. intros st. cbn beta. apply IH. intros; apply Hbs. by right.
Qed.

(** *** The manifest *)

(** The manifest that was written names a version, is the one reserved, and holds
    the snapshot of every commit and of nothing else. *)
Definition manifest_agrees (m : ManifestWriteResult) (expected : option string) cs : Prop :=
  non_empty_string (manifest_ref m) = true ∧ non_empty_string (manifest_version m) = true ∧
  (∀ k, k ∈ dkeys (table_snapshots m) ↔ k ∈ map object_key cs) ∧
  (∀ c, c ∈ cs → dget (object_key c) (table_snapshots m) = Some (PStr (snapshot_id c))) ∧
  (∀ r, expected = Some r → manifest_ref m = r).
Lemma check_snapshot_ok snapshots k s :
  non_empty_string s = true → check_snapshot snapshots (k, s) = Ok () ↔ dget k snapshots = Some (PStr s).
Proof.
  unfold check_snapshot, non_empty_string. intros Hs%negb_true_iff. cbn [fst snd]. split.
  - intros Hc. rinv. destruct (dget k snapshots) as [[]|]; simpl in *; try done. to_prop. by subst.
  - intros ->. simpl. rewrite Hs. simpl. by rewrite String.eqb_refl.
Qed.
Lemma snapshots_ok objects cs m :
  Forall2 committed_for objects cs → NoDup (dkeys objects) →
  validate_manifest_write m cs = Ok () ↔ manifest_agrees m None cs.
Proof.
  intros Hc Hn. pose proof (committed_keys _ _ Hc) as Hk.
  assert (snapshots_of cs = map (λ c, (object_key c, snapshot_id c)) cs) as Hs.
  { unfold snapshots_of. by rewrite (fold_dset_distinct object_key snapshot_id cs []) by (simpl; by rewrite Hk). }
  assert (dkeys (map (λ c, (object_key c, snapshot_id c)) cs) = map object_key cs) as Hks.
  { unfold dkeys. by rewrite map_map. }
  assert (Forall (λ c, non_empty_string (snapshot_id c) = true) cs) as Hids.
  { clear -Hc. induction Hc as [|kv c l lc Hv _ IH]; constructor; [|done]. by apply validate_committed_ok in Hv as (_ & _ & ? & _). }
  rewrite Forall_forall in Hids.
  unfold validate_manifest_write, manifest_agrees. rewrite Hs, Hks. split.
  - intros Hv. rinv. repeat match goal with Hr : refuse_any _ _ = _ |- _ => apply refuse_any_ok in Hr; rewrite nothing_left in Hr end.
    rewrite riter_ok, Forall_forall in Hv. to_prop. split_and!; [done|done|naive_solver| |done].
    intros c Hin. apply check_snapshot_ok; [by apply Hids|]. apply Hv.
    apply list_elem_of_In, in_map_iff. exists c. split; [done|by apply list_elem_of_In].
  - intros (Href & Hver & Hkeys & Hsnap & _). rewrite Href, Hver. simpl.
    apply rbind_ok. exists (). split; [apply refuse_any_ok, nothing_left; naive_solver|].
    apply rbind_ok. exists (). split; [apply refuse_any_ok, nothing_left; naive_solver|].
    apply riter_ok, Forall_forall. intros kv (c & <- & Hin)%list_elem_of_In%in_map_iff.
    apply list_elem_of_In in Hin. apply check_snapshot_ok; [by apply Hids|by apply Hsnap].
Qed.
Lemma validate_manifest_write_err m cs e : validate_manifest_write m cs = Err e → publish_error e.
Proof.
  unfold validate_manifest_write. intros He.
  repeat (apply rbind_err in He as [He|(? & _ & He)];
    [first [by eapply refuse_any_err|apply guard_err_err in He as [_ ->]; by eexists]|]).
  apply riter_err in He as (kv & _ & He). unfold check_snapshot in He.
  repeat (apply rbind_err in He as [[_ ->]%guard_err_err|(? & _ & He)]; [by eexists|]). done.
Qed.

(** What is returned for a manifest that agrees. *)
Definition bundle_of objects cs (m : ManifestWriteResult) : PublishBundle :=
  mkPublishBundle cycle (published objects cs) (build_manifest_candidate cycle cs (Some m))
    (build_audit_payload cycle (published objects cs) cs m) (build_retrospective_seed cycle (published objects cs) cs).
Definition manifest_written w0 (r : result core_error PublishBundle) (w' : W) : Prop :=
  ∃ objects cs expected w outcome,
    publishing w0 objects cs w ∧ publishable cycle objects ∧ (expected = None ↔ builders = []) ∧
    write_cycle_manifest port cycle cs expected w = (outcome, w') ∧
    ((∃ m, outcome = Ok m ∧ manifest_agrees m expected cs ∧ r = Ok (bundle_of objects cs m)) ∨
     ((∀ m, outcome = Ok m → ¬ manifest_agrees m expected cs) ∧ ∃ e, r = Err e ∧ publish_error e)).
Lemma write_manifest_cases objects cs expected w r w' :
  Forall2 committed_for objects cs → publishable cycle objects →
  write_manifest_after_commits cycle cs port expected w = (r, w') →
  ∃ outcome, write_cycle_manifest port cycle cs expected w = (outcome, w') ∧
    ((∃ m, outcome = Ok m ∧ manifest_agrees m expected cs ∧ r = Ok m) ∨
     ((∀ m, outcome = Ok m → ¬ manifest_agrees m expected cs) ∧ ∃ e, r = Err e ∧ publish_error e)).
Proof.
  intros Hc [_ [Hn _]] Hr. unfold write_manifest_after_commits in Hr.
  apply pbind_cases in Hr as [(m & w1 & Hm%map_raise_ok & Hr)|(e & He & ->)].
  - assert (w1 = w') as -> by (unfold pbind, lift, ret in Hr; repeat case_match; congruence).
    exists (Ok m). split; [done|]. pose proof (snapshots_ok _ _ m Hc Hn) as Hv.
    unfold pbind at 1, lift at 1 in Hr. destruct (validate_manifest_write m cs) as [[]|e] eqn:Hm'.
    + destruct Hv as [Hv _]. specialize (Hv eq_refl) as (H1 & H2 & H3 & H4 & _).
      apply pbind_cases in Hr as [(u & w1 & Hg & Hr)|(e & He & ->)].
      * left. exists m. injection Hr as <- _. unfold lift in Hg. injection Hg as Hg _. split_and!; [done| |done]. apply guard_err_ok in Hg.
        split_and!; [done..|]. intros r ->. by to_prop.
      * right. unfold lift in He. injection He as He. apply guard_err_err in He as [Hg ->]. split; [|eexists; split; [done|by eexists]].
        intros m' [= <-] (_ & _ & _ & _ & He). destruct expected as [r|]; [|done]. to_prop. by apply Hg, He.
    + right. injection Hr as <-. split; [|exists e; split; [done|by eapply validate_manifest_write_err]].
      intros m' [= <-] Ha. destruct Hv as [_ Hv]. discriminate Hv. destruct Ha as (? & ? & ? & ? & _). done.
  - apply map_raise_cases in He as (r1 & H1 & He). exists r1. split; [done|]. destruct r1 as [?|e1]; [done|]. injection He as ->.
    right. split; [done|]. exists (publish_failure "failed to write cycle publish manifest" e1). split; [done|apply publish_failure_error].
Qed.

Lemma reserved_carries w0 I :
  carries publish_error w0 I
    match builders with [] => ret None | _ :: _ => let! r := reserve_ref cycle port in ret (Some r) end
    (λ reserved items cs, (reserved = None ↔ builders = []) ∧ I items cs).
Proof.
  destruct builders as [|b bs] eqn:Hb; rewrite <- Hb.
  - eapply carries_mono; [apply carries_ret|]. cbn beta. rewrite Hb. naive_solver.
  - eapply carries_bind; [apply reserve_carries|]. intros r. eapply carries_mono; [apply carries_ret|].
    cbn beta. rewrite Hb. naive_solver.
Qed.
Lemma commits_carry w0 objects reserved :
  loaded_objects objects →
  carries publish_error w0 (λ items cs, items = [] ∧ cs = []) (commit_with_derived_builders cycle objects port builders reserved)
    settled_at.
Proof.
  intros (ws & pool & alphas & recs & -> & Ha & Hr & Ho). unfold commit_with_derived_builders.
  set (objects := canonical_objects ws pool alphas recs) in *.
  assert (NoDup (dkeys objects)) as Hn by (by apply (bool_decide_unpack _)).
  eapply carries_bind.
  { apply commit_objects_carries; [done|]. unfold objects. rewrite <- (app_nil_r (canonical_objects _ _ _ _)).
    apply ordered_canonical. by rewrite app_nil_r. }
  intros more. cbn beta. rewrite !app_nil_l. intros items cs w Hw [-> ->].
  refine (derive_all_carries w0 reserved builders (objects, more) _ objects more w Hw _); [done|].
  split; [done|]. split; [done|]. split; [|done].
  exists ws, pool, alphas, recs, []. by rewrite app_nil_r.
Qed.

(** C10: a cycle becomes visible last and whole. A publication either raises a
    publication error before it has written a manifest, having made only reads,
    reservations, derivations and accepted commits (and at most one commit that
    was refused), or it writes the manifest with its last call, after it has
    committed exactly the objects to publish, each once and in their order, with
    the manifest told of all their commits. It then returns the bundle of those
    objects when the manifest that was written is the one reserved and holds each
    commit's snapshot and nothing else, and raises otherwise. The objects are the
    four canonical ones and then the derived, all of the cycle, with one analysis
    and one recommendation for each entity of the pool. *)
Theorem manifest_is_last w0 :
  let '(r, w') := prepare_publish_bundle cycle source port builders w0 in
  (∃ e, r = Err e ∧ publish_error e ∧ stopped w0 w') ∨ manifest_written w0 r w'.
Proof.
  destruct (prepare_publish_bundle cycle source port builders w0) as [r w'] eqn:Hrun. unfold prepare_publish_bundle in Hrun.
  apply pbind_cases in Hrun as [(objects & w1 & Hc & Hrun)|(e & He & ->)];
    [|left; exists e; split; [done|]; exact (collect_carries w0 _ _ _ (publish_start w0) (conj eq_refl eq_refl) _ _ He)].
  destruct (collect_carries w0 _ _ _ (publish_start w0) (conj eq_refl eq_refl) _ _ Hc) as (items & cs0 & Hw1 & Hl & -> & ->).
  apply pbind_cases in Hrun as [(reserved & w2 & Hres & Hrun)|(e & He & ->)];
    [|left; exists e; split; [done|]; exact (reserved_carries w0 (λ items cs, items = [] ∧ cs = []) _ _ _ Hw1 (conj eq_refl eq_refl) _ _ He)].
  destruct (reserved_carries w0 (λ items cs, items = [] ∧ cs = []) _ _ _ Hw1 (conj eq_refl eq_refl) _ _ Hres)
    as (items & cs0 & Hw2 & Hb & -> & ->).
  apply pbind_cases in Hrun as [([active cs] & w3 & Hcom & Hrun)|(e & He & ->)];
    [|left; exists e; split; [done|]; exact (commits_carry w0 objects reserved Hl _ _ _ Hw2 (conj eq_refl eq_refl) _ _ He)].
  destruct (commits_carry w0 objects reserved Hl _ _ _ Hw2 (conj eq_refl eq_refl) _ _ Hcom) as (items & cs0 & Hw3 & -> & -> & Hp).
  cbn [fst snd] in *. pose proof (publishing_accepted _ _ _ _ Hw3) as Hacc. right.
  apply pbind_cases in Hrun as [(m & w4 & Hm & Hrun)|(e & He & ->)].
  - destruct (write_manifest_cases _ _ _ _ _ _ Hacc Hp Hm) as (outcome & Hout & [(m' & -> & Hag & [= <-])|(_ & ? & ? & _)]); [|done].
    unfold pbind, lift, ret in Hrun. rewrite bundle_built in Hrun by done. injection Hrun as <- <-.
    exists active, cs, reserved, w3, (Ok m). split_and!; [done..|]. left. by exists m.
  - destruct (write_manifest_cases _ _ _ _ _ _ Hacc Hp He) as (outcome & Hout & [(m' & _ & _ & ?)|Hno]); [done|].
    exists active, cs, reserved, w3, outcome. split_and!; [done..|]. right. destruct Hno as [Hno (e' & [= ->] & Hpe)]. eauto.
Qed.
End runs.

(** ** Examples *)
Module PublishExamples.
#[local] Instance example_text : PyText := {
  py_str v := match v with PStr s => s | _ => "?" end;
  py_str_text s := eq_refl;
  json_quote s := s;
  json_float _ := "";
  isoformat _ := "";
  sha256 _ := 0;
}.
(** A port over the list of its calls, which publishes under [v1] the manifest
    that was reserved. *)
Definition log := list string.
Definition example_committed (k : string) (rows : Z) : CommittedFormalObject :=
  mkCommitted k (k ++ "/c1/1") ("snapshot-" ++ k) "hash" rows.
Definition example_rows (payload : pdict) : Z := match pget "count" payload with Some (PInt n) => n | _ => 1 end.
Definition example_port : DataPlatformPublishPort log :=
  mkPort log (Some (λ cycle w, (Ok (PStr ("manifest/" ++ cycle)), w)))
    (λ cycle k payload w, (Ok (example_committed k (example_rows payload)), w ++ [k])%list)
    (λ cycle cs expected w,
      (Ok (mkManifest (default "manifest/other" expected) "v1" (map (λ c, (object_key c, PStr (snapshot_id c))) cs)),
       w ++ ["manifest"])%list).
Definition example_pool : OfficialAlphaPool := mkPool "c1" 5 2 ["600519"] [] [] [].
Definition example_alpha (e : string) : AlphaResultSnapshot :=
  mkAlpha "c1" e "multi" None (float_of_Z 0) "" [] alpha_inconclusive.
Definition example_recommendation (e : string) : RecommendationSnapshot :=
  mkRecommendation "c1" e inconclusive None None by_system false [].
Definition example_source (recs : list RecommendationSnapshot) : FormalObjectSource log :=
  mkSource log (λ _, ret (mkWorldState "c1" neutral 0 neutral "" "" "" []))
    (λ _, ret example_pool) (λ _, ret [example_alpha "600519"]) (λ _, ret recs).
Definition run (recs : list RecommendationSnapshot) (builders : list builder) : result core_error (list string) * log :=
  match prepare_publish_bundle "c1" (example_source recs) example_port builders [] with
  | (Ok b, w) => (Ok (dkeys (formal_objects b)), w)
  | (Err e, w) => (Err e, w)
  end.
Example default_builders_publish :
  run [example_recommendation "600519"] [Derived.build_dashboard_and_report] =
  (Ok (CANONICAL_FORMAL_OBJECT_KEYS ++ ["dashboard_snapshot"; "report"])%list,
   (CANONICAL_FORMAL_OBJECT_KEYS ++ ["dashboard_snapshot"; "report"; "manifest"])%list).
Proof. vm_compute. reflexivity. Qed.
Example missing_recommendation :
  run [] [Derived.build_dashboard_and_report] =
  (Err (ManifestPublishError "missing recommendation for selected pool entities: 600519"), []).
Proof. vm_compute. reflexivity. Qed.
Example duplicate_derived_key :
  run [example_recommendation "600519"] [λ _ _, ret [(OFFICIAL_ALPHA_POOL_KEY, None)]] =
  (Err (ManifestPublishError "derived formal object duplicates key official_alpha_pool"), CANONICAL_FORMAL_OBJECT_KEYS).
Proof. vm_compute. reflexivity. Qed.
End PublishExamples.
